(* ===== verification/_CoqProject ===== *)
-Q . S2P
Prelude.v
Json.v
Blake2b.v
Qos.v
Sequence.v
Policy.v
KvPolicy.v
RadixCache.v
RadixSpec.v
RadixOps.v
RadixRemove.v
RadixLru.v
RadixContract.v
BlockManager.v
BlockInv.v
BlockSpec.v
BlockAgain.v
HierarchicalCache.v
StorageBackend.v
KvPage.v
KvPageSpec.v
ModelRunner.v
ModelRunnerSpec.v
RankCalls.v
Tensor.v
ParallelLinear.v
ParallelSpec.v
Qwen3.v
CacheSpec.v
Qwen3Spec.v
Loader.v
LoaderSpec.v
Qwen3Load.v
RemoteCatalog.v
PrefixCatalog.v
PrefixCatalogSpec.v
TransferCoordinator.v
TransferSpec.v
TransferContract.v
SchedulerTrace.v
Scheduler.v
Config.v
SchedulerInv.v
SchedulerReclaim.v
SchedulerDecode.v
SchedulerPrefill.v
SchedulerLoop.v
SchedulerContract.v
SchedulerStep.v
RemoteRestore.v
RemoteRestoreSpec.v
LlmEngine.v
EngineRun.v
EventQueue.v
EngineWorker.v
EngineWorkerSpec.v
EngineWorkerStop.v
EngineServing.v
MockEngine.v
Protocol.v
HttpApp.v
HttpAppSpec.v
ServeMain.v
TransformersServer.v
Examples.v
EngineExamples.v
RemoteExamples.v
ServeExamples.v
TensorExamples.v
