(* ===== verification/Prelude.v ===== *)
(** * Nano-vLLM QoS Lab: a verification library

    The repository is an LLM serving engine with a quality-of-service scheduler:
    requests with latency targets share one GPU's paged KV cache; pages are found
    again through a prefix index, reclaimed under pressure, and moved to and from a
    remote object store. This library models the Python under [src/nanovllm/]: the engine,
    the layers and the model it runs on each rank, and the server in front of it, with the
    Transformers server of [scripts/] that speaks the same protocol. It proves what each
    part promises the others, up to the states of a whole run of the engine, the logits of
    a group of ranks, and the answer to a request.

    ** How the parts interact

    [LLMEngine] ([llm_engine.py]) owns everything: it takes requests in, and a step asks
    the scheduler for a batch, runs it through the model runner ([model_runner.py]), and
    hands the sampled tokens back to the scheduler.
    [Scheduler.schedule] picks requests with a policy ([qos.py]), asks the block
    manager for pages ([block_manager.py]), which finds cached prefixes in a hash
    table or in the radix index ([radix_cache.py]), evicts through the latter, and
    reclaims pages of preempted requests as a reclaim policy decides
    ([kv_reclaim.py], [kv_admission.py]). A request whose prefix is cached remotely
    is parked while the restore service ([remote_restore.py]) fetches its pages in an
    event loop of its own: the planner ([hierarchical_cache.py])
    decides whether that pays, the transfer coordinator ([transfer_coordinator.py])
    moves one object per key at a time, the page codec ([kv_page.py]) checks every
    object against its checksum and identity, and the catalog
    ([remote_catalog.py]) persists which prefixes exist. Pages a request completes are
    written back the same way. The flight recorder
    ([scheduler_trace.py]) writes what happened.

    With several ranks, rank 0 makes the others run each batch through shared memory and
    events, and every rank holds a part of each weight: the layers ([layers/]) add up or
    gather the parts with collective operations, the model ([models/qwen3.py]) composes them,
    and [load_model] ([utils/loader.py]) gives each rank its part of a checkpoint.

    In front of the engine, the HTTP application ([serve/app.py]) checks a request
    ([serve/protocol.py]) and submits it to a worker thread ([serve/engine_worker.py]), the only
    user of the engine: the worker adds requests, steps the engine and appends the events of a
    request to its queue, on which the handler of the request waits. The same worker serves a
    mock engine ([serve/mock_engine.py]).

    ** Files

    - [Prelude]: exceptions, the state-and-exception monad [M] with its weakest
      precondition [wp], the error monad [result], record update, floats as
      rationals, first-minimum and first-maximum, list lemmas.
    - [Json], [Blake2b]: [json.dumps]/[json.loads] and BLAKE2b as executable
      functions, with the round trip of the former.
    - [Qos], [Sequence], [Policy]: [qos.py], [sampling_params.py], [sequence.py]:
      validation, metrics summaries, the request record and its lifecycle, the FCFS
      and the latency-budget policy.
    - [KvPolicy]: [kv_reclaim.py], [kv_admission.py].
    - [RadixCache]: [radix_cache.py] over a heap of nodes with parents and
      children. [RadixSpec], [RadixOps], [RadixRemove], [RadixLru] prove each
      operation against a finite map from token paths to blocks ([represents]);
      [RadixContract] states the refinement for sequences of calls.
    - [BlockManager]: [block_manager.py]. [BlockInv] has the invariant [bm_inv]
      (reference counts are the occurrences of a page in the live block tables; the
      free list is exactly the rest), [BlockSpec] the specification of every
      operation and the theorems of their clients.
    - [SchedulerTrace], [Scheduler]: [scheduler_trace.py] and [scheduler.py].
      Requests live in a store keyed by id and the queues hold ids, so a request
      changed through one queue is seen through the others. [SchedulerInv] has the
      accounting invariant [sched_ok]; [SchedulerReclaim], [SchedulerDecode],
      [SchedulerPrefill] and [SchedulerLoop] take it through the steps of [schedule];
      [SchedulerContract] states what [schedule] promises and [SchedulerStep] does the same
      for [postprocess], [add], [cancel] and the constructor.
    - [HierarchicalCache]: [hierarchical_cache.py].
    - [StorageBackend]: [storage_backend.py]: the store protocol as the class
      [KVStorageBackend] with its laws [LawfulBackend]; the in-memory store and the
      Mooncake adapter are instances. A store says whether its put replaces an
      existing object ([put_overwrites]); Mooncake's may keep it, an upsert never does.
    - [KvPage], [KvPageSpec]: [kv_page.py].
    - [RemoteCatalog]: [remote_catalog.py]. [PrefixCatalog]: [RemotePrefixCatalog] of
      [remote_restore.py]; [PrefixCatalogSpec] proves it against a map from prefixes to
      page descriptors ([known]).
    - [TransferCoordinator], [TransferSpec], [TransferContract]:
      [transfer_coordinator.py] as events between two awaits, with invariants of
      every interleaving, proved against [LawfulBackend].
    - [RemoteRestore], [RemoteRestoreSpec]: the rest of [remote_restore.py]: futures, the
      event loop as a list of turns over the coordinator, restores, write-backs and the
      persistent catalog.
    - [ModelRunner], [ModelRunnerSpec]: [model_runner.py] around its tensor
      computations, and [Context] of [utils/context.py].
    - [Config]: [config.py]. [LlmEngine]: [llm_engine.py]. [EngineRun]: the invariant of the
      engine between its calls ([engine_ok]) and the states a run reaches ([reachable]).
    - [RankCalls]: the calls between ranks, as interleaved steps of [call] and [loop].
    - [Tensor]: matrices, the interfaces of scalars and [torch.nn.functional], and programs
      with collective operations, run by all ranks together ([Spmd], [run_ranks]).
      [ParallelLinear] ([layers/linear.py], [layers/embed_head.py]) and [Qwen3] (the other
      layers, with the Triton kernel of the cache, and [models/qwen3.py]) are such
      programs. [ParallelSpec] and [Qwen3Spec] prove that the ranks together compute what one
      rank computes, [CacheSpec] what the kernel writes.
    - [Loader] ([utils/loader.py]), [LoaderSpec]; [Qwen3Load] composes loading and running.
    - [EventQueue]: the queue of events of [engine_worker.py], at the granularity of its lock and
      its awaits. [EngineWorker]: the worker, over the class [ServingEngine] of what it calls;
      [EngineWorkerSpec] proves its answers against the laws [LawfulServing], which let every
      call of the engine raise, with [DecodingServing] for engines that decode what they sample, and
      [EngineWorkerStop] when it stops and what it leaves. [EngineServing] ([LLMEngine]) and
      [MockEngine] ([mock_engine.py]) are the instances.
    - [Protocol] ([protocol.py]), [HttpApp] ([app.py]), [HttpAppSpec]: validation, handlers, event
      stream. [ServeMain]: [serve/__main__.py].
    - [TransformersServer]: [scripts/serve_transformers_windows.py].
    - [BlockAgain]: the block manager's checks asked twice in one pass of the scheduler.
    - [Examples], [EngineExamples], [RemoteExamples], [ServeExamples], [TensorExamples]: small
      concrete runs of the theorems with hypotheses; the second builds an engine and steps a
      request to its end, the fourth serves two clients, the last loads and runs a model on
      two ranks.

    ** What the theorems show

    - Engine: in every state a run reaches, reference counts are what the block tables say
      and no page is lost ([run_keeps_accounts]); a step runs a batch within the limits,
      and reports exactly the tokens and completions that came of it ([engine_step]).
    - Scheduler: [schedule] keeps the accounting and returns requests that own their
      pages ([schedule_safe]); it never comes back empty-handed when every request fits
      the cache alone ([schedule_progress]).
    - Model runner: the inputs of a batch address the slots of its positions, without
      overflow ([prepare_prefill_addresses], [prepare_decode_addresses]); the cache fits the
      memory; pages move between runners unchanged; shared-memory messages arrive.
    - Ranks: each runs the calls of rank 0 in order, in every interleaving, and none is lost
      ([calls_delivered]; [call_lost] shows why the methods have to wait for each other).
    - Tensor parallelism: a group of ranks computes the logits of a single rank, without
      deadlock ([tensor_parallel_transparent]); loading leaves in each rank its part of every
      weight ([load_model_assembles]); the kernel, whose offsets are 32-bit integers, writes the
      rows of its slots and nothing else, in any order of its programs, on tensors of at most
      [2 ^ 31] elements ([kernel_any_order]).
    - Serving: each request the worker takes is answered by its text and one last event, whatever
      clients and engine do, except when its tokens cannot be decoded ([worker_answers]); the worker
      stops ([worker_stops]), and then the streams it served have ended ([stream_ends], and
      [completion_ends] without a stream); what [get_async] returns is what was put, in order, and no
      wake-up is lost; what passed validation is submitted
      within its limits; arguments of the command line build the configuration they name;
      event-stream framing survives its round trip.
    - Transformers server: its counters add up ([transformers_account]) and it writes the same
      bytes as the main server ([same_wire_protocol]).
    - Configuration: what passed its checks builds a scheduler, unless its trace file is there
      already ([config_scheduler_total]).
    - Remote prefixes: the catalog is a map from prefixes to pages that survives its
      snapshot; it knows only pages whose write was acknowledged, in every interleaving
      ([catalog_acknowledged]); plans, restores and write-backs do what they announce.
    - Prefix index: every sequence of calls answers what a finite map answers;
      [match] is the longest chain; evicting the chosen block un-indexes no other
      eligible one.
    - Block manager: after each admission check the operation it guards succeeds;
      no page leaks or is freed while referenced; a hash hit is never a false hit.
    - Policies: selection by least budget; aging bounds overtaking; reclaim
      decisions satisfy what reclaiming checks; the admission reserve is exact.
    - Codecs: pages and catalogs survive their round trip; decoders accept only
      intact input and raise only the errors they declare.
    - Transfers: one transfer per key in I/O, in submission order; resident entries
      hold what the backend holds, except after a plain put that an insert-only store
      ignored ([resident_coherent], [insert_only_diverges]); waiter counts are exact; no
      deadlock; what can still start after a close ([get_after_close]).
    - Planner and tiers: the access plan is the cheapest; the break-even rule.
    - Recorder and metrics: bounds hold and failures stay inside.

    Theorems that state a defect of the code are named for it:
    [validate_rejects_leaf_extension], [identity_digest_ambiguous],
    [decode_attribute_error], [get_after_close], [choose_graph_gap],
    [zero_max_tokens_never_ends], [failed_decode_strands], [stop_strands], [kernel_overflows].

    ** Conventions and bounds

    Python integers are [Z], or [nat] where the code only counts; floats are exact
    rationals ([Q]), so rounding is not modelled; strings are byte strings in
    UTF-8. In the layers scalars are a parameter with laws ([LawfulScalar]): addition is associative
    and commutative, as in exact arithmetic; floats only come close.
    Loops that are not structural take fuel computed from the state
    ([walk_fuel], [match_loop] in [match_prefix], [prefill_fuel]); the theorems
    about their callers conclude that no exception occurs, and running out of fuel
    is one. A wait of the main thread lasts one turn of the event loop, an arbitrary
    list of events given by [turns]; [step] and [generate] take a bound on their waits
    and steps, and a step without a restore service needs one round. The worker's loop takes bounds on its
    rounds and on the reads of its incoming queue, which [worker_stops] computes from what
    clients do; [transformers_loop] takes a bound on its rounds, and its theorems hold for each;
    the answer in one piece takes its time-outs; [run_ranks] takes fuel that
    [ranks_run_together] shows to be enough for a whole pass. What threads do to shared data
    is a function of the number of the look at it. Theorems on runs of the
    engine and the scheduler are for engines without a restore service, with the hash
    index, eager execution and no query-aware compression. Third-party code is a parameter with laws: [Hasher] (xxhash and
    [ndarray.tobytes]), [FloatRepr] ([float.__repr__]), [MooncakeDistributedStore],
    [KvTensor] (the cache tensor), [LanguageModel] (the model, its logits and the
    sampler, which answers with a token per request), [Pickle], and for the layers
    [TorchNN], [TorchParam], [FlashAttention], [SamplerOps], for the second server [Transformers]. Cache slots that nobody has written
    yet are taken to hold, on each rank, its part of what the single rank's hold. [RestoreService] is the
    restore service as the scheduler sees it; [RemoteRestore] is its instance.

    ** Not modelled

    In [model_runner.py] and [llm_engine.py], the runs of the warm-up, the capture of CUDA graphs, process
    groups, the start of the other ranks' processes, [atexit] and the progress bar. In the
    layers, the library functions they call (matrix product, lookup, softmax, the attention
    kernels, [torch.compile]) are parameters; the registry of [nn.Module] that assembles
    the names of parameters is left out, [layer_weight_target] has the names as far as loading uses them.
    Reading files is safetensors. In [remote_restore.py] and [engine_worker.py], the start and
    join of the threads with their time-outs, and the type checks of arguments. In [serve/] and
    [serve_transformers_windows.py], routing, lifespan and static files (FastAPI), parsing
    of bodies (pydantic) and of the command line (argparse), uvicorn, and the loading of the
    Transformers model. The benchmarks, the other scripts and the tests, which only call the rest.
    Logging. The limits of the Python interpreter (recursion depth, digits of an integer
    literal). *)

From stdpp Require Export base tactics option list gmap sets strings pretty.
From Stdlib Require Export ZArith QArith Qround Qminmax Lia Lqa ZifyNat.
From stdpp Require Export numbers sorting.

Set Default Goal Selector "!".

(** ** Python exceptions *)

(** The exceptions the modelled code raises.  [OutOfFuel] is the only one with
    no Python counterpart: it marks a loop whose fuel ran out, and every
    component proves that it does not happen. [Dangling] marks a reference to an
    object that is not in the store, which Python cannot produce. *)
Inductive exn : Type :=
| ValueError (msg : string)
| RuntimeError (msg : string)
| TypeError (msg : string)
| IndexError (msg : string)
| KeyError (msg : string)
| AssertionError (msg : string)
| NotImplementedError
| ZeroDivisionError (msg : string)
| OSError (msg : string)
| AttributeError (msg : string)
| UnicodeDecodeError (msg : string)
| JSONDecodeError (msg : string)
| KVPageFormatError (msg : string)
| KVPageCompatibilityError (msg : string)
| RemoteCatalogSnapshotError (msg : string)
| RemoteKVPageMissing (msg : string)
| TimeoutError (msg : string)
| CancelledError
| BackendError (msg : string)
| OverflowError (msg : string)
| StopIteration
| Dangling
| OutOfFuel.

#[export] Instance exn_eq_dec : EqDecision exn.
Proof. solve_decision. Defined.

(** [str(exc)] and [type(exc).__name__] *)
Definition exn_message (e : exn) : string :=
  match e with
  | KeyError m => "'" +:+ m +:+ "'"
  | ValueError m | RuntimeError m | TypeError m | IndexError m | AssertionError m
  | ZeroDivisionError m | OSError m | AttributeError m | UnicodeDecodeError m | JSONDecodeError m
  | KVPageFormatError m | KVPageCompatibilityError m | RemoteCatalogSnapshotError m
  | RemoteKVPageMissing m | TimeoutError m | BackendError m | OverflowError m => m
  | NotImplementedError | CancelledError | StopIteration | Dangling | OutOfFuel => ""
  end.
Definition exn_type (e : exn) : string :=
  match e with
  | ValueError _ => "ValueError" | RuntimeError _ => "RuntimeError" | TypeError _ => "TypeError"
  | IndexError _ => "IndexError" | KeyError _ => "KeyError" | AssertionError _ => "AssertionError"
  | NotImplementedError => "NotImplementedError" | ZeroDivisionError _ => "ZeroDivisionError"
  | OSError _ => "OSError" | AttributeError _ => "AttributeError"
  | UnicodeDecodeError _ => "UnicodeDecodeError" | JSONDecodeError _ => "JSONDecodeError"
  | KVPageFormatError _ => "KVPageFormatError" | KVPageCompatibilityError _ => "KVPageCompatibilityError"
  | RemoteCatalogSnapshotError _ => "RemoteCatalogSnapshotError"
  | RemoteKVPageMissing _ => "RemoteKVPageMissing" | TimeoutError _ => "TimeoutError"
  | CancelledError => "CancelledError" | BackendError _ => "BackendError"
  | OverflowError _ => "OverflowError" | StopIteration => "StopIteration" | Dangling => "" | OutOfFuel => ""
  end.
(** [f"{type(exc).__name__}: {exc}"] *)
Definition exn_str (e : exn) : string := exn_type e +:+ ": " +:+ exn_message e.

(** The subclasses of [ValueError]. *)
Definition is_value_error (e : exn) : bool :=
  match e with
  | ValueError _ | KVPageFormatError _ | KVPageCompatibilityError _ | RemoteCatalogSnapshotError _
  | UnicodeDecodeError _ | JSONDecodeError _ => true
  | _ => false
  end.
Definition is_type_error (e : exn) : bool := match e with TypeError _ => true | _ => false end.

(** ** State and exception monad

    A method that mutates objects of type [S] and returns an [A]: an exception
    leaves the mutations made so far in place, as in Python. *)
Definition M (S A : Type) : Type := S → (exn + A) * S.

#[export] Instance M_ret {S} : MRet (M S) := λ A a s, (inr a, s).
#[export] Instance M_bind {S} : MBind (M S) := λ A B k m s,
  match m s with
  | (inr a, s') => k a s'
  | (inl e, s') => (inl e, s')
  end.

Section monad.
Context {S : Type}.

Definition getS : M S S := λ s, (inr s, s).
Definition putS (s' : S) : M S () := λ _, (inr tt, s').
Definition modifyS (f : S → S) : M S () := λ s, (inr tt, f s).
Definition getsS {A} (f : S → A) : M S A := λ s, (inr (f s), s).
Definition raise {A} (e : exn) : M S A := λ s, (inl e, s).
(** [assert cond] *)
Definition assertM (b : bool) (msg : string) : M S () :=
  if b then mret tt else raise (AssertionError msg).
(** [if cond: raise e] *)
Definition raise_if (b : bool) (e : exn) : M S () :=
  if b then raise e else mret tt.
Definition of_option {A} (e : exn) (o : option A) : M S A :=
  match o with Some a => mret a | None => raise e end.
(** [try: m except Exception as e: h e] *)
Definition try_except {A} (m : M S A) (h : exn → M S A) : M S A := λ s,
  match m s with
  | (inl e, s') => h e s'
  | r => r
  end.
(** [try: m finally: f] *)
Definition try_finally {A} (m : M S A) (f : M S ()) : M S A := λ s,
  match m s with
  | (inl e, s') => match f s' with (inl e', s'') => (inl e', s'') | (inr _, s'') => (inl e, s'') end
  | (inr a, s') => match f s' with (inl e', s'') => (inl e', s'') | (inr _, s'') => (inr a, s'') end
  end.
(** [for x in l: f x] *)
Fixpoint forM {A} (l : list A) (f : A → M S ()) : M S () :=
  match l with
  | [] => mret tt
  | x :: l => f x ;; forM l f
  end.
Fixpoint mapM_M {A B} (f : A → M S B) (l : list A) : M S (list B) :=
  match l with
  | [] => mret []
  | x :: l => y ← f x; ys ← mapM_M f l; mret (y :: ys)
  end.
End monad.

(** Run a method of one component of a pair of objects. *)
Definition on_fst {S T A} (m : M S A) : M (S * T) A := λ st,
  match m st.1 with (r, s') => (r, (s', st.2)) end.
Definition on_snd {S T A} (m : M T A) : M (S * T) A := λ st,
  match m st.2 with (r, t') => (r, (st.1, t')) end.

(** ** Weakest preconditions

    [wp m Q E s]: run from [s], [m] returns a value with [Q], or raises with [E]. *)
Definition wp {S A} (m : M S A) (Q : A → S → Prop) (E : exn → S → Prop) (s : S) : Prop :=
  match m s with
  | (inr a, s') => Q a s'
  | (inl e, s') => E e s'
  end.

(** No exception escapes. *)
Definition noexn {S} : exn → S → Prop := λ _ _, False.

Section wp.
Context {S : Type}.
Implicit Types (s : S) (E : exn → S → Prop).

Lemma wp_ret {A} (a : A) (Q : A → S → Prop) E s : Q a s → wp (mret a) Q E s.
Proof. done. Qed.
Lemma wp_bind {A B} (m : M S A) (k : A → M S B) Q E s :
  wp m (λ a s', wp (k a) Q E s') E s → wp (m ≫= k) Q E s.
Proof. unfold wp, mbind, M_bind. destruct (m s) as [[e|a] s']; done. Qed.
Lemma wp_mono {A} (m : M S A) (Q Q' : A → S → Prop) (E E' : exn → S → Prop) s :
  wp m Q E s → (∀ a s', Q a s' → Q' a s') → (∀ e s', E e s' → E' e s') → wp m Q' E' s.
Proof. unfold wp. destruct (m s) as [[e|a] s']; eauto. Qed.
Lemma wp_get (Q : S → S → Prop) E s : Q s s → wp getS Q E s.
Proof. done. Qed.
Lemma wp_put (Q : () → S → Prop) E s s' : Q tt s' → wp (putS s') Q E s.
Proof. done. Qed.
Lemma wp_modify f (Q : () → S → Prop) E s : Q tt (f s) → wp (modifyS f) Q E s.
Proof. done. Qed.
Lemma wp_gets {A} (f : S → A) (Q : A → S → Prop) E s : Q (f s) s → wp (getsS f) Q E s.
Proof. done. Qed.
Lemma wp_raise {A} e (Q : A → S → Prop) E s : E e s → wp (raise e) Q E s.
Proof. done. Qed.
Lemma wp_assert b msg (Q : () → S → Prop) E s :
  (b = true → Q tt s) → (b = false → E (AssertionError msg) s) → wp (assertM b msg) Q E s.
Proof. destruct b; cbv; auto. Qed.
Lemma wp_try_except {A} (m : M S A) (h : exn → M S A) (Q : A → S → Prop) E s :
  wp m Q (λ e s', wp (h e) Q E s') s → wp (try_except m h) Q E s.
Proof. unfold wp, try_except. by destruct (m s) as [[e|a] s']. Qed.
Lemma wp_and {A} (m : M S A) (Q1 Q2 : A → S → Prop) (E1 E2 : exn → S → Prop) s :
  wp m Q1 E1 s → wp m Q2 E2 s → wp m (λ a s', Q1 a s' ∧ Q2 a s') (λ e s', E1 e s' ∧ E2 e s') s.
Proof. unfold wp. by destruct (m s) as [[e|a] s']. Qed.
Lemma wp_raise_if b e (Q : () → S → Prop) E s :
  (b = false → Q tt s) → (b = true → E e s) → wp (raise_if b e) Q E s.
Proof. destruct b; cbv; auto. Qed.
Lemma wp_of_option {A} e (o : option A) (Q : A → S → Prop) E s :
  (∀ a, o = Some a → Q a s) → (o = None → E e s) → wp (of_option e o) Q E s.
Proof. destruct o; cbv; auto. Qed.
Lemma wp_run {A} (m : M S A) Q s :
  wp m Q noexn s → ∃ a s', m s = (inr a, s') ∧ Q a s'.
Proof. unfold wp, noexn. destruct (m s) as [[e|a] s']; [done|eauto]. Qed.
Lemma wp_of_run {A} (m : M S A) (Q : A → S → Prop) E s a s' :
  m s = (inr a, s') → Q a s' → wp m Q E s.
Proof. unfold wp. intros ->. done. Qed.
(** The loop rule for [for]: [I] holds of what is left to visit. *)
Lemma wp_forM {A} (l : list A) (f : A → M S ()) (I : list A → S → Prop) E s :
  I l s →
  (∀ x l' s, I (x :: l') s → wp (f x) (λ _ s', I l' s') E s) →
  wp (forM l f) (λ _ s', I [] s') E s.
Proof.
  intros HI Hstep. revert s HI. induction l as [|x l IH]; intros s HI; simpl; [done|].
  apply wp_bind. eapply wp_mono; [by apply Hstep | | done]. intros [] s' Hs'. by apply IH.
Qed.
End wp.

(** A loop of reads leaves the state alone. *)
Lemma mapM_M_reads {S A B} (R : A → B → Prop) (f : A → M S B) l s :
  (∀ x, x ∈ l → ∃ y, f x s = (inr y, s) ∧ R x y) →
  ∃ ys, mapM_M f l s = (inr ys, s) ∧ Forall2 R l ys.
Proof.
  induction l as [|x l IH]; intros H; simpl; [by exists []; split|].
  destruct (H x) as (y & Hy & HR); [by left|].
  destruct IH as (ys & Hys & HRs); [intros z ?; apply H; by right|].
  exists (y :: ys). unfold mbind, M_bind. rewrite Hy, Hys. split; [done|by constructor].
Qed.

Section wp_pair.
Context {S T : Type}.
Lemma wp_on_fst {A} (m : M S A) (Q : A → S * T → Prop) E st :
  wp m (λ a s', Q a (s', st.2)) (λ e s', E e (s', st.2)) st.1 → wp (on_fst m) Q E st.
Proof. unfold wp, on_fst. destruct (m st.1) as [[e|a] s']; done. Qed.
Lemma wp_on_snd {A} (m : M T A) (Q : A → S * T → Prop) E st :
  wp m (λ a t', Q a (st.1, t')) (λ e t', E e (st.1, t')) st.2 → wp (on_snd m) Q E st.
Proof. unfold wp, on_snd. destruct (m st.2) as [[e|a] s']; done. Qed.
Lemma wp_forM_on_fst {A} (l : list A) (f : A → M S ()) (Q : () → S * T → Prop) E st :
  wp (forM l f) (λ a s', Q a (s', st.2)) (λ e s', E e (s', st.2)) st.1 →
  wp (forM l (λ x, on_fst (f x))) Q E st.
Proof.
  revert st. induction l as [|x l IH]; intros [s t]; simpl; [done|].
  unfold wp, mbind, M_bind, on_fst. cbn. destruct (f x s) as [[e|[]] s'] eqn:Ef; cbn; [done|].
  intros Hw. apply (IH (s', t)). exact Hw.
Qed.
End wp_pair.

Create HintDb wp_db.
#[export] Hint Resolve wp_ret wp_get wp_put wp_modify wp_gets : wp_db.

(** One step of symbolic execution. *)
Ltac wp_step :=
  lazymatch goal with
  | |- wp (mbind _ _) _ _ _ => apply wp_bind
  | |- wp (mret _) _ _ _ => apply wp_ret
  | |- wp getS _ _ _ => apply wp_get
  | |- wp (putS _) _ _ _ => apply wp_put
  | |- wp (modifyS _) _ _ _ => apply wp_modify
  | |- wp (getsS _) _ _ _ => apply wp_gets
  | |- wp (raise _) _ _ _ => apply wp_raise
  | |- wp (on_fst _) _ _ _ => apply wp_on_fst
  | |- wp (on_snd _) _ _ _ => apply wp_on_snd
  end.
(** Case analysis on the condition of the [if] about to run. *)
Ltac wp_if E :=
  lazymatch goal with |- wp (if ?c then _ else _) _ _ _ => destruct c eqn:E end.
Ltac wp_steps := repeat (wp_step; cbn beta).

(** ** Record update: [r <| field := v |>] *)
Class RecordEta (R : Type) := record_eta : R → R.
Class Setter {R T : Type} (field : R → T) := setter : T → R → R.
Arguments setter {R T} field {_} _ _.

(** Builds the setter of a projection from the eta expansion of its record. *)
Ltac head_of t := lazymatch t with ?f _ => head_of f | _ => t end.
Ltac derive_setter :=
  lazymatch goal with
  | |- @Setter ?R ?T ?p =>
      let f := constr:(λ (v : T) (r : R), ltac:(
        let e := eval cbv beta delta [record_eta] in (@record_eta R _ r) in
        let h := head_of e in
        let e := eval unfold h in e in
        let e := eval cbv beta in e in
        let e := eval pattern (p r) in e in
        lazymatch e with
        | ?F _ => let x := eval cbv beta in (F v) in exact x
        end)) in
      exact f
  end.

Declare Scope record_scope.
Delimit Scope record_scope with record.
Notation "r <| p := v |>" := (setter p v r)
  (at level 12, p at level 11, v at level 99, left associativity) : record_scope.
Global Open Scope record_scope.

(** ** Python floats

    Times and rates are exact rationals: the code's binary64 arithmetic without
    its rounding. Comparisons are the boolean ones of the code. *)
Definition Qlt_bool (x y : Q) : bool := negb (Qle_bool y x).
(** The truth value of a float. *)
Definition Qtruthy (x : Q) : bool := negb (Qeq_bool x 0).
Definition inject_nat (n : nat) : Q := inject_Z (Z.of_nat n).

Lemma Qle_bool_true x y : Qle_bool x y = true ↔ (x <= y)%Q.
Proof. apply Qle_bool_iff. Qed.
Lemma Qle_bool_false x y : Qle_bool x y = false ↔ (y < x)%Q.
Proof.
  rewrite <-not_true_iff_false, Qle_bool_iff. split; [apply Qnot_le_lt|].
  intros H1 H2. by apply (Qlt_not_le _ _ H1).
Qed.
Lemma Qlt_bool_true x y : Qlt_bool x y = true ↔ (x < y)%Q.
Proof. unfold Qlt_bool. rewrite negb_true_iff. apply Qle_bool_false. Qed.
Lemma Qlt_bool_false x y : Qlt_bool x y = false ↔ (y <= x)%Q.
Proof. unfold Qlt_bool. rewrite negb_false_iff. apply Qle_bool_true. Qed.
Lemma Qeq_bool_true x y : Qeq_bool x y = true ↔ (x == y)%Q.
Proof. apply Qeq_bool_iff. Qed.
Lemma Qeq_bool_false x y : Qeq_bool x y = false ↔ ¬ (x == y)%Q.
Proof. by rewrite <-not_true_iff_false, Qeq_bool_iff. Qed.

#[export] Instance Qle_dec : RelDecision Qle.
Proof.
  intros x y. destruct (Qle_bool x y) eqn:E; [left; by apply Qle_bool_true|].
  right. intros H. apply Qle_bool_true in H. congruence.
Defined.
#[export] Instance Qlt_dec : RelDecision Qlt.
Proof.
  intros x y. destruct (Qlt_bool x y) eqn:E; [left; by apply Qlt_bool_true|].
  right. intros H. apply Qlt_bool_true in H. congruence.
Defined.

#[export] Instance Qeq_decision : RelDecision Qeq.
Proof. intros x y. destruct (Qeq_dec x y); [by left|by right]. Defined.

(** Turns boolean comparisons of the code into propositions. *)
Ltac breflect :=
  repeat match goal with
  | H : Qle_bool _ _ = true |- _ => apply Qle_bool_true in H
  | H : Qle_bool _ _ = false |- _ => apply Qle_bool_false in H
  | H : Qlt_bool _ _ = true |- _ => apply Qlt_bool_true in H
  | H : Qlt_bool _ _ = false |- _ => apply Qlt_bool_false in H
  | H : Qeq_bool _ _ = true |- _ => apply Qeq_bool_true in H
  | H : Qeq_bool _ _ = false |- _ => apply Qeq_bool_false in H
  | H : (_ && _) = true |- _ => apply andb_true_iff in H as [? ?]
  | H : (_ && _) = false |- _ => apply andb_false_iff in H
  | H : (_ || _) = true |- _ => apply orb_true_iff in H
  | H : (_ || _) = false |- _ => apply orb_false_iff in H as [? ?]
  | H : negb _ = true |- _ => apply negb_true_iff in H
  | H : negb _ = false |- _ => apply negb_false_iff in H
  | H : (_ =? _)%nat = true |- _ => apply Nat.eqb_eq in H
  | H : (_ =? _)%nat = false |- _ => apply Nat.eqb_neq in H
  | H : (_ <? _)%nat = true |- _ => apply Nat.ltb_lt in H
  | H : (_ <? _)%nat = false |- _ => apply Nat.ltb_ge in H
  | H : (_ <=? _)%nat = true |- _ => apply Nat.leb_le in H
  | H : (_ <=? _)%nat = false |- _ => apply Nat.leb_gt in H
  | H : (_ =? _)%Z = true |- _ => apply Z.eqb_eq in H
  | H : (_ =? _)%Z = false |- _ => apply Z.eqb_neq in H
  | H : (_ <? _)%Z = true |- _ => apply Z.ltb_lt in H
  | H : (_ <? _)%Z = false |- _ => apply Z.ltb_ge in H
  | H : (_ <=? _)%Z = true |- _ => apply Z.leb_le in H
  | H : (_ <=? _)%Z = false |- _ => apply Z.leb_gt in H
  | H : bool_decide _ = true |- _ => apply bool_decide_eq_true in H
  | H : bool_decide _ = false |- _ => apply bool_decide_eq_false in H
  end.

(** ** [min] and [max] with a key: the first extremal element *)
Section extremum.
Context {A K : Type} (lt : K → K → bool) (key : A → K).

Definition pick (better : K → K → bool) (best x : A) : A :=
  if better (key x) (key best) then x else best.
(** [min(l, key=key)]; [ValueError] on an empty list. *)
Definition py_min (l : list A) : option A :=
  match l with [] => None | x :: l => Some (foldl (pick lt) x l) end.
(** [max(l, key=key)] *)
Definition py_max (l : list A) : option A :=
  match l with [] => None | x :: l => Some (foldl (pick (flip lt)) x l) end.

Lemma foldl_pick_in better x l : foldl (pick better) x l ∈ x :: l.
Proof.
  revert x. induction l as [|y l IH]; intros x; simpl; [set_solver|].
  specialize (IH (pick better x y)). unfold pick in *. destruct (better _ _); set_solver.
Qed.
Lemma py_min_in l x : py_min l = Some x → x ∈ l.
Proof. destruct l; [done|]. intros [= <-]. apply foldl_pick_in. Qed.
Lemma py_max_in l x : py_max l = Some x → x ∈ l.
Proof. destruct l; [done|]. intros [= <-]. apply foldl_pick_in. Qed.
Lemma py_min_Some l : l ≠ [] → is_Some (py_min l).
Proof. destruct l; [done|]. by eexists. Qed.
Lemma py_max_Some l : l ≠ [] → is_Some (py_max l).
Proof. destruct l; [done|]. by eexists. Qed.

(** [lt] is a strict weak order. *)
Class StrictWeak (R : K → K → bool) : Prop := {
  sw_irrefl : ∀ x, R x x = false;
  sw_trans : ∀ x y z, R x y = true → R y z = true → R x z = true;
  sw_ntrans : ∀ x y z, R x y = false → R y z = false → R x z = false
}.

Lemma foldl_pick_best `{!StrictWeak better} x l y :
  y ∈ x :: l → better (key y) (key (foldl (pick better) x l)) = false.
Proof.
  revert x y. induction l as [|z l IH]; intros x y Hy; simpl.
  { apply list_elem_of_singleton in Hy as ->. apply sw_irrefl. }
  assert (Hx : better (key x) (key (pick better x z)) = false).
  { unfold pick. destruct (better (key z) (key x)) eqn:E; [|apply sw_irrefl].
    destruct (better (key x) (key z)) eqn:E'; [|done].
    pose proof (sw_trans _ _ _ E E') as C. by rewrite sw_irrefl in C. }
  assert (Hz : better (key z) (key (pick better x z)) = false).
  { unfold pick. destruct (better (key z) (key x)) eqn:E; [apply sw_irrefl|done]. }
  assert (Hb := IH (pick better x z) (pick better x z) ltac:(set_solver)).
  apply elem_of_cons in Hy as [->|Hy]; [by eapply sw_ntrans|].
  apply elem_of_cons in Hy as [->|Hy]; [by eapply sw_ntrans|]. apply IH. set_solver.
Qed.
Lemma py_min_least `{!StrictWeak lt} l x y :
  py_min l = Some x → y ∈ l → lt (key y) (key x) = false.
Proof. destruct l; [done|]. intros [= <-]. apply foldl_pick_best. Qed.
#[export] Instance StrictWeak_flip `{!StrictWeak lt} : StrictWeak (flip lt).
Proof.
  split; unfold flip; intros.
  - apply sw_irrefl.
  - by eapply sw_trans.
  - by eapply sw_ntrans.
Qed.
Lemma py_max_greatest `{!StrictWeak lt} l x y :
  py_max l = Some x → y ∈ l → lt (key x) (key y) = false.
Proof. destruct l; [done|]. intros [= <-] Hy. by apply (foldl_pick_best (better := flip lt)). Qed.
End extremum.
Arguments StrictWeak {K} R.

(** ** Pure fallible code: constructors that validate their arguments *)
Definition result (A : Type) : Type := exn + A.
#[export] Instance result_ret : MRet result := λ A a, inr a.
#[export] Instance result_bind : MBind result := λ A B k m,
  match m with inl e => inl e | inr a => k a end.
Definition throw {A} (e : exn) : result A := inl e.
Definition throw_if (b : bool) (e : exn) : result () := if b then inl e else inr tt.
Definition lift {S A} (r : result A) : M S A := λ s, (r, s).
Fixpoint mapR {A B} (f : A → result B) (l : list A) : result (list B) :=
  match l with
  | [] => mret []
  | x :: l => y ← f x; ys ← mapR f l; mret (y :: ys)
  end.

Lemma wp_lift {S A} (r : result A) (Q : A → S → Prop) E s :
  (∀ a, r = inr a → Q a s) → (∀ e, r = inl e → E e s) → wp (lift r) Q E s.
Proof. destruct r; unfold wp, lift; eauto. Qed.
Lemma throw_if_ok b e : throw_if b e = inr tt ↔ b = false.
Proof. by destruct b. Qed.
Lemma result_bind_inr {A B} (m : result A) (k : A → result B) b :
  m ≫= k = inr b ↔ ∃ a, m = inr a ∧ k a = inr b.
Proof.
  destruct m as [e|a]; unfold mbind, result_bind; [naive_solver|].
  split; [eauto|]. by intros (?&[= ->]&?).
Qed.
Lemma mapR_inr {A B} (f : A → result B) l ys :
  mapR f l = inr ys ↔ Forall2 (λ x y, f x = inr y) l ys.
Proof.
  revert ys. induction l as [|x l IH]; intros ys; simpl.
  - split; [intros [= <-]; constructor|]. intros H. by inversion H.
  - split.
    + intros H. apply result_bind_inr in H as (y & Hy & H). apply result_bind_inr in H as (ys' & Hys & H).
      injection H as <-. constructor; [done|]. by apply IH.
    + intros H. inversion H as [|? y ? ys' Hy Hys]; subst. apply IH in Hys. rewrite Hy. cbn. by rewrite Hys.
Qed.

Lemma mapR_total {A B} (f : A → result B) l :
  (∀ x, x ∈ l → ∃ y, f x = inr y) → ∃ ys, mapR f l = inr ys.
Proof.
  induction l as [|x l IH]; intros H; simpl; [by eexists|].
  destruct (H x) as [y Hy]; [by left|]. destruct IH as [ys Hys]; [intros z ?; apply H; by right|].
  rewrite Hy. cbn. rewrite Hys. by eexists.
Qed.

Lemma result_bind_inl {A B} (m : result A) (k : A → result B) e :
  m ≫= k = inl e ↔ m = inl e ∨ ∃ a, m = inr a ∧ k a = inl e.
Proof.
  destruct m as [e'|a]; unfold mbind, result_bind.
  - split; [intros [= ->]; by left|]. by intros [[= ->]|(?&?&_)].
  - split; [intros ?; right; eauto|]. intros [?|(?&[= ->]&?)]; done.
Qed.
Lemma throw_if_inl b e e' : throw_if b e = inl e' ↔ b = true ∧ e' = e.
Proof.
  destruct b; cbn; (split; intros H); [by injection H as ->|by destruct H as [_ ->]|done|by destruct H].
Qed.
Lemma throw_if_bind {A} (b : bool) e (k : () → result A) r : b = false → k tt = r → (throw_if b e ≫= k) = r.
Proof. by intros ->. Qed.
Lemma mapR_map {A B} (f : B → result A) (g : A → B) l :
  Forall (λ x, f (g x) = inr x) l → mapR f (map g l) = inr l.
Proof. induction 1 as [|x l Hx _ IH]; cbn; [done|]. rewrite Hx. cbn. by rewrite IH. Qed.
Lemma mapR_inl {A B} (f : A → result B) l e : mapR f l = inl e → ∃ x, x ∈ l ∧ f x = inl e.
Proof.
  induction l as [|x l IH]; cbn; [done|]. intros H. apply result_bind_inl in H as [H|(y & _ & H)]; [exists x; set_solver|].
  apply result_bind_inl in H as [H|(ys & _ & H)]; [|done]. destruct (IH H) as (z & ? & ?). exists z. set_solver.
Qed.
(** Follows an equation [m ≫= k = inl e] to the step that raised. *)
Ltac result_err H :=
  repeat match type of H with
  | (_ ≫= _) = inl _ => apply result_bind_inl in H as [H|(?&?&H)]
  | throw_if _ _ = inl _ => apply throw_if_inl in H as [? H]
  | mret _ = inl _ => discriminate H
  | throw _ = inl _ => injection H as H
  end.
(** Splits an equation [m ≫= k = inr b] into the equations of its steps. *)
Ltac result_inv :=
  repeat match goal with
  | H : (_ ≫= _) = inr _ |- _ => apply result_bind_inr in H as (?&?&H)
  | H : throw_if _ _ = inr _ |- _ => apply throw_if_ok in H
  | H : mret _ = inr _ |- _ => injection H as H
  | H : inr _ = inr _ |- _ => injection H as H
  | x : () |- _ => destruct x
  end.

(** ** Python lists *)
(** [l[i]] with Python's negative indexes. *)
Definition py_nth {A} (l : list A) (i : Z) : result A :=
  let j := (if (i <? 0)%Z then Z.of_nat (length l) + i else i)%Z in
  if (j <? 0)%Z then throw (IndexError "list index out of range")
  else match l !! Z.to_nat j with
       | Some x => mret x
       | None => throw (IndexError "list index out of range")
       end.
(** [l[a:b]] for [0 <= a]. *)
Definition slice {A} (a b : nat) (l : list A) : list A := take (b - a) (drop a l).
(** [sum(l)] *)
Definition zsum (l : list Z) : Z := foldr Z.add 0%Z l.
Definition nsum (l : list nat) : nat := foldr Nat.add 0 l.
Lemma nsum_app l1 l2 : nsum (l1 ++ l2) = nsum l1 + nsum l2.
Proof. induction l1; simpl; [done|]. unfold nsum in *. simpl. lia. Qed.
Lemma nsum_alter {A} (f : A → nat) (g : A → A) (l : list A) i x :
  l !! i = Some x → nsum (f <$> alter g i l) + f x = nsum (f <$> l) + f (g x).
Proof.
  revert i. induction l as [|y l IH]; intros [|i] Hi; [done|done| |].
  - injection Hi as ->. change (alter g 0 (x :: l)) with (g x :: l). unfold nsum. csimpl. lia.
  - specialize (IH i Hi). change (alter g (S i) (y :: l)) with (y :: alter g i l). unfold nsum in *. rewrite !fmap_cons.
    cbn [foldr]. lia.
Qed.
Lemma nsum_zero (l : list nat) : nsum l = 0 ↔ Forall (λ n, n = 0) l.
Proof.
  unfold nsum. induction l as [|x l IH]; cbn [foldr]; [by split|]. rewrite Forall_cons, <-IH. lia.
Qed.

Lemma py_nth_Some {A} (l : list A) (i : nat) x : l !! i = Some x → py_nth l (Z.of_nat i) = inr x.
Proof.
  intros H. unfold py_nth. rewrite (proj2 (Z.ltb_ge (Z.of_nat i) 0)) by lia.
  rewrite (proj2 (Z.ltb_ge _ _)) by lia. by rewrite Nat2Z.id, H.
Qed.
