(* ===== verification/Json.v ===== *)
(** * JSON text

    The part of Python's [json] module the program uses: [json.dumps] with its
    [separators], [sort_keys] and [allow_nan] arguments ([ensure_ascii] is always
    on), and [json.loads]. A Python string is the Coq string of its UTF-8 bytes;
    a text is the list of its code units, all below 128 when rendered here.
    Numbers with a fraction or an exponent are exact rationals ([float] without
    its rounding; literals beyond the range of binary64 are infinite). *)
From S2P Require Import Prelude.
Set Default Goal Selector "!".
Local Open Scope Z_scope.

Inductive PyFloat := Finite (q : Q) | Infinite (neg : bool) | NaN.

(** The values: an object keeps the order of its keys, as a [dict] does. *)
Inductive Json :=
| JNull
| JBool (b : bool)
| JInt (z : Z)
| JFloat (f : PyFloat)
| JStr (s : string)
| JList (l : list Json)
| JObj (fields : list (string * Json)).

(** The induction principle that reaches the elements. *)
Section json_ind.
Context (P : Json → Prop).
Context (Hnull : P JNull) (Hbool : ∀ b, P (JBool b)) (Hint : ∀ z, P (JInt z)) (Hfloat : ∀ f, P (JFloat f)).
Context (Hstr : ∀ s, P (JStr s)) (Hlist : ∀ l, Forall P l → P (JList l)).
Context (Hobj : ∀ fs, Forall (λ kv, P kv.2) fs → P (JObj fs)).

Fixpoint Json_nested_ind (v : Json) : P v :=
  match v with
  | JNull => Hnull
  | JBool b => Hbool b
  | JInt z => Hint z
  | JFloat f => Hfloat f
  | JStr s => Hstr s
  | JList l => Hlist l ((fix go l := match l return Forall P l with
      | [] => Forall_nil_2 _ | x :: l => Forall_cons_2 _ _ _ (Json_nested_ind x) (go l) end) l)
  | JObj fs => Hobj fs ((fix go l := match l return Forall (λ kv, P kv.2) l with
      | [] => Forall_nil_2 _
      | x :: l => Forall_cons_2 _ _ _ (Json_nested_ind x.2) (go l) end) fs)
  end.
End json_ind.

(** ** Strings, bytes and code points *)
Definition text : Type := list Z.
Definition bytes_of (s : string) : text := (λ a, Z.of_nat (Ascii.nat_of_ascii a)) <$> String.list_ascii_of_string s.
Definition string_of (t : text) : string :=
  String.string_of_list_ascii ((λ z, Ascii.ascii_of_nat (Z.to_nat z)) <$> t).

(** [str.isascii], and [bytes.decode("ascii")] *)
Definition is_ascii (t : text) : bool := forallb (λ z, (0 <=? z) && (z <? 128)) t.
Definition decode_ascii (t : text) : result text :=
  throw_if (negb (is_ascii t)) (UnicodeDecodeError "ordinal not in range(128)");; mret t.

(** [bytes.decode("utf-8")]: the strict decoder; the text stays in UTF-8. *)
Definition cont (z : Z) : bool := (128 <=? z) && (z <? 192).
Fixpoint utf8_valid (t : text) : bool :=
  match t with
  | [] => true
  | a :: t =>
      if (0 <=? a) && (a <? 128) then utf8_valid t
      else match t with
      | [] => false
      | b :: t =>
          if (194 <=? a) && (a <? 224) then cont b && utf8_valid t
          else match t with
          | [] => false
          | c :: t =>
              if (224 <=? a) && (a <? 240) then
                (if a =? 224 then (160 <=? b) && (b <? 192)
                 else if a =? 237 then (128 <=? b) && (b <? 160) else cont b)
                && cont c && utf8_valid t
              else match t with
              | [] => false
              | d :: t =>
                  (240 <=? a) && (a <? 245)
                  && (if a =? 240 then (144 <=? b) && (b <? 192)
                      else if a =? 244 then (128 <=? b) && (b <? 144) else cont b)
                  && cont c && cont d && utf8_valid t
              end
          end
      end
  end.
Definition decode_utf8 (t : text) : result text :=
  throw_if (negb (utf8_valid t)) (UnicodeDecodeError "invalid utf-8");; mret t.

(** The code points of a string, and back. *)
Fixpoint codepoints (t : text) : list Z :=
  match t with
  | [] => []
  | a :: t =>
      if a <? 128 then a :: codepoints t
      else match t with
      | [] => []
      | b :: t =>
          if a <? 224 then ((a - 192) * 64 + (b - 128)) :: codepoints t
          else match t with
          | [] => []
          | c :: t =>
              if a <? 240 then ((a - 224) * 4096 + (b - 128) * 64 + (c - 128)) :: codepoints t
              else match t with
              | [] => []
              | d :: t => ((a - 240) * 262144 + (b - 128) * 4096 + (c - 128) * 64 + (d - 128)) :: codepoints t
              end
          end
      end
  end.
Definition utf8_encode (c : Z) : text :=
  if c <? 128 then [c]
  else if c <? 2048 then [192 + c / 64; 128 + c mod 64]
  else if c <? 65536 then [224 + c / 4096; 128 + c / 64 mod 64; 128 + c mod 64]
  else [240 + c / 262144; 128 + c / 4096 mod 64; 128 + c / 64 mod 64; 128 + c mod 64].

(** ** [json.dumps] *)
Record DumpStyle := mkStyle {
  item_separator : text;
  key_separator : text;
  sort_keys : bool;
  allow_nan : bool
}.
(** The defaults, and [separators=(",", ":"), sort_keys=True]. *)
Definition default_style : DumpStyle := mkStyle [44; 32] [58; 32] false true.
Definition canonical_style : DumpStyle := mkStyle [44] [58] true true.

Definition hex_digit (d : Z) : Z := if d <? 10 then 48 + d else 87 + d.
Definition hex4 (n : Z) : text :=
  [hex_digit (n / 4096 mod 16); hex_digit (n / 256 mod 16); hex_digit (n / 16 mod 16); hex_digit (n mod 16)].
Definition escape_char (c : Z) : text :=
  if c =? 34 then [92; 34]
  else if c =? 92 then [92; 92]
  else if c =? 10 then [92; 110]
  else if c =? 13 then [92; 114]
  else if c =? 9 then [92; 116]
  else if c =? 8 then [92; 98]
  else if c =? 12 then [92; 102]
  else if (32 <=? c) && (c <=? 126) then [c]
  else if c <? 65536 then [92; 117] ++ hex4 c
  else [92; 117] ++ hex4 (55296 + (c - 65536) / 1024 mod 1024) ++ [92; 117] ++ hex4 (56320 + (c - 65536) mod 1024).
Definition quote (s : string) : text := [34] ++ concat (escape_char <$> codepoints (bytes_of s)) ++ [34].

(** [str(n)] for an integer *)
Fixpoint digits (fuel : nat) (n : Z) (acc : text) : text :=
  match fuel with
  | O => acc
  | S fuel => let acc := (48 + n mod 10) :: acc in if n / 10 =? 0 then acc else digits fuel (n / 10) acc
  end.
Definition dec (n : Z) : text := digits (S (Z.to_nat (Z.log2 n))) n [].
Definition py_str_int (z : Z) : text := if z <? 0 then 45 :: dec (- z) else dec z.

Fixpoint join (sep : text) (l : list text) : text :=
  match l with
  | [] => []
  | [x] => x
  | x :: l => x ++ sep ++ join sep l
  end.

(** [sorted(fields)] for distinct keys *)
Fixpoint insert_field {A} (kv : string * A) (l : list (string * A)) : list (string * A) :=
  match l with
  | [] => [kv]
  | kv' :: l' => if String.leb kv.1 kv'.1 then kv :: l else kv' :: insert_field kv l'
  end.
Definition sort_fields {A} (l : list (string * A)) : list (string * A) := foldr insert_field [] l.

(** [float.__repr__] *)
Class FloatRepr := float_repr : Q → text.

Section dumps.
Context `{FloatRepr} (st : DumpStyle).

Definition render_float (f : PyFloat) : text :=
  match f with
  | Finite q => float_repr q
  | Infinite neg => if neg then bytes_of "-Infinity" else bytes_of "Infinity"
  | NaN => bytes_of "NaN"
  end.
Definition order {A} (l : list (string * A)) : list (string * A) := if sort_keys st then sort_fields l else l.
Definition render_field (kv : string * text) : text := quote kv.1 ++ key_separator st ++ kv.2.
Fixpoint render (v : Json) : text :=
  match v with
  | JNull => bytes_of "null"
  | JBool b => if b then bytes_of "true" else bytes_of "false"
  | JInt z => py_str_int z
  | JFloat f => render_float f
  | JStr s => quote s
  | JList l => [91] ++ join (item_separator st) (map render l) ++ [93]
  | JObj fs =>
      [123] ++ join (item_separator st) (map render_field (order (map (λ kv, (kv.1, render kv.2)) fs))) ++ [125]
  end.
Fixpoint all_finite (v : Json) : bool :=
  match v with
  | JFloat (Finite _) => true
  | JFloat _ => false
  | JList l => forallb all_finite l
  | JObj fs => forallb (λ kv, all_finite kv.2) fs
  | _ => true
  end.
Definition dumps (v : Json) : result text :=
  throw_if (negb (allow_nan st) && negb (all_finite v)) (ValueError "Out of range float values are not JSON compliant");;
  mret (render v).
End dumps.

(** ** [json.loads] *)
Definition is_ws (c : Z) : bool := (c =? 32) || (c =? 9) || (c =? 10) || (c =? 13).
Fixpoint skip_ws (t : text) : text :=
  match t with
  | c :: t' => if is_ws c then skip_ws t' else t
  | [] => []
  end.
Definition is_digit (c : Z) : bool := (48 <=? c) && (c <=? 57).
Definition hex_value (c : Z) : option Z :=
  if is_digit c then Some (c - 48)
  else if (97 <=? c) && (c <=? 102) then Some (c - 87)
  else if (65 <=? c) && (c <=? 70) then Some (c - 55)
  else None.
Definition hex4_value (a b c d : Z) : option Z :=
  a ← hex_value a; b ← hex_value b; c ← hex_value c; d ← hex_value d;
  Some (a * 4096 + b * 256 + c * 16 + d).

Definition is_high (u : Z) : bool := (55296 <=? u) && (u <=? 56319).
Definition is_low (u : Z) : bool := (56320 <=? u) && (u <=? 57343).

(** The one-letter escapes. *)
Definition simple_escape (e : Z) : option Z :=
  if (e =? 34) || (e =? 92) || (e =? 47) then Some e
  else if e =? 98 then Some 8 else if e =? 102 then Some 12 else if e =? 110 then Some 10
  else if e =? 114 then Some 13 else if e =? 116 then Some 9 else None.

(** The rest of a string literal after its opening quote. *)
Fixpoint scan_string (t : text) : option (text * text) :=
  match t with
  | [] => None
  | c :: t =>
      if c =? 34 then Some ([], t)
      else if c =? 92 then
        match t with
        | [] => None
        | e :: t =>
            if e =? 117 then
              match t with
              | a :: b :: c :: d :: t =>
                  u ← hex4_value a b c d;
                  let lone := '(s, rest) ← scan_string t; Some (utf8_encode u ++ s, rest) in
                  if is_high u then
                    match t with
                    | x :: y :: e :: f :: g :: h :: t =>
                        if (x =? 92) && (y =? 117) then
                          v ← hex4_value e f g h;
                          if is_low v then
                            '(s, rest) ← scan_string t;
                            Some (utf8_encode (65536 + (u - 55296) * 1024 + (v - 56320)) ++ s, rest)
                          else lone
                        else lone
                    | _ => lone
                    end
                  else lone
              | _ => None
              end
            else
              x ← simple_escape e;
              '(s, rest) ← scan_string t;
              Some (x :: s, rest)
        end
      else if c <? 32 then None
      else '(s, rest) ← scan_string t; Some (c :: s, rest)
  end.

Fixpoint span_digits (t : text) : list Z * text :=
  match t with
  | c :: t' => if is_digit c then let '(ds, rest) := span_digits t' in (c - 48 :: ds, rest) else ([], t)
  | [] => ([], [])
  end.
Definition digits_value (ds : list Z) : Z := foldl (λ a d, a * 10 + d) 0 ds.
Definition pow10 (e : Z) : Q := if e <? 0 then (1 # Z.to_pos (10 ^ (- e)))%Q else inject_Z (10 ^ e).
(** [float(literal)]: the smallest magnitude that rounds to infinity is [2^1024 - 2^970]. *)
Definition to_float (neg : bool) (mantissa exponent : Z) : PyFloat :=
  let q := (inject_Z mantissa * pow10 exponent)%Q in
  if Qle_bool (inject_Z (2 ^ 1024 - 2 ^ 970)) q then Infinite neg else Finite (if neg then - q else q)%Q.

Definition scan_frac (t : text) : list Z * text :=
  match t with
  | c :: t' => if c =? 46 then match span_digits t' with ([], _) => ([], t) | r => r end else ([], t)
  | [] => ([], t)
  end.
Definition scan_exp (t : text) : option (Z * text) :=
  match t with
  | c :: t' =>
      if (c =? 101) || (c =? 69) then
        let '(sign, t'') := match t' with
                            | s :: t'' => if s =? 45 then (-1, t'') else if s =? 43 then (1, t'') else (1, t')
                            | [] => (1, t')
                            end in
        match span_digits t'' with
        | ([], _) => None
        | (ds, rest) => Some (sign * digits_value ds, rest)
        end
      else None
  | [] => None
  end.
(** Zero or digits without a leading zero, and an optional minus sign. *)
Definition scan_natural (t : text) : option (list Z * text) :=
  match t with
  | c :: t' => if c =? 48 then Some ([0], t') else match span_digits t with ([], _) => None | r => Some r end
  | [] => None
  end.
Definition scan_sign (t : text) : bool * text :=
  match t with c :: t' => if c =? 45 then (true, t') else (false, t) | [] => (false, t) end.
(** The number at the front of the text, if there is one. *)
Definition scan_number (t : text) : option (Json * text) :=
  let '(neg, t) := scan_sign t in
  '(ip, t) ← scan_natural t;
  let '(fp, t) := scan_frac t in
  match fp, scan_exp t with
  | [], None => Some (JInt (if neg then - digits_value ip else digits_value ip), t)
  | _, None => Some (JFloat (to_float neg (digits_value (ip ++ fp)) (- Z.of_nat (length fp))), t)
  | _, Some (e, t) => Some (JFloat (to_float neg (digits_value (ip ++ fp)) (e - Z.of_nat (length fp))), t)
  end.

(** [t.startswith(prefix)], with what follows. *)
Fixpoint strip_prefix (p t : text) : option text :=
  match p, t with
  | [], _ => Some t
  | a :: p, b :: t => if a =? b then strip_prefix p t else None
  | _, _ => None
  end.
Definition scan_constant (t : text) : option (Json * text) :=
  match strip_prefix (bytes_of "null") t with Some r => Some (JNull, r) | None =>
  match strip_prefix (bytes_of "true") t with Some r => Some (JBool true, r) | None =>
  match strip_prefix (bytes_of "false") t with Some r => Some (JBool false, r) | None =>
  match scan_number t with Some r => Some r | None =>
  match strip_prefix (bytes_of "NaN") t with Some r => Some (JFloat NaN, r) | None =>
  match strip_prefix (bytes_of "Infinity") t with Some r => Some (JFloat (Infinite false), r) | None =>
  match strip_prefix (bytes_of "-Infinity") t with Some r => Some (JFloat (Infinite true), r) | None =>
  None end end end end end end end.

(** [d[key] = value] *)
Fixpoint dict_set {A} (k : string) (v : A) (l : list (string * A)) : list (string * A) :=
  match l with
  | [] => [(k, v)]
  | (k', v') :: l => if String.eqb k k' then (k, v) :: l else (k', v') :: dict_set k v l
  end.
Definition dict_get {A} (k : string) (l : list (string * A)) : option A :=
  snd <$> (snd <$> list_find (λ kv, kv.1 = k) l).

Definition bad_json {A} : result A := throw (JSONDecodeError "Expecting value").

Fixpoint scan_value (fuel : nat) (t : text) : result (Json * text) :=
  match fuel with
  | O => throw OutOfFuel
  | S fuel =>
      match t with
      | [] => bad_json
      | c :: t' =>
          if c =? 34 then
            match scan_string t' with Some (s, rest) => mret (JStr (string_of s), rest) | None => bad_json end
          else if c =? 123 then
            match skip_ws t' with
            | c' :: rest => if c' =? 125 then mret (JObj [], rest) else scan_fields fuel (c' :: rest) []
            | [] => bad_json
            end
          else if c =? 91 then
            match skip_ws t' with
            | c' :: rest => if c' =? 93 then mret (JList [], rest) else scan_items fuel (c' :: rest) []
            | [] => bad_json
            end
          else match scan_constant t with Some r => mret r | None => bad_json end
      end
  end
(** [acc] holds what was read, the last first. *)
with scan_items (fuel : nat) (t : text) (acc : list Json) : result (Json * text) :=
  match fuel with
  | O => throw OutOfFuel
  | S fuel =>
      '(v, t) ← scan_value fuel t;
      match skip_ws t with
      | c :: t =>
          if c =? 44 then scan_items fuel (skip_ws t) (v :: acc)
          else if c =? 93 then mret (JList (reverse (v :: acc)), t)
          else bad_json
      | [] => bad_json
      end
  end
with scan_fields (fuel : nat) (t : text) (acc : list (string * Json)) : result (Json * text) :=
  match fuel with
  | O => throw OutOfFuel
  | S fuel =>
      match t with
      | q :: t =>
          if negb (q =? 34) then bad_json
          else match scan_string t with
          | None => bad_json
          | Some (k, t) =>
              match skip_ws t with
              | c :: t =>
                  if negb (c =? 58) then bad_json
                  else
                    '(v, t) ← scan_value fuel (skip_ws t);
                    let acc := dict_set (string_of k) v acc in
                    match skip_ws t with
                    | c :: t =>
                        if c =? 44 then scan_fields fuel (skip_ws t) acc
                        else if c =? 125 then mret (JObj acc, t)
                        else bad_json
                    | [] => bad_json
                    end
              | [] => bad_json
              end
          end
      | [] => bad_json
      end
  end.

Definition parse_fuel (t : text) : nat := S (2 * length t).
(** [json.loads(text)]; a leading byte order mark is rejected. *)
Definition loads (t : text) : result Json :=
  match strip_prefix [239; 187; 191] t with
  | Some _ => throw (JSONDecodeError "Unexpected UTF-8 BOM (decode using utf-8-sig)")
  | None =>
      '(v, rest) ← scan_value (parse_fuel t) (skip_ws t);
      match skip_ws rest with
      | [] => mret v
      | _ => throw (JSONDecodeError "Extra data")
      end
  end.

(** ** Round trips *)

(** What may follow a value: nothing, a comma or a closing bracket. *)
Definition delimited (rest : text) : Prop :=
  match rest with [] => True | c :: _ => c = 44 ∨ c = 93 ∨ c = 125 end.

Lemma digits_spec fuel n acc :
  (0 < fuel)%nat → 0 <= n < 10 ^ Z.of_nat fuel →
  ∃ ds, digits fuel n acc = (Z.add 48 <$> ds) ++ acc ∧ Forall (λ d, 0 <= d < 10) ds ∧
    digits_value ds = n ∧ (ds = [0] ∨ ∃ d ds', ds = d :: ds' ∧ d ≠ 0).
Proof.
  revert n acc. induction fuel as [|fuel IH]; intros n acc Hf Hn; [lia|]. cbn [digits].
  assert (Hm : 0 <= n mod 10 < 10) by (apply Z.mod_pos_bound; lia).
  destruct (n / 10 =? 0) eqn:E; breflect.
  - exists [n mod 10]. split_and!; [done|by constructor|unfold digits_value; simpl; lia|].
    destruct (decide (n mod 10 = 0)) as [->|]; [by left|right; eauto].
  - destruct fuel as [|fuel'].
    { change (10 ^ Z.of_nat 1) with 10 in Hn. rewrite Z.div_small in E by lia. done. }
    destruct (IH (n / 10) (48 + n mod 10 :: acc)) as (ds & -> & Hds & Hv & Hhead); [lia| |].
    { rewrite Nat2Z.inj_succ, Z.pow_succ_r in Hn by lia. split; [apply Z.div_pos; lia|].
      apply Z.div_lt_upper_bound; lia. }
    exists (ds ++ [n mod 10]). split_and!.
    + rewrite fmap_app. simpl. by rewrite <-app_assoc.
    + apply Forall_app; split; [done|by constructor].
    + unfold digits_value in *. rewrite foldl_app, Hv. simpl. pose proof (Z.div_mod n 10). lia.
    + destruct Hhead as [->|(d & ds' & -> & Hd)]; [|right; eauto].
      unfold digits_value in Hv. simpl in Hv. lia.
Qed.

Lemma dec_spec n :
  0 <= n →
  ∃ ds, dec n = Z.add 48 <$> ds ∧ Forall (λ d, 0 <= d < 10) ds ∧ digits_value ds = n ∧
    (ds = [0] ∨ ∃ d ds', ds = d :: ds' ∧ d ≠ 0).
Proof.
  intros Hn. destruct (digits_spec (S (Z.to_nat (Z.log2 n))) n []) as (ds & E & Hds); [lia| |].
  - split; [done|]. rewrite Nat2Z.inj_succ, Z2Nat.id by apply Z.log2_nonneg.
    destruct (decide (n = 0)) as [->|]; [done|].
    apply Z.lt_le_trans with (2 ^ Z.succ (Z.log2 n)); [apply Z.log2_spec; lia|].
    apply Z.pow_le_mono_l. pose proof (Z.log2_nonneg n). lia.
  - exists ds. unfold dec. by rewrite E, app_nil_r.
Qed.

Lemma span_digits_app ds rest :
  Forall (λ d, 0 <= d < 10) ds → match rest with [] => True | c :: _ => is_digit c = false end →
  span_digits ((Z.add 48 <$> ds) ++ rest) = (ds, rest).
Proof.
  intros Hds Hrest. induction Hds as [|d ds Hd _ IH]; csimpl.
  - destruct rest; [done|]. cbn. by rewrite Hrest.
  - unfold is_digit. rewrite (proj2 (Z.leb_le _ _)), (proj2 (Z.leb_le _ _)) by lia. cbn [andb].
    rewrite IH. do 2 f_equal. lia.
Qed.

Lemma delimited_not_digit rest :
  delimited rest → match rest with [] => True | c :: _ => is_digit c = false end.
Proof. destruct rest; [done|]. by intros [->|[->| ->]]. Qed.
Lemma delimited_no_tail rest : delimited rest → scan_frac rest = ([], rest) ∧ scan_exp rest = None.
Proof. destruct rest; [done|]. by intros [->|[->| ->]]. Qed.

Lemma scan_number_int z rest :
  delimited rest → scan_number (py_str_int z ++ rest) = Some (JInt z, rest).
Proof.
  intros Hr. destruct (delimited_no_tail _ Hr) as [Hfrac Hexp].
  assert (Hpos : ∀ n, 0 <= n → ∃ ip, scan_natural (dec n ++ rest) = Some (ip, rest) ∧ digits_value ip = n).
  { intros n Hn. destruct (dec_spec n Hn) as (ds & -> & Hds & Hv & Hhead). exists ds. split; [|done].
    destruct Hhead as [->|(d & ds' & -> & Hd)]; [done|]. unfold scan_natural.
    rewrite span_digits_app; [|done|by apply delimited_not_digit]. csimpl.
    apply Forall_cons in Hds as [? _]. rewrite (proj2 (Z.eqb_neq _ _)) by lia. done. }
  assert (Hsign : scan_sign (py_str_int z ++ rest) = (z <? 0, dec (Z.abs z) ++ rest)).
  { unfold scan_sign, py_str_int. destruct (z <? 0) eqn:Ez; breflect.
    - by rewrite Z.abs_neq by lia.
    - rewrite (Z.abs_eq z) by lia. destruct (dec_spec z) as (ds & -> & Hds & _ & Hhead); [lia|].
      destruct Hhead as [->|(d & ds' & -> & Hd)]; [done|]. csimpl. apply Forall_cons in Hds as [? _].
      by rewrite (proj2 (Z.eqb_neq _ _)) by lia. }
  unfold scan_number. rewrite Hsign. cbn [fst snd]. destruct (Hpos (Z.abs z)) as (ip & -> & Hv); [lia|].
  cbn [mbind option_bind]. rewrite Hfrac, Hexp, Hv. destruct (z <? 0) eqn:E; breflect; do 3 f_equal; lia.
Qed.

(** The literal of an integer starts with a sign or a digit. *)
Lemma py_str_int_head z : ∃ c t, py_str_int z = c :: t ∧ (c = 45 ∨ 48 <= c <= 57).
Proof.
  unfold py_str_int. destruct (z <? 0) eqn:E; [by eauto|]. breflect.
  destruct (dec_spec z) as (ds & -> & Hds & _ & Hhead); [lia|].
  destruct Hhead as [->|(d & ds' & -> & Hd)]; csimpl.
  - eexists _, _. split; [done|]. lia.
  - apply Forall_cons in Hds as [? _]. eexists _, _. split; [done|]. lia.
Qed.

Definition ascii_text (t : text) : Prop := Forall (λ c, 0 <= c < 128) t.
(** The strings of the round trip. *)
Definition ascii_string (s : string) : Prop := ascii_text (bytes_of s).

Lemma is_ascii_true t : is_ascii t = true ↔ ascii_text t.
Proof.
  unfold is_ascii, ascii_text. rewrite forallb_forall, Forall_forall. setoid_rewrite list_elem_of_In.
  setoid_rewrite andb_true_iff. setoid_rewrite Z.leb_le. by setoid_rewrite Z.ltb_lt.
Qed.
Lemma string_of_bytes s : string_of (bytes_of s) = s.
Proof.
  unfold string_of, bytes_of. rewrite <-list_fmap_compose.
  rewrite <-(String.string_of_list_ascii_of_string s) at 2. f_equal.
  induction (String.list_ascii_of_string s) as [|a l IH]; csimpl; [done|].
  rewrite IH, Nat2Z.id, Ascii.ascii_nat_embedding. done.
Qed.
Lemma codepoints_ascii t : ascii_text t → codepoints t = t.
Proof.
  induction 1 as [|c t Hc _ IH]; [done|]. cbn. rewrite (proj2 (Z.ltb_lt _ _)) by lia. by rewrite IH.
Qed.

Lemma ascii_cases (P : Z → Prop) : Forall P (seqZ 0 128) → ∀ c, 0 <= c < 128 → P c.
Proof. intros H c Hc. rewrite Forall_forall in H. apply H, elem_of_seqZ. lia. Qed.

Lemma scan_escaped c t :
  0 <= c < 128 →
  scan_string (escape_char c ++ t) = '(s, rest) ← scan_string t; Some (c :: s, rest).
Proof.
  intros Hc. revert t. pattern c. revert c Hc. apply ascii_cases.
  repeat (constructor; [intros t; reflexivity|]). constructor.
Qed.
Lemma escape_ascii c : 0 <= c < 128 → ascii_text (escape_char c).
Proof.
  intros Hc. apply is_ascii_true. pattern c. revert c Hc. apply ascii_cases.
  apply Forall_forall. intros c Hc. revert c Hc. by apply Forall_forall; repeat constructor.
Qed.
Lemma scan_string_quoted t rest :
  ascii_text t → scan_string (concat (escape_char <$> t) ++ 34 :: rest) = Some (t, rest).
Proof.
  induction 1 as [|c t Hc _ IH]; [done|]. csimpl. rewrite <-app_assoc, scan_escaped by done. by rewrite IH.
Qed.
Lemma quote_scan s rest : ascii_string s → scan_string (tail (quote s) ++ rest) = Some (bytes_of s, rest).
Proof.
  intros Hs. unfold quote. cbn [app tail]. rewrite codepoints_ascii by done.
  rewrite <-app_assoc. by apply scan_string_quoted.
Qed.

(** Values without floats, with ASCII strings and distinct keys. *)
Fixpoint plain (v : Json) : bool :=
  match v with
  | JFloat _ => false
  | JStr s => is_ascii (bytes_of s)
  | JList l => forallb plain l
  | JObj fs =>
      forallb (λ kv, is_ascii (bytes_of kv.1) && plain kv.2) fs && bool_decide (NoDup (fst <$> fs))
  | _ => true
  end.
(** Every object with its keys in order. *)
Fixpoint sorted_json (v : Json) : Json :=
  match v with
  | JList l => JList (map sorted_json l)
  | JObj fs => JObj (sort_fields (map (λ kv, (kv.1, sorted_json kv.2)) fs))
  | v => v
  end.

Section sorting.
Context {A B : Type} (f : A → B).
Implicit Types (l : list (string * A)).

Lemma insert_field_map kv l :
  insert_field (kv.1, f kv.2) (map (λ kv, (kv.1, f kv.2)) l) = map (λ kv, (kv.1, f kv.2)) (insert_field kv l).
Proof. induction l as [|kv' l IH]; simpl; [done|]. destruct (String.leb _ _); simpl; [done|]. by rewrite IH. Qed.
Lemma sort_fields_map l :
  sort_fields (map (λ kv, (kv.1, f kv.2)) l) = map (λ kv, (kv.1, f kv.2)) (sort_fields l).
Proof. induction l as [|kv l IH]; simpl; [done|]. by rewrite IH, insert_field_map. Qed.
Lemma insert_field_perm kv l : insert_field kv l ≡ₚ kv :: l.
Proof. induction l as [|kv' l IH]; simpl; [done|]. destruct (String.leb _ _); [done|]. rewrite IH. by constructor. Qed.
Lemma sort_fields_perm l : sort_fields l ≡ₚ l.
Proof. induction l as [|kv l IH]; simpl; [done|]. by rewrite insert_field_perm, IH. Qed.
Lemma dict_set_fresh k (v : A) l : k ∉ l.*1 → dict_set k v l = l ++ [(k, v)].
Proof.
  induction l as [|[k' v'] l IH]; csimpl; [done|]. intros Hk. apply not_elem_of_cons in Hk as [Hne Hk].
  apply String.eqb_neq in Hne as ->. by rewrite IH.
Qed.
Lemma dict_get_in k (v : A) l : NoDup l.*1 → (k, v) ∈ l → dict_get k l = Some v.
Proof.
  intros Hd Hin. unfold dict_get. destruct (list_find (λ kv, kv.1 = k) l) as [[i [k' v']]|] eqn:E.
  - apply list_find_Some in E as (Hi & Hk & _). cbn in Hk. subst k'. cbn. f_equal.
    apply list_elem_of_lookup_1 in Hin as [j Hj]. assert (i = j) as ->; [|congruence].
    eapply NoDup_lookup; [exact Hd| |]; rewrite list_lookup_fmap; [by rewrite Hi|by rewrite Hj].
  - apply list_find_None in E. rewrite Forall_forall in E. by destruct (E _ Hin).
Qed.
End sorting.

Lemma skip_ws_head c t : is_ws c = false → skip_ws (c :: t) = c :: t.
Proof. cbn. by intros ->. Qed.
(** A character that may start a value. *)
Definition starts_value (c : Z) : Prop := is_ws c = false ∧ c ≠ 93 ∧ c ≠ 125.

Lemma forallb_eq_true {A} (f : A → bool) l : forallb f l = true ↔ Forall (λ x, f x = true) l.
Proof. rewrite forallb_forall, Forall_forall. by setoid_rewrite list_elem_of_In. Qed.
Lemma strip_prefix_head p a c t : head p = Some a → a ≠ c → strip_prefix p (c :: t) = None.
Proof. destruct p; [done|]. intros [= ->] Hne%Z.eqb_neq. cbn [strip_prefix]. by rewrite Hne. Qed.

Section roundtrip.
Context `{FloatRepr}.
#[local] Notation rend := (render canonical_style).
Definition comma : text := [44].
Definition close : text := [93].
Definition closing : text := [125].

Lemma render_head v : plain v = true → ∃ c t, rend v = c :: t ∧ starts_value c.
Proof.
  destruct v as [|[]|z|f|s|l|fs]; intros Hp; try (by eexists _, _; split; [reflexivity|]); [|done].
  destruct (py_str_int_head z) as (c & t & E & Hc). eexists _, _. split; [exact E|].
  unfold starts_value, is_ws. destruct Hc as [->|Hc]; [done|].
  rewrite !(proj2 (Z.eqb_neq c _)) by lia. split_and!; [done|lia..].
Qed.

Definition reads_back (v : Json) : Prop :=
  ∀ n rest, delimited rest → (2 * length (rend v ++ rest) < n)%nat →
    scan_value n (rend v ++ rest) = inr (sorted_json v, rest).

Lemma scan_int_value z : reads_back (JInt z).
Proof.
  intros [|n] rest Hr Hn; [lia|]. cbn [render sorted_json]. pose proof (scan_number_int z rest Hr) as Hnum.
  destruct (py_str_int_head z) as (c & t & E & Hc). rewrite E in *. cbn [app] in *. cbn [scan_value].
  rewrite (proj2 (Z.eqb_neq c 34)), (proj2 (Z.eqb_neq c 123)), (proj2 (Z.eqb_neq c 91)) by lia.
  unfold scan_constant. rewrite (strip_prefix_head (bytes_of "null") 110), (strip_prefix_head (bytes_of "true") 116),
    (strip_prefix_head (bytes_of "false") 102) by (done || lia).
  by rewrite Hnum.
Qed.

Lemma scan_items_join l acc n rest :
  l ≠ [] → Forall (λ v, plain v = true ∧ reads_back v) l →
  (2 * length (join comma (map rend l) ++ close ++ rest) + 1 < n)%nat →
  scan_items n (join comma (map rend l) ++ close ++ rest) acc =
    inr (JList (reverse acc ++ map sorted_json l), rest).
Proof.
  intros Hl Hall. revert acc n. induction Hall as [|v l [Hp Hv] Hall IH]; intros acc n Hn; [done|].
  destruct n as [|n]; [lia|]. cbn [scan_items]. destruct l as [|w l].
  - cbn [map join app close] in *.
    rewrite Hv by (cbn; auto || (rewrite !length_app in *; cbn in *; lia)). cbn -[reverse].
    by rewrite reverse_cons.
  - remember (join comma (map rend (w :: l)) ++ close ++ rest) as tl eqn:Etl.
    assert (Hj : join comma (map rend (v :: w :: l)) ++ close ++ rest = rend v ++ 44 :: tl).
    { subst tl. cbn [map join]. by rewrite <-!app_assoc. }
    rewrite Hj in *. rewrite length_app in Hn. cbn [length] in Hn.
    rewrite Hv; [|by left|rewrite length_app; cbn [length]; lia]. cbn [mbind result_bind].
    rewrite (skip_ws_head 44 tl eq_refl). cbn [Z.eqb Pos.eqb].
    assert (Hskip : skip_ws tl = tl).
    { subst tl. apply Forall_cons in Hall as [[Hwp _] _].
      destruct (render_head w Hwp) as (c & t & E & Hws & _). destruct l; cbn [map join]; rewrite E; by apply skip_ws_head. }
    rewrite Hskip, IH; [|done|lia]. by rewrite reverse_cons, <-app_assoc.
Qed.

Lemma scan_fields_join (fs acc : list (string * Json)) n rest :
  fs ≠ [] → Forall (λ kv, ascii_string kv.1 ∧ reads_back kv.2 ∧ plain kv.2 = true) fs → NoDup (acc.*1 ++ fs.*1) →
  (2 * length (join comma (map (λ kv, render_field canonical_style (kv.1, rend kv.2)) fs) ++ closing ++ rest) + 1 < n)%nat →
  scan_fields n (join comma (map (λ kv, render_field canonical_style (kv.1, rend kv.2)) fs) ++ closing ++ rest) acc =
    inr (JObj (acc ++ map (λ kv, (kv.1, sorted_json kv.2)) fs), rest).
Proof.
  intros Hl Hall. revert acc n. induction Hall as [|[k v] fs (Hk & Hv & Hp) Hall IH]; intros acc n Hd Hn; [done|].
  destruct n as [|n]; [lia|]. cbn [fst snd] in *.
  remember (match fs with [] => closing ++ rest
    | _ => 44 :: join comma (map (λ kv, render_field canonical_style (kv.1, rend kv.2)) fs) ++ closing ++ rest end)
    as tl eqn:Etl.
  assert (Hj : join comma (map (λ kv, render_field canonical_style (kv.1, rend kv.2)) ((k, v) :: fs)) ++ closing ++ rest
    = 34 :: (tail (quote k) ++ 58 :: rend v ++ tl)).
  { subst tl. destruct fs; cbn [map join]; unfold render_field; cbn -[render quote]; by rewrite <-!app_assoc. }
  rewrite Hj in *. cbn [scan_fields]. rewrite Z.eqb_refl. cbn [negb]. rewrite quote_scan by done.
  rewrite (skip_ws_head 58 _ eq_refl), Z.eqb_refl. cbn [negb].
  cbn [length] in Hn. rewrite length_app in Hn. cbn [length] in Hn.
  assert (Hskip : skip_ws (rend v ++ tl) = rend v ++ tl).
  { destruct (render_head v Hp) as (c & t & E & Hws & _). rewrite E. by apply skip_ws_head. }
  rewrite Hskip, Hv; [|subst tl; destruct fs; cbn; auto|lia]. cbn [mbind result_bind].
  rewrite string_of_bytes, dict_set_fresh; last first.
  { intros Hin. apply NoDup_app in Hd as (_ & Hd & _). apply (Hd k Hin). by left. }
  destruct fs as [|kv fs].
  - subst tl. cbn. done.
  - rewrite Etl. rewrite (skip_ws_head 44 _ eq_refl), Z.eqb_refl.
    assert (Hq : ∀ u, skip_ws (join comma (map (λ kv, render_field canonical_style (kv.1, rend kv.2)) (kv :: fs)) ++ u)
      = join comma (map (λ kv, render_field canonical_style (kv.1, rend kv.2)) (kv :: fs)) ++ u).
    { intros u. destruct fs; cbn [map join]; by apply skip_ws_head. }
    rewrite Hq, IH; [|done| |].
    + by rewrite <-app_assoc.
    + rewrite fmap_app. csimpl. by rewrite <-app_assoc.
    + rewrite length_app in Hn. subst tl. cbn [length] in Hn. lia.
Qed.

Lemma scan_rendered v : plain v = true → reads_back v.
Proof.
  induction v as [| | | | |l IH|fs IH] using Json_nested_ind; intros Hp.
  - intros [|n] rest _ Hn; [lia|reflexivity].
  - intros [|n] rest _ Hn; [lia|by destruct b].
  - apply scan_int_value.
  - done.
  - intros [|n] rest _ Hn; [lia|]. apply is_ascii_true in Hp. cbn [render].
    change (quote s ++ rest) with (34 :: (tail (quote s) ++ rest)). cbn [scan_value Z.eqb Pos.eqb]. rewrite quote_scan by done.
    by rewrite string_of_bytes.
  - intros [|n] rest _ Hn; [lia|]. cbn [plain] in Hp. apply forallb_eq_true in Hp.
    assert (Hr : rend (JList l) ++ rest = 91 :: (join comma (map rend l) ++ close ++ rest)).
    { cbn [render]. by rewrite <-!app_assoc. }
    rewrite Hr in *. cbn [scan_value Z.eqb Pos.eqb length] in *. destruct l as [|v l]; [done|].
    assert (Hskip : skip_ws (join comma (map rend (v :: l)) ++ close ++ rest) = join comma (map rend (v :: l)) ++ close ++ rest
      ∧ ∃ c t, join comma (map rend (v :: l)) ++ close ++ rest = c :: t ∧ c ≠ 93).
    { apply Forall_cons in Hp as [Hp _]. destruct (render_head v Hp) as (c & t & E & Hws & Hc & _).
      destruct l; cbn [map join]; rewrite E; (split; [by apply skip_ws_head|by eexists _, _]). }
    destruct Hskip as [Hskip (c & t & E & Hc)]. rewrite Hskip, E. apply Z.eqb_neq in Hc as ->. rewrite <-E.
    rewrite scan_items_join; [done|done| |lia].
    rewrite Forall_forall in *. intros w Hw. specialize (Hp w Hw). eauto.
  - intros [|n] rest _ Hn; [lia|]. cbn [plain] in Hp. apply andb_true_iff in Hp as [Hp Hd].
    apply bool_decide_eq_true in Hd. apply forallb_eq_true in Hp.
    assert (Hr : rend (JObj fs) = 123 :: (join comma (map (λ kv, render_field canonical_style (kv.1, rend kv.2)) (sort_fields fs)) ++ closing)).
    { cbn [render order canonical_style sort_keys item_separator]. rewrite sort_fields_map, map_map. done. }
    rewrite Hr in *. cbn [app scan_value Z.eqb Pos.eqb sorted_json] in *. rewrite sort_fields_map, <-app_assoc in *.
    assert (Hperm := sort_fields_perm fs).
    assert (Hall : Forall (λ kv, ascii_string kv.1 ∧ reads_back kv.2 ∧ plain kv.2 = true) (sort_fields fs)).
    { rewrite Hperm. rewrite Forall_forall in *. intros kv Hkv. specialize (Hp kv Hkv).
      apply andb_true_iff in Hp as [H1 H2]. split_and!; [by apply is_ascii_true|eauto|done]. }
    assert (Hd' : NoDup (sort_fields fs).*1) by by rewrite Hperm.
    destruct (sort_fields fs) as [|kv gs]; [done|].
    assert (Hskip : ∀ u, ∃ t, join comma (map (λ kv, render_field canonical_style (kv.1, rend kv.2)) (kv :: gs)) ++ u = 34 :: t).
    { intros u. destruct gs; by eexists. }
    destruct (Hskip (closing ++ rest)) as [t E]. rewrite E. rewrite skip_ws_head by done.
    cbn [Z.eqb Pos.eqb]. rewrite <-E. apply scan_fields_join; [done..|].
    cbn [length] in Hn. lia.
Qed.

Lemma loads_render v : plain v = true → loads (rend v) = inr (sorted_json v).
Proof.
  intros Hp. destruct (render_head v Hp) as (c & t & E & Hws & _). unfold loads.
  assert (Hbom : strip_prefix [239; 187; 191] (rend v) = None).
  { rewrite E. apply (strip_prefix_head _ 239); [done|].
    intros <-. clear -E Hp. destruct v as [|[]|z|f|s|l|fs]; try discriminate.
    destruct (py_str_int_head z) as (c & u & Ez & Hc). cbn [render] in E. rewrite Ez in E. injection E. lia. }
  rewrite Hbom. replace (skip_ws (rend v)) with (rend v) by (rewrite E; by rewrite skip_ws_head).
  pose proof (scan_rendered v Hp (parse_fuel (rend v)) []) as Hs. rewrite app_nil_r in Hs.
  rewrite Hs; [done|done|]. unfold parse_fuel. lia.
Qed.
End roundtrip.

(** Rendering with sorted keys does not see the order of the keys. *)
Definition fields_le {A} (x y : string * A) : Prop := String.leb x.1 y.1 = true.
Lemma insert_field_sorted {A} (kv : string * A) l :
  Sorted fields_le l → Sorted fields_le (insert_field kv l).
Proof.
  induction 1 as [|x l Hl IH Hx]; cbn; [by repeat constructor|].
  destruct (String.leb kv.1 x.1) eqn:E; [by repeat constructor|].
  constructor; [done|]. assert (Hxk : fields_le x kv).
  { unfold fields_le. destruct (String.leb_total kv.1 x.1); congruence. }
  destruct l as [|y l]; cbn; [by constructor|]. destruct (String.leb kv.1 y.1); constructor; [done|].
  by inversion Hx.
Qed.
Lemma sort_fields_sorted {A} (l : list (string * A)) : Sorted fields_le (sort_fields l).
Proof. induction l; cbn; [constructor|by apply insert_field_sorted]. Qed.
Lemma sort_fields_fixed {A} (l : list (string * A)) : Sorted fields_le l → sort_fields l = l.
Proof.
  induction 1 as [|x l Hl IH Hx]; [done|]. change (insert_field x (sort_fields l) = x :: l). rewrite IH.
  destruct l as [|y l]; cbn; [done|]. inversion Hx as [|?? Hle]; subst. unfold fields_le in Hle. by rewrite Hle.
Qed.
Lemma render_sorted `{FloatRepr} v : render canonical_style (sorted_json v) = render canonical_style v.
Proof.
  induction v as [| | | | |l IH|fs IH] using Json_nested_ind; cbn [sorted_json render]; try done.
  - rewrite map_map. do 3 f_equal. induction IH as [|v l Hv _ IHl]; cbn [map]; [done|]. by rewrite Hv, IHl.
  - cbn [order canonical_style sort_keys]. rewrite <-sort_fields_map, (sort_fields_fixed (sort_fields _)) by apply sort_fields_sorted.
    rewrite map_map. cbn [fst snd]. do 5 f_equal. induction IH as [|kv fs Hv _ IHl]; cbn [map]; [done|]. by rewrite Hv, IHl.
Qed.

(** ** Rendered text is ASCII *)
Lemma ascii_app t1 t2 : ascii_text (t1 ++ t2) ↔ ascii_text t1 ∧ ascii_text t2.
Proof. apply Forall_app. Qed.
Lemma ascii_concat l : Forall ascii_text l → ascii_text (concat l).
Proof. induction 1; cbn; [constructor|]. by apply ascii_app. Qed.
Lemma ascii_join sep l : ascii_text sep → Forall ascii_text l → ascii_text (join sep l).
Proof.
  intros Hs. induction 1 as [|t l Ht Hl IH]; cbn; [constructor|]. destruct l; [done|]. by rewrite !ascii_app.
Qed.
Lemma ascii_int z : ascii_text (py_str_int z).
Proof.
  assert (Hd : ∀ n, 0 <= n → ascii_text (dec n)).
  { intros n Hn. destruct (dec_spec n Hn) as (ds & -> & Hds & _). apply Forall_fmap.
    eapply Forall_impl; [exact Hds|]. cbn. lia. }
  unfold py_str_int. destruct (z <? 0) eqn:E; breflect; [constructor; [lia|]|]; apply Hd; lia.
Qed.
Lemma ascii_quote s : ascii_string s → ascii_text (quote s).
Proof.
  intros Hs. unfold quote. rewrite !ascii_app, codepoints_ascii by done.
  split_and!; [by repeat constructor| |by repeat constructor].
  apply ascii_concat, Forall_fmap. eapply Forall_impl; [exact Hs|]. intros c Hc. by apply escape_ascii.
Qed.
Lemma render_ascii `{FloatRepr} v : plain v = true → ascii_text (render canonical_style v).
Proof.
  induction v as [| | | | |l IH|fs IH] using Json_nested_ind; intros Hp; cbn [render].
  - by apply is_ascii_true.
  - destruct b; by apply is_ascii_true.
  - apply ascii_int.
  - done.
  - by apply ascii_quote, is_ascii_true.
  - cbn [plain] in Hp. apply forallb_eq_true in Hp. rewrite !ascii_app.
    split_and!; [by repeat constructor| |by repeat constructor]. apply ascii_join; [by repeat constructor|].
    rewrite Forall_forall in IH, Hp. apply Forall_forall. intros t (v & <- & Hv)%list_elem_of_In%in_map_iff.
    apply list_elem_of_In in Hv. apply IH; auto.
  - cbn [plain] in Hp. apply andb_true_iff in Hp as [Hp _]. apply forallb_eq_true in Hp. rewrite !ascii_app.
    split_and!; [by repeat constructor| |by repeat constructor]. apply ascii_join; [by repeat constructor|].
    cbn [order canonical_style sort_keys]. rewrite sort_fields_map, map_map.
    rewrite Forall_forall in IH, Hp. apply Forall_forall. intros t ((k & v) & <- & Hkv)%list_elem_of_In%in_map_iff.
    apply list_elem_of_In in Hkv. rewrite sort_fields_perm in Hkv. specialize (Hp _ Hkv).
    apply andb_true_iff in Hp as [Hk Hv]. unfold render_field. rewrite !ascii_app. cbn [fst snd] in *.
    split_and!; [by apply ascii_quote, is_ascii_true|by repeat constructor|by apply (IH _ Hkv)].
Qed.

Lemma decode_ascii_ok t : ascii_text t → decode_ascii t = inr t.
Proof. intros Ht%is_ascii_true. unfold decode_ascii. by rewrite Ht. Qed.
Lemma decode_utf8_ascii t : ascii_text t → decode_utf8 t = inr t.
Proof.
  intros Ht. assert (Hv : utf8_valid t = true).
  { induction Ht as [|c t Hc _ IH]; [done|]. cbn. by rewrite (proj2 (Z.leb_le _ _)), (proj2 (Z.ltb_lt _ _)) by lia. }
  unfold decode_utf8. by rewrite Hv.
Qed.

(** ** The parser terminates within its fuel *)
Definition consumes {A} (f : text → option (A * text)) : Prop :=
  ∀ t a rest, f t = Some (a, rest) → (length rest < length t)%nat.

Lemma skip_ws_length t : (length (skip_ws t) <= length t)%nat.
Proof. induction t as [|c t IH]; cbn; [done|]. destruct (is_ws c); cbn; lia. Qed.

Lemma scan_string_consumes : consumes scan_string.
Proof.
  intros t. induction t as [t IH] using (induction_ltof1 _ (@length Z)). unfold ltof in IH.
  intros s rest H. destruct t as [|c t]; [done|].
  assert (Hrec : ∀ (u : text) (f : text → text), (length u < length (c :: t))%nat →
    ('(s, rest) ← scan_string u; Some (f s, rest)) = Some (s, rest) → (length rest < length (c :: t))%nat).
  { intros u f Hu E. destruct (scan_string u) as [[s' r']|] eqn:Eu; [|done]. cbn in E. injection E as <- <-.
    pose proof (IH u Hu _ _ Eu). lia. }
  cbn [scan_string] in H. destruct (c =? 34); [injection H as <- <-; cbn; lia|].
  destruct (c =? 92); [|destruct (c <? 32); [done|]; by eapply Hrec in H; cbn; auto].
  destruct t as [|e t]; [done|]. destruct (e =? 117).
  - destruct t as [|a1 [|a2 [|a3 [|a4 t]]]]; try done. destruct (hex4_value a1 a2 a3 a4) as [u|]; [|done].
    cbn [mbind option_bind] in H.
    assert (Hlone : ('(s, rest) ← scan_string t; Some (utf8_encode u ++ s, rest)) = Some (s, rest) →
      (length rest < length (c :: e :: a1 :: a2 :: a3 :: a4 :: t))%nat).
    { apply (Hrec t (app (utf8_encode u))). cbn. lia. }
    destruct (is_high u); [|by apply Hlone].
    destruct t as [|b1 [|b2 [|b3 [|b4 [|b5 [|b6 t]]]]]]; try by apply Hlone.
    destruct ((b1 =? 92) && (b2 =? 117)); [|by apply Hlone].
    destruct (hex4_value b3 b4 b5 b6) as [v|]; [|done]. cbn [mbind option_bind] in H.
    destruct (is_low v); [|by apply Hlone].
    by eapply (Hrec t (app (utf8_encode (65536 + (u - 55296) * 1024 + (v - 56320))))) in H; cbn in *; try lia.
  - destruct (simple_escape e) as [x|]; [|done]. cbn [mbind option_bind] in H.
    eapply (Hrec t (cons x)) in H; cbn in *; lia.
Qed.
Lemma span_digits_length t : (length (span_digits t).2 <= length t)%nat ∧
  ((span_digits t).1 ≠ [] → (length (span_digits t).2 < length t)%nat).
Proof.
  induction t as [|c t [IH _]]; cbn; [done|]. destruct (is_digit c); cbn; [|split; [lia|done]].
  destruct (span_digits t). cbn in *. split; intros; lia.
Qed.
Lemma strip_prefix_length p t rest : strip_prefix p t = Some rest → length t = (length p + length rest)%nat.
Proof.
  revert t. induction p as [|a p IH]; intros t; cbn; [by intros [= ->]|]. destruct t as [|b t]; [done|].
  destruct (a =? b); [|done]. intros H%IH. cbn. lia.
Qed.
Lemma scan_number_consumes : consumes scan_number.
Proof.
  intros t v rest H. unfold scan_number in H.
  assert (Hs : (length (scan_sign t).2 <= length t)%nat).
  { unfold scan_sign. destruct t as [|c t]; [done|]. destruct (c =? 45); cbn; lia. }
  destruct (scan_sign t) as [neg t1]. cbn [fst snd] in *.
  assert (Hn : ∀ ip t2, scan_natural t1 = Some (ip, t2) → (length t2 < length t1)%nat).
  { intros ip t2. unfold scan_natural. destruct t1 as [|c u]; [done|]. destruct (c =? 48); [intros [= <- <-]; cbn; lia|].
    pose proof (span_digits_length (c :: u)) as [_ Hd]. destruct (span_digits (c :: u)) as [[|d ds] r]; [done|].
    intros [= <- <-]. cbn in *. by apply Hd. }
  destruct (scan_natural t1) as [[ip t2]|] eqn:E2; [|done]. specialize (Hn _ _ eq_refl). cbn [mbind option_bind] in H.
  assert (Hf : (length (scan_frac t2).2 <= length t2)%nat).
  { unfold scan_frac. destruct t2 as [|c u]; [done|]. destruct (c =? 46); [|done].
    pose proof (span_digits_length u) as [Hd _]. destruct (span_digits u) as [[|d ds] r]; cbn in *; lia. }
  destruct (scan_frac t2) as [fp t3]. cbn [fst snd] in *.
  assert (He : ∀ e r, scan_exp t3 = Some (e, r) → (length r <= length t3)%nat).
  { intros e r. unfold scan_exp. destruct t3 as [|c u]; [done|]. destruct ((c =? 101) || (c =? 69)); [|done].
    assert (Hsg : ∀ sg u', match u with [] => (1, u) | s :: t'' => if s =? 45 then (-1, t'') else if s =? 43 then (1, t'') else (1, u) end
      = (sg, u') → (length u' <= length u)%nat).
    { intros sg u'. destruct u as [|s u]; [by intros [= <- <-]|]. destruct (s =? 45); [intros [= <- <-]; cbn; lia|].
      destruct (s =? 43); intros [= <- <-]; cbn; lia. }
    destruct (match u with [] => _ | _ => _ end) as [sg u'] eqn:Eu. specialize (Hsg _ _ eq_refl).
    pose proof (span_digits_length u') as [Hd _]. destruct (span_digits u') as [[|d ds] r']; [done|].
    intros [= <- <-]. cbn in *. lia. }
  destruct fp, (scan_exp t3) as [[e r]|] eqn:Ee; injection H as <- <-; try specialize (He _ _ eq_refl); lia.
Qed.
Lemma scan_constant_consumes : consumes scan_constant.
Proof.
  intros t v rest H. unfold scan_constant in H.
  repeat match type of H with
  | match strip_prefix ?p t with _ => _ end = _ =>
      let E := fresh in destruct (strip_prefix p t) eqn:E;
      [injection H as <- <-; apply strip_prefix_length in E; cbn in E; lia|]
  | match scan_number t with _ => _ end = _ =>
      destruct (scan_number t) as [[? ?]|] eqn:?; [injection H as <- <-; by eapply scan_number_consumes|]
  end.
  done.
Qed.

(** A decoding error, or a value that shortens the text. *)
Definition decode_error (e : exn) : bool := match e with JSONDecodeError _ => true | _ => false end.
Definition progress (t : text) (r : result (Json * text)) : Prop :=
  match r with inl e => decode_error e = true | inr (_, rest) => (length rest < length t)%nat end.

Lemma scan_progress n :
  (∀ t, (2 * length t < n)%nat → progress t (scan_value n t)) ∧
  (∀ t acc, (2 * length t + 1 < n)%nat → progress t (scan_items n t acc)) ∧
  (∀ t acc, (2 * length t < n)%nat → progress t (scan_fields n t acc)).
Proof.
  induction n as [|n (IHv & IHi & IHf)]; [split_and!; intros; lia|]. split_and!.
  - intros [|c t] Hn; [done|]. cbn [scan_value length] in *. pose proof (skip_ws_length t) as Hws.
    destruct (c =? 34).
    { destruct (scan_string t) as [[s r]|] eqn:E; [|done]. apply scan_string_consumes in E. cbn. lia. }
    destruct (c =? 123).
    { destruct (skip_ws t) as [|c' r]; [done|]. cbn [length] in *. destruct (c' =? 125); [cbn; lia|].
      specialize (IHf (c' :: r) []). cbn [length] in IHf. specialize (IHf ltac:(lia)).
      destruct (scan_fields n (c' :: r) []) as [e|[v r']]; cbn in *; [done|lia]. }
    destruct (c =? 91).
    { destruct (skip_ws t) as [|c' r]; [done|]. cbn [length] in *. destruct (c' =? 93); [cbn; lia|].
      specialize (IHi (c' :: r) []). cbn [length] in IHi. specialize (IHi ltac:(lia)).
      destruct (scan_items n (c' :: r) []) as [e|[v r']]; cbn in *; [done|lia]. }
    destruct (scan_constant (c :: t)) as [[v r]|] eqn:E; [|done]. by apply scan_constant_consumes in E.
  - intros t acc Hn. cbn [scan_items]. specialize (IHv t ltac:(lia)).
    destruct (scan_value n t) as [e|[v r]]; cbn in IHv |- *; [done|].
    pose proof (skip_ws_length r) as Hws. destruct (skip_ws r) as [|c r']; [done|]. cbn [length] in *.
    destruct (c =? 44); [|destruct (c =? 93); [cbn; lia|done]].
    pose proof (skip_ws_length r'). specialize (IHi (skip_ws r') (v :: acc) ltac:(lia)).
    destruct (scan_items n (skip_ws r') (v :: acc)) as [e|[v' r'']]; cbn in *; [done|lia].
  - intros [|q t] acc Hn; [done|]. cbn [scan_fields length] in *. destruct (negb (q =? 34)); [done|].
    destruct (scan_string t) as [[k r]|] eqn:Ek; [|done]. apply scan_string_consumes in Ek.
    pose proof (skip_ws_length r). destruct (skip_ws r) as [|c r1]; [done|]. cbn [length] in *.
    destruct (negb (c =? 58)); [done|]. pose proof (skip_ws_length r1).
    specialize (IHv (skip_ws r1) ltac:(lia)).
    destruct (scan_value n (skip_ws r1)) as [e|[v r2]]; cbn in IHv |- *; [done|].
    pose proof (skip_ws_length r2). destruct (skip_ws r2) as [|c' r3]; [done|]. cbn [length] in *.
    destruct (c' =? 44); [|destruct (c' =? 125); [cbn; lia|done]]. pose proof (skip_ws_length r3).
    specialize (IHf (skip_ws r3) (dict_set (string_of k) v acc) ltac:(lia)).
    destruct (scan_fields n (skip_ws r3) _) as [e|[v' r4]]; cbn in *; [done|lia].
Qed.

Lemma loads_errors t e : loads t = inl e → decode_error e = true.
Proof.
  unfold loads. destruct (strip_prefix _ t); [by intros [= <-]|]. pose proof (skip_ws_length t).
  destruct (scan_progress (parse_fuel t)) as (Hv & _). specialize (Hv (skip_ws t)). unfold parse_fuel in *.
  specialize (Hv ltac:(lia)). destruct (scan_value _ _) as [e'|[v r]]; cbn in *; [congruence|].
  destruct (skip_ws r); [done|]. by intros [= <-].
Qed.
