(* ===== verification/Blake2b.v ===== *)
(** * BLAKE2b

    [hashlib.blake2b(data, digest_size=n)] without a key, as RFC 7693 defines
    it: the digests of page keys, page envelopes and catalog snapshots. Bytes
    are integers below 256, words integers below [2^64]. *)
From S2P Require Import Prelude.
Set Default Goal Selector "!".
Local Open Scope Z_scope.

(** ** Words *)
Definition add64 (x y : Z) : Z := (x + y) mod 2 ^ 64.
Definition rotr64 (x n : Z) : Z := Z.lor (Z.shiftr x n) (Z.shiftl x (64 - n) mod 2 ^ 64).
Definition le_bytes (n : nat) (x : Z) : list Z := (λ i, x / 256 ^ Z.of_nat i mod 256) <$> seq 0 n.
Definition of_le_bytes (l : list Z) : Z := foldr (λ b acc, b + 256 * acc) 0 l.

Definition blake_iv : list Z :=
  [0x6a09e667f3bcc908; 0xbb67ae8584caa73b; 0x3c6ef372fe94f82b; 0xa54ff53a5f1d36f1;
   0x510e527fade682d1; 0x9b05688c2b3e6c1f; 0x1f83d9abfb41bd6b; 0x5be0cd19137e2179].
Definition blake_sigma : list (list nat) :=
  [[0; 1; 2; 3; 4; 5; 6; 7; 8; 9; 10; 11; 12; 13; 14; 15]%nat;
   [14; 10; 4; 8; 9; 15; 13; 6; 1; 12; 0; 2; 11; 7; 5; 3]%nat;
   [11; 8; 12; 0; 5; 2; 15; 13; 10; 14; 3; 6; 7; 1; 9; 4]%nat;
   [7; 9; 3; 1; 13; 12; 11; 14; 2; 6; 5; 10; 4; 0; 15; 8]%nat;
   [9; 0; 5; 7; 2; 4; 10; 15; 14; 1; 11; 12; 6; 8; 3; 13]%nat;
   [2; 12; 6; 10; 0; 11; 8; 3; 4; 13; 7; 5; 15; 14; 1; 9]%nat;
   [12; 5; 1; 15; 14; 13; 4; 10; 0; 7; 6; 3; 9; 2; 8; 11]%nat;
   [13; 11; 7; 14; 12; 1; 3; 9; 5; 0; 15; 4; 8; 6; 2; 10]%nat;
   [6; 15; 14; 9; 11; 3; 0; 8; 12; 2; 13; 7; 1; 4; 10; 5]%nat;
   [10; 2; 8; 4; 7; 6; 1; 5; 15; 11; 9; 14; 3; 12; 13; 0]%nat].

(** ** Compression *)
Definition word (l : list Z) (i : nat) : Z := default 0 (l !! i).
Definition mix (a b c d : nat) (x y : Z) (v : list Z) : list Z :=
  let va := add64 (add64 (word v a) (word v b)) x in
  let vd := rotr64 (Z.lxor (word v d) va) 32 in
  let vc := add64 (word v c) vd in
  let vb := rotr64 (Z.lxor (word v b) vc) 24 in
  let va := add64 (add64 va vb) y in
  let vd := rotr64 (Z.lxor vd va) 16 in
  let vc := add64 vc vd in
  let vb := rotr64 (Z.lxor vb vc) 63 in
  <[a := va]> (<[b := vb]> (<[c := vc]> (<[d := vd]> v))).
Definition blake_round (m : list Z) (s : list nat) (v : list Z) : list Z :=
  let x i := word m (default 0%nat (s !! i)) in
  let v := mix 0 4 8 12 (x 0%nat) (x 1%nat) v in
  let v := mix 1 5 9 13 (x 2%nat) (x 3%nat) v in
  let v := mix 2 6 10 14 (x 4%nat) (x 5%nat) v in
  let v := mix 3 7 11 15 (x 6%nat) (x 7%nat) v in
  let v := mix 0 5 10 15 (x 8%nat) (x 9%nat) v in
  let v := mix 1 6 11 12 (x 10%nat) (x 11%nat) v in
  let v := mix 2 7 8 13 (x 12%nat) (x 13%nat) v in
  mix 3 4 9 14 (x 14%nat) (x 15%nat) v.
Definition blake_rounds : list (list nat) := blake_sigma ++ take 2 blake_sigma.
Definition blake_compress (h : list Z) (block : list Z) (t : Z) (last : bool) : list Z :=
  let m := (λ i, of_le_bytes (slice (8 * i) (8 * i + 8) block)) <$> seq 0 16 in
  let v := h ++ blake_iv in
  let v := <[12%nat := Z.lxor (word v 12) (t mod 2 ^ 64)]> v in
  let v := <[13%nat := Z.lxor (word v 13) (Z.shiftr t 64)]> v in
  let v := if last then <[14%nat := Z.lxor (word v 14) (2 ^ 64 - 1)]> v else v in
  let v := foldl (λ v s, blake_round m s v) v blake_rounds in
  imap (λ i x, Z.lxor (Z.lxor x (word v i)) (word v (i + 8))) h.

(** The blocks of 128 bytes, the last one padded with zeros. *)
Fixpoint blake_blocks (fuel : nat) (h : list Z) (t : Z) (data : list Z) : list Z :=
  match fuel with
  | O => h
  | S fuel =>
      if (length data <=? 128)%nat then
        blake_compress h (data ++ replicate (128 - length data) 0) (t + Z.of_nat (length data)) true
      else blake_blocks fuel (blake_compress h (take 128 data) (t + 128) false) (t + 128) (drop 128 data)
  end.

(** [blake2b(data, digest_size=n).digest()] *)
Definition blake2b (n : nat) (data : list Z) : list Z :=
  let h := <[0%nat := Z.lxor (word blake_iv 0) (16842752 + Z.of_nat n)]> blake_iv in
  take n (concat (le_bytes 8 <$> blake_blocks (S (length data / 128)) h 0 data)).

(** [.hexdigest()] *)
Definition hex_char (d : Z) : Z := if d <? 10 then 48 + d else 87 + d.
Definition hexlify (l : list Z) : list Z := concat ((λ b, [hex_char (b / 16); hex_char (b mod 16)]) <$> l).
Definition hexdigest (n : nat) (data : list Z) : list Z := hexlify (blake2b n data).

(** The test vector of RFC 7693, appendix A. *)
Example blake2b_abc :
  of_le_bytes (reverse (blake2b 64 [97; 98; 99])) =
  0xba80a53f981c4d0d6a2797b69f12f6e94c212f14685ac4b74b12bb6fdbffa2d17d87c5392aab792dc252d5de4533cc9518d38aa8dbf1925ab92386edd4009923.
Proof. vm_compute. reflexivity. Qed.

(** ** Shape of a digest *)
Definition byte_ok (b : Z) : Prop := 0 <= b < 256.

Lemma le_bytes_length n x : length (le_bytes n x) = n.
Proof. unfold le_bytes. by rewrite length_fmap, length_seq. Qed.
Lemma le_bytes_ok n x : Forall byte_ok (le_bytes n x).
Proof. apply Forall_fmap, Forall_true. intros i. apply Z.mod_pos_bound. lia. Qed.
Lemma le_bytes_cons n x : le_bytes (S n) x = x mod 256 :: le_bytes n (x / 256).
Proof.
  unfold le_bytes. change (seq 0 (S n)) with (0%nat :: seq 1 n). rewrite <-fmap_S_seq. csimpl.
  rewrite Z.div_1_r, <-list_fmap_compose. f_equal. apply list_fmap_ext. intros i j _. cbn -[Z.pow Z.of_nat].
  by rewrite Nat2Z.inj_succ, Z.pow_succ_r, Z.div_div by lia.
Qed.
Lemma of_le_bytes_spec n x : 0 <= x < 256 ^ Z.of_nat n → of_le_bytes (le_bytes n x) = x.
Proof.
  revert x. induction n as [|n IH]; intros x Hx; [cbn in *; lia|].
  rewrite Nat2Z.inj_succ, Z.pow_succ_r in Hx by lia. rewrite le_bytes_cons. cbn [of_le_bytes foldr].
  fold (of_le_bytes (le_bytes n (x / 256))).
  rewrite IH; [pose proof (Z.div_mod x 256); lia|]. split; [apply Z.div_pos; lia|].
  apply Z.div_lt_upper_bound; lia.
Qed.
Lemma of_le_bytes_range l : Forall byte_ok l → 0 <= of_le_bytes l < 256 ^ Z.of_nat (length l).
Proof.
  induction 1 as [|b l Hb _ IH]; [cbn; lia|]. cbn [of_le_bytes foldr length] in *. fold (of_le_bytes l).
  unfold byte_ok in Hb. rewrite Nat2Z.inj_succ, Z.pow_succ_r by lia. lia.
Qed.
Lemma le_bytes_of l : Forall byte_ok l → le_bytes (length l) (of_le_bytes l) = l.
Proof.
  induction 1 as [|b l Hb _ IH]; [done|]. cbn [length]. rewrite le_bytes_cons.
  cbn [of_le_bytes foldr]. fold (of_le_bytes l). unfold byte_ok in Hb. f_equal.
  - rewrite Z.mul_comm, Z_mod_plus_full. apply Z.mod_small. lia.
  - rewrite Z.mul_comm, Z.div_add by lia. rewrite Z.div_small by lia. by rewrite Z.add_0_l.
Qed.

Lemma compress_length h b t l : length (blake_compress h b t l) = length h.
Proof. unfold blake_compress. by rewrite length_imap. Qed.
Lemma blocks_length fuel h t data : length (blake_blocks fuel h t data) = length h.
Proof.
  revert h t data. induction fuel as [|fuel IH]; intros h t data; cbn [blake_blocks]; [done|].
  destruct (length data <=? 128)%nat; [apply compress_length|]. by rewrite IH, compress_length.
Qed.
Lemma concat_le_length l : length (concat (le_bytes 8 <$> l)) = (8 * length l)%nat.
Proof.
  induction l as [|x l IH]; [done|]. change (concat (le_bytes 8 <$> x :: l)) with (le_bytes 8 x ++ concat (le_bytes 8 <$> l)).
  rewrite length_app, le_bytes_length, IH. cbn. lia.
Qed.

Lemma blake2b_length n data : (n <= 64)%nat → length (blake2b n data) = n.
Proof.
  intros Hn. unfold blake2b. rewrite length_take, concat_le_length, blocks_length, length_insert. cbn. lia.
Qed.
Lemma blake2b_bytes n data : Forall byte_ok (blake2b n data).
Proof.
  unfold blake2b. apply Forall_take. induction (blake_blocks _ _ _ _) as [|x l IH]; [constructor|].
  change (Forall byte_ok (le_bytes 8 x ++ concat (le_bytes 8 <$> l))).
  apply Forall_app. split; [apply le_bytes_ok|done].
Qed.
Lemma hexlify_length l : length (hexlify l) = (2 * length l)%nat.
Proof. induction l as [|b l IH]; [done|]. unfold hexlify in *. cbn in *. rewrite IH. lia. Qed.
Lemma hexlify_ascii l : Forall byte_ok l → Forall (λ c, 48 <= c < 58 ∨ 97 <= c < 103) (hexlify l).
Proof.
  unfold hexlify. induction 1 as [|b l Hb _ IH]; csimpl; [constructor|]. unfold byte_ok in Hb.
  assert (Hh : ∀ d, 0 <= d < 16 → 48 <= hex_char d < 58 ∨ 97 <= hex_char d < 103).
  { intros d Hd. unfold hex_char. destruct (d <? 10) eqn:E; breflect; lia. }
  apply Forall_cons. split; [|apply Forall_cons; split; [|done]]; apply Hh.
  - split; [apply Z.div_pos; lia|apply Z.div_lt_upper_bound; lia].
  - apply Z.mod_pos_bound. lia.
Qed.
