(* ===== verification/Qos.v ===== *)
(** * Request QoS, execution-time estimates and metric summaries

    Models the data and the pure parts of [nanovllm/engine/qos.py]: the validated
    [RequestQoS], the immutable [RequestMetrics], the EWMA estimator and the
    percentile summaries. The scheduling policies are in [Policy.v]. *)
From S2P Require Import Prelude.
Set Default Goal Selector "!".
Open Scope Q_scope.

(** ** RequestQoS *)
Record RequestQoS := mkRequestQoS {
  priority : Z;
  ttft_slo_ms : option Q;
  tpot_slo_ms : option Q;
  e2e_slo_ms : option Q;
  request_class : string
}.

Definition slo_nonpositive (o : option Q) : bool :=
  match o with Some x => Qle_bool x 0 | None => false end.

(** [RequestQoS.__post_init__] *)
Definition request_qos (q : RequestQoS) : result RequestQoS :=
  throw_if (priority q <? 0)%Z (ValueError "priority must be non-negative");;
  throw_if (slo_nonpositive (ttft_slo_ms q)) (ValueError "ttft_slo_ms must be positive");;
  throw_if (slo_nonpositive (tpot_slo_ms q)) (ValueError "tpot_slo_ms must be positive");;
  throw_if (slo_nonpositive (e2e_slo_ms q)) (ValueError "e2e_slo_ms must be positive");;
  throw_if (String.eqb (request_class q) "") (ValueError "request_class must not be empty");;
  mret q.

(** [RequestQoS()] *)
Definition default_qos : RequestQoS := {|
  priority := 0; ttft_slo_ms := None; tpot_slo_ms := None; e2e_slo_ms := None;
  request_class := "best_effort" |}.

(** ** RequestMetrics *)
Record RequestMetrics := mkRequestMetrics {
  rm_seq_id : nat;
  rm_request_class : string;
  rm_priority : Z;
  rm_prompt_tokens : nat;
  rm_completion_tokens : nat;
  rm_queue_ms : Q;
  rm_ttft_ms : Q;
  rm_tpot_ms : option Q;
  rm_e2e_ms : Q;
  rm_preemptions : nat;
  rm_kv_reclaim_events : nat;
  rm_kv_reclaimed_blocks : nat;
  rm_kv_retained_blocks : nat;
  rm_kv_invalidated_tokens : nat;
  rm_kv_recomputed_tokens : nat;
  rm_kv_compression_events : nat;
  rm_kv_compression_dropped_blocks : nat;
  rm_kv_compression_dropped_tokens : nat;
  rm_kv_restore_wait_ms : Q;
  rm_kv_restored_tokens : nat;
  rm_kv_restore_failures : nat;
  rm_ttft_slo_ms : option Q;
  rm_tpot_slo_ms : option Q;
  rm_e2e_slo_ms : option Q;
  rm_ttft_slo_met : option bool;
  rm_tpot_slo_met : option bool;
  rm_e2e_slo_met : option bool
}.

(** ** ExecutionTimeEstimator *)
Record ExecutionTimeEstimator := mkEstimator {
  prefill_ms_per_token : Q;
  decode_ms_per_token : Q;
  alpha : Q
}.
#[export] Instance estimator_eta : RecordEta ExecutionTimeEstimator := λ r,
  {| prefill_ms_per_token := prefill_ms_per_token r;
     decode_ms_per_token := decode_ms_per_token r; alpha := alpha r |}.
#[export] Instance set_prefill_ms_per_token : Setter prefill_ms_per_token := ltac:(derive_setter).
#[export] Instance set_decode_ms_per_token : Setter decode_ms_per_token := ltac:(derive_setter).

(** [ExecutionTimeEstimator.__post_init__] *)
Definition execution_time_estimator (e : ExecutionTimeEstimator) : result ExecutionTimeEstimator :=
  throw_if (Qle_bool (prefill_ms_per_token e) 0 || Qle_bool (decode_ms_per_token e) 0)
    (ValueError "initial execution-time estimates must be positive");;
  throw_if (negb (Qlt_bool 0 (alpha e) && Qle_bool (alpha e) 1))
    (ValueError "EWMA alpha must be in (0, 1]");;
  mret e.

(** [ExecutionTimeEstimator.observe] *)
Definition observe (is_prefill : bool) (num_tokens : Z) (elapsed_ms : Q)
    (e : ExecutionTimeEstimator) : ExecutionTimeEstimator :=
  if (num_tokens <=? 0)%Z || Qle_bool elapsed_ms 0 then e
  else
    let sample := elapsed_ms / inject_Z num_tokens in
    if is_prefill
    then e <| prefill_ms_per_token :=
                alpha e * sample + (1 - alpha e) * prefill_ms_per_token e |>
    else e <| decode_ms_per_token :=
                alpha e * sample + (1 - alpha e) * decode_ms_per_token e |>.

(** What the constructor establishes. *)
Definition estimator_ok (e : ExecutionTimeEstimator) : Prop :=
  0 < prefill_ms_per_token e ∧ 0 < decode_ms_per_token e ∧ 0 < alpha e <= 1.

(** ** Percentiles *)
(** [sorted(values)] *)
Definition sorted (values : list Q) : list Q := merge_sort Qle values.

(** [int(x)]: truncation toward zero. *)
Definition py_int (x : Q) : Z := Z.quot (Qnum x) (Zpos (Qden x)).

Definition percentile (values : list Q) (ratio : Q) : result Q :=
  let ordered := sorted values in
  match ordered with
  | [] => mret 0
  | _ =>
      let len := Z.of_nat (length ordered) in
      let position := inject_Z (len - 1) * ratio in
      let lower := py_int position in
      let upper := Z.min (lower + 1) (len - 1) in
      let weight := position - inject_Z lower in
      lo ← py_nth ordered lower;
      up ← py_nth ordered upper;
      mret (lo * (1 - weight) + up * weight)
  end.

(** [statistics.median] *)
Definition median (values : list Q) : result Q :=
  let data := sorted values in
  let n := length data in
  if (n =? 0)%nat then throw (ValueError "no median for empty data")
  else if Nat.odd n then py_nth data (Z.of_nat (n / 2))
  else
    lo ← py_nth data (Z.of_nat (n / 2) - 1);
    hi ← py_nth data (Z.of_nat (n / 2));
    mret ((lo + hi) / 2).

(** ** summarize_metrics *)
Record MetricsSummary := mkMetricsSummary {
  completed_requests : nat;
  queue_ms_p50 : Q; queue_ms_p95 : Q;
  ttft_ms_p50 : Q; ttft_ms_p95 : Q;
  tpot_ms_p50 : Q; tpot_ms_p95 : Q;
  e2e_ms_p50 : Q; e2e_ms_p95 : Q;
  sm_preemptions : nat;
  sm_kv_reclaim_events : nat;
  sm_kv_reclaimed_blocks : nat;
  sm_kv_retained_blocks : nat;
  sm_kv_invalidated_tokens : nat;
  sm_kv_recomputed_tokens : nat;
  sm_kv_compression_events : nat;
  sm_kv_compression_dropped_blocks : nat;
  sm_kv_compression_dropped_tokens : nat;
  kv_restore_wait_ms_p50 : Q; kv_restore_wait_ms_p95 : Q;
  sm_kv_restored_tokens : nat;
  sm_kv_restore_failures : nat;
  ttft_slo_attainment : option Q;
  tpot_slo_attainment : option Q;
  e2e_slo_attainment : option Q
}.

(** [sum(slo) / len(slo) if slo else None] *)
Definition attainment (slo : list bool) : option Q :=
  match slo with
  | [] => None
  | _ => Some (inject_nat (length (filter (λ b, b = true) slo)) / inject_nat (length slo))
  end.

Definition empty_summary : MetricsSummary :=
  {|
  completed_requests := 0;
  queue_ms_p50 := 0; queue_ms_p95 := 0; ttft_ms_p50 := 0; ttft_ms_p95 := 0;
  tpot_ms_p50 := 0; tpot_ms_p95 := 0; e2e_ms_p50 := 0; e2e_ms_p95 := 0;
  sm_preemptions := 0; sm_kv_reclaim_events := 0; sm_kv_reclaimed_blocks := 0;
  sm_kv_retained_blocks := 0; sm_kv_invalidated_tokens := 0;
  sm_kv_recomputed_tokens := 0; sm_kv_compression_events := 0;
  sm_kv_compression_dropped_blocks := 0; sm_kv_compression_dropped_tokens := 0;
  kv_restore_wait_ms_p50 := 0; kv_restore_wait_ms_p95 := 0;
  sm_kv_restored_tokens := 0; sm_kv_restore_failures := 0;
  ttft_slo_attainment := None; tpot_slo_attainment := None; e2e_slo_attainment := None
|}%nat.

Definition summarize_metrics (metrics : list RequestMetrics) : result MetricsSummary :=
  match metrics with
  | [] => mret empty_summary
  | _ =>
      let queue_values := map rm_queue_ms metrics in
      let ttft_values := map rm_ttft_ms metrics in
      let tpot_values := omap rm_tpot_ms metrics in
      let e2e_values := map rm_e2e_ms metrics in
      let restore_wait_values := map rm_kv_restore_wait_ms metrics in
      let ttft_slo := omap rm_ttft_slo_met metrics in
      let tpot_slo := omap rm_tpot_slo_met metrics in
      let e2e_slo := omap rm_e2e_slo_met metrics in
      let total f := nsum (map f metrics) in
      q50 ← median queue_values; q95 ← percentile queue_values (95 # 100);
      t50 ← median ttft_values; t95 ← percentile ttft_values (95 # 100);
      p50 ← match tpot_values with [] => mret 0 | _ => median tpot_values end;
      p95 ← percentile tpot_values (95 # 100);
      e50 ← median e2e_values; e95 ← percentile e2e_values (95 # 100);
      r50 ← median restore_wait_values; r95 ← percentile restore_wait_values (95 # 100);
      mret {|
        completed_requests := length metrics;
        queue_ms_p50 := q50; queue_ms_p95 := q95;
        ttft_ms_p50 := t50; ttft_ms_p95 := t95;
        tpot_ms_p50 := p50; tpot_ms_p95 := p95;
        e2e_ms_p50 := e50; e2e_ms_p95 := e95;
        sm_preemptions := total rm_preemptions;
        sm_kv_reclaim_events := total rm_kv_reclaim_events;
        sm_kv_reclaimed_blocks := total rm_kv_reclaimed_blocks;
        sm_kv_retained_blocks := total rm_kv_retained_blocks;
        sm_kv_invalidated_tokens := total rm_kv_invalidated_tokens;
        sm_kv_recomputed_tokens := total rm_kv_recomputed_tokens;
        sm_kv_compression_events := total rm_kv_compression_events;
        sm_kv_compression_dropped_blocks := total rm_kv_compression_dropped_blocks;
        sm_kv_compression_dropped_tokens := total rm_kv_compression_dropped_tokens;
        kv_restore_wait_ms_p50 := r50; kv_restore_wait_ms_p95 := r95;
        sm_kv_restored_tokens := total rm_kv_restored_tokens;
        sm_kv_restore_failures := total rm_kv_restore_failures;
        ttft_slo_attainment := attainment ttft_slo;
        tpot_slo_attainment := attainment tpot_slo;
        e2e_slo_attainment := attainment e2e_slo
      |}
  end.

(** ** Lemmas *)

#[export] Instance Qle_total : Total Qle.
Proof. intros x y. destruct (Qlt_le_dec x y); [left; by apply Qlt_le_weak|by right]. Qed.
#[export] Instance Qle_transitive : Transitive Qle.
Proof. intros x y z. apply Qle_trans. Qed.

Lemma sorted_perm values : sorted values ≡ₚ values.
Proof. apply merge_sort_Permutation. Qed.
Lemma sorted_length values : length (sorted values) = length values.
Proof. by rewrite sorted_perm. Qed.

(** Entries of a sorted list increase with the index. *)
Lemma StronglySorted_lookup_mono (l : list Q) i j x y :
  StronglySorted Qle l → l !! i = Some x → l !! j = Some y → (i <= j)%nat → x <= y.
Proof.
  intros Hs. revert i j x y. induction Hs as [|a l Hs IH Ha]; intros i j x y Hi Hj Hij; [done|].
  destruct i as [|i], j as [|j]; simplify_eq/=; [apply Qle_refl| |lia|eapply IH; eauto; lia].
  rewrite Forall_lookup in Ha. by eapply Ha.
Qed.
Lemma sorted_mono values i j x y :
  sorted values !! i = Some x → sorted values !! j = Some y → (i <= j)%nat → x <= y.
Proof. apply StronglySorted_lookup_mono. apply (StronglySorted_merge_sort Qle). Qed.

Lemma py_int_nonneg x : 0 <= x → (0 <= py_int x)%Z.
Proof.
  intros H. unfold py_int. destruct x as [n d]. apply Z.quot_pos; [|done].
  unfold Qle in H; simpl in *; lia.
Qed.

Lemma py_int_floor x : 0 <= x → inject_Z (py_int x) <= x ∧ x < inject_Z (py_int x) + 1.
Proof.
  intros H. assert (py_int x = Qfloor x) as ->.
  { unfold py_int, Qfloor. destruct x as [n d]; simpl. apply Z.quot_div_nonneg; [|done].
    unfold Qle in H; simpl in H. lia. }
  split; [apply Qfloor_le|]. pose proof (Qlt_floor x) as H'.
  rewrite inject_Z_plus in H'. done.
Qed.

(** The value [percentile] interpolates at [position] in an ordered list. *)
Definition interpolates (ordered : list Q) (position v : Q) : Prop :=
  ∃ (i : nat) lo up,
    inject_nat i <= position ∧ position < inject_nat i + 1 ∧
    ordered !! i = Some lo ∧
    ordered !! Nat.min (S i) (length ordered - 1) = Some up ∧
    v == lo * (1 - (position - inject_nat i)) + up * (position - inject_nat i).

Lemma inject_nat_le (i j : nat) : (i <= j)%nat → inject_nat i <= inject_nat j.
Proof. intros. unfold inject_nat. rewrite <-Zle_Qle. lia. Qed.
Lemma inject_nat_lt_S (i j : nat) : inject_nat i < inject_nat j + 1 → (i <= j)%nat.
Proof.
  unfold inject_nat. change 1 with (inject_Z 1). rewrite <-inject_Z_plus, <-Zlt_Qlt. lia.
Qed.

Lemma percentile_interpolates values ratio :
  values ≠ [] → 0 <= ratio <= 1 →
  ∃ v, percentile values ratio = inr v ∧
    interpolates (sorted values) (inject_Z (Z.of_nat (length values) - 1) * ratio) v.
Proof.
  intros Hne [Hr0 Hr1]. unfold percentile.
  pose proof (sorted_length values) as Hlen.
  destruct (sorted values) as [|q l] eqn:Es; [by destruct values|].
  set (n := length (q :: l)) in *. rewrite <-Hlen.
  set (pos := inject_Z (Z.of_nat n - 1) * ratio).
  assert (Hn : (0 < n)%nat) by (unfold n; simpl; lia).
  assert (Hp0 : 0 <= pos).
  { apply Qmult_le_0_compat; [|done]. change 0 with (inject_Z 0). rewrite <-Zle_Qle. lia. }
  assert (Hp1 : pos <= inject_Z (Z.of_nat n - 1)).
  { unfold pos. rewrite <-(Qmult_1_r (inject_Z _)) at 2. rewrite (Qmult_comm _ ratio), (Qmult_comm _ 1).
    apply Qmult_le_compat_r; [done|]. change 0 with (inject_Z 0). rewrite <-Zle_Qle. lia. }
  destruct (py_int_floor pos Hp0) as [Hf1 Hf2].
  assert (Hi0 : (0 <= py_int pos)%Z).
  { by apply py_int_nonneg. }
  assert (Hi1 : (py_int pos <= Z.of_nat n - 1)%Z).
  { rewrite Zle_Qle. by eapply Qle_trans. }
  pose (i := Z.to_nat (py_int pos)).
  assert (Hi : py_int pos = Z.of_nat i) by lia.
  destruct (lookup_lt_is_Some_2 (q :: l) i) as [lo Hlo]; [fold n; lia|].
  destruct (lookup_lt_is_Some_2 (q :: l) (Nat.min (S i) (n - 1))) as [up Hup]; [fold n; lia|].
  exists (lo * (1 - (pos - inject_nat i)) + up * (pos - inject_nat i)).
  split.
  - cbv zeta. fold n pos. rewrite Hi, (py_nth_Some _ _ _ Hlo).
    replace (Z.min (Z.of_nat i + 1) (Z.of_nat n - 1)) with (Z.of_nat (Nat.min (S i) (n - 1))) by lia.
    by rewrite (py_nth_Some _ _ _ Hup).
  - unfold inject_nat. exists i, lo, up. unfold inject_nat. rewrite <-Hi. done.
Qed.

Lemma interpolates_range ordered pos v lo up :
  interpolates ordered pos v → (∀ x, x ∈ ordered → lo <= x <= up) → lo <= v <= up.
Proof.
  intros (i & a & b & H1 & H2 & Ha & Hb & Hv) Hr.
  apply list_elem_of_lookup_2, Hr in Ha. apply list_elem_of_lookup_2, Hr in Hb.
  set (w := pos - inject_nat i) in *.
  assert (0 <= w) by (unfold w; lra). assert (w <= 1) by (unfold w; lra).
  rewrite Hv. split; nra.
Qed.

Lemma interpolates_mono values p1 p2 v1 v2 :
  interpolates (sorted values) p1 v1 → interpolates (sorted values) p2 v2 → p1 <= p2 → v1 <= v2.
Proof.
  intros (i & a & b & H1 & H2 & Ha & Hb & Hv) (j & c & d & H3 & H4 & Hc & Hd & Hw) Hp.
  assert (Hij : (i <= j)%nat) by (apply inject_nat_lt_S; lra).
  assert (Hcd : c <= d).
  { apply (sorted_mono _ _ _ _ _ Hc Hd). apply lookup_lt_Some in Hc, Hd. lia. }
  assert (Hab : a <= b).
  { apply (sorted_mono _ _ _ _ _ Ha Hb). apply lookup_lt_Some in Ha, Hb. lia. }
  rewrite Hv, Hw.
  destruct (decide (i = j)) as [->|Hne].
  - rewrite Ha in Hc; injection Hc as ->. rewrite Hb in Hd; injection Hd as ->.
    set (x := inject_nat j) in *.
    assert ((d - c) * (p1 - x) <= (d - c) * (p2 - x)) by nra. lra.
  - assert (Hbc : b <= c).
    { apply (sorted_mono _ _ _ _ _ Hb Hc). lia. }
    set (x := inject_nat i) in *. set (y := inject_nat j) in *.
    assert ((b - a) * (p1 - x) <= (b - a) * 1) by nra.
    assert (0 <= (d - c) * (p2 - y)) by nra. lra.
Qed.

(** [statistics.median] is the interpolation at ratio 1/2. *)
Lemma median_interpolates values :
  values ≠ [] →
  ∃ v, median values = inr v ∧
    interpolates (sorted values) (inject_Z (Z.of_nat (length values) - 1) * (1 # 2)) v.
Proof.
  intros Hne. unfold median. pose proof (sorted_length values) as Hlen.
  set (n := length (sorted values)) in *. rewrite <-Hlen.
  assert (Hn : (0 < n)%nat) by (rewrite Hlen; destruct values; simpl in *; [done|lia]).
  rewrite (proj2 (Nat.eqb_neq n 0)) by lia.
  destruct (Nat.odd n) eqn:Eo.
  - apply Nat.odd_spec in Eo as [m Hm].
    destruct (lookup_lt_is_Some_2 (sorted values) (n / 2)) as [lo Hlo]; [fold n; lia|].
    destruct (lookup_lt_is_Some_2 (sorted values) (Nat.min (S (n / 2)) (n - 1))) as [up Hup]; [fold n; lia|].
    exists lo. split; [by apply py_nth_Some|].
    assert (Hpos : inject_Z (Z.of_nat n - 1) * (1 # 2) == inject_nat (n / 2)).
    { unfold inject_nat. replace (Z.of_nat n - 1)%Z with (2 * Z.of_nat (n / 2))%Z by lia.
      rewrite inject_Z_mult. change (inject_Z 2) with 2. lra. }
    exists (n / 2)%nat, lo, up. fold n. rewrite Hpos. repeat split; try done; lra.
  - rewrite <-Nat.negb_even, negb_false_iff in Eo. apply Nat.even_spec in Eo as [m Hm].
    destruct (lookup_lt_is_Some_2 (sorted values) (n / 2 - 1)) as [lo Hlo]; [fold n; lia|].
    destruct (lookup_lt_is_Some_2 (sorted values) (n / 2)) as [up Hup]; [fold n; lia|].
    replace (Z.of_nat (n / 2) - 1)%Z with (Z.of_nat (n / 2 - 1)) by lia.
    rewrite (py_nth_Some _ _ _ Hlo). rewrite (py_nth_Some _ _ _ Hup).
    exists ((lo + up) / 2). split; [done|].
    assert (Hpos : inject_Z (Z.of_nat n - 1) * (1 # 2) == inject_nat (n / 2 - 1) + (1 # 2)).
    { unfold inject_nat. replace (Z.of_nat n - 1)%Z with (2 * Z.of_nat (n / 2 - 1) + 1)%Z by lia.
      rewrite inject_Z_plus, inject_Z_mult. change (inject_Z 2) with 2. change (inject_Z 1) with 1. lra. }
    exists (n / 2 - 1)%nat, lo, up. fold n. rewrite Hpos.
    replace (Nat.min (S (n / 2 - 1)) (n - 1)) with (n / 2)%nat by lia.
    repeat split; try done; [lra|lra|]. unfold Qdiv. change (/ 2) with (1 # 2). lra.
Qed.

Lemma p50_le_p95 values :
  values ≠ [] →
  ∃ p50 p95, median values = inr p50 ∧ percentile values (95 # 100) = inr p95 ∧ p50 <= p95.
Proof.
  intros Hne.
  destruct (median_interpolates values Hne) as (p50 & H50 & I50).
  destruct (percentile_interpolates values (95 # 100) Hne) as (p95 & H95 & I95); [split; lra|].
  exists p50, p95. split_and!; [done..|]. apply (interpolates_mono _ _ _ _ _ I50 I95).
  set (n := inject_Z _). assert (0 <= n); [|lra].
  unfold n. change 0 with (inject_Z 0). rewrite <-Zle_Qle. destruct values; simpl; [done|lia].
Qed.

Lemma length_filter_le {A} (P : A → Prop) `{∀ x, Decision (P x)} (l : list A) :
  (length (filter P l) <= length l)%nat.
Proof. induction l as [|x l IH]; [done|]. rewrite filter_cons. case_decide; simpl; lia. Qed.

Lemma attainment_range slo q : attainment slo = Some q → 0 <= q <= 1.
Proof.
  unfold attainment. destruct slo as [|b l]; [done|]. intros [= <-].
  set (k := length (filter _ _)). set (n := length (b :: l)).
  assert (Hk : (k <= n)%nat) by apply length_filter_le.
  assert (Hn : 0 < inject_nat n).
  { unfold inject_nat. change 0 with (inject_Z 0). rewrite <-Zlt_Qlt. unfold n; simpl; lia. }
  split.
  - apply Qle_shift_div_l; [done|]. rewrite Qmult_0_l. apply (inject_nat_le 0). lia.
  - apply Qle_shift_div_r; [done|]. rewrite Qmult_1_l. by apply inject_nat_le.
Qed.

(** ** Properties *)

Definition attainment_ok (o : option Q) : Prop := ∀ q, o = Some q → 0 <= q <= 1.

(** Summaries never raise, count every request, order their percentiles and
    report attainments in [0, 1]. *)
Theorem summarize_metrics_sound (metrics : list RequestMetrics) :
  ∃ s, summarize_metrics metrics = inr s ∧
    completed_requests s = length metrics ∧
    queue_ms_p50 s <= queue_ms_p95 s ∧ ttft_ms_p50 s <= ttft_ms_p95 s ∧
    tpot_ms_p50 s <= tpot_ms_p95 s ∧ e2e_ms_p50 s <= e2e_ms_p95 s ∧
    kv_restore_wait_ms_p50 s <= kv_restore_wait_ms_p95 s ∧
    attainment_ok (ttft_slo_attainment s) ∧ attainment_ok (tpot_slo_attainment s) ∧
    attainment_ok (e2e_slo_attainment s).
Proof.
  destruct metrics as [|m l].
  { eexists. split; [reflexivity|]. unfold attainment_ok; simpl. split_and!; done. }
  unfold summarize_metrics. set (ms := m :: l).
  destruct (p50_le_p95 (map rm_queue_ms ms)) as (q50 & q95 & -> & -> & Hq); [done|].
  destruct (p50_le_p95 (map rm_ttft_ms ms)) as (t50 & t95 & -> & -> & Ht); [done|].
  destruct (p50_le_p95 (map rm_e2e_ms ms)) as (e50 & e95 & -> & -> & He); [done|].
  destruct (p50_le_p95 (map rm_kv_restore_wait_ms ms)) as (r50 & r95 & -> & -> & Hr); [done|].
  assert (∃ p50 p95, match omap rm_tpot_ms ms with [] => mret 0 | _ => median (omap rm_tpot_ms ms) end
     = inr p50 ∧ percentile (omap rm_tpot_ms ms) (95 # 100) = inr p95 ∧ p50 <= p95)
    as (p50 & p95 & Hp50 & Hp95 & Hp).
  { destruct (omap rm_tpot_ms ms) as [|v vs] eqn:E; [by exists 0, 0|].
    destruct (p50_le_p95 (v :: vs)) as (?&?&?&?&?); [done|]. eauto. }
  cbn [mbind result_bind]. rewrite Hp50, Hp95. cbn [mbind result_bind].
  eexists. split; [reflexivity|]. unfold attainment_ok; simpl.
  split_and!; try done; intros ?; apply attainment_range.
Qed.

(** An observation keeps the estimator's constructor guarantees, moves the
    observed phase's estimate between the old value and the sample, and leaves the
    other phase alone. *)
Theorem observe_ewma (is_prefill : bool) (num_tokens : Z) (elapsed_ms : Q) e :
  estimator_ok e →
  let e' := observe is_prefill num_tokens elapsed_ms e in
  let phase := if is_prefill then prefill_ms_per_token else decode_ms_per_token in
  let other := if is_prefill then decode_ms_per_token else prefill_ms_per_token in
  estimator_ok e' ∧ other e' = other e ∧
  ((num_tokens <= 0)%Z ∨ elapsed_ms <= 0 → e' = e) ∧
  ((0 < num_tokens)%Z → 0 < elapsed_ms →
     let sample := elapsed_ms / inject_Z num_tokens in
     Qmin (phase e) sample <= phase e' <= Qmax (phase e) sample).
Proof.
  intros (Hp & Hd & Ha0 & Ha1). cbv zeta. unfold observe.
  destruct ((num_tokens <=? 0)%Z || Qle_bool elapsed_ms 0) eqn:E.
  { unfold estimator_ok. breflect. split_and!; try done.
    intros Hn He. destruct E as [E|E]; breflect; [lia|]. lra. }
  breflect. assert (Hs : 0 < elapsed_ms / inject_Z num_tokens).
  { apply Qlt_shift_div_l; [|lra]. change 0 with (inject_Z 0). by rewrite <-Zlt_Qlt. }
  set (s := elapsed_ms / inject_Z num_tokens) in *.
  assert (Hmix : ∀ x, 0 < x → 0 < alpha e * s + (1 - alpha e) * x ∧
     Qmin x s <= alpha e * s + (1 - alpha e) * x <= Qmax x s).
  { intros x Hx. destruct (Q.min_spec x s) as [[? ->]|[? ->]];
      destruct (Q.max_spec x s) as [[? ->]|[? ->]]; split_and!; nra. }
  destruct is_prefill; cbn.
  - destruct (Hmix _ Hp) as (?&?&?). unfold estimator_ok; cbn.
    split_and!; try done. intros [?|?]; [lia|lra].
  - destruct (Hmix _ Hd) as (?&?&?). unfold estimator_ok; cbn.
    split_and!; try done. intros [?|?]; [lia|lra].
Qed.

Lemma observe_ewma_witness :
  let e := {| prefill_ms_per_token := 1 # 20; decode_ms_per_token := 5; alpha := 1 # 5 |} in
  estimator_ok (observe true 10 2 e) ∧
  Qeq (prefill_ms_per_token (observe true 10 2 e)) (2 # 25).
Proof.
  split; [|vm_compute; reflexivity].
  apply (observe_ewma true 10 2). repeat split; cbn; lra.
Defined.

Close Scope Q_scope.
