(* ===== verification/Sequence.v ===== *)
(** * Requests

    Models [nanovllm/engine/sequence.py] and [nanovllm/sampling_params.py]: one
    record per request object, its lifecycle and its counters. Counters are
    natural numbers: the code only adds to them or subtracts a minimum.
    [block_size], a class attribute in the code, is an argument; the reading of
    the clock is an argument too. *)
From S2P Require Import Prelude Qos.
Set Default Goal Selector "!".

(** ** SamplingParams *)
Record SamplingParams := mkSamplingParams {
  sp_temperature : Q;
  sp_max_tokens : nat;
  sp_ignore_eos : bool
}.
(** [SamplingParams.__post_init__] *)
Definition sampling_params (p : SamplingParams) : result SamplingParams :=
  throw_if (negb (Qlt_bool (1 # 10000000000) (sp_temperature p)))
    (AssertionError "greedy sampling is not permitted");;
  mret p.
Definition default_sampling_params : SamplingParams :=
  {| sp_temperature := 1; sp_max_tokens := 64; sp_ignore_eos := false |}.

(** ** Sequence *)
Inductive SequenceStatus := WAITING | WAITING_FOR_KV | RUNNING | FINISHED | CANCELLED.
#[export] Instance SequenceStatus_eq_dec : EqDecision SequenceStatus.
Proof. solve_decision. Defined.

Record Sequence := mkSequence {
  seq_id : nat;
  status : SequenceStatus;
  token_ids : list Z;
  last_token : Z;
  num_tokens : nat;
  num_prompt_tokens : nat;
  num_cached_tokens : nat;
  num_physical_cached_tokens : nat;
  num_scheduled_tokens : nat;
  is_prefill : bool;
  block_table : list nat;
  kv_block_logical_indices : list nat;
  temperature : Q;
  max_tokens : nat;
  ignore_eos : bool;
  qos : RequestQoS;
  arrival_time : option Q;
  arrival_step : nat;
  first_scheduled_time : option Q;
  first_token_time : option Q;
  finished_time : option Q;
  preemption_count : nat;
  kv_reclaim_events : nat;
  kv_reclaimed_blocks : nat;
  kv_retained_blocks : nat;
  kv_invalidated_tokens : nat;
  kv_recomputed_tokens : nat;
  pending_preemption_recompute_tokens : nat;
  kv_compressed : bool;
  kv_compression_events : nat;
  kv_compression_dropped_blocks : nat;
  kv_compression_dropped_tokens : nat;
  last_budget_ms : option Q;
  remote_restore_attempted : bool;
  remote_restore_started_time : option Q;
  remote_restore_completed_time : option Q;
  remote_restore_wait_ms : Q;
  remote_restored_tokens : nat;
  remote_restore_failures : nat;
  remote_restore_error : option string
}.
#[export] Instance Sequence_eta : RecordEta Sequence := λ r, {|
  seq_id := seq_id r;
  status := status r;
  token_ids := token_ids r;
  last_token := last_token r;
  num_tokens := num_tokens r;
  num_prompt_tokens := num_prompt_tokens r;
  num_cached_tokens := num_cached_tokens r;
  num_physical_cached_tokens := num_physical_cached_tokens r;
  num_scheduled_tokens := num_scheduled_tokens r;
  is_prefill := is_prefill r;
  block_table := block_table r;
  kv_block_logical_indices := kv_block_logical_indices r;
  temperature := temperature r;
  max_tokens := max_tokens r;
  ignore_eos := ignore_eos r;
  qos := qos r;
  arrival_time := arrival_time r;
  arrival_step := arrival_step r;
  first_scheduled_time := first_scheduled_time r;
  first_token_time := first_token_time r;
  finished_time := finished_time r;
  preemption_count := preemption_count r;
  kv_reclaim_events := kv_reclaim_events r;
  kv_reclaimed_blocks := kv_reclaimed_blocks r;
  kv_retained_blocks := kv_retained_blocks r;
  kv_invalidated_tokens := kv_invalidated_tokens r;
  kv_recomputed_tokens := kv_recomputed_tokens r;
  pending_preemption_recompute_tokens := pending_preemption_recompute_tokens r;
  kv_compressed := kv_compressed r;
  kv_compression_events := kv_compression_events r;
  kv_compression_dropped_blocks := kv_compression_dropped_blocks r;
  kv_compression_dropped_tokens := kv_compression_dropped_tokens r;
  last_budget_ms := last_budget_ms r;
  remote_restore_attempted := remote_restore_attempted r;
  remote_restore_started_time := remote_restore_started_time r;
  remote_restore_completed_time := remote_restore_completed_time r;
  remote_restore_wait_ms := remote_restore_wait_ms r;
  remote_restored_tokens := remote_restored_tokens r;
  remote_restore_failures := remote_restore_failures r;
  remote_restore_error := remote_restore_error r |}.
#[export] Instance set_status : Setter status := ltac:(derive_setter).
#[export] Instance set_token_ids : Setter token_ids := ltac:(derive_setter).
#[export] Instance set_last_token : Setter last_token := ltac:(derive_setter).
#[export] Instance set_num_prompt_tokens : Setter num_prompt_tokens := ltac:(derive_setter).
#[export] Instance set_num_tokens : Setter num_tokens := ltac:(derive_setter).
#[export] Instance set_num_cached_tokens : Setter num_cached_tokens := ltac:(derive_setter).
#[export] Instance set_num_physical_cached_tokens : Setter num_physical_cached_tokens := ltac:(derive_setter).
#[export] Instance set_num_scheduled_tokens : Setter num_scheduled_tokens := ltac:(derive_setter).
#[export] Instance set_is_prefill : Setter is_prefill := ltac:(derive_setter).
#[export] Instance set_block_table : Setter block_table := ltac:(derive_setter).
#[export] Instance set_kv_block_logical_indices : Setter kv_block_logical_indices := ltac:(derive_setter).
#[export] Instance set_arrival_time : Setter arrival_time := ltac:(derive_setter).
#[export] Instance set_arrival_step : Setter arrival_step := ltac:(derive_setter).
#[export] Instance set_first_scheduled_time : Setter first_scheduled_time := ltac:(derive_setter).
#[export] Instance set_first_token_time : Setter first_token_time := ltac:(derive_setter).
#[export] Instance set_finished_time : Setter finished_time := ltac:(derive_setter).
#[export] Instance set_preemption_count : Setter preemption_count := ltac:(derive_setter).
#[export] Instance set_kv_reclaim_events : Setter kv_reclaim_events := ltac:(derive_setter).
#[export] Instance set_kv_reclaimed_blocks : Setter kv_reclaimed_blocks := ltac:(derive_setter).
#[export] Instance set_kv_retained_blocks : Setter kv_retained_blocks := ltac:(derive_setter).
#[export] Instance set_kv_invalidated_tokens : Setter kv_invalidated_tokens := ltac:(derive_setter).
#[export] Instance set_kv_recomputed_tokens : Setter kv_recomputed_tokens := ltac:(derive_setter).
#[export] Instance set_pending_preemption_recompute_tokens : Setter pending_preemption_recompute_tokens := ltac:(derive_setter).
#[export] Instance set_kv_compressed : Setter kv_compressed := ltac:(derive_setter).
#[export] Instance set_kv_compression_events : Setter kv_compression_events := ltac:(derive_setter).
#[export] Instance set_kv_compression_dropped_blocks : Setter kv_compression_dropped_blocks := ltac:(derive_setter).
#[export] Instance set_kv_compression_dropped_tokens : Setter kv_compression_dropped_tokens := ltac:(derive_setter).
#[export] Instance set_last_budget_ms : Setter last_budget_ms := ltac:(derive_setter).
#[export] Instance set_remote_restore_attempted : Setter remote_restore_attempted := ltac:(derive_setter).
#[export] Instance set_remote_restore_started_time : Setter remote_restore_started_time := ltac:(derive_setter).
#[export] Instance set_remote_restore_completed_time : Setter remote_restore_completed_time := ltac:(derive_setter).
#[export] Instance set_remote_restore_wait_ms : Setter remote_restore_wait_ms := ltac:(derive_setter).
#[export] Instance set_remote_restored_tokens : Setter remote_restored_tokens := ltac:(derive_setter).
#[export] Instance set_remote_restore_failures : Setter remote_restore_failures := ltac:(derive_setter).
#[export] Instance set_remote_restore_error : Setter remote_restore_error := ltac:(derive_setter).

(** [Sequence.__init__]: [counter] is the value drawn from [Sequence.counter]. *)
Definition sequence_init (counter : nat) (tokens : list Z) (sp : option SamplingParams)
    (q : option RequestQoS) (arrival : option Q) : result Sequence :=
  let sp := default default_sampling_params sp in
  let q := default default_qos q in
  last ← py_nth tokens (-1);
  mret {|
    seq_id := counter; status := WAITING; token_ids := tokens; last_token := last;
    num_tokens := length tokens; num_prompt_tokens := length tokens;
    num_cached_tokens := 0; num_physical_cached_tokens := 0; num_scheduled_tokens := 0;
    is_prefill := true; block_table := []; kv_block_logical_indices := [];
    temperature := sp_temperature sp; max_tokens := sp_max_tokens sp;
    ignore_eos := sp_ignore_eos sp; qos := q;
    arrival_time := arrival; arrival_step := 0;
    first_scheduled_time := None; first_token_time := None; finished_time := None;
    preemption_count := 0; kv_reclaim_events := 0; kv_reclaimed_blocks := 0;
    kv_retained_blocks := 0; kv_invalidated_tokens := 0; kv_recomputed_tokens := 0;
    pending_preemption_recompute_tokens := 0; kv_compressed := false;
    kv_compression_events := 0; kv_compression_dropped_blocks := 0;
    kv_compression_dropped_tokens := 0; last_budget_ms := None;
    remote_restore_attempted := false; remote_restore_started_time := None;
    remote_restore_completed_time := None; remote_restore_wait_ms := 0;
    remote_restored_tokens := 0; remote_restore_failures := 0;
    remote_restore_error := None |}.

(** ** Properties of the object *)
Definition is_finished (seq : Sequence) : bool := bool_decide (status seq = FINISHED).
Definition is_terminal (seq : Sequence) : bool :=
  bool_decide (status seq = FINISHED) || bool_decide (status seq = CANCELLED).
Definition num_completion_tokens (seq : Sequence) : nat := num_tokens seq - num_prompt_tokens seq.
Definition prompt_token_ids (seq : Sequence) : list Z :=
  take (num_prompt_tokens seq) (token_ids seq).
Definition completion_token_ids (seq : Sequence) : list Z :=
  drop (num_prompt_tokens seq) (token_ids seq).
Definition num_blocks (block_size : nat) (seq : Sequence) : nat :=
  (num_tokens seq + block_size - 1) / block_size.
Definition last_block_num_tokens (block_size : nat) (seq : Sequence) : nat :=
  num_tokens seq - (num_blocks block_size seq - 1) * block_size.
Definition attention_context_tokens (seq : Sequence) : nat := num_physical_cached_tokens seq + 1.

(** [Sequence.block] *)
Definition block (block_size : nat) (i : nat) (seq : Sequence) : result (list Z) :=
  throw_if (negb (i <? num_blocks block_size seq)) (AssertionError "0 <= i < self.num_blocks");;
  mret (slice (i * block_size) ((i + 1) * block_size) (token_ids seq)).

(** ** Lifecycle *)
Definition mark_arrived (step : nat) (now : Q) (seq : Sequence) : Sequence :=
  let seq := seq <| arrival_step := step |> in
  match arrival_time seq with
  | None => seq <| arrival_time := Some now |>
  | Some _ => seq
  end.

Definition mark_scheduled (now : Q) (seq : Sequence) : Sequence :=
  match first_scheduled_time seq with
  | None => seq <| first_scheduled_time := Some now |>
  | Some _ => seq
  end.

(** [append_token]; [perf_counter] is read when no [now] is passed. *)
Definition append_token (token_id : Z) (now : option Q) (perf_counter : Q) (seq : Sequence) : Sequence :=
  let seq := seq <| token_ids := token_ids seq ++ [token_id] |> in
  let seq := seq <| last_token := token_id |> in
  let seq := seq <| num_tokens := num_tokens seq + 1 |> in
  match first_token_time seq with
  | None => seq <| first_token_time := Some (default perf_counter now) |>
  | Some _ => seq
  end.

Definition mark_finished (now : Q) (seq : Sequence) : Sequence :=
  seq <| finished_time := Some now |>.

Definition record_kv_reclaim (reclaimed_blocks retained_blocks invalidated_tokens : nat)
    (seq : Sequence) : Sequence :=
  let seq := seq <| kv_reclaim_events := kv_reclaim_events seq + 1 |> in
  let seq := seq <| kv_reclaimed_blocks := kv_reclaimed_blocks seq + reclaimed_blocks |> in
  let seq := seq <| kv_retained_blocks := kv_retained_blocks seq + retained_blocks |> in
  let seq := seq <| kv_invalidated_tokens := kv_invalidated_tokens seq + invalidated_tokens |> in
  seq <| pending_preemption_recompute_tokens :=
           pending_preemption_recompute_tokens seq + invalidated_tokens |>.

Definition record_recomputed_tokens (scheduled_tokens : nat) (seq : Sequence) : Sequence :=
  let recomputed := Nat.min scheduled_tokens (pending_preemption_recompute_tokens seq) in
  let seq := seq <| kv_recomputed_tokens := kv_recomputed_tokens seq + recomputed |> in
  seq <| pending_preemption_recompute_tokens :=
           pending_preemption_recompute_tokens seq - recomputed |>.

(** [max(0, a - b)] is the subtraction of natural numbers. *)
Definition record_reused_tokens (reused_tokens : nat) (seq : Sequence) : Sequence :=
  seq <| pending_preemption_recompute_tokens :=
           pending_preemption_recompute_tokens seq - reused_tokens |>.

Definition record_kv_compression (dropped_blocks dropped_tokens : nat) (seq : Sequence) : Sequence :=
  let seq := seq <| kv_compressed := true |> in
  let seq := seq <| kv_compression_events := kv_compression_events seq + 1 |> in
  let seq := seq <| kv_compression_dropped_blocks := kv_compression_dropped_blocks seq + dropped_blocks |> in
  seq <| kv_compression_dropped_tokens := kv_compression_dropped_tokens seq + dropped_tokens |>.

Definition cancel (now : Q) (seq : Sequence) : Sequence :=
  if is_terminal seq then seq
  else
    let seq := seq <| status := CANCELLED |> in
    seq <| finished_time := Some now |>.

(** ** Remote restore *)
Definition begin_remote_restore (now : Q) (seq : Sequence) : result Sequence :=
  throw_if (negb (bool_decide (status seq = WAITING)))
    (RuntimeError "only waiting requests can begin KV restore");;
  let seq := seq <| status := WAITING_FOR_KV |> in
  let seq := seq <| remote_restore_attempted := true |> in
  let seq := seq <| remote_restore_started_time := Some now |> in
  let seq := seq <| remote_restore_completed_time := None |> in
  mret (seq <| remote_restore_error := None |>).

(** [(now - self.remote_restore_started_time) * 1000.0] *)
Definition restore_elapsed_ms (now : Q) (seq : Sequence) : result Q :=
  match remote_restore_started_time seq with
  | Some started => mret ((now - started) * 1000)%Q
  | None => throw (TypeError "unsupported operand type(s) for -: 'float' and 'NoneType'")
  end.

Definition finish_remote_restore (now : Q) (restored_tokens : Z) (seq : Sequence) : result Sequence :=
  throw_if (negb (bool_decide (status seq = WAITING_FOR_KV)))
    (RuntimeError "request is not waiting for KV restore");;
  throw_if (restored_tokens <=? 0)%Z (ValueError "restored_tokens must be positive");;
  elapsed ← restore_elapsed_ms now seq;
  let seq := seq <| status := WAITING |> in
  let seq := seq <| remote_restore_completed_time := Some now |> in
  let seq := seq <| remote_restore_wait_ms := (remote_restore_wait_ms seq + elapsed)%Q |> in
  mret (seq <| remote_restored_tokens := remote_restored_tokens seq + Z.to_nat restored_tokens |>).

Definition seq_fail_remote_restore (now : Q) (error : exn) (seq : Sequence) : result Sequence :=
  throw_if (negb (bool_decide (status seq = WAITING_FOR_KV)))
    (RuntimeError "request is not waiting for KV restore");;
  elapsed ← restore_elapsed_ms now seq;
  let seq := seq <| status := WAITING |> in
  let seq := seq <| remote_restore_completed_time := Some now |> in
  let seq := seq <| remote_restore_wait_ms := (remote_restore_wait_ms seq + elapsed)%Q |> in
  let seq := seq <| remote_restore_failures := remote_restore_failures seq + 1 |> in
  mret (seq <| remote_restore_error := Some (exn_str error) |>).

(** ** Metrics of a completed request *)
Section metrics.
Local Open Scope Q_scope.

(** [(v <= slo) if slo else None]: a target of [0.0] counts as absent. *)
Definition slo_met (v : Q) (slo : option Q) : option bool :=
  match slo with
  | Some s => if Qtruthy s then Some (Qle_bool v s) else None
  | None => None
  end.

Definition seq_metrics (seq : Sequence) : result RequestMetrics :=
  match arrival_time seq, first_token_time seq, finished_time seq with
  | Some arrival, Some first_token, Some finished =>
      let scheduled_time :=
        match first_scheduled_time seq with
        | Some t => if Qtruthy t then t else first_token
        | None => first_token
        end in
      let queue := (scheduled_time - arrival) * 1000 in
      let ttft := (first_token - arrival) * 1000 in
      let e2e := (finished - arrival) * 1000 in
      let tpot :=
        if (1 <? num_completion_tokens seq)%nat
        then Some ((e2e - ttft) / inject_Z (Z.of_nat (num_completion_tokens seq) - 1))
        else None in
      mret {|
        rm_seq_id := seq_id seq;
        rm_request_class := request_class (qos seq);
        rm_priority := priority (qos seq);
        rm_prompt_tokens := num_prompt_tokens seq;
        rm_completion_tokens := num_completion_tokens seq;
        rm_queue_ms := queue; rm_ttft_ms := ttft; rm_tpot_ms := tpot; rm_e2e_ms := e2e;
        rm_preemptions := preemption_count seq;
        rm_kv_reclaim_events := kv_reclaim_events seq;
        rm_kv_reclaimed_blocks := kv_reclaimed_blocks seq;
        rm_kv_retained_blocks := kv_retained_blocks seq;
        rm_kv_invalidated_tokens := kv_invalidated_tokens seq;
        rm_kv_recomputed_tokens := kv_recomputed_tokens seq;
        rm_kv_compression_events := kv_compression_events seq;
        rm_kv_compression_dropped_blocks := kv_compression_dropped_blocks seq;
        rm_kv_compression_dropped_tokens := kv_compression_dropped_tokens seq;
        rm_kv_restore_wait_ms := remote_restore_wait_ms seq;
        rm_kv_restored_tokens := remote_restored_tokens seq;
        rm_kv_restore_failures := remote_restore_failures seq;
        rm_ttft_slo_ms := ttft_slo_ms (qos seq);
        rm_tpot_slo_ms := tpot_slo_ms (qos seq);
        rm_e2e_slo_ms := e2e_slo_ms (qos seq);
        rm_ttft_slo_met := slo_met ttft (ttft_slo_ms (qos seq));
        rm_tpot_slo_met :=
          match tpot_slo_ms (qos seq), tpot with
          | Some s, Some t => Some (Qle_bool t s)
          | _, _ => None
          end;
        rm_e2e_slo_met := slo_met e2e (e2e_slo_ms (qos seq)) |}
  | _, _, _ => throw (RuntimeError "request metrics are only available after completion")
  end.
End metrics.

(** ** Pickling for the tensor-parallel workers *)
(** [last_state]: the token list in prefill, the last token in decode. *)
Inductive LastState := AllTokens (tokens : list Z) | LastToken (token : Z).

Record SequenceState := mkSequenceState {
  st_num_tokens : nat;
  st_num_prompt_tokens : nat;
  st_num_cached_tokens : nat;
  st_num_physical_cached_tokens : nat;
  st_num_scheduled_tokens : nat;
  st_block_table : list nat;
  st_kv_block_logical_indices : list nat;
  st_kv_compressed : bool;
  st_last_state : LastState
}.

(** [Sequence.__getstate__] *)
Definition getstate (seq : Sequence) : SequenceState := {|
  st_num_tokens := num_tokens seq;
  st_num_prompt_tokens := num_prompt_tokens seq;
  st_num_cached_tokens := num_cached_tokens seq;
  st_num_physical_cached_tokens := num_physical_cached_tokens seq;
  st_num_scheduled_tokens := num_scheduled_tokens seq;
  st_block_table := block_table seq;
  st_kv_block_logical_indices := kv_block_logical_indices seq;
  st_kv_compressed := kv_compressed seq;
  st_last_state := if is_prefill seq then AllTokens (token_ids seq) else LastToken (last_token seq)
|}.

(** [Sequence.__setstate__] on [blank], an object made without [__init__]. *)
Definition setstate (st : SequenceState) (blank : Sequence) : result Sequence :=
  let seq := blank <| num_tokens := st_num_tokens st |> in
  let seq := seq <| num_prompt_tokens := st_num_prompt_tokens st |> in
  let seq := seq <| num_cached_tokens := st_num_cached_tokens st |> in
  let seq := seq <| num_physical_cached_tokens := st_num_physical_cached_tokens st |> in
  let seq := seq <| num_scheduled_tokens := st_num_scheduled_tokens st |> in
  let seq := seq <| block_table := st_block_table st |> in
  let seq := seq <| kv_block_logical_indices := st_kv_block_logical_indices st |> in
  let seq := seq <| kv_compressed := st_kv_compressed st |> in
  match st_last_state st with
  | AllTokens tokens =>
      let seq := seq <| token_ids := tokens |> in
      last ← py_nth tokens (-1);
      mret (seq <| last_token := last |>)
  | LastToken token =>
      let seq := seq <| token_ids := [] |> in
      mret (seq <| last_token := token |>)
  end.
