(* ===== verification/Policy.v ===== *)
(** * Scheduling policies

    Models the policies of [nanovllm/engine/qos.py]: the base class, first come
    first served, and the priority-aware latency budget policy. The estimator,
    an object the policy shares with the scheduler, is an argument of each
    operation. The interface [SchedulingPolicy] states what the scheduler relies
    on; its two implementations discharge it. *)
From S2P Require Import Prelude Qos Sequence.
Set Default Goal Selector "!".
Local Open Scope Q_scope.

(** ** Estimates *)
(** [ExecutionTimeEstimator.remaining_prefill_ms] *)
Definition remaining_prefill_ms (e : ExecutionTimeEstimator) (seq : Sequence) : Q :=
  inject_nat (num_tokens seq - num_cached_tokens seq) * prefill_ms_per_token e.
(** [ExecutionTimeEstimator.remaining_decode_ms] *)
Definition remaining_decode_ms (e : ExecutionTimeEstimator) (seq : Sequence) : Q :=
  inject_nat (max_tokens seq - num_completion_tokens seq) * decode_ms_per_token e.

(** ** Ordering keys: [(budget, arrival_step, seq_id)]

    A missing budget stands for [float("inf")]. *)
Definition budget_key : Type := option Q * nat * nat.
Definition ext_lt (x y : option Q) : bool :=
  match x, y with
  | Some x, Some y => Qlt_bool x y
  | Some _, None => true
  | None, _ => false
  end.
(** Python compares tuples lexicographically. *)
Definition key_lt (x y : budget_key) : bool :=
  let '(b1, a1, s1) := x in
  let '(b2, a2, s2) := y in
  ext_lt b1 b2 ||
  (negb (ext_lt b2 b1) && ((a1 <? a2)%nat || ((a1 =? a2)%nat && (s1 <? s2)%nat))).

(** [min(l, key=key)] and [max(l, key=key)] for a key that may raise. *)
Definition with_keys {A K} (key : A → result K) (l : list A) : result (list (K * A)) :=
  mapR (λ x, k ← key x; mret (k, x)) l.
Definition min_by {A} (key : A → result budget_key) (l : list A) : result A :=
  kl ← with_keys key l;
  match py_min key_lt fst kl with
  | Some (_, x) => mret x
  | None => throw (ValueError "min() iterable argument is empty")
  end.
Definition max_by {A} (key : A → result budget_key) (l : list A) : result A :=
  kl ← with_keys key l;
  match py_max key_lt fst kl with
  | Some (_, x) => mret x
  | None => throw (ValueError "max() iterable argument is empty")
  end.

(** ** The interface *)
Class SchedulingPolicy (P : Type) := {
  should_schedule_prefill :
    P → ExecutionTimeEstimator → list Sequence → list Sequence → nat → Q → result bool;
  select_waiting : P → ExecutionTimeEstimator → list Sequence → nat → Q → result Sequence;
  select_running : P → ExecutionTimeEstimator → list Sequence → nat → Q → result Sequence;
  select_preemption_victim :
    P → ExecutionTimeEstimator → list Sequence → nat → Q → result (option Sequence);
  budget_ms : P → ExecutionTimeEstimator → Sequence → nat → Q → result (option Q)
}.

(** What the scheduler relies on, for requests that have arrived. *)
Definition arrived (seq : Sequence) : Prop := is_Some (arrival_time seq).
Class LawfulPolicy (P : Type) `{SchedulingPolicy P} := {
  budget_total p e seq step now : arrived seq → ∃ b, budget_ms p e seq step now = inr b;
  select_waiting_in p e l step now : l ≠ [] → Forall arrived l →
    ∃ s, select_waiting p e l step now = inr s ∧ s ∈ l;
  select_running_in p e l step now : l ≠ [] → Forall arrived l →
    ∃ s, select_running p e l step now = inr s ∧ s ∈ l;
  victim_in p e l step now : l ≠ [] → Forall arrived l →
    ∃ s, select_preemption_victim p e l step now = inr (Some s) ∧ s ∈ l;
  prefill_total p e w r step now : Forall arrived w → Forall arrived r →
    ∃ b, should_schedule_prefill p e w r step now = inr b ∧ (b = true → w ≠ []);
  prefill_idle p e w step now : w ≠ [] → should_schedule_prefill p e w [] step now = inr true
}.

(** [SchedulingPolicy], the base class *)
Definition base_should_schedule_prefill {A} (waiting running : list A) (step : nat) (now : Q) : bool :=
  negb (match waiting with [] => true | _ => false end).
Definition base_select {A} (l : list A) (step : nat) (now : Q) : result Sequence :=
  throw NotImplementedError.
Definition base_budget_ms (seq : Sequence) (step : nat) (now : Q) : option Q := None.

(** ** First come first served *)
Inductive FCFSPolicy := FCFS.

Definition deque_head {A} (l : list A) : result A :=
  match l with x :: _ => mret x | [] => throw (IndexError "deque index out of range") end.

Definition fcfs_select_waiting (waiting : list Sequence) (step : nat) (now : Q) : result Sequence :=
  deque_head waiting.
Definition fcfs_select_running (running : list Sequence) (step : nat) (now : Q) : result Sequence :=
  deque_head running.
Definition fcfs_select_preemption_victim (running : list Sequence) (step : nat) (now : Q) :
    option Sequence := last running.

#[export] Instance FCFSPolicy_ops : SchedulingPolicy FCFSPolicy := {
  should_schedule_prefill _ _ waiting running step now :=
    inr (base_should_schedule_prefill waiting running step now);
  select_waiting _ _ := fcfs_select_waiting;
  select_running _ _ := fcfs_select_running;
  select_preemption_victim _ _ running step now := inr (fcfs_select_preemption_victim running step now);
  budget_ms _ _ seq step now := inr (base_budget_ms seq step now)
}.

(** ** Priority-aware latency budget *)
Record PriorityAwareLatencyBudgetPolicy := mkPALS {
  best_effort_slo_ms : Q;
  priority_boost_ms : Q;
  aging_ms_per_step : Q
}.

Definition Qmin_list (x : Q) (l : list Q) : Q := foldl (λ m y, if Qlt_bool y m then y else m) x l.

Section pals.
Context (p : PriorityAwareLatencyBudgetPolicy) (e : ExecutionTimeEstimator).

(** [_remaining_to_finish_ms] *)
Definition remaining_to_finish_ms (seq : Sequence) : Q :=
  let remaining_decode_tokens := (max_tokens seq - num_completion_tokens seq)%nat in
  if is_prefill seq then
    let remaining := 0 + remaining_prefill_ms e seq in
    let remaining_decode_tokens := (remaining_decode_tokens - 1)%nat in
    remaining + inject_nat remaining_decode_tokens * decode_ms_per_token e
  else 0 + inject_nat remaining_decode_tokens * decode_ms_per_token e.

(** The first-token or next-token candidate of [_raw_budget_ms]. *)
Definition token_candidate (seq : Sequence) (elapsed_ms : Q) : result (list Q) :=
  match first_token_time seq with
  | None =>
      mret (match ttft_slo_ms (qos seq) with
            | Some slo => [slo - elapsed_ms - remaining_prefill_ms e seq]
            | None => []
            end)
  | Some first =>
      match tpot_slo_ms (qos seq) with
      | None => mret []
      | Some slo =>
          match arrival_time seq with
          | None => throw (TypeError "unsupported operand type(s) for -: 'float' and 'NoneType'")
          | Some arrival =>
              let actual_ttft_ms := (first - arrival) * 1000 in
              let next_token_target_ms := actual_ttft_ms + inject_nat (num_completion_tokens seq) * slo in
              let remaining_to_next_token :=
                if is_prefill seq then remaining_prefill_ms e seq else decode_ms_per_token e in
              mret [next_token_target_ms - elapsed_ms - remaining_to_next_token]
          end
      end
  end.

(** [_raw_budget_ms] *)
Definition raw_budget_ms (seq : Sequence) (elapsed_ms : Q) : result Q :=
  candidates ← token_candidate seq elapsed_ms;
  let candidates := candidates ++
    match e2e_slo_ms (qos seq) with
    | Some slo => [slo - elapsed_ms - remaining_to_finish_ms seq]
    | None => []
    end in
  let candidates :=
    match candidates with
    | [] => [best_effort_slo_ms p - elapsed_ms - remaining_to_finish_ms seq]
    | _ => candidates
    end in
  match candidates with
  | [] => throw (ValueError "min() iterable argument is empty")
  | x :: l => mret (Qmin_list x l)
  end.

(** [budget_ms] *)
Definition pals_budget_ms (seq : Sequence) (step : nat) (now : Q) : result Q :=
  match arrival_time seq with
  | None => throw (TypeError "unsupported operand type(s) for -: 'float' and 'NoneType'")
  | Some arrival =>
      let elapsed_ms := Qmax 0 ((now - arrival) * 1000) in
      raw_budget ← raw_budget_ms seq elapsed_ms;
      let priority_credit := inject_Z (priority (qos seq)) * priority_boost_ms p in
      let aging_credit := inject_nat (step - arrival_step seq) * aging_ms_per_step p in
      mret (raw_budget - priority_credit - aging_credit)
  end.

(** [lambda seq: (self.budget_ms(seq, step, now), seq.arrival_step, seq.seq_id)] *)
Definition pals_key (step : nat) (now : Q) (seq : Sequence) : result budget_key :=
  b ← pals_budget_ms seq step now;
  mret (Some b, arrival_step seq, seq_id seq).

Definition pals_select_waiting (waiting : list Sequence) (step : nat) (now : Q) : result Sequence :=
  min_by (pals_key step now) waiting.
Definition pals_select_running (running : list Sequence) (step : nat) (now : Q) : result Sequence :=
  min_by (pals_key step now) running.

Definition pals_should_schedule_prefill (waiting running : list Sequence) (step : nat) (now : Q) :
    result bool :=
  match waiting, running with
  | [], _ => mret false
  | _, [] => mret true
  | _, _ =>
      waiting_seq ← pals_select_waiting waiting step now;
      running_seq ← pals_select_running running step now;
      bw ← pals_budget_ms waiting_seq step now;
      br ← pals_budget_ms running_seq step now;
      mret (Qle_bool bw br)
  end.

Definition pals_select_preemption_victim (running : list Sequence) (step : nat) (now : Q) :
    result (option Sequence) :=
  match running with
  | [] => mret None
  | _ => s ← max_by (pals_key step now) running; mret (Some s)
  end.
End pals.

#[export] Instance PALS_ops : SchedulingPolicy PriorityAwareLatencyBudgetPolicy := {
  should_schedule_prefill := pals_should_schedule_prefill;
  select_waiting := pals_select_waiting;
  select_running := pals_select_running;
  select_preemption_victim := pals_select_preemption_victim;
  budget_ms p e seq step now := b ← pals_budget_ms p e seq step now; mret (Some b)
}.

(** ** [create_policy] *)
Definition AnyPolicy : Type := FCFSPolicy + PriorityAwareLatencyBudgetPolicy.
#[export] Instance AnyPolicy_ops : SchedulingPolicy AnyPolicy := {
  should_schedule_prefill p := match p with inl p => should_schedule_prefill p | inr p => should_schedule_prefill p end;
  select_waiting p := match p with inl p => select_waiting p | inr p => select_waiting p end;
  select_running p := match p with inl p => select_running p | inr p => select_running p end;
  select_preemption_victim p :=
    match p with inl p => select_preemption_victim p | inr p => select_preemption_victim p end;
  budget_ms p := match p with inl p => budget_ms p | inr p => budget_ms p end
}.

Definition create_policy (name : string) (best_effort boost aging : Q) : result AnyPolicy :=
  if String.eqb name "fcfs" then mret (inl FCFS)
  else if String.eqb name "pals" then mret (inr (mkPALS best_effort boost aging))
  else throw (ValueError ("unsupported scheduling policy: " +:+ name)).

(** ** The ordering keys *)
Lemma ext_lt_irrefl x : ext_lt x x = false.
Proof. destruct x as [x|]; [|done]. simpl. apply Qlt_bool_false. lra. Qed.
Lemma ext_lt_trans x y z : ext_lt x y = true → ext_lt y z = true → ext_lt x z = true.
Proof. destruct x, y, z; simpl; try done. rewrite !Qlt_bool_true. lra. Qed.
Lemma ext_lt_ntrans x y z : ext_lt x y = false → ext_lt y z = false → ext_lt x z = false.
Proof. destruct x, y, z; simpl; try done. rewrite !Qlt_bool_false. lra. Qed.
#[export] Instance ext_lt_weak : StrictWeak ext_lt.
Proof. split; [apply ext_lt_irrefl|apply ext_lt_trans|apply ext_lt_ntrans]. Qed.

Definition tie_lt (x y : nat * nat) : bool := (x.1 <? y.1)%nat || ((x.1 =? y.1)%nat && (x.2 <? y.2)%nat).
Lemma tie_lt_true x y : tie_lt x y = true ↔ (x.1 < y.1 ∨ (x.1 = y.1 ∧ x.2 < y.2))%nat.
Proof. unfold tie_lt. by rewrite orb_true_iff, andb_true_iff, !Nat.ltb_lt, Nat.eqb_eq. Qed.

Lemma key_lt_true b1 a1 s1 b2 a2 s2 :
  key_lt (b1, a1, s1) (b2, a2, s2) = true ↔
  ext_lt b1 b2 = true ∨ (ext_lt b2 b1 = false ∧ tie_lt (a1, s1) (a2, s2) = true).
Proof.
  unfold key_lt, tie_lt. cbn. by rewrite orb_true_iff, andb_true_iff, negb_true_iff.
Qed.
#[export] Instance key_lt_weak : StrictWeak key_lt.
Proof.
  split.
  - intros [[b a] s]. apply not_true_iff_false. rewrite key_lt_true, ext_lt_irrefl, tie_lt_true. cbn. lia.
  - intros [[b1 a1] s1] [[b2 a2] s2] [[b3 a3] s3]. rewrite !key_lt_true, !tie_lt_true. cbn.
    intros [H1|[H1 T1]] [H2|[H2 T2]].
    + left. by eapply ext_lt_trans.
    + left. destruct (ext_lt b1 b3) eqn:E; [done|]. by rewrite (ext_lt_ntrans _ _ _ E H2) in H1.
    + left. destruct (ext_lt b1 b3) eqn:E; [done|]. by rewrite (ext_lt_ntrans _ _ _ H1 E) in H2.
    + right. split; [by eapply ext_lt_ntrans|lia].
  - intros [[b1 a1] s1] [[b2 a2] s2] [[b3 a3] s3]. rewrite <-!not_true_iff_false, !key_lt_true, !tie_lt_true. cbn.
    intros H1 H2 [H3|[H3 T3]].
    + destruct (ext_lt b1 b2) eqn:E1; [by apply H1; left|]. destruct (ext_lt b2 b3) eqn:E2; [by apply H2; left|].
      by rewrite (ext_lt_ntrans _ _ _ E1 E2) in H3.
    + assert (E1 : ext_lt b2 b1 = false).
      { destruct (ext_lt b2 b1) eqn:E; [|done]. destruct (ext_lt b2 b3) eqn:E2; [by destruct H2; left|].
        by rewrite (ext_lt_ntrans _ _ _ E2 H3) in E. }
      assert (E2 : ext_lt b3 b2 = false).
      { destruct (ext_lt b3 b2) eqn:E; [|done]. destruct (ext_lt b1 b2) eqn:E3; [by destruct H1; left|].
        by rewrite (ext_lt_ntrans _ _ _ H3 E3) in E. }
      destruct (decide (a1 < a2 ∨ a1 = a2 ∧ s1 < s2)%nat); [apply H1; by right|].
      apply H2. right. split; [done|lia].
Qed.

(** ** Selection *)
Lemma with_keys_total {A K} (key : A → result K) l :
  (∀ x, x ∈ l → ∃ k, key x = inr k) →
  ∃ kl, with_keys key l = inr kl ∧ kl.*2 = l ∧ Forall (λ p, key p.2 = inr p.1) kl.
Proof.
  induction l as [|x l IH]; intros H; [by exists []|].
  destruct (H x) as [k Hk]; [by left|]. destruct IH as (kl & Hkl & Hs & HF); [intros; apply H; by right|].
  exists ((k, x) :: kl). unfold with_keys in *. cbn. rewrite Hk. cbn. rewrite Hkl. cbn.
  split_and!; [done|by f_equal|by constructor].
Qed.
Lemma with_keys_inr {A K} (key : A → result K) l kl :
  with_keys key l = inr kl → kl.*2 = l ∧ Forall (λ p, key p.2 = inr p.1) kl.
Proof.
  revert kl. induction l as [|x l IH]; intros kl H; unfold with_keys in *; simpl in H; result_inv.
  - by subst.
  - subst. edestruct IH as [E ?]; [done|]. cbn. split; [by f_equal|by constructor].
Qed.

(** [x] has a least key of [l]. *)
Definition least {A} (key : A → result budget_key) (l : list A) (x : A) : Prop :=
  x ∈ l ∧ ∃ k, key x = inr k ∧ ∀ y k', y ∈ l → key y = inr k' → key_lt k' k = false.
Definition greatest {A} (key : A → result budget_key) (l : list A) (x : A) : Prop :=
  x ∈ l ∧ ∃ k, key x = inr k ∧ ∀ y k', y ∈ l → key y = inr k' → key_lt k k' = false.

Lemma min_by_least {A} (key : A → result budget_key) l x : min_by key l = inr x → least key l x.
Proof.
  unfold min_by. intros H. result_inv. destruct (with_keys_inr _ _ _ H0) as [El HF].
  destruct (py_min key_lt fst _) as [[k y]|] eqn:E; [|done]. result_inv. subst y.
  pose proof (py_min_in _ _ _ _ E) as Hin. rewrite Forall_forall in HF. split.
  { rewrite <-El. apply list_elem_of_fmap. by exists (k, x). }
  exists k. split; [by apply (HF (k, x))|]. intros y k' Hy Hk'. rewrite <-El in Hy.
  apply list_elem_of_fmap in Hy as ([k2 y'] & -> & Hy). cbn in Hk'. pose proof (HF _ Hy) as Hk2. cbn in Hk2.
  assert (k2 = k') as -> by congruence. apply (py_min_least _ _ _ _ _ E Hy).
Qed.
Lemma max_by_greatest {A} (key : A → result budget_key) l x : max_by key l = inr x → greatest key l x.
Proof.
  unfold max_by. intros H. result_inv. destruct (with_keys_inr _ _ _ H0) as [El HF].
  destruct (py_max key_lt fst _) as [[k y]|] eqn:E; [|done]. result_inv. subst y.
  pose proof (py_max_in _ _ _ _ E) as Hin. rewrite Forall_forall in HF. split.
  { rewrite <-El. apply list_elem_of_fmap. by exists (k, x). }
  exists k. split; [by apply (HF (k, x))|]. intros y k' Hy Hk'. rewrite <-El in Hy.
  apply list_elem_of_fmap in Hy as ([k2 y'] & -> & Hy). cbn in Hk'. pose proof (HF _ Hy) as Hk2. cbn in Hk2.
  assert (k2 = k') as -> by congruence. apply (py_max_greatest _ _ _ _ _ E Hy).
Qed.
Lemma min_by_total {A} (key : A → result budget_key) l :
  l ≠ [] → (∀ x, x ∈ l → ∃ k, key x = inr k) → ∃ x, min_by key l = inr x ∧ x ∈ l.
Proof.
  intros Hne Hk. destruct (with_keys_total key l Hk) as (kl & Hkl & El & _).
  destruct (py_min_Some key_lt fst kl) as [[k x] Hx]; [by intros ->|].
  exists x. assert (Hm : min_by key l = inr x) by (unfold min_by; rewrite Hkl; cbn; by rewrite Hx).
  split; [done|]. by apply min_by_least in Hm as [? _].
Qed.
Lemma max_by_total {A} (key : A → result budget_key) l :
  l ≠ [] → (∀ x, x ∈ l → ∃ k, key x = inr k) → ∃ x, max_by key l = inr x ∧ x ∈ l.
Proof.
  intros Hne Hk. destruct (with_keys_total key l Hk) as (kl & Hkl & El & _).
  destruct (py_max_Some key_lt fst kl) as [[k x] Hx]; [by intros ->|].
  exists x. assert (Hm : max_by key l = inr x) by (unfold max_by; rewrite Hkl; cbn; by rewrite Hx).
  split; [done|]. by apply max_by_greatest in Hm as [? _].
Qed.

(** ** Both policies meet the interface *)
Lemma pals_budget_total p e seq step now : arrived seq → ∃ b, pals_budget_ms p e seq step now = inr b.
Proof.
  intros [t Ht]. unfold pals_budget_ms, raw_budget_ms, token_candidate. rewrite Ht.
  destruct (first_token_time seq), (ttft_slo_ms (qos seq)), (tpot_slo_ms (qos seq)), (e2e_slo_ms (qos seq));
    by eexists.
Qed.
Lemma pals_key_total p e step now l x :
  Forall arrived l → x ∈ l → ∃ k, pals_key p e step now x = inr k.
Proof.
  intros Hl Hx. rewrite Forall_forall in Hl. destruct (pals_budget_total p e x step now (Hl _ Hx)) as [b Hb].
  unfold pals_key. rewrite Hb. by eexists.
Qed.

#[export] Instance FCFS_lawful : LawfulPolicy FCFSPolicy.
Proof.
  split; cbn.
  - intros. by eexists.
  - intros p e [|x l] step now; [done|]. intros. exists x. split; [done|by left].
  - intros p e [|x l] step now; [done|]. intros. exists x. split; [done|by left].
  - intros p e l step now Hne _. unfold fcfs_select_preemption_victim.
    destruct (last l) as [x|] eqn:E; [|by apply last_None in E]. exists x. split; [done|]. by apply last_Some_elem_of.
  - intros p e w r step now _ _. eexists. split; [done|]. by destruct w.
  - by intros p e [|x w] step now Hw.
Qed.

#[export] Instance PALS_lawful : LawfulPolicy PriorityAwareLatencyBudgetPolicy.
Proof.
  split; cbn.
  - intros p e seq step now [b Hb]%(pals_budget_total p e seq step now). rewrite Hb. by eexists.
  - intros p e l step now Hne Hl. apply min_by_total; [done|]. intros x. by apply pals_key_total.
  - intros p e l step now Hne Hl. apply min_by_total; [done|]. intros x. by apply pals_key_total.
  - intros p e l step now Hne Hl. destruct (max_by_total (pals_key p e step now) l) as (x & Hx & ?); [done| |].
    { intros x. by apply pals_key_total. }
    exists x. split; [|done]. destruct l; [done|]. unfold pals_select_preemption_victim, mbind, result_bind. by rewrite Hx.
  - intros p e w r step now Hw Hr. destruct w as [|w0 w]; [by exists false|]. destruct r as [|r0 r]; [by exists true|].
    unfold pals_should_schedule_prefill.
    destruct (min_by_total (pals_key p e step now) (w0 :: w)) as (x & Hx & Hxin); [done|intros ?; by apply pals_key_total|].
    destruct (min_by_total (pals_key p e step now) (r0 :: r)) as (y & Hy & Hyin); [done|intros ?; by apply pals_key_total|].
    rewrite Forall_forall in Hw, Hr.
    destruct (pals_budget_total p e x step now (Hw _ Hxin)) as [bx Hbx].
    destruct (pals_budget_total p e y step now (Hr _ Hyin)) as [bq Hby].
    unfold pals_select_waiting, pals_select_running, mbind, result_bind. rewrite Hx, Hy, Hbx, Hby. by eexists.
  - by intros p e [|x w] step now Hw.
Qed.

#[export] Instance AnyPolicy_lawful : LawfulPolicy AnyPolicy.
Proof.
  split.
  - intros [p|p] *; [apply (budget_total (P := FCFSPolicy))|apply (budget_total (P := PriorityAwareLatencyBudgetPolicy))].
  - intros [p|p] *; [apply (select_waiting_in (P := FCFSPolicy))|apply (select_waiting_in (P := PriorityAwareLatencyBudgetPolicy))].
  - intros [p|p] *; [apply (select_running_in (P := FCFSPolicy))|apply (select_running_in (P := PriorityAwareLatencyBudgetPolicy))].
  - intros [p|p] *; [apply (victim_in (P := FCFSPolicy))|apply (victim_in (P := PriorityAwareLatencyBudgetPolicy))].
  - intros [p|p] *; [apply (prefill_total (P := FCFSPolicy))|apply (prefill_total (P := PriorityAwareLatencyBudgetPolicy))].
  - intros [p|p] *; [apply (prefill_idle (P := FCFSPolicy))|apply (prefill_idle (P := PriorityAwareLatencyBudgetPolicy))].
Qed.

(** ** What the latency budget does *)
(** The latency budget policy picks a request whose key of budget, arrival
    step and id is least, and preempts one whose key is greatest. *)
Theorem pals_selection p e l step now s :
  (pals_select_waiting p e l step now = inr s → least (pals_key p e step now) l s) ∧
  (pals_select_running p e l step now = inr s → least (pals_key p e step now) l s) ∧
  (pals_select_preemption_victim p e l step now = inr (Some s) → greatest (pals_key p e step now) l s).
Proof.
  split_and!; [apply min_by_least..|]. destruct l; [done|]. intros H. unfold pals_select_preemption_victim in H.
  result_inv. simplify_eq. by apply max_by_greatest.
Qed.

(** Prefill goes first exactly when no running request is more urgent than
    every waiting one. *)
Theorem pals_prefers_most_urgent p e waiting running step now b :
  waiting ≠ [] → running ≠ [] →
  pals_should_schedule_prefill p e waiting running step now = inr b →
  b = true ↔
  ∃ w bw, w ∈ waiting ∧ pals_budget_ms p e w step now = inr bw ∧
    ∀ r br, r ∈ running → pals_budget_ms p e r step now = inr br → bw <= br.
Proof.
  intros Hw Hr H. destruct waiting as [|w0 w]; [done|]. destruct running as [|r0 r]; [done|].
  unfold pals_should_schedule_prefill in H. apply result_bind_inr in H as (ws & Hws & H).
  apply result_bind_inr in H as (rs & Hrs & H). apply result_bind_inr in H as (bw & Hbw & H).
  apply result_bind_inr in H as (br & Hbr & H). injection H as <-.
  apply min_by_least in Hws as (Hwin & kw & Hkw & Hwl). apply min_by_least in Hrs as (Hrin & kr & Hkr & Hrl).
  assert (Hleast : ∀ (l : list Sequence) s bs k, (∀ y k', y ∈ l → pals_key p e step now y = inr k' → key_lt k' k = false) →
    pals_budget_ms p e s step now = inr bs → pals_key p e step now s = inr k →
    ∀ y b', y ∈ l → pals_budget_ms p e y step now = inr b' → bs <= b').
  { intros l s bs k Hl Hs Hk y b' Hy Hb'. unfold pals_key in Hk. rewrite Hs in Hk. injection Hk as <-.
    specialize (Hl y (Some b', arrival_step y, seq_id y) Hy). unfold pals_key in Hl. rewrite Hb' in Hl.
    specialize (Hl eq_refl). apply Qnot_lt_le. intros Hlt. apply not_true_iff_false in Hl. apply Hl.
    apply key_lt_true. left. cbn. by apply Qlt_bool_true. }
  rewrite Qle_bool_true. split.
  - intros Hle. exists ws, bw. split_and!; [done..|]. intros y b' Hy Hb'.
    pose proof (Hleast _ _ _ _ Hrl Hbr Hkr y b' Hy Hb'). lra.
  - intros (x & bx & Hx & Hbx & Hall). pose proof (Hleast _ _ _ _ Hwl Hbw Hkw x bx Hx Hbx).
    pose proof (Hall rs br Hrin Hbr). lra.
Qed.

(** Aging: a request that has waited [n] steps longer is never passed over for
    the newer one once [n * aging_ms_per_step] exceeds the newer one's lead, that
    is the difference of the budgets before aging, priority credit included. *)
Theorem pals_aging_overtakes p e l step now s t ts tt rs rt x :
  arrival_time s = Some ts → arrival_time t = Some tt →
  raw_budget_ms p e s (Qmax 0 ((now - ts) * 1000)) = inr rs →
  raw_budget_ms p e t (Qmax 0 ((now - tt) * 1000)) = inr rt →
  (arrival_step s <= arrival_step t <= step)%nat →
  (rs - inject_Z (priority (qos s)) * priority_boost_ms p)
    - (rt - inject_Z (priority (qos t)) * priority_boost_ms p)
    < inject_nat (arrival_step t - arrival_step s) * aging_ms_per_step p →
  s ∈ l → pals_select_waiting p e l step now = inr x → x ≠ t.
Proof.
  intros Hts Htt Hrs Hrt Hstep Hlead Hs Hx ->. apply min_by_least in Hx as (_ & k & Hk & Hleast).
  specialize (Hleast s). unfold pals_key, pals_budget_ms in Hleast, Hk. rewrite Hts, Hrs in Hleast.
  rewrite Htt, Hrt in Hk. injection Hk as <-. specialize (Hleast _ Hs eq_refl).
  apply not_true_iff_false in Hleast. apply Hleast. apply key_lt_true. left. cbn. apply Qlt_bool_true.
  replace (step - arrival_step s)%nat with ((step - arrival_step t) + (arrival_step t - arrival_step s))%nat by lia.
  unfold inject_nat in *. rewrite Nat2Z.inj_add, inject_Z_plus. lra.
Qed.
