(* ===== verification/KvPolicy.v ===== *)
(** * How many KV pages to give back, how many to hold back

    Models [nanovllm/engine/kv_reclaim.py] (what a preempted request keeps) and
    [nanovllm/engine/kv_admission.py] (the pages a new prefill must leave free). *)
From S2P Require Import Prelude Qos Sequence.
Set Default Goal Selector "!".

(** ** kv_reclaim.py *)
Record KVReclaimDecision := mkKVReclaimDecision {
  kd_policy : string;
  kd_budget_ms : option Q;
  kd_urgency : Q;
  kd_owned_blocks : nat;
  kd_cached_blocks : nat;
  kd_keep_blocks : nat;
  kd_reclaim_blocks : nat;
  kd_invalidated_tokens : nat
}.

(** [KVReclaimPolicy._decision] *)
Definition reclaim_decision (block_size : nat) (name : string) (seq : Sequence) (budget_ms : option Q)
    (urgency : Q) (cached_blocks : nat) (keep_blocks : Z) : KVReclaimDecision :=
  let owned_blocks := length (block_table seq) in
  let keep_blocks :=
    Z.to_nat (Z.max 0 (Z.min keep_blocks (Z.min (Z.of_nat cached_blocks) (Z.of_nat owned_blocks)))) in
  let retained_tokens := keep_blocks * block_size in
  {| kd_policy := name; kd_budget_ms := budget_ms; kd_urgency := urgency;
     kd_owned_blocks := owned_blocks; kd_cached_blocks := cached_blocks;
     kd_keep_blocks := keep_blocks; kd_reclaim_blocks := owned_blocks - keep_blocks;
     kd_invalidated_tokens := num_cached_tokens seq - retained_tokens |}.

Record SLOAwareKVReclaimPolicy := mkSLOAware {
  min_keep_ratio : Q;
  max_keep_ratio : Q;
  budget_scale_ms : Q
}.

(** [SLOAwareKVReclaimPolicy.__init__] *)
Definition slo_aware_init (p : SLOAwareKVReclaimPolicy) : result SLOAwareKVReclaimPolicy :=
  throw_if (negb (Qle_bool 0 (min_keep_ratio p) && Qle_bool (min_keep_ratio p) (max_keep_ratio p)
                  && Qle_bool (max_keep_ratio p) 1))
    (ValueError "KV keep ratios must satisfy 0 <= min <= max <= 1");;
  throw_if (Qle_bool (budget_scale_ms p) 0)
    (ValueError "KV reclaim budget scale must be positive");;
  mret p.

(** [None] is the base class, whose name is "recompute". *)
Definition KVReclaimPolicy : Type := option SLOAwareKVReclaimPolicy.

Definition urgency_of (p : SLOAwareKVReclaimPolicy) (budget_ms : option Q) : Q :=
  match budget_ms with
  | None => 0
  | Some b => if Qle_bool b 0 then 1 else 1 / (1 + b / budget_scale_ms p)
  end.

(** [KVReclaimPolicy.plan] and [SLOAwareKVReclaimPolicy.plan] *)
Definition plan (block_size : nat) (p : KVReclaimPolicy) (seq : Sequence) (budget_ms : option Q)
    (min_reclaim_blocks : nat) : KVReclaimDecision :=
  match p with
  | None =>
      let cached_blocks := num_cached_tokens seq / block_size in
      reclaim_decision block_size "recompute" seq budget_ms 0 cached_blocks 0
  | Some p =>
      let owned_blocks := length (block_table seq) in
      let cached_blocks := num_cached_tokens seq / block_size in
      let urgency := urgency_of p budget_ms in
      let keep_ratio := (min_keep_ratio p + (max_keep_ratio p - min_keep_ratio p) * urgency)%Q in
      let desired_keep := Qfloor (inject_nat cached_blocks * keep_ratio) in
      let max_keep := owned_blocks - min_reclaim_blocks in
      let keep_blocks := Z.min desired_keep (Z.of_nat max_keep) in
      reclaim_decision block_size "slo_aware" seq budget_ms urgency cached_blocks keep_blocks
  end.

(** [create_kv_reclaim_policy]; the [getattr] defaults are the caller's. *)
Definition create_kv_reclaim_policy (name : string) (min_ratio max_ratio scale : Q) :
    result KVReclaimPolicy :=
  if String.eqb name "recompute" then mret None
  else if String.eqb name "slo_aware" then
    p ← slo_aware_init (mkSLOAware min_ratio max_ratio scale); mret (Some p)
  else throw (ValueError ("unsupported KV reclaim policy: " +:+ name)).

(** ** kv_admission.py *)
Definition growth_pages (cached_tokens owned_pages future_tokens block_size : nat) : nat :=
  (cached_tokens + future_tokens + block_size - 1) / block_size - owned_pages.

(** [remaining] and the reserve of one running request *)
Definition running_reserve (seq : Sequence) (horizon block_size : nat) : nat :=
  let pending_prefill := 0 <? num_scheduled_tokens seq in
  let remaining := max_tokens seq - num_completion_tokens seq - Nat.b2n pending_prefill in
  growth_pages (num_physical_cached_tokens seq + num_scheduled_tokens seq)
    (length (block_table seq)) (Nat.min horizon remaining) block_size.

Definition priority_reserve_pages (candidate : Sequence) (running : list Sequence)
    (horizon block_size : nat) : nat :=
  let reserve := foldl (λ reserve seq,
    if (priority (qos seq) <? priority (qos candidate))%Z then reserve
    else reserve + running_reserve seq horizon block_size) 0 running in
  let remaining := max_tokens candidate - num_completion_tokens candidate - 1 in
  reserve + growth_pages (num_tokens candidate) (num_blocks block_size candidate)
              (Nat.min horizon remaining) block_size.

(** ** What a decision guarantees *)
Section decisions.
Context (block_size : nat).
Implicit Types (seq : Sequence) (p : KVReclaimPolicy).

(** What [BlockManager.reclaim_suffix] checks. *)
Definition decision_ok seq (min_reclaim_blocks : nat) (d : KVReclaimDecision) : Prop :=
  kd_keep_blocks d <= length (block_table seq) ∧
  kd_keep_blocks d * block_size <= num_cached_tokens seq ∧
  kd_reclaim_blocks d + kd_keep_blocks d = length (block_table seq) ∧
  kd_invalidated_tokens d + kd_keep_blocks d * block_size = num_cached_tokens seq ∧
  Nat.min min_reclaim_blocks (length (block_table seq)) <= kd_reclaim_blocks d.

Lemma reclaim_decision_keep name seq budget u cached keep :
  cached = num_cached_tokens seq / block_size →
  let d := reclaim_decision block_size name seq budget u cached keep in
  kd_keep_blocks d <= length (block_table seq) ∧ kd_keep_blocks d <= cached ∧
  (Z.of_nat (kd_keep_blocks d) <= Z.max 0 keep)%Z ∧
  kd_keep_blocks d * block_size <= num_cached_tokens seq.
Proof.
  intros ->. cbn. set (k := Z.to_nat _). assert (k <= num_cached_tokens seq / block_size) by lia.
  split_and!; [lia|done|lia|].
  destruct (decide (block_size = 0)) as [->|Hbs]; [lia|].
  pose proof (Nat.Div0.mul_div_le (num_cached_tokens seq) block_size). nia.
Qed.

(** Every reclaim decision of either policy is one that
    [BlockManager.reclaim_suffix] accepts: it keeps a prefix of the table that is fully
    cached, accounts for every page and token, and gives up the pages asked for. *)
Theorem plan_decision_ok p seq budget min_reclaim :
  1 <= min_reclaim → decision_ok seq min_reclaim (plan block_size p seq budget min_reclaim).
Proof.
  intros Hmin. unfold decision_ok.
  assert (Hd : ∀ name u keep, (Z.max 0 keep <= Z.of_nat (length (block_table seq) - min_reclaim))%Z →
    let d := reclaim_decision block_size name seq budget u (num_cached_tokens seq / block_size) keep in
    decision_ok seq min_reclaim d).
  { intros name u keep Hk d.
    destruct (reclaim_decision_keep name seq budget u _ keep eq_refl) as (H1 & H2 & H3 & H4).
    unfold decision_ok, d in *. cbn in *. split_and!; lia. }
  destruct p as [p|]; apply Hd; lia.
Qed.

Lemma urgency_range (p : SLOAwareKVReclaimPolicy) budget : (0 < budget_scale_ms p → 0 <= urgency_of p budget <= 1)%Q.
Proof.
  intros Hs. destruct budget as [b|]; cbn; [|lra]. destruct (Qle_bool b 0) eqn:E; breflect; [lra|].
  assert (0 < b / budget_scale_ms p)%Q.
  { apply Qlt_shift_div_l; [done|]. lra. }
  split.
  - apply Qle_shift_div_l; lra.
  - apply Qle_shift_div_r; lra.
Qed.
Lemma urgency_antitone (p : SLOAwareKVReclaimPolicy) b1 b2 :
  (0 < budget_scale_ms p → b1 <= b2 → urgency_of p (Some b2) <= urgency_of p (Some b1))%Q.
Proof.
  intros Hs Hb. pose proof (urgency_range p (Some b2) Hs) as H2. revert H2. cbn.
  destruct (Qle_bool b1 0) eqn:E1, (Qle_bool b2 0) eqn:E2; breflect; try lra. intros _.
  assert (P1 : (0 < b1 / budget_scale_ms p)%Q) by (apply Qlt_shift_div_l; lra).
  assert (P2 : (b1 / budget_scale_ms p <= b2 / budget_scale_ms p)%Q).
  { unfold Qdiv. apply Qmult_le_compat_r; [done|]. apply Qinv_le_0_compat. lra. }
  apply Qle_shift_div_r; [lra|]. 
  set (x := (b1 / budget_scale_ms p)%Q) in *. set (y := (b2 / budget_scale_ms p)%Q) in *.
  assert (E : (1 / (1 + x) * (1 + y) == (1 + y) / (1 + x))%Q) by (field; lra).
  rewrite E. apply Qle_shift_div_l; lra.
Qed.
End decisions.

(** A request with less slack keeps at least as many of its pages. *)
Theorem plan_urgent_keeps_more block_size p seq b1 b2 min_reclaim :
  (min_keep_ratio p <= max_keep_ratio p)%Q → (0 < budget_scale_ms p)%Q → (b1 <= b2)%Q →
  kd_keep_blocks (plan block_size (Some p) seq (Some b2) min_reclaim) <=
  kd_keep_blocks (plan block_size (Some p) seq (Some b1) min_reclaim).
Proof.
  intros Hr Hs Hb. pose proof (urgency_antitone p b1 b2 Hs Hb) as Hu.
  set (c := num_cached_tokens seq / block_size).
  assert (Hf : (Qfloor (inject_nat c * (min_keep_ratio p + (max_keep_ratio p - min_keep_ratio p) * urgency_of p (Some b2)))
    <= Qfloor (inject_nat c * (min_keep_ratio p + (max_keep_ratio p - min_keep_ratio p) * urgency_of p (Some b1))))%Z).
  { apply Qfloor_resp_le.
    rewrite !(Qmult_comm (inject_nat c)). apply Qmult_le_compat_r.
    - assert ((max_keep_ratio p - min_keep_ratio p) * urgency_of p (Some b2)
        <= (max_keep_ratio p - min_keep_ratio p) * urgency_of p (Some b1))%Q; [|lra].
      rewrite !(Qmult_comm (max_keep_ratio p - min_keep_ratio p)). apply Qmult_le_compat_r; lra.
    - unfold inject_nat. change 0%Q with (inject_Z 0). rewrite <-Zle_Qle. lia. }
  unfold plan, reclaim_decision. cbn [kd_keep_blocks]. fold c. lia.
Qed.

(** C28: [growth_pages] is the least number of further pages that hold the tokens. *)
Theorem growth_pages_least cached owned future block_size k :
  0 < block_size →
  growth_pages cached owned future block_size <= k ↔ cached + future <= (owned + k) * block_size.
Proof.
  intros Hbs. unfold growth_pages.
  pose proof (Nat.div_mod (cached + future + block_size - 1) block_size ltac:(lia)) as E.
  pose proof (Nat.mod_upper_bound (cached + future + block_size - 1) block_size ltac:(lia)) as Hm.
  set (q := (cached + future + block_size - 1) / block_size) in *. split; intros H.
  - assert (q <= owned + k) by lia. nia.
  - assert (q < owned + k + 1); [|lia]. apply (Nat.mul_lt_mono_pos_l block_size); nia.
Qed.

Lemma foldl_reserve (f : Sequence → nat) (Q : Sequence → Prop) `{!∀ x, Decision (Q x)} l acc :
  foldl (λ r s, if bool_decide (Q s) then r else r + f s) acc l =
  acc + nsum (f <$> filter (λ s, ¬ Q s) l).
Proof.
  revert acc. induction l as [|s l IH]; intros acc; simpl; [lia|]. rewrite IH. case_bool_decide.
  - rewrite filter_cons_False by tauto. lia.
  - rewrite filter_cons_True by done. unfold nsum. csimpl. lia.
Qed.

(** The reserve is the candidate's own growth plus the growth of the running
    requests whose priority is not lower, and of no other. *)
Theorem priority_reserve_exact candidate running horizon block_size :
  priority_reserve_pages candidate running horizon block_size =
  nsum ((λ s, running_reserve s horizon block_size) <$>
          filter (λ s, ¬ (priority (qos s) < priority (qos candidate))%Z) running)
  + growth_pages (num_tokens candidate) (num_blocks block_size candidate)
      (Nat.min horizon (max_tokens candidate - num_completion_tokens candidate - 1)) block_size.
Proof.
  unfold priority_reserve_pages. f_equal.
  etrans; [|apply (foldl_reserve (λ s, running_reserve s horizon block_size)
                     (λ s, (priority (qos s) < priority (qos candidate))%Z) running 0)].
  generalize 0. induction running as [|s l IH]; intros acc; simpl; [done|]. rewrite IH. f_equal.
  case_bool_decide as Hp; [by apply Z.ltb_lt in Hp as ->|]. rewrite (proj2 (Z.ltb_ge _ _)); [done|lia].
Qed.
