(* ===== verification/RadixCache.v ===== *)
(** * The path-compressed prefix index

    Models [nanovllm/engine/radix_cache.py]. The node objects live in a store
    [heap] keyed by an object identity, so that the parent pointers, the child
    dictionaries and the [(node, index)] references of [block_locations] alias
    as in the code; a node that becomes unreachable stays in the store as
    garbage. The dictionaries are [gmap]s: where the code iterates over a
    dictionary, the order does not matter (a single child, or a minimum over a
    total order). *)
From S2P Require Import Prelude.
Set Default Goal Selector "!".

Abbreviation BlockKey := (list Z).
Abbreviation node_ref := nat.

Record RadixNode := mkRadixNode {
  edge_keys : list BlockKey;
  block_ids : list nat;
  parent : option node_ref;
  children : gmap BlockKey node_ref;
  last_access : nat
}.
#[export] Instance RadixNode_eta : RecordEta RadixNode := λ r, {|
  edge_keys := edge_keys r; block_ids := block_ids r; parent := parent r;
  children := children r; last_access := last_access r |}.
#[export] Instance set_edge_keys : Setter edge_keys := ltac:(derive_setter).
#[export] Instance set_block_ids : Setter block_ids := ltac:(derive_setter).
#[export] Instance set_parent : Setter parent := ltac:(derive_setter).
#[export] Instance set_children : Setter children := ltac:(derive_setter).
#[export] Instance set_last_access : Setter last_access := ltac:(derive_setter).

Record RadixPrefixCache := mkRadixPrefixCache {
  heap : gmap node_ref RadixNode;
  next_ref : node_ref;
  block_locations : gmap nat (node_ref * nat);
  rclock : nat;
  lookups : nat;
  queried_blocks : nat;
  hit_blocks : nat
}.
#[export] Instance RadixPrefixCache_eta : RecordEta RadixPrefixCache := λ r, {|
  heap := heap r; next_ref := next_ref r; block_locations := block_locations r;
  rclock := rclock r; lookups := lookups r; queried_blocks := queried_blocks r;
  hit_blocks := hit_blocks r |}.
#[export] Instance set_heap : Setter heap := ltac:(derive_setter).
#[export] Instance set_next_ref : Setter next_ref := ltac:(derive_setter).
#[export] Instance set_block_locations : Setter block_locations := ltac:(derive_setter).
#[export] Instance set_rclock : Setter rclock := ltac:(derive_setter).
#[export] Instance set_lookups : Setter lookups := ltac:(derive_setter).
#[export] Instance set_queried_blocks : Setter queried_blocks := ltac:(derive_setter).
#[export] Instance set_hit_blocks : Setter hit_blocks := ltac:(derive_setter).

Definition root : node_ref := 0.

(** [RadixPrefixCache.__init__] *)
Definition radix_init : RadixPrefixCache := {|
  heap := {[ root := mkRadixNode [] [] None ∅ 0 ]};
  next_ref := 1;
  block_locations := ∅;
  rclock := 0; lookups := 0; queried_blocks := 0; hit_blocks := 0 |}.

Abbreviation MR := (M RadixPrefixCache).

(** ** Access to node objects *)
Definition deref (n : node_ref) : MR RadixNode :=
  c ← getS; of_option Dangling (heap c !! n).
Definition update_node (n : node_ref) (f : RadixNode → RadixNode) : MR () :=
  modifyS (λ c, c <| heap := alter f n (heap c) |>).
(** [RadixNode(...)] *)
Definition new_node (nd : RadixNode) : MR node_ref :=
  c ← getS;
  putS (c <| heap := <[next_ref c := nd]> (heap c) |> <| next_ref := S (next_ref c) |>);;
  mret (next_ref c).

(** ** Operations *)
Fixpoint common_prefix_length (l r : list BlockKey) : nat :=
  match l, r with
  | x :: l, y :: r => if decide (x = y) then S (common_prefix_length l r) else 0
  | _, _ => 0
  end.

Definition touch (n : node_ref) : MR () :=
  modifyS (λ c, c <| rclock := S (rclock c) |>);;
  c ← getS;
  update_node n (λ nd, nd <| last_access := rclock c |>).

(** [(block_id, (node, start)), (block_id', (node, start + 1)), ...] *)
Definition locate_from (n : node_ref) (start : nat) (ids : list nat) : list (nat * (node_ref * nat)) :=
  imap (λ i b, (b, (n, start + i))) ids.
Definition set_locations (l : list (nat * (node_ref * nat))) (locs : gmap nat (node_ref * nat)) :=
  foldl (λ m e, <[e.1 := e.2]> m) locs l.

Definition index_node (n : node_ref) : MR () :=
  nd ← deref n;
  modifyS (λ c, c <| block_locations :=
    set_locations (locate_from n 0 (block_ids nd)) (block_locations c) |>).

(** The loop of [match]; [fuel] bounds the number of nodes on the path. *)
Fixpoint match_loop (fuel : nat) (keys : list BlockKey) (node : node_ref) (position : nat)
    (matched : list nat) : MR (list nat) :=
  match fuel with
  | 0 => raise OutOfFuel
  | S fuel =>
      match keys !! position with
      | None => mret matched
      | Some key =>
          nd ← deref node;
          match children nd !! key with
          | None => mret matched
          | Some child =>
              cd ← deref child;
              let common := common_prefix_length (edge_keys cd) (drop position keys) in
              if common =? 0 then mret matched
              else
                let matched := matched ++ take common (block_ids cd) in
                touch child;;
                let position := position + common in
                if common <? length (edge_keys cd) then mret matched
                else match_loop fuel keys child position matched
          end
      end
  end.

(** [RadixPrefixCache.match] *)
Definition match_prefix (keys : list BlockKey) : MR (list nat) :=
  modifyS (λ c, c <| lookups := S (lookups c) |>);;
  modifyS (λ c, c <| queried_blocks := queried_blocks c + length keys |>);;
  matched ← match_loop (S (length keys)) keys root 0 [];
  modifyS (λ c, c <| hit_blocks := hit_blocks c + length matched |>);;
  mret matched.

(** The loop of [insert]. *)
Fixpoint insert_loop (fuel : nat) (keys : list BlockKey) (ids : list nat) (node : node_ref)
    (position : nat) : MR () :=
  match fuel with
  | 0 => raise OutOfFuel
  | S fuel =>
      match keys !! position with
      | None => mret tt
      | Some key =>
          nd ← deref node;
          match children nd !! key with
          | None =>
              child ← new_node (mkRadixNode (drop position keys) (drop position ids) (Some node) ∅ 0);
              update_node node (λ nd, nd <| children := <[key := child]> (children nd) |>);;
              index_node child;;
              touch child
          | Some child =>
              cd ← deref child;
              let common := common_prefix_length (edge_keys cd) (drop position keys) in
              if common =? length (edge_keys cd) then
                touch child;;
                insert_loop fuel keys ids child (position + common)
              else if position + common =? length keys then touch child
              else
                split ← new_node (mkRadixNode (take common (edge_keys cd)) (take common (block_ids cd))
                                    (Some node) ∅ 0);
                split_key ← of_option (IndexError "tuple index out of range")
                              (head (take common (edge_keys cd)));
                update_node node (λ nd, nd <| children := <[split_key := split]> (children nd) |>);;
                update_node child (λ cd, cd <| edge_keys := drop common (edge_keys cd) |>);;
                update_node child (λ cd, cd <| block_ids := drop common (block_ids cd) |>);;
                update_node child (λ cd, cd <| parent := Some split |>);;
                cd ← deref child;
                child_key ← of_option (IndexError "tuple index out of range") (head (edge_keys cd));
                update_node split (λ sd, sd <| children := <[child_key := child]> (children sd) |>);;
                index_node split;;
                index_node child;;
                touch split;;
                let position := position + common in
                match keys !! position with
                | None => mret tt
                | Some key =>
                    new_child ← new_node (mkRadixNode (drop position keys) (drop position ids)
                                            (Some split) ∅ 0);
                    update_node split (λ sd, sd <| children := <[key := new_child]> (children sd) |>);;
                    index_node new_child;;
                    touch new_child
                end
          end
      end
  end.

(** [RadixPrefixCache.insert] *)
Definition insert_prefix (keys : list BlockKey) (ids : list nat) : MR () :=
  raise_if (negb (length keys =? length ids))
    (ValueError "keys and block_ids must have the same length");;
  match keys with
  | [] => mret tt
  | _ =>
      raise_if (negb (size (list_to_set ids : gset nat) =? length ids))
        (ValueError "a radix path cannot contain duplicate block ids");;
      insert_loop (S (length keys)) keys ids root 0
  end.

(** [_drop_subtree]: forget the locations of every block below a node. *)
Fixpoint drop_subtree (fuel : nat) (n : node_ref) : MR () :=
  match fuel with
  | 0 => raise OutOfFuel
  | S fuel =>
      nd ← deref n;
      forM ((map_to_list (children nd)).*2) (drop_subtree fuel);;
      forM (block_ids nd) (λ b,
        modifyS (λ c, c <| block_locations := delete b (block_locations c) |>))
  end.

(** [_compress]: merge single children upwards, from [n] to the root. *)
Fixpoint compress (fuel : nat) (n : node_ref) : MR () :=
  match fuel with
  | 0 => raise OutOfFuel
  | S fuel =>
      if decide (n = root) then mret tt
      else
        nd ← deref n;
        match map_to_list (children nd) with
        | [(_, child)] =>
            cd ← deref child;
            let offset := length (block_ids nd) in
            update_node n (λ nd, nd <| edge_keys := edge_keys nd ++ edge_keys cd |>);;
            update_node n (λ nd, nd <| block_ids := block_ids nd ++ block_ids cd |>);;
            update_node n (λ nd, nd <| children := children cd |>);;
            forM ((map_to_list (children cd)).*2) (λ grandchild,
              update_node grandchild (λ gd, gd <| parent := Some n |>));;
            modifyS (λ c, c <| block_locations :=
              set_locations (locate_from n offset (block_ids cd)) (block_locations c) |>);;
            touch n;;
            compress fuel n
        | _ =>
            match parent nd with
            | Some p => compress fuel p
            | None => raise Dangling
            end
        end
  end.

(** Fuel for a walk over the store: no walk visits more nodes than it holds. *)
Definition walk_fuel (c : RadixPrefixCache) : nat := S (size (heap c) + size (heap c)).

(** [RadixPrefixCache.remove_block] *)
Definition remove_block (block_id : nat) : MR bool :=
  c ← getS;
  match block_locations c !! block_id with
  | None => mret false
  | Some (node, index) =>
      nd ← deref node;
      if index =? 0 then
        p ← of_option Dangling (parent nd);
        key ← of_option (IndexError "tuple index out of range") (head (edge_keys nd));
        pd ← deref p;
        raise_if (bool_decide (children pd !! key = None)) (KeyError "edge key");;
        update_node p (λ pd, pd <| children := delete key (children pd) |>);;
        drop_subtree (walk_fuel c) node;;
        compress (walk_fuel c) p;;
        mret true
      else
        forM ((map_to_list (children nd)).*2) (drop_subtree (walk_fuel c));;
        forM (drop index (block_ids nd)) (λ removed_id,
          modifyS (λ c, c <| block_locations := delete removed_id (block_locations c) |>));;
        update_node node (λ nd, nd <| edge_keys := take index (edge_keys nd) |>);;
        update_node node (λ nd, nd <| block_ids := take index (block_ids nd) |>);;
        update_node node (λ nd, nd <| children := ∅ |>);;
        p ← of_option Dangling (parent nd);
        compress (walk_fuel c) p;;
        mret true
  end.

(** The visit of [lru_leaf_block]: [(last_access, block_id)] of each leaf's
    deepest eligible block. *)
Fixpoint lru_visit (fuel : nat) (eligible : gset nat) (n : node_ref) : MR (list (nat * nat)) :=
  match fuel with
  | 0 => raise OutOfFuel
  | S fuel =>
      nd ← deref n;
      if bool_decide (children nd = ∅) then
        mret (match filter (.∈ eligible) (reverse (block_ids nd)) with
              | b :: _ => [(last_access nd, b)]
              | [] => []
              end)
      else
        rs ← mapM_M (lru_visit fuel eligible) ((map_to_list (children nd)).*2);
        mret (concat rs)
  end.

Definition pair_lt (x y : nat * nat) : bool :=
  (x.1 <? y.1) || ((x.1 =? y.1) && (x.2 <? y.2)).

(** [lru_leaf_block] *)
Definition lru_leaf_block (eligible : gset nat) : MR (option nat) :=
  c ← getS;
  rd ← deref root;
  rs ← mapM_M (lru_visit (walk_fuel c) eligible) ((map_to_list (children rd)).*2);
  mret (snd <$> py_min pair_lt id (concat rs)).

Fixpoint count_nodes (fuel : nat) (n : node_ref) : MR nat :=
  match fuel with
  | 0 => raise OutOfFuel
  | S fuel =>
      nd ← deref n;
      rs ← mapM_M (λ child, k ← count_nodes fuel child; mret (1 + k)) ((map_to_list (children nd)).*2);
      mret (nsum rs)
  end.

Record RadixStats := mkRadixStats {
  radix_nodes : nat;
  radix_cached_blocks : nat;
  radix_lookups : nat;
  radix_block_hit_rate : Q
}.
(** [RadixPrefixCache.stats] *)
Definition radix_stats : MR RadixStats :=
  c ← getS;
  n ← count_nodes (walk_fuel c) root;
  mret {|
    radix_nodes := n;
    radix_cached_blocks := size (block_locations c);
    radix_lookups := lookups c;
    radix_block_hit_rate :=
      if queried_blocks c =? 0 then 0 else inject_nat (hit_blocks c) / inject_nat (queried_blocks c) |}.

(** [RadixPrefixCache.validate]: the visit threads the locations it collects. *)
Fixpoint validate_visit (fuel : nat) (n : node_ref) (locations : gmap nat (node_ref * nat)) :
    MR (gmap nat (node_ref * nat)) :=
  match fuel with
  | 0 => raise OutOfFuel
  | S fuel =>
      nd ← deref n;
      locations ← (if decide (n = root) then mret locations
        else
          assertM (negb (bool_decide (edge_keys nd = []))) "node.edge_keys";;
          assertM (length (edge_keys nd) =? length (block_ids nd)) "edge length";;
          p ← of_option Dangling (parent nd);
          pd ← deref p;
          key ← of_option (IndexError "tuple index out of range") (head (edge_keys nd));
          assertM (bool_decide (children pd !! key = Some n)) "parent.children";;
          assertM (negb (size (children nd) =? 1)) "len(node.children) != 1";;
          foldl (λ acc e, m ← acc; assertM (bool_decide (m !! (e.1) = None)) "block_id not in locations";;
                   mret (<[e.1 := e.2]> m))
            (mret locations) (locate_from n 0 (block_ids nd)));
      foldl (λ acc e, m ← acc;
          cd ← deref (e.2);
          assertM (bool_decide (head (edge_keys cd) = Some e.1)) "first_key == child.edge_keys[0]";;
          assertM (bool_decide (parent cd = Some n)) "child.parent is node";;
          validate_visit fuel (e.2) m)
        (mret locations) (map_to_list (children nd))
  end.

Definition validate : MR () :=
  c ← getS;
  locations ← validate_visit (walk_fuel c) root ∅;
  assertM (bool_decide (locations = block_locations c)) "locations == self.block_locations".
