(* ===== verification/RadixSpec.v ===== *)
(** * Correctness of the prefix index

    The invariant of the node store of [RadixCache.v], the abstract view of the
    index as a finite map from token prefixes to block ids, and the refinement
    theorems: [match] is the longest chain of mapped prefixes, [insert] adds the
    missing prefixes of a path, [remove_block] drops every prefix that extends the
    block's. *)
From S2P Require Import Prelude RadixCache.
Set Default Goal Selector "!".

(** ** Invariant

    [P] gives the live nodes and the path of keys from the root to the end of
    each node's edge. It covers every assertion of [validate] except the one on
    the number of children, which [insert] does not maintain. *)
Abbreviation paths := (gmap node_ref (list BlockKey)).

Record radix_inv (P : paths) (c : RadixPrefixCache) : Prop := {
  ri_root : P !! root = Some [];
  ri_rootnd : ∃ nd, heap c !! root = Some nd ∧ edge_keys nd = [] ∧ block_ids nd = [] ∧ parent nd = None;
  ri_node n p : P !! n = Some p → n ≠ root →
    ∃ nd q qp qd k, heap c !! n = Some nd ∧ P !! q = Some qp ∧ heap c !! q = Some qd ∧
      parent nd = Some q ∧ p = qp ++ edge_keys nd ∧ head (edge_keys nd) = Some k ∧
      children qd !! k = Some n ∧ length (edge_keys nd) = length (block_ids nd);
  ri_child n p nd k m : P !! n = Some p → heap c !! n = Some nd → children nd !! k = Some m →
    m ≠ root ∧ is_Some (P !! m) ∧
    ∃ md, heap c !! m = Some md ∧ parent md = Some n ∧ head (edge_keys md) = Some k;
  ri_loc b n i : block_locations c !! b = Some (n, i) ↔
    ∃ p nd, P !! n = Some p ∧ heap c !! n = Some nd ∧ block_ids nd !! i = Some b;
  ri_next n : is_Some (heap c !! n) → n < next_ref c
}.

(** [ks] ends on the edge of the live node [n]. *)
Definition covers (P : paths) (c : RadixPrefixCache) (n : node_ref) (qp ks : list BlockKey) : Prop :=
  n ≠ root ∧ ∃ nd, heap c !! n = Some nd ∧ P !! n = Some (qp ++ edge_keys nd) ∧
    length qp < length ks ∧ ks `prefix_of` qp ++ edge_keys nd.

(** The prefix [ks] is held by block [b]. *)
Definition mapped (P : paths) (c : RadixPrefixCache) (ks : list BlockKey) (b : nat) : Prop :=
  ∃ n qp nd, covers P c n qp ks ∧ heap c !! n = Some nd ∧
    block_ids nd !! (length ks - length qp - 1) = Some b.

(** The index [c] represents the finite map [m]. *)
Definition represents (m : gmap (list BlockKey) nat) (c : RadixPrefixCache) : Prop :=
  ∃ P, radix_inv P c ∧ ∀ ks b, m !! ks = Some b ↔ mapped P c ks b.

(** ** Lists of keys *)
Lemma prefix_shorter {A} (l1 l2 l : list A) :
  l1 `prefix_of` l → l2 `prefix_of` l → length l1 <= length l2 → l1 `prefix_of` l2.
Proof.
  intros H1 H2 Hl. destruct (prefix_weak_total l1 l2 l H1 H2) as [|H]; [done|].
  pose proof (prefix_length _ _ H). rewrite (prefix_length_eq l2 l1 H); [done|lia].
Qed.
Lemma prefix_app_lookup {A} (q e ks : list A) x :
  q `prefix_of` ks → length q < length ks → ks `prefix_of` q ++ e →
  head e = Some x ↔ ks !! length q = Some x.
Proof.
  intros [r ->] Hl Hp. rewrite length_app in Hl. rewrite lookup_app_r, Nat.sub_diag by lia.
  apply prefix_app_inv in Hp. destruct r as [|y r]; simpl in *; [lia|].
  destruct Hp as [e' ->]. done.
Qed.
Lemma prefix_take {A} (l : list A) i : take i l `prefix_of` l.
Proof. exists (drop i l). by rewrite take_drop. Qed.
Lemma prefix_of_take {A} (l ks : list A) : ks `prefix_of` l → ks = take (length ks) l.
Proof. intros [r ->]. by rewrite take_app_length. Qed.

Section inv.
Context {P : paths} {c : RadixPrefixCache} (HI : radix_inv P c).

Lemma live_heap n p : P !! n = Some p → is_Some (heap c !! n).
Proof.
  intros Hn. destruct (decide (n = root)) as [->|Hr].
  - destruct (ri_rootnd _ _ HI) as (nd & ? & _). eauto.
  - destruct (ri_node _ _ HI n p Hn Hr) as (nd & ? & ? & ? & ? & ? & _); eauto.
Qed.
Lemma path_nil n : P !! n = Some [] → n = root.
Proof.
  intros Hn. destruct (decide (n = root)) as [|Hr]; [done|].
  destruct (ri_node _ _ HI n [] Hn Hr) as (nd & q & qp & qd & k & _ & _ & _ & _ & Hp & Hk & _).
  symmetry in Hp. apply app_nil in Hp as [_ Hp]. by rewrite Hp in Hk.
Qed.
Lemma path_root n p : P !! n = Some p → p ≠ [] → n ≠ root.
Proof. intros Hn Hp ->. rewrite (ri_root _ _ HI) in Hn. congruence. Qed.

(** A live node covers its own path. *)
Lemma covers_self n p :
  P !! n = Some p → n ≠ root →
  ∃ nd q qp qd k, heap c !! n = Some nd ∧ P !! q = Some qp ∧ heap c !! q = Some qd ∧
    parent nd = Some q ∧ p = qp ++ edge_keys nd ∧ head (edge_keys nd) = Some k ∧
    children qd !! k = Some n ∧ length (edge_keys nd) = length (block_ids nd) ∧
    covers P c n qp p.
Proof.
  intros Hn Hr. destruct (ri_node _ _ HI n p Hn Hr) as (nd & q & qp & qd & k & ? & ? & ? & ? & -> & Hk & ? & ?).
  exists nd, q, qp, qd, k. split_and!; try done. split; [done|]. exists nd. split_and!; try done.
  rewrite length_app. destruct (edge_keys nd); simpl in *; [done|lia].
Qed.

Lemma covers_inv n qp ks :
  covers P c n qp ks →
  ∃ nd q qd k, heap c !! n = Some nd ∧ P !! n = Some (qp ++ edge_keys nd) ∧ n ≠ root ∧
    P !! q = Some qp ∧ heap c !! q = Some qd ∧ parent nd = Some q ∧
    head (edge_keys nd) = Some k ∧ children qd !! k = Some n ∧
    length (edge_keys nd) = length (block_ids nd) ∧
    ks !! length qp = Some k ∧ qp `prefix_of` ks ∧ length qp < length ks ∧
    ks `prefix_of` qp ++ edge_keys nd.
Proof.
  intros (Hr & nd & Hnd & Hn & Hl & Hp).
  destruct (ri_node _ _ HI n _ Hn Hr) as (nd' & q & qp' & qd & k & ? & ? & ? & ? & E & Hk & ? & ?).
  simplify_eq. apply app_inv_tail in E as <-.
  assert (qp `prefix_of` ks).
  { apply (prefix_shorter _ _ (qp ++ edge_keys nd)); [by eexists|done|lia]. }
  exists nd, q, qd, k. split_and!; try done. by eapply prefix_app_lookup.
Qed.

Lemma covers_le_unique ks n1 n2 q1 q2 :
  (∀ ks' n1 n2 q1 q2, length ks' < length ks → covers P c n1 q1 ks' → covers P c n2 q2 ks' → n1 = n2) →
  covers P c n1 q1 ks → covers P c n2 q2 ks → length q1 <= length q2 → n1 = n2.
Proof.
  intros IH H1 H2 Hle.
  destruct (covers_inv _ _ _ H1) as (nd1 & r1 & rd1 & k1 & Hnd1 & Hn1 & Hr1 & Hq1 & Hrd1 & _ & Hk1 & Hc1 & _ & Hx1 & Hp1 & Hl1 & Hs1).
  destruct (covers_inv _ _ _ H2) as (nd2 & r2 & rd2 & k2 & Hnd2 & Hn2 & Hr2 & Hq2 & Hrd2 & _ & Hk2 & Hc2 & _ & Hx2 & Hp2 & Hl2 & Hs2).
  destruct (decide (length q1 = length q2)) as [El|Nl].
  - assert (q1 = q2) as ->.
    { apply (prefix_length_eq); [|lia]. by apply (prefix_shorter _ _ ks). }
    assert (r1 = r2) as ->.
    { destruct (decide (q2 = [])) as [->|Hne].
      - by rewrite (path_nil _ Hq1), (path_nil _ Hq2).
      - destruct (covers_self r1 q2 Hq1) as (? & ? & ? & ? & ? & _ & _ & _ & _ & _ & _ & _ & _ & C1); [by eapply path_root|].
        destruct (covers_self r2 q2 Hq2) as (? & ? & ? & ? & ? & _ & _ & _ & _ & _ & _ & _ & _ & C2); [by eapply path_root|].
        by eapply (IH q2). }
    congruence.
  - assert (Hne : q2 ≠ []) by (intros ->; simpl in *; lia).
    destruct (covers_self r2 q2 Hq2) as (? & ? & ? & ? & ? & _ & _ & _ & _ & _ & _ & _ & _ & C2); [by eapply path_root|].
    assert (n1 = r2) as ->.
    { eapply (IH q2); [lia| |done]. split; [done|]. exists nd1. split_and!; try done; [lia|].
      by etrans. }
    rewrite Hq2 in Hn1. injection Hn1 as ->. apply prefix_length in Hs1. lia.
Qed.

(** Each prefix ends on the edge of one node only. *)
Lemma covers_unique ks n1 n2 q1 q2 :
  covers P c n1 q1 ks → covers P c n2 q2 ks → n1 = n2 ∧ q1 = q2.
Proof.
  intros H1 H2. assert (n1 = n2) as ->.
  { revert n1 n2 q1 q2 H1 H2. remember (length ks) as len eqn:El. revert ks El.
    induction (lt_wf len) as [len _ IH]. intros ks -> n1 n2 q1 q2 H1 H2.
    assert (IH' : ∀ ks' n1 n2 q1 q2, length ks' < length ks →
      covers P c n1 q1 ks' → covers P c n2 q2 ks' → n1 = n2).
    { intros ks' ???? Hl. eapply (IH (length ks')); [done|done]. }
    destruct (decide (length q1 <= length q2)).
    - by eapply covers_le_unique.
    - symmetry. eapply covers_le_unique; [done..|lia]. }
  split; [done|].
  destruct H1 as (_ & nd1 & ? & ? & _), H2 as (_ & nd2 & ? & ? & _). simplify_eq.
  by eapply app_inv_tail.
Qed.

Lemma mapped_fun ks b1 b2 : mapped P c ks b1 → mapped P c ks b2 → b1 = b2.
Proof.
  intros (n1 & q1 & nd1 & H1 & ? & ?) (n2 & q2 & nd2 & H2 & ? & ?).
  destruct (covers_unique _ _ _ _ _ H1 H2) as [-> ->]. congruence.
Qed.
Lemma mapped_inj ks1 ks2 b : mapped P c ks1 b → mapped P c ks2 b → ks1 = ks2.
Proof.
  intros (n1 & q1 & nd1 & H1 & Hh1 & Hb1) (n2 & q2 & nd2 & H2 & Hh2 & Hb2).
  pose proof H1 as (_ & ? & ? & Hp1 & Hl1 & Hs1). pose proof H2 as (_ & ? & ? & Hp2 & Hl2 & Hs2).
  simplify_eq.
  assert (L1 : block_locations c !! b = Some (n1, length ks1 - length q1 - 1)) by (apply (ri_loc _ _ HI); eauto).
  assert (L2 : block_locations c !! b = Some (n2, length ks2 - length q2 - 1)) by (apply (ri_loc _ _ HI); eauto).
  simplify_eq. assert (q1 = q2) as -> by (by eapply app_inv_tail).
  rewrite (prefix_of_take _ _ Hs1), (prefix_of_take _ _ Hs2). f_equal. lia.
Qed.
(** Mapped prefixes and covered prefixes are the same. *)
Lemma covers_mapped n qp ks : covers P c n qp ks → ∃ b, mapped P c ks b.
Proof.
  intros H. destruct (covers_inv _ _ _ H) as (nd & q & qd & k & Hnd & _ & _ & _ & _ & _ & _ & _ & Hlen & _ & _ & Hl & Hs).
  destruct (lookup_lt_is_Some_2 (block_ids nd) (length ks - length qp - 1)) as [b Hb].
  { apply prefix_length in Hs. rewrite length_app in Hs. lia. }
  exists b, n, qp, nd. done.
Qed.
(** The key that leaves a live node leads to the node that covers the extension. *)
Lemma child_covers n p nd k :
  P !! n = Some p → heap c !! n = Some nd →
  (∃ m, children nd !! k = Some m ∧ covers P c m p (p ++ [k])) ∨
  (children nd !! k = None ∧ ∀ m qp, ¬ covers P c m qp (p ++ [k])).
Proof.
  intros Hn Hnd. destruct (children nd !! k) as [m|] eqn:Ek.
  - left. exists m. split; [done|].
    destruct (ri_child _ _ HI _ _ _ _ _ Hn Hnd Ek) as (Hr & [mp Hmp] & md & Hmd & Hpar & Hhd).
    destruct (ri_node _ _ HI _ _ Hmp Hr) as (md' & q & qp & qd & k' & ? & ? & ? & ? & -> & ? & ? & ?).
    simplify_eq. split; [done|]. exists md. split_and!; try done.
    + rewrite length_app. simpl. lia.
    + destruct (edge_keys md) as [|k'' e]; simplify_eq/=. exists e. by rewrite <-app_assoc.
  - right. split; [done|]. intros m qp Hc.
    destruct (covers_inv _ _ _ Hc) as (md & q & qd & k' & Hmd & Hm & Hr & Hq & Hqd & Hpar & Hhd & Hch & _ & Hx & Hpre & Hl & Hs).
    rewrite length_app in Hl. simpl in Hl.
    assert (Hqp : qp `prefix_of` p).
    { apply (prefix_shorter _ _ (p ++ [k])); [done|by eexists|lia]. }
    destruct (decide (length qp = length p)) as [El|Nl].
    + assert (qp = p) as -> by (apply prefix_length_eq; [done|lia]).
      assert (q = n) as ->.
      { destruct (decide (p = [])) as [->|Hne].
        - by rewrite (path_nil _ Hq), (path_nil _ Hn).
        - destruct (covers_self q p Hq) as (? & ? & q1 & ? & ? & _ & _ & _ & _ & _ & _ & _ & _ & C1); [by eapply path_root|].
          destruct (covers_self n p Hn) as (? & ? & q2 & ? & ? & _ & _ & _ & _ & _ & _ & _ & _ & C2); [by eapply path_root|].
          by destruct (covers_unique _ _ _ _ _ C1 C2). }
      simplify_eq. rewrite lookup_app_r, Nat.sub_diag in Hx by lia. injection Hx as ->. congruence.
    + apply prefix_length in Hqp as Hlen.
      assert (Hne : p ≠ []) by (intros ->; simpl in *; lia).
      destruct (covers_self n p Hn) as (? & ? & q2 & ? & ? & ? & _ & _ & _ & Ep & _ & _ & _ & C2); [by eapply path_root|].
      assert (C1 : covers P c m qp p).
      { split; [done|]. exists md. split_and!; try done; [lia|]. etrans; [|done]. by eexists. }
      destruct (covers_unique _ _ _ _ _ C1 C2) as [-> ->]. simplify_eq.
      apply prefix_length in Hs. rewrite !length_app in Hs. simpl in Hs. lia.
Qed.
(** Inside an edge only the next key of the edge extends a prefix. *)
Lemma edge_covers n qp nd ks k :
  covers P c n qp ks → heap c !! n = Some nd → length ks < length qp + length (edge_keys nd) →
  (∃ m q, covers P c m q (ks ++ [k])) ↔ edge_keys nd !! (length ks - length qp) = Some k.
Proof.
  intros Hc Hnd Hl.
  destruct (covers_inv _ _ _ Hc) as (nd' & q & qd & k' & Hmd & Hm & Hr & Hq & Hqd & Hpar & Hhd & Hch & _ & Hx & Hpre & Hl' & Hs).
  simplify_eq. split.
  - intros (m & q' & Hc').
    destruct (covers_inv _ _ _ Hc') as (md & r & rd & k1 & Hmd' & Hm' & Hr' & Hq' & Hqd' & _ & _ & _ & _ & _ & Hpre' & Hl1 & Hs').
    rewrite length_app in Hl1. simpl in Hl1.
    assert (Hqp : q' `prefix_of` ks).
    { apply (prefix_shorter _ _ (ks ++ [k])); [done|by eexists|lia]. }
    destruct (decide (length q' = length ks)) as [El|Nl].
    + assert (q' = ks) as -> by (apply prefix_length_eq; [done|lia]).
      destruct (covers_self r ks Hq') as (x & ? & q2 & ? & ? & ? & _ & _ & _ & Ep & _ & _ & _ & C2).
      { eapply path_root; [done|]. intros ->. simpl in *. lia. }
      destruct (covers_unique _ _ _ _ _ Hc C2) as [-> ->]. simplify_eq.
      rewrite length_app in Hl. lia.
    + assert (C1 : covers P c m q' ks).
      { split; [done|]. exists md. split_and!; try done.
        - apply prefix_length in Hqp. lia.
        - etrans; [|done]. by eexists. }
      destruct (covers_unique _ _ _ _ _ C1 Hc) as [-> ->]. simplify_eq.
      destruct Hs' as [t Ht]. destruct Hpre as [u ->].
      rewrite <-!app_assoc in Ht. apply app_inv_head in Ht. rewrite Ht.
      rewrite length_app, lookup_app_r by lia.
      replace (length qp + length u - length qp - length u) with 0 by lia. done.
  - intros Hk. exists n, qp. split; [done|]. exists nd. split_and!; try done.
    + rewrite length_app. simpl. lia.
    + destruct Hpre as [u ->]. rewrite <-app_assoc. apply prefix_app. rewrite length_app in *.
      replace (length qp + length u - length qp) with (length u) in Hk by lia.
      apply prefix_app_inv in Hs. destruct Hs as [t Ht]. rewrite Ht in *.
      rewrite lookup_app_r, Nat.sub_diag in Hk by lia.
      destruct t as [|k1 t]; simplify_eq/=. exists t. by rewrite <-app_assoc.
Qed.
End inv.

(** ** States that differ in access times and counters only *)
Definition same_node (nd nd' : RadixNode) : Prop :=
  edge_keys nd = edge_keys nd' ∧ block_ids nd = block_ids nd' ∧
  parent nd = parent nd' ∧ children nd = children nd'.

Definition same_shape (c c' : RadixPrefixCache) : Prop :=
  (∀ n, option_Forall2 same_node (heap c !! n) (heap c' !! n)) ∧
  next_ref c = next_ref c' ∧ block_locations c = block_locations c'.

#[export] Instance same_node_equiv : Equivalence same_node.
Proof.
  split.
  - by intros [].
  - intros ? ? (?&?&?&?). by split_and!.
  - intros ??? (?&?&?&?) (?&?&?&?). split_and!; by etrans.
Qed.
#[export] Instance same_shape_equiv : Equivalence same_shape.
Proof.
  split.
  - intros c. split_and!; [intros n; reflexivity|done|done].
  - intros c c' (H&?&?). split_and!; [intros n; symmetry; apply H|done|done].
  - intros ??? (H&?&?) (H'&?&?). split_and!; [intros n; etrans; [apply H|apply H']|by etrans|by etrans].
Qed.

Lemma same_shape_lookup c c' n nd :
  same_shape c c' → heap c !! n = Some nd → ∃ nd', heap c' !! n = Some nd' ∧ same_node nd nd'.
Proof. intros [H _] Hn. specialize (H n). rewrite Hn in H. inversion H; eauto. Qed.

Lemma radix_inv_shape P c c' : same_shape c c' → radix_inv P c → radix_inv P c'.
Proof.
  intros HS HI. pose proof HS as (_ & Hnext & Hlocs). symmetry in HS.
  assert (Hfw : ∀ n nd, heap c !! n = Some nd → ∃ nd', heap c' !! n = Some nd' ∧ same_node nd nd').
  { intros n nd. symmetry in HS. by apply same_shape_lookup. }
  split.
  - apply (ri_root _ _ HI).
  - destruct (ri_rootnd _ _ HI) as (nd & Hnd & ? & ? & ?).
    destruct (Hfw _ _ Hnd) as (nd' & ? & E1 & E2 & E3 & E4). exists nd'. split_and!; congruence.
  - intros n p Hn Hr. destruct (ri_node _ _ HI n p Hn Hr) as (nd & q & qp & qd & k & Hnd & ? & Hqd & ? & -> & ? & ? & ?).
    destruct (Hfw _ _ Hnd) as (nd' & ? & E1 & E2 & E3 & E4).
    destruct (Hfw _ _ Hqd) as (qd' & ? & F1 & F2 & F3 & F4).
    exists nd', q, qp, qd', k. split_and!; congruence.
  - intros n p nd' k m Hn Hnd' Hk.
    destruct (same_shape_lookup _ _ _ _ HS Hnd') as (nd & Hnd & E1 & E2 & E3 & E4).
    destruct (ri_child _ _ HI n p nd k m Hn Hnd) as (? & ? & md & Hmd & ? & ?); [congruence|].
    destruct (Hfw _ _ Hmd) as (md' & ? & F1 & F2 & F3 & F4).
    split_and!; [done..|]. exists md'. split_and!; congruence.
  - intros b n i. rewrite <-Hlocs, (ri_loc _ _ HI). split.
    + intros (p & nd & ? & Hnd & ?). destruct (Hfw _ _ Hnd) as (nd' & ? & E1 & E2 & E3 & E4).
      exists p, nd'. split_and!; congruence.
    + intros (p & nd' & ? & Hnd' & ?).
      destruct (same_shape_lookup _ _ _ _ HS Hnd') as (nd & Hnd & E1 & E2 & E3 & E4).
      exists p, nd. split_and!; congruence.
  - intros n [nd' Hnd']. rewrite <-Hnext.
    destruct (same_shape_lookup _ _ _ _ HS Hnd') as (nd & Hnd & _). apply (ri_next _ _ HI). eauto.
Qed.
#[export] Instance radix_inv_proper P : Proper (same_shape ==> iff) (radix_inv P).
Proof. intros c c' H. split; apply radix_inv_shape; [done|by symmetry]. Qed.

Lemma covers_shape P c c' n qp ks : same_shape c c' → covers P c n qp ks → covers P c' n qp ks.
Proof.
  intros HS (Hr & nd & Hnd & ? & ? & ?).
  destruct (same_shape_lookup _ _ _ _ HS Hnd) as (nd' & ? & E1 & _).
  split; [done|]. exists nd'. rewrite <-E1. done.
Qed.
Lemma mapped_shape P c c' ks b : same_shape c c' → mapped P c ks b → mapped P c' ks b.
Proof.
  intros HS (n & qp & nd & Hc & Hnd & Hb).
  destruct (same_shape_lookup _ _ _ _ HS Hnd) as (nd' & ? & E1 & E2 & _).
  exists n, qp, nd'. split_and!; [by eapply covers_shape|done|congruence].
Qed.
#[export] Instance mapped_proper P : Proper (same_shape ==> eq ==> eq ==> iff) (mapped P).
Proof. intros c c' H ? ? -> ? ? ->. split; apply mapped_shape; [done|by symmetry]. Qed.
#[export] Instance represents_proper m : Proper (same_shape ==> iff) (represents m).
Proof.
  intros c c' H. unfold represents. split; intros (P & HP & Hm); exists P.
  - rewrite <-H. split; [done|]. intros ks b. by rewrite <-H.
  - rewrite H. split; [done|]. intros ks b. by rewrite H.
Qed.

Definition counters (c : RadixPrefixCache) : nat * nat * nat :=
  (lookups c, queried_blocks c, hit_blocks c).

Lemma touch_shape n c :
  ∃ c', touch n c = (inr tt, c') ∧ same_shape c c' ∧ counters c' = counters c.
Proof.
  eexists. split; [reflexivity|]. unfold same_shape. split_and!; try done. cbn. intros m. destruct (decide (n = m)) as [->|Hne].
  - rewrite lookup_alter_eq. destruct (heap c !! m); constructor. done.
  - by rewrite lookup_alter_ne.
Qed.
Lemma wp_touch n (Q : () → RadixPrefixCache → Prop) E c :
  (∀ c', same_shape c c' → counters c' = counters c → Q tt c') → wp (touch n) Q E c.
Proof. intros H. destruct (touch_shape n c) as (c' & E1 & HS & HC). eapply wp_of_run; eauto. Qed.
Lemma wp_deref n nd (Q : RadixNode → RadixPrefixCache → Prop) E c :
  heap c !! n = Some nd → Q nd c → wp (deref n) Q E c.
Proof. intros Hn HQ. unfold deref. wp_steps. apply wp_of_option; naive_solver. Qed.

(** ** Common prefixes *)
Lemma lcp_take l r : take (common_prefix_length l r) l = take (common_prefix_length l r) r.
Proof.
  revert r. induction l as [|x l IH]; intros [|y r]; simpl; try done.
  destruct (decide (x = y)) as [->|]; [|done]. simpl. by f_equal.
Qed.
Lemma lcp_le l r : common_prefix_length l r <= length l ∧ common_prefix_length l r <= length r.
Proof.
  revert r. induction l as [|x l IH]; intros [|y r]; simpl; try lia.
  destruct (decide (x = y)) as [->|]; [|lia]. specialize (IH r). lia.
Qed.
Lemma lcp_differ l r x y :
  l !! common_prefix_length l r = Some x → r !! common_prefix_length l r = Some y → x ≠ y.
Proof.
  revert r. induction l as [|x' l IH]; intros [|y' r]; simpl; try done.
  destruct (decide (x' = y')) as [->|]; simpl; [eauto|]. intros [= ->] [= ->]. done.
Qed.
Lemma lcp_pos l r x : head l = Some x → head r = Some x → 0 < common_prefix_length l r.
Proof. destruct l, r; simpl; [done..|]. intros [= ->] [= ->]. rewrite decide_True by done. lia. Qed.

(** ** Longest match *)
(** The specification of [match]: the blocks of the longest chain of mapped
    prefixes of [pre ++ rest] that extend [pre]. *)
Fixpoint longest_from {A} (m : gmap (list BlockKey) A) (pre rest : list BlockKey) : list A :=
  match rest with
  | [] => []
  | k :: rest =>
      match m !! (pre ++ [k]) with
      | Some b => b :: longest_from m (pre ++ [k]) rest
      | None => []
      end
  end.
Definition longest_match {A} (m : gmap (list BlockKey) A) (keys : list BlockKey) : list A :=
  longest_from m [] keys.

Lemma longest_from_app {A} (m : gmap (list BlockKey) A) pre rest ids n :
  length ids = n → n <= length rest →
  (∀ i b, ids !! i = Some b → m !! (pre ++ take (S i) rest) = Some b) →
  longest_from m pre rest = ids ++ longest_from m (pre ++ take n rest) (drop n rest).
Proof.
  revert pre rest n. induction ids as [|b ids IH]; intros pre rest n <- Hn Hm; simpl.
  { by rewrite app_nil_r. }
  destruct rest as [|k rest]; simpl in *; [lia|].
  pose proof (Hm 0 b eq_refl) as H0. simpl in H0. rewrite take_0 in H0. rewrite H0. f_equal.
  rewrite (IH (pre ++ [k]) rest (length ids)); [by rewrite <-app_assoc|done|lia|].
  intros i b' Hi. rewrite <-app_assoc. by apply (Hm (S i)).
Qed.

Lemma longest_from_char {A} (m : gmap (list BlockKey) A) pre rest :
  let l := longest_from m pre rest in
  (∀ i b, l !! i = Some b → m !! (pre ++ take (S i) rest) = Some b) ∧
  length l <= length rest ∧
  (length l < length rest → m !! (pre ++ take (S (length l)) rest) = None).
Proof.
  revert pre. induction rest as [|k rest IH]; intros pre; simpl; [split_and!; [done|lia|lia]|].
  destruct (m !! (pre ++ [k])) as [b|] eqn:E; simpl.
  - destruct (IH (pre ++ [k])) as (H1 & H2 & H3). split_and!; [|lia|].
    + intros [|i] b' Hb; simpl in *; [rewrite ?take_0; congruence|]. rewrite cons_middle, app_assoc. by apply H1.
    + intros Hl. rewrite cons_middle, app_assoc. apply H3. lia.
  - split_and!; [done|lia|]. done.
Qed.

Lemma drop_lookup_cons {A} (l : list A) i x : l !! i = Some x → drop i l = x :: drop (S i) l.
Proof. intros. by rewrite (drop_S _ x). Qed.

(** What a node's edge maps: its [i]-th block holds the path to its [i]-th key. *)
Lemma edge_mapped P c n qp nd i b :
  P !! n = Some (qp ++ edge_keys nd) → n ≠ root → heap c !! n = Some nd →
  length (edge_keys nd) = length (block_ids nd) →
  block_ids nd !! i = Some b → mapped P c (qp ++ take (S i) (edge_keys nd)) b.
Proof.
  intros Hn Hr Hnd Hlen Hb. pose proof (lookup_lt_Some _ _ _ Hb) as Hi.
  assert (Hl : length (take (S i) (edge_keys nd)) = S i) by (rewrite length_take; lia).
  exists n, qp, nd. split_and!; [|done|].
  - split; [done|]. exists nd. split_and!; try done.
    + rewrite length_app. lia.
    + apply prefix_app, prefix_take.
  - rewrite length_app, Hl. replace (length qp + S i - length qp - 1) with i by lia. done.
Qed.

Lemma match_loop_spec P m keys fuel c node pos matched :
  radix_inv P c → (∀ ks b, m !! ks = Some b ↔ mapped P c ks b) →
  P !! node = Some (take pos keys) → pos <= length keys → length keys - pos < fuel →
  wp (match_loop fuel keys node pos matched)
    (λ r c', r = matched ++ longest_from m (take pos keys) (drop pos keys) ∧ same_shape c c' ∧
      counters c' = counters c) noexn c.
Proof.
  revert c node pos matched. induction fuel as [|fuel IH]; intros c node pos matched HI Hm Hnode Hpos Hfuel; [lia|].
  simpl. destruct (keys !! pos) as [key|] eqn:Ekey.
  2:{ wp_step. rewrite drop_ge by (by apply lookup_ge_None). simpl. by rewrite app_nil_r. }
  apply lookup_lt_Some in Ekey as Hlt.
  destruct (live_heap HI _ _ Hnode) as [nd Hnd].
  wp_step. eapply wp_deref; [done|].
  destruct (child_covers HI _ _ _ key Hnode Hnd) as [(child & Hch & Hcov)|[Hch Hno]]; rewrite Hch.
  2:{ wp_step. rewrite (drop_lookup_cons _ _ _ Ekey). simpl.
      destruct (m !! (take pos keys ++ [key])) as [b|] eqn:Eb; [|by rewrite app_nil_r].
      apply Hm in Eb as (?&?&?&?&_). by edestruct Hno. }
  destruct (covers_inv HI _ _ _ Hcov) as (cd & q & qd & k & Hcd & Hcp & Hcr & Hq & Hqd & Hpar & Hhd & Hck & Hlen & Hx & _ & _ & Hs).
  assert (k = key) as ->.
  { rewrite length_take, lookup_app_r in Hx by (rewrite length_take; lia).
    rewrite length_take in Hx. replace (pos `min` length keys - pos `min` length keys) with 0 in Hx by lia. by injection Hx. }
  wp_step. eapply wp_deref; [done|].
  set (common := common_prefix_length (edge_keys cd) (drop pos keys)).
  assert (Hc0 : 0 < common).
  { apply (lcp_pos _ _ key); [done|]. by rewrite (drop_lookup_cons _ _ _ Ekey). }
  rewrite (proj2 (Nat.eqb_neq common 0)) by lia.
  pose proof (lcp_le (edge_keys cd) (drop pos keys)) as [Hle1 Hle2]. fold common in Hle1, Hle2.
  rewrite length_drop in Hle2.
  assert (Htk : take common (edge_keys cd) = take common (drop pos keys)) by apply lcp_take.
  assert (Hstep : longest_from m (take pos keys) (drop pos keys) =
    take common (block_ids cd) ++ longest_from m (take (pos + common) keys) (drop (pos + common) keys)).
  { rewrite (longest_from_app m (take pos keys) (drop pos keys) (take common (block_ids cd)) common).
    - by rewrite take_take_drop, drop_drop.
    - rewrite length_take. lia.
    - rewrite length_drop. lia.
    - intros i b Hi. apply lookup_take_Some in Hi as [Hi Hib]. apply Hm.
      pose proof (edge_mapped P c child (take pos keys) cd i b Hcp Hcr Hcd Hlen Hi) as HH.
      replace (take (S i) (edge_keys cd)) with (take (S i) (drop pos keys)) in HH; [done|].
      assert (take (S i) (take common (edge_keys cd)) = take (S i) (take common (drop pos keys))) as HT by by rewrite Htk.
      rewrite !take_take in HT. by replace (S i `min` common) with (S i) in HT by lia. }
  wp_step. apply wp_touch. intros c1 HS1 HC1.
  destruct (common <? length (edge_keys cd)) eqn:Ec; breflect.
  - wp_step. split; [|by rewrite HC1]. f_equal. rewrite Hstep.
    replace (longest_from m (take (pos + common) keys) (drop (pos + common) keys)) with (@nil nat); [by rewrite app_nil_r|].
    destruct (keys !! (pos + common)) as [key'|] eqn:Ek'.
    2:{ by rewrite drop_ge by (by apply lookup_ge_None). }
    rewrite (drop_lookup_cons _ _ _ Ek'). simpl.
    destruct (m !! (take (pos + common) keys ++ [key'])) as [b|] eqn:Eb; [|done].
    exfalso. apply Hm in Eb as (n' & q' & nd' & Hc' & _).
    apply lookup_lt_Some in Ek' as Hk'.
    assert (Hcov2 : covers P c child (take pos keys) (take (pos + common) keys)).
    { split; [done|]. exists cd. split_and!; try done.
      - rewrite !length_take. lia.
      - rewrite <-take_take_drop. apply prefix_app. rewrite <-Htk. apply prefix_take. }
    assert (Hx2 : edge_keys cd !! common = Some key').
    { assert (length (take (pos + common) keys) - length (take pos keys) = common) as <-
        by (rewrite !length_take; lia).
      eapply (edge_covers HI); [done|done| |eauto]. rewrite !length_take. lia. }
    eapply lcp_differ; [exact Hx2| |done]. fold common. by rewrite lookup_drop.
  - assert (common = length (edge_keys cd)) by lia.
    eapply wp_mono.
    + apply (IH c1 child (pos + common) (matched ++ take common (block_ids cd))).
      * by rewrite <-HS1.
      * intros ks b. by rewrite <-HS1.
      * rewrite Hcp, <-take_take_drop, <-Htk. by rewrite (take_ge (edge_keys cd)) by lia.
      * lia.
      * lia.
    + intros r c2 (-> & HS2 & HC2). split_and!; [by rewrite Hstep, app_assoc|by etrans|by rewrite HC2].
    + done.
Qed.

(** ** Locations *)
Lemma lookup_set_locations n start ids locs b x :
  NoDup ids →
  set_locations (locate_from n start ids) locs !! b = Some x ↔
  (∃ i, ids !! i = Some b ∧ x = (n, start + i)) ∨ (b ∉ ids ∧ locs !! b = Some x).
Proof.
  revert start locs. induction ids as [|a ids IH]; intros start locs Hnd.
  { simpl. split; [intros; right; set_solver|]. intros [(i & Hi & _)|[_ ?]]; [done|done]. }
  apply NoDup_cons in Hnd as [Ha Hnd].
  assert (Eq : locate_from n start (a :: ids) = (a, (n, start)) :: locate_from n (S start) ids).
  { unfold locate_from. simpl. rewrite Nat.add_0_r. f_equal. apply imap_ext. intros i ? ?. simpl.
    do 2 f_equal. lia. }
  rewrite Eq. simpl. fold (set_locations (locate_from n (S start) ids) (<[a:=(n, start)]> locs)).
  rewrite IH by done. split.
  - intros [(i & Hi & ->)|[Hb Hl]].
    + left. exists (S i). split; [done|]. f_equal. lia.
    + destruct (decide (a = b)) as [->|Hne].
      * rewrite lookup_insert_eq in Hl. injection Hl as <-. left. exists 0. split; [done|]. f_equal. lia.
      * rewrite lookup_insert_ne in Hl by done. right. split; [set_solver|done].
  - intros [([|i] & Hi & ->)|[Hb Hl]].
    + injection Hi as ->. right. rewrite lookup_insert_eq. split; [done|]. do 2 f_equal. lia.
    + left. exists i. split; [done|]. f_equal. lia.
    + right. apply not_elem_of_cons in Hb as [Hb1 Hb2]. rewrite lookup_insert_ne by done. done.
Qed.

(** A node's edge holds no block twice. *)
Lemma node_ids_NoDup P c n p nd :
  radix_inv P c → P !! n = Some p → heap c !! n = Some nd → NoDup (block_ids nd).
Proof.
  intros HI Hn Hnd. apply NoDup_alt. intros i j b Hi Hj.
  assert (L1 : block_locations c !! b = Some (n, i)) by (apply (ri_loc _ _ HI); eauto).
  assert (L2 : block_locations c !! b = Some (n, j)) by (apply (ri_loc _ _ HI); eauto).
  congruence.
Qed.
Lemma next_not_live P c : radix_inv P c → P !! next_ref c = None.
Proof.
  intros HI. destruct (P !! next_ref c) as [p|] eqn:E; [|done].
  apply (live_heap HI) in E. apply (ri_next _ _ HI) in E. lia.
Qed.

(** ** Hanging a new leaf below a live node *)
Section add_leaf.
Context (P : paths) (c c' : RadixPrefixCache) (n : node_ref) (p : list BlockKey)
  (nd nd' leaf : RadixNode) (k : BlockKey).
Let nw := next_ref c.
Context (HI : radix_inv P c) (Hn : P !! n = Some p) (Hnd : heap c !! n = Some nd)
  (Hk : children nd !! k = None)
  (Hhd : head (edge_keys leaf) = Some k)
  (Hlen : length (edge_keys leaf) = length (block_ids leaf))
  (Hpar : parent leaf = Some n) (Hch : children leaf = ∅)
  (Hdup : NoDup (block_ids leaf))
  (Hfresh : ∀ b, b ∈ block_ids leaf → block_locations c !! b = None)
  (Hn' : heap c' !! n = Some nd')
  (He' : edge_keys nd' = edge_keys nd) (Hb' : block_ids nd' = block_ids nd)
  (Hp' : parent nd' = parent nd) (Hc' : children nd' = <[k := nw]> (children nd))
  (Hw' : heap c' !! nw = Some leaf)
  (Ho' : ∀ x, x ≠ n → x ≠ nw → heap c' !! x = heap c !! x)
  (Hnext : next_ref c' = S nw)
  (Hlocs : block_locations c' = set_locations (locate_from nw 0 (block_ids leaf)) (block_locations c)).

Let P' : paths := <[nw := p ++ edge_keys leaf]> P.

Local Lemma leaf_new : P !! nw = None.
Proof. by apply next_not_live. Qed.
Local Lemma leaf_ne x q : P !! x = Some q → x ≠ nw.
Proof. intros H ->. by rewrite leaf_new in H. Qed.
Local Lemma leaf_old x q : P !! x = Some q → P' !! x = Some q.
Proof. intros H. unfold P'. rewrite lookup_insert_ne; [done|]. intros <-. by rewrite leaf_new in H. Qed.
Local Lemma leaf_back x xd' :
  x ≠ nw → heap c' !! x = Some xd' →
  ∃ xd, heap c !! x = Some xd ∧ edge_keys xd' = edge_keys xd ∧ block_ids xd' = block_ids xd ∧
    parent xd' = parent xd.
Proof.
  intros Hx H. destruct (decide (x = n)) as [->|].
  - exists nd. rewrite Hn' in H. injection H as <-. done.
  - exists xd'. rewrite Ho' in H by done. done.
Qed.
Local Lemma leaf_forth x xd :
  x ≠ nw → heap c !! x = Some xd →
  ∃ xd', heap c' !! x = Some xd' ∧ edge_keys xd' = edge_keys xd ∧ block_ids xd' = block_ids xd ∧
    parent xd' = parent xd ∧ (∀ k' m, children xd !! k' = Some m → children xd' !! k' = Some m).
Proof.
  intros Hx H. destruct (decide (x = n)) as [->|].
  - exists nd'. simplify_eq. split_and!; try done. rewrite Hc'. intros k' m Hm.
    rewrite lookup_insert_ne; [done|]. congruence.
  - exists xd. rewrite Ho' by done. done.
Qed.

Lemma add_leaf_inv : radix_inv P' c'.
Proof.
  pose proof (leaf_ne _ _ Hn) as Hnw.
  assert (Hroot : root ≠ nw) by (by eapply leaf_ne, (ri_root _ _ HI)).
  split.
  - by apply leaf_old, (ri_root _ _ HI).
  - destruct (ri_rootnd _ _ HI) as (rd & Hrd & ? & ? & ?).
    destruct (leaf_forth _ _ Hroot Hrd) as (rd' & ? & E1 & E2 & E3 & _).
    exists rd'. split_and!; congruence.
  - intros x xp Hx Hr. unfold P' in Hx. apply lookup_insert_Some in Hx as [[<- <-]|[Hxn Hx]].
    + exists leaf, n, p, nd', k. split_and!; try done.
      * by apply leaf_old.
      * rewrite Hc'. apply lookup_insert_eq.
    + destruct (ri_node _ _ HI x xp Hx Hr) as (xd & q & qp & qd & k' & Hxd & Hq & Hqd & ? & -> & ? & ? & ?).
      destruct (leaf_forth _ _ (not_eq_sym Hxn) Hxd) as (xd' & ? & E1 & E2 & E3 & _).
      destruct (leaf_forth _ _ (leaf_ne _ _ Hq) Hqd) as (qd' & ? & _ & _ & _ & F).
      exists xd', q, qp, qd', k'. split_and!; try congruence; [by apply leaf_old|by apply F].
  - intros x xp xd' k' m Hx Hxd' Hm. unfold P' in Hx. apply lookup_insert_Some in Hx as [[<- <-]|[Hxn Hx]].
    { rewrite Hw' in Hxd'. injection Hxd' as <-. by rewrite Hch in Hm. }
    destruct (decide (x = n ∧ k' = k)) as [[-> ->]|Hne].
    { rewrite Hn' in Hxd'. injection Hxd' as <-. rewrite Hc', lookup_insert_eq in Hm. injection Hm as <-.
      split_and!; [congruence|unfold P'; rewrite lookup_insert_eq; eauto|]. exists leaf. done. }
    assert (∃ xd, heap c !! x = Some xd ∧ children xd !! k' = Some m) as (xd & Hxd & Hm').
    { destruct (decide (x = n)) as [->|].
      - exists nd. rewrite Hn' in Hxd'. injection Hxd' as <-.
        rewrite Hc', lookup_insert_ne in Hm by naive_solver. done.
      - exists xd'. rewrite Ho' in Hxd' by done. done. }
    destruct (ri_child _ _ HI x xp xd k' m Hx Hxd Hm') as (? & [mp Hmp] & md & Hmd & ? & ?).
    destruct (leaf_forth _ _ (leaf_ne _ _ Hmp) Hmd) as (md' & ? & E1 & E2 & E3 & _).
    split_and!; [done|rewrite (leaf_old _ _ Hmp); eauto|]. exists md'. split_and!; congruence.
  - intros b x i. rewrite Hlocs, lookup_set_locations by done. split.
    + intros [(j & Hj & [= -> ->])|[Hb Hl]].
      * exists (p ++ edge_keys leaf), leaf. split_and!; try done. unfold P'. by rewrite lookup_insert_eq.
      * apply (ri_loc _ _ HI) in Hl as (xp & xd & Hx & Hxd & Hi).
        destruct (leaf_forth _ _ (leaf_ne _ _ Hx) Hxd) as (xd' & ? & E1 & E2 & E3 & _).
        exists xp, xd'. split_and!; [by apply leaf_old|done|congruence].
    + intros (xp & xd' & Hx & Hxd' & Hi). unfold P' in Hx. apply lookup_insert_Some in Hx as [[<- <-]|[Hxn Hx]].
      * rewrite Hw' in Hxd'. injection Hxd' as <-. left. by exists i.
      * destruct (leaf_back _ _ (not_eq_sym Hxn) Hxd') as (xd & Hxd & E1 & E2 & E3).
        assert (Hl : block_locations c !! b = Some (x, i)) by (apply (ri_loc _ _ HI); rewrite E2 in Hi; eauto).
        right. split; [|done]. intros Hb. apply Hfresh in Hb. congruence.
  - intros x [xd' Hxd']. rewrite Hnext. destruct (decide (x = nw)) as [->|Hx]; [lia|].
    destruct (leaf_back _ _ Hx Hxd') as (xd & Hxd & _).
    pose proof (ri_next _ _ HI x ltac:(eauto)). fold nw in H. lia.
Qed.

Lemma add_leaf_mapped ks b :
  mapped P' c' ks b ↔
  mapped P c ks b ∨ ∃ i, block_ids leaf !! i = Some b ∧ ks = p ++ take (S i) (edge_keys leaf).
Proof.
  split.
  - intros (x & qp & xd' & (Hr & xd1 & Hxd' & Hx & Hl & Hs) & Hxd1 & Hb). simplify_eq.
    unfold P' in Hx. apply lookup_insert_Some in Hx as [[<- Hp]|[Hxn Hx]].
    + rewrite Hw' in Hxd'. injection Hxd' as <-. right.
      apply app_inv_tail in Hp as <-. exists (length ks - length p - 1). split; [done|].
      destruct (prefix_shorter p ks (p ++ edge_keys leaf)) as [t ->]; [by eexists|done|lia|].
      f_equal. apply prefix_app_inv in Hs. rewrite length_app in *.
      replace (S (length p + length t - length p - 1)) with (length t) by lia. by apply prefix_of_take.
    + destruct (leaf_back _ _ (not_eq_sym Hxn) Hxd') as (xd & Hxd & E1 & E2 & E3).
      left. exists x, qp, xd. rewrite E1 in *. rewrite E2 in *. split_and!; try done.
      split; [done|]. by exists xd.
  - intros [(x & qp & xd & (Hr & xd1 & Hxd & Hx & Hl & Hs) & Hxd1 & Hb)|(i & Hi & ->)].
    + simplify_eq. destruct (leaf_forth _ _ (leaf_ne _ _ Hx) Hxd) as (xd' & Hxd' & E1 & E2 & E3 & _).
      exists x, qp, xd'. split_and!; [|done|congruence]. split; [done|]. exists xd'. rewrite E1.
      split_and!; [done| |done|done]. by apply leaf_old.
    + eapply edge_mapped; [|by eapply not_eq_sym, leaf_ne, (ri_root _ _ HI)|exact Hw'|done|done].
      unfold P'. by rewrite lookup_insert_eq.
Qed.
End add_leaf.

(** ** Splitting the edge of a live node *)
Section split_edge.
Context (P : paths) (c c' : RadixPrefixCache) (n q : node_ref) (qp : list BlockKey)
  (nd nd' qd qd' sd : RadixNode) (k k2 : BlockKey) (i : nat).
Let s := next_ref c.
Context (HI : radix_inv P c) (Hn : P !! n = Some (qp ++ edge_keys nd)) (Hr : n ≠ root)
  (Hnd : heap c !! n = Some nd) (Hq : P !! q = Some qp) (Hqd : heap c !! q = Some qd)
  (Hpar : parent nd = Some q) (Hhd : head (edge_keys nd) = Some k)
  (Hck : children qd !! k = Some n) (Hlen : length (edge_keys nd) = length (block_ids nd))
  (Hi : 0 < i < length (edge_keys nd))
  (Hhd2 : head (drop i (edge_keys nd)) = Some k2)
  (Hs' : heap c' !! s = Some sd)
  (Hse : edge_keys sd = take i (edge_keys nd)) (Hsb : block_ids sd = take i (block_ids nd))
  (Hsp : parent sd = Some q) (Hsc : children sd = {[ k2 := n ]})
  (Hn' : heap c' !! n = Some nd')
  (Hne : edge_keys nd' = drop i (edge_keys nd)) (Hnb : block_ids nd' = drop i (block_ids nd))
  (Hnp : parent nd' = Some s) (Hnc : children nd' = children nd)
  (Hq' : heap c' !! q = Some qd')
  (Hqe : edge_keys qd' = edge_keys qd) (Hqb : block_ids qd' = block_ids qd)
  (Hqpar : parent qd' = parent qd) (Hqc : children qd' = <[k := s]> (children qd))
  (Ho' : ∀ x, x ≠ n → x ≠ q → x ≠ s → heap c' !! x = heap c !! x)
  (Hnext : next_ref c' = S s)
  (Hlocs : block_locations c' =
     set_locations (locate_from n 0 (block_ids nd'))
       (set_locations (locate_from s 0 (block_ids sd)) (block_locations c))).

Let P' : paths := <[s := qp ++ take i (edge_keys nd)]> P.

Local Lemma split_new : P !! s = None.
Proof. by apply next_not_live. Qed.
Local Lemma split_ne x p : P !! x = Some p → x ≠ s.
Proof. intros H ->. by rewrite split_new in H. Qed.
Local Lemma split_old x p : P !! x = Some p → P' !! x = Some p.
Proof. intros H. unfold P'. rewrite lookup_insert_ne; [done|]. intros <-. by rewrite split_new in H. Qed.
Local Lemma split_nq : n ≠ q.
Proof.
  intros ->. rewrite Hq in Hn. injection Hn as E.
  assert (Hl := f_equal length E). rewrite length_app in Hl. lia.
Qed.
(** Every node but [n] and [s] keeps its edge and its parent. *)
Local Lemma split_forth x xd :
  x ≠ n → x ≠ s → heap c !! x = Some xd →
  ∃ xd', heap c' !! x = Some xd' ∧ edge_keys xd' = edge_keys xd ∧ block_ids xd' = block_ids xd ∧
    parent xd' = parent xd.
Proof.
  intros Hx1 Hx2 H. destruct (decide (x = q)) as [->|].
  - exists qd'. simplify_eq. done.
  - exists xd. by rewrite Ho'.
Qed.
Local Lemma split_back x xd' :
  x ≠ n → x ≠ s → heap c' !! x = Some xd' →
  ∃ xd, heap c !! x = Some xd ∧ edge_keys xd' = edge_keys xd ∧ block_ids xd' = block_ids xd ∧
    parent xd' = parent xd.
Proof.
  intros Hx1 Hx2 H. destruct (decide (x = q)) as [->|].
  - exists qd. rewrite Hq' in H. injection H as <-. done.
  - exists xd'. by rewrite Ho' in H.
Qed.
Local Lemma split_children x xd :
  x ≠ s → heap c !! x = Some xd →
  ∃ xd', heap c' !! x = Some xd' ∧
    children xd' = if decide (x = q) then <[k := s]> (children xd) else children xd.
Proof.
  intros Hx H. destruct (decide (x = q)) as [->|]; [exists qd'; simplify_eq; done|].
  destruct (decide (x = n)) as [->|]; [exists nd'; simplify_eq; done|].
  exists xd. by rewrite Ho'.
Qed.

Lemma split_inv : radix_inv P' c'.
Proof.
  pose proof split_nq as Hnq. pose proof (split_ne _ _ Hn) as Hns. pose proof (split_ne _ _ Hq) as Hqs.
  assert (Hrs : root ≠ s) by (by eapply split_ne, (ri_root _ _ HI)).
  split.
  - by apply split_old, (ri_root _ _ HI).
  - destruct (ri_rootnd _ _ HI) as (rd & Hrd & ? & ? & ?).
    destruct (split_forth root rd) as (rd' & ? & E1 & E2 & E3); [done..|].
    exists rd'. split_and!; congruence.
  - intros x xp Hx Hxr. unfold P' in Hx. apply lookup_insert_Some in Hx as [[<- <-]|[Hxs Hx]].
    { exists sd, q, qp, qd', k. split_and!; try done.
      - by apply split_old.
      - by rewrite Hse.
      - rewrite Hse. destruct (edge_keys nd), i; simpl in *; [lia..|done].
      - rewrite Hqc. apply lookup_insert_eq.
      - rewrite Hse, Hsb, !length_take. lia. }
    destruct (decide (x = n)) as [->|Hxn].
    { rewrite Hn in Hx. injection Hx as <-.
      exists nd', s, (qp ++ take i (edge_keys nd)), sd, k2. split_and!; try done.
      - unfold P'. by rewrite lookup_insert_eq.
      - by rewrite Hne, <-app_assoc, take_drop.
      - by rewrite Hne.
      - rewrite Hsc. apply lookup_singleton_eq.
      - rewrite Hne, Hnb, !length_drop. lia. }
    destruct (ri_node _ _ HI x xp Hx Hxr) as (xd & r & rp & rd & k' & Hxd & Hrp & Hrd & ? & -> & ? & Hch & ?).
    destruct (split_forth x xd) as (xd' & ? & E1 & E2 & E3); [done..|].
    destruct (split_children r rd) as (rd' & ? & F); [by eapply split_ne|done|].
    exists xd', r, rp, rd', k'. split_and!; try congruence; [by apply split_old|].
    rewrite F. case_decide as Hrq; [|done]. subst r. rewrite lookup_insert_ne; [done|]. congruence.
  - intros x xp xd' k' m Hx Hxd' Hm. unfold P' in Hx. apply lookup_insert_Some in Hx as [[<- <-]|[Hxs Hx]].
    { rewrite Hs' in Hxd'. injection Hxd' as <-. rewrite Hsc in Hm.
      apply lookup_singleton_Some in Hm as [<- <-]. split_and!; [done|rewrite (split_old _ _ Hn); eauto|].
      exists nd'. split_and!; [done..|]. by rewrite Hne. }
    destruct (live_heap HI _ _ Hx) as [xd Hxd].
    destruct (split_children x xd) as (xd1 & Hxd1 & F); [by eapply split_ne|done|].
    rewrite Hxd' in Hxd1. injection Hxd1 as <-. rewrite F in Hm.
    destruct (decide (x = q ∧ k' = k)) as [[-> ->]|Hne'].
    { rewrite decide_True in Hm by done. rewrite lookup_insert_eq in Hm. injection Hm as <-.
      split_and!; [done|unfold P'; rewrite lookup_insert_eq; eauto|]. exists sd. split_and!; [done..|].
      rewrite Hse. destruct (edge_keys nd), i; simpl in *; [lia..|done]. }
    assert (Hm' : children xd !! k' = Some m).
    { case_decide as Hxq; [|done]. rewrite lookup_insert_ne in Hm by naive_solver. done. }
    destruct (ri_child _ _ HI x xp xd k' m Hx Hxd Hm') as (? & [mp Hmp] & md & Hmd & Hmpar & Hmhd).
    assert (Hmn : m ≠ n).
    { intros ->. simplify_eq. naive_solver. }
    destruct (split_forth m md) as (md' & ? & E1 & E2 & E3); [done|by eapply split_ne|done|].
    split_and!; [done|rewrite (split_old _ _ Hmp); eauto|]. exists md'. split_and!; congruence.
  - pose proof (node_ids_NoDup _ _ _ _ _ HI Hn Hnd) as Hdup.
    assert (Hd1 : NoDup (take i (block_ids nd)) ∧ NoDup (drop i (block_ids nd)) ∧
      ∀ b, b ∈ take i (block_ids nd) → b ∈ drop i (block_ids nd) → False).
    { rewrite <-(take_drop i (block_ids nd)) in Hdup. apply NoDup_app in Hdup as (?&?&?). split_and!; eauto. }
    destruct Hd1 as (Hd1 & Hd2 & Hd3).
    intros b x j. rewrite Hlocs, Hnb, Hsb, !lookup_set_locations by done. split.
    + intros [(j' & Hj & [= -> ->])|[Hb [(j' & Hj & [= -> ->])|[Hb' Hl]]]].
      * exists (qp ++ edge_keys nd), nd'. split_and!; [by apply split_old|done|by rewrite Hnb].
      * exists (qp ++ take i (edge_keys nd)), sd. split_and!; [unfold P'; by rewrite lookup_insert_eq|done|by rewrite Hsb].
      * apply (ri_loc _ _ HI) in Hl as (xp & xd & Hx & Hxd & Hj).
        assert (x ≠ n).
        { intros ->. simplify_eq. apply list_elem_of_lookup_2 in Hj.
          rewrite <-(take_drop i (block_ids nd)) in Hj. set_solver. }
        destruct (split_forth x xd) as (xd' & ? & E1 & E2 & E3); [done|by eapply split_ne|done|].
        exists xp, xd'. split_and!; [by apply split_old|done|congruence].
    + intros (xp & xd' & Hx & Hxd' & Hj). unfold P' in Hx. apply lookup_insert_Some in Hx as [[<- <-]|[Hxs Hx]].
      { rewrite Hs' in Hxd'. injection Hxd' as <-. rewrite Hsb in Hj. right. split.
        - intros Hb. eapply Hd3; [by eapply list_elem_of_lookup_2|done].
        - left. by exists j. }
      destruct (decide (x = n)) as [->|Hxn].
      { rewrite Hn' in Hxd'. injection Hxd' as <-. rewrite Hnb in Hj. left. by exists j. }
      destruct (split_back x xd') as (xd & Hxd & E1 & E2 & E3); [done..|]. rewrite E2 in Hj.
      assert (Hl : block_locations c !! b = Some (x, j)) by (apply (ri_loc _ _ HI); eauto).
      assert (Hb : b ∉ block_ids nd).
      { intros [j' Hj']%list_elem_of_lookup_1.
        assert (Hl' : block_locations c !! b = Some (n, j')) by (apply (ri_loc _ _ HI); eauto). congruence. }
      rewrite <-(take_drop i (block_ids nd)) in Hb. right. split; [set_solver|]. right. split; [set_solver|done].
  - intros x [xd' Hxd']. rewrite Hnext. destruct (decide (x = s)) as [->|Hx]; [lia|].
    enough (x < s) by lia. destruct (decide (x = n)) as [->|Hxn]; [apply (ri_next _ _ HI); eauto|].
    destruct (split_back x xd') as (xd & Hxd & _); [done..|]. apply (ri_next _ _ HI). eauto.
Qed.

Lemma split_mapped ks b : mapped P' c' ks b ↔ mapped P c ks b.
Proof.
  pose proof split_nq as Hnq. pose proof (split_ne _ _ Hn) as Hns.
  assert (Hrs : root ≠ s) by (by eapply split_ne, (ri_root _ _ HI)).
  split.
  - intros (x & xq & xd' & (Hxr & xd1 & Hxd' & Hx & Hl & Hs) & Hxd1 & Hb).
    rewrite Hxd1 in Hxd'. injection Hxd' as <-. rename Hxd1 into Hxd'.
    unfold P' in Hx. apply lookup_insert_Some in Hx as [[<- Hp]|[Hxs Hx]].
    { rewrite Hs' in Hxd'. injection Hxd' as <-. rewrite Hse in *. rewrite Hsb in *.
      apply app_inv_tail in Hp as <-. apply lookup_take_Some in Hb as [Hb _].
      exists n, qp, nd. split_and!; [|done|done]. split; [done|]. exists nd. split_and!; try done.
      etrans; [done|]. apply prefix_app, prefix_take. }
    destruct (decide (x = n)) as [->|Hxn].
    { rewrite Hn' in Hxd'. injection Hxd' as <-. rewrite Hne in *. rewrite Hnb in *.
      rewrite Hn in Hx. injection Hx as Hx. rewrite <-(take_drop i (edge_keys nd)), app_assoc in Hx at 1.
      apply app_inv_tail in Hx as <-.
      rewrite <-app_assoc, take_drop in Hs. rewrite length_app, length_take in *.
      rewrite lookup_drop in Hb.
      exists n, qp, nd. split_and!; [|done|].
      - split; [done|]. exists nd. split_and!; try done. lia.
      - rewrite <-Hb. f_equal. lia. }
    destruct (split_back x xd') as (xd & Hxd & E1 & E2 & E3); [done..|]. rewrite E1 in *. rewrite E2 in *.
    exists x, xq, xd. split_and!; [|done|done]. split; [done|]. exists xd. done.
  - intros (x & xq & xd & (Hxr & xd1 & Hxd & Hx & Hl & Hs) & Hxd1 & Hb).
    rewrite Hxd1 in Hxd. injection Hxd as <-. rename Hxd1 into Hxd.
    destruct (decide (x = n)) as [->|Hxn].
    { rewrite Hnd in Hxd. injection Hxd as <-. rewrite Hn in Hx. injection Hx as Hx.
      apply app_inv_tail in Hx as <-.
      destruct (decide (length ks - length qp <= i)) as [Hle|Hgt].
      - exists s, qp, sd. split_and!; [|done|].
        + split; [done|]. exists sd. rewrite Hse. split_and!; try done; [unfold P'; by rewrite lookup_insert_eq|].
          apply (prefix_shorter _ _ (qp ++ edge_keys nd)); [done|apply prefix_app, prefix_take|].
          rewrite length_app, length_take. lia.
        + rewrite Hsb. apply lookup_take_Some. split; [done|lia].
      - exists n, (qp ++ take i (edge_keys nd)), nd'. split_and!; [|done|].
        + split; [done|]. exists nd'. rewrite Hne, <-app_assoc, take_drop. split_and!; try done.
          * by apply split_old.
          * rewrite length_app, length_take. lia.
        + rewrite Hnb, lookup_drop, <-Hb. f_equal. rewrite length_app, length_take. lia. }
    destruct (split_forth x xd) as (xd' & Hxd' & E1 & E2 & E3); [done|by eapply split_ne|done|].
    exists x, xq, xd'. split_and!; [|done|congruence]. split; [done|]. exists xd'. rewrite E1.
    split_and!; try done. by apply split_old.
Qed.
End split_edge.

(** Prefixes of a mapped prefix are mapped. *)
Lemma covers_prefix P c n qp ks ks' :
  radix_inv P c → covers P c n qp ks → ks' ≠ [] → ks' `prefix_of` ks →
  ∃ n' qp', covers P c n' qp' ks'.
Proof.
  intros HI. remember (length ks) as len eqn:El. revert ks El n qp.
  induction (lt_wf len) as [len _ IH]. intros ks -> n qp Hc Hne Hpre.
  destruct (covers_inv HI _ _ _ Hc) as (nd & q & qd & k & Hnd & Hn & Hr & Hq & Hqd & _ & _ & _ & _ & _ & Hqp & Hl & Hs).
  destruct (decide (length qp < length ks')) as [Hlt|Hge].
  - exists n, qp. split; [done|]. exists nd. split_and!; try done. by etrans.
  - assert (Hpre' : ks' `prefix_of` qp) by (apply (prefix_shorter _ _ ks); [done|done|lia]).
    destruct (covers_self HI q qp Hq) as (?&?&qp'&?&?&_&_&_&_&_&_&_&_&C).
    { eapply (path_root HI); [done|]. intros ->. by apply prefix_nil_inv in Hpre'. }
    by eapply (IH (length qp)).
Qed.

Section insert_spec.
Context (m : gmap (list BlockKey) nat).

(** The prefixes of a path, each with its block. *)
Definition path_map {A} (keys : list BlockKey) (ids : list A) : gmap (list BlockKey) A :=
  list_to_map (imap (λ i b, (take (S i) keys, b)) ids).

(** What [insert] needs of its blocks: a block it would place is not indexed. *)
Definition fresh_path (keys : list BlockKey) (ids : list nat) : Prop :=
  ∀ i b, ids !! i = Some b → m !! take (S i) keys = None → ∀ ks, m !! ks ≠ Some b.

Lemma lookup_path_map {A} keys (ids : list A) ks b :
  length keys = length ids →
  path_map keys ids !! ks = Some b ↔ ∃ i, ids !! i = Some b ∧ ks = take (S i) keys.
Proof.
  intros Hlen. unfold path_map. rewrite <-elem_of_list_to_map.
  - rewrite elem_of_lookup_imap. naive_solver.
  - rewrite fmap_imap. apply NoDup_alt. intros i j x Hi Hj.
    apply list_lookup_imap_Some in Hi as (b1 & Hb1 & ->). apply list_lookup_imap_Some in Hj as (b2 & Hb2 & E).
    cbn in E. apply lookup_lt_Some in Hb1, Hb2. apply (f_equal length) in E. rewrite !length_take in E. lia.
Qed.

Context (P : paths) (c : RadixPrefixCache) (HI : radix_inv P c)
  (Hm : ∀ ks b, m !! ks = Some b ↔ mapped P c ks b).

Lemma unmapped_unlocated b : (∀ ks, m !! ks ≠ Some b) → block_locations c !! b = None.
Proof.
  intros H. destruct (block_locations c !! b) as [[n i]|] eqn:El; [|done].
  apply (ri_loc _ _ HI) in El as (p & nd & Hn & Hnd & Hi). exfalso.
  destruct (decide (n = root)) as [->|Hr].
  { destruct (ri_rootnd _ _ HI) as (rd & ? & _ & E & _). simplify_eq. by rewrite E in Hi. }
  destruct (ri_node _ _ HI n p Hn Hr) as (nd' & q & qp & qd & k & ? & ? & ? & ? & -> & ? & ? & ?).
  simplify_eq. eapply H, Hm, edge_mapped; done.
Qed.
Lemma mapped_prefix ks ks' b :
  m !! ks = Some b → ks' ≠ [] → ks' `prefix_of` ks → is_Some (m !! ks').
Proof.
  intros (n & qp & nd & Hc & _)%Hm Hne Hpre.
  destruct (covers_prefix _ _ _ _ _ _ HI Hc Hne Hpre) as (n' & qp' & Hc').
  destruct (covers_mapped HI _ _ _ Hc') as [b' Hb']. apply Hm in Hb'. eauto.
Qed.

Lemma hang_leaf n nd keys ids pos key :
  length keys = length ids → NoDup ids → fresh_path keys ids →
  P !! n = Some (take pos keys) → heap c !! n = Some nd →
  keys !! pos = Some key → children nd !! key = None →
  (∀ i, i < pos → is_Some (m !! take (S i) keys)) →
  wp (child ← new_node (mkRadixNode (drop pos keys) (drop pos ids) (Some n) ∅ 0);
      update_node n (λ nd, nd <| children := <[key := child]> (children nd) |>);;
      index_node child;;
      touch child)
    (λ _ c', represents (m ∪ path_map keys ids) c') noexn c.
Proof.
  intros Hlen Hdup Hfresh Hn Hnd Hkey Hch Hbefore.
  pose proof (drop_lookup_cons _ _ _ Hkey) as Hdrop. apply lookup_lt_Some in Hkey as Hlt.
  assert (Hun : ∀ i, pos ≤ i → i < length keys → m !! take (S i) keys = None).
  { intros i H1 H2. apply eq_None_not_Some. intros [b Hb].
    destruct (mapped_prefix _ (take (S pos) keys) _ Hb) as [b' Hb'].
    - destruct keys; simpl in *; [lia|done].
    - rewrite <-(take_take keys (S pos) (S i)) || idtac.
      exists (drop (S pos) (take (S i) keys)).
      rewrite <-(take_drop (S pos) (take (S i) keys)) at 1. f_equal. rewrite take_take. f_equal. lia.
    - apply Hm in Hb' as (?&?&?&Hc&_). rewrite (take_S_r _ _ _ Hkey) in Hc.
      destruct (child_covers HI _ _ _ key Hn Hnd) as [(?&?&_)|[_ Hno]]; [congruence|]. by eapply Hno. }
  set (leaf := mkRadixNode (drop pos keys) (drop pos ids) (Some n) ∅ 0).
  assert (Hn' : n ≠ next_ref c).
  { intros ->. by rewrite (next_not_live _ _ HI) in Hn. }
  unfold new_node, index_node, update_node. wp_steps. cbn.
  eapply wp_deref.
  { cbn. rewrite lookup_alter_ne by done. apply lookup_insert_eq. }
  wp_steps. apply wp_touch. intros c' HS _. rewrite <-HS. clear HS c'.
  match goal with |- represents _ ?st => set (c' := st) end.
  assert (HA : radix_inv (<[next_ref c := take pos keys ++ edge_keys leaf]> P) c' ∧
    ∀ ks b, mapped (<[next_ref c := take pos keys ++ edge_keys leaf]> P) c' ks b ↔
      mapped P c ks b ∨ ∃ i, block_ids leaf !! i = Some b ∧ ks = take pos keys ++ take (S i) (edge_keys leaf)).
  { assert (Hh : heap c' !! n = Some (nd <| children := <[key := next_ref c]> (children nd) |>)).
    { cbn. rewrite lookup_alter_eq, lookup_insert_ne by done. by rewrite Hnd. }
    assert (Hw : heap c' !! next_ref c = Some leaf).
    { cbn. rewrite lookup_alter_ne by done. apply lookup_insert_eq. }
    assert (Ho : ∀ x, x ≠ n → x ≠ next_ref c → heap c' !! x = heap c !! x).
    { intros x ??. cbn. by rewrite lookup_alter_ne, lookup_insert_ne by done. }
    assert (Hd : NoDup (block_ids leaf)).
    { cbn. rewrite <-(take_drop pos ids) in Hdup. by apply NoDup_app in Hdup as (?&?&?). }
    assert (Hf : ∀ b, b ∈ block_ids leaf → block_locations c !! b = None).
    { intros b [i Hi]%list_elem_of_lookup_1. cbn in Hi. rewrite lookup_drop in Hi.
      apply unmapped_unlocated. eapply Hfresh; [done|]. apply Hun; [lia|].
      apply lookup_lt_Some in Hi. lia. }
    assert (Hlen' : length (edge_keys leaf) = length (block_ids leaf)).
    { cbn. rewrite !length_drop. lia. }
    assert (Hhd : head (edge_keys leaf) = Some key) by (cbn; by rewrite Hdrop).
    split; [|intros ks b]; [eapply add_leaf_inv|eapply add_leaf_mapped]; done. }
  destruct HA as [HA1 HA2]. exists (<[next_ref c := take pos keys ++ edge_keys leaf]> P).
  split; [done|]. intros ks b. rewrite HA2, <-Hm, lookup_union_Some_raw, lookup_path_map by done.
  split.
  - intros [?|[Hnone (i & Hi & ->)]]; [by left|]. right.
    destruct (decide (i < pos)) as [Hlt'|Hge].
    { destruct (Hbefore i Hlt'). congruence. }
    exists (i - pos). cbn. rewrite lookup_drop. split; [rewrite <-Hi; f_equal; lia|].
    rewrite take_take_drop. f_equal. lia.
  - intros [?|(i & Hi & ->)]; [by left|]. right. cbn in Hi. rewrite lookup_drop in Hi.
    cbn. rewrite take_take_drop. replace (pos + S i) with (S (pos + i)) by lia.
    split; [|eauto]. apply Hun; [lia|]. apply lookup_lt_Some in Hi. lia.
Qed.

(** When every prefix is mapped already, nothing is missing. *)
Lemma path_map_known keys ids :
  length keys = length ids → (∀ i, i < length keys → is_Some (m !! take (S i) keys)) →
  m ∪ path_map keys ids = m.
Proof.
  intros Hlen H. apply map_eq. intros ks. apply option_eq. intros b.
  rewrite lookup_union_Some_raw, lookup_path_map by done. split; [|by left].
  intros [?|[Hnone (i & Hi & ->)]]; [done|]. apply lookup_lt_Some in Hi.
  destruct (H i); [lia|]. congruence.
Qed.
End insert_spec.
