(* ===== verification/RadixOps.v ===== *)
(** * The prefix index refines a finite map: [match] and [insert]

    The two read and write operations of [RadixCache.v] against the abstract
    view of [RadixSpec.v]. *)
From S2P Require Import Prelude RadixCache RadixSpec.
Set Default Goal Selector "!".

Lemma match_prefix_spec m c keys :
  represents m c →
  ∃ c', match_prefix keys c = (inr (longest_match m keys), c') ∧ represents m c' ∧
    counters c' = (S (lookups c), queried_blocks c + length keys,
                   hit_blocks c + length (longest_match m keys)).
Proof.
  intros (P & HI & Hm).
  set (c1 := c <| lookups := S (lookups c) |> <| queried_blocks := queried_blocks c + length keys |>).
  assert (HS : same_shape c c1) by (by split_and!; [intros n; reflexivity|..]).
  destruct (wp_run (match_loop (S (length keys)) keys root 0 [])
    (λ r c', r = longest_match m keys ∧ same_shape c1 c' ∧ counters c' = counters c1) c1)
    as (r & c2 & Hrun & -> & HS2 & HC).
  { apply (match_loop_spec P m keys); try lia.
    - by rewrite <-HS.
    - intros ks b. by rewrite <-HS.
    - apply (ri_root _ _ HI). }
  unfold match_prefix. unfold mbind, M_bind, modifyS. cbn -[match_loop].
  fold c1. rewrite Hrun. eexists. split; [reflexivity|].
  assert (HS3 : same_shape c c2) by (by etrans). split.
  - assert (HS4 : same_shape c2 (c2 <| hit_blocks := hit_blocks c2 + length (longest_match m keys) |>)).
    { by split_and!; [intros n; reflexivity|..]. }
    rewrite <-HS4, <-HS3. by exists P.
  - unfold counters in *. cbn in *. congruence.
Qed.

(** The child reached by the key at [pos], and the common prefix there. *)
Lemma descend P c node nd keys pos key child :
  radix_inv P c → P !! node = Some (take pos keys) → heap c !! node = Some nd →
  keys !! pos = Some key → children nd !! key = Some child →
  ∃ cd, heap c !! child = Some cd ∧ P !! child = Some (take pos keys ++ edge_keys cd) ∧
    child ≠ root ∧ parent cd = Some node ∧ head (edge_keys cd) = Some key ∧
    length (edge_keys cd) = length (block_ids cd) ∧
    let common := common_prefix_length (edge_keys cd) (drop pos keys) in
    0 < common ∧ common <= length (edge_keys cd) ∧ pos + common <= length keys ∧
    take common (edge_keys cd) = take common (drop pos keys) ∧
    (∀ i, i < common → ∃ b, mapped P c (take (S (pos + i)) keys) b) .
Proof.
  intros HI Hnode Hnd Ekey Hch. apply lookup_lt_Some in Ekey as Hlt.
  destruct (ri_child _ _ HI _ _ _ _ _ Hnode Hnd Hch) as (Hr & [mp Hmp] & cd & Hcd & Hpar & Hhd).
  destruct (ri_node _ _ HI _ _ Hmp Hr) as (md' & q & qp & qd & k' & ? & Hq & ? & ? & -> & ? & ? & Hlen).
  simplify_eq.
  exists cd. split_and!; try done. intros common.
  pose proof (lcp_le (edge_keys cd) (drop pos keys)) as [Hle1 Hle2]. fold common in Hle1, Hle2.
  rewrite length_drop in Hle2.
  assert (Htk : take common (edge_keys cd) = take common (drop pos keys)) by apply lcp_take.
  split_and!; try done; [|lia|].
  - apply (lcp_pos _ _ key); [done|]. by rewrite (drop_lookup_cons _ _ _ Ekey).
  - intros i Hi. apply (covers_mapped HI child (take pos keys)). split; [done|].
    exists cd. split_and!; try done.
    + rewrite !length_take. lia.
    + rewrite <-Nat.add_succ_r, <-take_take_drop. apply prefix_app.
      rewrite <-(Nat.min_l (S i) common) by lia. rewrite <-take_take, <-Htk, take_take.
      apply prefix_take.
Qed.

Lemma wp_update n f (Q : () → RadixPrefixCache → Prop) E c :
  Q tt (c <| heap := alter f n (heap c) |>) → wp (update_node n f) Q E c.
Proof. done. Qed.
Lemma wp_new_node nd (Q : node_ref → RadixPrefixCache → Prop) E c :
  Q (next_ref c) (c <| heap := <[next_ref c := nd]> (heap c) |> <| next_ref := S (next_ref c) |>) →
  wp (new_node nd) Q E c.
Proof. done. Qed.
Ltac radix_step :=
  lazymatch goal with
  | |- wp (update_node _ _) _ _ _ => apply wp_update
  | |- wp (new_node _) _ _ _ => apply wp_new_node
  | _ => wp_step
  end.
Ltac radix_steps := repeat (radix_step; cbn [next_ref of_option]).

(** Splitting an edge, then hanging the rest of the path below the new node. *)
Lemma split_hang m keys ids P c node nd child cd pos common key k2 key' :
  length keys = length ids → NoDup ids → fresh_path m keys ids →
  radix_inv P c → (∀ ks b, m !! ks = Some b ↔ mapped P c ks b) →
  P !! node = Some (take pos keys) → heap c !! node = Some nd →
  children nd !! key = Some child → heap c !! child = Some cd →
  P !! child = Some (take pos keys ++ edge_keys cd) → child ≠ root →
  parent cd = Some node → head (edge_keys cd) = Some key →
  length (edge_keys cd) = length (block_ids cd) →
  0 < common < length (edge_keys cd) →
  take common (edge_keys cd) = take common (drop pos keys) →
  (∀ i, i < pos + common → is_Some (m !! take (S i) keys)) →
  edge_keys cd !! common = Some k2 → keys !! (pos + common) = Some key' → k2 ≠ key' →
  wp (split ← new_node (mkRadixNode (take common (edge_keys cd)) (take common (block_ids cd))
                          (Some node) ∅ 0);
      split_key ← of_option (IndexError "tuple index out of range")
                    (head (take common (edge_keys cd)));
      update_node node (λ nd, nd <| children := <[split_key := split]> (children nd) |>);;
      update_node child (λ cd, cd <| edge_keys := drop common (edge_keys cd) |>);;
      update_node child (λ cd, cd <| block_ids := drop common (block_ids cd) |>);;
      update_node child (λ cd, cd <| parent := Some split |>);;
      cd ← deref child;
      child_key ← of_option (IndexError "tuple index out of range") (head (edge_keys cd));
      update_node split (λ sd, sd <| children := <[child_key := child]> (children sd) |>);;
      index_node split;;
      index_node child;;
      touch split;;
      match keys !! (pos + common) with
      | None => mret tt
      | Some key =>
          new_child ← new_node (mkRadixNode (drop (pos + common) keys) (drop (pos + common) ids)
                                  (Some split) ∅ 0);
          update_node split (λ sd, sd <| children := <[key := new_child]> (children sd) |>);;
          index_node new_child;;
          touch new_child
      end)
    (λ _ c', represents (m ∪ path_map keys ids) c') noexn c.
Proof.
  intros Hlen Hdup Hfresh HI Hm Hnode Hnd Hch Hcd Hcp Hcr Hpar Hhd Hlen' Hi Htk Hbef Hk2 Hkey' Hdiff.
  rewrite Hkey'.
  assert (Hn1 : node ≠ next_ref c) by (intros ->; by rewrite (next_not_live _ _ HI) in Hnode).
  assert (Hn2 : child ≠ next_ref c) by (intros ->; by rewrite (next_not_live _ _ HI) in Hcp).
  assert (Hn3 : child ≠ node).
  { intros ->. rewrite Hnode in Hcp. injection Hcp as E. apply (f_equal length) in E.
    rewrite length_app in E. lia. }
  assert (Hhd1 : head (take common (edge_keys cd)) = Some key).
  { destruct (edge_keys cd), common; simpl in *; try done; lia. }
  assert (Hhd2 : head (drop common (edge_keys cd)) = Some k2) by by rewrite (drop_lookup_cons _ _ _ Hk2).
  set (sd := mkRadixNode (take common (edge_keys cd)) (take common (block_ids cd)) (Some node) {[k2 := child]} 0).
  set (cd' := cd <| edge_keys := drop common (edge_keys cd) |> <| block_ids := drop common (block_ids cd) |>
                 <| parent := Some (next_ref c) |>).
  set (h := <[next_ref c := sd]> (<[child := cd']> (<[node := nd <| children := <[key := next_ref c]> (children nd) |>]> (heap c)))).
  set (c1 := c <| heap := h |> <| next_ref := S (next_ref c) |> <| block_locations :=
       set_locations (locate_from child 0 (block_ids cd'))
         (set_locations (locate_from (next_ref c) 0 (block_ids sd)) (block_locations c)) |>).
  assert (Hh1 : heap c1 !! next_ref c = Some sd) by apply lookup_insert_eq.
  assert (Hh2 : heap c1 !! child = Some cd').
  { cbn. unfold h. rewrite lookup_insert_ne by done. apply lookup_insert_eq. }
  assert (Hh3 : heap c1 !! node = Some (nd <| children := <[key := next_ref c]> (children nd) |>)).
  { cbn. unfold h. rewrite !lookup_insert_ne by done. apply lookup_insert_eq. }
  assert (Hh4 : ∀ x, x ≠ child → x ≠ node → x ≠ next_ref c → heap c1 !! x = heap c !! x).
  { intros x ???. cbn. unfold h. by rewrite !lookup_insert_ne by done. }
  assert (HI1 : radix_inv (<[next_ref c := take pos keys ++ take common (edge_keys cd)]> P) c1)
    by (eapply split_inv; done).
  assert (Hm1 : ∀ ks b, mapped (<[next_ref c := take pos keys ++ take common (edge_keys cd)]> P) c1 ks b ↔
    mapped P c ks b) by (intros; eapply split_mapped; done).
  unfold index_node. rewrite Hhd1. radix_steps. cbn [of_option]. radix_steps.
  eapply wp_deref; [cbn; rewrite !lookup_alter_eq, lookup_alter_ne, lookup_insert_ne, Hcd by done; reflexivity|].
  cbn [edge_keys setter set_edge_keys]. cbn -[touch]. rewrite Hhd2. radix_steps. cbn [of_option]. radix_steps.
  eapply wp_deref; [cbn; rewrite lookup_alter_eq, !lookup_alter_ne, lookup_insert_eq by done; reflexivity|].
  radix_steps.
  eapply wp_deref; [cbn; rewrite lookup_alter_ne, !lookup_alter_eq, lookup_alter_ne, lookup_insert_ne, Hcd by done; reflexivity|].
  radix_steps. apply wp_touch. intros c2 HS _.
  assert (HS1 : same_shape c1 c2).
  { rewrite <-HS. split_and!; [|done|done]. intros x. apply reflexive_eq. f_equal. cbn. unfold h.
    apply map_eq. intros y. rewrite !lookup_alter, !lookup_insert. rewrite ?lookup_alter, ?lookup_insert.
    repeat case_decide; simplify_eq; rewrite ?Hcd, ?Hnd; done. }
  destruct (same_shape_lookup _ _ _ _ HS1 Hh1) as (sd2 & Hsd2 & _ & _ & _ & Hsc).
  eapply (hang_leaf m (<[next_ref c := take pos keys ++ take common (edge_keys cd)]> P));
    [by rewrite <-HS1|intros ks b; by rewrite <-HS1, Hm1|done..| |exact Hsd2|done| |done].
  - by rewrite lookup_insert_eq, Htk, take_take_drop.
  - rewrite <-Hsc. cbn. by apply lookup_singleton_ne.
Qed.

Lemma lcp_full_or_differ (l r : list BlockKey) :
  common_prefix_length l r < length l → common_prefix_length l r < length r →
  ∃ x y, l !! common_prefix_length l r = Some x ∧ r !! common_prefix_length l r = Some y ∧ x ≠ y.
Proof.
  intros [x Hx]%lookup_lt_is_Some_2 [y Hy]%lookup_lt_is_Some_2.
  exists x, y. split_and!; try done. by eapply lcp_differ.
Qed.

Lemma insert_loop_spec m keys ids :
  length keys = length ids → NoDup ids → fresh_path m keys ids →
  ∀ fuel P c node pos,
  radix_inv P c → (∀ ks b, m !! ks = Some b ↔ mapped P c ks b) →
  P !! node = Some (take pos keys) → pos <= length keys → length keys - pos < fuel →
  (∀ i, i < pos → is_Some (m !! take (S i) keys)) →
  wp (insert_loop fuel keys ids node pos)
    (λ _ c', represents (m ∪ path_map keys ids) c') noexn c.
Proof.
  intros Hlen Hdup Hfresh. induction fuel as [|fuel IH]; intros P c node pos HI Hm Hnode Hpos Hfuel Hbef; [lia|].
  simpl. destruct (keys !! pos) as [key|] eqn:Ekey.
  2:{ wp_step. apply lookup_ge_None in Ekey. rewrite path_map_known; [by exists P|done|].
      intros i Hi. apply Hbef. lia. }
  destruct (live_heap HI _ _ Hnode) as [nd Hnd].
  wp_step. eapply wp_deref; [done|].
  destruct (children nd !! key) as [child|] eqn:Hch; [|by eapply hang_leaf].
  destruct (descend _ _ _ _ _ _ _ _ HI Hnode Hnd Ekey Hch)
    as (cd & Hcd & Hcp & Hcr & Hpar & Hhd & Hlen' & Hc0 & Hle1 & Hle2 & Htk & Hmapd).
  wp_step. eapply wp_deref; [done|]. cbn beta zeta.
  set (common := common_prefix_length (edge_keys cd) (drop pos keys)) in *.
  assert (Hbef' : ∀ i, i < pos + common → is_Some (m !! take (S i) keys)).
  { intros i Hi. destruct (decide (i < pos)); [by apply Hbef|].
    destruct (Hmapd (i - pos)) as [b Hb]; [lia|]. replace (pos + (i - pos)) with i in Hb by lia.
    apply Hm in Hb. eauto. }
  destruct (common =? length (edge_keys cd)) eqn:Efull; breflect.
  { wp_step. apply wp_touch. intros c1 HS1 _.
    apply (IH P c1 child (pos + common)); try done; try lia.
    - by rewrite <-HS1.
    - intros ks b. by rewrite <-HS1.
    - rewrite Hcp, <-take_take_drop, <-Htk. by rewrite (take_ge (edge_keys cd)) by lia. }
  destruct (pos + common =? length keys) eqn:Eend; breflect.
  { apply wp_touch. intros c1 HS1 _. rewrite <-HS1, path_map_known; [by exists P|done|].
    intros i Hi. apply Hbef'. lia. }
  destruct (lcp_full_or_differ (edge_keys cd) (drop pos keys)) as (k2 & key' & Hk2 & Hkey' & Hdiff);
    [fold common; lia|rewrite length_drop; fold common; lia|]. fold common in Hk2, Hkey'.
  rewrite lookup_drop in Hkey'.
  apply (split_hang m keys ids P c node nd child cd pos common key k2 key'); try done; lia.
Qed.

Lemma size_list_to_set_le (ids : list nat) : size (list_to_set ids : gset nat) <= length ids.
Proof.
  induction ids as [|b ids IH]; simpl; [done|].
  rewrite size_union_alt, size_singleton.
  assert (size (list_to_set ids ∖ {[b]} : gset nat) <= size (list_to_set ids : gset nat)) by
    (apply subseteq_size; set_solver). lia.
Qed.
Lemma distinct_ids (ids : list nat) :
  size (list_to_set ids : gset nat) = length ids ↔ NoDup ids.
Proof.
  split; [|intros; by rewrite size_list_to_set].
  induction ids as [|b ids IH]; simpl; [constructor|]. intros Hs.
  destruct (decide (b ∈ ids)) as [Hb|Hb].
  - exfalso. replace ({[b]} ∪ list_to_set ids : gset nat) with (list_to_set ids : gset nat) in Hs by set_solver.
    pose proof (size_list_to_set_le ids). lia.
  - rewrite size_union, size_singleton in Hs by set_solver. constructor; [done|]. apply IH. lia.
Qed.

Lemma insert_prefix_spec m c keys ids :
  represents m c → length keys = length ids → NoDup ids → fresh_path m keys ids →
  ∃ c', insert_prefix keys ids c = (inr tt, c') ∧ represents (m ∪ path_map keys ids) c'.
Proof.
  intros (P & HI & Hm) Hlen Hdup Hfresh.
  enough (wp (insert_prefix keys ids) (λ _ c', represents (m ∪ path_map keys ids) c') noexn c) as Hwp.
  { destruct (wp_run _ _ _ Hwp) as ([] & c' & ? & ?). eauto. }
  unfold insert_prefix. wp_steps. rewrite Hlen, Nat.eqb_refl. cbn [negb raise_if].
  destruct keys as [|k keys].
  { destruct ids; [|done]. unfold raise_if. wp_steps. exists P. split; [done|]. intros. rewrite <-Hm.
    unfold path_map. simpl. by rewrite map_union_empty. }
  rewrite (proj2 (distinct_ids ids) Hdup), Nat.eqb_refl. cbn [negb]. unfold raise_if. wp_steps.
  eapply (insert_loop_spec m (k :: keys) ids Hlen Hdup Hfresh _ P); try done; try lia.
  apply (ri_root _ _ HI).
Qed.

(** The two rejected calls leave the index as it was. *)
Theorem insert_prefix_rejects c keys ids :
  (length keys ≠ length ids →
   insert_prefix keys ids c =
     (inl (ValueError "keys and block_ids must have the same length"), c)) ∧
  (length keys = length ids → ¬ NoDup ids →
   insert_prefix keys ids c =
     (inl (ValueError "a radix path cannot contain duplicate block ids"), c)).
Proof.
  unfold insert_prefix. split; intros Hl; [by apply Nat.eqb_neq in Hl as ->|].
  intros Hdup. rewrite Hl, Nat.eqb_refl. destruct keys; [by destruct ids; [destruct Hdup; constructor|]|].
  rewrite <-distinct_ids in Hdup. apply Nat.eqb_neq in Hdup. cbn [negb raise_if].
  unfold mbind, M_bind, mret, M_ret. by rewrite Hdup.
Qed.
