(* ===== verification/RadixRemove.v ===== *)
(** * The prefix index refines a finite map: [remove_block]

    Removing a block drops the prefixes that extend the block's prefix, and no
    other, whatever merging of nodes follows. *)
From S2P Require Import Prelude RadixCache RadixSpec RadixOps.
Set Default Goal Selector "!".

(** ** Subtrees *)
Lemma child_path P c n p nd k m :
  radix_inv P c → P !! n = Some p → heap c !! n = Some nd → children nd !! k = Some m →
  ∃ md, heap c !! m = Some md ∧ P !! m = Some (p ++ edge_keys md) ∧ m ≠ root ∧
    parent md = Some n ∧ head (edge_keys md) = Some k ∧ length (edge_keys md) = length (block_ids md).
Proof.
  intros HI Hn Hnd Hk. destruct (ri_child _ _ HI _ _ _ _ _ Hn Hnd Hk) as (Hr & [mp Hmp] & md & Hmd & ? & ?).
  destruct (ri_node _ _ HI _ _ Hmp Hr) as (md' & q & qp & qd & k' & ? & ? & ? & ? & -> & ? & ? & ?).
  simplify_eq. exists md. done.
Qed.

(** A live node below [n] is [n] or below one of its children. *)
Lemma subtree_step P c n p nd x xp :
  radix_inv P c → P !! n = Some p → heap c !! n = Some nd → P !! x = Some xp → p `prefix_of` xp →
  x = n ∨ ∃ k m mp, children nd !! k = Some m ∧ P !! m = Some mp ∧ mp `prefix_of` xp.
Proof.
  intros HI Hn Hnd. remember (length xp) as len eqn:El. revert x xp El.
  induction (lt_wf len) as [len _ IH]. intros x xp -> Hx Hp.
  destruct (decide (x = n)) as [|Hxn]; [by left|]. right.
  assert (Hxr : x ≠ root).
  { intros ->. rewrite (ri_root _ _ HI) in Hx. injection Hx as <-. apply prefix_nil_inv in Hp as ->.
    apply Hxn. symmetry. by apply (path_nil HI). }
  destruct (covers_self HI _ _ Hx Hxr) as (xd & q & qp & qd & k & Hxd & Hq & Hqd & _ & -> & Hhd & Hck & _ & _).
  destruct (decide (length p <= length qp)) as [Hle|Hgt].
  - assert (Hpq : p `prefix_of` qp).
    { apply (prefix_shorter _ _ (qp ++ edge_keys xd)); [done|by eexists|done]. }
    destruct (IH (length qp)) with (x := q) (xp := qp) as [->|(k' & m & mp & ? & ? & ?)]; try done.
    + rewrite length_app. destruct (edge_keys xd); [done|simpl; lia].
    + simplify_eq. exists k, x, (p ++ edge_keys xd). done.
    + exists k', m, mp. split_and!; [done..|]. etrans; [done|]. by eexists.
  - destruct (covers_self HI _ _ Hn) as (?&?&?&?&?&_&_&_&_&_&_&_&_&C).
    { eapply (path_root HI); [done|]. intros ->. simpl in *. lia. }
    exfalso. apply Hxn. eapply (covers_unique HI p); [|done]. split; [done|]. exists xd. split_and!; try done. lia.
Qed.

(** [b] is on the edge of a live node at or below path [p]. *)
Definition below (P : paths) (c : RadixPrefixCache) (p : list BlockKey) (b : nat) : Prop :=
  ∃ x xp xd, P !! x = Some xp ∧ p `prefix_of` xp ∧ heap c !! x = Some xd ∧ b ∈ block_ids xd.

Lemma below_split P c n p nd b :
  radix_inv P c → P !! n = Some p → heap c !! n = Some nd →
  below P c p b ↔
  b ∈ block_ids nd ∨ ∃ k m mp, children nd !! k = Some m ∧ P !! m = Some mp ∧ below P c mp b.
Proof.
  intros HI Hn Hnd. split.
  - intros (x & xp & xd & Hx & Hp & Hxd & Hb).
    destruct (subtree_step _ _ _ _ _ _ _ HI Hn Hnd Hx Hp) as [->|(k & m & mp & ? & ? & ?)].
    + simplify_eq. by left.
    + right. exists k, m, mp. split_and!; [done..|]. by exists x, xp, xd.
  - intros [Hb|(k & m & mp & Hk & Hm & x & xp & xd & Hx & Hp & Hxd & Hb)].
    + by exists n, p, nd.
    + destruct (child_path _ _ _ _ _ _ _ HI Hn Hnd Hk) as (md & _ & Hmp & _). simplify_eq.
      exists x, xp, xd. split_and!; try done. etrans; [|done]. by eexists.
Qed.

(** Fuel for a visit of the subtree at path [p]. *)
Definition subtree_size (P : paths) (p : list BlockKey) : nat :=
  size (filter (λ e : node_ref * list BlockKey, p `prefix_of` e.2) P).

Lemma map_size_lt {A} (X Y : gmap node_ref A) n a :
  X ⊆ Y → Y !! n = Some a → X !! n = None → size X < size Y.
Proof.
  intros HXY HY HX. rewrite <-(insert_delete_id Y n a HY), map_size_insert_None by apply lookup_delete_eq.
  assert (size X <= size (delete n Y)); [|lia]. apply map_subseteq_size.
  intros i. destruct (decide (n = i)) as [->|Hi].
  - by rewrite HX, lookup_delete_eq.
  - rewrite lookup_delete_ne by done. apply HXY.
Qed.

Lemma subtree_size_child P c n p nd k m mp :
  radix_inv P c → P !! n = Some p → heap c !! n = Some nd → children nd !! k = Some m → P !! m = Some mp →
  subtree_size P mp < subtree_size P p.
Proof.
  intros HI Hn Hnd Hk Hm. destruct (child_path _ _ _ _ _ _ _ HI Hn Hnd Hk) as (md & _ & Hmp & _ & _ & Hhd & _).
  simplify_eq. apply (map_size_lt _ _ n p).
  - apply map_subseteq_spec. intros x xp [Hx Hp]%map_lookup_filter_Some. apply map_lookup_filter_Some.
    split; [done|]. simpl in *. etrans; [|done]. by eexists.
  - by apply map_lookup_filter_Some.
  - apply map_lookup_filter_None. right. intros xp Hx Hp. simplify_eq/=. apply prefix_length in Hp.
    rewrite length_app in Hp. destruct (edge_keys md); simpl in *; [done|lia].
Qed.

(** ** Forgetting locations *)
(** [c'] is [c] without the locations of the blocks in [B]. *)
Definition forgets (B : nat → Prop) (c c' : RadixPrefixCache) : Prop :=
  c' = c <| block_locations := block_locations c' |> ∧
  ∀ b l, block_locations c' !! b = Some l ↔ block_locations c !! b = Some l ∧ ¬ B b.

Lemma forgets_refl (B : nat → Prop) c : (∀ b, ¬ B b) → forgets B c c.
Proof. intros H. split; [by destruct c|]. naive_solver. Qed.
Lemma forgets_trans (B1 B2 B : nat → Prop) c1 c2 c3 :
  (∀ b, B b ↔ B1 b ∨ B2 b) → forgets B1 c1 c2 → forgets B2 c2 c3 → forgets B c1 c3.
Proof.
  intros HB [E1 H1] [E2 H2]. split.
  - rewrite E2 at 1. rewrite E1 at 1. done.
  - intros b l. rewrite H2, H1, HB. tauto.
Qed.
Lemma forgets_heap B c c' : forgets B c c' → heap c' = heap c.
Proof. intros [-> _]. done. Qed.
Lemma forgets_next B c c' : forgets B c c' → next_ref c' = next_ref c.
Proof. intros [-> _]. done. Qed.

Lemma wp_forget_ids ids c E :
  wp (forM ids (λ b, modifyS (λ c, c <| block_locations := delete b (block_locations c) |>)))
    (λ _ c', forgets (.∈ ids) c c') E c.
Proof.
  revert c. induction ids as [|b ids IH]; intros c; simpl.
  { wp_step. apply forgets_refl. set_solver. }
  wp_steps. eapply wp_mono; [apply IH| |done].
  intros [] c' HF. eapply (forgets_trans (.= b)); [|split|exact HF]; [set_solver|done|].
  intros b' l. cbn. rewrite lookup_delete_Some. naive_solver.
Qed.

(** What [drop_subtree] does below [n], for a store that agrees with [c0] there. *)
Definition drop_spec (P : paths) (c0 : RadixPrefixCache) (n : node_ref) (p : list BlockKey)
    (m : MR ()) : Prop :=
  ∀ c, (∀ x xp, P !! x = Some xp → p `prefix_of` xp → heap c !! x = heap c0 !! x) →
    wp m (λ _ c', forgets (below P c0 p) c c') noexn c.

Lemma drop_children_spec P c0 n p nd (f : node_ref → MR ()) c :
  radix_inv P c0 → P !! n = Some p → heap c0 !! n = Some nd →
  (∀ k m mp, children nd !! k = Some m → P !! m = Some mp → drop_spec P c0 m mp (f m)) →
  (∀ x xp, P !! x = Some xp → p `prefix_of` xp → x ≠ n → heap c !! x = heap c0 !! x) →
  wp (forM ((map_to_list (children nd)).*2) f)
    (λ _ c', forgets (λ b, ∃ k m mp, children nd !! k = Some m ∧ P !! m = Some mp ∧ below P c0 mp b) c c')
    noexn c.
Proof.
  intros HI Hn Hnd Hf Hagree.
  set (L := (map_to_list (children nd)).*2).
  assert (HL : ∀ m, m ∈ L ↔ ∃ k, children nd !! k = Some m).
  { intros m. unfold L. rewrite list_elem_of_fmap. split.
    - intros ([k m'] & -> & Hk). exists k. by apply elem_of_map_to_list.
    - intros [k Hk]. exists (k, m). split; [done|]. by apply elem_of_map_to_list. }
  set (Bl := λ l b, ∃ m mp, m ∈ (l : list node_ref) ∧ P !! m = Some mp ∧ below P c0 mp b).
  eapply wp_mono.
  - apply (wp_forM L f (λ l s, ∃ pre, L = pre ++ l ∧ forgets (Bl pre) c s)).
    + exists []. split; [done|]. apply forgets_refl. intros b (?&?&?&_). set_solver.
    + intros m l s (pre & HLe & HF).
      destruct (proj1 (HL m)) as [k Hk]; [rewrite HLe; set_solver|].
      destruct (child_path _ _ _ _ _ _ _ HI Hn Hnd Hk) as (md & _ & Hmp & _ & _ & Hhd & _).
      eapply wp_mono.
      * apply (Hf k m _ Hk Hmp). intros x xp Hx Hp. rewrite (forgets_heap _ _ _ HF).
        apply (Hagree x xp); [done|by etrans; [eexists|]|].
        intros ->. simplify_eq. apply prefix_length in Hp. rewrite length_app in Hp.
        destruct (edge_keys md); simpl in *; [done|lia].
      * intros [] s' HF'. exists (pre ++ [m]). rewrite <-app_assoc. split; [done|].
        eapply forgets_trans; [|exact HF|exact HF']. intros b. unfold Bl. set_solver.
      * done.
  - intros [] s (pre & HLe & [E HF]). rewrite app_nil_r in HLe. subst pre. split; [done|].
    intros b l. rewrite HF. unfold Bl. setoid_rewrite HL. naive_solver.
  - done.
Qed.

Lemma drop_subtree_spec P c0 fuel n p :
  radix_inv P c0 → P !! n = Some p → subtree_size P p <= fuel →
  drop_spec P c0 n p (drop_subtree fuel n).
Proof.
  intros HI. revert n p. induction fuel as [|fuel IH]; intros n p Hn Hfuel c Hagree.
  { exfalso. unfold subtree_size in Hfuel. apply Nat.le_0_r, map_size_empty_inv in Hfuel.
    assert (E : filter (λ e : node_ref * list BlockKey, p `prefix_of` e.2) P !! n = Some p) by
      (by apply map_lookup_filter_Some).
    by rewrite Hfuel in E. }
  simpl. destruct (live_heap HI _ _ Hn) as [nd Hnd].
  wp_step. eapply wp_deref; [by rewrite (Hagree n p)|]. wp_step. eapply wp_mono.
  - apply (drop_children_spec P c0 n p nd); try done; [|by eauto].
    intros k m mp Hk Hm. apply IH; [done|].
    pose proof (subtree_size_child _ _ _ _ _ _ _ _ HI Hn Hnd Hk Hm). lia.
  - intros [] c1 HF1. eapply wp_mono; [apply wp_forget_ids| |done].
    intros [] c2 HF2. eapply forgets_trans; [|done|done].
    intros b. rewrite (below_split _ _ _ _ _ _ HI Hn Hnd). tauto.
  - done.
Qed.

(** ** Cutting the tree at a node *)
Section prune.
Context (P : paths) (c : RadixPrefixCache) (n q : node_ref) (qp : list BlockKey) (nd : RadixNode).
Let np : list BlockKey := qp ++ edge_keys nd.
Context (HI : radix_inv P c) (Hn : P !! n = Some np) (Hr : n ≠ root) (Hnd : heap c !! n = Some nd).

(** The nodes that are neither [n] nor below it. *)
Definition kept : paths := filter (λ e : node_ref * list BlockKey, ¬ np `prefix_of` e.2) P.

Lemma lookup_kept x xp : kept !! x = Some xp ↔ P !! x = Some xp ∧ ¬ np `prefix_of` xp.
Proof. apply map_lookup_filter_Some. Qed.
Lemma kept_ne x xp : kept !! x = Some xp → x ≠ n.
Proof. intros [Hx Hp]%lookup_kept ->. rewrite Hn in Hx. injection Hx as <-. by apply Hp. Qed.
Lemma cut_path_ne : np ≠ [].
Proof. intros E. apply Hr, (path_nil HI). rewrite Hn. by f_equal. Qed.
Lemma kept_root : kept !! root = Some [].
Proof.
  apply lookup_kept. split; [apply (ri_root _ _ HI)|]. intros E%prefix_nil_inv. by destruct cut_path_ne.
Qed.
Lemma cut_self : ∃ q' k, covers P c n qp np ∧ parent nd = Some q' ∧ P !! q' = Some qp ∧
  head (edge_keys nd) = Some k ∧ length (edge_keys nd) = length (block_ids nd).
Proof.
  destruct (covers_self HI _ _ Hn Hr) as (nd' & q' & qp' & qd & k & ? & ? & ? & ? & E & ? & ? & ? & C).
  simplify_eq. apply app_inv_tail in E as <-. by exists q', k.
Qed.

(** The tree around the kept nodes is unchanged, but for the edge to [n]. *)
Lemma kept_parent x xp :
  kept !! x = Some xp → x ≠ root →
  ∃ xd r rp rd k, heap c !! x = Some xd ∧ kept !! r = Some rp ∧ heap c !! r = Some rd ∧
    parent xd = Some r ∧ xp = rp ++ edge_keys xd ∧ head (edge_keys xd) = Some k ∧
    children rd !! k = Some x ∧ length (edge_keys xd) = length (block_ids xd).
Proof.
  intros [Hx Hp]%lookup_kept Hxr.
  destruct (ri_node _ _ HI x xp Hx Hxr) as (xd & r & rp & rd & k & ? & ? & ? & ? & -> & ? & ? & ?).
  exists xd, r, rp, rd, k. split_and!; try done. apply lookup_kept. split; [done|].
  intros Hrp. apply Hp. etrans; [done|]. by eexists.
Qed.
Lemma kept_child x xp xd k m :
  kept !! x = Some xp → heap c !! x = Some xd → children xd !! k = Some m →
  (m = n ∧ xp = qp ∧ parent nd = Some x ∧ head (edge_keys nd) = Some k) ∨
  (m ≠ n ∧ m ≠ root ∧ is_Some (kept !! m) ∧
   ∃ md, heap c !! m = Some md ∧ parent md = Some x ∧ head (edge_keys md) = Some k).
Proof.
  intros [Hx Hp]%lookup_kept Hxd Hk.
  destruct (child_path _ _ _ _ _ _ _ HI Hx Hxd Hk) as (md & Hmd & Hm & Hmr & Hpar & Hhd & _).
  destruct (decide (m = n)) as [->|Hmn].
  - left. rewrite Hnd in Hmd. injection Hmd as <-. rewrite Hn in Hm. injection Hm as Hm.
    apply app_inv_tail in Hm as <-. done.
  - right. split_and!; [done..| |by exists md]. exists (xp ++ edge_keys md). apply lookup_kept. split; [done|].
    intros Hnm. destruct cut_self as (q' & k' & C & _).
    destruct (decide (length xp < length np)) as [Hl|Hl].
    + apply Hmn. eapply (covers_unique HI np); [|exact C]. split; [done|]. by exists md.
    + apply Hp. eapply prefix_shorter; [done|by eexists|lia].
Qed.

(** Where a prefix that extends a prefix of the cut node ends. *)
Lemma cover_below ks0 x rp ks :
  covers P c n qp ks0 → covers P c x rp ks → ks0 `prefix_of` ks → x = n ∨ np `prefix_of` rp.
Proof.
  intros C0. remember (length ks) as len eqn:El. revert ks x rp El.
  induction (lt_wf len) as [len _ IH]. intros ks x rp -> Hc Hp.
  destruct (covers_inv HI _ _ _ Hc) as (xd & r & rd & k & Hxd & Hx & Hxr & Hrp & Hrd & _ & _ & _ & _ & _ & Hpre & Hl & Hs).
  destruct (covers_inv HI _ _ _ C0) as (nd' & _ & _ & _ & ? & _ & _ & _ & _ & _ & _ & _ & _ & _ & _ & Hl0 & _).
  destruct (decide (length rp < length ks0)) as [Hlt|Hge].
  - left. eapply (covers_unique HI ks0); [|exact C0]. split; [done|]. exists xd. split_and!; try done. by etrans.
  - assert (Hp' : ks0 `prefix_of` rp) by (by apply (prefix_shorter _ _ ks); [| |lia]).
    destruct (covers_self HI r rp Hrp) as (rd' & ? & sp & ? & ? & ? & _ & _ & _ & E & _ & _ & _ & C1).
    { eapply (path_root HI); [done|]. intros ->. simpl in *. lia. }
    right. destruct (IH (length rp) Hl rp r sp eq_refl C1 Hp') as [->|Hsp].
    + rewrite Hn in Hrp. by injection Hrp as ->.
    + rewrite E. etrans; [done|]. by eexists.
Qed.
Lemma cover_above x rp ks xp :
  x ≠ n → covers P c x rp ks → P !! x = Some xp → np `prefix_of` xp → np `prefix_of` rp.
Proof.
  intros Hxn (Hxr & xd & Hxd & Hx & Hl & Hs) Hx' Hp. simplify_eq.
  destruct (decide (length rp < length np)) as [Hlt|Hge].
  - exfalso. apply Hxn. destruct cut_self as (_ & _ & C & _).
    eapply (covers_unique HI np); [|exact C]. split; [done|]. by exists xd.
  - eapply prefix_shorter; [done|by eexists|lia].
Qed.
(** A prefix held by a node other than [n] survives iff the node does. *)
Lemma kept_iff ks0 x rp ks xp :
  covers P c n qp ks0 → x ≠ n → covers P c x rp ks → P !! x = Some xp →
  ¬ np `prefix_of` xp ↔ ¬ ks0 `prefix_of` ks.
Proof.
  intros C0 Hxn Hc Hx. split; intros H Hp; apply H.
  - destruct (cover_below _ _ _ _ C0 Hc Hp) as [|Hp']; [done|].
    destruct (covers_inv HI _ _ _ Hc) as (xd & r & rd & k & Hxd & Hx' & _). simplify_eq.
    etrans; [done|]. by eexists.
  - etrans; [|etrans; [by eapply cover_above|]].
    + by destruct C0 as (_ & ? & ? & ? & _ & ?); simplify_eq.
    + by destruct (covers_inv HI _ _ _ Hc) as (xd & r & rd & k & Hxd & Hx' & _ & _ & _ & _ & _ & _ & _ & _ & ? & _).
Qed.
(** The locations that a cut at [n] keeps. *)
Lemma kept_loc b x i :
  block_locations c !! b = Some (x, i) ∧ ¬ below P c np b ↔
  ∃ xp xd, kept !! x = Some xp ∧ heap c !! x = Some xd ∧ block_ids xd !! i = Some b.
Proof.
  split.
  - intros [Hl Hb]. apply (ri_loc _ _ HI) in Hl as (xp & xd & Hx & Hxd & Hi).
    exists xp, xd. split_and!; try done. apply lookup_kept. split; [done|]. intros Hp. apply Hb.
    exists x, xp, xd. split_and!; try done. by eapply list_elem_of_lookup_2.
  - intros (xp & xd & [Hx Hp]%lookup_kept & Hxd & Hi).
    assert (Hl : block_locations c !! b = Some (x, i)) by (apply (ri_loc _ _ HI); eauto).
    split; [done|]. intros (y & yp & yd & Hy & Hyp & Hyd & [j Hj]%list_elem_of_lookup_1).
    assert (Hl' : block_locations c !! b = Some (y, j)) by (apply (ri_loc _ _ HI); eauto). simplify_eq.
Qed.
End prune.

(** [remove_block] at the first block of an edge: the node goes, with its subtree. *)
Section cut.
Context (P : paths) (c c' : RadixPrefixCache) (n q : node_ref) (qp : list BlockKey) (nd : RadixNode)
  (k : BlockKey).
Let np : list BlockKey := qp ++ edge_keys nd.
Context (HI : radix_inv P c) (Hn : P !! n = Some np) (Hr : n ≠ root) (Hnd : heap c !! n = Some nd)
  (Hpar : parent nd = Some q) (Hhd : head (edge_keys nd) = Some k)
  (Hheap : heap c' = alter (λ qd, qd <| children := delete k (children qd) |>) q (heap c))
  (Hnext : next_ref c' = next_ref c)
  (Hlocs : ∀ b l, block_locations c' !! b = Some l ↔ block_locations c !! b = Some l ∧ ¬ below P c np b).
Let P' : paths := kept P qp nd.

Local Lemma cut_heap x :
  option_Forall2 (λ xd xd', edge_keys xd' = edge_keys xd ∧ block_ids xd' = block_ids xd ∧
    parent xd' = parent xd ∧ children xd' = if decide (x = q) then delete k (children xd) else children xd)
    (heap c !! x) (heap c' !! x).
Proof.
  rewrite Hheap. destruct (decide (x = q)) as [->|Hx].
  - rewrite lookup_alter_eq. by destruct (heap c !! q); constructor.
  - rewrite lookup_alter_ne by done. by destruct (heap c !! x); constructor.
Qed.
Local Lemma cut_forth x xd :
  heap c !! x = Some xd → ∃ xd', heap c' !! x = Some xd' ∧ edge_keys xd' = edge_keys xd ∧
    block_ids xd' = block_ids xd ∧ parent xd' = parent xd ∧
    children xd' = if decide (x = q) then delete k (children xd) else children xd.
Proof. intros H. pose proof (cut_heap x) as C. rewrite H in C. inversion C; eauto. Qed.
Local Lemma cut_back x xd' :
  heap c' !! x = Some xd' → ∃ xd, heap c !! x = Some xd ∧ edge_keys xd' = edge_keys xd ∧
    block_ids xd' = block_ids xd ∧ parent xd' = parent xd ∧
    children xd' = if decide (x = q) then delete k (children xd) else children xd.
Proof. intros H. pose proof (cut_heap x) as C. rewrite H in C. inversion C; eauto. Qed.

Lemma cut_inv : radix_inv P' c'.
Proof.
  split.
  - by eapply kept_root.
  - destruct (ri_rootnd _ _ HI) as (rd & Hrd & ? & ? & ?).
    destruct (cut_forth _ _ Hrd) as (rd' & ? & E1 & E2 & E3 & _). exists rd'. split_and!; congruence.
  - intros x xp Hx Hxr.
    destruct (kept_parent _ _ _ _ HI x xp Hx Hxr) as (xd & r & rp & rd & k' & Hxd & Hrp & Hrd & ? & -> & Hk' & Hch & ?).
    destruct (cut_forth _ _ Hxd) as (xd' & ? & E1 & E2 & E3 & _).
    destruct (cut_forth _ _ Hrd) as (rd' & ? & _ & _ & _ & E4).
    assert (Hch' : children rd' !! k' = Some x).
    { rewrite E4. case_decide; [subst r|done].
      rewrite lookup_delete_ne; [done|]. intros <-. apply (kept_ne _ _ _ _ Hn _ _ Hx).
      destruct (ri_node _ _ HI n _ Hn Hr) as (nd1 & q1 & ? & ? & ? & ? & ? & ? & ? & _ & ? & ? & _). congruence. }
    exists xd', r, rp, rd', k'. split_and!; first [done | congruence].
  - intros x xp xd' k' m Hx Hxd' Hk'. destruct (cut_back _ _ Hxd') as (xd & Hxd & _ & _ & _ & Ech).
    assert (Hk2 : children xd !! k' = Some m ∧ (x = q → k' ≠ k)).
    { rewrite Ech in Hk'. case_decide; [|done]. apply lookup_delete_Some in Hk' as [? ?]. done. }
    destruct Hk2 as [Hk2 Hne].
    destruct (kept_child _ _ _ _ _ HI Hn Hr Hnd _ _ _ _ _ Hx Hxd Hk2)
      as [(-> & _ & ? & ?)|(_ & ? & ? & md & Hmd & ? & ?)].
    { simplify_eq. by destruct Hne. }
    destruct (cut_forth _ _ Hmd) as (md' & ? & E1 & E2 & E3 & _).
    split_and!; [done..|]. exists md'. split_and!; congruence.
  - intros b x i. rewrite Hlocs. etrans; [by apply (kept_loc P c n qp nd)|]. split.
    + intros (xp & xd & ? & Hxd & ?). destruct (cut_forth _ _ Hxd) as (xd' & ? & E1 & E2 & E3 & _).
      exists xp, xd'. split_and!; first [done | congruence].
    + intros (xp & xd' & ? & Hxd' & ?). destruct (cut_back _ _ Hxd') as (xd & ? & E1 & E2 & E3 & _).
      exists xp, xd. split_and!; first [done | congruence].
  - intros x [xd' Hxd']. rewrite Hnext. apply (ri_next _ _ HI).
    destruct (cut_back _ _ Hxd') as (xd & ? & _). eauto.
Qed.

Lemma cut_mapped ks0 ks b :
  covers P c n qp ks0 → length ks0 = S (length qp) →
  mapped P' c' ks b ↔ mapped P c ks b ∧ ¬ ks0 `prefix_of` ks.
Proof.
  intros C0 Hl0. split.
  - intros (x & rp & xd' & (Hxr & xd1 & Hxd' & Hx & Hl & Hs) & Hxd1 & Hb).
    rewrite Hxd1 in Hxd'. injection Hxd' as <-. rename Hxd1 into Hxd'.
    destruct (cut_back _ _ Hxd') as (xd & Hxd & E1 & E2 & _). rewrite E1 in *. rewrite E2 in *.
    pose proof (kept_ne _ _ _ _ Hn _ _ Hx) as Hxn. apply lookup_kept in Hx as [Hx Hp].
    assert (Hc : covers P c x rp ks) by (split; [done|]; by exists xd).
    split; [by exists x, rp, xd|]. by eapply (kept_iff _ _ _ _ _ HI Hn Hr Hnd).
  - intros [(x & rp & xd & Hc & Hxd & Hb) Hp].
    destruct (cut_forth _ _ Hxd) as (xd' & Hxd' & E1 & E2 & _).
    pose proof Hc as (Hxr & xd1 & Hxd1 & Hx & Hl & Hs). simplify_eq.
    destruct (decide (x = n)) as [->|Hxn].
    { exfalso. apply Hp. destruct C0 as (_ & nd1 & ? & ? & _ & Hs0). simplify_eq.
      assert (rp = qp) as -> by (by eapply app_inv_tail). eapply prefix_shorter; [exact Hs0|exact Hs|]. lia. }
    exists x, rp, xd'. split_and!; [|done|congruence]. split; [done|]. exists xd'. rewrite E1.
    split_and!; try done. apply lookup_kept. split; [done|].
    by apply (kept_iff _ _ _ _ _ HI Hn Hr Hnd _ _ _ _ _ C0 Hxn Hc Hx).
Qed.
End cut.

(** [remove_block] inside an edge: the edge is cut short and loses its subtree. *)
Section trim.
Context (P : paths) (c c' : RadixPrefixCache) (n : node_ref) (qp : list BlockKey) (nd nd' : RadixNode)
  (i : nat).
Let np : list BlockKey := qp ++ edge_keys nd.
Context (HI : radix_inv P c) (Hn : P !! n = Some np) (Hr : n ≠ root) (Hnd : heap c !! n = Some nd)
  (Hi : 0 < i < length (block_ids nd))
  (Hn' : heap c' !! n = Some nd')
  (He' : edge_keys nd' = take i (edge_keys nd)) (Hb' : block_ids nd' = take i (block_ids nd))
  (Hp' : parent nd' = parent nd) (Hc' : children nd' = ∅)
  (Ho' : ∀ x, x ≠ n → heap c' !! x = heap c !! x)
  (Hnext : next_ref c' = next_ref c)
  (Hlocs : ∀ b l, block_locations c' !! b = Some l ↔ block_locations c !! b = Some l ∧
     (b ∈ take i (block_ids nd) ∨ ¬ below P c np b)).
Let P' : paths := <[n := qp ++ take i (edge_keys nd)]> (kept P qp nd).

Local Lemma trim_old x xp : kept P qp nd !! x = Some xp → P' !! x = Some xp.
Proof. intros H. unfold P'. rewrite lookup_insert_ne; [done|]. intros <-. by eapply (kept_ne _ _ _ _ Hn). Qed.

Lemma trim_inv : radix_inv P' c'.
Proof.
  destruct (cut_self _ _ _ _ _ HI Hn Hr Hnd) as (q & k & C & Hq & Hqp & Hhd & Hlen).
  destruct (ri_node _ _ HI n _ Hn Hr) as (? & ? & qp1 & qd & k1 & ? & ? & Hqd & ? & _ & ? & Hck & _). simplify_eq.
  assert (Hqk : kept P qp nd !! q = Some qp).
  { apply lookup_kept. split; [done|]. intros Hp%prefix_length. rewrite length_app in Hp.
    destruct (edge_keys nd); simpl in *; [done|lia]. }
  assert (Hnb : ∀ b j, block_ids nd !! j = Some b → block_locations c !! b = Some (n, j)).
  { intros b j Hj. apply (ri_loc _ _ HI). eauto. }
  split.
  - by eapply trim_old, kept_root.
  - destruct (ri_rootnd _ _ HI) as (rd & ? & ? & ? & ?). exists rd. by rewrite Ho'.
  - intros x xp Hx Hxr. unfold P' in Hx. apply lookup_insert_Some in Hx as [[<- <-]|[Hxn Hx]].
    + exists nd', q, qp, qd, k. rewrite He', Hb', Hp', (Ho' q) by (by eapply (kept_ne _ _ _ _ Hn)).
      split_and!; try done; [by apply trim_old| |by rewrite !length_take, Hlen].
      destruct (edge_keys nd), i; simpl in *; try done; lia.
    + destruct (kept_parent _ _ _ _ HI x xp Hx Hxr) as (xd & r & rp & rd & k' & Hxd & Hrp & Hrd & ? & -> & Hk' & Hch & ?).
      exists xd, r, rp, rd, k'. rewrite !Ho' by (done || by eapply (kept_ne _ _ _ _ Hn)).
      split_and!; try done. by apply trim_old.
  - intros x xp xd k' m Hx Hxd Hk'. unfold P' in Hx. apply lookup_insert_Some in Hx as [[<- <-]|[Hxn Hx]].
    { rewrite Hn' in Hxd. injection Hxd as <-. by rewrite Hc' in Hk'. }
    rewrite Ho' in Hxd by done.
    destruct (kept_child _ _ _ _ _ HI Hn Hr Hnd _ _ _ _ _ Hx Hxd Hk')
      as [(-> & _ & ? & ?)|(? & ? & [mp Hmp] & md & Hmd & ? & ?)].
    + split_and!; [done|unfold P'; rewrite lookup_insert_eq; eauto|]. exists nd'.
      rewrite He'. split_and!; [done|congruence|]. destruct (edge_keys nd), i; simpl in *; try done; lia.
    + split_and!; [done|rewrite (trim_old _ _ Hmp); eauto|]. exists md. by rewrite Ho'.
  - intros b x j. rewrite Hlocs. split.
    + intros [Hl [Hb|Hb]].
      * apply list_elem_of_lookup_1 in Hb as [j' Hj']. pose proof Hj' as [Hj'' _]%lookup_take_Some.
        apply Hnb in Hj''. rewrite Hl in Hj''. injection Hj'' as -> ->.
        exists (qp ++ take i (edge_keys nd)), nd'. rewrite Hb'. split_and!; try done.
        unfold P'. by rewrite lookup_insert_eq.
      * destruct (proj1 (kept_loc P c n qp nd HI Hr b x j) (conj Hl Hb)) as (xp & xd & Hx & Hxd & Hj).
        exists xp, xd. rewrite Ho' by (by eapply (kept_ne _ _ _ _ Hn)). split_and!; try done. by apply trim_old.
    + intros (xp & xd & Hx & Hxd & Hj). unfold P' in Hx. apply lookup_insert_Some in Hx as [[<- <-]|[Hxn Hx]].
      * rewrite Hn' in Hxd. injection Hxd as <-. rewrite Hb' in Hj.
        split; [|left; by eapply list_elem_of_lookup_2]. apply lookup_take_Some in Hj as [Hj _]. by apply Hnb.
      * rewrite Ho' in Hxd by done.
        destruct (proj2 (kept_loc P c n qp nd HI Hr b x j)) as [? ?]; [by eauto|]. by split; [|right].
  - intros x [xd Hxd]. rewrite Hnext. apply (ri_next _ _ HI).
    destruct (decide (x = n)) as [->|Hx]; [eauto|]. rewrite Ho' in Hxd; eauto.
Qed.

Lemma trim_mapped ks0 ks b :
  covers P c n qp ks0 → length ks0 = S (length qp + i) →
  mapped P' c' ks b ↔ mapped P c ks b ∧ ¬ ks0 `prefix_of` ks.
Proof.
  intros C0 Hl0.
  assert (Hs0 : ks0 `prefix_of` np) by (destruct C0 as (_ & ? & ? & ? & _ & ?); by simplify_eq).
  split.
  - intros (x & rp & xd & (Hxr & xd1 & Hxd & Hx & Hl & Hs) & Hxd1 & Hb).
    rewrite Hxd1 in Hxd. injection Hxd as <-. rename Hxd1 into Hxd. unfold P' in Hx.
    apply lookup_insert_Some in Hx as [[<- Hx]|[Hxn Hx]].
    + rewrite Hn' in Hxd. injection Hxd as <-. rewrite He' in *. rewrite Hb' in *.
      apply app_inv_tail in Hx as <-. apply lookup_take_Some in Hb as [Hb Hlt].
      split; [|intros Hp%prefix_length; lia].
      exists n, qp, nd. split_and!; try done. split; [done|]. exists nd. split_and!; try done.
      etrans; [exact Hs|]. apply prefix_app, prefix_take.
    + rewrite Ho' in Hxd by done. apply lookup_kept in Hx as [Hx Hp].
      assert (Hc : covers P c x rp ks) by (split; [done|]; by exists xd).
      split; [by exists x, rp, xd|]. by eapply (kept_iff _ _ _ _ _ HI Hn Hr Hnd).
  - intros [(x & rp & xd & Hc & Hxd & Hb) Hp].
    pose proof Hc as (Hxr & xd1 & Hxd1 & Hx & Hl & Hs).
    rewrite Hxd in Hxd1. injection Hxd1 as <-.
    destruct (decide (x = n)) as [->|Hxn].
    + rewrite Hnd in Hxd. injection Hxd as <-. rewrite Hn in Hx. injection Hx as Hx. apply app_inv_tail in Hx as <-.
      assert (Hle : length ks <= length qp + i).
      { apply not_lt. intros Hlt. apply Hp. eapply prefix_shorter; [exact Hs0|exact Hs|]. lia. }
      assert (Hpre : ks `prefix_of` qp ++ take i (edge_keys nd)).
      { apply (prefix_shorter _ _ np); [done|apply prefix_app, prefix_take|].
        destruct (cut_self _ _ _ _ _ HI Hn Hr Hnd) as (_ & _ & _ & _ & _ & _ & Hlen).
        rewrite length_app, length_take. lia. }
      exists n, qp, nd'. rewrite Hb'. split_and!; [|done|].
      * split; [done|]. exists nd'. rewrite He'. split_and!; try done. unfold P'. by rewrite lookup_insert_eq.
      * apply lookup_take_Some. split; [done|lia].
    + exists x, rp, xd. rewrite Ho' by done. split_and!; try done. split; [done|]. exists xd. rewrite Ho' by done.
      split_and!; try done. apply trim_old, lookup_kept. split; [done|].
      by apply (kept_iff _ _ _ _ _ HI Hn Hr Hnd _ _ _ _ _ C0 Hxn Hc Hx).
Qed.
End trim.

(** ** Merging a node with its only child *)
Section merge.
Context (P : paths) (c c' : RadixPrefixCache) (n m : node_ref) (qp : list BlockKey)
  (nd md nd' : RadixNode) (k : BlockKey).
Let np : list BlockKey := qp ++ edge_keys nd.
Context (HI : radix_inv P c) (Hn : P !! n = Some np) (Hr : n ≠ root) (Hnd : heap c !! n = Some nd)
  (Hch : children nd = {[ k := m ]}) (Hmd : heap c !! m = Some md)
  (Hn' : heap c' !! n = Some nd')
  (He' : edge_keys nd' = edge_keys nd ++ edge_keys md) (Hb' : block_ids nd' = block_ids nd ++ block_ids md)
  (Hp' : parent nd' = parent nd) (Hc' : children nd' = children md)
  (Ho' : ∀ x xd, x ≠ n → heap c !! x = Some xd →
     ∃ xd', heap c' !! x = Some xd' ∧ edge_keys xd' = edge_keys xd ∧ block_ids xd' = block_ids xd ∧
       children xd' = children xd ∧ ((∃ k', children md !! k' = Some x) → parent xd' = Some n) ∧
       ((∀ k', children md !! k' ≠ Some x) → parent xd' = parent xd))
  (Hback : ∀ x, is_Some (heap c' !! x) → is_Some (heap c !! x))
  (Hnext : next_ref c' = next_ref c)
  (Hlocs : block_locations c' =
     set_locations (locate_from n (length (block_ids nd)) (block_ids md)) (block_locations c)).
Let P' : paths := <[n := np ++ edge_keys md]> (delete m P).

Local Lemma merge_facts : P !! m = Some (np ++ edge_keys md) ∧ m ≠ root ∧ m ≠ n ∧ parent md = Some n ∧
  length (edge_keys md) = length (block_ids md) ∧ edge_keys md ≠ [] ∧
  length (edge_keys nd) = length (block_ids nd) ∧ edge_keys nd ≠ [].
Proof.
  assert (Hk : children nd !! k = Some m) by (rewrite Hch; apply lookup_singleton_eq).
  destruct (child_path _ _ _ _ _ _ _ HI Hn Hnd Hk) as (md' & ? & Hm & ? & ? & Hhd & ?).
  rewrite Hmd in H. injection H as <-.
  destruct (cut_self _ _ _ _ _ HI Hn Hr Hnd) as (q & k1 & _ & _ & _ & Hhd1 & ?).
  split_and!; try done.
  - intros ->. rewrite Hn in Hm. injection Hm as E. apply (f_equal length) in E. rewrite length_app in E.
    destruct (edge_keys md); simpl in *; [done|lia].
  - by destruct (edge_keys md).
  - by destruct (edge_keys nd).
Qed.
Local Lemma merge_new x xp : x ≠ n → x ≠ m → P !! x = Some xp → P' !! x = Some xp.
Proof. intros ???. unfold P'. by rewrite lookup_insert_ne, lookup_delete_ne by done. Qed.
Local Lemma merge_cases x xp :
  P' !! x = Some xp → (x = n ∧ xp = np ++ edge_keys md) ∨ (x ≠ n ∧ x ≠ m ∧ P !! x = Some xp).
Proof.
  unfold P'. intros [[<- <-]|[? [? ?]%lookup_delete_Some]]%lookup_insert_Some; [by left|by right].
Qed.

Lemma merge_node x xp :
  P' !! x = Some xp → x ≠ root →
  ∃ nd q qp qd k, heap c' !! x = Some nd ∧ P' !! q = Some qp ∧ heap c' !! q = Some qd ∧
    parent nd = Some q ∧ xp = qp ++ edge_keys nd ∧ head (edge_keys nd) = Some k ∧
    children qd !! k = Some x ∧ length (edge_keys nd) = length (block_ids nd).
Proof.
  destruct merge_facts as (Hm & Hmr & Hmn & Hmpar & Hml & Hme & Hnl & Hne).
  intros Hx Hxr. apply merge_cases in Hx as [[-> ->]|(Hxn & Hxm & Hx)].
  + destruct (ri_node _ _ HI n _ Hn Hr) as (nd1 & q & qp1 & qd & k1 & ? & Hq & Hqd & ? & E & Hk1 & Hck & _).
    rewrite Hnd in H. injection H as <-. apply app_inv_tail in E as <-.
    assert (Hqn : q ≠ n ∧ q ≠ m).
    { split; intros ->; [rewrite Hn in Hq|rewrite Hm in Hq]; injection Hq as E; unfold np in E;
      apply (f_equal length) in E; rewrite !length_app in E; destruct (edge_keys nd); simpl in *; try done; lia. }
    destruct (Ho' q qd) as (qd' & ? & _ & _ & E3 & _); [naive_solver..|].
    exists nd', q, qp, qd', k1. rewrite He', Hb', Hp', E3, !length_app.
    split_and!; try done; [by apply merge_new; naive_solver|by rewrite app_assoc| |lia].
    by destruct (edge_keys nd).
  + destruct (ri_node _ _ HI x _ Hx Hxr) as (xd & r & rp & rd & k1 & Hxd & Hrp & Hrd & Hpar & -> & Hk1 & Hck & ?).
    destruct (Ho' x xd) as (xd' & ? & E1 & E2 & _ & E4 & E5); [done..|].
    destruct (decide (r = m)) as [->|Hrm].
    * rewrite Hm in Hrp. injection Hrp as <-. rewrite Hmd in Hrd. injection Hrd as <-.
      exists xd', n, (np ++ edge_keys md), nd', k1. rewrite E1, E2, Hc'.
      split_and!; try done; [unfold P'; by rewrite lookup_insert_eq|by apply E4; eauto].
    * assert (Hrn : r ≠ n).
      { intros ->. rewrite Hnd in Hrd. injection Hrd as <-. rewrite Hch in Hck.
        apply lookup_singleton_Some in Hck as [_ ?]. done. }
      destruct (Ho' r rd) as (rd' & ? & _ & _ & E3 & _); [done..|].
      exists xd', r, rp, rd', k1. rewrite E1, E2, E3. split_and!; try done; [by apply merge_new|].
      rewrite E5; [done|]. intros k' Hk'.
      destruct (ri_child _ _ HI _ _ _ _ _ Hm Hmd Hk') as (_ & _ & ? & ? & ? & _). congruence.
Qed.
Lemma merge_child x xp xd' k' g :
  P' !! x = Some xp → heap c' !! x = Some xd' → children xd' !! k' = Some g →
  g ≠ root ∧ is_Some (P' !! g) ∧
  ∃ gd, heap c' !! g = Some gd ∧ parent gd = Some x ∧ head (edge_keys gd) = Some k'.
Proof.
  destruct merge_facts as (Hm & Hmr & Hmn & Hmpar & Hml & Hme & Hnl & Hne).
  intros Hx Hxd' Hk'.
  assert (Hgp : ∃ y yp yd, P !! y = Some yp ∧ heap c !! y = Some yd ∧ children yd !! k' = Some g ∧
    ((x = n ∧ y = m) ∨ (x ≠ n ∧ x ≠ m ∧ y = x))).
  { apply merge_cases in Hx as [[-> ->]|(Hxn & Hxm & Hx)].
    - rewrite Hn' in Hxd'. injection Hxd' as <-. rewrite Hc' in Hk'. exists m, (np ++ edge_keys md), md.
      split_and!; [done..|by left].
    - destruct (live_heap HI _ _ Hx) as [xd Hxd]. destruct (Ho' x xd) as (xd1 & ? & _ & _ & E3 & _); [done..|].
      exists x, xp, xd. simplify_eq. rewrite <-E3. split_and!; [done..|by right]. }
  destruct Hgp as (y & yp & yd & Hy & Hyd & Hyk & Hxy).
  destruct (child_path _ _ _ _ _ _ _ HI Hy Hyd Hyk) as (gd & Hgd & Hg & Hgr & Hgpar & Hghd & _).
  assert (Hgm : g ≠ m).
  { intros ->. rewrite Hmd in Hgd. injection Hgd as <-. rewrite Hmpar in Hgpar. injection Hgpar as <-.
    destruct Hxy as [[_ ?]|(? & _ & ->)]; [by apply Hmn|done]. }
  split; [done|]. destruct (decide (g = n)) as [->|Hgn].
  + rewrite Hnd in Hgd. injection Hgd as <-.
    split; [unfold P'; rewrite lookup_insert_eq; eauto|]. exists nd'. rewrite Hp', He'.
    split_and!; [done| |by destruct (edge_keys nd)].
    destruct Hxy as [[-> ->]|(_ & _ & ->)]; [|done]. exfalso.
    rewrite Hm in Hy. injection Hy as <-. rewrite Hn in Hg. injection Hg as E. unfold np in E. apply (f_equal length) in E.
    rewrite !length_app in E. destruct (edge_keys nd); simpl in *; [done|lia].
  + rewrite (merge_new _ _ Hgn Hgm Hg). split; [eauto|].
    destruct (Ho' g gd) as (gd' & ? & E1 & _ & _ & E4 & E5); [done..|]. exists gd'. rewrite E1.
    split_and!; [done| |done]. destruct Hxy as [[-> ->]|(Hxn & Hxm & ->)].
    * apply E4. exists k'. congruence.
    * rewrite E5; [done|]. intros k2 Hk2.
      destruct (child_path _ _ _ _ _ _ _ HI Hm Hmd Hk2) as (?&?&_&_&?&_). congruence.
Qed.
Lemma merge_loc b x j :
  block_locations c' !! b = Some (x, j) ↔
  ∃ xp xd, P' !! x = Some xp ∧ heap c' !! x = Some xd ∧ block_ids xd !! j = Some b.
Proof.
  destruct merge_facts as (Hm & Hmr & Hmn & Hmpar & Hml & Hme & Hnl & Hne).
  assert (Hnb : ∀ b, b ∈ block_ids md → ∃ j, block_locations c !! b = Some (m, j)).
  { intros b' [j' Hj]%list_elem_of_lookup_1. exists j'. apply (ri_loc _ _ HI). eauto. }
  pose proof (node_ids_NoDup _ _ _ _ _ HI Hm Hmd) as Hdup.
  rewrite Hlocs, lookup_set_locations by done. split.
  + intros [(j' & Hj & [= -> ->])|[Hb Hl]].
    * exists (np ++ edge_keys md), nd'. rewrite Hb'. split_and!; [unfold P'; by rewrite lookup_insert_eq|done|].
      rewrite lookup_app_r by lia. rewrite <-Hj. f_equal. lia.
    * apply (ri_loc _ _ HI) in Hl as (xp & xd & Hx & Hxd & Hj).
      destruct (decide (x = n)) as [->|Hxn].
      { exists (np ++ edge_keys md), nd'. rewrite Hb'. split_and!; [unfold P'; by rewrite lookup_insert_eq|done|].
        rewrite Hnd in Hxd. injection Hxd as <-. by apply lookup_app_l_Some. }
      destruct (decide (x = m)) as [->|Hxm].
      { rewrite Hmd in Hxd. injection Hxd as <-. apply list_elem_of_lookup_2 in Hj. done. }
      destruct (Ho' x xd) as (xd' & ? & _ & E2 & _); [done..|]. exists xp, xd'. rewrite E2.
      split_and!; [by apply merge_new|done..].
  + intros (xp & xd' & Hx & Hxd' & Hj). apply merge_cases in Hx as [[-> ->]|(Hxn & Hxm & Hx)].
    * rewrite Hn' in Hxd'. injection Hxd' as <-. rewrite Hb' in Hj.
      apply lookup_app_Some in Hj as [Hj|[Hle Hj]].
      -- assert (Hl : block_locations c !! b = Some (n, j)) by (apply (ri_loc _ _ HI); eauto).
         right. split; [|done]. intros [j' Hj']%Hnb. congruence.
      -- left. exists (j - length (block_ids nd)). split; [done|]. f_equal. lia.
    * destruct (live_heap HI _ _ Hx) as [xd Hxd]. destruct (Ho' x xd) as (xd1 & ? & _ & E2 & _); [done..|].
      simplify_eq. rewrite E2 in Hj.
      assert (Hl : block_locations c !! b = Some (x, j)) by (apply (ri_loc _ _ HI); eauto).
      right. split; [|done]. intros [j' Hj']%Hnb. congruence.
Qed.
Lemma merge_inv : radix_inv P' c'.
Proof.
  destruct merge_facts as (Hm & Hmr & Hmn & Hmpar & Hml & Hme & Hnl & Hne).
  split; [| |apply merge_node|apply merge_child|apply merge_loc|].
  - apply merge_new; [done..|apply (ri_root _ _ HI)].
  - destruct (ri_rootnd _ _ HI) as (rd & Hrd & ? & ? & ?).
    destruct (Ho' root rd) as (rd' & ? & E1 & E2 & _ & _ & E3); [done..|]. exists rd'.
    rewrite E1, E2, E3; [done|]. intros k' Hk'.
    by destruct (ri_child _ _ HI _ _ _ _ _ Hm Hmd Hk') as (? & _).
  - intros x Hx. rewrite Hnext. by apply (ri_next _ _ HI), Hback.
Qed.

Lemma merge_mapped ks b : mapped P' c' ks b ↔ mapped P c ks b.
Proof.
  destruct merge_facts as (Hm & Hmr & Hmn & Hmpar & Hml & Hme & Hnl & Hne). split.
  - intros (x & rp & xd' & (Hxr & xd1 & Hxd' & Hx & Hl & Hs) & Hxd1 & Hb).
    rewrite Hxd1 in Hxd'. injection Hxd' as <-. rename Hxd1 into Hxd'.
    apply merge_cases in Hx as [[-> Hx]|(Hxn & Hxm & Hx)].
    + rewrite Hn' in Hxd'. injection Hxd' as <-. rewrite He' in *. rewrite Hb' in Hb.
      assert (rp = qp) as ->.
      { unfold np in Hx. rewrite <-app_assoc in Hx. by apply app_inv_tail in Hx. }
      rewrite app_assoc in Hs. fold np in Hs. apply lookup_app_Some in Hb as [Hb|[Hge Hb]].
      * apply lookup_lt_Some in Hb as Hlt. exists n, qp, nd. split_and!; try done. split; [done|].
        exists nd. split_and!; try done. eapply prefix_shorter; [exact Hs|by eexists|].
        unfold np. rewrite length_app. lia.
      * exists m, np, md. split_and!; try done.
        -- split; [done|]. exists md. split_and!; try done. unfold np. rewrite length_app. lia.
        -- rewrite <-Hb. f_equal. unfold np. rewrite length_app. lia.
    + destruct (live_heap HI _ _ Hx) as [xd Hxd]. destruct (Ho' x xd) as (xd1 & ? & E1 & E2 & _); [done..|].
      simplify_eq. rewrite E1 in *. rewrite E2 in Hb. exists x, rp, xd. split_and!; try done.
      split; [done|]. by exists xd.
  - intros (x & rp & xd & (Hxr & xd1 & Hxd1 & Hx & Hl & Hs) & Hxd & Hb).
    rewrite Hxd in Hxd1. injection Hxd1 as <-.
    assert (Hcov : qp `prefix_of` ks → ks `prefix_of` np ++ edge_keys md → length qp < length ks →
      covers P' c' n qp ks).
    { intros _ Hp Hlt. split; [done|]. exists nd'. rewrite He', app_assoc. split_and!; try done.
      unfold P'. by rewrite lookup_insert_eq. }
    destruct (decide (x = n)) as [->|Hxn].
    { rewrite Hnd in Hxd. injection Hxd as <-. rewrite Hn in Hx. injection Hx as Hx. apply app_inv_tail in Hx as <-.
      exists n, qp, nd'. rewrite Hb'. split_and!; [|done|by apply lookup_app_l_Some].
      apply Hcov; [|etrans; [exact Hs|by eexists]|done]. eapply prefix_shorter; [by eexists|exact Hs|lia]. }
    destruct (decide (x = m)) as [->|Hxm].
    { rewrite Hmd in Hxd. injection Hxd as <-. rewrite Hm in Hx. injection Hx as Hx. apply app_inv_tail in Hx as <-.
      unfold np in Hl, Hb. rewrite length_app in Hl, Hb.
      exists n, qp, nd'. rewrite Hb'. split_and!; [|done|].
      - apply Hcov; [|done|lia]. eapply (prefix_shorter _ _ (np ++ edge_keys md)); [|done|lia].
        unfold np. rewrite <-app_assoc. by eexists.
      - rewrite lookup_app_r by lia. rewrite <-Hb. f_equal. lia. }
    destruct (Ho' x xd) as (xd' & ? & E1 & E2 & _); [done..|].
    exists x, rp, xd'. rewrite E2. split_and!; try done. split; [done|]. exists xd'. rewrite E1.
    split_and!; try done. by apply merge_new.
Qed.
End merge.

Lemma map_to_list_single {A} (M : gmap BlockKey A) k x : map_to_list M = [(k, x)] → M = {[ k := x ]}.
Proof.
  intros E. rewrite <-(list_to_map_to_list M), E. done.
Qed.
Lemma elem_of_map_values {A} (M : gmap BlockKey A) x : x ∈ (map_to_list M).*2 ↔ ∃ k, M !! k = Some x.
Proof.
  rewrite list_elem_of_fmap. split.
  - intros ([k y] & -> & H%elem_of_map_to_list). eauto.
  - intros [k H%elem_of_map_to_list]. by exists (k, x).
Qed.

Lemma wp_reparent L n c E :
  wp (forM L (λ g, update_node g (λ gd, gd <| parent := Some n |>)))
    (λ _ c', c' = c <| heap := heap c' |> ∧
       ∀ x, heap c' !! x = if decide (x ∈ L) then (λ gd, gd <| parent := Some n |>) <$> heap c !! x
                           else heap c !! x) E c.
Proof.
  revert c. induction L as [|g L IH]; intros c; simpl.
  { wp_step. split; [by destruct c|done]. }
  wp_step. apply wp_update. eapply wp_mono; [apply IH| |done].
  intros [] c' [E1 H]. split; [by rewrite E1|]. intros x. rewrite H. cbn. destruct (decide (x = g)) as [->|Hne].
  - rewrite lookup_alter_eq, (decide_True (P := g ∈ g :: L)) by set_solver.
    case_decide; [|done]. by destruct (heap c !! g).
  - rewrite lookup_alter_ne by done.
    destruct (decide (x ∈ L)); [rewrite decide_True by set_solver|rewrite decide_False by set_solver]; done.
Qed.

(** The nodes above path [p]. *)
Definition ancestors (P : paths) (p : list BlockKey) : paths :=
  filter (λ e : node_ref * list BlockKey, e.2 `prefix_of` p ∧ e.2 ≠ p) P.

Lemma ancestors_parent P n p q qp :
  P !! n = Some p → P !! q = Some qp → qp `prefix_of` p → qp ≠ p →
  size (ancestors P qp) < size (ancestors P p).
Proof.
  intros Hn Hq Hp Hne. apply (map_size_lt _ _ q qp).
  - apply map_subseteq_spec. intros x xp [Hx [Hx1 Hx2]]%map_lookup_filter_Some. simpl in *.
    apply map_lookup_filter_Some. split_and!; [done|by etrans|]. simpl. intros ->.
    apply Hne. apply prefix_length_eq; [done|]. by apply prefix_length.
  - by apply map_lookup_filter_Some.
  - apply map_lookup_filter_None. right. simpl. intros xp Hx. naive_solver.
Qed.

Lemma ancestors_merge P c n np m md k nd :
  radix_inv P c → P !! n = Some np → n ≠ root → heap c !! n = Some nd → children nd !! k = Some m →
  P !! m = Some (np ++ edge_keys md) → heap c !! m = Some md →
  ancestors (<[n := np ++ edge_keys md]> (delete m P)) (np ++ edge_keys md) ⊆ ancestors P np.
Proof.
  intros HI Hn Hr Hnd Hk Hm Hmd. apply map_subseteq_spec. intros x xp [Hx [Hx1 Hx2]]%map_lookup_filter_Some. simpl in *.
  apply lookup_insert_Some in Hx as [[<- <-]|[Hxn Hx]]; [done|]. apply lookup_delete_Some in Hx as [Hxm Hx].
  destruct (child_path _ _ _ _ _ _ _ HI Hn Hnd Hk) as (md' & ? & _ & Hmr & _ & Hhd & _). simplify_eq.
  apply map_lookup_filter_Some. simpl. split; [done|].
  destruct (decide (length xp < length np)) as [Hlt|Hge].
  - split; [|intros ->; lia]. eapply prefix_shorter; [exact Hx1|by eexists|lia].
  - exfalso. destruct (decide (xp = np)) as [->|Hxp].
    + destruct (covers_self HI _ _ Hn Hr) as (?&?&?&?&?&_&_&_&_&_&_&_&_&C1).
      destruct (covers_self HI x np Hx) as (?&?&?&?&?&_&_&_&_&_&_&_&_&C2).
      { eapply (path_root HI); [exact Hx|]. intros ->. apply Hr. by apply (path_nil HI). }
      apply Hxn. symmetry. by eapply (covers_unique HI np).
    + assert (Hl : length np < length xp).
      { enough (length np ≠ length xp) by lia. intros El. apply Hxp, prefix_length_eq; [|lia].
        eapply prefix_shorter; [exact Hx1|by eexists|lia]. }
      destruct (covers_self HI x xp Hx) as (?&?&?&?&?&_&_&_&_&_&_&_&_&C2).
      { eapply (path_root HI); [done|]. intros ->. simpl in *. lia. }
      apply Hxm. eapply (covers_unique HI xp); [|exact C2]. split; [done|]. by exists md.
Qed.

(** [_compress] keeps the map, and its fuel is enough. *)
Lemma compress_spec fuel P c n np :
  radix_inv P c → P !! n = Some np → size P + size (ancestors P np) < fuel →
  wp (compress fuel n)
    (λ _ c', ∃ P', radix_inv P' c' ∧ ∀ ks b, mapped P' c' ks b ↔ mapped P c ks b) noexn c.
Proof.
  revert P c n np. induction fuel as [|fuel IH]; intros P c n np HI Hn Hfuel; [lia|].
  simpl. destruct (decide (n = root)) as [->|Hr]; [wp_step; by exists P|].
  destruct (ri_node _ _ HI n np Hn Hr) as (nd & q & qp & qd & k0 & Hnd & Hq & _ & Hpar & -> & Hhd & _).
  wp_step. eapply wp_deref; [done|].
  assert (Hup : wp (match parent nd with Some p => compress fuel p | None => raise Dangling end)
    (λ _ c', ∃ P', radix_inv P' c' ∧ ∀ ks b, mapped P' c' ks b ↔ mapped P c ks b) noexn c).
  { rewrite Hpar. apply (IH P c q qp HI Hq).
    assert (size (ancestors P qp) < size (ancestors P (qp ++ edge_keys nd))); [|lia].
    eapply ancestors_parent; [done|exact Hq|by eexists|]. intros E. apply (f_equal length) in E.
    rewrite length_app in E. destruct (edge_keys nd); simpl in *; [done|lia]. }
  destruct (map_to_list (children nd)) as [|[k m] [|]] eqn:Ech; [exact Hup| |exact Hup].
  apply map_to_list_single in Ech. clear Hup.
  assert (Hk : children nd !! k = Some m) by (rewrite Ech; apply lookup_singleton_eq).
  destruct (child_path _ _ _ _ _ _ _ HI Hn Hnd Hk) as (md & Hmd & Hm & Hmr & _ & Hmhd & _).
  assert (Hmn : n ≠ m).
  { intros <-. rewrite Hn in Hm. injection Hm as E. apply (f_equal length) in E. rewrite !length_app in E.
    destruct (edge_keys md); simpl in *; [done|lia]. }
  wp_step. eapply wp_deref; [done|]. wp_step. apply wp_update. wp_step. apply wp_update.
  wp_step. apply wp_update. wp_step. eapply wp_mono; [apply wp_reparent| |done].
  intros [] c1 [E1 Hh1]. wp_step. wp_step. cbn beta. wp_step. apply wp_touch. intros c2 HS _.
  set (nd' := nd <| edge_keys := edge_keys nd ++ edge_keys md |> <| block_ids := block_ids nd ++ block_ids md |>
     <| children := children md |>).
  match type of HS with same_shape ?st _ => set (c1' := st) in HS end.
  assert (Hng : n ∉ (map_to_list (children md)).*2).
  { intros [k' Hk']%elem_of_map_values. destruct (child_path _ _ _ _ _ _ _ HI Hm Hmd Hk') as (?&?&Hn2&_).
    rewrite Hn in Hn2. injection Hn2 as E. apply (f_equal length) in E. rewrite !length_app in E.
    destruct (edge_keys md); simpl in *; [done|lia]. }
  assert (Hnx : ∀ x, x ≠ n → heap c1' !! x = if decide (x ∈ (map_to_list (children md)).*2)
    then (λ gd, gd <| parent := Some n |>) <$> heap c !! x else heap c !! x).
  { intros x Hx. cbn. rewrite Hh1. cbn. by rewrite !lookup_alter_ne by done. }
  assert (Hnn : heap c1' !! n = Some nd').
  { cbn. rewrite Hh1, decide_False by done. cbn. by rewrite !lookup_alter_eq, Hnd. }
  assert (HM : radix_inv (<[n := (qp ++ edge_keys nd) ++ edge_keys md]> (delete m P)) c1' ∧
    ∀ ks b, mapped (<[n := (qp ++ edge_keys nd) ++ edge_keys md]> (delete m P)) c1' ks b ↔ mapped P c ks b).
  { assert (Ho : ∀ x xd, x ≠ n → heap c !! x = Some xd →
       ∃ xd', heap c1' !! x = Some xd' ∧ edge_keys xd' = edge_keys xd ∧ block_ids xd' = block_ids xd ∧
         children xd' = children xd ∧ ((∃ k', children md !! k' = Some x) → parent xd' = Some n) ∧
         ((∀ k', children md !! k' ≠ Some x) → parent xd' = parent xd)).
    { intros x xd Hx Hxd. rewrite Hnx, Hxd by done. case_decide as Hg; rewrite elem_of_map_values in Hg.
      - exists (xd <| parent := Some n |>). split_and!; try done; intros Hg'. by destruct Hg as [k' Hk'%Hg'].
      - exists xd. split_and!; try done; intros Hg'; by destruct (Hg Hg'). }
    assert (Hb : ∀ x, is_Some (heap c1' !! x) → is_Some (heap c !! x)).
    { intros x. destruct (decide (x = n)) as [->|Hx]; [eauto|]. rewrite Hnx by done.
      case_decide; [by rewrite fmap_is_Some|done]. }
    split; [eapply merge_inv|intros ks b; eapply merge_mapped]; first [done | by cbn; rewrite E1]. }
  destruct HM as [HI' Hm'].
  eapply wp_mono.
  - apply (IH (<[n := (qp ++ edge_keys nd) ++ edge_keys md]> (delete m P)) c2 n ((qp ++ edge_keys nd) ++ edge_keys md)).
    + by rewrite <-HS.
    + apply lookup_insert_eq.
    + pose proof (ancestors_merge _ _ _ _ _ _ _ _ HI Hn Hr Hnd Hk Hm Hmd) as Ha%map_subseteq_size.
      assert (Hsz : size (<[n := (qp ++ edge_keys nd) ++ edge_keys md]> (delete m P)) < size P); [|lia].
      rewrite map_size_insert_Some by (rewrite lookup_delete_ne by done; eauto).
      rewrite map_size_delete_Some by eauto.
      assert (size P ≠ 0); [|lia]. intros E%map_size_empty_inv. by rewrite E in Hn.
  - intros [] c3 (P3 & HI3 & Hm3). exists P3. split; [done|]. intros ks b. by rewrite Hm3, <-HS, Hm'.
  - done.
Qed.

(** ** [remove_block] *)
Lemma paths_size P c : radix_inv P c → size P <= size (heap c).
Proof.
  intros HI. rewrite <-!size_dom. apply subseteq_size. intros n [p Hn]%elem_of_dom.
  apply elem_of_dom. by eapply live_heap.
Qed.
Lemma subtree_size_le P p : subtree_size P p <= size P.
Proof. apply map_subseteq_size, map_filter_subseteq. Qed.
Lemma ancestors_size_le P p : size (ancestors P p) <= size P.
Proof. apply map_subseteq_size, map_filter_subseteq. Qed.
Lemma kept_size_le P qp nd : size (kept P qp nd) <= size P.
Proof. apply map_subseteq_size, map_filter_subseteq. Qed.

(** The abstract effect: every prefix that extends [ks0] goes. *)
Definition without (ks0 : list BlockKey) (m : gmap (list BlockKey) nat) : gmap (list BlockKey) nat :=
  filter (λ e : list BlockKey * nat, ¬ ks0 `prefix_of` e.1) m.

Lemma compress_represents m ks0 P c P1 c1 n p fuel :
  (∀ ks b, m !! ks = Some b ↔ mapped P c ks b) →
  radix_inv P1 c1 → (∀ ks b, mapped P1 c1 ks b ↔ mapped P c ks b ∧ ¬ ks0 `prefix_of` ks) →
  P1 !! n = Some p → size P1 + size P1 < fuel →
  wp (compress fuel n ;; mret true) (λ r c', r = true ∧ represents (without ks0 m) c') noexn c1.
Proof.
  intros Hm HI1 Hm1 Hp Hfuel. wp_step. eapply wp_mono.
  - apply (compress_spec fuel P1 c1 n p HI1 Hp). pose proof (ancestors_size_le P1 p). lia.
  - intros [] c2 (P2 & HI2 & Hm2). wp_step. split; [done|]. exists P2. split; [done|].
    intros ks b. rewrite Hm2, Hm1, <-Hm. unfold without. by rewrite map_lookup_filter_Some.
  - done.
Qed.

Section remove.
Context (m : gmap (list BlockKey) nat) (P : paths) (c : RadixPrefixCache) (n : node_ref)
  (qp : list BlockKey) (nd : RadixNode) (ks0 : list BlockKey).
Context (HI : radix_inv P c) (Hm : ∀ ks b, m !! ks = Some b ↔ mapped P c ks b)
  (Hc : covers P c n qp ks0) (Hnd : heap c !! n = Some nd).
Let index := length ks0 - length qp - 1.
Let np : list BlockKey := qp ++ edge_keys nd.

Local Lemma remove_facts : P !! n = Some np ∧ n ≠ root ∧ length qp < length ks0 ∧
  ∃ q qd k, parent nd = Some q ∧ P !! q = Some qp ∧ heap c !! q = Some qd ∧
    head (edge_keys nd) = Some k ∧ children qd !! k = Some n ∧
    length (edge_keys nd) = length (block_ids nd) ∧ index < length (block_ids nd).
Proof.
  destruct (covers_inv HI _ _ _ Hc) as (nd' & q & qd & k & ? & ? & ? & ? & ? & ? & ? & ? & ? & ? & ? & ? & Hs).
  simplify_eq. split_and!; [done..|]. exists q, qd, k. split_and!; try done.
  apply prefix_length in Hs. rewrite length_app in Hs. unfold index. lia.
Qed.

(** The locations that cutting the edge at [index] keeps. *)
Local Lemma remove_locs b l :
  let gone := λ b, ∃ k m mp, children nd !! k = Some m ∧ P !! m = Some mp ∧ below P c mp b in
  block_locations c !! b = Some l ∧ ¬ (gone b ∨ b ∈ drop index (block_ids nd)) ↔
  block_locations c !! b = Some l ∧ (b ∈ take index (block_ids nd) ∨ ¬ (b ∈ block_ids nd ∨ gone b)).
Proof.
  intros gone. destruct remove_facts as (Hn & _).
  assert (Hdup : b ∈ take index (block_ids nd) → b ∈ drop index (block_ids nd) → False).
  { pose proof (node_ids_NoDup _ _ _ _ _ HI Hn Hnd) as Hd. rewrite <-(take_drop index (block_ids nd)) in Hd.
    apply NoDup_app in Hd as (_ & Hd & _). apply Hd. }
  assert (Hgone : b ∈ block_ids nd → ¬ gone b).
  { intros [i Hi]%list_elem_of_lookup_1 (k & x & xp & Hk & Hx & y & yp & yd & Hy & Hp & Hyd & [j Hj]%list_elem_of_lookup_1).
    assert (L1 : block_locations c !! b = Some (n, i)) by (apply (ri_loc _ _ HI); eauto).
    assert (L2 : block_locations c !! b = Some (y, j)) by (apply (ri_loc _ _ HI); eauto).
    destruct (child_path _ _ _ _ _ _ _ HI Hn Hnd Hk) as (xd & _ & Hx' & _ & _ & Hhd & _).
    rewrite L1 in L2. injection L2 as <- <-. rewrite Hx in Hx'. injection Hx' as ->.
    rewrite Hn in Hy. injection Hy as <-. apply prefix_length in Hp. rewrite length_app in Hp.
    destruct (edge_keys xd); simpl in *; [done|lia]. }
  assert (Hs : b ∈ block_ids nd ↔ b ∈ take index (block_ids nd) ∨ b ∈ drop index (block_ids nd)).
  { by rewrite <-elem_of_app, take_drop. }
  rewrite Hs in *. destruct (decide (b ∈ take index (block_ids nd))); tauto.
Qed.

Lemma remove_node q qd k :
  parent nd = Some q → P !! q = Some qp → heap c !! q = Some qd → head (edge_keys nd) = Some k →
  index = 0 →
  wp (update_node q (λ pd, pd <| children := delete k (children pd) |>);;
      drop_subtree (walk_fuel c) n;;
      compress (walk_fuel c) q;;
      mret true) (λ r c', r = true ∧ represents (without ks0 m) c') noexn c.
Proof.
  intros Hpar Hq Hqd Hhd Hi. destruct remove_facts as (Hn & Hr & Hl & _).
  pose proof (paths_size _ _ HI) as Hsz. unfold walk_fuel.
  assert (Hqk : kept P qp nd !! q = Some qp).
  { apply lookup_kept. split; [done|]. intros Hp%prefix_length. rewrite length_app in Hp.
    destruct (edge_keys nd); simpl in *; [done|lia]. }
  wp_step. apply wp_update. wp_step. eapply wp_mono.
  - apply (drop_subtree_spec P c _ n np HI Hn); [pose proof (subtree_size_le P np); lia|].
    intros x xp Hx Hp. cbn. apply lookup_alter_ne. intros <-. rewrite Hq in Hx. injection Hx as <-.
    apply lookup_kept in Hqk as [_ Hqk]. by apply Hqk.
  - intros [] c1 [E1 Hl1].
    assert (HI1 : radix_inv (kept P qp nd) c1).
    { eapply (cut_inv P c c1 n q qp nd k); try done; by rewrite E1. }
    assert (Hm1 : ∀ ks b, mapped (kept P qp nd) c1 ks b ↔ mapped P c ks b ∧ ¬ ks0 `prefix_of` ks).
    { intros ks b. eapply (cut_mapped P c c1 n q qp nd k); first [done | by rewrite E1 | unfold index in Hi; lia]. }
    eapply compress_represents; [exact Hm|exact HI1|exact Hm1|exact Hqk|].
    pose proof (kept_size_le P qp nd). lia.
  - done.
Qed.

Lemma remove_suffix :
  index ≠ 0 →
  wp (forM ((map_to_list (children nd)).*2) (drop_subtree (walk_fuel c));;
      forM (drop index (block_ids nd)) (λ removed_id,
        modifyS (λ c, c <| block_locations := delete removed_id (block_locations c) |>));;
      update_node n (λ nd, nd <| edge_keys := take index (edge_keys nd) |>);;
      update_node n (λ nd, nd <| block_ids := take index (block_ids nd) |>);;
      update_node n (λ nd, nd <| children := ∅ |>);;
      p ← of_option Dangling (parent nd);
      compress (walk_fuel c) p;;
      mret true) (λ r c', r = true ∧ represents (without ks0 m) c') noexn c.
Proof.
  intros Hi. destruct remove_facts as (Hn & Hr & Hl & q & qd & k & Hpar & Hq & Hqd & Hhd & _ & Hlen & Hidx).
  pose proof (paths_size _ _ HI) as Hsz.
  assert (Hqk : kept P qp nd !! q = Some qp).
  { apply lookup_kept. split; [done|]. intros Hp%prefix_length. rewrite length_app in Hp.
    destruct (edge_keys nd); simpl in *; [done|lia]. }
  pose proof (kept_ne _ _ _ _ Hn _ _ Hqk) as Hqn.
  set (gone := λ b, ∃ k m mp, children nd !! k = Some m ∧ P !! m = Some mp ∧ below P c mp b).
  wp_step. apply (wp_mono _ (λ _ c', forgets gone c c') _ noexn); [|intros [] c1 HF1|done].
  { apply (drop_children_spec P c n np nd); try done.
    intros k' x xp Hk' Hx. apply (drop_subtree_spec P c _ x xp HI Hx).
    pose proof (subtree_size_le P xp). unfold walk_fuel. lia. }
  wp_step. apply (wp_mono _ (λ _ c', forgets (.∈ drop index (block_ids nd)) c1 c') _ noexn);
    [apply wp_forget_ids|intros [] c2 HF2|done].
  wp_step. apply wp_update. wp_step. apply wp_update. wp_step. apply wp_update.
  rewrite Hpar. cbn [of_option]. wp_step. wp_step. cbn beta.
  match goal with |- wp _ _ _ ?st => set (c3 := st) end.
  assert (Hh : heap c2 = heap c) by (by rewrite (forgets_heap _ _ _ HF2), (forgets_heap _ _ _ HF1)).
  set (nd' := nd <| edge_keys := take index (edge_keys nd) |> <| block_ids := take index (block_ids nd) |>
                <| children := ∅ |>).
  assert (Hn' : heap c3 !! n = Some nd') by (cbn; by rewrite !lookup_alter_eq, Hh, Hnd).
  assert (Ho : ∀ x, x ≠ n → heap c3 !! x = heap c !! x).
  { intros x Hx. cbn. by rewrite !lookup_alter_ne, Hh by done. }
  assert (Hx : next_ref c3 = next_ref c) by (cbn; by rewrite (forgets_next _ _ _ HF2), (forgets_next _ _ _ HF1)).
  assert (Hlocs : ∀ b l, block_locations c3 !! b = Some l ↔ block_locations c !! b = Some l ∧
     (b ∈ take index (block_ids nd) ∨ ¬ below P c np b)).
  { assert (HF : forgets (λ b, gone b ∨ b ∈ drop index (block_ids nd)) c c2).
    { by apply (forgets_trans gone (.∈ drop index (block_ids nd)) _ c c1 c2). }
    intros b l. cbn. rewrite (proj2 HF), (below_split _ _ _ _ _ _ HI Hn Hnd). apply remove_locs. }
  destruct (covers_inv HI _ _ _ Hc) as (_ & _ & _ & _ & _ & _ & _ & _ & _ & _ & _ & _ & _ & _ & _ & ? & _).
  assert (Hl0 : length ks0 = S (length qp + index)) by (unfold index; lia).
  eapply (compress_represents m ks0 P c (<[n := qp ++ take index (edge_keys nd)]> (kept P qp nd))).
  - done.
  - eapply (trim_inv P c c3 n qp nd nd' index); try done. lia.
  - intros ks b. eapply (trim_mapped P c c3 n qp nd nd' index); try done. lia.
  - by rewrite lookup_insert_ne.
  - assert (size (<[n := qp ++ take index (edge_keys nd)]> (kept P qp nd)) <= size P).
    { rewrite <-!size_dom. apply subseteq_size. rewrite dom_insert. apply union_subseteq.
      split; [apply singleton_subseteq_l, elem_of_dom; eauto|apply dom_filter_subseteq]. }
    unfold walk_fuel. lia.
Qed.
End remove.

Lemma remove_block_spec m c b :
  represents m c →
  ((∀ ks, m !! ks ≠ Some b) → remove_block b c = (inr false, c)) ∧
  (∀ ks0, m !! ks0 = Some b →
     ∃ c', remove_block b c = (inr true, c') ∧ represents (without ks0 m) c').
Proof.
  intros (P & HI & Hm). split.
  - intros Hno. pose proof (unmapped_unlocated m P c HI Hm b Hno) as Hl.
    unfold remove_block, mbind, M_bind, getS. by rewrite Hl.
  - intros ks0 Hks. pose proof (proj1 (Hm _ _) Hks) as (n & qp & nd & Hc & Hnd & Hb).
    destruct (remove_facts P c n qp nd ks0 HI Hc Hnd)
      as (Hn & Hr & Hl & q & qd & k & Hpar & Hq & Hqd & Hhd & Hck & Hlen & Hidx).
    set (index := length ks0 - length qp - 1) in *.
    assert (Hloc : block_locations c !! b = Some (n, index)) by (apply (ri_loc _ _ HI); eauto).
    enough (wp (remove_block b) (λ r c', r = true ∧ represents (without ks0 m) c') noexn c) as Hwp.
    { destruct (wp_run _ _ _ Hwp) as (? & c' & ? & -> & ?). eauto. }
    unfold remove_block. wp_steps. rewrite Hloc. wp_step. eapply wp_deref; [done|].
    destruct (index =? 0) eqn:Ei; breflect.
    + rewrite Hpar, Hhd. cbn [of_option]. wp_steps. eapply wp_deref; [done|].
      rewrite Hck. rewrite bool_decide_eq_false_2 by done. unfold raise_if. wp_steps.
      by eapply (remove_node m P c n qp nd ks0 HI Hm Hc Hnd q qd k).
    + by apply (remove_suffix m P c n qp nd ks0 HI Hm Hc Hnd).
Qed.
