(* ===== verification/RadixLru.v ===== *)
(** * The prefix index: eviction candidates, the empty index, [validate]

    [lru_leaf_block] returns the least recently used leaf's deepest eligible
    block, so removing it never drops another eligible block. *)
From S2P Require Import Prelude RadixCache RadixSpec RadixOps RadixRemove.
Set Default Goal Selector "!".

Lemma map_lookup_singleton_root {A} (x : node_ref) (v w : A) :
  ({[ root := v ]} : gmap node_ref A) !! x = Some w → x = root ∧ w = v.
Proof. intros [<- <-]%lookup_singleton_Some. done. Qed.

Lemma radix_init_empty : represents ∅ radix_init.
Proof.
  exists {[ root := [] ]}. split.
  - split; cbn.
    + done.
    + by eexists.
    + intros n p [-> _]%map_lookup_singleton_root. done.
    + intros n p nd k m _ [-> ->]%map_lookup_singleton_root. done.
    + intros b n i. split; [done|]. by intros (p & nd & _ & [-> ->]%map_lookup_singleton_root & ?).
    + intros n [nd [-> _]%map_lookup_singleton_root]. unfold root. lia.
  - intros ks b. split; [done|]. intros (n & qp & nd & [Hr _] & [-> _]%map_lookup_singleton_root & _). done.
Qed.

Section lru.
Context (P : paths) (c : RadixPrefixCache) (eligible : gset nat) (HI : radix_inv P c).

(** The deepest eligible block of a node's edge. *)
Definition deepest (nd : RadixNode) : option nat :=
  head (filter (.∈ eligible) (reverse (block_ids nd))).

(** [b] is the deepest eligible block of a leaf below [p], last used at [t]. *)
Definition candidate (p : list BlockKey) (t b : nat) : Prop :=
  ∃ x xp xd, P !! x = Some xp ∧ p `prefix_of` xp ∧ heap c !! x = Some xd ∧ children xd = ∅ ∧
    last_access xd = t ∧ deepest xd = Some b.

Lemma children_visit {A} fuel (f : node_ref → MR (list A)) n p nd (Q : list BlockKey → A → Prop) :
  P !! n = Some p → heap c !! n = Some nd →
  (∀ x xp, P !! x = Some xp → subtree_size P xp <= fuel →
    ∃ rs, f x c = (inr rs, c) ∧ ∀ r, r ∈ rs ↔ Q xp r) →
  subtree_size P p <= S fuel →
  ∃ rs, mapM_M f ((map_to_list (children nd)).*2) c = (inr rs, c) ∧
    ∀ r, r ∈ concat rs ↔ ∃ k x xp, children nd !! k = Some x ∧ P !! x = Some xp ∧ Q xp r.
Proof.
  intros Hn Hnd Hf Hfuel.
  destruct (mapM_M_reads (λ x rs, ∃ xp, P !! x = Some xp ∧ ∀ r, r ∈ rs ↔ Q xp r) f
    ((map_to_list (children nd)).*2) c) as (rs & Hrs & HR).
  { intros x [k Hk]%elem_of_map_values. destruct (child_path _ _ _ _ _ _ _ HI Hn Hnd Hk) as (xd & _ & Hx & _).
    destruct (Hf x _ Hx) as (rs & ? & ?).
    { pose proof (subtree_size_child _ _ _ _ _ _ _ _ HI Hn Hnd Hk Hx). lia. }
    exists rs. eauto. }
  exists rs. split; [done|]. intros r. rewrite list_elem_of_In, in_concat. split.
  - intros (l & Hl%list_elem_of_In & Hr%list_elem_of_In).
    apply list_elem_of_lookup_1 in Hl as [i Hi]. destruct (Forall2_lookup_r _ _ _ _ _ HR Hi) as (x & Hx & xp & Hxp & HQ).
    apply list_elem_of_lookup_2, elem_of_map_values in Hx as [k Hk]. exists k, x, xp. split_and!; [done..|by apply HQ].
  - intros (k & x & xp & Hk & Hxp & HQ).
    assert (Hx : x ∈ (map_to_list (children nd)).*2) by (apply elem_of_map_values; eauto).
    apply list_elem_of_lookup_1 in Hx as [i Hi]. destruct (Forall2_lookup_l _ _ _ _ _ HR Hi) as (l & Hl & xp' & Hxp' & HQ').
    rewrite Hxp in Hxp'. injection Hxp' as <-.
    exists l. split; apply list_elem_of_In; [by eapply list_elem_of_lookup_2|by apply HQ'].
Qed.

Lemma candidate_children n p nd t b :
  P !! n = Some p → heap c !! n = Some nd → children nd ≠ ∅ →
  candidate p t b ↔ ∃ k x xp, children nd !! k = Some x ∧ P !! x = Some xp ∧ candidate xp t b.
Proof.
  intros Hn Hnd Hne. split.
  - intros (x & xp & xd & Hx & Hp & Hxd & Hch & Ht & Hb).
    destruct (subtree_step _ _ _ _ _ _ _ HI Hn Hnd Hx Hp) as [->|(k & y & yp & Hk & Hy & Hyp)].
    + rewrite Hnd in Hxd. injection Hxd as <-. done.
    + exists k, y, yp. split_and!; [done..|]. by exists x, xp, xd.
  - intros (k & y & yp & Hk & Hy & x & xp & xd & Hx & Hp & Hxd & Hch & Ht & Hb).
    destruct (child_path _ _ _ _ _ _ _ HI Hn Hnd Hk) as (yd & _ & Hy' & _). rewrite Hy in Hy'. injection Hy' as ->.
    exists x, xp, xd. split_and!; try done. etrans; [|done]. by eexists.
Qed.

Lemma subtree_size_pos n p : P !! n = Some p → 0 < subtree_size P p.
Proof.
  intros Hn. unfold subtree_size. apply Nat.neq_0_lt_0. intros E%map_size_empty_inv.
  assert (H : filter (λ e : node_ref * list BlockKey, p `prefix_of` e.2) P !! n = Some p)
    by (by apply map_lookup_filter_Some). by rewrite E in H.
Qed.

Lemma lru_visit_spec fuel n p :
  P !! n = Some p → subtree_size P p <= fuel →
  ∃ rs, lru_visit fuel eligible n c = (inr rs, c) ∧ ∀ r, r ∈ rs ↔ candidate p r.1 r.2.
Proof.
  revert n p. induction fuel as [|fuel IH]; intros n p Hn Hfuel.
  { pose proof (subtree_size_pos _ _ Hn). lia. }
  destruct (live_heap HI _ _ Hn) as [nd Hnd].
  simpl. unfold mbind at 1, M_bind, deref at 1, getS, mbind at 1, M_bind. rewrite Hnd. cbn [of_option].
  unfold mret at 1, M_ret. case_bool_decide as Hch.
  - eexists. split; [reflexivity|]. intros [t b]. cbn [fst snd].
    trans (last_access nd = t ∧ deepest nd = Some b).
    { unfold deepest. destruct (filter _ _); simpl; set_solver. }
    split.
    + intros [Ht Hb]. by exists n, p, nd.
    + intros (x & xp & xd & Hx & Hp & Hxd & Hxch & Ht & Hb).
      destruct (subtree_step _ _ _ _ _ _ _ HI Hn Hnd Hx Hp) as [->|(k & y & yp & Hk & _)].
      * rewrite Hnd in Hxd. by injection Hxd as <-.
      * by rewrite Hch in Hk.
  - destruct (children_visit fuel (lru_visit fuel eligible) n p nd (λ p r, candidate p r.1 r.2) Hn Hnd)
      as (rs & Hrs & HR); [by eauto|done|].
    unfold mbind, M_bind. rewrite Hrs. eexists. split; [reflexivity|]. intros r.
    rewrite HR, (candidate_children _ _ _ _ _ Hn Hnd Hch). done.
Qed.
End lru.

Lemma pair_lt_true x y : pair_lt x y = true ↔ x.1 < y.1 ∨ (x.1 = y.1 ∧ x.2 < y.2).
Proof. unfold pair_lt. by rewrite orb_true_iff, andb_true_iff, !Nat.ltb_lt, Nat.eqb_eq. Qed.
#[export] Instance pair_lt_strict : StrictWeak pair_lt.
Proof.
  split; intros *; rewrite <-?not_true_iff_false, ?pair_lt_true; lia.
Qed.

Lemma filter_head_split {A} (Q : A → Prop) `{!∀ x, Decision (Q x)} l b :
  head (filter Q l) = Some b → ∃ l1 l2, l = l1 ++ b :: l2 ∧ Q b ∧ ∀ x, x ∈ l1 → ¬ Q x.
Proof.
  induction l as [|x l IH]; simpl; [done|]. destruct (decide (Q x)) as [HQ|HQ].
  - rewrite filter_cons_True by done. intros [= ->]. exists [], l. split_and!; [done..|set_solver].
  - rewrite filter_cons_False by done. intros (l1 & l2 & -> & ? & Hl)%IH. exists (x :: l1), l2.
    split_and!; [done..|]. set_solver.
Qed.

Lemma lru_leaf_block_spec P c eligible :
  radix_inv P c →
  ∃ r, lru_leaf_block eligible c = (inr r, c) ∧
    match r with
    | None => ∀ t b, ¬ candidate P c eligible [] t b
    | Some b => ∃ t, candidate P c eligible [] t b ∧
        ∀ t' b', candidate P c eligible [] t' b' → t < t' ∨ (t = t' ∧ b <= b')
    end.
Proof.
  intros HI. pose proof (ri_root _ _ HI) as Hroot. destruct (ri_rootnd _ _ HI) as (rd & Hrd & _ & Hids & _).
  assert (Hfuel : ∀ p, subtree_size P p <= walk_fuel c).
  { intros p. pose proof (paths_size _ _ HI). pose proof (subtree_size_le P p). unfold walk_fuel. lia. }
  destruct (children_visit P c HI (walk_fuel c) (lru_visit (walk_fuel c) eligible) root [] rd
    (λ p r, candidate P c eligible p r.1 r.2)) as (rs & Hrs & HR); [done..| | |].
  { intros x xp Hx Hs. by apply lru_visit_spec. }
  { specialize (Hfuel []). lia. }
  assert (HC : ∀ r, r ∈ concat rs ↔ candidate P c eligible [] r.1 r.2).
  { intros r. rewrite HR. destruct (decide (children rd = ∅)) as [He|He].
    - split; [intros (k & x & xp & Hk & _); by rewrite He in Hk|].
      intros (x & xp & xd & Hx & Hp & Hxd & Hxch & Ht & Hb).
      destruct (subtree_step _ _ _ _ _ _ _ HI Hroot Hrd Hx Hp) as [->|(k & y & yp & Hk & _)].
      + rewrite Hrd in Hxd. injection Hxd as <-. unfold deepest in Hb. by rewrite Hids in Hb.
      + by rewrite He in Hk.
    - symmetry. by apply (candidate_children P c eligible HI root [] rd). }
  exists (snd <$> py_min pair_lt id (concat rs)). split.
  { unfold lru_leaf_block, mbind, M_bind, getS, deref, mbind, M_bind, getS. rewrite Hrd. cbn [of_option].
    unfold mret, M_ret. by rewrite Hrs. }
  destruct (py_min pair_lt id (concat rs)) as [[t b]|] eqn:Emin; cbn.
  - exists t. split; [by apply (HC (t, b)), (py_min_in _ _ _ _ Emin)|].
    intros t' b' Hc%(HC (t', b')). pose proof (py_min_least _ _ _ _ _ Emin Hc) as Hlt.
    rewrite <-not_true_iff_false, pair_lt_true in Hlt. cbn in Hlt. lia.
  - intros t b Hc%(HC (t, b)). destruct (concat rs); [set_solver|done].
Qed.

Lemma lru_victim_spec m c eligible :
  represents m c →
  ∃ r, lru_leaf_block eligible c = (inr r, c) ∧
    ∀ b, r = Some b →
      b ∈ eligible ∧
      ∃ ks, m !! ks = Some b ∧
        ∀ ks' b', m !! ks' = Some b' → ks `prefix_of` ks' → b' ∈ eligible → b' = b.
Proof.
  intros (P & HI & Hm). destruct (lru_leaf_block_spec P c eligible HI) as (r & Hr & Hspec).
  exists r. split; [done|]. intros b ->. destruct Hspec as (t & (x & xp & xd & Hx & _ & Hxd & Hch & _ & Hb) & _).
  apply filter_head_split in Hb as (l1 & l2 & El & Hel & Hl1). split; [done|].
  assert (Hids : block_ids xd = reverse l2 ++ b :: reverse l1).
  { rewrite <-(reverse_involutive (block_ids xd)), El, reverse_app, reverse_cons, <-app_assoc. done. }
  assert (Hxr : x ≠ root).
  { intros ->. destruct (ri_rootnd _ _ HI) as (rd & ? & _ & E & _). simplify_eq. rewrite E in Hids.
    by destruct (reverse l2). }
  destruct (ri_node _ _ HI x xp Hx Hxr) as (xd' & q & qp & qd & k & ? & ? & ? & ? & -> & ? & ? & Hlen). simplify_eq.
  set (i := length (reverse l2)).
  assert (Hi : block_ids xd !! i = Some b) by (rewrite Hids; by apply list_lookup_middle).
  assert (Hks := edge_mapped P c x qp xd i b Hx Hxr Hxd Hlen Hi). exists (qp ++ take (S i) (edge_keys xd)).
  split; [by apply Hm|]. intros ks' b' Hb' Hp Hel'. apply Hm in Hb' as (y & rp & yd & Hc & Hyd & Hj).
  assert (C0 : covers P c x qp (qp ++ take (S i) (edge_keys xd))).
  { apply lookup_lt_Some in Hi. split; [done|]. exists xd. split_and!; [done..| |apply prefix_app, prefix_take].
    rewrite length_app, length_take. lia. }
  assert (y = x) as ->.
  { destruct (cover_below P c x qp xd HI Hx Hxr _ _ _ _ C0 Hc Hp) as [|Hpre]; [done|exfalso].
    destruct (covers_inv HI _ _ _ Hc) as (? & r & rd & ky & _ & _ & _ & Hr' & Hrd & _ & _ & Hck & _).
    destruct (subtree_step _ _ _ _ _ _ _ HI Hx Hxd Hr' Hpre) as [->|(k' & ? & ? & Hk' & _)].
    - rewrite Hxd in Hrd. injection Hrd as <-. by rewrite Hch in Hck.
    - by rewrite Hch in Hk'. }
  rewrite Hxd in Hyd. injection Hyd as <-.
  assert (rp = qp) as ->.
  { destruct Hc as (_ & xd2 & Hxd2 & Hx2 & _). rewrite Hxd in Hxd2. injection Hxd2 as <-.
    rewrite Hx in Hx2. injection Hx2 as Hx2. by apply app_inv_tail in Hx2. }
  apply prefix_length in Hp. apply lookup_lt_Some in Hi as Hlt.
  rewrite length_app, length_take in Hp. set (j := length ks' - length qp - 1) in *.
  destruct (decide (j = i)) as [->|Hji]; [congruence|exfalso].
  rewrite Hids, lookup_app_r in Hj by lia.
  destruct (j - length (reverse l2)) as [|d] eqn:Ed; [lia|]. simpl in Hj.
  apply list_elem_of_lookup_2 in Hj. apply (Hl1 b'); [|done]. by rewrite elem_of_reverse in Hj.
Qed.

(** No victim means that no maximal indexed path ends in an eligible block. *)
Lemma lru_victim_progress m c eligible c' ks b :
  represents m c → lru_leaf_block eligible c = (inr None, c') → m !! ks = Some b →
  (∀ ks', is_Some (m !! ks') → ks `prefix_of` ks' → ks' = ks) → b ∉ eligible.
Proof.
  intros (P & HI & Hm) Hrun Hks Hmax Hel. destruct (lru_leaf_block_spec P c eligible HI) as (r & Hr & Hspec).
  rewrite Hrun in Hr. injection Hr as <- ->. apply Hm in Hks as (n & qp & nd & Hc & Hnd & Hb).
  pose proof Hc as (_ & nd' & Hnd' & Hn & Hl & Hp). rewrite Hnd in Hnd'. injection Hnd' as <-.
  assert (Hch : children nd = ∅).
  { apply map_empty. intros k. destruct (children nd !! k) as [x|] eqn:Hk; [exfalso|done].
    destruct (ri_child _ _ HI n _ nd k x Hn Hnd Hk) as (Hx & (xp & Hxp) & _).
    destruct (child_path _ _ _ _ _ _ _ HI Hn Hnd Hk) as (xd & Hxd & Hxp' & _). rewrite Hxp in Hxp'. injection Hxp' as ->.
    destruct (covers_self HI _ _ Hxp Hx) as (? & q & qp' & ? & ? & E & ? & ? & ? & Hpath & Hhd & ? & ? & Hcx).
    destruct (covers_mapped HI _ _ _ Hcx) as [b' Hb']. apply Hm in Hb'.
    rewrite Hxd in E. injection E as <-.
    rewrite <-(Hmax _ (mk_is_Some _ _ Hb')) in Hp by (etrans; [exact Hp|by eexists]).
    apply prefix_length in Hp. rewrite length_app in Hp. destruct (edge_keys xd); simpl in *; [done|lia]. }
  assert (Hf : b ∈ filter (.∈ eligible) (reverse (block_ids nd))).
  { apply list_elem_of_filter. split; [done|]. apply elem_of_reverse. by eapply list_elem_of_lookup_2. }
  destruct (deepest eligible nd) as [b'|] eqn:Ed.
  - apply (Hspec (last_access nd) b'). exists n, (qp ++ edge_keys nd), nd. split_and!; try done. apply prefix_nil.
  - unfold deepest in Ed. destruct (filter _ _); [set_solver|done].
Qed.

(** C37: [insert] extends a leaf by a child without merging the two edges, and
    [validate] asserts that no inner node has a single child: it raises on an index that
    [insert] itself built. *)
Theorem validate_rejects_leaf_extension :
  let k i : BlockKey := [i] in
  let c1 := (insert_prefix [k 1%Z; k 2%Z] [10; 11] radix_init).2 in
  let r := insert_prefix [k 1%Z; k 2%Z; k 3%Z] [10; 11; 12] c1 in
  (validate c1).1 = inr tt ∧ r.1 = inr tt ∧
  (validate (r.2)).1 = inl (AssertionError "len(node.children) != 1").
Proof. vm_compute. done. Qed.
