(* ===== verification/RadixContract.v ===== *)
(** * The contract of the prefix index

    Sequences of calls on the index of [RadixCache.v] against a finite map from
    paths of block keys to blocks: every call returns, answers what the map
    answers, and leaves an index of the next map. *)
From S2P Require Import Prelude RadixCache RadixSpec RadixOps RadixRemove RadixLru.
Set Default Goal Selector "!".

Abbreviation paths := (gmap (list BlockKey) nat).

(** ** Calls and answers *)
Inductive radix_call :=
| CMatch (keys : list BlockKey)
| CInsert (keys : list BlockKey) (ids : list nat)
| CRemove (b : nat)
| CVictim (eligible : gset nat).
Inductive radix_answer :=
| ABlocks (l : list nat)
| ADone
| ARemoved (b : bool)
| AVictim (o : option nat).
Definition do_call (o : radix_call) : M RadixPrefixCache radix_answer :=
  match o with
  | CMatch keys => l ← match_prefix keys; mret (ABlocks l)
  | CInsert keys ids => insert_prefix keys ids;; mret ADone
  | CRemove b => r ← remove_block b; mret (ARemoved r)
  | CVictim eligible => r ← lru_leaf_block eligible; mret (AVictim r)
  end.

(** ** The abstract index *)
(** A block that can go without taking another eligible block with it. *)
Definition evictable (m : paths) (eligible : gset nat) (b : nat) : Prop :=
  b ∈ eligible ∧ ∃ ks, m !! ks = Some b ∧
    ∀ ks' b', m !! ks' = Some b' → ks `prefix_of` ks' → b' ∈ eligible → b' = b.
Inductive spec_call (m : paths) : radix_call → radix_answer → paths → Prop :=
| spec_match keys : spec_call m (CMatch keys) (ABlocks (longest_match m keys)) m
| spec_insert keys ids : spec_call m (CInsert keys ids) ADone (m ∪ path_map keys ids)
| spec_remove_hit b ks : m !! ks = Some b → spec_call m (CRemove b) (ARemoved true) (without ks m)
| spec_remove_miss b : (∀ ks, m !! ks ≠ Some b) → spec_call m (CRemove b) (ARemoved false) m
| spec_victim eligible o :
    match o with
    | Some b => evictable m eligible b
    | None => ∀ ks b, m !! ks = Some b → (∀ ks', is_Some (m !! ks') → ks `prefix_of` ks' → ks' = ks) → b ∉ eligible
    end → spec_call m (CVictim eligible) (AVictim o) m.
(** What the callers owe: only [insert] asks for something. *)
Definition call_ok (m : paths) (o : radix_call) : Prop :=
  match o with
  | CInsert keys ids => length keys = length ids ∧ NoDup ids ∧ fresh_path m keys ids
  | _ => True
  end.
Inductive spec_run : paths → list radix_call → list radix_answer → paths → Prop :=
| spec_run_nil m : spec_run m [] [] m
| spec_run_cons m o a m1 os al m2 :
    spec_call m o a m1 → spec_run m1 os al m2 → spec_run m (o :: os) (a :: al) m2.
Inductive calls_ok : paths → list radix_call → Prop :=
| calls_ok_nil m : calls_ok m []
| calls_ok_cons m o os :
    call_ok m o → (∀ a m1, spec_call m o a m1 → calls_ok m1 os) → calls_ok m (o :: os).

(** One call, then the sequence. *)
Lemma block_mapped_dec (m : paths) b : (∃ ks, m !! ks = Some b) ∨ ∀ ks, m !! ks ≠ Some b.
Proof.
  destruct (decide (b ∈ (map_to_list m).*2)) as [Hb|Hb].
  - left. apply list_elem_of_fmap in Hb as ([ks b'] & -> & Hin). exists ks. by apply elem_of_map_to_list.
  - right. intros ks Hks. apply Hb, list_elem_of_fmap. exists (ks, b). split; [done|]. by apply elem_of_map_to_list.
Qed.
Lemma call_simulated m c o :
  represents m c → call_ok m o →
  ∃ a m1 c1, do_call o c = (inr a, c1) ∧ spec_call m o a m1 ∧ represents m1 c1.
Proof.
  intros Hm Hok. destruct o as [keys|keys ids|b|eligible]; simpl in *.
  - destruct (match_prefix_spec m c keys Hm) as (c1 & Hrun & Hm1 & _).
    eexists _, m, c1. unfold mbind, M_bind. rewrite Hrun. split_and!; [done|constructor|done].
  - destruct Hok as (Hlen & Hdup & Hfresh).
    destruct (insert_prefix_spec m c keys ids Hm Hlen Hdup Hfresh) as (c1 & Hrun & Hm1).
    eexists _, _, c1. unfold mbind, M_bind. rewrite Hrun. split_and!; [done|constructor|done].
  - destruct (remove_block_spec m c b Hm) as [Hno Hyes].
    destruct (block_mapped_dec m b) as [[ks Hks]|Hb].
    + destruct (Hyes ks Hks) as (c1 & Hrun & Hm1). eexists _, _, c1. unfold mbind, M_bind. rewrite Hrun.
      split_and!; [done|by constructor|done].
    + eexists _, m, c. unfold mbind, M_bind. rewrite Hno by done. split_and!; [done|by constructor|done].
  - destruct (lru_victim_spec m c eligible Hm) as (r & Hrun & Hr).
    eexists _, m, c. unfold mbind, M_bind. rewrite Hrun. split_and!; [done| |done].
    constructor. destruct r as [b|]; [by apply Hr|]. intros ks b. by eapply lru_victim_progress.
Qed.
Lemma calls_simulated m c os :
  represents m c → calls_ok m os →
  ∃ al m1 c1, mapM_M do_call os c = (inr al, c1) ∧ spec_run m os al m1 ∧ represents m1 c1.
Proof.
  intros Hm Hok. revert c Hm. induction Hok as [m|m o os Ho _ IH]; intros c Hm.
  { exists [], m, c. split_and!; [done|constructor|done]. }
  destruct (call_simulated m c o Hm Ho) as (a & m1 & c1 & Hrun & Hs & Hm1).
  destruct (IH a m1 Hs c1 Hm1) as (al & m2 & c2 & Hrun2 & Hs2 & Hm2).
  exists (a :: al), m2, c2. simpl. unfold mbind, M_bind. rewrite Hrun, Hrun2.
  split_and!; [done|by econstructor|done].
Qed.

(** C5: the prefix index refines a finite map from token paths to blocks: run
    from the empty index, every sequence of [match], [insert], [remove_block] and
    [lru_leaf_block] calls whose insertions are well-formed returns without an
    exception, with the answers of the map run beside it. *)
Theorem radix_refines_map os :
  calls_ok ∅ os →
  ∃ answers m c, mapM_M do_call os radix_init = (inr answers, c) ∧ spec_run ∅ os answers m ∧ represents m c.
Proof. intros Hok. apply calls_simulated; [apply radix_init_empty|done]. Qed.

(** ** Matching *)
(** C7: [match] returns the blocks of the longest indexed chain of prefixes of the
    key sequence: each block is the one of its prefix, and the next prefix, when
    there is one, is not indexed. It changes nothing but the statistics, which
    count the lookup, the queried and the hit blocks. *)
Theorem match_prefix_longest m c keys :
  represents m c →
  ∃ l c', match_prefix keys c = (inr l, c') ∧ represents m c' ∧
    (∀ i b, l !! i = Some b → m !! take (S i) keys = Some b) ∧
    length l <= length keys ∧ (length l < length keys → m !! take (S (length l)) keys = None) ∧
    counters c' = (S (lookups c), queried_blocks c + length keys, hit_blocks c + length l).
Proof.
  intros Hm. destruct (match_prefix_spec m c keys Hm) as (c' & Hrun & Hm' & Hc).
  destruct (longest_from_char m [] keys) as (H1 & H2 & H3). exists (longest_match m keys), c'. split_and!; done.
Qed.

(** Eviction: the block [lru_leaf_block] picks is eligible and indexed, and
    removing it succeeds and un-indexes no other eligible block. *)
Theorem lru_eviction_safe m c eligible b c1 :
  represents m c → lru_leaf_block eligible c = (inr (Some b), c1) →
  c1 = c ∧ b ∈ eligible ∧
  ∃ m' c', remove_block b c = (inr true, c') ∧ represents m' c' ∧ m' ⊆ m ∧ (∀ ks, m' !! ks ≠ Some b) ∧
    ∀ ks b', m !! ks = Some b' → b' ∈ eligible → b' ≠ b → m' !! ks = Some b'.
Proof.
  intros Hm Hrun. destruct (lru_victim_spec m c eligible Hm) as (r & Hrun' & Hr).
  rewrite Hrun in Hrun'. injection Hrun' as <- ->. destruct (Hr b eq_refl) as (Hel & ks & Hks & Hother).
  split_and!; [done..|]. destruct (remove_block_spec m c b Hm) as [_ Hyes].
  destruct (Hyes ks Hks) as (c' & Hrm & Hm'). exists (without ks m), c'. unfold without in *. split_and!; [done..| | |].
  - apply map_filter_subseteq.
  - intros ks' H'. apply map_lookup_filter_Some in H' as [H' Hp]. destruct Hm as (P & HI & Hm).
    apply Hp. assert (ks' = ks) as ->; [|done]. by eapply mapped_inj; [|apply Hm|apply Hm].
  - intros ks' b' H' Hel' Hne. apply map_lookup_filter_Some. split; [done|]. intros Hp. by eapply Hne, Hother.
Qed.

(** ** Witnesses: an index of one path of two blocks *)
Definition key (i : Z) : BlockKey := [i].
Definition two_path : RadixPrefixCache := (insert_prefix [key 1; key 2] [10; 11] radix_init).2.
Definition two_map : paths := ∅ ∪ path_map [key 1; key 2] [10; 11].
Lemma two_insert_ok : call_ok ∅ (CInsert [key 1; key 2] [10; 11]).
Proof.
  simpl. split_and!; [done|by apply (bool_decide_unpack _); vm_compute|].
  intros i b _ _ ks. by rewrite lookup_empty.
Qed.
Lemma two_path_represents : represents two_map two_path.
Proof.
  destruct two_insert_ok as (H1 & H2 & H3).
  destruct (insert_prefix_spec ∅ radix_init _ _ radix_init_empty H1 H2 H3) as (c & Hrun & Hm).
  unfold two_path. by rewrite Hrun.
Qed.

Lemma radix_refines_map_witness :
  let calls := [CInsert [key 1; key 2] [10; 11]; CMatch [key 1; key 2; key 3]; CRemove 10; CVictim {[11]}] in
  calls_ok ∅ calls ∧
  ∃ answers m c, mapM_M do_call calls radix_init = (inr answers, c) ∧ spec_run ∅ calls answers m ∧ represents m c.
Proof.
  intros calls. assert (Hok : calls_ok ∅ calls).
  { constructor; [exact two_insert_ok|]. intros a m1 _. repeat (constructor; [done|]; intros ???). constructor. }
  split; [exact Hok|]. exact (radix_refines_map calls Hok).
Defined.
Lemma match_prefix_longest_witness :
  represents two_map two_path ∧
  ∃ l c', match_prefix [key 1; key 2; key 3] two_path = (inr l, c') ∧ represents two_map c' ∧
    (∀ i b, l !! i = Some b → two_map !! take (S i) [key 1; key 2; key 3] = Some b) ∧
    length l <= 3 ∧ (length l < 3 → two_map !! take (S (length l)) [key 1; key 2; key 3] = None) ∧
    counters c' = (S (lookups two_path), queried_blocks two_path + 3, hit_blocks two_path + length l).
Proof.
  split; [exact two_path_represents|]. exact (match_prefix_longest two_map two_path [key 1; key 2; key 3] two_path_represents).
Defined.
Lemma lru_eviction_safe_witness :
  lru_leaf_block {[10; 11]} two_path = (inr (Some 11), two_path) ∧
  ∃ m' c', remove_block 11 two_path = (inr true, c') ∧ represents m' c' ∧ m' ⊆ two_map.
Proof.
  assert (Hrun : lru_leaf_block {[10; 11]} two_path = (inr (Some 11), two_path)) by (vm_compute; reflexivity).
  split; [exact Hrun|].
  destruct (lru_eviction_safe two_map two_path {[10; 11]} 11 two_path two_path_represents Hrun)
    as (_ & _ & m' & c' & H1 & H2 & H3 & _). exists m', c'. auto.
Defined.
