(* ===== verification/BlockManager.v ===== *)
(** * KV block accounting and prefix lookup

    Models [nanovllm/engine/block_manager.py]. A method that only reads a
    request runs on the manager; a method that also mutates the request runs on
    the pair. Block ids index the list [blocks]. The hash of a block's bytes and
    numpy's array layout are third-party code: the class [Hasher]. *)
From S2P Require Import Prelude Qos Sequence RadixCache.
Set Default Goal Selector "!".

(** [xxhash.xxh64(data).intdigest()] and [np.array(token_ids).tobytes()] *)
Class Hasher := {
  xxh64 : list Z → Z;
  np_tobytes : list Z → list Z
}.

(** ** Blocks *)
Record Block := mkBlock {
  ref_count : Z;
  hash : Z;
  btoken_ids : list Z
}.
#[export] Instance Block_eta : RecordEta Block := λ r, {|
  ref_count := ref_count r; hash := hash r; btoken_ids := btoken_ids r |}.
#[export] Instance set_ref_count : Setter ref_count := ltac:(derive_setter).
#[export] Instance set_hash : Setter hash := ltac:(derive_setter).
#[export] Instance set_btoken_ids : Setter btoken_ids := ltac:(derive_setter).

Definition block_init : Block := {| ref_count := 0; hash := -1; btoken_ids := [] |}.
(** [Block.update] *)
Definition block_update (h : Z) (tokens : list Z) (b : Block) : Block :=
  b <| hash := h |> <| btoken_ids := tokens |>.
(** [Block.reset] *)
Definition block_reset (b : Block) : Block :=
  b <| ref_count := 1%Z |> <| hash := (-1)%Z |> <| btoken_ids := [] |>.

Inductive PrefixCacheBackend := HashBackend | RadixBackend.
#[export] Instance PrefixCacheBackend_eq_dec : EqDecision PrefixCacheBackend.
Proof. solve_decision. Defined.

Record BlockManager := mkBlockManager {
  block_size : nat;
  prefix_cache_backend : PrefixCacheBackend;
  blocks : list Block;
  hash_to_block_id : gmap Z nat;
  radix_cache : option RadixPrefixCache;
  free_block_ids : list nat;
  used_block_ids : gset nat;
  pending_matches : gmap nat (list nat);
  pending_resume_matches : gmap nat (list nat);
  cache_lookups : nat;
  cache_queried_blocks : nat;
  cache_hit_blocks : nat;
  cache_evictions : nat
}.
#[export] Instance BlockManager_eta : RecordEta BlockManager := λ r, {|
  block_size := block_size r; prefix_cache_backend := prefix_cache_backend r;
  blocks := blocks r; hash_to_block_id := hash_to_block_id r; radix_cache := radix_cache r;
  free_block_ids := free_block_ids r; used_block_ids := used_block_ids r;
  pending_matches := pending_matches r; pending_resume_matches := pending_resume_matches r;
  cache_lookups := cache_lookups r; cache_queried_blocks := cache_queried_blocks r;
  cache_hit_blocks := cache_hit_blocks r; cache_evictions := cache_evictions r |}.
#[export] Instance set_blocks : Setter blocks := ltac:(derive_setter).
#[export] Instance set_hash_to_block_id : Setter hash_to_block_id := ltac:(derive_setter).
#[export] Instance set_radix_cache : Setter radix_cache := ltac:(derive_setter).
#[export] Instance set_free_block_ids : Setter free_block_ids := ltac:(derive_setter).
#[export] Instance set_used_block_ids : Setter used_block_ids := ltac:(derive_setter).
#[export] Instance set_pending_matches : Setter pending_matches := ltac:(derive_setter).
#[export] Instance set_pending_resume_matches : Setter pending_resume_matches := ltac:(derive_setter).
#[export] Instance set_cache_lookups : Setter cache_lookups := ltac:(derive_setter).
#[export] Instance set_cache_queried_blocks : Setter cache_queried_blocks := ltac:(derive_setter).
#[export] Instance set_cache_hit_blocks : Setter cache_hit_blocks := ltac:(derive_setter).
#[export] Instance set_cache_evictions : Setter cache_evictions := ltac:(derive_setter).

(** [BlockManager.__init__] *)
Definition block_manager_init (num_blocks bs : nat) (backend : string) : result BlockManager :=
  throw_if (negb (String.eqb backend "hash" || String.eqb backend "radix"))
    (ValueError ("unsupported prefix cache backend: " +:+ backend));;
  let radix := String.eqb backend "radix" in
  mret {|
    block_size := bs;
    prefix_cache_backend := if radix then RadixBackend else HashBackend;
    blocks := replicate num_blocks block_init;
    hash_to_block_id := ∅;
    radix_cache := if radix then Some radix_init else None;
    free_block_ids := seq 0 num_blocks;
    used_block_ids := ∅;
    pending_matches := ∅; pending_resume_matches := ∅;
    cache_lookups := 0; cache_queried_blocks := 0; cache_hit_blocks := 0; cache_evictions := 0 |}.

Abbreviation MB := (M BlockManager).
Abbreviation MBS := (M (BlockManager * Sequence)).

(** ** Access *)
(** [self.blocks[i]] *)
Definition get_block (i : nat) : MB Block :=
  bm ← getS; of_option (IndexError "list index out of range") (blocks bm !! i).
Definition update_block (i : nat) (f : Block → Block) : MB () :=
  modifyS (λ bm, bm <| blocks := alter f i (blocks bm) |>).
(** A call on [self.radix_cache] *)
Definition on_radix {A} (m : MR A) : MB A := λ bm,
  match radix_cache bm with
  | None => (inl (TypeError "'NoneType' object has no attribute"), bm)
  | Some c => match m c with (r, c') => (r, bm <| radix_cache := Some c' |>) end
  end.
(** [deque.remove(x)] *)
Fixpoint remove_first (x : nat) (l : list nat) : option (list nat) :=
  match l with
  | [] => None
  | y :: l => if decide (x = y) then Some l else cons y <$> remove_first x l
  end.
Definition free_remove (b : nat) : MB () :=
  bm ← getS;
  l ← of_option (ValueError "deque.remove(x): x not in deque") (remove_first b (free_block_ids bm));
  putS (bm <| free_block_ids := l |>).
Definition use_block (b : nat) : MB () :=
  modifyS (λ bm, bm <| used_block_ids := {[ b ]} ∪ used_block_ids bm |>).
Definition add_ref (b : nat) : MB () := update_block b (λ bl, bl <| ref_count := (ref_count bl + 1)%Z |>).
Definition set_ref (b : nat) (k : Z) : MB () := update_block b (λ bl, bl <| ref_count := k |>).
Definition num_free : MB nat := getsS (λ bm, length (free_block_ids bm)).

Section block_manager.
Context `{Hasher}.

(** [prefix.to_bytes(8, "little")] *)
Definition to_bytes8 (x : Z) : list Z :=
  (λ i, Z.land (Z.shiftr x (8 * Z.of_nat i)) 255) <$> seq 0 8.

(** [BlockManager.compute_hash] *)
Definition compute_hash (tokens : list Z) (prefix : Z) : Z :=
  xxh64 ((if (prefix =? -1)%Z then [] else to_bytes8 prefix) ++ np_tobytes tokens).

(** ** [_allocate_block], [_deallocate_block] *)
Definition pick_free_block : MB nat :=
  bm ← getS;
  match radix_cache bm with
  | None =>
      match free_block_ids bm with
      | [] => raise (IndexError "pop from an empty deque")
      | b :: l => modifyS (λ bm, bm <| free_block_ids := l |>);; mret b
      end
  | Some c =>
      b ← match list_find (λ b, block_locations c !! b = None) (free_block_ids bm) with
          | Some (_, b) => mret b
          | None =>
              lru ← on_radix (lru_leaf_block (list_to_set (free_block_ids bm)));
              match lru with
              | Some b => mret b
              | None =>
                  bm ← getS;
                  of_option (IndexError "deque index out of range") (head (free_block_ids bm))
              end
          end;
      free_remove b;;
      mret b
  end.

Definition allocate_block : MB nat :=
  b ← pick_free_block;
  bl ← get_block b;
  assertM (ref_count bl =? 0)%Z "block.ref_count == 0";;
  bm ← getS;
  (if decide (prefix_cache_backend bm = HashBackend) then
     if negb (hash bl =? -1)%Z && bool_decide (hash_to_block_id bm !! hash bl = Some b)
     then modifyS (λ bm, bm <| hash_to_block_id := delete (hash bl) (hash_to_block_id bm) |>)
     else mret tt
   else
     removed ← on_radix (remove_block b);
     if removed : bool then modifyS (λ bm, bm <| cache_evictions := S (cache_evictions bm) |>)
     else mret tt);;
  update_block b block_reset;;
  use_block b;;
  mret b.

Definition deallocate_block (b : nat) : MB () :=
  bl ← get_block b;
  assertM (ref_count bl =? 0)%Z "self.blocks[block_id].ref_count == 0";;
  bm ← getS;
  raise_if (negb (bool_decide (b ∈ used_block_ids bm))) (KeyError "block_id");;
  modifyS (λ bm, bm <| used_block_ids := used_block_ids bm ∖ {[ b ]} |>);;
  modifyS (λ bm, bm <| free_block_ids := free_block_ids bm ++ [b] |>).

(** [block.ref_count -= 1; if block.ref_count == 0: self._deallocate_block(block_id)] *)
Definition release_block (b : nat) : MB () :=
  bl ← get_block b;
  update_block b (λ bl, bl <| ref_count := (ref_count bl - 1)%Z |>);;
  if (ref_count bl - 1 =? 0)%Z then deallocate_block b else mret tt.

(** ** Prefix lookup *)
(** [[tuple(seq.block(i)) for i in range(n)]] *)
Definition block_keys (bs : nat) (s : Sequence) (n : nat) : result (list (list Z)) :=
  mapR (λ i, block bs i s) (seq 0 n).

Fixpoint hash_lookup_loop (idx : list nat) (s : Sequence) (h : Z) (matched : list nat) : MB (list nat) :=
  match idx with
  | [] => mret matched
  | i :: idx =>
      bm ← getS;
      tokens ← lift (block (block_size bm) i s);
      let h := compute_hash tokens h in
      match hash_to_block_id bm !! h with
      | None => mret matched
      | Some b =>
          bl ← get_block b;
          if decide (btoken_ids bl = tokens) then hash_lookup_loop idx s h (matched ++ [b])
          else mret matched
      end
  end.

(** [_lookup_cached_blocks] *)
Definition lookup_cached_blocks (s : Sequence) : MB (list nat) :=
  bm ← getS;
  let n := num_blocks (block_size bm) s - 1 in
  modifyS (λ bm, bm <| cache_lookups := S (cache_lookups bm) |>);;
  modifyS (λ bm, bm <| cache_queried_blocks := cache_queried_blocks bm + n |>);;
  matched ← (if decide (prefix_cache_backend bm = RadixBackend) then
               keys ← lift (block_keys (block_size bm) s n);
               on_radix (match_prefix keys)
             else hash_lookup_loop (seq 0 n) s (-1) []);
  modifyS (λ bm, bm <| cache_hit_blocks := cache_hit_blocks bm + length matched |>);;
  mret matched.

Definition count_used (bm : BlockManager) (l : list nat) : nat :=
  length (filter (.∈ used_block_ids bm) l).

(** [can_allocate]; [None] is the code's [-1]. *)
Definition can_allocate (s : Sequence) : MB (option nat) :=
  cached ← lookup_cached_blocks s;
  bm ← getS;
  let num_new_blocks := num_blocks (block_size bm) s - count_used bm cached in
  if length (free_block_ids bm) <? num_new_blocks then
    modifyS (λ bm, bm <| pending_matches := delete (seq_id s) (pending_matches bm) |>);;
    mret None
  else
    modifyS (λ bm, bm <| pending_matches := <[seq_id s := cached]> (pending_matches bm) |>);;
    mret (Some (length cached)).

Definition cached_prefix_blocks (s : Sequence) : MB nat :=
  l ← lookup_cached_blocks s; mret (length l).

Definition planned_allocation_pages (s : Sequence) : MB Z :=
  bm ← getS;
  matched ← of_option (KeyError "seq.seq_id") (pending_matches bm !! seq_id s);
  mret (Z.of_nat (num_blocks (block_size bm) s) - Z.of_nat (count_used bm matched))%Z.

(** Take a reference to a matched block, as [allocate] and as [resume] do. *)
Definition share_block (b : nat) : MB () :=
  bm ← getS;
  _ ← get_block b;
  if bool_decide (b ∈ used_block_ids bm) then add_ref b
  else set_ref b 1;; free_remove b;; use_block b.
Definition reuse_block (b : nat) : MB () :=
  bm ← getS;
  _ ← get_block b;
  if bool_decide (b ∈ used_block_ids bm) then add_ref b
  else free_remove b;; use_block b;; set_ref b 1.

Definition modify_seq (f : Sequence → Sequence) : MBS () := on_snd (modifyS f).
Definition append_block (b : nat) : MBS () :=
  modify_seq (λ s, s <| block_table := block_table s ++ [b] |>).

(** ** [allocate] *)
Definition allocate (num_cached_blocks : nat) : MBS () :=
  '(bm, s) ← getS;
  assertM (bool_decide (block_table s = [])) "not seq.block_table";;
  let pending := pending_matches bm !! seq_id s in
  on_fst (modifyS (λ bm, bm <| pending_matches := delete (seq_id s) (pending_matches bm) |>));;
  cached ← match pending with
           | Some l => if length l =? num_cached_blocks then mret l else on_fst (lookup_cached_blocks s)
           | None => on_fst (lookup_cached_blocks s)
           end;
  raise_if (negb (length cached =? num_cached_blocks))
    (RuntimeError "prefix cache changed between capacity check and allocation");;
  forM cached (λ b, on_fst (share_block b);; append_block b);;
  let n := num_blocks (block_size bm) s in
  forM (seq num_cached_blocks (n - num_cached_blocks)) (λ _,
    b ← on_fst allocate_block; append_block b);;
  modify_seq (λ s, s <| kv_block_logical_indices := seq 0 n |>);;
  modify_seq (λ s, s <| num_cached_tokens := num_cached_blocks * block_size bm |>);;
  modify_seq (λ s, s <| num_physical_cached_tokens := num_cached_tokens s |>).

(** ** Remote restore *)
Definition reserve_restore (num_local num_remote : nat) : MBS (list nat) :=
  '(bm, s) ← getS;
  raise_if (negb ((num_local <? num_remote) && (num_remote <? num_blocks (block_size bm) s)))
    (ValueError "restored prefix must extend the local cache and leave a writable tail");;
  allocate num_local;;
  '(_, s) ← getS;
  mret (slice num_local num_remote (block_table s)).

(** [seq.block_table[i]] *)
Definition table_block (i : nat) (s : Sequence) : MB nat :=
  of_option (IndexError "list index out of range") (block_table s !! i).

(** The loop that stores a block's tokens without a hash. *)
Definition store_tokens (s : Sequence) (idx : list nat) : MB () :=
  forM idx (λ i,
    b ← table_block i s;
    _ ← get_block b;
    bm ← getS;
    tokens ← lift (block (block_size bm) i s);
    update_block b (block_update (-1) tokens)).

(** The loop that chains block hashes from [h]. *)
Fixpoint chain_hashes (s : Sequence) (idx : list nat) (h : Z) : MB () :=
  match idx with
  | [] => mret tt
  | i :: idx =>
      b ← table_block i s;
      _ ← get_block b;
      bm ← getS;
      tokens ← lift (block (block_size bm) i s);
      let h := compute_hash tokens h in
      update_block b (block_update h tokens);;
      modifyS (λ bm, bm <| hash_to_block_id := <[h := b]> (hash_to_block_id bm) |>);;
      chain_hashes s idx h
  end.

Definition commit_restored_prefix (num_cached_blocks : nat) : MBS () :=
  '(bm, s) ← getS;
  let bs := block_size bm in
  let current_blocks := num_cached_tokens s / bs in
  raise_if (negb ((current_blocks <? num_cached_blocks) && (num_cached_blocks <? num_blocks bs s)))
    (ValueError "restored prefix length is invalid");;
  raise_if (negb (length (block_table s) =? num_blocks bs s))
    (RuntimeError "restored request does not own a complete block table");;
  on_fst (if decide (prefix_cache_backend bm = RadixBackend) then
            store_tokens s (seq current_blocks (num_cached_blocks - current_blocks));;
            keys ← lift (block_keys bs s num_cached_blocks);
            on_radix (insert_prefix keys (take num_cached_blocks (block_table s)))
          else chain_hashes s (seq 0 num_cached_blocks) (-1));;
  modify_seq (λ s, s <| num_cached_tokens := num_cached_blocks * bs |>);;
  modify_seq (λ s, s <| num_physical_cached_tokens := num_cached_tokens s |>).

(** ** [deallocate] and [abort_restore] *)
Definition deallocate : MBS () :=
  '(_, s) ← getS;
  on_fst (modifyS (λ bm, bm <| pending_resume_matches := delete (seq_id s) (pending_resume_matches bm) |>));;
  forM (reverse (block_table s)) (λ b, on_fst (release_block b));;
  modify_seq (λ s, s <| num_cached_tokens := 0 |>);;
  modify_seq (λ s, s <| num_physical_cached_tokens := 0 |>);;
  modify_seq (λ s, s <| kv_compressed := false |>);;
  modify_seq (λ s, s <| block_table := [] |>);;
  modify_seq (λ s, s <| kv_block_logical_indices := [] |>).

Definition abort_restore : MBS () :=
  '(_, s) ← getS;
  if bool_decide (block_table s = []) then mret tt else deallocate.

(** ** [reclaim_suffix] *)
Definition reclaim_suffix (keep_blocks : nat) : MBS nat :=
  '(bm, s) ← getS;
  raise_if (negb (keep_blocks <=? length (block_table s)))
    (ValueError "keep_blocks must be within the owned block table");;
  raise_if (num_cached_tokens s <? keep_blocks * block_size bm)
    (ValueError "cannot retain blocks containing uncomputed KV tokens");;
  free_before ← on_fst num_free;
  on_fst (modifyS (λ bm, bm <| pending_resume_matches := delete (seq_id s) (pending_resume_matches bm) |>));;
  let released := drop keep_blocks (block_table s) in
  forM (reverse released) (λ b, on_fst (release_block b));;
  modify_seq (λ s, s <| block_table := take keep_blocks (block_table s) |>);;
  modify_seq (λ s, s <| kv_block_logical_indices := take keep_blocks (kv_block_logical_indices s) |>);;
  modify_seq (λ s, s <| num_cached_tokens := keep_blocks * block_size bm |>);;
  modify_seq (λ s, s <| num_physical_cached_tokens := num_cached_tokens s |>);;
  free_after ← on_fst num_free;
  mret (free_after - free_before).

(** ** [can_resume], [resume] *)
Definition can_resume (s : Sequence) : MB bool :=
  bm ← getS;
  let n := num_blocks (block_size bm) s in
  raise_if (n <? length (block_table s))
    (RuntimeError "request owns more KV blocks than its sequence needs");;
  let missing_blocks := n - length (block_table s) in
  cached ← lookup_cached_blocks s;
  let retained_blocks := length (block_table s) in
  let cached_suffix :=
    if decide (take retained_blocks cached = block_table s)
    then slice retained_blocks (retained_blocks + missing_blocks) cached
    else [] in
  bm ← getS;
  let already_used := count_used bm cached_suffix in
  if length (free_block_ids bm) <? missing_blocks - already_used then
    modifyS (λ bm, bm <| pending_resume_matches := delete (seq_id s) (pending_resume_matches bm) |>);;
    mret false
  else
    modifyS (λ bm, bm <| pending_resume_matches := <[seq_id s := cached_suffix]> (pending_resume_matches bm) |>);;
    mret true.

Definition append_logical : MBS () :=
  modify_seq (λ s, s <| kv_block_logical_indices :=
    kv_block_logical_indices s ++ [length (kv_block_logical_indices s)] |>).

(** [while len(seq.block_table) < seq.num_blocks] *)
Fixpoint fill_table (fuel : nat) : MBS () :=
  match fuel with
  | 0 => raise OutOfFuel
  | S fuel =>
      '(bm, s) ← getS;
      if length (block_table s) <? num_blocks (block_size bm) s then
        b ← on_fst allocate_block;
        append_block b;;
        append_logical;;
        fill_table fuel
      else mret tt
  end.

Definition pop_resume_match : MBS (option (list nat)) :=
  '(bm, s) ← getS;
  on_fst (modifyS (λ bm, bm <| pending_resume_matches := delete (seq_id s) (pending_resume_matches bm) |>));;
  mret (pending_resume_matches bm !! seq_id s).

Definition resume : MBS nat :=
  cached ← pop_resume_match;
  cached_suffix ← match cached with
    | Some l => mret l
    | None =>
        '(_, s) ← getS;
        ok ← on_fst (can_resume s);
        raise_if (negb ok) (RuntimeError "insufficient KV blocks to resume request");;
        l ← pop_resume_match;
        of_option (KeyError "seq.seq_id") l
    end;
  forM cached_suffix (λ b, on_fst (reuse_block b);; append_block b;; append_logical);;
  '(bm, s) ← getS;
  let reused_tokens := length cached_suffix * block_size bm in
  modify_seq (λ s, s <| num_cached_tokens := num_cached_tokens s + reused_tokens |>);;
  modify_seq (λ s, s <| num_physical_cached_tokens := num_physical_cached_tokens s + reused_tokens |>);;
  fill_table (S (num_blocks (block_size bm) s));;
  mret reused_tokens.

(** ** KV compression *)
(** [x for index, x in enumerate(l) if index in keep] *)
Definition keep_at {A} (keep : gset nat) (l : list A) : list A :=
  snd <$> filter (λ ix : nat * A, ix.1 ∈ keep) (imap pair l).

Definition compress_keep_positions (keep_positions : gset nat) : MBS (nat * nat * nat) :=
  '(bm, s) ← getS;
  let dropped_positions := filter (.∉ keep_positions) (seq 0 (length (block_table s))) in
  match dropped_positions with
  | [] => mret (0, 0, 0)
  | _ =>
      free_before ← on_fst num_free;
      forM (reverse dropped_positions) (λ i, on_fst (b ← table_block i s; release_block b));;
      modify_seq (λ s, s <| block_table := keep_at keep_positions (block_table s) |>);;
      modify_seq (λ s, s <| kv_block_logical_indices := keep_at keep_positions (kv_block_logical_indices s) |>);;
      let dropped_tokens :=
        Nat.min (length dropped_positions * block_size bm) (num_physical_cached_tokens s) in
      modify_seq (λ s, s <| num_physical_cached_tokens := num_physical_cached_tokens s - dropped_tokens |>);;
      modify_seq (λ s, s <| kv_compressed := true |>);;
      free_after ← on_fst num_free;
      mret (length dropped_positions, free_after - free_before, dropped_tokens)
  end.

Definition set_range (a b : nat) : gset nat := list_to_set (seq a (b - a)).

Definition compress_sink_recent (sink_blocks recent_blocks : nat) : MBS (nat * nat * nat) :=
  '(_, s) ← getS;
  raise_if ((sink_blocks <? 1) || (recent_blocks <? 1))
    (ValueError "sink and recent windows must each keep at least one block");;
  let keep_limit := sink_blocks + recent_blocks in
  let owned := length (block_table s) in
  if owned <=? keep_limit then mret (0, 0, 0)
  else
    let recent_start := Nat.max sink_blocks (owned - recent_blocks) in
    let dropped_positions := set_range sink_blocks recent_start in
    if bool_decide (dropped_positions = ∅) then mret (0, 0, 0)
    else compress_keep_positions (set_range 0 owned ∖ dropped_positions).

(** [sum(1.0 / document_frequency[t] for t in tokens & query_ids)] *)
Definition query_score (df : gmap Z nat) (tokens query_ids : gset Z) : Q :=
  foldr (λ t acc, (1 / inject_nat (default 0%nat (df !! t)) + acc)%Q) 0%Q (elements (tokens ∩ query_ids)).
(** [document_frequency[t] = document_frequency.get(t, 0) + 1] for each token *)
Definition count_tokens (df : gmap Z nat) (tokens : gset Z) : gmap Z nat :=
  foldl (λ df t, <[t := default 0 (df !! t) + 1]> df) df (elements tokens).

(** [sorted(scored, reverse=True)]: by score, then by position, descending. *)
Definition scored_ge (x y : Q * nat) : Prop :=
  (y.1 < x.1)%Q ∨ ((y.1 == x.1)%Q ∧ y.2 <= x.2).
#[local] Instance scored_ge_dec : RelDecision scored_ge.
Proof. intros x y. unfold scored_ge. apply _. Defined.

Definition important_positions (scored : list (Q * nat)) (importance_blocks : nat) : gset nat :=
  list_to_set (take importance_blocks (merge_sort scored_ge scored)).*2.

Definition compress_query_aware (sink_blocks recent_blocks importance_blocks query_tokens : nat) :
    MBS (nat * nat * nat) :=
  '(bm, s) ← getS;
  raise_if ((importance_blocks <? 1) || (query_tokens <? 1))
    (ValueError "importance blocks and query token window must be positive");;
  let base_keep := sink_blocks + recent_blocks in
  let owned := length (block_table s) in
  if owned <=? base_keep + importance_blocks then mret (0, 0, 0)
  else
    let sink_positions := set_range 0 (Nat.min sink_blocks owned) in
    let recent_start := Nat.max (size sink_positions) (owned - recent_blocks) in
    let recent_positions := set_range recent_start owned in
    let candidate_positions :=
      filter (λ i, i ∉ sink_positions ∧ i ∉ recent_positions) (seq 0 owned) in
    let prompt := prompt_token_ids s in
    let query_ids : gset Z := list_to_set (drop (length prompt - query_tokens) prompt) in
    candidate_tokens ← lift (mapR (λ position,
      logical_index ← py_nth (kv_block_logical_indices s) (Z.of_nat position);
      tokens ← block (block_size bm) logical_index s;
      mret (position, list_to_set tokens : gset Z)) candidate_positions);
    let document_frequency := foldl count_tokens ∅ (candidate_tokens.*2) in
    let scored := (λ pt : nat * gset Z, (query_score document_frequency pt.2 query_ids, pt.1)) <$> candidate_tokens in
    let keep_positions :=
      sink_positions ∪ recent_positions ∪ important_positions scored importance_blocks in
    compress_keep_positions keep_positions.

(** ** Decode growth *)
(** [len(seq) % self.block_size == 1] *)
Definition needs_page (bs : nat) (s : Sequence) : bool := num_tokens s mod bs =? 1.

Definition can_append (s : Sequence) : MB bool :=
  getsS (λ bm, Nat.b2n (needs_page (block_size bm) s) <=? length (free_block_ids bm)).

Definition may_append : MBS () :=
  '(bm, s) ← getS;
  if needs_page (block_size bm) s then
    b ← on_fst allocate_block;
    append_block b;;
    modify_seq (λ s, s <| kv_block_logical_indices :=
      kv_block_logical_indices s ++ [num_blocks (block_size bm) s - 1] |>)
  else mret tt.

(** ** [hash_blocks] *)
Definition hash_blocks (s : Sequence) : MB () :=
  if kv_compressed s then mret tt
  else
    bm ← getS;
    let bs := block_size bm in
    let start := num_cached_tokens s / bs in
    let stop := (num_cached_tokens s + num_scheduled_tokens s) / bs in
    if start =? stop then mret tt
    else if decide (prefix_cache_backend bm = RadixBackend) then
      store_tokens s (seq start (stop - start));;
      keys ← lift (block_keys bs s stop);
      on_radix (insert_prefix keys (take stop (block_table s)))
    else
      h ← (if 0 <? start then b ← table_block (start - 1) s; bl ← get_block b; mret (hash bl)
           else mret (-1)%Z);
      chain_hashes s (seq start (stop - start)) h.
End block_manager.

(** ** [cache_metrics] *)
Record CacheMetrics := mkCacheMetrics {
  cm_backend : PrefixCacheBackend;
  cm_lookups : nat;
  cm_queried_blocks : nat;
  cm_hit_blocks : nat;
  cm_evictions : nat;
  cm_block_hit_rate : Q;
  cm_radix : option RadixStats
}.
Definition cache_metrics : MB CacheMetrics :=
  bm ← getS;
  radix ← match radix_cache bm with
          | None => mret None
          | Some _ => st ← on_radix radix_stats; mret (Some st)
          end;
  mret {|
    cm_backend := prefix_cache_backend bm; cm_lookups := cache_lookups bm;
    cm_queried_blocks := cache_queried_blocks bm; cm_hit_blocks := cache_hit_blocks bm;
    cm_evictions := cache_evictions bm;
    cm_block_hit_rate :=
      if cache_queried_blocks bm =? 0 then 0%Q
      else (inject_nat (cache_hit_blocks bm) / inject_nat (cache_queried_blocks bm))%Q;
    cm_radix := radix |}.
