(* ===== verification/BlockInv.v ===== *)
(** * The accounting invariant of the block manager

    [own] lists every reference a request holds: the concatenation of the block
    tables. A block is free exactly when nobody holds it, used exactly when
    somebody does, and its count is the number of references. *)
From S2P Require Import Prelude Qos Sequence RadixCache RadixSpec RadixOps RadixRemove RadixLru BlockManager.
Set Default Goal Selector "!".

(** Occurrences of a block in a list of references. *)
Definition occ (b : nat) (l : list nat) : nat := length (filter (b =.) l).
Arguments occ : simpl never.

Lemma occ_cons b x l : occ b (x :: l) = (if decide (b = x) then 1 else 0) + occ b l.
Proof.
  unfold occ. destruct (decide (b = x)) as [->|Hne].
  - by rewrite filter_cons_True.
  - by rewrite filter_cons_False.
Qed.
Lemma occ_app b l1 l2 : occ b (l1 ++ l2) = occ b l1 + occ b l2.
Proof. unfold occ. by rewrite filter_app, length_app. Qed.
#[export] Instance occ_perm b : Proper ((≡ₚ) ==> eq) (occ b).
Proof. intros l1 l2 Hl. unfold occ. by rewrite Hl. Qed.
Lemma occ_pos b l : 0 < occ b l ↔ b ∈ l.
Proof.
  unfold occ. split.
  - intros Hp. destruct (filter (b =.) l) as [|x l'] eqn:E; [simpl in Hp; lia|].
    assert (Hx : x ∈ filter (b =.) l) by (rewrite E; by left). apply list_elem_of_filter in Hx as [-> ?]. done.
  - intros Hb. assert (Hf : b ∈ filter (b =.) l) by (by apply list_elem_of_filter).
    destruct (filter _ _); [by apply not_elem_of_nil in Hf|simpl; lia].
Qed.

(** The prefix structure of each backend. *)
Definition prefix_ok (bm : BlockManager) : Prop :=
  match prefix_cache_backend bm, radix_cache bm with
  | HashBackend, None => True
  | RadixBackend, Some c =>
      ∃ m, represents m c ∧ ∀ ks b, m !! ks = Some b → b < length (blocks bm)
  | _, _ => False
  end.

Definition ids_ok (bm : BlockManager) (l : list nat) : Prop := Forall (λ b, b < length (blocks bm)) l.

Record bm_inv (own : list nat) (bm : BlockManager) : Prop := {
  bi_free_nodup : NoDup (free_block_ids bm);
  bi_free b : b ∈ free_block_ids bm ↔ b < length (blocks bm) ∧ occ b own = 0;
  bi_used b : b ∈ used_block_ids bm ↔ 0 < occ b own;
  bi_ref b bl : blocks bm !! b = Some bl → ref_count bl = Z.of_nat (occ b own);
  bi_own : ids_ok bm own;
  bi_prefix : prefix_ok bm;
  bi_hash h b : hash_to_block_id bm !! h = Some b → b < length (blocks bm);
  bi_pending i l : pending_matches bm !! i = Some l → ids_ok bm l;
  bi_resume i l : pending_resume_matches bm !! i = Some l → ids_ok bm l
}.

(** The order in which references are listed does not matter. *)
#[export] Instance bm_inv_perm : Proper ((≡ₚ) ==> eq ==> iff) bm_inv.
Proof.
  assert (Hone : ∀ l1 l2 bm, l1 ≡ₚ l2 → bm_inv l1 bm → bm_inv l2 bm).
  { intros l1 l2 bm Hl [H1 H2 H3 H4 H5 H6 H7 H8 H9]. split; try done.
    - intros b. by rewrite H2, Hl.
    - intros b. by rewrite H3, Hl.
    - intros b bl Hb. by rewrite (H4 _ _ Hb), Hl.
    - unfold ids_ok in *. by rewrite <-Hl. }
  intros l1 l2 Hl bm ? <-. split; apply Hone; [done|by symmetry].
Qed.

(** What no operation on blocks changes. *)
Definition bm_frame (bm bm' : BlockManager) : Prop :=
  block_size bm' = block_size bm ∧ prefix_cache_backend bm' = prefix_cache_backend bm ∧
  length (blocks bm') = length (blocks bm) ∧ pending_matches bm' = pending_matches bm ∧
  pending_resume_matches bm' = pending_resume_matches bm.
#[export] Instance bm_frame_preorder : PreOrder bm_frame.
Proof.
  split.
  - intros bm. by split_and!.
  - intros x y z (?&?&?&?&?) (?&?&?&?&?). split_and!; by etrans.
Qed.

Lemma bm_disjoint own bm b : bm_inv own bm → b ∈ free_block_ids bm → b ∉ used_block_ids bm.
Proof. intros HI Hf Hu. apply (bi_free _ _ HI) in Hf as [_ ?]. apply (bi_used _ _ HI) in Hu. lia. Qed.
Lemma bm_covered own bm b :
  bm_inv own bm → b < length (blocks bm) → b ∈ free_block_ids bm ∨ b ∈ used_block_ids bm.
Proof.
  intros HI Hb. destruct (decide (occ b own = 0)).
  - left. by apply (bi_free _ _ HI).
  - right. apply (bi_used _ _ HI). lia.
Qed.
(** No page leaks: free and distinct owned blocks add up to all blocks. *)
Lemma bm_total own bm :
  bm_inv own bm → length (free_block_ids bm) + size (used_block_ids bm) = length (blocks bm).
Proof.
  intros HI.
  assert (E : list_to_set (free_block_ids bm) ∪ used_block_ids bm = list_to_set (seq 0 (length (blocks bm)))).
  { apply set_eq. intros b. rewrite elem_of_union, !elem_of_list_to_set, elem_of_seq. split.
    - intros [Hf|Hu].
      + apply (bi_free _ _ HI) in Hf as [? _]. lia.
      + apply (bi_used _ _ HI), occ_pos in Hu. pose proof (bi_own _ _ HI) as Ho. unfold ids_ok in Ho.
        rewrite Forall_forall in Ho. specialize (Ho _ Hu). simpl in Ho. lia.
    - intros Hb. apply (bm_covered _ _ _ HI). lia. }
  rewrite <-(size_list_to_set (C := gset nat) (free_block_ids bm)) by apply (bi_free_nodup _ _ HI).
  rewrite <-size_union.
  - rewrite E, size_list_to_set by apply NoDup_seq. by rewrite length_seq.
  - intros b Hf Hu. apply elem_of_list_to_set in Hf. by eapply bm_disjoint.
Qed.

Lemma remove_first_spec x l :
  NoDup l → x ∈ l →
  ∃ l', remove_first x l = Some l' ∧ NoDup l' ∧ (∀ y, y ∈ l' ↔ y ∈ l ∧ y ≠ x) ∧ S (length l') = length l.
Proof.
  induction l as [|y l IH]; intros Hd Hx; [by apply not_elem_of_nil in Hx|].
  apply NoDup_cons in Hd as [Hy Hd]. simpl. case_decide as E.
  - subst y. exists l. split_and!; [done..| |done]. intros z. rewrite elem_of_cons. split; [|naive_solver].
    intros Hz. split; [by right|]. by intros ->.
  - apply elem_of_cons in Hx as [?|Hx]; [done|]. destruct (IH Hd Hx) as (l' & -> & Hd' & Hl' & Hlen).
    exists (y :: l'). split_and!; [done| | |simpl; lia].
    + apply NoDup_cons. split; [|done]. rewrite Hl'. naive_solver.
    + intros z. rewrite !elem_of_cons, Hl'. naive_solver.
Qed.

(** ** Blocks *)
Lemma wp_get_block i bl (Q : Block → BlockManager → Prop) E bm :
  blocks bm !! i = Some bl → Q bl bm → wp (get_block i) Q E bm.
Proof. intros Hi HQ. unfold get_block. wp_steps. apply wp_of_option; naive_solver. Qed.
Lemma wp_update_block i f (Q : () → BlockManager → Prop) E bm :
  Q tt (bm <| blocks := alter f i (blocks bm) |>) → wp (update_block i f) Q E bm.
Proof. done. Qed.
Lemma wp_free_remove b l' (Q : () → BlockManager → Prop) E bm :
  remove_first b (free_block_ids bm) = Some l' → Q tt (bm <| free_block_ids := l' |>) →
  wp (free_remove b) Q E bm.
Proof. intros Hl HQ. unfold free_remove. wp_steps. rewrite Hl. cbn [of_option]. wp_steps. done. Qed.
Lemma inv_block own bm b : bm_inv own bm → b < length (blocks bm) → ∃ bl, blocks bm !! b = Some bl.
Proof. intros _ Hb. by apply lookup_lt_is_Some_2. Qed.

(** Changing counts, free list and used set together keeps the rest. *)
Lemma bm_inv_update own own' bm bm' :
  bm_inv own bm → bm_frame bm bm' →
  NoDup (free_block_ids bm') →
  (∀ b, b ∈ free_block_ids bm' ↔ b < length (blocks bm) ∧ occ b own' = 0) →
  (∀ b, b ∈ used_block_ids bm' ↔ 0 < occ b own') →
  (∀ b bl, blocks bm' !! b = Some bl → ref_count bl = Z.of_nat (occ b own')) →
  ids_ok bm own' → prefix_ok bm' →
  (∀ h b, hash_to_block_id bm' !! h = Some b → b < length (blocks bm)) →
  bm_inv own' bm'.
Proof.
  intros HI (E1 & E2 & E3 & E4 & E5) H1 H2 H3 H4 H5 H6 H7. unfold ids_ok in *.
  split; unfold ids_ok; rewrite ?E3, ?E4, ?E5; try done.
  - apply (bi_pending _ _ HI).
  - apply (bi_resume _ _ HI).
Qed.

Lemma lookup_alter_block (f : Block → Block) i b (bs : list Block) bl :
  alter f i bs !! b = Some bl →
  (b = i ∧ ∃ bl0, bs !! b = Some bl0 ∧ bl = f bl0) ∨ (b ≠ i ∧ bs !! b = Some bl).
Proof.
  destruct (decide (b = i)) as [->|Hne].
  - rewrite list_lookup_alter_eq. destruct (bs !! i); [|done]. intros [= <-]. left. eauto.
  - rewrite list_lookup_alter_ne by congruence. auto.
Qed.

Lemma prefix_ok_shape bm bm' :
  prefix_cache_backend bm' = prefix_cache_backend bm → radix_cache bm' = radix_cache bm →
  length (blocks bm') = length (blocks bm) → prefix_ok bm → prefix_ok bm'.
Proof. unfold prefix_ok. intros -> -> ->. done. Qed.

Lemma ids_ok_cons bm b l : ids_ok bm (b :: l) ↔ b < length (blocks bm) ∧ ids_ok bm l.
Proof. unfold ids_ok. by rewrite Forall_cons. Qed.

(** Two ways of taking a reference. *)
Definition takes (own : list nat) (b : nat) (bm bm' : BlockManager) : Prop :=
  bm_inv (b :: own) bm' ∧ bm_frame bm bm' ∧
  used_block_ids bm' = {[ b ]} ∪ used_block_ids bm ∧
  length (free_block_ids bm') + (if decide (b ∈ used_block_ids bm) then 0 else 1) = length (free_block_ids bm).

Lemma add_ref_takes own b bm :
  bm_inv own bm → b < length (blocks bm) → b ∈ used_block_ids bm →
  takes own b bm (bm <| blocks := alter (λ bl, bl <| ref_count := (ref_count bl + 1)%Z |>) b (blocks bm) |>).
Proof.
  intros HI Hb Hu. unfold takes. rewrite decide_True by done.
  assert (HF : bm_frame bm (bm <| blocks := alter (λ bl, bl <| ref_count := (ref_count bl + 1)%Z |>) b (blocks bm) |>)).
  { split_and!; try done. apply length_alter. }
  split_and!; [|done|set_solver|cbn; lia].
  pose proof (bi_used _ _ HI b) as Hub.
  apply (bm_inv_update own _ bm _ HI HF).
  - apply (bi_free_nodup _ _ HI).
  - intros x. cbn. rewrite (bi_free _ _ HI), occ_cons. case_decide; [subst; rewrite Hub in Hu; lia|done].
  - intros x. cbn. rewrite (bi_used _ _ HI), occ_cons. case_decide; [subst; rewrite Hub in Hu; lia|done].
  - intros x bl [[-> (bl0 & Hbl & ->)]|[Hne Hbl]]%lookup_alter_block.
    + cbn. rewrite (bi_ref _ _ HI _ _ Hbl), occ_cons, decide_True by done. lia.
    + rewrite (bi_ref _ _ HI _ _ Hbl), occ_cons, decide_False by done. done.
  - apply ids_ok_cons. split; [done|apply (bi_own _ _ HI)].
  - eapply prefix_ok_shape; [..|apply (bi_prefix _ _ HI)]; try done. apply length_alter.
  - apply (bi_hash _ _ HI).
Qed.

(** A free block becomes used with one reference. *)
Lemma fresh_takes own b bm bm' l' :
  bm_inv own bm → bm_frame bm bm' → b ∈ free_block_ids bm →
  remove_first b (free_block_ids bm) = Some l' → free_block_ids bm' = l' →
  used_block_ids bm' = {[ b ]} ∪ used_block_ids bm →
  (∀ bl, blocks bm' !! b = Some bl → ref_count bl = 1%Z) →
  (∀ x, x ≠ b → blocks bm' !! x = blocks bm !! x) →
  prefix_ok bm' → (∀ h x, hash_to_block_id bm' !! h = Some x → x < length (blocks bm)) →
  takes own b bm bm'.
Proof.
  intros HI HF Hb Hl Hfree Hused Hrb Hro Hpre Hhash.
  destruct (remove_first_spec b _ (bi_free_nodup _ _ HI) Hb) as (l1 & El & Hd & Hin & Hlen). simplify_eq.
  pose proof (proj1 (bi_free _ _ HI b) Hb) as [Hlt Hocc].
  split_and!; [|done|done|].
  2:{ rewrite decide_False by (by eapply bm_disjoint). lia. }
  apply (bm_inv_update own _ bm _ HI HF); try done.
  - intros x. rewrite Hin, (bi_free _ _ HI), occ_cons. case_decide; naive_solver lia.
  - intros x. rewrite Hused, elem_of_union, elem_of_singleton, (bi_used _ _ HI), occ_cons.
    case_decide; naive_solver lia.
  - intros x bl Hx. rewrite occ_cons. destruct (decide (x = b)) as [->|Hne].
    + rewrite (Hrb _ Hx), Hocc. done.
    + rewrite Hro in Hx by done. by rewrite (bi_ref _ _ HI _ _ Hx).
  - apply ids_ok_cons. split; [done|apply (bi_own _ _ HI)].
Qed.

Lemma add_ref_ref own b bm :
  bm_inv own bm → b < length (blocks bm) → b ∉ used_block_ids bm → b ∈ free_block_ids bm.
Proof. intros HI Hb Hu. by destruct (bm_covered _ _ _ HI Hb). Qed.

Lemma set_ref_frame b k bm :
  bm_frame bm (bm <| blocks := alter (λ bl, bl <| ref_count := k |>) b (blocks bm) |>).
Proof. split_and!; try done. apply length_alter. Qed.

Lemma claim_takes own b bm l' :
  bm_inv own bm → b ∈ free_block_ids bm → remove_first b (free_block_ids bm) = Some l' →
  takes own b bm (bm <| blocks := alter (λ bl, bl <| ref_count := 1%Z |>) b (blocks bm) |>
    <| free_block_ids := l' |> <| used_block_ids := {[ b ]} ∪ used_block_ids bm |>).
Proof.
  intros HI Hb Hl. eapply fresh_takes; try done.
  - split_and!; try done. apply length_alter.
  - intros bl [[_ (bl0 & _ & ->)]|[? _]]%lookup_alter_block; done.
  - intros x Hx. cbn. by rewrite list_lookup_alter_ne by congruence.
  - eapply prefix_ok_shape; [..|apply (bi_prefix _ _ HI)]; try done. apply length_alter.
  - apply (bi_hash _ _ HI).
Qed.

Lemma share_block_spec own b bm :
  bm_inv own bm → b < length (blocks bm) →
  wp (share_block b) (λ _ bm', takes own b bm bm') noexn bm.
Proof.
  intros HI Hb. destruct (inv_block _ _ _ HI Hb) as [bl Hbl].
  unfold share_block. wp_steps. eapply wp_get_block; [done|]. case_bool_decide as Hu.
  - apply wp_update_block. by apply add_ref_takes.
  - pose proof (add_ref_ref _ _ _ HI Hb Hu) as Hf.
    destruct (remove_first_spec b _ (bi_free_nodup _ _ HI) Hf) as (l' & Hl & _).
    unfold set_ref, use_block. wp_step. apply wp_update_block. wp_step.
    eapply wp_free_remove; [exact Hl|]. wp_step. exact (claim_takes own b bm l' HI Hf Hl).
Qed.
Lemma reuse_block_spec own b bm :
  bm_inv own bm → b < length (blocks bm) →
  wp (reuse_block b) (λ _ bm', takes own b bm bm') noexn bm.
Proof.
  intros HI Hb. destruct (inv_block _ _ _ HI Hb) as [bl Hbl].
  unfold reuse_block. wp_steps. eapply wp_get_block; [done|]. case_bool_decide as Hu.
  - apply wp_update_block. by apply add_ref_takes.
  - pose proof (add_ref_ref _ _ _ HI Hb Hu) as Hf.
    destruct (remove_first_spec b _ (bi_free_nodup _ _ HI) Hf) as (l' & Hl & _).
    unfold set_ref, use_block. wp_step. eapply wp_free_remove; [exact Hl|].
    wp_steps. apply wp_update_block. exact (claim_takes own b bm l' HI Hf Hl).
Qed.

(** ** Allocation of a fresh block *)
Lemma wp_on_radix {A} (m : MR A) c (Q : A → BlockManager → Prop) E bm :
  radix_cache bm = Some c →
  wp m (λ r c', Q r (bm <| radix_cache := Some c' |>)) (λ e c', E e (bm <| radix_cache := Some c' |>)) c →
  wp (on_radix m) Q E bm.
Proof. unfold wp, on_radix. intros ->. destruct (m c) as [[e|r] c']; done. Qed.

Lemma radix_same bm c : radix_cache bm = Some c → bm <| radix_cache := Some c |> = bm.
Proof. intros E. destruct bm. cbn in *. by subst. Qed.

Lemma pick_free_block_spec own bm :
  bm_inv own bm → free_block_ids bm ≠ [] →
  wp pick_free_block (λ b bm', b ∈ free_block_ids bm ∧
    ∃ l', remove_first b (free_block_ids bm) = Some l' ∧ bm' = bm <| free_block_ids := l' |>) noexn bm.
Proof.
  intros HI Hne. pose proof (bi_prefix _ _ HI) as Hp. unfold prefix_ok in Hp.
  assert (Hrm : ∀ b, b ∈ free_block_ids bm → wp (free_remove b;; mret b) (λ b bm', b ∈ free_block_ids bm ∧
    ∃ l', remove_first b (free_block_ids bm) = Some l' ∧ bm' = bm <| free_block_ids := l' |>) noexn bm).
  { intros b Hb. destruct (remove_first_spec b _ (bi_free_nodup _ _ HI) Hb) as (l' & Hl & _).
    wp_step. eapply wp_free_remove; [exact Hl|]. wp_step. eauto. }
  unfold pick_free_block. wp_steps. destruct (radix_cache bm) as [c|] eqn:Ec.
  - destruct (list_find _ _) as [[i b]|] eqn:Ef.
    + apply list_find_Some in Ef as (Hb & _ & _). do 2 wp_step. cbn beta. apply Hrm. by eapply list_elem_of_lookup_2.
    + destruct (prefix_cache_backend bm); [done|]. destruct Hp as (m & Hm & _).
      destruct (lru_victim_spec m c (list_to_set (free_block_ids bm)) Hm) as (r & Hr & Hsafe).
      do 2 wp_step. eapply wp_on_radix; [exact Ec|]. eapply wp_of_run; [exact Hr|]. rewrite radix_same by done.
      destruct r as [b|].
      * wp_step. cbn beta. apply Hrm. destruct (Hsafe b eq_refl) as [Hb _]. by apply elem_of_list_to_set in Hb.
      * do 2 wp_step. destruct (free_block_ids bm) as [|b l] eqn:Efree; [done|]. cbn [head of_option]. wp_step.
        cbn beta. rewrite <-Efree in *. apply Hrm. rewrite Efree. by left.
  - destruct (free_block_ids bm) as [|b l] eqn:Efree; [done|]. wp_steps. split; [by left|]. exists l. simpl.
    by rewrite decide_True.
Qed.

(** Evicting a block's prefixes keeps the index well formed. *)
Lemma evict_spec b bm :
  prefix_ok bm → prefix_cache_backend bm = RadixBackend →
  wp (removed ← on_radix (remove_block b);
      if removed : bool then modifyS (λ bm, bm <| cache_evictions := S (cache_evictions bm) |>) else mret tt)
    (λ _ bm', prefix_ok bm' ∧ bm_frame bm bm' ∧ blocks bm' = blocks bm ∧
      free_block_ids bm' = free_block_ids bm ∧ used_block_ids bm' = used_block_ids bm ∧
      hash_to_block_id bm' = hash_to_block_id bm) noexn bm.
Proof.
  intros Hp Hb. unfold prefix_ok in Hp. rewrite Hb in Hp.
  destruct (radix_cache bm) as [c|] eqn:Ec; [|done]. destruct Hp as (m & Hm & Hlt).
  destruct (remove_block_spec m c b Hm) as [Hno Hyes].
  wp_step. eapply wp_on_radix; [exact Ec|].
  assert (Hdec : (∃ ks, m !! ks = Some b) ∨ ∀ ks, m !! ks ≠ Some b).
  { destruct (decide (map_Exists (λ _ x, x = b) m)) as [(ks & x & Hx & ->)|Hne]; [left; eauto|].
    right. intros ks Hks. apply Hne. by exists ks, b. }
  destruct Hdec as [[ks Hks]|Hnone].
  - destruct (Hyes ks Hks) as (c' & Hrun & Hm').
    eapply wp_of_run; [exact Hrun|]. cbn beta iota. wp_step. split_and!; try done. unfold prefix_ok. cbn. rewrite Hb.
    exists (without ks m). split; [done|]. intros ks' b' [? _]%map_lookup_filter_Some. by eapply Hlt.
  - eapply wp_of_run; [by apply Hno|]. rewrite radix_same by done. cbn beta iota. wp_step. split_and!; try done.
    unfold prefix_ok. rewrite Hb, Ec. eauto.
Qed.

Section alloc.
Context `{Hasher}.

Lemma allocate_block_spec own bm :
  bm_inv own bm → free_block_ids bm ≠ [] →
  wp allocate_block (λ b bm', b ∈ free_block_ids bm ∧ takes own b bm bm') noexn bm.
Proof.
  intros HI Hne. unfold allocate_block. wp_step. eapply wp_mono; [by apply (pick_free_block_spec own)| |done].
  intros b bm1 (Hb & l' & Hl & ->).
  pose proof (proj1 (bi_free _ _ HI b) Hb) as [Hlt Hocc]. destruct (inv_block _ _ _ HI Hlt) as [bl Hbl].
  wp_step. eapply wp_get_block; [exact Hbl|]. wp_step. apply wp_assert.
  2:{ intros Hr. breflect. rewrite (bi_ref _ _ HI _ _ Hbl), Hocc in Hr. done. }
  intros _. do 2 wp_step. cbn beta. wp_step.
  assert (Hfin : ∀ bm2, prefix_ok bm2 → bm_frame bm bm2 → blocks bm2 = blocks bm → free_block_ids bm2 = l' →
    used_block_ids bm2 = used_block_ids bm →
    (∀ h x, hash_to_block_id bm2 !! h = Some x → x < length (blocks bm)) →
    wp (update_block b block_reset;; use_block b;; mret b)
      (λ b bm', b ∈ free_block_ids bm ∧ takes own b bm bm') noexn bm2).
  { intros bm2 Hp (F1 & F2 & F3 & F4 & F5) Hbs Hf Hu Hh. unfold use_block. wp_step. apply wp_update_block. wp_steps.
    split; [done|]. eapply (fresh_takes own b bm _ l'); try done.
    - split_and!; try done. cbn. by rewrite length_alter.
    - cbn. by rewrite Hu.
    - intros bl' [[_ (bl0 & _ & ->)]|[? _]]%lookup_alter_block; done.
    - intros x Hx. cbn. rewrite list_lookup_alter_ne by congruence. by rewrite Hbs.
    - eapply prefix_ok_shape; [..|exact Hp]; try done. apply length_alter. }
  case_decide as Hback.
  - destruct (_ && _); wp_steps; apply Hfin; try done.
    + apply (bi_prefix _ _ HI).
    + intros h x. cbn. intros [_ Hx]%lookup_delete_Some. by eapply (bi_hash _ _ HI).
    + apply (bi_prefix _ _ HI).
    + apply (bi_hash _ _ HI).
  - assert (Hr : prefix_cache_backend bm = RadixBackend) by (cbn in Hback; by destruct (prefix_cache_backend bm)).
    eapply wp_mono; [apply evict_spec; [apply (bi_prefix _ _ HI)|done]| |done].
    intros [] bm2 (Hp & HF & Hbs & Hf & Hu & Hh). apply Hfin; try done.
    intros h x. rewrite Hh. apply (bi_hash _ _ HI).
Qed.
End alloc.

(** ** Giving references back *)
Lemma release_block_spec own b bm :
  bm_inv (b :: own) bm →
  wp (release_block b) (λ _ bm', bm_inv own bm' ∧ bm_frame bm bm' ∧
    length (free_block_ids bm') = length (free_block_ids bm) + (if decide (b ∈ own) then 0 else 1)) noexn bm.
Proof.
  intros HI. pose proof (proj1 (proj1 (ids_ok_cons _ _ _) (bi_own _ _ HI))) as Hlt.
  pose proof (proj2 (proj1 (ids_ok_cons _ _ _) (bi_own _ _ HI))) as Hown.
  destruct (inv_block _ _ _ HI Hlt) as [bl Hbl]. pose proof (bi_ref _ _ HI _ _ Hbl) as Href.
  rewrite occ_cons, decide_True in Href by done.
  unfold release_block. wp_step. eapply wp_get_block; [done|]. wp_step. apply wp_update_block.
  set (bm1 := bm <| blocks := alter (λ bl, bl <| ref_count := (ref_count bl - 1)%Z |>) b (blocks bm) |>).
  assert (HF : bm_frame bm bm1) by (split_and!; try done; apply length_alter).
  assert (Hrefs : ∀ x blx, blocks bm1 !! x = Some blx → ref_count blx = Z.of_nat (occ x own)).
  { intros x blx [[-> (bl0 & Hb0 & ->)]|[Hne Hx]]%lookup_alter_block.
    - cbn. rewrite (bi_ref _ _ HI _ _ Hb0), occ_cons, decide_True by done. lia.
    - rewrite (bi_ref _ _ HI _ _ Hx), occ_cons, decide_False by done. done. }
  assert (Hpre : prefix_ok bm1).
  { eapply prefix_ok_shape; [..|apply (bi_prefix _ _ HI)]; try done. apply length_alter. }
  destruct (decide (b ∈ own)) as [Hin|Hin]; rewrite <-occ_pos in Hin.
  - rewrite (proj2 (Z.eqb_neq _ _)) by lia. wp_step. split_and!; [|done|cbn; lia].
    apply (bm_inv_update (b :: own) own bm bm1 HI HF); try done.
    + apply (bi_free_nodup _ _ HI).
    + intros x. cbn. rewrite (bi_free _ _ HI), occ_cons. case_decide; naive_solver lia.
    + intros x. cbn. rewrite (bi_used _ _ HI), occ_cons. case_decide; naive_solver lia.
    + apply (bi_hash _ _ HI).
  - rewrite (proj2 (Z.eqb_eq _ _)) by lia. unfold deallocate_block.
    assert (Hbl1 : blocks bm1 !! b = Some (bl <| ref_count := (ref_count bl - 1)%Z |>)).
    { cbn. by rewrite list_lookup_alter_eq, Hbl. }
    wp_step. eapply wp_get_block; [exact Hbl1|]. wp_step. apply wp_assert.
    2:{ intros Hr. cbn in Hr. breflect. lia. }
    intros _. wp_step. wp_step. wp_step. apply wp_raise_if.
    2:{ intros Hr. breflect. exfalso. apply Hr. apply (bi_used _ _ HI). rewrite occ_cons, decide_True by done. lia. }
    intros _. wp_steps.
    assert (Hnf : b ∉ free_block_ids bm).
    { intros Hf%(bi_free _ _ HI). rewrite occ_cons, decide_True in Hf by done. lia. }
    split_and!; [|by split_and!; try done; apply length_alter|cbn; rewrite length_app; cbn; lia].
    eapply (bm_inv_update (b :: own) own bm _ HI).
    + split_and!; try done. apply length_alter.
    + cbn. apply NoDup_app. split_and!; [apply (bi_free_nodup _ _ HI)|set_solver|apply NoDup_singleton].
    + intros x. cbn. rewrite elem_of_app, list_elem_of_singleton, (bi_free _ _ HI), occ_cons. 
      case_decide; naive_solver lia.
    + intros x. cbn. rewrite elem_of_difference, elem_of_singleton, (bi_used _ _ HI), occ_cons.
      case_decide; naive_solver lia.
    + exact Hrefs.
    + exact Hown.
    + exact Hpre.
    + apply (bi_hash _ _ HI).
Qed.

Lemma release_blocks_spec own l bm :
  bm_inv (l ++ own) bm →
  wp (forM l release_block) (λ _ bm', bm_inv own bm' ∧ bm_frame bm bm' ∧
    length (free_block_ids bm) <= length (free_block_ids bm')) noexn bm.
Proof.
  revert bm. induction l as [|b l IH]; intros bm HI; simpl.
  { wp_step. split_and!; [done|reflexivity|done]. }
  wp_step. eapply wp_mono; [by apply (release_block_spec (l ++ own))| |done].
  intros [] bm1 (HI1 & HF1 & Hl1). eapply wp_mono; [by apply IH| |done].
  intros [] bm2 (HI2 & HF2 & Hl2). split_and!; [done|by etrans|]. lia.
Qed.
