(* ===== verification/BlockSpec.v ===== *)
(** * What the block manager promises

    Lookups return blocks that hold the request's tokens; an allocation that
    was admitted by [can_allocate] or [can_resume] does not fail; every
    operation keeps the accounting of [BlockInv.v]. *)
From S2P Require Import Prelude Qos Sequence RadixCache RadixSpec RadixOps RadixRemove RadixLru BlockManager BlockInv.
Set Default Goal Selector "!".

(** The tokens of the [i]-th block of a request. *)
Definition block_tokens (bs i : nat) (s : Sequence) : list Z :=
  slice (i * bs) ((i + 1) * bs) (token_ids s).

Lemma block_ok bs i s : i < num_blocks bs s → block bs i s = inr (block_tokens bs i s).
Proof.
  intros Hi. unfold block. rewrite (proj2 (Nat.ltb_lt _ _) Hi). done.
Qed.
Lemma mapR_ok {A B} (f : A → result B) (g : A → B) l :
  (∀ x, x ∈ l → f x = inr (g x)) → mapR f l = inr (g <$> l).
Proof.
  induction l as [|x l IH]; intros Hf; [done|]. cbn. rewrite Hf by (by left). cbn.
  rewrite IH by (intros; apply Hf; by right). done.
Qed.
Lemma block_keys_ok bs s n :
  n <= num_blocks bs s → block_keys bs s n = inr ((λ i, block_tokens bs i s) <$> seq 0 n).
Proof.
  intros Hn. apply mapR_ok. intros i Hi%elem_of_seq. apply block_ok. lia.
Qed.

(** A state that differs in the index and the counters only. *)
Definition same_accounts (bm bm' : BlockManager) : Prop :=
  bm_frame bm bm' ∧ free_block_ids bm' = free_block_ids bm ∧ used_block_ids bm' = used_block_ids bm ∧
  blocks bm' = blocks bm ∧ hash_to_block_id bm' = hash_to_block_id bm.
#[export] Instance same_accounts_preorder : PreOrder same_accounts.
Proof.
  split.
  - intros bm. split; [reflexivity|done].
  - intros x y z (?&?&?&?&?) (?&?&?&?&?). split; [by etrans|]. split_and!; congruence.
Qed.
Lemma same_accounts_inv own bm bm' :
  bm_inv own bm → same_accounts bm bm' → prefix_ok bm' → bm_inv own bm'.
Proof.
  intros HI (HF & H1 & H2 & H3 & H4) Hp. apply (bm_inv_update own own bm bm' HI HF); try done.
  - rewrite H1. apply (bi_free_nodup _ _ HI).
  - intros b. rewrite H1. apply (bi_free _ _ HI).
  - intros b. rewrite H2. apply (bi_used _ _ HI).
  - intros b bl. rewrite H3. apply (bi_ref _ _ HI).
  - apply (bi_own _ _ HI).
  - intros h b. rewrite H4. apply (bi_hash _ _ HI).
Qed.

Lemma longest_from_spec {A} (m : gmap (list BlockKey) A) pre rest :
  length (longest_from m pre rest) <= length rest ∧
  ∀ b, b ∈ longest_from m pre rest → ∃ ks, m !! ks = Some b.
Proof.
  revert pre. induction rest as [|k rest IH]; intros pre; simpl; [split; [done|set_solver]|].
  destruct (m !! (pre ++ [k])) as [b|] eqn:E; [|split; [simpl; lia|set_solver]].
  destruct (IH (pre ++ [k])) as [H1 H2]. split; [simpl; lia|].
  intros b' [->|Hb']%elem_of_cons; eauto.
Qed.

Section spec.
Context `{Hasher}.

(** Lookups in hash mode compare the tokens of each block. *)
Definition holds_tokens (bm : BlockManager) (s : Sequence) (i b : nat) : Prop :=
  ∃ bl, blocks bm !! b = Some bl ∧ btoken_ids bl = block_tokens (block_size bm) i s.

Lemma hash_lookup_loop_spec own s bm n : ∀ i h matched,
  bm_inv own bm → i + n <= num_blocks (block_size bm) s →
  wp (hash_lookup_loop (seq i n) s h matched)
    (λ r bm', bm' = bm ∧ ∃ l, r = matched ++ l ∧ length l <= n ∧
       ∀ j b, l !! j = Some b → holds_tokens bm s (i + j) b) noexn bm.
Proof.
  induction n as [|n IH]; intros i h matched HI Hn; simpl.
  { wp_step. split; [done|]. exists []. rewrite app_nil_r. split_and!; done. }
  wp_step. wp_step. wp_step. apply wp_lift.
  2:{ intros e. rewrite block_ok by lia. done. }
  intros tokens Ht. rewrite block_ok in Ht by lia. injection Ht as <-.
  destruct (hash_to_block_id bm !! _) as [b|] eqn:Eb.
  2:{ wp_step. split; [done|]. exists []. rewrite app_nil_r. split_and!; [done|simpl; lia|done]. }
  apply (bi_hash _ _ HI) in Eb. destruct (inv_block _ _ _ HI Eb) as [bl Hbl].
  wp_step. eapply wp_get_block; [done|]. case_decide as Htok.
  2:{ wp_step. split; [done|]. exists []. rewrite app_nil_r. split_and!; [done|simpl; lia|done]. }
  eapply wp_mono; [apply (IH (S i)); [done|lia]| |done].
  intros r bm' (-> & l & -> & Hl & Hj). split; [done|]. exists (b :: l).
  rewrite <-app_assoc. split_and!; [done|simpl; lia|]. intros [|j] b' Hb'.
  - injection Hb' as <-. rewrite Nat.add_0_r. by exists bl.
  - rewrite Nat.add_succ_r. by apply Hj.
Qed.

(** What a lookup returns. *)
Definition lookup_result (s : Sequence) (bm : BlockManager) (l : list nat) : Prop :=
  ids_ok bm l ∧ length l <= num_blocks (block_size bm) s - 1 ∧
  (prefix_cache_backend bm = HashBackend → ∀ j b, l !! j = Some b → holds_tokens bm s j b).

Lemma lookup_spec own s bm :
  bm_inv own bm →
  wp (lookup_cached_blocks s) (λ l bm', bm_inv own bm' ∧ same_accounts bm bm' ∧ lookup_result s bm l) noexn bm.
Proof.
  intros HI. unfold lookup_cached_blocks. wp_steps.
  set (n := num_blocks (block_size bm) s - 1).
  set (bm1 := bm <| cache_lookups := S (cache_lookups bm) |> <| cache_queried_blocks := cache_queried_blocks bm + n |>).
  change (wp _ _ _ _) with (wp (if decide (prefix_cache_backend bm = RadixBackend) then
               keys ← lift (block_keys (block_size bm) s n); on_radix (match_prefix keys)
             else hash_lookup_loop (seq 0 n) s (-1) [])
    (λ matched, wp (modifyS (λ bm, bm <| cache_hit_blocks := cache_hit_blocks bm + length matched |>);; mret matched)
      (λ l bm', bm_inv own bm' ∧ same_accounts bm bm' ∧ lookup_result s bm l) noexn) noexn bm1).
  assert (HS1 : same_accounts bm bm1) by (split; [by split_and!|done]).
  assert (HI1 : bm_inv own bm1) by (eapply same_accounts_inv; [done..|apply (bi_prefix _ _ HI)]).
  case_decide as Hback.
  - pose proof (bi_prefix _ _ HI1) as Hp. unfold prefix_ok in Hp.
    assert (Hback1 : prefix_cache_backend bm1 = RadixBackend) by done. rewrite Hback1 in Hp.
    destruct (radix_cache bm1) as [c|] eqn:Ec; [|done]. destruct Hp as (m & Hm & Hlt).
    wp_step. apply wp_lift.
    2:{ intros e. rewrite block_keys_ok by lia. done. }
    intros keys Hkeys. rewrite block_keys_ok in Hkeys by lia. injection Hkeys as <-.
    destruct (match_prefix_spec m c ((λ i, block_tokens (block_size bm) i s) <$> seq 0 n) Hm) as (c' & Hrun & Hm' & _).
    eapply wp_on_radix; [exact Ec|]. eapply wp_of_run; [exact Hrun|]. cbn beta. wp_steps.
    destruct (longest_from_spec m [] ((λ i, block_tokens (block_size bm) i s) <$> seq 0 n)) as [Hl Hin].
    rewrite length_fmap, length_seq in Hl. fold (longest_match m ((λ i, block_tokens (block_size bm) i s) <$> seq 0 n)) in *.
    split_and!; [|split; [by split_and!|done]|].
    + eapply same_accounts_inv; [exact HI|split; [by split_and!|done]|]. unfold prefix_ok. cbn. rewrite Hback. eauto.
    + split_and!; [|done|by intros E; rewrite Hback in E]. unfold ids_ok. rewrite Forall_forall.
      intros b [ks Hks]%Hin. by eapply Hlt.
  - eapply wp_mono; [apply (hash_lookup_loop_spec own s bm1 n 0 (-1)%Z []); [done|cbn; lia]| |done].
    intros r bm2 (-> & l & -> & Hl & Hj). wp_steps. split_and!.
    + eapply same_accounts_inv; [exact HI|split; [by split_and!|done]|apply (bi_prefix _ _ HI)].
    + split; [by split_and!|done].
    + split_and!; [|done|by intros _ j b; apply Hj]. unfold ids_ok. rewrite Forall_lookup.
      intros j b Hb. destruct (Hj _ _ Hb) as (bl & Hbl & _). by eapply lookup_lt_Some.
Qed.

(** ** Admission and allocation *)
(** What no operation of the manager changes. *)
Definition bm_static (bm bm' : BlockManager) : Prop :=
  block_size bm' = block_size bm ∧ prefix_cache_backend bm' = prefix_cache_backend bm ∧
  length (blocks bm') = length (blocks bm).
#[export] Instance bm_static_preorder : PreOrder bm_static.
Proof.
  split; [intros x; by split_and!|]. intros x y z (?&?&?) (?&?&?). split_and!; by etrans.
Qed.
Lemma frame_static bm bm' : bm_frame bm bm' → bm_static bm bm'.
Proof. intros (?&?&?&_). by split_and!. Qed.

(** [l] is admitted for [s]: sharing [l] and allocating the rest fits. *)
Definition admitted (s : Sequence) (bm : BlockManager) (total : nat) (l : list nat) : Prop :=
  ids_ok bm l ∧ length l <= total ∧ total - count_used bm l <= length (free_block_ids bm).

Lemma bm_inv_pending own bm pm rm :
  bm_inv own bm → (∀ i l, pm !! i = Some l → ids_ok bm l) → (∀ i l, rm !! i = Some l → ids_ok bm l) →
  bm_inv own (bm <| pending_matches := pm |> <| pending_resume_matches := rm |>).
Proof. intros [H1 H2 H3 H4 H5 H6 H7 H8 H9] Hp Hr. by split. Qed.
Lemma bm_inv_set_pending own bm pm :
  bm_inv own bm → (∀ i l, pm !! i = Some l → ids_ok bm l) → bm_inv own (bm <| pending_matches := pm |>).
Proof. intros [H1 H2 H3 H4 H5 H6 H7 H8 H9] Hp. by split. Qed.
Lemma bm_inv_set_resume own bm rm :
  bm_inv own bm → (∀ i l, rm !! i = Some l → ids_ok bm l) → bm_inv own (bm <| pending_resume_matches := rm |>).
Proof. intros [H1 H2 H3 H4 H5 H6 H7 H8 H9] Hp. by split. Qed.
Lemma ids_ok_delete bm (pm : gmap nat (list nat)) j :
  (∀ i l, pm !! i = Some l → ids_ok bm l) → ∀ i l, delete j pm !! i = Some l → ids_ok bm l.
Proof. intros Hp i l [_ Hl]%lookup_delete_Some. by eapply Hp. Qed.
Lemma ids_ok_insert bm (pm : gmap nat (list nat)) j l0 :
  ids_ok bm l0 → (∀ i l, pm !! i = Some l → ids_ok bm l) → ∀ i l, <[j := l0]> pm !! i = Some l → ids_ok bm l.
Proof. intros H0 Hp i l [[_ <-]|[_ Hl]]%lookup_insert_Some; [done|]. by eapply Hp. Qed.

Lemma can_allocate_spec own s bm :
  bm_inv own bm →
  wp (can_allocate s) (λ r bm', bm_inv own bm' ∧ bm_static bm bm' ∧
    free_block_ids bm' = free_block_ids bm ∧ used_block_ids bm' = used_block_ids bm ∧
    blocks bm' = blocks bm ∧ pending_resume_matches bm' = pending_resume_matches bm ∧
    (∀ i, i ≠ seq_id s → pending_matches bm' !! i = pending_matches bm !! i) ∧
    match r with
    | None => pending_matches bm' !! seq_id s = None ∧ length (free_block_ids bm) < num_blocks (block_size bm) s
    | Some k => k <= num_blocks (block_size bm) s - 1 ∧
        ∃ l, pending_matches bm' !! seq_id s = Some l ∧ length l = k ∧
             admitted s bm' (num_blocks (block_size bm) s) l
    end) noexn bm.
Proof.
  intros HI. unfold can_allocate. wp_step. eapply wp_mono; [by apply lookup_spec| |done].
  intros l bm1 (HI1 & (HF & Hf & Hu & Hb & Hh) & Hids & Hlen & _). pose proof HF as (F1 & F2 & F3 & F4 & F5).
  wp_steps. rewrite F1.
  assert (Hids1 : ids_ok bm1 l) by (unfold ids_ok in *; by rewrite F3).
  destruct (_ <? _) eqn:Ecap; breflect; wp_steps.
  - split; [by apply bm_inv_set_pending, ids_ok_delete, (bi_pending _ _ HI1)|].
    split; [by split_and!|]. split_and!; try done.
    + intros i Hi. cbn. by rewrite lookup_delete_ne, F4.
    + cbn. apply lookup_delete_eq.
    + rewrite <-Hf. lia.
  - split; [by apply bm_inv_set_pending, ids_ok_insert, (bi_pending _ _ HI1)|].
    split; [by split_and!|]. split_and!; try done.
    + intros i Hi. cbn. by rewrite lookup_insert_ne, F4.
    + exists l. cbn. rewrite lookup_insert_eq. split_and!; try done. split_and!; [done| |exact Ecap]. lia.
Qed.

Lemma count_used_cons bm b l :
  count_used bm (b :: l) = (if decide (b ∈ used_block_ids bm) then 1 else 0) + count_used bm l.
Proof.
  unfold count_used. case_decide.
  - by rewrite filter_cons_True.
  - by rewrite filter_cons_False.
Qed.
Lemma count_used_mono bm bm' l :
  used_block_ids bm ⊆ used_block_ids bm' → count_used bm l <= count_used bm' l.
Proof.
  intros Hu. induction l as [|b l IH]; [done|]. rewrite !count_used_cons.
  destruct (decide (b ∈ used_block_ids bm)); [rewrite decide_True by set_solver; lia|].
  case_decide; lia.
Qed.

(** Taking a reference to each block of [l], while [g] records it in the request. *)
Lemma take_all_spec (f : nat → MB ()) (m2 : nat → MBS ()) (g : nat → Sequence → Sequence) :
  (∀ own b bm, bm_inv own bm → b < length (blocks bm) → wp (f b) (λ _ bm', takes own b bm bm') noexn bm) →
  (∀ b bm s, m2 b (bm, s) = (inr tt, (bm, g b s))) →
  ∀ own l bm s, bm_inv own bm → ids_ok bm l →
  wp (forM l (λ b, on_fst (f b);; m2 b))
    (λ _ st, bm_inv (l ++ own) st.1 ∧ bm_frame bm st.1 ∧ st.2 = foldl (λ s b, g b s) s l ∧
      length (free_block_ids bm) + count_used bm l <= length (free_block_ids st.1) + length l) noexn (bm, s).
Proof.
  intros Hf Hm2 own l. revert own. induction l as [|b l IH]; intros own bm s HI Hids; simpl.
  { wp_step. split_and!; [done|reflexivity|done|cbn; lia]. }
  apply ids_ok_cons in Hids as [Hb Hids].
  wp_step. wp_step. wp_step. cbn [fst snd]. eapply wp_mono; [by apply (Hf own)| |done].
  intros [] bm1 (HI1 & HF1 & Hu1 & Hl1). eapply wp_of_run; [apply Hm2|].
  eapply wp_mono; [apply (IH (b :: own)); [done|]| |done].
  { destruct HF1 as (_ & _ & E & _). unfold ids_ok in *. by rewrite E. }
  intros [] [bm2 s2] (HI2 & HF2 & Hs2 & Hl2). cbn [fst snd] in *. split_and!.
  - revert HI2. apply bm_inv_perm; [apply Permutation_middle|done].
  - by etrans.
  - done.
  - rewrite count_used_cons. pose proof (count_used_mono bm bm1 l) as Hmono.
    rewrite Hu1 in Hmono. specialize (Hmono ltac:(set_solver)). destruct (decide _); lia.
Qed.

(** [k] fresh blocks: distinct, and held by nobody before. *)
Definition fresh_blocks (own l : list nat) : Prop := NoDup l ∧ ∀ b, b ∈ l → b ∉ own.

Lemma alloc_all_spec {A} (m2 : nat → MBS ()) (g : nat → Sequence → Sequence) (idx : list A) :
  (∀ b bm s, m2 b (bm, s) = (inr tt, (bm, g b s))) →
  ∀ own bm s, bm_inv own bm → length idx <= length (free_block_ids bm) →
  wp (forM idx (λ _, b ← on_fst allocate_block; m2 b))
    (λ _ st, ∃ l, length l = length idx ∧ fresh_blocks own l ∧ bm_inv (l ++ own) st.1 ∧ bm_frame bm st.1 ∧
      st.2 = foldl (λ s b, g b s) s l ∧
      length (free_block_ids st.1) + length idx = length (free_block_ids bm)) noexn (bm, s).
Proof.
  intros Hm2. induction idx as [|x idx IH]; intros own bm s HI Hfree; simpl in *.
  { wp_step. exists []. split_and!; [done|split; [constructor|set_solver]|done|reflexivity|done|cbn; lia]. }
  wp_step. wp_step. wp_step. cbn [fst snd]. eapply wp_mono; [apply (allocate_block_spec own)| |done].
  - done.
  - intros E. rewrite E in Hfree. simpl in Hfree. lia.
  - intros b bm1 (Hb & HI1 & HF1 & Hu1 & Hl1). eapply wp_of_run; [apply Hm2|].
    rewrite decide_False in Hl1 by (by eapply bm_disjoint).
    eapply wp_mono; [apply (IH (b :: own)); [done|lia]| |done].
    intros [] [bm2 s2] (l & Hlen & [Hd Hfr] & HI2 & HF2 & Hs2 & Hl2). cbn [fst snd] in *.
    apply (bi_free _ _ HI) in Hb as [_ Hb]. exists (b :: l). split_and!; [simpl; lia|split| |by etrans|done|lia].
    + apply NoDup_cons. split; [|done]. intros Hin. apply (Hfr b Hin). by left.
    + intros b' [->|Hb']%elem_of_cons.
      * rewrite <-occ_pos. lia.
      * intros Hin. apply (Hfr b' Hb'). by right.
    + revert HI2. apply bm_inv_perm; [apply Permutation_middle|done].
Qed.

Lemma append_block_run b bm s :
  append_block b (bm, s) = (inr tt, (bm, s <| block_table := block_table s ++ [b] |>)).
Proof. done. Qed.
Lemma foldl_append l s :
  foldl (λ s b, s <| block_table := block_table s ++ [b] |>) s l = s <| block_table := block_table s ++ l |>.
Proof.
  revert s. induction l as [|b l IH]; intros s; simpl; [by destruct s; cbn; rewrite app_nil_r|].
  rewrite IH. cbn. by rewrite <-app_assoc.
Qed.

(** The request after an allocation with [k] cached blocks. *)
Definition allocated (bs k : nat) (table : list nat) (s : Sequence) : Sequence :=
  s <| block_table := table |> <| kv_block_logical_indices := seq 0 (num_blocks bs s) |>
    <| num_cached_tokens := k * bs |> <| num_physical_cached_tokens := k * bs |>.

Lemma allocate_spec own s bm k l :
  bm_inv own bm → block_table s = [] →
  pending_matches bm !! seq_id s = Some l → length l = k →
  admitted s bm (num_blocks (block_size bm) s) l →
  wp (allocate k) (λ _ st, ∃ fresh,
    length (l ++ fresh) = num_blocks (block_size bm) s ∧ fresh_blocks (l ++ own) fresh ∧
    st.2 = allocated (block_size bm) k (l ++ fresh) s ∧
    bm_inv (block_table (st.2) ++ own) st.1 ∧ bm_static bm st.1 ∧
    pending_matches st.1 = delete (seq_id s) (pending_matches bm) ∧
    pending_resume_matches st.1 = pending_resume_matches bm) noexn (bm, s).
Proof.
  intros HI Hempty Hpend Hk (Hids & Hlen & Hcap). unfold allocate. wp_step. wp_step. cbn beta iota.
  wp_step. apply wp_assert; [|intros E; by apply bool_decide_eq_false in E]. intros _.
  wp_steps. rewrite Hpend, (proj2 (Nat.eqb_eq _ _) Hk). cbn [fst snd].
  set (bm1 := bm <| pending_matches := delete (seq_id s) (pending_matches bm) |>).
  assert (HI1 : bm_inv own bm1) by (apply bm_inv_set_pending, ids_ok_delete, (bi_pending _ _ HI); done).
  wp_step. wp_step. apply wp_raise_if; [intros _|intros E; breflect; done].
  wp_step. eapply wp_mono; [apply (take_all_spec share_block append_block
      (λ b s, s <| block_table := block_table s ++ [b] |>) share_block_spec append_block_run own l bm1 s HI1 Hids)| |done].
  intros [] [bm2 s2] (HI2 & HF2 & Hs2 & Hl2). cbn [fst snd] in *. rewrite foldl_append, Hempty in Hs2. cbn in Hs2.
  wp_step. set (n := num_blocks (block_size bm) s).
  assert (Hc1 : count_used bm1 l = count_used bm l) by done.
  eapply wp_mono; [apply (alloc_all_spec append_block (λ b s, s <| block_table := block_table s ++ [b] |>)
      (seq k (n - k)) append_block_run (l ++ own) bm2 s2 HI2)| |done].
  { rewrite length_seq. cbn in Hl2. lia. }
  intros [] [bm3 s3] (fresh & Hfl & Hff & HI3 & HF3 & Hs3 & Hl3). cbn [fst snd] in *.
  rewrite foldl_append, Hs2 in Hs3. cbn in Hs3. rewrite length_seq in Hfl.
  unfold modify_seq. wp_steps. exists fresh. split_and!.
  - rewrite length_app. lia.
  - done.
  - subst s3. done.
  - subst s3. cbn. revert HI3. apply bm_inv_perm; [|done].
    rewrite <-app_assoc, Permutation_app_swap_app. done.
  - apply (transitivity (y := bm1)); [done|]. etrans; by apply frame_static.
  - destruct HF2 as (_&_&_&E2&_), HF3 as (_&_&_&E3&_). cbn. by rewrite E3, E2.
  - destruct HF2 as (_&_&_&_&E2), HF3 as (_&_&_&_&E3). cbn. by rewrite E3, E2.
Qed.

(** ** Giving blocks back *)
Definition released_seq (s : Sequence) : Sequence :=
  s <| num_cached_tokens := 0 |> <| num_physical_cached_tokens := 0 |> <| kv_compressed := false |>
    <| block_table := [] |> <| kv_block_logical_indices := [] |>.

Lemma deallocate_spec own s bm :
  bm_inv (block_table s ++ own) bm →
  wp deallocate (λ _ st, st.2 = released_seq s ∧ bm_inv own st.1 ∧ bm_static bm st.1 ∧
    pending_matches st.1 = pending_matches bm ∧
    pending_resume_matches st.1 = delete (seq_id s) (pending_resume_matches bm) ∧
    length (free_block_ids bm) <= length (free_block_ids st.1)) noexn (bm, s).
Proof.
  intros HI. unfold deallocate. wp_steps. cbn [fst snd].
  set (bm1 := bm <| pending_resume_matches := delete (seq_id s) (pending_resume_matches bm) |>).
  assert (HI1 : bm_inv (block_table s ++ own) bm1) by (apply bm_inv_set_resume, ids_ok_delete, (bi_resume _ _ HI); done).
  rewrite <-(reverse_Permutation (block_table s)) in HI1.
  apply wp_forM_on_fst. eapply wp_mono; [by apply (release_blocks_spec own)| |done].
  intros [] bm2 (HI2 & (F1 & F2 & F3 & F4 & F5) & Hl). cbn [fst snd]. unfold modify_seq. wp_steps. cbn. split_and!; done.
Qed.

Definition reclaimed_seq (bs keep : nat) (s : Sequence) : Sequence :=
  s <| block_table := take keep (block_table s) |>
    <| kv_block_logical_indices := take keep (kv_block_logical_indices s) |>
    <| num_cached_tokens := keep * bs |> <| num_physical_cached_tokens := keep * bs |>.

Lemma reclaim_suffix_spec own s bm keep :
  bm_inv (block_table s ++ own) bm → keep <= length (block_table s) →
  keep * block_size bm <= num_cached_tokens s →
  wp (reclaim_suffix keep) (λ r st, st.2 = reclaimed_seq (block_size bm) keep s ∧
    bm_inv (block_table (st.2) ++ own) st.1 ∧ bm_static bm st.1 ∧
    pending_matches st.1 = pending_matches bm ∧
    pending_resume_matches st.1 = delete (seq_id s) (pending_resume_matches bm) ∧
    length (free_block_ids st.1) = length (free_block_ids bm) + r) noexn (bm, s).
Proof.
  intros HI Hk Hc. unfold reclaim_suffix. wp_step. wp_step. cbn beta iota.
  wp_step. apply wp_raise_if; [intros _|intros E; breflect; lia].
  wp_step. apply wp_raise_if; [intros _|intros E; breflect; lia].
  unfold num_free. wp_steps. cbn [fst snd].
  set (bm1 := bm <| pending_resume_matches := delete (seq_id s) (pending_resume_matches bm) |>).
  assert (HI1 : bm_inv (drop keep (block_table s) ++ take keep (block_table s) ++ own) bm1).
  { apply bm_inv_set_resume, ids_ok_delete, (bi_resume _ _ HI). revert HI. apply bm_inv_perm; [|done].
    rewrite Permutation_app_swap_app, app_assoc, take_drop. done. }
  rewrite <-(reverse_Permutation (drop keep (block_table s))) in HI1.
  apply wp_forM_on_fst. eapply wp_mono; [by apply release_blocks_spec| |done].
  intros [] bm2 (HI2 & (F1 & F2 & F3 & F4 & F5) & Hl). cbn [fst snd]. unfold modify_seq. wp_steps. cbn.
  cbn in Hl. split_and!; try done. lia.
Qed.

(** ** Resuming with a retained prefix *)
Lemma can_resume_spec own s bm :
  bm_inv own bm → length (block_table s) <= num_blocks (block_size bm) s →
  wp (can_resume s) (λ r bm', bm_inv own bm' ∧ bm_static bm bm' ∧
    free_block_ids bm' = free_block_ids bm ∧ used_block_ids bm' = used_block_ids bm ∧
    pending_matches bm' = pending_matches bm ∧
    (∀ i, i ≠ seq_id s → pending_resume_matches bm' !! i = pending_resume_matches bm !! i) ∧
    (r = true → ∃ l, pending_resume_matches bm' !! seq_id s = Some l ∧
       length l <= num_blocks (block_size bm) s - 1 - length (block_table s) ∧
       admitted s bm' (num_blocks (block_size bm) s - length (block_table s)) l) ∧
    (r = false → length (free_block_ids bm) < num_blocks (block_size bm) s - length (block_table s))) noexn bm.
Proof.
  intros HI Hle. unfold can_resume. wp_step. wp_step. cbn beta.
  wp_step. apply wp_raise_if; [intros _|intros E; breflect; lia].
  wp_step. eapply wp_mono; [by apply lookup_spec| |done].
  intros cached bm1 (HI1 & (HF & Hf & Hu & Hb & Hh) & Hids & Hlen & _). pose proof HF as (F1 & F2 & F3 & F4 & F5).
  wp_steps. set (missing := num_blocks (block_size bm) s - length (block_table s)).
  set (suffix := if decide _ then _ else _).
  assert (Hs : ids_ok bm1 suffix ∧ length suffix <= missing ∧
    length suffix <= num_blocks (block_size bm) s - 1 - length (block_table s)).
  { unfold suffix. case_decide; [|split; [by apply Forall_nil|simpl; lia]]. unfold slice.
    split; [|rewrite length_take, length_drop; lia]. unfold ids_ok in *. rewrite F3. by apply Forall_take, Forall_drop. }
  destruct Hs as (Hs1 & Hs2 & Hs3). destruct (_ <? _) eqn:Ecap; breflect; wp_steps.
  - split; [by apply bm_inv_set_resume, ids_ok_delete, (bi_resume _ _ HI1)|].
    split; [by split_and!|]. split_and!; try done; [intros i Hi; cbn; by rewrite lookup_delete_ne, F5|].
    intros _. rewrite <-Hf. unfold missing in Ecap. lia.
  - split; [by apply bm_inv_set_resume, ids_ok_insert, (bi_resume _ _ HI1)|].
    split; [by split_and!|]. split_and!; try done.
    + intros i Hi. cbn. by rewrite lookup_insert_ne, F5.
    + intros _. exists suffix. cbn. rewrite lookup_insert_eq. split_and!; [done..|]. by split_and!.
Qed.

(** One more block at the end of the table, in [resume]. *)
Definition push_block (b : nat) (s : Sequence) : Sequence :=
  let s := s <| block_table := block_table s ++ [b] |> in
  s <| kv_block_logical_indices := kv_block_logical_indices s ++ [length (kv_block_logical_indices s)] |>.
Lemma push_block_run b bm s : (append_block b;; append_logical) (bm, s) = (inr tt, (bm, push_block b s)).
Proof. done. Qed.
Definition pushed (l : list nat) (s : Sequence) : Sequence :=
  s <| block_table := block_table s ++ l |>
    <| kv_block_logical_indices := kv_block_logical_indices s ++
         seq (length (kv_block_logical_indices s)) (length l) |>.
Lemma foldl_push l s : foldl (λ s b, push_block b s) s l = pushed l s.
Proof.
  revert s. induction l as [|b l IH]; intros s; simpl; [unfold pushed; destruct s; cbn; by rewrite !app_nil_r|].
  rewrite IH. unfold pushed, push_block. cbn. rewrite length_app, <-!app_assoc, Nat.add_1_r. done.
Qed.

Lemma fill_table_spec own fuel bm s :
  bm_inv (block_table s ++ own) bm →
  num_blocks (block_size bm) s - length (block_table s) < fuel →
  num_blocks (block_size bm) s - length (block_table s) <= length (free_block_ids bm) →
  wp (fill_table fuel) (λ _ st, ∃ fresh,
    length fresh = num_blocks (block_size bm) s - length (block_table s) ∧
    fresh_blocks (block_table s ++ own) fresh ∧ st.2 = pushed fresh s ∧
    bm_inv (block_table (st.2) ++ own) st.1 ∧ bm_frame bm st.1) noexn (bm, s).
Proof.
  revert bm s. induction fuel as [|fuel IH]; intros bm s HI Hfuel Hfree; [lia|]. simpl.
  wp_step. wp_step. cbn beta iota. destruct (_ <? _) eqn:E; breflect.
  2:{ wp_step. exists []. unfold pushed. split_and!.
      - simpl. lia.
      - split; [constructor|set_solver].
      - destruct s. cbn. by rewrite !app_nil_r.
      - done.
      - reflexivity. }
  wp_step. wp_step. cbn [fst snd]. eapply wp_mono; [apply (allocate_block_spec _ _ HI)| |done].
  { intros E'. rewrite E' in Hfree. simpl in Hfree. lia. }
  intros b bm1 (Hb & HI1 & HF1 & Hu1 & Hl1). rewrite decide_False in Hl1 by (by eapply bm_disjoint).
  pose proof HF1 as (F1 & _). unfold append_logical, append_block, modify_seq. wp_steps. cbn [fst snd].
  fold (push_block b s).
  assert (Ht : length (block_table (push_block b s)) = S (length (block_table s))).
  { cbn. rewrite length_app. cbn. lia. }
  eapply wp_mono; [apply (IH bm1 (push_block b s))| |done].
  - cbn. revert HI1. apply bm_inv_perm; [|done]. rewrite <-app_assoc; cbn; by rewrite Permutation_middle.
  - rewrite F1, Ht. change (num_blocks (block_size bm) (push_block b s)) with (num_blocks (block_size bm) s). lia.
  - rewrite F1, Ht. change (num_blocks (block_size bm) (push_block b s)) with (num_blocks (block_size bm) s). lia.
  - intros [] [bm2 s2] (fresh & Hlf & [Hd Hfr] & Hs2 & HI2 & HF2). cbn [fst snd] in *.
    rewrite F1, Ht in Hlf. change (num_blocks (block_size bm) (push_block b s)) with (num_blocks (block_size bm) s) in Hlf.
    apply (bi_free _ _ HI) in Hb as [_ Hb]. exists (b :: fresh). split_and!.
    + simpl. lia.
    + split.
      * apply NoDup_cons. split; [|done]. intros Hin. apply (Hfr b Hin). cbn. set_solver.
      * intros b' [->|Hb']%elem_of_cons; [rewrite <-occ_pos; lia|]. intros Hin. apply (Hfr b' Hb'). cbn. set_solver.
    + rewrite Hs2, <-!foldl_push. done.
    + done.
    + by etrans.
Qed.

Lemma resume_spec own s bm l :
  bm_inv (block_table s ++ own) bm → pending_resume_matches bm !! seq_id s = Some l →
  length (block_table s) <= num_blocks (block_size bm) s →
  admitted s bm (num_blocks (block_size bm) s - length (block_table s)) l →
  wp resume (λ r st, ∃ fresh,
    r = length l * block_size bm ∧
    length (block_table s ++ l ++ fresh) = num_blocks (block_size bm) s ∧
    st.2 = pushed (l ++ fresh) s <| num_cached_tokens := num_cached_tokens s + r |>
             <| num_physical_cached_tokens := num_physical_cached_tokens s + r |> ∧
    bm_inv (block_table (st.2) ++ own) st.1 ∧ bm_static bm st.1 ∧
    pending_matches st.1 = pending_matches bm ∧
    pending_resume_matches st.1 = delete (seq_id s) (pending_resume_matches bm)) noexn (bm, s).
Proof.
  intros HI Hpend Hle (Hids & Hlen & Hcap). unfold resume, pop_resume_match. wp_steps. rewrite Hpend. cbn [fst snd].
  set (bm1 := bm <| pending_resume_matches := delete (seq_id s) (pending_resume_matches bm) |>).
  assert (HI1 : bm_inv (block_table s ++ own) bm1) by (apply bm_inv_set_resume, ids_ok_delete, (bi_resume _ _ HI); done).
  wp_step. wp_step. eapply wp_mono; [apply (take_all_spec reuse_block (λ b, append_block b;; append_logical)
      push_block reuse_block_spec push_block_run (block_table s ++ own) l bm1 s HI1 Hids)| |done].
  intros [] [bm2 s2] (HI2 & HF2 & Hs2 & Hl2). cbn [fst snd] in *. rewrite foldl_push in Hs2. subst s2.
  pose proof HF2 as (F1 & F2 & F3 & F4 & F5). cbn in F1.
  unfold modify_seq. wp_steps. cbn [fst snd]. rewrite F1.
  set (s3 := pushed l s <| num_cached_tokens := _ |> <| num_physical_cached_tokens := _ |>).
  assert (Hn : num_blocks (block_size bm) s3 = num_blocks (block_size bm) s) by done.
  assert (Ht : block_table s3 = block_table s ++ l) by done.
  assert (Hc1 : count_used bm1 l = count_used bm l) by done.
  eapply wp_mono; [apply (fill_table_spec own _ bm2 s3)| |done].
  - rewrite Ht. revert HI2. apply bm_inv_perm; [|done]. by rewrite <-app_assoc, Permutation_app_swap_app.
  - rewrite F1, Hn, Ht, length_app. change (num_blocks (block_size bm) (pushed l s)) with (num_blocks (block_size bm) s). lia.
  - rewrite F1, Hn, Ht, length_app. cbn in Hl2. lia.
  - intros [] [bm3 s4] (fresh & Hlf & Hff & Hs4 & HI3 & HF3). cbn [fst snd] in *. rewrite F1, Hn, Ht, length_app in Hlf.
    wp_steps. exists fresh. split_and!; try done.
    + rewrite !length_app. lia.
    + subst s4. unfold s3, pushed. cbn. rewrite !length_app, <-!app_assoc, length_seq, seq_app. done.
    + apply (transitivity (y := bm1)); [done|]. etrans; by apply frame_static.
    + destruct HF3 as (_&_&_&E3&_). cbn. by rewrite E3, F4.
    + destruct HF3 as (_&_&_&_&E3). cbn. by rewrite E3, F5.
Qed.

(** ** Dropping pages *)
Lemma filter_fst_fmap {A} (Q : nat → Prop) `{!∀ i, Decision (Q i)} (L : list (nat * A)) :
  filter Q (L.*1) = (filter (λ ix, Q ix.1) L).*1.
Proof.
  induction L as [|[i x] L IH]; [done|]. csimpl. destruct (decide (Q i)).
  - rewrite !filter_cons_True by done. csimpl. by rewrite IH.
  - rewrite !filter_cons_False by done. done.
Qed.
Lemma imap_pair_fst {A} (l : list A) k : (imap (λ i x, (k + i, x)) l).*1 = seq k (length l).
Proof.
  revert k. induction l as [|x l IH]; intros k; [done|]. csimpl. f_equal; [lia|].
  rewrite <-(IH (S k)). f_equal. apply imap_ext. intros i ? ?. cbn. f_equal. lia.
Qed.
Lemma imap_pair_lookup {A} (l : list A) p : p ∈ imap pair l → l !! p.1 = Some p.2.
Proof. intros [i Hi]%list_elem_of_lookup_1. rewrite list_lookup_imap in Hi. by destruct (l !! i) eqn:E; simplify_eq/=. Qed.
Lemma imap_pair_snd {A} (l : list A) : (imap pair l).*2 = l.
Proof. rewrite fmap_imap. etrans; [apply (imap_const id)|apply list_fmap_id]. Qed.

Definition dropped_at (keep : gset nat) (l : list nat) : list (nat * nat) :=
  filter (λ ix, ix.1 ∉ keep) (imap pair l).
Lemma dropped_positions_eq keep (l : list nat) :
  filter (.∉ keep) (seq 0 (length l)) = (dropped_at keep l).*1.
Proof.
  rewrite <-(imap_pair_fst l 0). etrans; [apply (filter_fst_fmap (.∉ keep))|].
  unfold dropped_at. by do 2 f_equal.
Qed.
Lemma keep_dropped keep l : keep_at keep l ++ (dropped_at keep l).*2 ≡ₚ l.
Proof.
  unfold keep_at, dropped_at. rewrite <-fmap_app. etrans; [|by rewrite <-(imap_pair_snd l) at 1].
  apply fmap_Permutation, filter_app_complement.
Qed.

(** Releasing positions of the table is releasing the blocks there. *)
Lemma release_positions own s l bm :
  (∀ p, p ∈ l → block_table s !! p.1 = Some p.2) → bm_inv (l.*2 ++ own) bm →
  wp (forM (l.*1) (λ i, b ← table_block i s; release_block b))
    (λ _ bm', bm_inv own bm' ∧ bm_frame bm bm' ∧
      length (free_block_ids bm) <= length (free_block_ids bm')) noexn bm.
Proof.
  revert bm. induction l as [|[i b] l IH]; intros bm Hl HI; simpl.
  { wp_step. split_and!; [done|reflexivity|done]. }
  assert (Hib : block_table s !! i = Some b) by (apply (Hl (i, b)); by left).
  wp_step. wp_step. unfold table_block. rewrite Hib. cbn [of_option]. wp_step.
  eapply wp_mono; [by apply (release_block_spec (l.*2 ++ own))| |done].
  intros [] bm1 (HI1 & HF1 & Hl1). eapply wp_mono; [apply IH; [|done]| |done].
  { intros p Hp. apply Hl. by right. }
  intros [] bm2 (HI2 & HF2 & Hl2). split_and!; [done|by etrans|]. lia.
Qed.

Definition compressed_seq (bs : nat) (keep : gset nat) (s : Sequence) : Sequence :=
  let dropped_tokens := Nat.min (length (dropped_at keep (block_table s)) * bs) (num_physical_cached_tokens s) in
  s <| block_table := keep_at keep (block_table s) |>
    <| kv_block_logical_indices := keep_at keep (kv_block_logical_indices s) |>
    <| num_physical_cached_tokens := num_physical_cached_tokens s - dropped_tokens |>
    <| kv_compressed := true |>.

Lemma compress_keep_positions_spec own s bm keep :
  bm_inv (block_table s ++ own) bm →
  wp (compress_keep_positions keep) (λ r st,
    (r.1.1 = length (dropped_at keep (block_table s))) ∧
    (r.1.1 = 0 → r = (0, 0, 0) ∧ st = (bm, s)) ∧
    (r.1.1 ≠ 0 → st.2 = compressed_seq (block_size bm) keep s) ∧
    bm_inv (block_table (st.2) ++ own) st.1 ∧ bm_frame bm st.1 ∧
    length (free_block_ids st.1) = length (free_block_ids bm) + r.1.2) noexn (bm, s).
Proof.
  intros HI. unfold compress_keep_positions. wp_step. wp_step. cbn beta iota.
  rewrite dropped_positions_eq. set (D := dropped_at keep (block_table s)).
  destruct (D.*1) as [|d0 ds] eqn:ED.
  { wp_step. assert (D = []) as -> by (by destruct D). cbn. rewrite Nat.add_0_r. by split_and!. }
  rewrite <-ED. unfold num_free. wp_steps. cbn [fst snd].
  assert (HI1 : bm_inv ((reverse D).*2 ++ keep_at keep (block_table s) ++ own) bm).
  { revert HI. apply bm_inv_perm; [|done]. rewrite (reverse_Permutation D).
    rewrite Permutation_app_swap_app, app_assoc. unfold D. by rewrite keep_dropped. }
  rewrite <-fmap_reverse. apply wp_forM_on_fst. cbn [fst snd].
  eapply wp_mono; [apply (release_positions (keep_at keep (block_table s) ++ own) s _ bm)| |done].
  { intros p Hp. rewrite elem_of_reverse in Hp. apply list_elem_of_filter in Hp as [_ Hp]. by apply imap_pair_lookup. }
  { done. }
  intros [] bm1 (HI2 & HF & Hl). unfold modify_seq. wp_steps. cbn [fst snd].
  assert (HD : length (D.*1) = length D) by apply length_fmap.
  assert (HDp : length D ≠ 0) by (intros E; by rewrite <-HD, ED in E).
  rewrite HD. split_and!; [done|intros E; cbn in E; lia|done|done|done|cbn; lia].
Qed.

Lemma keep_first {A} keep (l : list A) : 0 ∈ keep → l ≠ [] → keep_at keep l ≠ [].
Proof. intros Hk Hl. destruct l as [|x l]; [done|]. unfold keep_at. cbn. by rewrite decide_True. Qed.
(** Sink-and-recent compression drops the middle: the first [sink] and the last
    [recent] pages stay, in order. *)
Lemma compress_sink_recent_spec own s bm sink recent :
  bm_inv (block_table s ++ own) bm → 1 <= sink → 1 <= recent →
  wp (compress_sink_recent sink recent) (λ r st,
    (r.1.1 = 0 → r = (0, 0, 0) ∧ st = (bm, s)) ∧
    (r.1.1 ≠ 0 → ∃ keep, st.2 = compressed_seq (block_size bm) keep s ∧ block_table (st.2) ≠ []) ∧
    bm_inv (block_table (st.2) ++ own) st.1 ∧ bm_frame bm st.1 ∧
    length (free_block_ids st.1) = length (free_block_ids bm) + r.1.2) noexn (bm, s).
Proof.
  intros HI Hs Hr. unfold compress_sink_recent. wp_step. wp_step. cbn beta iota.
  wp_step. apply wp_raise_if; [intros _|intros E; breflect; destruct E; breflect; lia].
  assert (Hid : wp (mret (0, 0, 0)) (λ r st,
    (r.1.1 = 0 → r = (0, 0, 0) ∧ st = (bm, s)) ∧ (r.1.1 ≠ 0 → ∃ keep, st.2 = compressed_seq (block_size bm) keep s ∧ block_table (st.2) ≠ []) ∧
    bm_inv (block_table (st.2) ++ own) st.1 ∧ bm_frame bm st.1 ∧
    length (free_block_ids st.1) = length (free_block_ids bm) + r.1.2) noexn (bm, s)).
  { wp_step. cbn. rewrite Nat.add_0_r. by split_and!. }
  destruct (_ <=? _) eqn:El; [exact Hid|]. case_bool_decide; [exact Hid|]. breflect.
  eapply wp_mono; [by apply (compress_keep_positions_spec own)| |done].
  intros r st (_ & H1 & H2 & H3 & H4 & H5). split_and!; try done. intros Hn. rewrite (H2 Hn). eexists. split; [done|].
  apply keep_first; [|by intros Ht; rewrite Ht in El; cbn in El; lia].
  unfold set_range. apply elem_of_difference. rewrite !elem_of_list_to_set, !elem_of_seq. lia.
Qed.

(** ** Decode growth *)
Definition appended_seq (bs b : nat) (s : Sequence) : Sequence :=
  s <| block_table := block_table s ++ [b] |>
    <| kv_block_logical_indices := kv_block_logical_indices s ++ [num_blocks bs s - 1] |>.
Lemma may_append_spec own s bm :
  bm_inv (block_table s ++ own) bm →
  Nat.b2n (needs_page (block_size bm) s) <= length (free_block_ids bm) →
  wp may_append (λ _ st,
    bm_inv (block_table (st.2) ++ own) st.1 ∧ bm_frame bm st.1 ∧
    (if needs_page (block_size bm) s then ∃ b, b ∉ block_table s ++ own ∧ st.2 = appended_seq (block_size bm) b s
     else st.2 = s)) noexn (bm, s).
Proof.
  intros HI Hfree. unfold may_append. wp_step. wp_step. cbn beta iota. destruct (needs_page _ _) eqn:En.
  2:{ wp_step. by split_and!. }
  wp_step. wp_step. cbn [fst snd]. eapply wp_mono; [apply (allocate_block_spec _ _ HI)| |done].
  { intros E. rewrite E in Hfree. simpl in Hfree. lia. }
  intros b bm1 (Hb & HI1 & HF1 & _). unfold append_block, modify_seq. wp_steps. cbn [fst snd]. split_and!.
  - revert HI1. apply bm_inv_perm; [|done]. cbn. solve_Permutation.
  - done.
  - exists b. split; [|done]. apply (bi_free _ _ HI) in Hb as [_ Hb]. rewrite <-occ_pos. lia.
Qed.

(** ** Publishing computed blocks *)
Lemma bm_inv_blocks own bm f b :
  bm_inv own bm → (∀ bl, ref_count (f bl) = ref_count bl) →
  bm_inv own (bm <| blocks := alter f b (blocks bm) |>).
Proof.
  intros HI Hf. apply (bm_inv_update own own bm _ HI); try done.
  - split_and!; try done. apply length_alter.
  - apply (bi_free_nodup _ _ HI).
  - apply (bi_free _ _ HI).
  - apply (bi_used _ _ HI).
  - intros x bl [[-> (bl0 & Hb & ->)]|[_ Hx]]%lookup_alter_block.
    + rewrite Hf. by apply (bi_ref _ _ HI).
    + by apply (bi_ref _ _ HI).
  - apply (bi_own _ _ HI).
  - eapply prefix_ok_shape; [..|apply (bi_prefix _ _ HI)]; try done. apply length_alter.
  - apply (bi_hash _ _ HI).
Qed.

(** A state where only contents, hashes and the index changed. *)
Definition same_counts (bm bm' : BlockManager) : Prop :=
  bm_frame bm bm' ∧ free_block_ids bm' = free_block_ids bm ∧ used_block_ids bm' = used_block_ids bm.
#[local] Instance same_counts_preorder : PreOrder same_counts.
Proof.
  split; [intros x; split; [reflexivity|done]|].
  intros x y z (?&?&?) (?&?&?). split; [by etrans|]. split; congruence.
Qed.

(** The positions of [idx] exist in the table and in the token list. *)
Definition positions_ok (bm : BlockManager) (s : Sequence) (idx : list nat) : Prop :=
  ∀ i, i ∈ idx → i < length (block_table s) ∧ i < num_blocks (block_size bm) s.

Lemma table_block_owned own s bm i :
  bm_inv (block_table s ++ own) bm → i < length (block_table s) →
  ∃ b bl, block_table s !! i = Some b ∧ blocks bm !! b = Some bl.
Proof.
  intros HI [b Hb]%lookup_lt_is_Some_2. exists b.
  pose proof (bi_own _ _ HI) as Ho. unfold ids_ok in Ho. rewrite Forall_app in Ho. destruct Ho as [Ho _].
  rewrite Forall_lookup in Ho. destruct (inv_block _ _ _ HI (Ho _ _ Hb)) as [bl Hbl]. by exists bl.
Qed.

Lemma chain_hashes_spec own s idx h bm :
  bm_inv (block_table s ++ own) bm → positions_ok bm s idx →
  wp (chain_hashes s idx h) (λ _ bm', bm_inv (block_table s ++ own) bm' ∧ same_counts bm bm') noexn bm.
Proof.
  revert h bm. induction idx as [|i idx IH]; intros h bm HI Hidx; simpl.
  { wp_step. split; [done|reflexivity]. }
  destruct (Hidx i) as [Hi1 Hi2]; [by left|].
  destruct (table_block_owned own s bm i HI Hi1) as (b & bl & Hb & Hbl).
  wp_step. unfold table_block. rewrite Hb. cbn [of_option]. wp_step. wp_step. eapply wp_get_block; [done|].
  wp_steps. apply wp_lift.
  2:{ intros e. rewrite block_ok by done. done. }
  intros tokens _. wp_step. apply wp_update_block. wp_steps.
  set (h' := compute_hash tokens h).
  set (bm1 := bm <| blocks := alter (block_update h' tokens) b (blocks bm) |>).
  assert (HI1 : bm_inv (block_table s ++ own) bm1) by (by apply bm_inv_blocks).
  set (bm2 := bm1 <| hash_to_block_id := <[h' := b]> (hash_to_block_id bm1) |>).
  assert (HF : bm_frame bm bm2) by (split_and!; try done; apply length_alter).
  assert (HI2 : bm_inv (block_table s ++ own) bm2).
  { destruct HI1 as [H1 H2 H3 H4 H5 H6 H7 H8 H9]. split; try done.
    intros h0 b0 Hh. cbn in Hh. apply lookup_insert_Some in Hh as [[_ <-]|[_ Hh]]; [|by eapply H7].
    cbn. rewrite length_alter. by eapply lookup_lt_Some. }
  eapply wp_mono; [apply IH; [done|]| |done].
  { intros j Hj. apply Hidx. by right. }
  intros [] bm3 [HI3 HS3]. split; [done|]. etrans; [|done]. split; done.
Qed.

Lemma store_tokens_spec own s idx bm :
  bm_inv (block_table s ++ own) bm → positions_ok bm s idx →
  wp (store_tokens s idx) (λ _ bm', bm_inv (block_table s ++ own) bm' ∧ same_counts bm bm' ∧
    radix_cache bm' = radix_cache bm) noexn bm.
Proof.
  unfold store_tokens. revert bm. induction idx as [|i idx IH]; intros bm HI Hidx; simpl.
  { wp_step. split_and!; [done|reflexivity|done]. }
  destruct (Hidx i) as [Hi1 Hi2]; [by left|].
  destruct (table_block_owned own s bm i HI Hi1) as (b & bl & Hb & Hbl).
  wp_step. wp_step. unfold table_block at 1. rewrite Hb. cbn [of_option]. wp_step. wp_step. eapply wp_get_block; [done|].
  wp_steps. apply wp_lift.
  2:{ intros e. rewrite block_ok by done. done. }
  intros tokens _. apply wp_update_block.
  set (bm1 := bm <| blocks := alter (block_update (-1) tokens) b (blocks bm) |>).
  assert (HF : bm_frame bm bm1) by (split_and!; try done; apply length_alter).
  eapply wp_mono; [apply (IH bm1); [by apply bm_inv_blocks|]| |done].
  { intros j Hj. apply Hidx. by right. }
  intros [] bm3 (HI3 & HS3 & Hr). split_and!; [done| |done]. etrans; [|done]. by split.
Qed.

(** What [insert] needs of a request's blocks, in radix mode. *)
Definition insertable (bm : BlockManager) (s : Sequence) (stop : nat) : Prop :=
  NoDup (take stop (block_table s)) ∧
  ∀ c m, radix_cache bm = Some c → represents m c →
    fresh_path m ((λ i, block_tokens (block_size bm) i s) <$> seq 0 stop) (take stop (block_table s)).

Lemma publish_radix_spec own s bm stop :
  bm_inv (block_table s ++ own) bm → prefix_cache_backend bm = RadixBackend →
  stop <= length (block_table s) → stop <= num_blocks (block_size bm) s → insertable bm s stop →
  wp (keys ← lift (block_keys (block_size bm) s stop); on_radix (insert_prefix keys (take stop (block_table s))))
    (λ _ bm', bm_inv (block_table s ++ own) bm' ∧ same_counts bm bm') noexn bm.
Proof.
  intros HI Hback Hs1 Hs2 [Hdup Hfresh]. pose proof (bi_prefix _ _ HI) as Hp. unfold prefix_ok in Hp. rewrite Hback in Hp.
  destruct (radix_cache bm) as [c|] eqn:Ec; [|done]. destruct Hp as (m & Hm & Hlt).
  wp_step. apply wp_lift.
  2:{ intros e. rewrite block_keys_ok by lia. done. }
  intros keys Hkeys. rewrite block_keys_ok in Hkeys by lia. injection Hkeys as <-.
  assert (Hlen : length ((λ i, block_tokens (block_size bm) i s) <$> seq 0 stop) = length (take stop (block_table s))).
  { rewrite length_fmap, length_seq, length_take. lia. }
  destruct (insert_prefix_spec m c _ _ Hm Hlen Hdup) as (c' & Hrun & Hm'); [by eapply Hfresh|].
  eapply wp_on_radix; [exact Ec|]. eapply wp_of_run; [exact Hrun|]. split; [|split; [by split_and!|done]].
  eapply same_accounts_inv; [exact HI|split; [by split_and!|done]|]. unfold prefix_ok. cbn. rewrite Hback.
  eexists. split; [exact Hm'|]. intros ks b [?|[_ Hb]]%lookup_union_Some_raw; [by eapply Hlt|].
  apply lookup_path_map in Hb as (i & Hi & _); [|done]. apply lookup_take_Some in Hi as [Hi _].
  pose proof (bi_own _ _ HI) as Ho. unfold ids_ok in Ho. rewrite Forall_app in Ho. destruct Ho as [Ho _].
  rewrite Forall_lookup in Ho. by eapply Ho.
Qed.

Lemma hash_blocks_spec own s bm :
  let start := num_cached_tokens s / block_size bm in
  let stop := (num_cached_tokens s + num_scheduled_tokens s) / block_size bm in
  bm_inv (block_table s ++ own) bm → start <= stop →
  stop <= length (block_table s) → stop <= num_blocks (block_size bm) s →
  (prefix_cache_backend bm = RadixBackend → insertable bm s stop) →
  wp (hash_blocks s) (λ _ bm', bm_inv (block_table s ++ own) bm' ∧ same_counts bm bm') noexn bm.
Proof.
  intros start stop HI Hle Hs1 Hs2 Hins. unfold hash_blocks. destruct (kv_compressed s).
  { wp_step. split; [done|reflexivity]. }
  wp_step. wp_step. cbn beta zeta. fold start stop. destruct (start =? stop) eqn:E; breflect.
  { wp_step. split; [done|reflexivity]. }
  assert (Hpos : positions_ok bm s (seq start (stop - start))).
  { intros i Hi%elem_of_seq. lia. }
  case_decide as Hback.
  - wp_step. eapply wp_mono; [by apply (store_tokens_spec own)| |done].
    intros [] bm1 (HI1 & HS1 & Hr). pose proof HS1 as ((F1 & F2 & F3 & F4 & F5) & _).
    rewrite <-F1. eapply wp_mono; [apply (publish_radix_spec own s bm1 stop)| |done].
    + done.
    + by rewrite F2.
    + done.
    + by rewrite F1.
    + destruct (Hins Hback) as [Hd Hf]. split; [done|]. rewrite Hr, F1. done.
    + intros [] bm2 [HI2 HS2]. split; [done|]. by etrans.
  - assert (Hrest : ∀ h, wp (chain_hashes s (seq start (stop - start)) h)
      (λ _ bm', bm_inv (block_table s ++ own) bm' ∧ same_counts bm bm') noexn bm).
    { intros h. by apply chain_hashes_spec. }
    wp_step. destruct (0 <? start) eqn:E0; breflect; [|wp_step; apply Hrest].
    destruct (table_block_owned own s bm (start - 1) HI) as (b & bl & Hb & Hbl); [lia|].
    wp_step. unfold table_block. rewrite Hb. cbn [of_option]. wp_step. wp_step. eapply wp_get_block; [done|].
    wp_step. apply Hrest.
Qed.

Lemma commit_restored_spec own s bm k :
  bm_inv (block_table s ++ own) bm →
  num_cached_tokens s / block_size bm < k → k < num_blocks (block_size bm) s →
  length (block_table s) = num_blocks (block_size bm) s →
  (prefix_cache_backend bm = RadixBackend → insertable bm s k) →
  wp (commit_restored_prefix k) (λ _ st,
    st.2 = s <| num_cached_tokens := k * block_size bm |> <| num_physical_cached_tokens := k * block_size bm |> ∧
    bm_inv (block_table s ++ own) st.1 ∧ same_counts bm st.1) noexn (bm, s).
Proof.
  intros HI Hk1 Hk2 Ht Hins. unfold commit_restored_prefix. wp_step. wp_step. cbn beta iota.
  wp_step. apply wp_raise_if; [intros _|intros E; breflect; destruct E; breflect; lia].
  wp_step. apply wp_raise_if; [intros _|intros E; breflect; lia].
  wp_step. wp_step. cbn [fst snd]. set (start := num_cached_tokens s / block_size bm) in *.
  eapply (wp_mono _ (λ _ bm', bm_inv (block_table s ++ own) bm' ∧ same_counts bm bm') _ noexn).
  - case_decide as Hback.
    + wp_step. eapply wp_mono; [apply (store_tokens_spec own s _ bm HI)| |done].
      { intros i Hi%elem_of_seq. lia. }
      intros [] bm1 (HI1 & HS1 & Hr). pose proof HS1 as ((F1 & F2 & F3 & F4 & F5) & _).
      rewrite <-F1. eapply wp_mono; [apply (publish_radix_spec own s bm1 k)| |done].
      * done.
      * by rewrite F2.
      * lia.
      * rewrite F1. lia.
      * destruct (Hins Hback) as [Hd Hf]. split; [done|]. rewrite Hr, F1. done.
      * intros [] bm2 [HI2 HS2]. split; [done|]. by etrans.
    + apply chain_hashes_spec; [done|]. intros i Hi%elem_of_seq. lia.
  - intros [] bm1 [HI1 HS1]. unfold modify_seq. wp_steps. by split_and!.
  - done.
Qed.
End spec.

(** ** Theorems *)
Section theorems.
Context `{Hasher}.

Lemma block_manager_init_inv n bs backend bm :
  block_manager_init n bs backend = inr bm → bm_inv [] bm ∧ length (blocks bm) = n ∧ block_size bm = bs.
Proof.
  unfold block_manager_init. intros Hi. result_inv. subst bm. cbn. rewrite length_replicate.
  split; [|done]. split; cbn; unfold ids_ok; rewrite ?length_replicate; try done.
  - apply NoDup_seq.
  - intros b. rewrite elem_of_seq. unfold occ. simpl. lia.
  - intros b. unfold occ. simpl. split; [set_solver|lia].
  - intros b bl [-> _]%lookup_replicate_1. done.
  - unfold prefix_ok. cbn. destruct (String.eqb backend "radix"); [|done].
    exists ∅. split; [apply radix_init_empty|done].
Qed.

(** C7: a prompt [can_allocate] admitted: [allocate] then returns, with one
    page per block of the prompt, the cached prefix first and fresh pages after it, and
    the cache's invariant holds with the request's pages added to the references. *)
Theorem allocate_after_admission own s bm k bm1 :
  bm_inv own bm → block_table s = [] → can_allocate s bm = (inr (Some k), bm1) →
  ∃ bm2 s2, allocate k (bm1, s) = (inr tt, (bm2, s2)) ∧
    bm_inv (block_table s2 ++ own) bm2 ∧
    length (block_table s2) = num_blocks (block_size bm) s ∧
    num_cached_tokens s2 = k * block_size bm ∧
    fresh_blocks (take k (block_table s2) ++ own) (drop k (block_table s2)) ∧
    token_ids s2 = token_ids s.
Proof.
  intros HI Hempty Hrun. pose proof (can_allocate_spec own s bm HI) as Hwp.
  unfold wp in Hwp. rewrite Hrun in Hwp.
  destruct Hwp as (HI1 & (F1 & F2 & F3) & _ & _ & _ & _ & _ & Hk & l & Hpend & Hl & Hadm). rewrite <-F1 in Hadm.
  destruct (wp_run _ _ _ (allocate_spec own s bm1 k l HI1 Hempty Hpend Hl Hadm))
    as ([] & [bm2 s2] & Hal & fresh & Hlen & Hfr & Hs2 & HI2 & _). cbn [fst snd] in *.
  exists bm2, s2. rewrite <-F1. subst s2. cbn. rewrite take_app_length', drop_app_length' by done.
  split_and!; done.
Qed.

(** C25: a preempted request [can_resume] accepted: [resume] then returns, keeps
    the pages the request still had and completes its table, counting as cached the
    tokens of the pages it found. *)
Theorem resume_after_check own s bm bm1 :
  bm_inv (block_table s ++ own) bm → length (block_table s) <= num_blocks (block_size bm) s →
  can_resume s bm = (inr true, bm1) →
  ∃ reused bm2 s2, resume (bm1, s) = (inr reused, (bm2, s2)) ∧
    bm_inv (block_table s2 ++ own) bm2 ∧
    length (block_table s2) = num_blocks (block_size bm) s ∧
    block_table s `prefix_of` block_table s2 ∧
    num_cached_tokens s2 = num_cached_tokens s + reused ∧ token_ids s2 = token_ids s.
Proof.
  intros HI Hle Hrun. pose proof (can_resume_spec _ s bm HI Hle) as Hwp.
  unfold wp in Hwp. rewrite Hrun in Hwp.
  destruct Hwp as (HI1 & (F1 & F2 & F3) & _ & _ & _ & _ & Hyes & _).
  destruct (Hyes eq_refl) as (l & Hpend & _ & Hadm). rewrite <-F1 in Hadm, Hle.
  destruct (wp_run _ _ _ (resume_spec own s bm1 l HI1 Hpend Hle Hadm))
    as (reused & [bm2 s2] & Hre & fresh & Hr & Hlen & Hs2 & HI2 & _). cbn [fst snd] in *.
  exists reused, bm2, s2. rewrite <-F1. subst s2. cbn in *. split_and!; try done. by eexists.
Qed.

(** When [can_append] says there is room, [may_append] returns and adds one
    page exactly when the next token falls on a page boundary. *)
Theorem append_after_check own s bm :
  bm_inv (block_table s ++ own) bm → can_append s bm = (inr true, bm) →
  ∃ bm2 s2, may_append (bm, s) = (inr tt, (bm2, s2)) ∧ bm_inv (block_table s2 ++ own) bm2 ∧
    length (block_table s2) = length (block_table s) + Nat.b2n (needs_page (block_size bm) s).
Proof.
  intros HI Hcan. unfold can_append, getsS in Hcan. injection Hcan as Hcan. apply Nat.leb_le in Hcan.
  destruct (wp_run _ _ _ (may_append_spec own s bm HI Hcan)) as ([] & [bm2 s2] & Hrun & HI2 & _ & Hs2).
  cbn [fst snd] in *. exists bm2, s2. split_and!; [done..|].
  destruct (needs_page _ _); [|subst; cbn; lia]. destruct Hs2 as (b & _ & ->). cbn. rewrite length_app. cbn. lia.
Qed.

(** C24: whatever a request gives back, nothing leaks: the free pages and the pages
    still referenced add up to the whole cache. *)
Theorem release_no_leak own s bm keep :
  bm_inv (block_table s ++ own) bm → keep <= length (block_table s) →
  keep * block_size bm <= num_cached_tokens s →
  ∃ freed bm2 s2, reclaim_suffix keep (bm, s) = (inr freed, (bm2, s2)) ∧
    block_table s2 = take keep (block_table s) ∧
    num_cached_tokens s2 = keep * block_size bm ∧
    bm_inv (block_table s2 ++ own) bm2 ∧
    length (free_block_ids bm2) = length (free_block_ids bm) + freed ∧
    length (free_block_ids bm2) + size (list_to_set (block_table s2 ++ own) : gset nat) = length (blocks bm).
Proof.
  intros HI Hk Hc. destruct (wp_run _ _ _ (reclaim_suffix_spec own s bm keep HI Hk Hc))
    as (freed & [bm2 s2] & Hrun & Hs2 & HI2 & (F1 & F2 & F3) & _ & _ & Hfree). cbn [fst snd] in *.
  exists freed, bm2, s2. pose proof (bm_total _ _ HI2) as Ht. subst s2. cbn in *. split_and!; try done.
  rewrite <-F3, <-Ht. do 2 f_equal. apply set_eq. intros b. rewrite elem_of_list_to_set, (bi_used _ _ HI2). symmetry. apply occ_pos.
Qed.

(** C26: a prefix-cache hit in hash mode is never a false hit: every matched block
    stores exactly the tokens of the request's block at its position. *)
Theorem hash_lookup_sound own s bm l bm1 :
  bm_inv own bm → prefix_cache_backend bm = HashBackend →
  lookup_cached_blocks s bm = (inr l, bm1) →
  length l <= num_blocks (block_size bm) s - 1 ∧
  ∀ i b, l !! i = Some b → ∃ bl, blocks bm !! b = Some bl ∧
    btoken_ids bl = block_tokens (block_size bm) i s.
Proof.
  intros HI Hb Hrun. pose proof (lookup_spec own s bm HI) as Hwp. unfold wp in Hwp. rewrite Hrun in Hwp.
  destruct Hwp as (_ & _ & _ & Hl & Hh). split; [done|]. by apply Hh.
Qed.
End theorems.
