(* ===== verification/BlockAgain.v ===== *)
(** * Asking the block manager twice

    [_ensure_resume_capacity] asks [can_resume] to leave its loop and asks again for
    the result: the answer is the same, although each lookup counts itself and, in
    radix mode, refreshes the matched nodes. *)
From S2P Require Import Prelude Qos Sequence RadixCache RadixSpec RadixOps BlockManager BlockInv BlockSpec.
Set Default Goal Selector "!".

Section again.
Context `{Hasher}.

(** What a lookup reads. *)
Definition same_hash (bm bm' : BlockManager) : Prop :=
  block_size bm' = block_size bm ∧ prefix_cache_backend bm' = prefix_cache_backend bm ∧
  blocks bm' = blocks bm ∧ hash_to_block_id bm' = hash_to_block_id bm.
Definition same_index (bm bm' : BlockManager) : Prop := same_hash bm bm' ∧ radix_cache bm' = radix_cache bm.

Lemma hash_lookup_again s idx bm bm' : same_hash bm bm' → ∀ h matched,
  hash_lookup_loop idx s h matched bm' = ((hash_lookup_loop idx s h matched bm).1, bm').
Proof.
  intros (E1 & E2 & E3 & E4). induction idx as [|i idx IH]; intros h matched; [done|]. cbn [hash_lookup_loop].
  unfold mbind, M_bind, getS, lift. rewrite E1. destruct (block (block_size bm) i s) as [e|tokens]; [done|].
  rewrite E4. destruct (hash_to_block_id bm !! _) as [b|]; [|done].
  unfold get_block, mbind, M_bind, getS, of_option. rewrite E3. destruct (blocks bm !! b) as [bl|]; [|done].
  unfold mret, M_ret. case_decide; [apply IH|done].
Qed.

(** The two halves of a lookup, forwards. *)
Lemma lookup_radix_run s bm c c' l :
  let keys := (λ i, block_tokens (block_size bm) i s) <$> seq 0 (num_blocks (block_size bm) s - 1) in
  prefix_cache_backend bm = RadixBackend → radix_cache bm = Some c → match_prefix keys c = (inr l, c') →
  ∃ bm1, lookup_cached_blocks s bm = (inr l, bm1) ∧ radix_cache bm1 = Some c' ∧
    free_block_ids bm1 = free_block_ids bm ∧ used_block_ids bm1 = used_block_ids bm.
Proof.
  intros keys Hb Hc Hm. unfold lookup_cached_blocks, mbind, M_bind, getS, modifyS, mret, M_ret.
  rewrite decide_True by done. unfold lift. cbv beta iota. rewrite block_keys_ok by lia. fold keys. unfold on_radix.
  cbn [radix_cache setter set_cache_lookups set_cache_queried_blocks]. rewrite Hc, Hm. by eexists.
Qed.
Lemma lookup_hash_run s bm l :
  prefix_cache_backend bm = HashBackend →
  (∀ bm', same_hash bm bm' →
    hash_lookup_loop (seq 0 (num_blocks (block_size bm) s - 1)) s (-1) [] bm' = (inr l, bm')) →
  ∃ bm1, lookup_cached_blocks s bm = (inr l, bm1) ∧ radix_cache bm1 = radix_cache bm ∧
    free_block_ids bm1 = free_block_ids bm ∧ used_block_ids bm1 = used_block_ids bm.
Proof.
  intros Hb Hl. unfold lookup_cached_blocks, mbind, M_bind, getS, modifyS, mret, M_ret.
  rewrite decide_False by (rewrite Hb; done). cbv beta iota. rewrite Hl by (by split_and!). by eexists.
Qed.

Lemma lookup_again own s bm :
  bm_inv own bm → ∃ l bm1, lookup_cached_blocks s bm = (inr l, bm1) ∧ same_accounts bm bm1 ∧
    ∀ bm2, same_index bm1 bm2 → ∃ bm3, lookup_cached_blocks s bm2 = (inr l, bm3) ∧
      free_block_ids bm3 = free_block_ids bm2 ∧ used_block_ids bm3 = used_block_ids bm2.
Proof.
  intros HI. destruct (wp_run _ _ _ (lookup_spec own s bm HI)) as (l & bm1 & Hrun & _ & HA & _).
  exists l, bm1. split; [done|]. split; [done|]. destruct HA as ((A1 & A2 & _) & _ & _ & A3 & A4).
  intros bm2 ((E1 & E2 & E3 & E4) & E5). rewrite A1 in E1. rewrite A2 in E2.
  destruct (prefix_cache_backend bm) eqn:Hback.
  - assert (Hh : ∀ bm', same_hash bm bm' → hash_lookup_loop (seq 0 (num_blocks (block_size bm) s - 1)) s (-1) [] bm' =
      ((hash_lookup_loop (seq 0 (num_blocks (block_size bm) s - 1)) s (-1) [] bm).1, bm')).
    { intros bm' Hs. by apply hash_lookup_again. }
    assert (Hl : (hash_lookup_loop (seq 0 (num_blocks (block_size bm) s - 1)) s (-1) [] bm).1 = inr l).
    { pose proof (hash_lookup_loop_spec own s bm (num_blocks (block_size bm) s - 1) 0 (-1)%Z [] HI ltac:(lia)) as Hw.
      destruct (wp_run _ _ _ Hw) as (l' & bm' & Hl' & _). rewrite Hl'.
      destruct (lookup_hash_run s bm l' Hback) as (bm1' & Hrun1 & _).
      - intros bm2' Hs. by rewrite Hh, Hl'.
      - rewrite Hrun1 in Hrun. by injection Hrun as ->. }
    destruct (lookup_hash_run s bm2 l) as (bm3 & Hrun3 & _ & Hf & Hu); [done| |by exists bm3].
    intros bm' (D1 & D2 & D3 & D4). rewrite E1, Hh, Hl; [done|]. split_and!; congruence.
  - pose proof (bi_prefix _ _ HI) as Hp. unfold prefix_ok in Hp. rewrite Hback in Hp.
    destruct (radix_cache bm) as [c|] eqn:Ec; [|done]. destruct Hp as (m & Hm & _).
    set (keys := (λ i, block_tokens (block_size bm) i s) <$> seq 0 (num_blocks (block_size bm) s - 1)).
    destruct (match_prefix_spec m c keys Hm) as (c' & Hc' & Hm' & _).
    destruct (lookup_radix_run s bm c c' _ Hback Ec Hc') as (bm1' & Hrun1 & Hr1 & _).
    rewrite Hrun1 in Hrun. injection Hrun as <- <-.
    destruct (match_prefix_spec m c' keys Hm') as (c'' & Hc'' & _).
    destruct (lookup_radix_run s bm2 c' c'' (longest_match m keys)) as (bm3 & Hrun3 & _ & Hf & Hu).
    + done.
    + by rewrite E5.
    + by rewrite E1.
    + by exists bm3.
Qed.

(** A request that can resume can still resume when asked again. *)
Lemma can_resume_again own s bm bm1 :
  bm_inv own bm → length (block_table s) <= num_blocks (block_size bm) s → can_resume s bm = (inr true, bm1) →
  ∃ bm2, can_resume s bm1 = (inr true, bm2).
Proof.
  intros HI Hle. destruct (lookup_again own s bm HI) as (l & bma & Hla & ((A1 & A2 & A3 & A4 & A5) & B1 & B2 & B3 & B4) & Hagain).
  unfold can_resume, mbind, M_bind, getS, raise_if, modifyS, mret, M_ret.
  rewrite (proj2 (Nat.ltb_ge _ _)) by lia. rewrite Hla.
  set (suffix := if decide _ then _ else _). destruct (_ <? _) eqn:Ecap; [done|]. intros [= <-].
  set (bm1 := bma <| pending_resume_matches := _ |>).
  assert (E1 : block_size bm1 = block_size bm) by exact A1. rewrite E1, (proj2 (Nat.ltb_ge _ _)) by lia.
  destruct (Hagain bm1) as (bm3 & Hl3 & Hf & Hu); [by split_and!|]. rewrite Hl3. fold suffix.
  assert (Hc : count_used bm3 suffix = count_used bma suffix) by (unfold count_used; by rewrite Hu).
  rewrite Hf, Hc. change (free_block_ids bm1) with (free_block_ids bma). rewrite Ecap. by eexists.
Qed.
End again.
