(* ===== verification/HierarchicalCache.v ===== *)
(** * Cache tiers and the transfer planner

    Models [nanovllm/engine/hierarchical_cache.py]: the geometry of a cached
    token, the cost of a tier, the planner that chooses between restoring and
    recomputing a prefix, and one radix index per tier. *)
From S2P Require Import Prelude RadixCache RadixSpec RadixOps RadixRemove RadixLru.
Set Default Goal Selector "!".
Local Open Scope Q_scope.

Inductive CacheTier := GPU | CPU | MOONCAKE.
#[export] Instance CacheTier_eq_dec : EqDecision CacheTier.
Proof. solve_decision. Defined.
Definition all_tiers : list CacheTier := [GPU; CPU; MOONCAKE].

(** ** Geometry and tier profiles *)
Record KVCacheGeometry := mkGeometry {
  g_num_layers : Z;
  g_num_kv_heads : Z;
  g_head_dim : Z;
  g_dtype_bytes : Z
}.
Definition kv_cache_geometry (g : KVCacheGeometry) : result KVCacheGeometry :=
  throw_if (Z.min (Z.min (Z.min (g_num_layers g) (g_num_kv_heads g)) (g_head_dim g)) (g_dtype_bytes g) <=? 0)%Z
    (ValueError "KV cache geometry values must be positive");;
  mret g.
Definition bytes_per_token (g : KVCacheGeometry) : Z :=
  (2 * g_num_layers g * g_num_kv_heads g * g_head_dim g * g_dtype_bytes g)%Z.
Definition size_bytes (g : KVCacheGeometry) (num_tokens : Z) : result Z :=
  throw_if (num_tokens <? 0)%Z (ValueError "num_tokens must be non-negative");;
  mret (bytes_per_token g * num_tokens)%Z.

Record StorageTierProfile := mkTierProfile {
  bandwidth_gbps : Q;
  fixed_latency_ms : Q;
  congestion_multiplier : Q
}.
Definition storage_tier_profile (p : StorageTierProfile) : result StorageTierProfile :=
  throw_if (Qle_bool (bandwidth_gbps p) 0) (ValueError "bandwidth_gbps must be positive");;
  throw_if (Qlt_bool (fixed_latency_ms p) 0) (ValueError "fixed_latency_ms must be non-negative");;
  throw_if (Qlt_bool (congestion_multiplier p) 1) (ValueError "congestion_multiplier must be at least 1");;
  mret p.
Definition transfer_ms (p : StorageTierProfile) (bytes : Z) : Q :=
  let wire_ms := inject_Z bytes / (bandwidth_gbps p * 1000000000) * 1000 in
  fixed_latency_ms p + wire_ms * congestion_multiplier p.

(** ** The planner *)
Inductive KVAction := ActLocal | ActRecompute | ActRestore.
#[export] Instance KVAction_eq_dec : EqDecision KVAction.
Proof. solve_decision. Defined.

Record KVAccessPlan := mkAccessPlan {
  ap_action : KVAction;
  ap_source_tier : CacheTier;
  ap_local_cached_tokens : Z;
  ap_source_cached_tokens : Z;
  ap_restored_tokens : Z;
  ap_recomputed_tokens : Z;
  ap_transfer_bytes : Z;
  ap_transfer_ms : Q;
  ap_recompute_ms : Q;
  ap_total_ms : Q
}.

(** [tier_profiles] is a dictionary: absent tiers have no profile. *)
Record KVTransferPlanner := mkTransferPlanner {
  geometry : KVCacheGeometry;
  tier_profiles : CacheTier → option StorageTierProfile
}.

(** [_recompute_plan] *)
Definition recompute_plan (total_tokens local_cached_tokens : Z) (prefill_ms_per_token : Q) : KVAccessPlan :=
  let recomputed_tokens := (total_tokens - local_cached_tokens)%Z in
  let recompute_ms := inject_Z recomputed_tokens * prefill_ms_per_token in
  {| ap_action := if (recomputed_tokens =? 0)%Z then ActLocal else ActRecompute;
     ap_source_tier := GPU;
     ap_local_cached_tokens := local_cached_tokens;
     ap_source_cached_tokens := local_cached_tokens;
     ap_restored_tokens := 0;
     ap_recomputed_tokens := recomputed_tokens;
     ap_transfer_bytes := 0;
     ap_transfer_ms := 0;
     ap_recompute_ms := recompute_ms;
     ap_total_ms := recompute_ms |}.

(** One iteration of the loop over [cached_tokens_by_tier.items()]. *)
Definition tier_candidate (pl : KVTransferPlanner) (total_tokens local_cached_tokens : Z)
    (prefill_ms_per_token : Q) (item : CacheTier * Z) : result (list KVAccessPlan) :=
  let '(tier, source_cached_tokens) := item in
  throw_if (source_cached_tokens <? 0)%Z (ValueError "cached prefix lengths must be non-negative");;
  if bool_decide (tier = GPU) || (source_cached_tokens <=? local_cached_tokens)%Z then mret []
  else
    throw_if (total_tokens <? source_cached_tokens)%Z
      (ValueError "cached prefix cannot exceed the request length");;
    match tier_profiles pl tier with
    | None => mret []
    | Some profile =>
        let restored_tokens := (source_cached_tokens - local_cached_tokens)%Z in
        transfer_bytes ← size_bytes (geometry pl) restored_tokens;
        let transfer := transfer_ms profile transfer_bytes in
        let recomputed_tokens := (total_tokens - source_cached_tokens)%Z in
        let recompute_ms := inject_Z recomputed_tokens * prefill_ms_per_token in
        mret [{| ap_action := ActRestore;
                 ap_source_tier := tier;
                 ap_local_cached_tokens := local_cached_tokens;
                 ap_source_cached_tokens := source_cached_tokens;
                 ap_restored_tokens := restored_tokens;
                 ap_recomputed_tokens := recomputed_tokens;
                 ap_transfer_bytes := transfer_bytes;
                 ap_transfer_ms := transfer;
                 ap_recompute_ms := recompute_ms;
                 ap_total_ms := transfer + recompute_ms |}]
    end.

(** [(total_ms, transfer_bytes, -source_cached_tokens)], compared as tuples. *)
Definition plan_key (p : KVAccessPlan) : Q * (Z * Z) :=
  (ap_total_ms p, (ap_transfer_bytes p, (- ap_source_cached_tokens p)%Z)).
Definition plan_lt (x y : Q * (Z * Z)) : bool :=
  Qlt_bool x.1 y.1 ||
  (Qeq_bool x.1 y.1 && ((x.2.1 <? y.2.1)%Z || ((x.2.1 =? y.2.1)%Z && (x.2.2 <? y.2.2)%Z))).

(** [KVTransferPlanner.plan] *)
Definition access_plan (pl : KVTransferPlanner) (total_tokens local_cached_tokens : Z)
    (cached_tokens_by_tier : list (CacheTier * Z)) (prefill_ms_per_token : Q) : result KVAccessPlan :=
  throw_if (total_tokens <? 0)%Z (ValueError "total_tokens must be non-negative");;
  throw_if (negb ((0 <=? local_cached_tokens)%Z && (local_cached_tokens <=? total_tokens)%Z))
    (ValueError "local_cached_tokens must be within the request length");;
  throw_if (Qle_bool prefill_ms_per_token 0) (ValueError "prefill_ms_per_token must be positive");;
  restores ← mapR (tier_candidate pl total_tokens local_cached_tokens prefill_ms_per_token)
               cached_tokens_by_tier;
  match py_min plan_lt plan_key
          (recompute_plan total_tokens local_cached_tokens prefill_ms_per_token :: concat restores) with
  | Some p => mret p
  | None => throw (ValueError "min() iterable argument is empty")
  end.

(** ** One radix index per tier *)
Record TierMatch := mkTierMatch { tm_tier : CacheTier; tm_handles : list nat }.
Definition tm_num_blocks (m : TierMatch) : nat := length (tm_handles m).

Record HierarchicalRadixCache := mkHierarchical {
  gpu_index : RadixPrefixCache;
  cpu_index : RadixPrefixCache;
  mooncake_index : RadixPrefixCache
}.
Definition hierarchical_init : HierarchicalRadixCache := mkHierarchical radix_init radix_init radix_init.
Definition index (t : CacheTier) (h : HierarchicalRadixCache) : RadixPrefixCache :=
  match t with GPU => gpu_index h | CPU => cpu_index h | MOONCAKE => mooncake_index h end.
Definition set_index (t : CacheTier) (c : RadixPrefixCache) (h : HierarchicalRadixCache) :
    HierarchicalRadixCache :=
  match t with
  | GPU => mkHierarchical c (cpu_index h) (mooncake_index h)
  | CPU => mkHierarchical (gpu_index h) c (mooncake_index h)
  | MOONCAKE => mkHierarchical (gpu_index h) (cpu_index h) c
  end.
Abbreviation MH := (M HierarchicalRadixCache).
(** A method of [self.indexes[tier]] *)
Definition on_tier {A} (t : CacheTier) (m : MR A) : MH A := λ h,
  match m (index t h) with (r, c) => (r, set_index t c h) end.

Definition tier_insert (t : CacheTier) (keys : list BlockKey) (handles : list nat) : MH () :=
  on_tier t (insert_prefix keys handles).
Definition tier_remove (t : CacheTier) (handle : nat) : MH bool := on_tier t (remove_block handle).
(** [match]: the dictionary's values, in the order of the tiers. *)
Definition tier_match (keys : list BlockKey) : MH (list TierMatch) :=
  mapM_M (λ t, handles ← on_tier t (match_prefix keys); mret (mkTierMatch t handles)) all_tiers.
Definition tier_order (t : CacheTier) : Z := match t with GPU => 0 | CPU => 1 | MOONCAKE => 2 end%Z.
Definition match_key (m : TierMatch) : Z * Z := (Z.of_nat (tm_num_blocks m), (- tier_order (tm_tier m))%Z).
Definition zpair_lt (x y : Z * Z) : bool :=
  (x.1 <? y.1)%Z || ((x.1 =? y.1)%Z && (x.2 <? y.2)%Z).
Definition tier_longest_match (keys : list BlockKey) : MH (option TierMatch) :=
  matches ← tier_match keys;
  best ← of_option (ValueError "max() iterable argument is empty") (py_max zpair_lt match_key matches);
  mret (if (tm_num_blocks best =? 0)%nat then None else Some best).
Definition tier_stats : MH (list (CacheTier * RadixStats)) :=
  mapM_M (λ t, st ← on_tier t radix_stats; mret (t, st)) all_tiers.
Definition tier_validate : MH () := forM all_tiers (λ t, on_tier t validate).

(** ** The planner's choice *)
#[export] Instance plan_lt_weak : StrictWeak plan_lt.
Proof.
  assert (Ht : ∀ x y, plan_lt x y = true ↔ x.1 < y.1 ∨ x.1 == y.1 ∧
    ((x.2.1 < y.2.1)%Z ∨ x.2.1 = y.2.1 ∧ (x.2.2 < y.2.2)%Z)).
  { intros x y. unfold plan_lt.
    rewrite orb_true_iff, andb_true_iff, orb_true_iff, andb_true_iff, Qlt_bool_true, Qeq_bool_true.
    by rewrite !Z.ltb_lt, Z.eqb_eq. }
  assert (Hf : ∀ x y, plan_lt x y = false ↔ y.1 < x.1 ∨ x.1 == y.1 ∧
    ((y.2.1 < x.2.1)%Z ∨ x.2.1 = y.2.1 ∧ (y.2.2 <= x.2.2)%Z)).
  { intros x y. rewrite <-not_true_iff_false, Ht. destruct (Q_dec x.1 y.1) as [[?|?]|E]; [..|].
    - split; [tauto|]. intros [H|[H _]] _; lra.
    - split; [auto|]. intros _ [H|[H _]]; lra.
    - split.
      { intros H. right. split; [done|].
        assert (¬ ((x.2.1 < y.2.1)%Z ∨ x.2.1 = y.2.1 ∧ (x.2.2 < y.2.2)%Z)) by tauto. lia. }
      intros [H|[_ H]] [H'|[_ H']]; [lra..|lia]. }
  split.
  - intros x. apply Hf. right. split; [reflexivity|lia].
  - intros x y z. rewrite !Ht. intros [?|[??]] [?|[??]]; [left; lra..|]. right. split; [lra|lia].
  - intros x y z. rewrite !Hf. intros [?|[??]] [?|[??]]; [left; lra..|]. right. split; [lra|lia].
Qed.

(** What a plan promises about itself. *)
Definition plan_ok (total local : Z) (rate : Q) (p : KVAccessPlan) : Prop :=
  (ap_local_cached_tokens p = local ∧
   0 <= ap_restored_tokens p ∧ 0 <= ap_recomputed_tokens p ∧
   ap_local_cached_tokens p + ap_restored_tokens p + ap_recomputed_tokens p = total ∧
   ap_source_cached_tokens p = ap_local_cached_tokens p + ap_restored_tokens p)%Z ∧
  ap_recompute_ms p = inject_Z (ap_recomputed_tokens p) * rate ∧
  ap_total_ms p == ap_transfer_ms p + ap_recompute_ms p ∧
  (ap_action p = ActRestore ↔ (0 < ap_restored_tokens p)%Z) ∧
  (ap_action p = ActRestore ↔ ap_source_tier p ≠ GPU).

(** The plan that restores [n] tokens of [tier]. *)
Definition restores_from (pl : KVTransferPlanner) (total local : Z) (rate : Q) (tier : CacheTier) (n : Z)
    (q : KVAccessPlan) : Prop :=
  ∃ profile, tier_profiles pl tier = Some profile ∧ tier ≠ GPU ∧ (local < n <= total)%Z ∧
    q = {| ap_action := ActRestore; ap_source_tier := tier; ap_local_cached_tokens := local;
           ap_source_cached_tokens := n; ap_restored_tokens := n - local;
           ap_recomputed_tokens := total - n;
           ap_transfer_bytes := bytes_per_token (geometry pl) * (n - local);
           ap_transfer_ms := transfer_ms profile (bytes_per_token (geometry pl) * (n - local));
           ap_recompute_ms := inject_Z (total - n) * rate;
           ap_total_ms := transfer_ms profile (bytes_per_token (geometry pl) * (n - local))
                          + inject_Z (total - n) * rate |}.

Lemma tier_candidate_inr pl total local rate tier n l :
  tier_candidate pl total local rate (tier, n) = inr l →
  (0 <= n)%Z ∧ ∀ q, q ∈ l ↔ restores_from pl total local rate tier n q.
Proof.
  intros H. cbn in H. apply result_bind_inr in H as ([] & Hn & H). apply throw_if_ok, Z.ltb_ge in Hn.
  split; [done|]. intros q. unfold restores_from.
  destruct (bool_decide (tier = GPU) || (n <=? local)%Z) eqn:E.
  { injection H as <-. split; [by intros ?%not_elem_of_nil|]. intros (? & _ & Ht & ? & _). breflect. destruct E; breflect; [done|lia]. }
  breflect. apply result_bind_inr in H as ([] & Hle & H). apply throw_if_ok, Z.ltb_ge in Hle.
  destruct (tier_profiles pl tier) as [profile|]; [|injection H as <-; split; [by intros ?%not_elem_of_nil|by intros (? & ? & _)]].
  apply result_bind_inr in H as (bytes & Hb & H). unfold size_bytes in Hb. result_inv. subst.
  rewrite list_elem_of_singleton. split.
  - intros ->. eexists. split_and!; [done..|]. done.
  - intros (? & [= <-] & _ & _ & ->). done.
Qed.

Lemma tier_candidate_total pl total local rate tier n :
  (0 <= n <= total)%Z → ∃ l, tier_candidate pl total local rate (tier, n) = inr l.
Proof.
  intros Hn. unfold tier_candidate. rewrite (proj2 (Z.ltb_ge n 0)) by lia. cbn.
  destruct (bool_decide (tier = GPU) || (n <=? local)%Z) eqn:E; [by eexists|]. breflect.
  rewrite (proj2 (Z.ltb_ge total n)) by lia. cbn. destruct (tier_profiles pl tier); [|by eexists].
  unfold size_bytes. rewrite (proj2 (Z.ltb_ge _ _)) by lia. by eexists.
Qed.

Lemma plan_candidates pl total local rate tiers lists :
  mapR (tier_candidate pl total local rate) tiers = inr lists →
  ∀ q, q ∈ concat lists ↔ ∃ tier n, (tier, n) ∈ tiers ∧ restores_from pl total local rate tier n q.
Proof.
  intros H%mapR_inr q. rewrite list_elem_of_In, in_concat. split.
  - intros (l & Hl & Hq). apply list_elem_of_In, list_elem_of_lookup_1 in Hl as [i Hl].
    destruct (Forall2_lookup_r _ _ _ _ _ H Hl) as ([tier n] & Hi & Hc).
    apply tier_candidate_inr in Hc as [_ Hc]. exists tier, n.
    split; [by eapply list_elem_of_lookup_2|]. by apply Hc, list_elem_of_In.
  - intros (tier & n & Hi & Hr). apply list_elem_of_lookup_1 in Hi as [i Hi].
    destruct (Forall2_lookup_l _ _ _ _ _ H Hi) as (l & Hl & Hc).
    apply tier_candidate_inr in Hc as [_ Hc]. exists l.
    split; [by eapply list_elem_of_In, list_elem_of_lookup_2|]. by apply list_elem_of_In, Hc.
Qed.

Lemma recompute_plan_ok total local rate : (0 <= local <= total)%Z → plan_ok total local rate (recompute_plan total local rate).
Proof.
  intros H. split_and!; cbn; try lia; [done|lra|..].
  all: destruct (total - local =? 0)%Z; split; try done; try lia.
Qed.
Lemma restores_ok pl total local rate tier n q :
  restores_from pl total local rate tier n q → plan_ok total local rate q.
Proof.
  intros (p & Hp & Ht & Hn & ->). unfold plan_ok. cbn. split_and!; try lia; try done; try lra; split; done || lia.
Qed.

Section planner.
Context (pl : KVTransferPlanner) (total local : Z) (rate : Q) (tiers : list (CacheTier * Z)).
Context (Hlocal : (0 <= local <= total)%Z) (Hrate : 0 < rate).
Context (Htiers : Forall (λ tn, (0 <= tn.2 <= total)%Z) tiers).

(** A planner call with lengths inside the request returns, and its plan is
    one of the candidates, cheapest first. *)
Lemma access_plan_cheapest :
  ∃ p, access_plan pl total local tiers rate = inr p ∧
    (p = recompute_plan total local rate ∨
     ∃ tier n, (tier, n) ∈ tiers ∧ restores_from pl total local rate tier n p) ∧
    plan_lt (plan_key (recompute_plan total local rate)) (plan_key p) = false ∧
    ∀ tier n q, (tier, n) ∈ tiers → restores_from pl total local rate tier n q →
      plan_lt (plan_key q) (plan_key p) = false.
Proof.
  unfold access_plan. rewrite (proj2 (Z.ltb_ge total 0)) by lia.
  rewrite (proj2 (Z.leb_le 0 local)), (proj2 (Z.leb_le local total)) by lia.
  rewrite (proj2 (Qle_bool_false _ _)) by done. cbn [throw_if negb andb mbind result_bind].
  assert (Hmap : ∃ lists, mapR (tier_candidate pl total local rate) tiers = inr lists).
  { apply mapR_total. intros [t n] Hin. apply tier_candidate_total.
    rewrite Forall_forall in Htiers. exact (Htiers _ Hin). }
  destruct Hmap as [lists Hlists]. rewrite Hlists. cbn [mbind result_bind].
  pose proof (plan_candidates _ _ _ _ _ _ Hlists) as Hc.
  destruct (py_min_Some plan_lt plan_key (recompute_plan total local rate :: concat lists)) as [p Hp]; [done|].
  rewrite Hp. exists p. pose proof (py_min_in _ _ _ _ Hp) as Hin.
  assert (Hleast : ∀ q, q ∈ recompute_plan total local rate :: concat lists →
    plan_lt (plan_key q) (plan_key p) = false).
  { intros q Hq. exact (py_min_least plan_lt plan_key _ _ _ Hp Hq). }
  split_and!; [done|..].
  - apply elem_of_cons in Hin as [->|Hin]; [by left|]. right. by apply Hc.
  - apply Hleast. by left.
  - intros tier n q Ht Hq. apply Hleast. right. apply Hc. eauto.
Qed.

Lemma plan_lt_false_le (p q : KVAccessPlan) :
  plan_lt (plan_key q) (plan_key p) = false → ap_total_ms p <= ap_total_ms q.
Proof.
  unfold plan_lt. intros H. breflect. cbn in *. done.
Qed.

(** C39: the chosen plan is consistent with the request, never costs more than
    recomputing, nor than restoring from any tier that holds a longer prefix. *)
Theorem access_plan_optimal :
  ∃ p, access_plan pl total local tiers rate = inr p ∧ plan_ok total local rate p ∧
    ap_total_ms p <= inject_Z (total - local) * rate ∧
    ∀ tier n q, (tier, n) ∈ tiers → restores_from pl total local rate tier n q →
      ap_total_ms p <= ap_total_ms q.
Proof.
  destruct access_plan_cheapest as (p & Hp & Hform & Hre & Hall). exists p. split_and!; [done|..].
  - destruct Hform as [->|(t & n & _ & Hr)]; [by apply recompute_plan_ok|by eapply restores_ok].
  - by apply plan_lt_false_le in Hre.
  - intros t n q Ht Hq. by apply plan_lt_false_le, (Hall t n).
Qed.
End planner.

(** The break-even rule: with one remote tier, the pages are restored exactly
    when moving them is strictly cheaper than recomputing the same tokens. *)
Theorem restore_break_even pl total local n rate tier profile :
  (0 <= local < n)%Z → (n <= total)%Z → 0 < rate → tier ≠ GPU → tier_profiles pl tier = Some profile →
  (0 < bytes_per_token (geometry pl))%Z →
  ∃ p, access_plan pl total local [(tier, n)] rate = inr p ∧
    (ap_action p = ActRestore ↔
       transfer_ms profile (bytes_per_token (geometry pl) * (n - local)) < inject_Z (n - local) * rate).
Proof.
  intros Hl Hn Hrate Ht Hprof Hb.
  destruct (access_plan_cheapest pl total local rate [(tier, n)]) as (p & Hp & Hform & Hre & Hall);
    [lia|done|by repeat constructor; cbn; lia|].
  exists p. split; [done|].
  set (q := {| ap_action := ActRestore; ap_source_tier := tier; ap_local_cached_tokens := local;
           ap_source_cached_tokens := n; ap_restored_tokens := n - local;
           ap_recomputed_tokens := total - n;
           ap_transfer_bytes := bytes_per_token (geometry pl) * (n - local);
           ap_transfer_ms := transfer_ms profile (bytes_per_token (geometry pl) * (n - local));
           ap_recompute_ms := inject_Z (total - n) * rate;
           ap_total_ms := transfer_ms profile (bytes_per_token (geometry pl) * (n - local))
                          + inject_Z (total - n) * rate |}).
  assert (Hq : restores_from pl total local rate tier n q) by (eexists; split_and!; [done..|lia|lia|done]).
  assert (Hsum : inject_Z (total - local) * rate == inject_Z (n - local) * rate + inject_Z (total - n) * rate).
  { rewrite <-Qmult_plus_distr_l, <-inject_Z_plus. do 2 f_equiv. lia. }
  assert (Hbytes : (0 < bytes_per_token (geometry pl) * (n - local))%Z) by nia.
  specialize (Hall tier n q ltac:(by left) Hq).
  destruct Hform as [->|(t & k & [= -> ->]%list_elem_of_singleton & Hr)].
  - cbn. destruct (total - local =? 0)%Z eqn:E; [breflect; lia|]. split; [done|]. intros Hlt. exfalso.
    apply plan_lt_false_le in Hall. cbn in Hall. rewrite Hsum in Hall. lra.
  - destruct Hr as (pr & Hpr & _ & _ & ->). rewrite Hprof in Hpr. injection Hpr as <-. split; [intros _|done].
    unfold plan_lt in Hre. cbn in Hre. breflect.
    destruct H0 as [H0|H0]; breflect; [|lia].
    assert (inject_Z (total - local) * rate <= transfer_ms profile (bytes_per_token (geometry pl) * (n - local))
                          + inject_Z (total - n) * rate → False).
    { intros Hle. apply H0. lra. }
    rewrite Hsum in *. destruct (Qlt_le_dec (transfer_ms profile (bytes_per_token (geometry pl) * (n - local)))
      (inject_Z (n - local) * rate)); [done|]. exfalso. apply H1. lra.
Qed.

(** ** The tiers' indexes *)
Definition tier_maps : Type := CacheTier → gmap (list BlockKey) nat.
Definition tiers_represent (m : tier_maps) (h : HierarchicalRadixCache) : Prop :=
  ∀ t, represents (m t) (index t h).

Lemma index_set t t' c h : index t (set_index t' c h) = if decide (t = t') then c else index t h.
Proof. by destruct t, t'. Qed.
Lemma on_tier_spec {A} t (m : MR A) (h : HierarchicalRadixCache) a c :
  m (index t h) = (inr a, c) → on_tier t m h = (inr a, set_index t c h).
Proof. unfold on_tier. by intros ->. Qed.
Lemma tiers_represent_set (m : tier_maps) (h : HierarchicalRadixCache) (t : CacheTier) (c : RadixPrefixCache) (mt : gmap (list BlockKey) nat) :
  tiers_represent m h → represents mt c →
  tiers_represent (λ t', if decide (t' = t) then mt else m t') (set_index t c h).
Proof. intros Hm Hc t'. rewrite index_set. destruct (decide (t' = t)); [done|apply Hm]. Qed.

Lemma on_tier_match m h t keys :
  tiers_represent m h →
  ∃ c, on_tier t (match_prefix keys) h = (inr (longest_match (m t) keys), set_index t c h) ∧
    tiers_represent m (set_index t c h).
Proof.
  intros Hm. destruct (match_prefix_spec (m t) (index t h) keys (Hm t)) as (c & Hrun & Hc & _).
  exists c. split; [by apply on_tier_spec|]. intros t'. rewrite index_set. destruct (decide (t' = t)) as [->|]; [done|apply Hm].
Qed.

Lemma tier_match_spec m h keys :
  tiers_represent m h →
  ∃ h', tier_match keys h =
      (inr ((λ t, mkTierMatch t (longest_match (m t) keys)) <$> all_tiers), h') ∧
    tiers_represent m h'.
Proof.
  intros Hm. unfold tier_match, all_tiers. unfold mapM_M, mbind, M_bind, mret, M_ret.
  destruct (on_tier_match m h GPU keys Hm) as (c1 & -> & H1).
  destruct (on_tier_match m _ CPU keys H1) as (c2 & -> & H2).
  destruct (on_tier_match m _ MOONCAKE keys H2) as (c3 & -> & H3). by eexists.
Qed.

#[export] Instance zpair_lt_weak : StrictWeak zpair_lt.
Proof.
  assert (Ht : ∀ x y, zpair_lt x y = true ↔ (x.1 < y.1 ∨ x.1 = y.1 ∧ x.2 < y.2)%Z).
  { intros x y. unfold zpair_lt. by rewrite orb_true_iff, andb_true_iff, !Z.ltb_lt, Z.eqb_eq. }
  split; intros *; rewrite <-?not_true_iff_false, !Ht; lia.
Qed.

(** The best replica: the longest cached prefix over the tiers, the nearest tier
    on a tie, and none exactly when no tier holds the first block. *)
Theorem tier_longest_match_best m h keys :
  tiers_represent m h →
  ∃ r h', tier_longest_match keys h = (inr r, h') ∧ tiers_represent m h' ∧
    match r with
    | None => ∀ t, longest_match (m t) keys = []
    | Some b =>
        tm_handles b = longest_match (m (tm_tier b)) keys ∧ tm_handles b ≠ [] ∧
        ∀ t, (length (longest_match (m t) keys) < tm_num_blocks b)%nat ∨
             length (longest_match (m t) keys) = tm_num_blocks b ∧
             (tier_order (tm_tier b) <= tier_order t)%Z
    end.
Proof.
  intros Hm. destruct (tier_match_spec m h keys Hm) as (h' & Hrun & Hm').
  unfold tier_longest_match, mbind, M_bind. rewrite Hrun.
  set (ms := (λ t, mkTierMatch t (longest_match (m t) keys)) <$> all_tiers).
  destruct (py_max_Some zpair_lt match_key ms) as [b Hb]; [done|]. rewrite Hb. cbn [of_option mret M_ret].
  pose proof (py_max_in _ _ _ _ Hb) as Hin.
  assert (Hbest : ∀ t, zpair_lt (match_key b) (match_key (mkTierMatch t (longest_match (m t) keys))) = false).
  { intros t. apply (py_max_greatest zpair_lt match_key ms b); [done|]. apply list_elem_of_fmap. exists t.
    split; [done|]. destruct t; set_solver. }
  apply list_elem_of_fmap in Hin as (tb & Eb & _).
  eexists _, h'. split; [done|]. split; [done|].
  assert (Hcmp : ∀ t, (length (longest_match (m t) keys) < tm_num_blocks b)%nat ∨
     length (longest_match (m t) keys) = tm_num_blocks b ∧ (tier_order (tm_tier b) <= tier_order t)%Z).
  { intros t. specialize (Hbest t). unfold zpair_lt, match_key in Hbest.
    cbn [fst snd tm_num_blocks tm_handles tm_tier] in Hbest. unfold tm_num_blocks in *. cbn [tm_handles] in *.
    apply orb_false_iff in Hbest as [H1 H2]. apply Z.ltb_ge in H1. apply andb_false_iff in H2 as [H2|H2].
    - apply Z.eqb_neq in H2. lia.
    - apply Z.ltb_ge in H2. lia. }
  destruct (tm_num_blocks b =? 0)%nat eqn:E; breflect.
  - intros t. destruct (Hcmp t) as [?|[Hl _]]; [lia|]. apply length_zero_iff_nil. lia.
  - split_and!; [by rewrite Eb| |done]. intros Hnil. apply E. unfold tm_num_blocks. by rewrite Hnil.
Qed.
