(* ===== verification/StorageBackend.v ===== *)
(** * Storage backends and object keys

    Models [nanovllm/engine/storage_backend.py]: the protocol of a byte-object
    store as a class with its laws, the in-memory store, the adapter around a
    Mooncake store (a third-party client, a parameter), cache identities and the
    keys derived from them. Bytes are integers below 256. *)
From S2P Require Import Prelude Json Blake2b.
Set Default Goal Selector "!".

Abbreviation bytes := (list Z).

(** ** The protocol *)
(** [KVStorageBackend]; [B] is the state of the store. *)
Class KVStorageBackend (B : Type) := {
  st_put : string → bytes → M B ();
  st_upsert : string → bytes → M B ();
  st_get : string → M B (option bytes);
  st_exists : string → M B bool;
  st_remove : string → M B ();
  st_put_many : list (string * bytes) → M B ();
  st_get_many : list string → M B (list (string * option bytes));
  st_exists_many : list string → M B (list (string * bool));
  st_remove_many : list string → M B ();
  st_close : M B ()
}.

(** A write of [k] that reports success: it has stored [v], unless the store may
    keep the object a key already has ([overwrites] is false). *)
Definition written (overwrites : bool) (k : string) (v : bytes) (m m' : gmap string bytes) : Prop :=
  m' = <[k := v]> m ∨ overwrites = false ∧ is_Some (m !! k) ∧ m' = m.

(** What the clients of a store rely on: [view] is what it holds. [upsert] always
    stores its object; [put] replaces an existing one where [put_overwrites] holds,
    and may silently keep it in an insert-only store. A failed write may leave its
    own key in any state, but no other. *)
Class LawfulBackend (B : Type) `{KVStorageBackend B} := {
  view : B → gmap string bytes;
  put_overwrites : bool;
  put_law k v b : wp (st_put k v) (λ _ b', written put_overwrites k v (view b) (view b'))
                    (λ _ b', delete k (view b') = delete k (view b)) b;
  upsert_law k v b : wp (st_upsert k v) (λ _ b', view b' = <[k := v]> (view b))
                       (λ _ b', delete k (view b') = delete k (view b)) b;
  get_law k b : wp (st_get k) (λ r b', r = view b !! k ∧ view b' = view b)
                  (λ _ b', view b' = view b) b;
  exists_law k b : wp (st_exists k) (λ r b', r = bool_decide (is_Some (view b !! k)) ∧ view b' = view b)
                     (λ _ b', view b' = view b) b;
  remove_law k b : wp (st_remove k) (λ _ b', view b' = delete k (view b))
                     (λ _ b', delete k (view b') = delete k (view b)) b
}.

(** [{key: f(key) for key in keys}] *)
Definition dict_of {B A} (f : string → M B A) (keys : list string) : M B (list (string * A)) :=
  vs ← mapM_M f keys;
  mret (foldl (λ d kv, dict_set kv.1 kv.2 d) [] (zip keys vs)).

(** ** [InMemoryKVStore] *)
Record InMemoryKVStore := mkInMemory { objects : gmap string bytes }.
Abbreviation MI := (M InMemoryKVStore).

Definition mem_put (k : string) (v : bytes) : MI () := modifyS (λ b, mkInMemory (<[k := v]> (objects b))).
Definition mem_upsert (k : string) (v : bytes) : MI () := modifyS (λ b, mkInMemory (<[k := v]> (objects b))).
Definition mem_get (k : string) : MI (option bytes) := getsS (λ b, objects b !! k).
Definition mem_exists (k : string) : MI bool := getsS (λ b, bool_decide (is_Some (objects b !! k))).
Definition mem_remove (k : string) : MI () := modifyS (λ b, mkInMemory (delete k (objects b))).
Definition mem_put_many (l : list (string * bytes)) : MI () := forM l (λ kv, mem_put kv.1 kv.2).
Definition mem_get_many (keys : list string) : MI (list (string * option bytes)) := dict_of mem_get keys.
Definition mem_exists_many (keys : list string) : MI (list (string * bool)) := dict_of mem_exists keys.
Definition mem_remove_many (keys : list string) : MI () := forM keys mem_remove.
Definition mem_close : MI () := mret tt.

#[export] Instance InMemory_ops : KVStorageBackend InMemoryKVStore := {
  st_put := mem_put; st_upsert := mem_upsert; st_get := mem_get; st_exists := mem_exists;
  st_remove := mem_remove; st_put_many := mem_put_many; st_get_many := mem_get_many;
  st_exists_many := mem_exists_many; st_remove_many := mem_remove_many; st_close := mem_close
}.

(** ** The Mooncake adapter *)
Record MooncakeStoreConfig := mkMooncakeConfig {
  local_hostname : string;
  metadata_server : string;
  global_segment_size : Z;
  local_buffer_size : Z;
  protocol : string;
  rdma_devices : string;
  master_server_addr : string
}.
Definition default_mooncake_config : MooncakeStoreConfig :=
  mkMooncakeConfig "localhost" "P2PHANDSHAKE" (512 * 1024 * 1024) (128 * 1024 * 1024) "tcp" "" "127.0.0.1:50051".
Definition nonempty (s : string) : bool := negb (String.eqb s "").
Definition mooncake_store_config (c : MooncakeStoreConfig) : result MooncakeStoreConfig :=
  throw_if (negb (nonempty (local_hostname c))) (ValueError "local_hostname must not be empty");;
  throw_if (negb (nonempty (metadata_server c))) (ValueError "metadata_server must not be empty");;
  throw_if ((global_segment_size c <? 0)%Z || (local_buffer_size c <? 0)%Z)
    (ValueError "Mooncake buffer sizes must be non-negative");;
  throw_if (negb (bool_decide (protocol c ∈ ["tcp"; "rdma"; "efa"])))
    (ValueError ("unsupported Mooncake protocol: " +:+ protocol c));;
  throw_if (negb (nonempty (master_server_addr c))) (ValueError "master_server_addr must not be empty");;
  mret c.

(** The calls on [MooncakeDistributedStore]; a status is [None] or a number. *)
Class MooncakeDistributedStore (S : Type) := {
  mc_setup : MooncakeStoreConfig → M S (option Z);
  mc_put : string → bytes → M S (option Z);
  mc_upsert_batch : list string → list bytes → M S (option Z);
  mc_get : string → M S (option bytes);
  mc_is_exist : string → M S Z;
  mc_remove : string → M S (option Z);
  mc_get_batch : list string → M S (list (option bytes));
  mc_batch_is_exist : list string → M S (list Z);
  mc_batch_remove : list string → M S (list Z);
  mc_close : M S ()
}.

Record MooncakeKVStore (S : Type) := mkMooncake { store : S; closed : bool }.
Arguments mkMooncake {S}.
Arguments store {S}.
Arguments closed {S}.

Section mooncake.
Context {S : Type} `{MooncakeDistributedStore S}.
Abbreviation MK := (M (MooncakeKVStore S)).

(** A call on [self.store] *)
Definition on_store {A} (m : M S A) : MK A := λ k,
  match m (store k) with (r, s') => (r, mkMooncake s' (closed k)) end.

(** [MooncakeKVStore.__init__] with a store: the status of [setup] is not looked at. *)
Definition mooncake_init (c : MooncakeStoreConfig) : M S (MooncakeKVStore S) :=
  _ ← mc_setup c; s ← getS; mret (mkMooncake s false).

Definition check_status (status : option Z) (operation : string) : MK () :=
  raise_if (match status with None => false | Some z => negb (z =? 0)%Z end)
    (RuntimeError ("Mooncake " +:+ operation +:+ " failed with status "
                   +:+ match status with None => "None" | Some z => string_of (py_str_int z) end)).

Definition mk_put (k : string) (v : bytes) : MK () :=
  status ← on_store (mc_put k v); check_status status "put".
Definition mk_upsert (k : string) (v : bytes) : MK () :=
  status ← on_store (mc_upsert_batch [k] [v]); check_status status "upsert".
Definition mk_get (k : string) : MK (option bytes) := on_store (mc_get k).
Definition mk_exists (k : string) : MK bool :=
  result ← on_store (mc_is_exist k);
  raise_if (result <? 0)%Z (RuntimeError ("Mooncake is_exist failed with status " +:+ string_of (py_str_int result)));;
  mret (result =? 1)%Z.
Definition mk_remove (k : string) : MK () :=
  status ← on_store (mc_remove k); check_status status "remove".
Definition mk_put_many (l : list (string * bytes)) : MK () :=
  status ← on_store (mc_upsert_batch l.*1 l.*2); check_status status "upsert_batch".
Definition mk_get_many (keys : list string) : MK (list (string * option bytes)) :=
  payloads ← on_store (mc_get_batch keys);
  raise_if (negb (length payloads =? length keys))
    (RuntimeError "Mooncake get_batch returned an unexpected result count");;
  mret (foldl (λ d kv, dict_set kv.1 kv.2 d) [] (zip keys payloads)).
Definition mk_exists_many (keys : list string) : MK (list (string * bool)) :=
  statuses ← on_store (mc_batch_is_exist keys);
  raise_if (negb (length statuses =? length keys) || existsb (λ st, st <? 0)%Z statuses)
    (RuntimeError "Mooncake batch_is_exist failed");;
  mret (foldl (λ d kv, dict_set kv.1 (kv.2 =? 1)%Z d) [] (zip keys statuses)).
Definition mk_remove_many (keys : list string) : MK () :=
  statuses ← on_store (mc_batch_remove keys);
  raise_if (negb (length statuses =? length keys) || existsb (λ st, negb (st =? 0)%Z) statuses)
    (RuntimeError "Mooncake batch_remove failed").
Definition mk_close : MK () :=
  k ← getS;
  if closed k then mret tt
  else on_store mc_close;; modifyS (λ k, mkMooncake (store k) true).

#[export] Instance Mooncake_ops : KVStorageBackend (MooncakeKVStore S) := {
  st_put := mk_put; st_upsert := mk_upsert; st_get := mk_get; st_exists := mk_exists;
  st_remove := mk_remove; st_put_many := mk_put_many; st_get_many := mk_get_many;
  st_exists_many := mk_exists_many; st_remove_many := mk_remove_many; st_close := mk_close
}.
End mooncake.

(** ** Identities and keys *)
Record KVCacheIdentity := mkIdentity {
  model_id : string;
  model_revision : string;
  kv_dtype : string;
  tp_size : Z;
  page_size : Z;
  layout_version : string
}.
Definition kv_cache_identity (i : KVCacheIdentity) : result KVCacheIdentity :=
  throw_if (negb (nonempty (model_id i) && nonempty (model_revision i) && nonempty (kv_dtype i)
                  && nonempty (layout_version i)))
    (ValueError "KV cache identity strings must not be empty");;
  throw_if ((tp_size i <=? 0)%Z || (page_size i <=? 0)%Z) (ValueError "tp_size and page_size must be positive");;
  mret i.
(** [str(z)] *)
Definition str_int (z : Z) : string := string_of (py_str_int z).
Definition bar_join (l : list string) : string := String.concat "|" l.
Definition identity_fields (i : KVCacheIdentity) : string :=
  bar_join [layout_version i; model_id i; model_revision i; kv_dtype i; str_int (tp_size i); str_int (page_size i)].
Definition identity_digest (i : KVCacheIdentity) : string :=
  string_of (hexdigest 12 (bytes_of (identity_fields i))).

(** [prefix_digest.update(token_id.to_bytes(4, "little"))], token by token *)
Definition token_bytes (tokens : list Z) : bytes := concat (le_bytes 4 <$> tokens).

Definition make_kv_page_key (i : KVCacheIdentity) (tp_rank page_index : Z) (prefix_token_ids : list Z)
    (namespace : string) : result string :=
  throw_if (negb (nonempty namespace)) (ValueError "namespace must not be empty");;
  throw_if (negb ((0 <=? tp_rank)%Z && (tp_rank <? tp_size i)%Z) || (page_index <? 0)%Z)
    (ValueError "tp_rank or page_index is outside the cache identity");;
  throw_if (existsb (λ t, (t <? 0)%Z || (2 ^ 32 <=? t)%Z) prefix_token_ids)
    (ValueError "token ids must fit in uint32");;
  throw_if (bool_decide (prefix_token_ids = [])) (ValueError "prefix_token_ids must not be empty");;
  mret (namespace +:+ "/" +:+ identity_digest i +:+ "/tp-" +:+ str_int tp_rank +:+ "/page-" +:+ str_int page_index
        +:+ "/" +:+ string_of (hexdigest 16 (token_bytes prefix_token_ids))).

Definition make_kv_catalog_key (i : KVCacheIdentity) (tp_rank : Z) (namespace : string) : result string :=
  throw_if (negb (nonempty namespace)) (ValueError "namespace must not be empty");;
  throw_if (negb ((0 <=? tp_rank)%Z && (tp_rank <? tp_size i)%Z)) (ValueError "tp_rank is outside the cache identity");;
  mret (namespace +:+ "/" +:+ identity_digest i +:+ "/tp-" +:+ str_int tp_rank +:+ "/catalog-v1").

(** ** The in-memory store is lawful *)
#[export] Instance InMemory_lawful : LawfulBackend InMemoryKVStore.
Proof.
  refine {| view := objects; put_overwrites := true |}; intros; cbn;
    unfold mem_put, mem_upsert, mem_get, mem_exists, mem_remove; wp_steps; try done; [by left|by split..].
Defined.

Lemma dict_get_set {A} k k' (v : A) l :
  dict_get k (dict_set k' v l) = if decide (k = k') then Some v else dict_get k l.
Proof.
  unfold dict_get. induction l as [|[k0 v0] l IH]; cbn.
  - destruct (decide (k' = k)) as [->|Hne]; [by rewrite decide_True|]. rewrite decide_False by congruence. done.
  - destruct (String.eqb k' k0) eqn:E.
    + apply String.eqb_eq in E as <-. cbn. destruct (decide (k' = k)) as [->|Hne]; [by rewrite decide_True|].
      rewrite (decide_False (P := k = k')) by congruence. done.
    + apply String.eqb_neq in E. cbn. destruct (decide (k0 = k)) as [->|Hne].
      * by rewrite decide_False by congruence.
      * destruct (list_find _ (dict_set k' v l)) as [[i x]|] eqn:E1, (list_find _ l) as [[j y]|] eqn:E2; cbn in *; done.
Qed.

(** A dictionary comprehension over reads: every key asked for, with its value. *)
Lemma dict_of_reads {B A} (f : string → M B A) (g : string → A) keys b :
  (∀ k, k ∈ keys → f k b = (inr (g k), b)) →
  ∃ d, dict_of f keys b = (inr d, b) ∧ ∀ k, dict_get k d = if decide (k ∈ keys) then Some (g k) else None.
Proof.
  intros Hf. destruct (mapM_M_reads (λ k v, v = g k) f keys b) as (vs & Hrun & Hvs).
  { intros k Hk. exists (g k). split; [by apply Hf|done]. }
  exists (foldl (λ d kv, dict_set kv.1 kv.2 d) [] (zip keys vs)).
  split; [unfold dict_of, mbind, M_bind; by rewrite Hrun|].
  enough (∀ d k, dict_get k (foldl (λ d kv, dict_set kv.1 kv.2 d) d (zip keys vs)) =
    if decide (k ∈ keys) then Some (g k) else dict_get k d) as H by (intros k; apply (H [] k)).
  clear Hf Hrun. induction Hvs as [|k' v keys vs -> _ IH]; intros d k; cbn [zip_with foldl fst snd].
  { by rewrite decide_False by apply not_elem_of_nil. }
  rewrite IH, dict_get_set. destruct (decide (k ∈ keys)) as [Hk|Hk].
  - rewrite decide_True by by right. done.
  - destruct (decide (k = k')) as [->|Hne].
    + rewrite decide_True by by left. done.
    + rewrite decide_False; [done|]. intros [?|?]%elem_of_cons; done.
Qed.

Lemma mem_put_many_objects l b :
  mem_put_many l b = (inr tt, mkInMemory (foldl (λ m kv, <[kv.1 := kv.2]> m) (objects b) l)).
Proof.
  unfold mem_put_many. revert b. induction l as [|[k v] l IH]; intros [m]; [done|].
  cbn [forM foldl]. unfold mbind, M_bind, mem_put, modifyS. cbn [fst snd objects]. by rewrite IH.
Qed.
Lemma foldl_insert_lookup (l : list (string * bytes)) (m : gmap string bytes) k :
  foldl (λ m kv, <[kv.1 := kv.2]> m) m l !! k =
  match last (filter (λ kv, kv.1 = k) l) with Some kv => Some kv.2 | None => m !! k end.
Proof.
  revert m. induction l as [|[k' v] l IH]; intros m; [done|]. cbn [foldl fst snd]. rewrite IH.
  destruct (decide (k' = k)) as [->|Hne].
  - rewrite filter_cons_True by done. rewrite lookup_insert_eq, last_cons. by destruct (last _).
  - rewrite filter_cons_False by done. by rewrite lookup_insert_ne.
Qed.

(** Batched writes then batched reads: each key asked for comes back once, with
    the last value written for it, or the value it had. *)
Theorem put_many_get_many l keys b :
  ∃ b' d, mem_put_many l b = (inr tt, b') ∧ mem_get_many keys b' = (inr d, b') ∧
    ∀ k, dict_get k d =
      if decide (k ∈ keys)
      then Some (match last (filter (λ kv, kv.1 = k) l) with Some kv => Some kv.2 | None => objects b !! k end)
      else None.
Proof.
  eexists. destruct (dict_of_reads mem_get (λ k, foldl (λ m kv, <[kv.1 := kv.2]> m) (objects b) l !! k) keys
    (mkInMemory (foldl (λ m kv, <[kv.1 := kv.2]> m) (objects b) l))) as (d & Hrun & Hd); [done|].
  exists d. split; [apply mem_put_many_objects|]. split; [exact Hrun|].
  intros k. rewrite Hd. by rewrite foldl_insert_lookup.
Qed.

(** ** The Mooncake adapter is lawful when a zero status means done *)
(** Mooncake's plain put is insert-only: it may report success and keep the object
    that is there, which is why the source has [upsert] beside it. *)
Definition status_ok (status : option Z) : bool := match status with None => true | Some z => (z =? 0)%Z end.
Definition checked {S A} (m : M S A) (s : S) (ok : A → bool) (Q : A → S → Prop) (E : S → Prop) : Prop :=
  wp m (λ a s', if ok a then Q a s' else E s') (λ _ s', E s') s.

Class LawfulMooncake (S : Type) `{MooncakeDistributedStore S} := {
  mc_view : S → gmap string bytes;
  mc_put_law k v s : checked (mc_put k v) s status_ok (λ _ s', written false k v (mc_view s) (mc_view s'))
                       (λ s', delete k (mc_view s') = delete k (mc_view s));
  mc_upsert_law k v s : checked (mc_upsert_batch [k] [v]) s status_ok
                          (λ _ s', mc_view s' = <[k := v]> (mc_view s))
                          (λ s', delete k (mc_view s') = delete k (mc_view s));
  mc_get_law k s : checked (mc_get k) s (λ _, true) (λ r s', r = mc_view s !! k ∧ mc_view s' = mc_view s)
                     (λ s', mc_view s' = mc_view s);
  mc_exist_law k s : checked (mc_is_exist k) s (λ z, negb (z <? 0)%Z)
                       (λ z s', (z = 1%Z ↔ is_Some (mc_view s !! k)) ∧ mc_view s' = mc_view s)
                       (λ s', mc_view s' = mc_view s);
  mc_remove_law k s : checked (mc_remove k) s status_ok (λ _ s', mc_view s' = delete k (mc_view s))
                        (λ s', delete k (mc_view s') = delete k (mc_view s))
}.

Lemma wp_on_store {S A} `{MooncakeDistributedStore S} (m : M S A) (Q : A → MooncakeKVStore S → Prop) E k :
  wp m (λ a s', Q a (mkMooncake s' (closed k))) (λ e s', E e (mkMooncake s' (closed k))) (store k) →
  wp (on_store m) Q E k.
Proof. unfold wp, on_store. by destruct (m (store k)) as [[e|a] s']. Qed.

Lemma wp_status {S} `{MooncakeDistributedStore S} (m : M S (option Z)) op k
    (Q : () → MooncakeKVStore S → Prop) (E : exn → MooncakeKVStore S → Prop) :
  checked m (store k) status_ok (λ _ s', Q tt (mkMooncake s' (closed k))) (λ s', ∀ e, E e (mkMooncake s' (closed k))) →
  wp (status ← on_store m; check_status status op) Q E k.
Proof.
  intros Hm. apply wp_bind, wp_on_store. eapply wp_mono; [exact Hm|cbn|auto].
  intros status s' Hs. unfold check_status. apply wp_raise_if; intros Hz; destruct status as [z|]; cbn in *; try done.
  - apply negb_false_iff in Hz. by rewrite Hz in Hs.
  - apply negb_true_iff in Hz. rewrite Hz in Hs. apply Hs.
Qed.

#[export] Instance Mooncake_lawful {S} `{LawfulMooncake S} : LawfulBackend (MooncakeKVStore S).
Proof.
  refine {| view k := mc_view (store k); put_overwrites := false |}; intros.
  - apply wp_status. eapply wp_mono; [apply mc_put_law|..]; cbn; auto. intros [z|] s'; cbn; auto. destruct (z =? 0)%Z; auto.
  - apply wp_status. eapply wp_mono; [apply mc_upsert_law|..]; cbn; auto. intros [z|] s'; cbn; auto. destruct (z =? 0)%Z; auto.
  - apply wp_on_store. eapply wp_mono; [apply mc_get_law|..]; cbn; auto.
  - apply wp_bind, wp_on_store. eapply wp_mono; [apply mc_exist_law|..]; cbn; auto. intros z s' Hz.
    apply wp_bind. apply wp_raise_if; intros Hneg; rewrite Hneg in Hz; cbn in Hz; [|done].
    apply wp_ret. destruct Hz as [Hz Hv]. split; [|done]. apply eq_bool_prop_intro.
    rewrite bool_decide_spec, <-Hz. destruct (z =? 1)%Z eqn:E; breflect; cbn; tauto.
  - apply wp_status. eapply wp_mono; [apply mc_remove_law|..]; cbn; auto. intros [z|] s'; cbn; auto. destruct (z =? 0)%Z; auto.
Defined.

(** ** Keys name one page of one prefix *)
Lemma bytes_of_app s1 s2 : bytes_of (s1 +:+ s2) = bytes_of s1 ++ bytes_of s2.
Proof.
  unfold bytes_of. rewrite <-fmap_app. f_equal. induction s1 as [|a s1 IH]; [done|].
  change (a :: String.list_ascii_of_string (s1 +:+ s2) = a :: (String.list_ascii_of_string s1 ++ String.list_ascii_of_string s2)).
  by rewrite IH.
Qed.
Lemma bytes_of_string_of t : Forall byte_ok t → bytes_of (string_of t) = t.
Proof.
  unfold bytes_of, string_of. rewrite String.list_ascii_of_string_of_list_ascii.
  induction 1 as [|c t Hc _ IH]; [done|]. csimpl. rewrite Ascii.nat_ascii_embedding by (unfold byte_ok in Hc; lia).
  rewrite Z2Nat.id by (unfold byte_ok in Hc; lia). f_equal. exact IH.
Qed.
Lemma ascii_byte_ok t : ascii_text t → Forall byte_ok t.
Proof. intros Ht. eapply Forall_impl; [exact Ht|]. unfold byte_ok. cbn. lia. Qed.
Lemma bytes_of_str_int z : bytes_of (str_int z) = py_str_int z.
Proof. apply bytes_of_string_of, ascii_byte_ok, ascii_int. Qed.
Lemma hexdigest_bytes n data : bytes_of (string_of (hexdigest n data)) = hexlify (blake2b n data).
Proof.
  apply bytes_of_string_of. eapply Forall_impl; [apply hexlify_ascii, blake2b_bytes|].
  unfold byte_ok. cbn. lia.
Qed.

(** The character that ends a path component. *)
Definition slash : Z := 47.
Lemma split_component t1 t2 u1 u2 :
  slash ∉ t1 → slash ∉ t2 → t1 ++ slash :: u1 = t2 ++ slash :: u2 → t1 = t2 ∧ u1 = u2.
Proof.
  revert t2. induction t1 as [|c t1 IH]; intros [|d t2] H1 H2 E; cbn [app] in E.
  - by injection E as ->.
  - exfalso. apply (f_equal head) in E. injection E as <-. apply H2. by left.
  - exfalso. apply (f_equal head) in E. injection E as ->. apply H1. by left.
  - injection E as -> E. apply not_elem_of_cons in H1 as [_ H1]. apply not_elem_of_cons in H2 as [_ H2].
    by destruct (IH t2 H1 H2 E) as [-> ->].
Qed.
Lemma int_no_slash z : slash ∉ py_str_int z.
Proof.
  assert (Hd : ∀ n, (0 <= n)%Z → slash ∉ dec n).
  { intros n Hn. destruct (dec_spec n Hn) as (ds & -> & Hds & _).
    intros (d & Ed & Hin)%list_elem_of_fmap. rewrite Forall_forall in Hds. specialize (Hds d Hin). unfold slash in *. lia. }
  unfold py_str_int. destruct (z <? 0)%Z eqn:E; breflect.
  - intros [Hs|Hs]%elem_of_cons; [done|]. by apply (Hd (- z)%Z ltac:(lia)).
  - by apply Hd.
Qed.
Lemma py_str_int_inj z1 z2 : py_str_int z1 = py_str_int z2 → z1 = z2.
Proof.
  intros E. pose proof (scan_number_int z1 [] I) as H1. pose proof (scan_number_int z2 [] I) as H2.
  rewrite E, H2 in H1. by injection H1.
Qed.
Lemma hex_char_inj d e : (0 <= d < 16)%Z → (0 <= e < 16)%Z → hex_char d = hex_char e → d = e.
Proof. unfold hex_char. intros ??. destruct (d <? 10)%Z eqn:E1, (e <? 10)%Z eqn:E2; breflect; lia. Qed.
Lemma hexlify_inj l1 l2 : Forall byte_ok l1 → Forall byte_ok l2 → hexlify l1 = hexlify l2 → l1 = l2.
Proof.
  intros H1. revert l2. unfold hexlify. induction H1 as [|b l1 Hb _ IH]; intros [|c l2] H2 E; try done.
  apply Forall_cons in H2 as [Hc H2]. unfold byte_ok in *. cbn in E. injection E as E1 E2 E3.
  assert (Hdiv : ∀ x, (0 <= x < 256)%Z → (0 <= x / 16 < 16)%Z ∧ (0 <= x mod 16 < 16)%Z).
  { intros x Hx. split; [split; [apply Z.div_pos; lia|apply Z.div_lt_upper_bound; lia]|apply Z.mod_pos_bound; lia]. }
  apply hex_char_inj in E1; [|by apply Hdiv..]. apply hex_char_inj in E2; [|by apply Hdiv..].
  rewrite (IH l2 H2 E3). f_equal. pose proof (Z.div_mod b 16). pose proof (Z.div_mod c 16). lia.
Qed.
Lemma token_bytes_inj l1 l2 :
  Forall (λ t, 0 <= t < 2 ^ 32)%Z l1 → Forall (λ t, 0 <= t < 2 ^ 32)%Z l2 → token_bytes l1 = token_bytes l2 → l1 = l2.
Proof.
  intros H1. revert l2. unfold token_bytes. induction H1 as [|x l1 Hx _ IH]; intros [|y l2] H2 E; try done.
  apply Forall_cons in H2 as [Hy H2]. rewrite !fmap_cons in E. cbn [concat] in E.
  apply app_inj_1 in E as [E1 E2]; [|by rewrite !le_bytes_length].
  rewrite (IH l2 H2 E2). f_equal. rewrite <-(of_le_bytes_spec 4 x), <-(of_le_bytes_spec 4 y) by done. by rewrite E1.
Qed.

(** The checks of [make_kv_page_key], once it has returned. *)
Lemma page_key_inr i r p toks ns k :
  make_kv_page_key i r p toks ns = inr k →
  Forall (λ t, 0 <= t < 2 ^ 32)%Z toks ∧
  bytes_of k = bytes_of (ns +:+ "/" +:+ identity_digest i +:+ "/tp-") ++ py_str_int r ++ slash ::
    (bytes_of "page-" ++ py_str_int p ++ slash :: hexlify (blake2b 16 (token_bytes toks))).
Proof.
  unfold make_kv_page_key. intros H. apply result_bind_inr in H as (_ & _ & H).
  apply result_bind_inr in H as (_ & _ & H). apply result_bind_inr in H as ([] & Ht & H).
  apply result_bind_inr in H as (_ & _ & H). injection H as <-. apply throw_if_ok in Ht. split.
  - apply Forall_forall. intros t Hin. rewrite <-not_true_iff_false, existsb_exists in Ht.
    destruct (decide (0 <= t < 2 ^ 32)%Z); [done|]. exfalso. apply Ht. exists t. rewrite <-list_elem_of_In.
    split; [done|]. apply orb_true_iff. rewrite Z.ltb_lt, Z.leb_le. lia.
  - rewrite !bytes_of_app, hexdigest_bytes, !bytes_of_str_int. generalize (hexlify (blake2b 16 (token_bytes toks))).
    generalize (bytes_of (identity_digest i)), (py_str_int r), (py_str_int p), (bytes_of ns). intros t1 t2 t3 t4 t5.
    by rewrite <-!app_assoc.
Qed.
Lemma catalog_key_inr i r ns k :
  make_kv_catalog_key i r ns = inr k →
  bytes_of k = bytes_of (ns +:+ "/" +:+ identity_digest i +:+ "/tp-") ++ py_str_int r ++ slash :: bytes_of "catalog-v1".
Proof.
  unfold make_kv_catalog_key. intros H. apply result_bind_inr in H as (_ & _ & H).
  apply result_bind_inr in H as (_ & _ & H). injection H as <-.
  rewrite !bytes_of_app, !bytes_of_str_int. generalize (bytes_of (identity_digest i)), (py_str_int r), (bytes_of ns).
  intros t1 t2 t3. by rewrite <-!app_assoc.
Qed.

(** Two page keys of one identity and namespace are equal only for the same rank
    and page, and for the same prefix unless two prefixes collide under the
    16-byte digest; a page key is never a catalog key. *)
Theorem page_key_separates i ns r1 p1 toks1 r2 p2 toks2 k1 :
  make_kv_page_key i r1 p1 toks1 ns = inr k1 →
  (make_kv_page_key i r2 p2 toks2 ns = inr k1 →
     r1 = r2 ∧ p1 = p2 ∧
     (toks1 = toks2 ∨ token_bytes toks1 ≠ token_bytes toks2 ∧
                      blake2b 16 (token_bytes toks1) = blake2b 16 (token_bytes toks2))) ∧
  make_kv_catalog_key i r2 ns ≠ inr k1.
Proof.
  intros H1%page_key_inr. destruct H1 as [Ht1 E1]. split.
  - intros H2%page_key_inr. destruct H2 as [Ht2 E2]. rewrite E1 in E2. apply app_inv_head in E2.
    apply split_component in E2 as [Er E2]; [|apply int_no_slash..]. apply app_inv_head in E2.
    apply split_component in E2 as [Ep E2]; [|apply int_no_slash..].
    split_and!; [by apply py_str_int_inj|by apply py_str_int_inj|].
    apply hexlify_inj in E2; [|apply blake2b_bytes..].
    destruct (decide (token_bytes toks1 = token_bytes toks2)) as [Et|Et]; [|by right].
    left. by apply token_bytes_inj.
  - intros H2%catalog_key_inr. rewrite E1 in H2. apply app_inv_head in H2.
    apply split_component in H2 as [_ H2]; [|apply int_no_slash..]. done.
Qed.

(** The digest joins the fields of an identity with bars and escapes none, so two
    identities that differ share one digest. *)
Theorem identity_digest_ambiguous :
  let i := mkIdentity "org/model|x" "rev" "float16" 1 256 "nanovllm-kv-v1" in
  let j := mkIdentity "org/model" "x|rev" "float16" 1 256 "nanovllm-kv-v1" in
  kv_cache_identity i = inr i ∧ kv_cache_identity j = inr j ∧ i ≠ j ∧ identity_digest i = identity_digest j.
Proof. split_and!; [done..|]. unfold identity_digest. f_equal. Qed.
