(* ===== verification/KvPage.v ===== *)
(** * KV page envelopes

    Models [nanovllm/engine/kv_page.py]: the layout and metadata of one physical
    page, the envelope that carries it (magic, version and sizes, a JSON header, the
    payload and a BLAKE2b checksum), the copy of a page out of and into the cache
    tensor, and the asynchronous page store. Numbers that come from a header
    keep the type JSON gave them. An exception carries the fixed part of its message. *)
From S2P Require Import Prelude Json Blake2b StorageBackend.
Set Default Goal Selector "!".
Local Open Scope Z_scope.

(** ** Numbers of unknown type *)
Inductive PyNum := NBool (b : bool) | NInt (z : Z) | NFloat (f : PyFloat).
Definition num_of_json (v : Json) : option PyNum :=
  match v with JBool b => Some (NBool b) | JInt z => Some (NInt z) | JFloat f => Some (NFloat f) | _ => None end.
Definition json_of_num (n : PyNum) : Json :=
  match n with NBool b => JBool b | NInt z => JInt z | NFloat f => JFloat f end.
Definition as_float (n : PyNum) : PyFloat :=
  match n with NBool b => Finite (inject_Z (Z.b2z b)) | NInt z => Finite (inject_Z z) | NFloat f => f end.
Definition float_lt (x y : PyFloat) : bool :=
  match x, y with
  | NaN, _ | _, NaN => false
  | Finite p, Finite q => Qlt_bool p q
  | Infinite n, Infinite m => n && negb m
  | Infinite n, Finite _ => n
  | Finite _, Infinite m => negb m
  end.
Definition float_eq (x y : PyFloat) : bool :=
  match x, y with
  | Finite p, Finite q => Qeq_bool p q
  | Infinite n, Infinite m => Bool.eqb n m
  | _, _ => false
  end.
Definition num_lt (x y : PyNum) : bool := float_lt (as_float x) (as_float y).
Definition num_eq (x y : PyNum) : bool := float_eq (as_float x) (as_float y).
Definition num_le (x y : PyNum) : bool := num_lt x y || num_eq x y.
(** [min(x, *l)] *)
Definition num_min (x : PyNum) (l : list PyNum) : PyNum := foldl (λ m y, if num_lt y m then y else m) x l.
Definition float_mul (x y : PyFloat) : PyFloat :=
  let scale neg (q : Q) := if Qeq_bool q 0 then NaN else Infinite (xorb neg (Qlt_bool q 0)) in
  match x, y with
  | NaN, _ | _, NaN => NaN
  | Finite p, Finite q => Finite (p * q)
  | Infinite n, Finite q | Finite q, Infinite n => scale n q
  | Infinite n, Infinite m => Infinite (xorb n m)
  end.
Definition num_int (n : PyNum) : option Z :=
  match n with NBool b => Some (Z.b2z b) | NInt z => Some z | NFloat _ => None end.
Definition num_mul (x y : PyNum) : PyNum :=
  match num_int x, num_int y with
  | Some a, Some b => NInt (a * b)
  | _, _ => NFloat (float_mul (as_float x) (as_float y))
  end.
(** [math.prod(l)] *)
Definition num_prod (l : list PyNum) : PyNum := foldl num_mul (NInt 1) l.

(** ** Layout *)
Definition remove_prefix (p s : string) : string :=
  if String.prefix p s then String.substring (String.length p) (String.length s - String.length p) s else s.
Definition dtype_bytes (dtype : string) : option Z :=
  if String.eqb dtype "float16" then Some 2
  else if String.eqb dtype "bfloat16" then Some 2
  else if String.eqb dtype "float32" then Some 4 else None.
Definition dtype_alias (v : string) : string :=
  if String.eqb v "half" then "float16"
  else if String.eqb v "fp16" then "float16"
  else if String.eqb v "bf16" then "bfloat16"
  else if String.eqb v "float" then "float32"
  else if String.eqb v "fp32" then "float32" else v.
Definition canonical_dtype (dtype : string) : result string :=
  let value := dtype_alias (remove_prefix "numpy." (remove_prefix "torch." dtype)) in
  match dtype_bytes value with
  | Some _ => mret value
  | None => throw (ValueError ("unsupported KV page dtype: " +:+ dtype))
  end.

Record KVPageLayout := mkLayout {
  l_num_layers : PyNum;
  l_block_size : PyNum;
  l_num_kv_heads : PyNum;
  l_head_dim : PyNum;
  l_dtype : string
}.
(** [KVPageLayout.__post_init__] *)
Definition kv_page_layout (l : KVPageLayout) : result KVPageLayout :=
  throw_if (num_le (num_min (l_num_layers l) [l_block_size l; l_num_kv_heads l; l_head_dim l]) (NInt 0))
    (ValueError "KV page layout dimensions must be positive");;
  dtype ← canonical_dtype (l_dtype l);
  mret (mkLayout (l_num_layers l) (l_block_size l) (l_num_kv_heads l) (l_head_dim l) dtype).
Definition layout_shape (l : KVPageLayout) : list PyNum :=
  [NInt 2; l_num_layers l; l_block_size l; l_num_kv_heads l; l_head_dim l].
Definition layout_nbytes (l : KVPageLayout) : PyNum :=
  num_mul (num_prod (layout_shape l)) (NInt (default 0 (dtype_bytes (l_dtype l)))).
Definition layout_to_dict (l : KVPageLayout) : Json :=
  JObj [("num_layers", json_of_num (l_num_layers l)); ("block_size", json_of_num (l_block_size l));
        ("num_kv_heads", json_of_num (l_num_kv_heads l)); ("head_dim", json_of_num (l_head_dim l));
        ("dtype", JStr (l_dtype l))].
(** The comparison [dataclass] generates. *)
Definition layout_eqb (l m : KVPageLayout) : bool :=
  num_eq (l_num_layers l) (l_num_layers m) && num_eq (l_block_size l) (l_block_size m)
  && num_eq (l_num_kv_heads l) (l_num_kv_heads m) && num_eq (l_head_dim l) (l_head_dim m)
  && String.eqb (l_dtype l) (l_dtype m).

(** [set(value) == expected] *)
Definition has_fields (fs : list (string * Json)) (expected : list string) : bool :=
  bool_decide (list_to_set fs.*1 = (list_to_set expected : gset string)).
Definition not_comparable : exn := TypeError "'<' not supported between instances".
Definition field (k : string) (fs : list (string * Json)) : Json := default JNull (dict_get k fs).
Definition need_num (v : Json) : result PyNum :=
  match num_of_json v with Some n => mret n | None => throw not_comparable end.
(** [str(value)] is a dtype only for strings. *)
Definition dtype_field (v : Json) : result string :=
  match v with JStr s => mret s | _ => throw (ValueError "unsupported KV page dtype") end.

(** [cls( **value )]: comparing a non-number raises [TypeError]. *)
Definition layout_of_fields (fs : list (string * Json)) : result KVPageLayout :=
  a ← need_num (field "num_layers" fs);
  b ← need_num (field "block_size" fs);
  c ← need_num (field "num_kv_heads" fs);
  d ← need_num (field "head_dim" fs);
  throw_if (num_le (num_min a [b; c; d]) (NInt 0)) (ValueError "KV page layout dimensions must be positive");;
  dtype ← dtype_field (field "dtype" fs);
  kv_page_layout (mkLayout a b c d dtype).
Definition layout_from_dict (v : Json) : result KVPageLayout :=
  match v with
  | JObj fs =>
      throw_if (negb (has_fields fs ["num_layers"; "block_size"; "num_kv_heads"; "head_dim"; "dtype"]))
        (KVPageFormatError "KV page layout fields are invalid");;
      match layout_of_fields fs with
      | inl e => if is_type_error e || is_value_error e
                 then throw (KVPageFormatError ("invalid KV page layout: " +:+ exn_message e)) else throw e
      | inr l => mret l
      end
  | _ => throw (KVPageFormatError "KV page layout must be an object")
  end.

(** ** Metadata *)
Record KVPageMetadata := mkMetadata {
  m_identity_digest : string;
  m_tp_rank : PyNum;
  m_page_index : PyNum;
  m_layout : KVPageLayout
}.
Definition kv_page_metadata (m : KVPageMetadata) : result KVPageMetadata :=
  throw_if (negb (nonempty (m_identity_digest m)) || negb (is_ascii (bytes_of (m_identity_digest m))))
    (ValueError "identity_digest must be a non-empty ASCII string");;
  throw_if (num_lt (m_tp_rank m) (NInt 0) || num_lt (m_page_index m) (NInt 0))
    (ValueError "tp_rank and page_index must be non-negative");;
  mret m.
Definition metadata_to_dict (m : KVPageMetadata) : Json :=
  JObj [("identity_digest", JStr (m_identity_digest m)); ("tp_rank", json_of_num (m_tp_rank m));
        ("page_index", json_of_num (m_page_index m)); ("layout", layout_to_dict (m_layout m))].

(** [not value], and [value.isascii()] for a value that is not a string *)
Definition falsy (v : Json) : bool :=
  match v with
  | JNull => true
  | JBool b => negb b
  | JInt z => z =? 0
  | JFloat f => float_eq f (Finite 0)
  | JStr s => String.eqb s ""
  | JList l => bool_decide (length l = 0%nat)
  | JObj fs => bool_decide (length fs = 0%nat)
  end.
Definition identity_field (v : Json) : result string :=
  match v with
  | JStr s => mret s
  | _ => if falsy v then throw (ValueError "identity_digest must be a non-empty ASCII string")
         else throw (AttributeError "object has no attribute 'isascii'")
  end.
(** The constructor call of [from_dict]: the layout is built first, and
    [page_index] is only compared when the rank is not negative. *)
Definition metadata_of_fields (fs : list (string * Json)) : result KVPageMetadata :=
  layout ← layout_from_dict (field "layout" fs);
  digest ← identity_field (field "identity_digest" fs);
  throw_if (negb (nonempty digest) || negb (is_ascii (bytes_of digest)))
    (ValueError "identity_digest must be a non-empty ASCII string");;
  rank ← need_num (field "tp_rank" fs);
  throw_if (num_lt rank (NInt 0)) (ValueError "tp_rank and page_index must be non-negative");;
  page ← need_num (field "page_index" fs);
  kv_page_metadata (mkMetadata digest rank page layout).
Definition metadata_from_dict (v : Json) : result KVPageMetadata :=
  match v with
  | JObj fs =>
      throw_if (negb (has_fields fs ["identity_digest"; "tp_rank"; "page_index"; "layout"]))
        (KVPageFormatError "KV page metadata fields are invalid");;
      match metadata_of_fields fs with
      | inl e =>
          if is_type_error e || is_value_error e then
            match e with
            | KVPageFormatError _ => throw e
            | _ => throw (KVPageFormatError ("invalid KV page metadata: " +:+ exn_message e))
            end
          else throw e
      | inr m => mret m
      end
  | _ => throw (KVPageFormatError "KV page metadata must be an object")
  end.

(** ** The envelope *)
Record KVPageRecord := mkPageRecord { r_metadata : KVPageMetadata; r_payload : bytes }.

Definition magic : bytes := bytes_of "NVKVPAGE".
Definition version : Z := 1.
Definition prefix_size : nat := 22.
Definition checksum_size : nat := 16.
Definition max_header_bytes : Z := 64 * 1024.
Definition default_max_payload_bytes : Z := 8 * 1024 ^ 3.
(** [struct.Struct("<8sHIQ")] *)
Definition pack (mg : bytes) (ver header_size payload_size : Z) : bytes :=
  mg ++ le_bytes 2 ver ++ le_bytes 4 header_size ++ le_bytes 8 payload_size.
Definition unpack (p : bytes) : bytes * Z * Z * Z :=
  (take 8 p, of_le_bytes (slice 8 10 p), of_le_bytes (slice 10 14 p), of_le_bytes (slice 14 22 p)).

Section codec.
Context `{FloatRepr}.

(** [KVPageCodec.encode] *)
Definition encode_page (m : KVPageMetadata) (payload : bytes) : result bytes :=
  throw_if (negb (num_eq (NInt (Z.of_nat (length payload))) (layout_nbytes (m_layout m))))
    (KVPageCompatibilityError "KV page payload size");;
  header ← dumps canonical_style (metadata_to_dict m);
  throw_if (max_header_bytes <? Z.of_nat (length header)) (KVPageFormatError "KV page header is too large");;
  let prefix := pack magic version (Z.of_nat (length header)) (Z.of_nat (length payload)) in
  let checksum := blake2b checksum_size (prefix ++ header ++ payload) in
  mret (prefix ++ header ++ payload ++ checksum).
End codec.

(** [_check_compatibility] *)
Definition check_compatibility (m : KVPageMetadata) (digest : option string) (rank page : option Z)
    (layout : option KVPageLayout) : result () :=
  throw_if (match digest with Some d => negb (String.eqb d (m_identity_digest m)) | None => false end)
    (KVPageCompatibilityError "KV page identity mismatch");;
  throw_if (match rank with Some r => negb (num_eq (NInt r) (m_tp_rank m)) | None => false end)
    (KVPageCompatibilityError "KV page TP rank mismatch");;
  throw_if (match page with Some p => negb (num_eq (NInt p) (m_page_index m)) | None => false end)
    (KVPageCompatibilityError "KV page page index mismatch");;
  throw_if (match layout with Some l => negb (layout_eqb l (m_layout m)) | None => false end)
    (KVPageCompatibilityError "KV page layout mismatch").

(** The sizes, up to the checksum; returns the header and the payload. *)
Definition open_envelope (blob : bytes) (max_payload_bytes : Z) : result (text * bytes * Z) :=
  throw_if (length blob <? prefix_size + checksum_size)%nat (KVPageFormatError "KV page envelope is truncated");;
  throw_if (max_payload_bytes <=? 0) (ValueError "max_payload_bytes must be positive");;
  let '(mg, ver, header_size, payload_size) := unpack (take prefix_size blob) in
  throw_if (negb (bool_decide (mg = magic))) (KVPageFormatError "KV page magic is invalid");;
  throw_if (negb (ver =? version)) (KVPageFormatError "unsupported KV page version");;
  throw_if (max_header_bytes <? header_size) (KVPageFormatError "KV page header is too large");;
  throw_if (max_payload_bytes <? payload_size)
    (KVPageFormatError "KV page payload exceeds the configured limit");;
  let expected_size := Z.of_nat prefix_size + header_size + payload_size + Z.of_nat checksum_size in
  throw_if (negb (Z.of_nat (length blob) =? expected_size)) (KVPageFormatError "KV page envelope size");;
  let checksum_start := Z.to_nat (expected_size - Z.of_nat checksum_size) in
  throw_if (negb (bool_decide (blake2b checksum_size (take checksum_start blob) = drop checksum_start blob)))
    (KVPageFormatError "KV page checksum mismatch");;
  let payload_start := (prefix_size + Z.to_nat header_size)%nat in
  mret (slice prefix_size payload_start blob, slice payload_start checksum_start blob, payload_size).

(** [KVPageCodec.decode] *)
Definition decode_page (blob : bytes) (digest : option string) (rank page : option Z)
    (layout : option KVPageLayout) (max_payload_bytes : Z) : result KVPageRecord :=
  '(raw, payload, payload_size) ← open_envelope blob max_payload_bytes;
  header ← match (t ← decode_ascii raw; loads t) with
           | inl (UnicodeDecodeError _) | inl (JSONDecodeError _) =>
               throw (KVPageFormatError "KV page header is not valid JSON")
           | r => r
           end;
  metadata ← metadata_from_dict header;
  throw_if (negb (num_eq (layout_nbytes (m_layout metadata)) (NInt payload_size)))
    (KVPageFormatError "KV page layout byte size does not match the encoded payload");;
  check_compatibility metadata digest rank page layout;;
  mret (mkPageRecord metadata payload).

(** ** The cache tensor *)
(** What [TorchKVPageIO] uses of a tensor of shape [2; layers; blocks; block_size;
    heads; head_dim]: its shape and dtype, and the bytes of [kv_cache[:, :, i]]
    in the order of [layout.shape]. *)
Class KvTensor (T : Type) := {
  tensor_shape : T → list Z;
  tensor_dtype : T → string;
  page_bytes : nat → T → bytes;
  set_page_bytes : nat → bytes → T → T
}.
(** Copying a page of the right size makes it, and no other, read back. *)
Class LawfulKvTensor (T : Type) `{KvTensor T} := {
  set_page_shape i p t : tensor_shape (set_page_bytes i p t) = tensor_shape t;
  set_page_dtype i p t : tensor_dtype (set_page_bytes i p t) = tensor_dtype t;
  page_bytes_set i j p t : page_bytes j (set_page_bytes i p t) = if decide (j = i) then p else page_bytes j t
}.

Record TorchKVPageIO (T : Type) := mkPageIO { kv_cache : T; io_layout : KVPageLayout }.
Arguments mkPageIO {T}.
Arguments kv_cache {T}.
Arguments io_layout {T}.

Section tensor.
Context {T : Type} `{KvTensor T}.

Definition dim (i : nat) (t : T) : Z := default 0 (tensor_shape t !! i).
(** [TorchKVPageIO.__init__] *)
Definition torch_kv_page_io (t : T) : result (TorchKVPageIO T) :=
  throw_if (negb (length (tensor_shape t) =? 6)%nat) (ValueError "kv_cache must have shape");;
  throw_if (negb (dim 0 t =? 2)) (ValueError "kv_cache axis 0 must contain K and V");;
  layout ← kv_page_layout (mkLayout (NInt (dim 1 t)) (NInt (dim 3 t)) (NInt (dim 4 t)) (NInt (dim 5 t)) (tensor_dtype t));
  mret (mkPageIO t layout).
Definition page_count (io : TorchKVPageIO T) : Z := dim 2 (kv_cache io).
(** [_target] *)
Definition page_target (block_id : Z) : M (TorchKVPageIO T) nat :=
  io ← getS;
  raise_if (negb ((0 <=? block_id) && (block_id <? page_count io))) (IndexError "KV block id is out of range");;
  mret (Z.to_nat block_id).
Definition export_page (block_id : Z) : M (TorchKVPageIO T) bytes :=
  i ← page_target block_id;
  getsS (λ io, page_bytes i (kv_cache io)).
Definition import_page (block_id : Z) (payload : bytes) : M (TorchKVPageIO T) () :=
  io ← getS;
  raise_if (negb (num_eq (NInt (Z.of_nat (length payload))) (layout_nbytes (io_layout io))))
    (KVPageCompatibilityError "KV page payload size");;
  i ← page_target block_id;
  modifyS (λ io, mkPageIO (set_page_bytes i payload (kv_cache io)) (io_layout io)).
End tensor.

(** ** [AsyncKVPageStore] *)
(** The coordinator's coroutines, awaited. *)
Class PageCoordinator (C : Type) := {
  co_put : string → bytes → M C ();
  co_get : string → M C (option bytes);
  co_evict : string → M C ()
}.

Section page_store.
Context `{FloatRepr} {C : Type} `{PageCoordinator C}.

Definition store_put (key : string) (m : KVPageMetadata) (payload : bytes) : M C () :=
  envelope ← lift (encode_page m payload);
  co_put key envelope.
Definition store_get (key : string) (digest : option string) (rank page : option Z) (layout : option KVPageLayout) :
    M C (option KVPageRecord) :=
  envelope ← co_get key;
  match envelope with
  | None => mret None
  | Some e => r ← lift (decode_page e digest rank page layout default_max_payload_bytes); mret (Some r)
  end.
Definition store_evict (key : string) : M C () := co_evict key.
End page_store.
