(* ===== verification/KvPageSpec.v ===== *)
(** * What the page envelope guarantees

    Lemmas and properties of [KvPage.v]: the envelope opens exactly when it is
    intact, metadata survives the JSON header, pages round-trip, and malformed
    input is rejected. *)
From S2P Require Import Prelude Json Blake2b StorageBackend KvPage.
Set Default Goal Selector "!".
Local Open Scope Z_scope.

(** ** The fixed prefix *)
Lemma pack_length ver h p : length (pack magic ver h p) = prefix_size.
Proof. unfold pack. by rewrite !length_app, !le_bytes_length. Qed.

Lemma slice_app_mid {A} (l1 l2 l3 : list A) a b :
  length l1 = a → (a + length l2 = b)%nat → slice a b (l1 ++ l2 ++ l3) = l2.
Proof.
  intros <- <-. unfold slice. rewrite drop_app_length. apply take_app_length'. lia.
Qed.
Lemma unpack_pack ver h p :
  0 <= ver < 2 ^ 16 → 0 <= h < 2 ^ 32 → 0 <= p < 2 ^ 64 → unpack (pack magic ver h p) = (magic, ver, h, p).
Proof.
  intros Hv Hh Hp. unfold unpack, pack.
  rewrite (slice_app_mid magic (le_bytes 2 ver)) by (by rewrite ?le_bytes_length).
  replace (slice 10 14 _) with (le_bytes 4 h); last first.
  { symmetry. rewrite (app_assoc magic). apply slice_app_mid; by rewrite ?length_app, ?le_bytes_length. }
  replace (slice 14 22 _) with (le_bytes 8 p); last first.
  { symmetry. rewrite (app_assoc magic), (app_assoc (magic ++ _)), <-(app_nil_r (le_bytes 8 p)).
    apply slice_app_mid; by rewrite ?length_app, ?le_bytes_length. }
  rewrite !of_le_bytes_spec by done. by rewrite take_app_length' by done.
Qed.
Lemma slice_length {A} (l : list A) a b : (b <= length l)%nat → length (slice a b l) = (b - a)%nat.
Proof. intros Hb. unfold slice. rewrite length_take, length_drop. lia. Qed.
Lemma slice_Forall {A} (P : A → Prop) l a b : Forall P l → Forall P (slice a b l).
Proof. intros Hl. unfold slice. by apply Forall_take, Forall_drop. Qed.

(** A prefix that unpacks was packed. *)
Lemma pack_unpack q ver h p :
  Forall byte_ok q → length q = prefix_size → unpack q = (magic, ver, h, p) →
  q = pack magic ver h p ∧ 0 <= h < 2 ^ 32 ∧ 0 <= p < 2 ^ 64.
Proof.
  intros Hq Hlen Hu. unfold unpack in Hu. injection Hu as Hm <- <- <-. unfold prefix_size in Hlen.
  assert (Hs : ∀ a b, (a <= b <= 22)%nat →
    le_bytes (b - a) (of_le_bytes (slice a b q)) = slice a b q ∧
    0 <= of_le_bytes (slice a b q) < 256 ^ Z.of_nat (b - a)).
  { intros a b Hab. assert (Hl : length (slice a b q) = (b - a)%nat) by (apply slice_length; lia).
    rewrite <-Hl at 1. split; [by apply le_bytes_of, slice_Forall|]. rewrite <-Hl.
    by apply of_le_bytes_range, slice_Forall. }
  destruct (Hs 8%nat 10%nat) as [E1 _]; [lia|]. destruct (Hs 10%nat 14%nat) as [E2 R2]; [lia|].
  destruct (Hs 14%nat 22%nat) as [E3 R3]; [lia|]. split; [|by split]. unfold pack.
  change (10 - 8)%nat with 2%nat in E1. change (14 - 10)%nat with 4%nat in E2. change (22 - 14)%nat with 8%nat in E3.
  rewrite E1, E2, E3, <-Hm. unfold slice. cbn [Nat.sub].
  rewrite (take_ge (drop 14 q)) by (rewrite length_drop; lia).
  rewrite <-(take_drop 8 q) at 1. f_equal. rewrite <-(take_drop 2 (drop 8 q)) at 1. f_equal.
  rewrite drop_drop. rewrite <-(take_drop 4 (drop (8 + 2) q)) at 1. f_equal. by rewrite drop_drop.
Qed.

(** ** Opening an envelope *)
Definition envelope (header payload : bytes) : bytes :=
  let prefix := pack magic version (Z.of_nat (length header)) (Z.of_nat (length payload)) in
  prefix ++ header ++ payload ++ blake2b checksum_size (prefix ++ header ++ payload).

Lemma checksum_length b : length (blake2b checksum_size b) = checksum_size.
Proof. apply blake2b_length. unfold checksum_size. lia. Qed.
Lemma envelope_length header payload :
  length (envelope header payload) = (prefix_size + length header + length payload + checksum_size)%nat.
Proof. unfold envelope. rewrite !length_app, pack_length, checksum_length. lia. Qed.


Lemma inr_triple {A B C} (a a' : A) (b b' : B) (c c' : C) :
  (inr (a, b, c) : result _) = inr (a', b', c') → a = a' ∧ b = b' ∧ c = c'.
Proof. by intros [= -> -> ->]. Qed.

Lemma open_intact header payload max :
  Z.of_nat (length header) <= max_header_bytes → Z.of_nat (length payload) <= max → 0 < max < 2 ^ 64 →
  open_envelope (envelope header payload) max = inr (header, payload, Z.of_nat (length payload)).
Proof.
  intros Hh Hp Hmax. unfold open_envelope. pose proof (envelope_length header payload) as Hlen.
  assert (Hhb : max_header_bytes < 2 ^ 32) by (unfold max_header_bytes; lia).
  apply throw_if_bind; [apply Nat.ltb_ge; lia|]. apply throw_if_bind; [apply Z.leb_gt; lia|].
  replace (take prefix_size (envelope header payload)) with
    (pack magic version (Z.of_nat (length header)) (Z.of_nat (length payload))); last first.
  { symmetry. apply take_app_length'. symmetry. apply pack_length. }
  rewrite unpack_pack by (unfold version; lia).
  apply throw_if_bind; [by rewrite bool_decide_true|]. apply throw_if_bind; [done|].
  apply throw_if_bind; [apply Z.ltb_ge; lia|]. apply throw_if_bind; [apply Z.ltb_ge; lia|].
  apply throw_if_bind; [apply negb_false_iff, Z.eqb_eq; lia|]. unfold envelope.
  set (prefix := pack magic version (Z.of_nat (length header)) (Z.of_nat (length payload))).
  assert (Hpre : length prefix = prefix_size) by apply pack_length.
  replace (Z.to_nat (Z.of_nat prefix_size + Z.of_nat (length header) + Z.of_nat (length payload)
    + Z.of_nat checksum_size - Z.of_nat checksum_size)) with (length (prefix ++ header ++ payload)) by (rewrite !length_app, Hpre; lia).
  replace (prefix ++ header ++ payload ++ _) with
    ((prefix ++ header ++ payload) ++ blake2b checksum_size (prefix ++ header ++ payload)) by (by rewrite <-!app_assoc).
  rewrite take_app_length, drop_app_length. apply throw_if_bind; [by rewrite bool_decide_true|].
  rewrite Nat2Z.id, <-!app_assoc.
  rewrite (slice_app_mid prefix header) by lia. rewrite (app_assoc prefix header (payload ++ _)).
  rewrite (slice_app_mid (prefix ++ header) payload) by (rewrite !length_app; lia). done.
Qed.

Lemma open_sound blob max header payload size :
  Forall byte_ok blob → open_envelope blob max = inr (header, payload, size) →
  blob = envelope header payload ∧ size = Z.of_nat (length payload) ∧
  Z.of_nat (length header) <= max_header_bytes ∧ size <= max ∧ 0 < max.
Proof.
  intros Hb H. unfold open_envelope in H. apply result_bind_inr in H as ([] & H1 & H).
  apply result_bind_inr in H as ([] & H2 & H). apply throw_if_ok in H1, H2.
  apply Nat.ltb_ge in H1. apply Z.leb_gt in H2.
  destruct (unpack (take prefix_size blob)) as [[[mg ver] hs] ps] eqn:Hu.
  repeat (let Hn := fresh "G" in apply result_bind_inr in H as ([] & Hn & H); apply throw_if_ok in Hn).
  rewrite negb_false_iff in *. apply bool_decide_eq_true in G. subst mg.
  apply Z.eqb_eq in G0. subst ver. apply Z.ltb_ge in G1, G2. apply Z.eqb_eq in G3. apply bool_decide_eq_true in G4.
  apply pack_unpack in Hu as (Hpre & Hhs & Hps); [|by apply Forall_take|rewrite length_take; unfold prefix_size in *; lia].
  replace (Z.to_nat (Z.of_nat prefix_size + hs + ps + Z.of_nat checksum_size - Z.of_nat checksum_size)) with
    (prefix_size + Z.to_nat hs + Z.to_nat ps)%nat in * by lia.
  apply inr_triple in H as (<- & <- & <-).
  set (header := slice prefix_size (prefix_size + Z.to_nat hs) blob) in *.
  set (payload := slice (prefix_size + Z.to_nat hs) (prefix_size + Z.to_nat hs + Z.to_nat ps) blob) in *.
  assert (Hhl : length header = Z.to_nat hs) by (unfold header; rewrite slice_length; lia).
  assert (Hpl : length payload = Z.to_nat ps) by (unfold payload; rewrite slice_length; lia).
  assert (Hbody : take (prefix_size + Z.to_nat hs + Z.to_nat ps) blob =
    pack magic version (Z.of_nat (length header)) (Z.of_nat (length payload)) ++ header ++ payload).
  { rewrite Hhl, Hpl, !Z2Nat.id, <-Hpre by lia. unfold header, payload, slice.
    rewrite <-(take_drop prefix_size (take (prefix_size + Z.to_nat hs + Z.to_nat ps) blob)) at 1.
    rewrite take_take, Nat.min_l by lia. f_equal. rewrite skipn_firstn_comm.
    replace (prefix_size + Z.to_nat hs + Z.to_nat ps - prefix_size)%nat with (Z.to_nat hs + Z.to_nat ps)%nat by lia.
    replace (prefix_size + Z.to_nat hs - prefix_size)%nat with (Z.to_nat hs) by lia.
    replace (prefix_size + Z.to_nat hs + Z.to_nat ps - (prefix_size + Z.to_nat hs))%nat with (Z.to_nat ps) by lia.
    rewrite <-(take_drop (Z.to_nat hs) (take (Z.to_nat hs + Z.to_nat ps) _)).
    rewrite take_take, Nat.min_l by lia. f_equal. rewrite skipn_firstn_comm, drop_drop. f_equal. lia. }
  split_and!; [|rewrite Hpl; lia|rewrite Hhl; lia|lia|lia].
  rewrite <-(take_drop (prefix_size + Z.to_nat hs + Z.to_nat ps) blob). rewrite <-G4, Hbody. unfold envelope.
  by rewrite <-!app_assoc.
Qed.

(** Another blob that agrees with an accepted one where both have bytes does not
    open: the sizes written in the prefix fix the length. *)
Lemma open_length blob blob' max r :
  open_envelope blob max = inr r → take prefix_size blob = take prefix_size blob' →
  length blob ≠ length blob' → ∃ msg, open_envelope blob' max = inl (KVPageFormatError msg).
Proof.
  intros H Hpre Hne. unfold open_envelope in *.
  apply result_bind_inr in H as ([] & H1 & H). apply result_bind_inr in H as ([] & H2 & H).
  destruct (length blob' <? prefix_size + checksum_size)%nat eqn:E; [by eexists|]. cbn [throw_if mbind result_bind].
  rewrite H2, <-Hpre. cbn [mbind result_bind]. destruct (unpack (take prefix_size blob)) as [[[mg ver] hs] ps].
  repeat (let Hn := fresh "G" in apply result_bind_inr in H as ([] & Hn & H); try (rewrite Hn; cbn [mbind result_bind])).
  apply throw_if_ok in G3. apply negb_false_iff, Z.eqb_eq in G3.
  rewrite (proj2 (Z.eqb_neq (Z.of_nat (length blob')) _)) by lia. by eexists.
Qed.

(** ** Metadata through the header *)
Definition is_int (n : PyNum) : bool := match n with NInt _ => true | _ => false end.
(** A layout and a metadata record the constructors accept, with integer fields. *)
Definition layout_ok (l : KVPageLayout) : Prop :=
  is_int (l_num_layers l) && is_int (l_block_size l) && is_int (l_num_kv_heads l) && is_int (l_head_dim l) = true ∧
  kv_page_layout l = inr l.
Definition metadata_ok (m : KVPageMetadata) : Prop :=
  is_int (m_tp_rank m) && is_int (m_page_index m) = true ∧ kv_page_metadata m = inr m ∧ layout_ok (m_layout m).

Lemma canonical_dtype_ascii d d' : canonical_dtype d = inr d' → is_ascii (bytes_of d') = true.
Proof.
  unfold canonical_dtype. set (v := dtype_alias _). destruct (dtype_bytes v) eqn:E; [|done]. intros [= <-].
  unfold dtype_bytes in E.
  repeat match type of E with context [String.eqb v ?s] =>
    destruct (String.eqb v s) eqn:?; [match goal with H : String.eqb v s = true |- _ => apply String.eqb_eq in H; rewrite H; done end|] end.
  done.
Qed.

Lemma layout_to_dict_back l :
  layout_ok l → layout_from_dict (sorted_json (layout_to_dict l)) = inr l ∧ plain (layout_to_dict l) = true.
Proof.
  intros [Hint Hok]. destruct l as [a b c d dt]. cbn in Hint.
  destruct a as [|a|], b as [|b|], c as [|c|], d as [|d|]; try discriminate Hint. unfold kv_page_layout in Hok. cbn [l_num_layers
    l_block_size l_num_kv_heads l_head_dim l_dtype] in Hok.
  apply result_bind_inr in Hok as ([] & Hmin & Hok). apply result_bind_inr in Hok as (dt' & Hdt & Hok).
  injection Hok as ->. split.
  - assert (Hf : layout_of_fields [("block_size", JInt b); ("dtype", JStr dt); ("head_dim", JInt d);
        ("num_kv_heads", JInt c); ("num_layers", JInt a)] = inr (mkLayout (NInt a) (NInt b) (NInt c) (NInt d) dt)).
    { unfold layout_of_fields. change (field "num_layers" _) with (JInt a).
      change (field "block_size" _) with (JInt b). change (field "num_kv_heads" _) with (JInt c).
      change (field "head_dim" _) with (JInt d). change (field "dtype" _) with (JStr dt).
      cbn [need_num num_of_json mbind result_bind mret result_ret dtype_field]. unfold kv_page_layout.
      cbn [l_num_layers l_block_size l_num_kv_heads l_head_dim l_dtype]. rewrite Hmin. cbn [mbind result_bind].
      by rewrite Hdt. }
    cbn [layout_to_dict sorted_json map fst snd json_of_num]. unfold layout_from_dict.
    change (sort_fields _) with [("block_size", JInt b); ("dtype", JStr dt); ("head_dim", JInt d);
        ("num_kv_heads", JInt c); ("num_layers", JInt a)].
    apply throw_if_bind; [vm_compute; reflexivity|]. by rewrite Hf.
  - cbn [plain layout_to_dict json_of_num l_dtype forallb fst snd].
    rewrite (canonical_dtype_ascii _ _ Hdt). vm_compute. done.
Qed.

Lemma metadata_to_dict_back m :
  metadata_ok m → metadata_from_dict (sorted_json (metadata_to_dict m)) = inr m ∧ plain (metadata_to_dict m) = true.
Proof.
  intros (Hint & Hok & Hl). destruct (layout_to_dict_back _ Hl) as [Hback Hplain].
  destruct m as [dg rk pg l]. cbn [m_tp_rank m_page_index m_layout] in *.
  destruct rk as [|r|], pg as [|p|]; try discriminate Hint. unfold kv_page_metadata in Hok.
  cbn [m_identity_digest m_tp_rank m_page_index] in Hok.
  apply result_bind_inr in Hok as ([] & Hd & Hok). apply result_bind_inr in Hok as ([] & Hr & _).
  assert (Hr1 : num_lt (NInt r) (NInt 0) = false) by (apply throw_if_ok, orb_false_iff in Hr as [Hr1 _]; exact Hr1).
  split.
  - cbn [metadata_to_dict sorted_json map fst snd json_of_num m_layout m_identity_digest m_tp_rank m_page_index].
    unfold metadata_from_dict.
    change (sort_fields _) with [("identity_digest", JStr dg); ("layout", sorted_json (layout_to_dict l));
      ("page_index", JInt p); ("tp_rank", JInt r)].
    apply throw_if_bind; [vm_compute; reflexivity|].
    unfold metadata_of_fields. change (field "layout" _) with (sorted_json (layout_to_dict l)).
    rewrite Hback. cbn [mbind result_bind]. change (field "identity_digest" _) with (JStr dg).
    change (field "tp_rank" _) with (JInt r). change (field "page_index" _) with (JInt p).
    cbn [identity_field need_num num_of_json mbind result_bind mret result_ret]. rewrite Hd. cbn [mbind result_bind].
    rewrite Hr1. cbn [throw_if mbind result_bind]. unfold kv_page_metadata.
    cbn [m_identity_digest m_tp_rank m_page_index]. rewrite Hd. cbn [mbind result_bind]. by rewrite Hr.
  - apply throw_if_ok, orb_false_iff in Hd as [_ Hd]. apply negb_false_iff in Hd.
    cbn [plain metadata_to_dict json_of_num m_layout m_identity_digest m_tp_rank m_page_index forallb fst snd].
    rewrite Hd, Hplain. vm_compute. done.
Qed.

Lemma num_eq_refl n : is_int n = true → num_eq n n = true.
Proof. destruct n; [done| |done]. intros _. unfold num_eq. cbn. by apply Qeq_bool_true. Qed.
Lemma float_eq_sym x y : float_eq x y = float_eq y x.
Proof.
  destruct x as [p|[]|], y as [q|[]|]; cbn; try done. apply eq_bool_prop_intro.
  rewrite !Is_true_true, !Qeq_bool_true. split; by symmetry.
Qed.
Lemma num_eq_int a b : num_eq (NInt a) (NInt b) = true ↔ a = b.
Proof.
  unfold num_eq. cbn. rewrite Qeq_bool_true. split; [|by intros ->]. unfold Qeq. cbn. lia.
Qed.
Lemma layout_eqb_refl l : layout_ok l → layout_eqb l l = true.
Proof.
  intros [Hint _]. repeat (apply andb_true_iff in Hint as [Hint ?]). unfold layout_eqb.
  rewrite !num_eq_refl by done. cbn. apply String.eqb_refl.
Qed.

(** The options of [decode] that name what a metadata record says. *)
Definition expects (m : KVPageMetadata) (digest : option string) (rank page : option Z) (layout : option KVPageLayout) : Prop :=
  (∀ d, digest = Some d → d = m_identity_digest m) ∧ (∀ r, rank = Some r → m_tp_rank m = NInt r) ∧
  (∀ p, page = Some p → m_page_index m = NInt p) ∧ (∀ l, layout = Some l → l = m_layout m).

Lemma check_compatible m digest rank page layout :
  metadata_ok m → expects m digest rank page layout → check_compatibility m digest rank page layout = inr tt.
Proof.
  intros (Hint & _ & Hl) (Hd & Hr & Hp & Hla). apply andb_true_iff in Hint as [Hi1 Hi2]. unfold check_compatibility.
  apply throw_if_bind; [destruct digest as [d|]; [rewrite (Hd d) by done; by rewrite String.eqb_refl|done]|].
  apply throw_if_bind; [destruct rank as [r|]; [rewrite (Hr r) by done; apply negb_false_iff; by apply num_eq_int|done]|].
  apply throw_if_bind; [destruct page as [p|]; [rewrite (Hp p) by done; apply negb_false_iff; by apply num_eq_int|done]|].
  destruct layout as [l|]; [|done]. rewrite (Hla l) by done. by rewrite layout_eqb_refl.
Qed.

(** What an accepted page passed. *)
Lemma check_compatible_inv m digest rank page layout :
  check_compatibility m digest rank page layout = inr tt →
  (∀ d, digest = Some d → d = m_identity_digest m) ∧
  (∀ r, rank = Some r → num_eq (NInt r) (m_tp_rank m) = true) ∧
  (∀ p, page = Some p → num_eq (NInt p) (m_page_index m) = true) ∧
  (∀ l, layout = Some l → layout_eqb l (m_layout m) = true).
Proof.
  unfold check_compatibility. intros H. apply result_bind_inr in H as ([] & H1 & H).
  apply result_bind_inr in H as ([] & H2 & H). apply result_bind_inr in H as ([] & H3 & H4).
  apply throw_if_ok in H1, H2, H3, H4. split_and!.
  - intros d ->. apply negb_false_iff in H1. by apply String.eqb_eq.
  - intros r ->. by apply negb_false_iff.
  - intros p ->. by apply negb_false_iff.
  - intros l ->. by apply negb_false_iff.
Qed.

Section theorems.
Context `{FloatRepr}.

Lemma encode_envelope m payload blob :
  metadata_ok m → encode_page m payload = inr blob →
  blob = envelope (render canonical_style (metadata_to_dict m)) payload ∧
  Z.of_nat (length (render canonical_style (metadata_to_dict m))) <= max_header_bytes ∧
  num_eq (NInt (Z.of_nat (length payload))) (layout_nbytes (m_layout m)) = true.
Proof.
  intros Hm He. unfold encode_page in He. apply result_bind_inr in He as ([] & H1 & He).
  apply throw_if_ok, negb_false_iff in H1. apply result_bind_inr in He as (h & Hh & He).
  unfold dumps in Hh. cbn [canonical_style allow_nan negb andb throw_if mbind result_bind] in Hh. apply (inj inr) in Hh as <-.
  apply result_bind_inr in He as ([] & H2 & He). apply throw_if_ok, Z.ltb_ge in H2. apply (inj inr) in He as <-. done.
Qed.

(** What [encode] writes opens, up to the expectations. *)
Lemma decode_encoded m payload blob digest rank page layout max :
  metadata_ok m → encode_page m payload = inr blob → Z.of_nat (length payload) <= max → 0 < max < 2 ^ 64 →
  decode_page blob digest rank page layout max =
    (check_compatibility m digest rank page layout;; mret (mkPageRecord m payload)).
Proof.
  intros Hm He Hp Hmax. destruct (encode_envelope _ _ _ Hm He) as (-> & Hh & Hn).
  destruct (metadata_to_dict_back m Hm) as [Hback Hplain]. unfold decode_page.
  rewrite open_intact by done. cbn [mbind result_bind].
  rewrite decode_ascii_ok by by apply render_ascii. cbn [mbind result_bind].
  rewrite loads_render by done. cbn [mbind result_bind]. rewrite Hback. cbn [mbind result_bind].
  apply throw_if_bind; [apply negb_false_iff; unfold num_eq in *; by rewrite float_eq_sym|done].
Qed.

(** C23: what [encode] writes, [decode] reads back: the same metadata and the same
    payload, under any of the expectations the metadata meets. *)
Theorem page_round_trip m payload blob digest rank page layout max :
  metadata_ok m → encode_page m payload = inr blob → Z.of_nat (length payload) <= max → 0 < max < 2 ^ 64 →
  expects m digest rank page layout →
  decode_page blob digest rank page layout max = inr (mkPageRecord m payload).
Proof. intros Hm He Hp Hmax Hexp. rewrite (decode_encoded m payload) by done. by rewrite check_compatible. Qed.
End theorems.

(** C27: c10: [decode] accepts only an intact envelope that meets the expectations: the
    blob is magic, version, sizes, header, payload and the checksum of all of it;
    the payload has the size its layout says; and the identity, rank, page and
    layout asked for are those of the header. *)
Theorem decode_sound blob digest rank page layout max rec :
  Forall byte_ok blob → decode_page blob digest rank page layout max = inr rec →
  ∃ header doc,
    blob = envelope header (r_payload rec) ∧ loads header = inr doc ∧ metadata_from_dict doc = inr (r_metadata rec) ∧
    num_eq (layout_nbytes (m_layout (r_metadata rec))) (NInt (Z.of_nat (length (r_payload rec)))) = true ∧
    Z.of_nat (length (r_payload rec)) <= max ∧
    (∀ d, digest = Some d → d = m_identity_digest (r_metadata rec)) ∧
    (∀ r, rank = Some r → num_eq (NInt r) (m_tp_rank (r_metadata rec)) = true) ∧
    (∀ p, page = Some p → num_eq (NInt p) (m_page_index (r_metadata rec)) = true) ∧
    (∀ l, layout = Some l → layout_eqb l (m_layout (r_metadata rec)) = true).
Proof.
  intros Hb Hd. unfold decode_page in Hd. apply result_bind_inr in Hd as ([[raw payload] size] & Ho & Hd).
  apply open_sound in Ho as (-> & -> & _ & Hmax & _); [|done].
  apply result_bind_inr in Hd as (doc & Hdoc & Hd). apply result_bind_inr in Hd as (m & Hm & Hd).
  apply result_bind_inr in Hd as ([] & Hn & Hd). apply result_bind_inr in Hd as ([] & Hc & Hd). injection Hd as <-.
  apply throw_if_ok, negb_false_iff in Hn. apply check_compatible_inv in Hc. exists raw, doc.
  assert (Hl : loads raw = inr doc).
  { unfold decode_ascii in Hdoc. destruct (negb (is_ascii raw)); cbn in Hdoc; [done|].
    destruct (loads raw) as [[]|v]; try discriminate Hdoc. exact Hdoc. }
  cbn [r_payload r_metadata]. done.
Qed.

(** An accepted envelope cut short or followed by further bytes is rejected as
    malformed, whatever the caller expects. *)
Theorem decode_rejects_resized blob blob' max rec digest rank page layout digest' rank' page' layout' :
  decode_page blob digest rank page layout max = inr rec →
  (blob' `prefix_of` blob ∨ blob `prefix_of` blob') → blob' ≠ blob →
  ∃ msg, decode_page blob' digest' rank' page' layout' max = inl (KVPageFormatError msg).
Proof.
  intros Hd Hpre Hne. unfold decode_page in Hd. apply result_bind_inr in Hd as (r & Ho & _).
  assert (Hlen : length blob ≠ length blob').
  { destruct Hpre as [[k ->]|[k ->]]; rewrite length_app;
      (destruct k; [exfalso; apply Hne; by rewrite app_nil_r|cbn; lia]). }
  assert (Hopen : ∃ msg, open_envelope blob' max = inl (KVPageFormatError msg)).
  { destruct (decide (length blob' < prefix_size + checksum_size)%nat) as [Hs|Hs].
    { unfold open_envelope. rewrite (proj2 (Nat.ltb_lt _ _)) by done. by eexists. }
    eapply open_length; [exact Ho| |done].
    assert (Hbl : (prefix_size + checksum_size <= length blob)%nat).
    { unfold open_envelope in Ho. apply result_bind_inr in Ho as ([] & H1 & _). apply throw_if_ok in H1. by apply Nat.ltb_ge. }
    destruct Hpre as [[k ->]|[k ->]]; rewrite take_app_le; done || lia. }
  destruct Hopen as [msg Hm]. exists msg. unfold decode_page. by rewrite Hm.
Qed.

(** ** Malformed pages *)
(** The errors a reader of pages has to expect. *)
Definition page_error (e : exn) : bool :=
  match e with KVPageFormatError _ | KVPageCompatibilityError _ => true | _ => false end.
Definition is_attribute_error (e : exn) : bool := match e with AttributeError _ => true | _ => false end.

Lemma dtype_error v e : canonical_dtype v = inl e → is_value_error e = true.
Proof. unfold canonical_dtype. destruct (dtype_bytes _); [done|]. by intros [= <-]. Qed.
Lemma need_num_error v e : need_num v = inl e → is_type_error e = true.
Proof. unfold need_num. destruct (num_of_json v); [done|]. by intros [= <-]. Qed.
Lemma layout_from_dict_errors v e : layout_from_dict v = inl e → ∃ m, e = KVPageFormatError m.
Proof.
  unfold layout_from_dict. destruct v; try (intros [= <-]; by eexists). intros H.
  result_err H; [subst; by eexists|]. destruct (layout_of_fields fields) as [e'|l] eqn:E; [|done].
  destruct (is_type_error e' || is_value_error e') eqn:Ek; [injection H as <-; by eexists|]. exfalso.
  apply orb_false_iff in Ek as [E1 E2]. unfold layout_of_fields, kv_page_layout in E. result_err E; subst;
    try (apply need_num_error in E; congruence); try (apply dtype_error in E; congruence); try done.
  unfold dtype_field in E. destruct (field "dtype" fields); try done; injection E as <-; done.
Qed.
Lemma metadata_from_dict_errors v e :
  metadata_from_dict v = inl e → (∃ m, e = KVPageFormatError m) ∨ is_attribute_error e = true.
Proof.
  unfold metadata_from_dict. destruct v; try (intros [= <-]; left; by eexists). intros H.
  result_err H; [subst; left; by eexists|]. destruct (metadata_of_fields fields) as [e'|m] eqn:E; [|done].
  destruct (is_type_error e' || is_value_error e') eqn:Ek.
  { left. destruct e'; try done; injection H as <-; by eexists. }
  injection H as <-. apply orb_false_iff in Ek as [E1 E2]. unfold metadata_of_fields, kv_page_metadata in E.
  result_err E; subst; try (apply need_num_error in E; congruence); try done.
  - apply layout_from_dict_errors in E as [m ->]. by left; eexists.
  - unfold identity_field in E. destruct (field "identity_digest" fields); try done;
      match type of E with (if ?b then _ else _) = _ => destruct b end; injection E as <-; try done; by right.
Qed.
Lemma open_errors blob max e :
  open_envelope blob max = inl e → (∃ m, e = KVPageFormatError m) ∨ max <= 0 ∧ ∃ m, e = ValueError m.
Proof.
  unfold open_envelope. intros H. destruct (unpack _) as [[[mg ver] hs] ps]. result_err H; subst; try (left; by eexists).
  right. split; [by apply Z.leb_le|by eexists].
Qed.
Lemma check_errors m digest rank page layout e :
  check_compatibility m digest rank page layout = inl e → page_error e = true.
Proof. unfold check_compatibility. intros H. result_err H; by subst. Qed.

(** Whatever the bytes, [decode] terminates, and raises nothing but a format or
    a compatibility error, the complaint about a limit that is not positive, or
    the [AttributeError] of an identity that is not a string. *)
Theorem decode_errors blob digest rank page layout max e :
  decode_page blob digest rank page layout max = inl e →
  page_error e = true ∨ (max <= 0 ∧ ∃ m, e = ValueError m) ∨ is_attribute_error e = true.
Proof.
  intros H. unfold decode_page in H. apply result_bind_inl in H as [H|([[raw payload] size] & _ & H)].
  { apply open_errors in H as [[m ->]|?]; auto. }
  apply result_bind_inl in H as [H|(doc & _ & H)].
  { destruct (t ← decode_ascii raw; loads t) as [e'|v] eqn:El; [|done].
    assert (Hk : decode_error e' = true ∨ ∃ m, e' = UnicodeDecodeError m).
    { apply result_bind_inl in El as [El|(t & _ & El)]; [|left; by eapply loads_errors].
      right. unfold decode_ascii in El. result_err El. subst. by eexists. }
    left. destruct Hk as [Hk|[m ->]]; [destruct e'; try done|]; by injection H as <-. }
  apply result_bind_inl in H as [H|(m & _ & H)].
  { apply metadata_from_dict_errors in H as [[m ->]|?]; auto. }
  result_err H; [by subst; left|]. apply check_errors in H. by left.
Qed.

(** The header of an envelope that breaks the rule. *)
Definition odd_header : bytes :=
  bytes_of "{'identity_digest':7,'layout':{'block_size':1,'dtype':'float32','head_dim':1,'num_kv_heads':1,'num_layers':1},'page_index':0,'tp_rank':0}".
Definition requote (c : Z) : Z := if c =? 39 then 34 else c.

(** An identity that is not a string is not reported as a malformed page: the
    envelope is well formed and its checksum is right, and [decode] raises
    [AttributeError]. *)
Theorem decode_attribute_error :
  let blob := envelope (requote <$> odd_header) (replicate 8 0) in
  decode_page blob None None None None default_max_payload_bytes =
    inl (AttributeError "object has no attribute 'isascii'").
Proof. vm_compute. reflexivity. Qed.

(** ** Pages in the tensor *)
Section tensor.
Context {T : Type} `{LawfulKvTensor T}.

(** An imported page is exported as it was, and no other page changes. *)
Theorem import_export io b p j :
  0 <= b < page_count io → num_eq (NInt (Z.of_nat (length p))) (layout_nbytes (io_layout io)) = true →
  ∃ io', import_page b p io = (inr tt, io') ∧ export_page b io' = (inr p, io') ∧
    (0 <= j < page_count io → j ≠ b → (export_page j io').1 = (export_page j io).1).
Proof.
  intros Hb Hlen. eexists. split.
  { unfold import_page, page_target, mbind, M_bind, getS. rewrite Hlen. cbn [negb raise_if mret M_ret].
    rewrite (proj2 (Z.leb_le _ _)), (proj2 (Z.ltb_lt _ _)) by lia. reflexivity. }
  set (io' := mkPageIO _ _).
  assert (Hcount : page_count io' = page_count io).
  { unfold page_count, dim, io'. cbn [kv_cache]. by rewrite set_page_shape. }
  assert (Hx : ∀ x i, 0 <= x < page_count i → export_page x i = (inr (page_bytes (Z.to_nat x) (kv_cache i)), i)).
  { intros x i Hx. unfold export_page, page_target, mbind, M_bind, getS, getsS.
    rewrite (proj2 (Z.leb_le _ _)), (proj2 (Z.ltb_lt _ _)) by lia. reflexivity. }
  split.
  - rewrite Hx by (rewrite Hcount; lia). unfold io'. cbn [kv_cache]. by rewrite page_bytes_set, decide_True.
  - intros Hj Hne. rewrite !Hx by (rewrite ?Hcount; lia). unfold io'. cbn [kv_cache fst].
    rewrite page_bytes_set, decide_False by lia. done.
Qed.

(** A page is refused before the tensor is touched. *)
Lemma import_refused io b p :
  num_eq (NInt (Z.of_nat (length p))) (layout_nbytes (io_layout io)) = false ∨ ¬ (0 <= b < page_count io) →
  ∃ e, import_page b p io = (inl e, io).
Proof.
  intros Hno. unfold import_page, page_target, mbind, M_bind, getS.
  destruct (num_eq _ _) eqn:E; cbn [negb raise_if raise mret M_ret]; [|by eexists].
  destruct ((0 <=? b) && (b <? page_count io)) eqn:Eb; cbn [negb raise_if raise mret M_ret]; [|by eexists].
  exfalso. breflect. destruct Hno; [done|lia].
Qed.
End tensor.

(** ** The page store *)
(** A coordinator whose writes are read back. *)
Class LawfulCoordinator (C : Type) `{PageCoordinator C} := {
  co_view : C → gmap string bytes;
  co_put_law k v c : wp (co_put k v) (λ _ c', co_view c' = <[k := v]> (co_view c)) (λ _ _, True) c;
  co_get_law k c : wp (co_get k) (λ r c', r = co_view c !! k ∧ co_view c' = co_view c) (λ _ _, True) c
}.

Section store.
Context `{FloatRepr} {C : Type} `{LawfulCoordinator C}.

(** A page put in the store is got back whole by any reader that expects what
    the page says, and by no reader that expects another identity. *)
Theorem store_round_trip key m payload c c' digest rank page layout :
  metadata_ok m → Z.of_nat (length payload) <= default_max_payload_bytes →
  store_put key m payload c = (inr tt, c') →
  (expects m digest rank page layout →
   wp (store_get key digest rank page layout) (λ r _, r = Some (mkPageRecord m payload)) (λ _ _, True) c') ∧
  (∀ d, digest = Some d → d ≠ m_identity_digest m →
   wp (store_get key digest rank page layout) (λ _ _, False) (λ _ _, True) c').
Proof.
  intros Hm Hp Hput. unfold store_put, mbind, M_bind, lift in Hput.
  destruct (encode_page m payload) as [e|blob] eqn:He; [done|].
  pose proof (co_put_law key blob c) as Hl. unfold wp in Hl. rewrite Hput in Hl.
  assert (Hget : ∀ (Q : option KVPageRecord → C → Prop),
    (∀ c'' r, decode_page blob digest rank page layout default_max_payload_bytes = inr r → Q (Some r) c'') →
    wp (store_get key digest rank page layout) Q (λ _ _, True) c').
  { intros Q HQ. unfold store_get. apply wp_bind. eapply wp_mono; [apply co_get_law| |done].
    intros r c'' [-> _]. rewrite Hl, lookup_insert_eq. apply wp_bind, wp_lift; [|done]. intros rec Hrec. by apply wp_ret, HQ. }
  assert (Hmax : 0 < default_max_payload_bytes < 2 ^ 64) by done.
  split.
  - intros Hexp. apply Hget. intros c'' r Hr.
    rewrite (decode_encoded m payload), check_compatible in Hr by done. by injection Hr as <-.
  - intros d -> Hne. apply Hget. intros c'' r Hr. rewrite (decode_encoded m payload) in Hr by done.
    apply result_bind_inr in Hr as ([] & Hc & _). apply check_compatible_inv in Hc as [Hc _]. by specialize (Hc d eq_refl).
Qed.
End store.
