(* ===== verification/ModelRunner.v ===== *)
(** * The model runner

    Models [nanovllm/engine/model_runner.py] around its tensor computations: the size
    of the KV cache, the inputs of a prefill and of a decode batch, the choice of a CUDA
    graph and its input buffers, the import and export of KV pages, and the shared memory the
    ranks call each other through. The model and the sampler are the interface
    [LanguageModel]; a tensor of integers is the list of its elements. *)
From S2P Require Import Prelude Json Blake2b Qos Sequence StorageBackend KvPage.
Set Default Goal Selector "!".

(** ** The size of the cache *)
Definition resolve_kv_cache_blocks (available_blocks : Z) (requested_blocks : option Z) : result Z :=
  throw_if (available_blocks <=? 0)%Z (RuntimeError "no GPU memory is available for the KV cache");;
  match requested_blocks with
  | None => mret available_blocks
  | Some requested =>
      throw_if (requested <=? 0)%Z (ValueError "requested KV cache block limit must be positive");;
      throw_if (available_blocks <? requested)%Z
        (ValueError ("requested KV cache block limit exceeds available capacity: requested=" +:+ str_int requested
                     +:+ ", available=" +:+ str_int available_blocks));;
      mret requested
  end.

(** What [allocate_kv_cache] reads of the GPU and of the model's configuration. *)
Record GpuMemory := mkGpuMemory { gm_free : Z; gm_total : Z; gm_peak : Z; gm_current : Z }.
Record ModelShape := mkModelShape {
  ms_num_hidden_layers : Z;
  ms_num_key_value_heads : Z;
  ms_head_dim : Z;
  ms_dtype_itemsize : Z
}.
Definition kv_block_bytes (h : ModelShape) (block_size world_size : Z) : Z :=
  (2 * ms_num_hidden_layers h * block_size * (ms_num_key_value_heads h / world_size) * ms_head_dim h
   * ms_dtype_itemsize h)%Z.
Definition kv_budget_bytes (g : GpuMemory) (gpu_memory_utilization : Q) : Z :=
  let used := (gm_total g - gm_free g)%Z in
  py_int (inject_Z (gm_total g) * gpu_memory_utilization - inject_Z used - inject_Z (gm_peak g) + inject_Z (gm_current g)).
(** [allocate_kv_cache]: [config.num_kvcache_blocks] *)
Definition allocate_kv_blocks (g : GpuMemory) (h : ModelShape) (block_size world_size : Z) (gpu_memory_utilization : Q)
    (num_kvcache_blocks_override : option Z) : result Z :=
  throw_if (world_size =? 0)%Z (ZeroDivisionError "integer division or modulo by zero");;
  let block_bytes := kv_block_bytes h block_size world_size in
  throw_if (block_bytes =? 0)%Z (ZeroDivisionError "integer division or modulo by zero");;
  resolve_kv_cache_blocks (kv_budget_bytes g gpu_memory_utilization / block_bytes)%Z num_kvcache_blocks_override.

(** [warmup_model]: the requests of the warm-up run; [counter] is [Sequence.counter]. *)
Definition warmup_sequences (counter max_num_batched_tokens max_model_len max_num_seqs : nat) : result (list Sequence) :=
  let seq_len := Nat.min max_num_batched_tokens max_model_len in
  throw_if (seq_len =? 0) (ZeroDivisionError "integer division or modulo by zero");;
  let num_seqs := Nat.min (max_num_batched_tokens / seq_len) max_num_seqs in
  mapR (λ k, s ← sequence_init (counter + k) (replicate seq_len 0%Z) None None None;
             mret (s <| num_scheduled_tokens := seq_len |>)) (seq 0 num_seqs).

(** ** Inputs *)
(** [torch.tensor(l, dtype=torch.int32)] *)
Definition int32 (l : list Z) : result (list Z) :=
  throw_if (existsb (λ x, (x <? -2 ^ 31) || (2 ^ 31 <=? x))%Z l)
    (RuntimeError "value cannot be converted to type int32_t without overflow");;
  mret l.
Definition int64 (l : list Z) : result (list Z) :=
  throw_if (existsb (λ x, (x <? -2 ^ 63) || (2 ^ 63 <=? x))%Z l) (RuntimeError "Overflow when unpacking long long");;
  mret l.
Definition int32s (l : list nat) : result (list Z) := int32 (Z.of_nat <$> l).
Definition int64s (l : list nat) : result (list Z) := int64 (Z.of_nat <$> l).

(** [Context] of [utils/context.py] *)
Record AttentionContext := mkContext {
  cx_is_prefill : bool;
  cx_cu_seqlens_q : option (list Z);
  cx_cu_seqlens_k : option (list Z);
  cx_max_seqlen_q : nat;
  cx_max_seqlen_k : nat;
  cx_slot_mapping : option (list Z);
  cx_context_lens : option (list Z);
  cx_block_tables : option (list (list Z))
}.
Definition default_context : AttentionContext := mkContext false None None 0 0 None None None.

(** [max(l)] *)
Definition nat_max (l : list nat) : result nat :=
  match l with
  | [] => throw (ValueError "max() iterable argument is empty")
  | x :: l => mret (foldl Nat.max x l)
  end.
Definition prepare_block_tables (seqs : list Sequence) : result (list (list Z)) :=
  max_len ← nat_max ((λ s, length (block_table s)) <$> seqs);
  mapR (λ s, int32 ((Z.of_nat <$> block_table s) ++ replicate (max_len - length (block_table s)) (-1)%Z)) seqs.

(** The locals of [prepare_prefill]; the last element of [cu_seqlens_q] is kept apart. *)
Record PrefillInput := mkPrefillInput {
  pf_input_ids : list Z;
  pf_positions : list nat;
  pf_cu_seqlens_q : list nat;
  pf_cu_seqlens_k : list nat;
  pf_max_seqlen_q : nat;
  pf_max_seqlen_k : nat;
  pf_slot_mapping : list nat
}.
Definition prefill_input_init : PrefillInput := mkPrefillInput [] [] [0] [0] 0 0 [].
(** [l[-1]] of a list that starts with a zero *)
Definition last_of (l : list nat) : nat := default 0 (last l).

Section inputs.
Context (block_size : nat).

(** One iteration of the loop over a request's pages. *)
Definition page_slots (table : list nat) (start stop start_block end_block i : nat) : result (list nat) :=
  page ← py_nth table (Z.of_nat i);
  let slot_start := page * block_size in
  let slot_start := if i =? start_block then slot_start + start mod block_size else slot_start in
  let slot_end := if negb (i =? end_block - 1) then page * block_size + block_size
                  else page * block_size + stop - i * block_size in
  mret (seq slot_start (slot_end - slot_start)).
Definition prefill_slots (table : list nat) (start stop : nat) : result (list nat) :=
  throw_if (block_size =? 0) (ZeroDivisionError "integer division or modulo by zero");;
  let start_block := start / block_size in
  let end_block := (stop + block_size - 1) / block_size in
  slots ← mapR (page_slots table start stop start_block end_block) (seq start_block (end_block - start_block));
  mret (concat slots).

(** One iteration of the loop over the requests. *)
Definition prefill_one (p : PrefillInput) (s : Sequence) : result PrefillInput :=
  let start := num_cached_tokens s in
  let seqlen_q := num_scheduled_tokens s in
  let stop := start + seqlen_q in
  let seqlen_k := stop in
  slots ← (if bool_decide (block_table s = []) then mret [] else prefill_slots (block_table s) start stop);
  mret {|
    pf_input_ids := pf_input_ids p ++ slice start stop (token_ids s);
    pf_positions := pf_positions p ++ seq start (stop - start);
    pf_cu_seqlens_q := pf_cu_seqlens_q p ++ [last_of (pf_cu_seqlens_q p) + seqlen_q];
    pf_cu_seqlens_k := pf_cu_seqlens_k p ++ [last_of (pf_cu_seqlens_k p) + seqlen_k];
    pf_max_seqlen_q := Nat.max seqlen_q (pf_max_seqlen_q p);
    pf_max_seqlen_k := Nat.max seqlen_k (pf_max_seqlen_k p);
    pf_slot_mapping := pf_slot_mapping p ++ slots |}.
Fixpoint prefill_each (p : PrefillInput) (seqs : list Sequence) : result PrefillInput :=
  match seqs with
  | [] => mret p
  | s :: seqs => p ← prefill_one p s; prefill_each p seqs
  end.

(** The inputs of the model: token ids, positions, and the context. *)
Definition ModelInput : Type := list Z * list Z * AttentionContext.
Definition prepare_prefill (seqs : list Sequence) : result ModelInput :=
  p ← prefill_each prefill_input_init seqs;
  tables ← (if last_of (pf_cu_seqlens_q p) <? last_of (pf_cu_seqlens_k p)
            then t ← prepare_block_tables seqs; mret (Some t) else mret None);
  input_ids ← int64 (pf_input_ids p);
  positions ← int64s (pf_positions p);
  cu_q ← int32s (pf_cu_seqlens_q p);
  cu_k ← int32s (pf_cu_seqlens_k p);
  slots ← int32s (pf_slot_mapping p);
  mret (input_ids, positions,
        mkContext true (Some cu_q) (Some cu_k) (pf_max_seqlen_q p) (pf_max_seqlen_k p) (Some slots) None tables).

(** [prepare_decode] *)
Definition decode_slot (s : Sequence) : result Z :=
  page ← py_nth (block_table s) (-1);
  mret (Z.of_nat (page * block_size + last_block_num_tokens block_size s) - 1)%Z.
Definition prepare_decode (seqs : list Sequence) : result ModelInput :=
  slots ← mapR decode_slot seqs;
  input_ids ← int64 (last_token <$> seqs);
  positions ← int64 ((λ s, Z.of_nat (num_tokens s) - 1)%Z <$> seqs);
  slots ← int32 slots;
  lens ← int32s (attention_context_tokens <$> seqs);
  tables ← prepare_block_tables seqs;
  mret (input_ids, positions, mkContext false None None 0 0 (Some slots) (Some lens) (Some tables)).
End inputs.
Definition prepare_sample (seqs : list Sequence) : list Q := temperature <$> seqs.

(** ** Running the model *)
(** [hidden], [logits]: a row per token; [T] is the KV cache. *)
Class LanguageModel (T H L : Type) := {
  forward : AttentionContext → list Z → list Z → T → list H * T;
  compute_logits : AttentionContext → list H → list L;
  sampler : list L → list Q → list Z
}.

(** The buffers the CUDA graphs read. *)
Record GraphVars := mkGraphVars {
  gv_input_ids : list Z;
  gv_positions : list Z;
  gv_slot_mapping : list Z;
  gv_context_lens : list Z;
  gv_block_tables : list (list Z)
}.
Record ModelRunner (T : Type) := mkModelRunner {
  mr_block_size : nat;
  mr_enforce_eager : bool;
  mr_rank : Z;
  mr_page_io : TorchKVPageIO T;
  mr_graph_bs : list nat;
  mr_graph_vars : GraphVars
}.
Arguments mkModelRunner {T}.
Arguments mr_block_size {T}.
Arguments mr_enforce_eager {T}.
Arguments mr_rank {T}.
Arguments mr_page_io {T}.
Arguments mr_graph_bs {T}.
Arguments mr_graph_vars {T}.
#[export] Instance ModelRunner_eta {T} : RecordEta (ModelRunner T) := λ r, {|
  mr_block_size := mr_block_size r; mr_enforce_eager := mr_enforce_eager r; mr_rank := mr_rank r;
  mr_page_io := mr_page_io r; mr_graph_bs := mr_graph_bs r; mr_graph_vars := mr_graph_vars r |}.
#[export] Instance set_mr_page_io {T} : Setter (@mr_page_io T) := ltac:(derive_setter).
#[export] Instance set_mr_graph_bs {T} : Setter (@mr_graph_bs T) := ltac:(derive_setter).
#[export] Instance set_mr_graph_vars {T} : Setter (@mr_graph_vars T) := ltac:(derive_setter).

(** [capture_cudagraph]: the batch sizes captured, and the buffers *)
Definition graph_max_bs (max_num_seqs : nat) : nat := Nat.min max_num_seqs 512.
Definition graph_sizes (max_num_seqs : nat) : list nat :=
  [1; 2; 4; 8] ++ ((λ k, 16 * S k) <$> seq 0 (graph_max_bs max_num_seqs / 16)).
Definition graph_buffers (max_num_seqs max_model_len block_size : nat) : GraphVars :=
  let max_bs := graph_max_bs max_num_seqs in
  let max_num_blocks := (max_model_len + block_size - 1) / block_size in
  mkGraphVars (replicate max_bs 0%Z) (replicate max_bs 0%Z) (replicate max_bs 0%Z) (replicate max_bs 0%Z)
    (replicate max_bs (replicate max_num_blocks 0%Z)).
(** [next(x for x in self.graph_bs if x >= bs)] *)
Definition choose_graph (graph_bs : list nat) (bs : nat) : result nat :=
  match list_find (λ x, bs <= x) graph_bs with Some (_, x) => mret x | None => throw StopIteration end.

(** [v[:len(l)] = l] *)
Definition assign_prefix (v l : list Z) : result (list Z) :=
  throw_if (length v <? length l) (RuntimeError "The expanded size of the tensor must match the existing size");;
  mret (l ++ drop (length l) v).
Definition assign_rows (v l : list (list Z)) : result (list (list Z)) :=
  throw_if (length v <? length l) (RuntimeError "The expanded size of the tensor must match the existing size");;
  rows ← mapR (λ vl, assign_prefix vl.1 vl.2) (zip v l);
  mret (rows ++ drop (length l) v).

Section runner.
Context {T H L : Type} `{KvTensor T} `{LanguageModel T H L} `{FloatRepr}.
Abbreviation MN := (M (ModelRunner T)).

(** The buffers before [graph.replay()] *)
Definition fill_graph (g : GraphVars) (inp : ModelInput) : result GraphVars :=
  let '(input_ids, positions, cx) := inp in
  ids ← assign_prefix (gv_input_ids g) input_ids;
  pos ← assign_prefix (gv_positions g) positions;
  slots ← assign_prefix (replicate (length (gv_slot_mapping g)) (-1)%Z) (default [] (cx_slot_mapping cx));
  lens ← assign_prefix (replicate (length (gv_context_lens g)) 0%Z) (default [] (cx_context_lens cx));
  tables ← assign_rows (gv_block_tables g) (default [] (cx_block_tables cx));
  mret (mkGraphVars ids pos slots lens tables).
(** The context [capture_cudagraph] recorded for the graph of size [x]. *)
Definition graph_context (g : GraphVars) (x : nat) : AttentionContext :=
  mkContext false None None 0 0 (Some (take x (gv_slot_mapping g))) (Some (take x (gv_context_lens g)))
    (Some (take x (gv_block_tables g))).
(** A pass of the model over the cache *)
Definition forward_pass (cx : AttentionContext) (input_ids positions : list Z) : MN (list H) :=
  r ← getS;
  let '(hidden, cache) := forward cx input_ids positions (kv_cache (mr_page_io r)) in
  putS (r <| mr_page_io := mkPageIO cache (io_layout (mr_page_io r)) |>);;
  mret hidden.
Definition run_model (inp : ModelInput) (is_prefill : bool) : MN (list L) :=
  let '(input_ids, positions, cx) := inp in
  r ← getS;
  if is_prefill || mr_enforce_eager r || (512 <? length input_ids) then
    hidden ← forward_pass cx input_ids positions;
    mret (compute_logits (T := T) cx hidden)
  else
    let bs := length input_ids in
    x ← lift (choose_graph (mr_graph_bs r) bs);
    g ← lift (fill_graph (mr_graph_vars r) inp);
    putS (r <| mr_graph_vars := g |>);;
    outputs ← forward_pass (graph_context g x) (take x (gv_input_ids g)) (take x (gv_positions g));
    mret (compute_logits (T := T) cx (take bs outputs)).
(** [run], on the first rank *)
Definition run (seqs : list Sequence) (is_prefill : bool) : MN (list Z) :=
  r ← getS;
  inp ← lift (if is_prefill then prepare_prefill (mr_block_size r) seqs else prepare_decode (mr_block_size r) seqs);
  logits ← run_model inp is_prefill;
  mret (sampler (T := T) (H := H) logits (prepare_sample seqs)).

(** ** Pages *)
Definition on_page_io {A} (m : M (TorchKVPageIO T) A) : MN A := λ r,
  match m (mr_page_io r) with (x, io) => (x, r <| mr_page_io := io |>) end.
Definition export_kv_page (block_id : nat) (identity_digest : string) (page_index : Z) : MN bytes :=
  payload ← on_page_io (export_page (Z.of_nat block_id));
  r ← getS;
  m ← lift (kv_page_metadata (mkMetadata identity_digest (NInt (mr_rank r)) (NInt page_index) (io_layout (mr_page_io r))));
  lift (encode_page m payload).
Definition import_kv_page (block_id : nat) (envelope : bytes) (identity_digest : string) (page_index : Z) : MN nat :=
  r ← getS;
  record ← lift (decode_page envelope (Some identity_digest) (Some (mr_rank r)) (Some page_index)
                   (Some (io_layout (mr_page_io r))) default_max_payload_bytes);
  on_page_io (import_page (Z.of_nat block_id) (r_payload record));;
  mret (length (r_payload record)).
End runner.

(** ** The shared memory of the ranks *)
(** [pickle.dumps] and [pickle.loads] of a method name and its arguments *)
Class Pickle (A : Type) := { pickle_dumps : string * A → bytes; pickle_loads : bytes → result (string * A) }.
Class LawfulPickle (A : Type) `{Pickle A} := {
  pickle_bytes x : Forall byte_ok (pickle_dumps x);
  pickle_round x : pickle_loads (pickle_dumps x) = inr x
}.
Section shm.
Context {A : Type} `{Pickle A}.
(** [buf[i:j] = l] on a buffer of fixed size *)
Definition assign_slice (i : nat) (l buf : bytes) : result bytes :=
  throw_if (length buf <? i + length l) (ValueError "memoryview assignment: lvalue and rvalue have different structures");;
  mret (take i buf ++ l ++ drop (i + length l) buf).
(** [write_shm]; the event of each rank is set after it. *)
Definition write_shm (call : string * A) : M bytes () :=
  let data := pickle_dumps call in
  let n := length data in
  raise_if (2 ^ 32 <=? Z.of_nat n)%Z (OverflowError "int too big to convert");;
  buf ← getS;
  buf ← lift (assign_slice 0 (le_bytes 4 (Z.of_nat n)) buf);
  putS buf;;
  buf ← lift (assign_slice 4 data buf);
  putS buf.
Definition read_shm (buf : bytes) : result (string * A) :=
  let n := of_le_bytes (slice 0 4 buf) in
  pickle_loads (slice 4 (Z.to_nat n + 4) buf).
End shm.
