(* ===== verification/ModelRunnerSpec.v ===== *)
(** * The model runner: what its inputs address

    A prefill and a decode batch of the scheduler write each token's keys and values to the slot of
    its position in the request's own pages; no tensor overflows; a CUDA graph exists
    for every batch when the request limit is a multiple of 16, and not in general; the cache
    fits the memory it was sized for; an exported page is imported back; and a call reaches the other
    ranks. *)
From S2P Require Import Prelude Json Blake2b Qos Sequence StorageBackend KvPage KvPageSpec ModelRunner.
Set Default Goal Selector "!".

(** ** Slots *)
(** Where the KV cache keeps the token at position [p] of a request. *)
Definition kv_slot (bs : nat) (table : list nat) (p : nat) : nat := default 0 (table !! (p / bs)) * bs + p mod bs.

Lemma fmap_seq_shift (f : nat → nat) a b n : (∀ k, k < n → f (b + k) = a + k) → f <$> seq b n = seq a n.
Proof.
  revert a b. induction n as [|n IH]; intros a b Hf; [done|]. cbn [seq]. rewrite fmap_cons. f_equal.
  - rewrite <-(Nat.add_0_r b), Hf; lia.
  - apply IH. intros k Hk. rewrite Nat.add_succ_l, <-Nat.add_succ_r, Hf; lia.
Qed.
Lemma div_between bs i p : i * bs <= p < S i * bs → p / bs = i ∧ p mod bs = p - i * bs.
Proof.
  intros Hp. assert (E : p = bs * i + (p - i * bs)) by lia. split.
  - symmetry. by apply (Nat.div_unique p bs i (p - i * bs)); [lia|].
  - symmetry. by apply (Nat.mod_unique p bs i (p - i * bs)); [lia|].
Qed.
Lemma ceil_after bs stop i : 0 < bs → i * bs < stop → i < (stop + bs - 1) / bs.
Proof. intros Hbs Hs. apply Nat.div_le_lower_bound; lia. Qed.
Lemma ceil_last bs stop i : 0 < bs → i = (stop + bs - 1) / bs - 1 → 0 < stop → i * bs < stop <= S i * bs.
Proof.
  intros Hbs -> Hs. pose proof (Nat.div_mod (stop + bs - 1) bs ltac:(lia)) as Hd.
  pose proof (Nat.mod_upper_bound (stop + bs - 1) bs ltac:(lia)) as Hm. set (q := (stop + bs - 1) / bs) in *.
  destruct q as [|q]; [lia|]. cbn [Nat.sub]. rewrite Nat.sub_0_r. nia.
Qed.

Lemma mapR_ext {A B} (f g : A → result B) l : (∀ x, x ∈ l → f x = g x) → mapR f l = mapR g l.
Proof.
  induction l as [|x l IH]; intros Hfg; [done|]. cbn. rewrite Hfg by by left. rewrite IH; [done|]. intros y Hy. apply Hfg. by right.
Qed.

Section slots.
Context (bs : nat) (table : list nat) (stop : nat) (Hbs : 0 < bs) (Hcov : stop <= length table * bs).
Abbreviation end_block := ((stop + bs - 1) / bs).

(** The slots of one page. *)
Lemma page_slots_run start : start < stop →
  let i := start / bs in let hi := Nat.min stop (S i * bs) in
  page_slots bs table start stop i end_block i = inr (kv_slot bs table <$> seq start (hi - start)).
Proof.
  intros Hlt. cbv zeta. set (i := start / bs). set (hi := Nat.min stop (S i * bs)).
  pose proof (Nat.div_mod start bs ltac:(lia)) as Hd. pose proof (Nat.mod_upper_bound start bs ltac:(lia)) as Hm. fold i in Hd.
  destruct (lookup_lt_is_Some_2 table i) as [page Hpage]; [nia|].
  unfold page_slots. rewrite (py_nth_Some _ _ _ Hpage). cbn [mbind result_bind]. rewrite Nat.eqb_refl. cbv zeta. f_equal.
  symmetry. assert (Hend : (if negb (i =? end_block - 1) then page * bs + bs else page * bs + stop - i * bs) = page * bs + (hi - i * bs)).
  { destruct (i =? end_block - 1) eqn:E; cbn [negb]; breflect.
    - pose proof (ceil_last bs stop i Hbs E ltac:(lia)). unfold hi. lia.
    - assert (Hin : i < end_block) by (apply ceil_after; lia). assert (Hi : S i * bs < stop); [|unfold hi; lia].
      pose proof (ceil_last bs stop (end_block - 1) Hbs eq_refl ltac:(lia)). nia. }
  rewrite Hend. replace (page * bs + (hi - i * bs) - (page * bs + start mod bs)) with (hi - start) by lia.
  apply fmap_seq_shift. intros k Hk. destruct (div_between bs i (start + k)) as [E1 E2]; [unfold hi in Hk; lia|].
  unfold kv_slot. rewrite E1, E2, Hpage. cbn. lia.
Qed.
(** After the first page, the loop is that of a later start. *)
Lemma page_slots_later start i j : i <= j → start / bs < i →
  page_slots bs table start stop (start / bs) end_block j = page_slots bs table (i * bs) stop i end_block j.
Proof.
  intros Hij Hi. unfold page_slots. destruct (py_nth table (Z.of_nat j)) as [e|page]; [done|]. cbn [mbind result_bind].
  rewrite (proj2 (Nat.eqb_neq j (start / bs))) by lia. destruct (j =? i); [|done].
  by rewrite Nat.Div0.mod_mul, Nat.add_0_r.
Qed.

Lemma slots_from n : ∀ start, start < stop → n = end_block - start / bs →
  ∃ ls, mapR (page_slots bs table start stop (start / bs) end_block) (seq (start / bs) n) = inr ls ∧
    concat ls = kv_slot bs table <$> seq start (stop - start).
Proof.
  induction n as [|n IH]; intros start Hlt Hn.
  { exfalso. pose proof (Nat.Div0.mul_div_le start bs). pose proof (ceil_after bs stop (start / bs) Hbs ltac:(lia)). lia. }
  cbn [seq mapR]. rewrite page_slots_run by done. cbn [mbind result_bind]. set (i := start / bs). set (hi := Nat.min stop (S i * bs)).
  pose proof (Nat.div_mod start bs ltac:(lia)) as Hd. pose proof (Nat.mod_upper_bound start bs ltac:(lia)) as Hm. fold i in Hd, Hn.
  destruct (decide (S i * bs < stop)) as [Hmore|Hlast].
  - destruct (IH (S i * bs) Hmore) as (ls & Hls & Hc); [rewrite Nat.div_mul by lia; lia|].
    rewrite Nat.div_mul in Hls by lia. exists ((kv_slot bs table <$> seq start (hi - start)) :: ls). split.
    + assert (E : mapR (page_slots bs table start stop i end_block) (seq (S i) n) = inr ls); [|by rewrite E].
      rewrite <-Hls. apply mapR_ext. intros j Hj. apply elem_of_seq in Hj. apply page_slots_later; [lia|unfold i; lia].
    + cbn [concat]. rewrite Hc, <-fmap_app. f_equal. unfold hi. rewrite Nat.min_r by lia.
      replace (seq (S i * bs)) with (seq (start + (S i * bs - start))) by (f_equal; lia). rewrite <-seq_app. f_equal. lia.
  - assert (n = 0) as ->.
    { assert (end_block <= S i); [|lia]. assert (end_block < S (S i)); [|lia]. apply Nat.Div0.div_lt_upper_bound. lia. }
    eexists. split; [reflexivity|]. cbn [concat]. rewrite app_nil_r. unfold hi. by rewrite Nat.min_l by lia.
Qed.
Lemma prefill_slots_run start : start < stop →
  prefill_slots bs table start stop = inr (kv_slot bs table <$> seq start (stop - start)).
Proof.
  intros Hlt. unfold prefill_slots. apply throw_if_bind; [apply Nat.eqb_neq; lia|]. cbv zeta.
  destruct (slots_from _ start Hlt eq_refl) as (ls & -> & Hc). cbn [mbind result_bind]. by rewrite Hc.
Qed.
End slots.

(** ** Tensors *)
Lemma int32_fits l : Forall (λ x, -2 ^ 31 <= x < 2 ^ 31)%Z l → int32 l = inr l.
Proof.
  intros Hl. unfold int32. apply throw_if_bind; [|done]. apply not_true_iff_false. intros (x & Hx & Hb)%existsb_exists.
  rewrite Forall_forall in Hl. specialize (Hl x (proj2 (list_elem_of_In _ _) Hx)). breflect. destruct Hb; breflect; lia.
Qed.
Lemma int64_fits l : Forall (λ x, -2 ^ 63 <= x < 2 ^ 63)%Z l → int64 l = inr l.
Proof.
  intros Hl. unfold int64. apply throw_if_bind; [|done]. apply not_true_iff_false. intros (x & Hx & Hb)%existsb_exists.
  rewrite Forall_forall in Hl. specialize (Hl x (proj2 (list_elem_of_In _ _) Hx)). breflect. destruct Hb; breflect; lia.
Qed.
Lemma int32s_fits l : Forall (λ x, Z.of_nat x < 2 ^ 31)%Z l → int32s l = inr (Z.of_nat <$> l).
Proof. intros Hl. apply int32_fits, Forall_fmap. eapply Forall_impl; [exact Hl|]. intros x Hx. cbn in *. lia. Qed.
Lemma int64s_fits l : Forall (λ x, Z.of_nat x < 2 ^ 31)%Z l → int64s l = inr (Z.of_nat <$> l).
Proof. intros Hl. apply int64_fits, Forall_fmap. eapply Forall_impl; [exact Hl|]. intros x Hx. cbn in *. lia. Qed.

Lemma foldl_max_bound l x y : y ∈ x :: l → y <= foldl Nat.max x l.
Proof.
  revert x y. induction l as [|z l IH]; intros x y Hy; cbn.
  - apply list_elem_of_singleton in Hy. by subst.
  - apply elem_of_cons in Hy as [->|Hy]; [transitivity (Nat.max x z); [lia|apply IH; by left]|].
    apply elem_of_cons in Hy as [->|Hy]; [transitivity (Nat.max x z); [lia|apply IH; by left]|apply IH; by right].
Qed.
(** The rows of [prepare_block_tables]: every table, padded with -1 to the longest. *)
Definition padded_tables (width : nat) (seqs : list Sequence) : list (list Z) :=
  (λ s, (Z.of_nat <$> block_table s) ++ replicate (width - length (block_table s)) (-1)%Z) <$> seqs.
Definition pages_fit (n : nat) (s : Sequence) : Prop := Forall (λ b, b < n) (block_table s).
Lemma prepare_block_tables_run n seqs :
  seqs ≠ [] → (Z.of_nat n <= 2 ^ 31)%Z → Forall (pages_fit n) seqs →
  ∃ width, prepare_block_tables seqs = inr (padded_tables width seqs) ∧ Forall (λ s, length (block_table s) <= width) seqs.
Proof.
  intros Hne Hn Hp. unfold prepare_block_tables. destruct seqs as [|s0 l]; [done|]. cbn [fmap list_fmap nat_max mbind result_bind].
  set (width := foldl Nat.max _ _). exists width. split.
  - unfold padded_tables. apply mapR_inr, Forall2_fmap_r, Forall_Forall2_diag. eapply Forall_impl; [exact Hp|]. intros s Hs.
    apply int32_fits, Forall_app. split; [|apply Forall_replicate; lia]. apply Forall_fmap. eapply Forall_impl; [exact Hs|].
    intros b Hb. cbn in *. lia.
  - apply Forall_forall. intros s Hs. apply foldl_max_bound.
    change (length (block_table s) ∈ (λ s, length (block_table s)) <$> s0 :: l).
    apply list_elem_of_fmap. by exists s.
Qed.

(** ** A prefill batch *)
(** A scheduled request: it owns pages for the tokens it computes. *)
Record addressable (bs n : nat) (s : Sequence) : Prop := {
  ad_some : 0 < num_scheduled_tokens s;
  ad_cover : num_cached_tokens s + num_scheduled_tokens s <= length (block_table s) * bs;
  ad_pages : pages_fit n s;
  ad_tokens : Forall (λ t, -2 ^ 63 <= t < 2 ^ 63)%Z (token_ids s)
}.
Definition span_stop (s : Sequence) : nat := num_cached_tokens s + num_scheduled_tokens s.
(** The positions a request computes, and their slots. *)
Definition span (s : Sequence) : list nat := seq (num_cached_tokens s) (num_scheduled_tokens s).
Definition span_slots (bs : nat) (s : Sequence) : list nat := kv_slot bs (block_table s) <$> span s.
Definition span_tokens (s : Sequence) : list Z := slice (num_cached_tokens s) (span_stop s) (token_ids s).
Fixpoint running_sums (a : nat) (l : list nat) : list nat :=
  match l with [] => [] | x :: l => (a + x) :: running_sums (a + x) l end.

Lemma kv_slot_bound bs n table p : 0 < bs → p < length table * bs → Forall (λ b, b < n) table → kv_slot bs table p < n * bs.
Proof.
  intros Hbs Hp Ht. pose proof (Nat.mod_upper_bound p bs ltac:(lia)).
  destruct (lookup_lt_is_Some_2 table (p / bs)) as [b Hb]; [apply Nat.Div0.div_lt_upper_bound; lia|].
  rewrite Forall_lookup in Ht. specialize (Ht _ _ Hb). unfold kv_slot. rewrite Hb. cbn. nia.
Qed.
Lemma last_of_snoc l x : last_of (l ++ [x]) = x.
Proof. unfold last_of. by rewrite last_snoc. Qed.
Lemma last_of_sums a l : last_of (a :: running_sums a l) = a + nsum l.
Proof.
  revert a. induction l as [|x l IH]; intros a; cbn [running_sums]; [unfold last_of, nsum; cbn; lia|].
  transitivity (last_of ((a + x) :: running_sums (a + x) l)); [done|]. rewrite IH. unfold nsum. cbn. lia.
Qed.
Lemma running_sums_bound a l x : x ∈ running_sums a l → x <= a + nsum l.
Proof.
  revert a. induction l as [|y l IH]; intros a; cbn; [by intros ?%not_elem_of_nil|].
  intros [->|Hx]%elem_of_cons; [lia|]. specialize (IH _ Hx). unfold nsum in *. lia.
Qed.

Lemma prefill_one_run bs n p s : 0 < bs → addressable bs n s →
  ∃ q k, prefill_one bs p s = inr (mkPrefillInput (pf_input_ids p ++ span_tokens s) (pf_positions p ++ span s)
    (pf_cu_seqlens_q p ++ [last_of (pf_cu_seqlens_q p) + num_scheduled_tokens s])
    (pf_cu_seqlens_k p ++ [last_of (pf_cu_seqlens_k p) + span_stop s]) q k
    (pf_slot_mapping p ++ span_slots bs s)).
Proof.
  intros Hbs [A1 A2 A3 A4]. unfold prefill_one. rewrite bool_decide_eq_false_2 by (intros E; rewrite E in A2; cbn in A2; lia).
  rewrite prefill_slots_run by (done || lia). cbn [mbind result_bind]. cbv zeta.
  replace (num_cached_tokens s + num_scheduled_tokens s - num_cached_tokens s) with (num_scheduled_tokens s) by lia. by do 2 eexists.
Qed.
Lemma prefill_each_run bs n seqs : 0 < bs → Forall (addressable bs n) seqs → ∀ p,
  ∃ q k, prefill_each bs p seqs = inr (mkPrefillInput (pf_input_ids p ++ concat (span_tokens <$> seqs))
    (pf_positions p ++ concat (span <$> seqs))
    (pf_cu_seqlens_q p ++ running_sums (last_of (pf_cu_seqlens_q p)) (num_scheduled_tokens <$> seqs))
    (pf_cu_seqlens_k p ++ running_sums (last_of (pf_cu_seqlens_k p)) (span_stop <$> seqs)) q k
    (pf_slot_mapping p ++ concat (span_slots bs <$> seqs))).
Proof.
  intros Hbs. induction 1 as [|s seqs Hs _ IH]; intros p.
  - destruct p. cbn. rewrite !app_nil_r. by do 2 eexists.
  - cbn [prefill_each]. destruct (prefill_one_run bs n p s Hbs Hs) as (q & k & ->). cbn [mbind result_bind].
    match goal with |- context [prefill_each bs ?p' seqs] => destruct (IH p') as (q' & k' & ->) end.
    exists q', k'. cbn [pf_input_ids pf_positions pf_cu_seqlens_q pf_cu_seqlens_k pf_slot_mapping]. rewrite !fmap_cons, !last_of_snoc. cbn [concat running_sums].
    by rewrite <-!app_assoc.
Qed.
Lemma nsum_in l x : x ∈ l → x <= nsum l.
Proof. induction l as [|y l IH]; [by intros ?%not_elem_of_nil|]. unfold nsum in *. cbn. intros [->|Hx]%elem_of_cons; [lia|]. specialize (IH Hx). lia. Qed.

Lemma prepare_prefill_run bs n seqs :
  0 < bs → seqs ≠ [] → Forall (addressable bs n) seqs →
  (Z.of_nat (n * bs) <= 2 ^ 31)%Z → (Z.of_nat (nsum (span_stop <$> seqs)) < 2 ^ 31)%Z →
  ∃ q k width, prepare_prefill bs seqs = inr (concat (span_tokens <$> seqs), Z.of_nat <$> concat (span <$> seqs),
    mkContext true (Some (Z.of_nat <$> 0 :: running_sums 0 (num_scheduled_tokens <$> seqs)))
      (Some (Z.of_nat <$> 0 :: running_sums 0 (span_stop <$> seqs))) q k
      (Some (Z.of_nat <$> concat (span_slots bs <$> seqs))) None
      (if existsb (λ s, negb (num_cached_tokens s =? 0)) seqs then Some (padded_tables width seqs) else None)).
Proof.
  intros Hbs Hne Had Hcap Hsum. unfold prepare_prefill. destruct (prefill_each_run bs n seqs Hbs Had prefill_input_init) as (q & k & ->).
  cbn [mbind result_bind pf_input_ids pf_positions pf_cu_seqlens_q pf_cu_seqlens_k pf_slot_mapping pf_max_seqlen_q pf_max_seqlen_k prefill_input_init app].
  change (last_of [0]) with 0. rewrite !last_of_sums.
  assert (Hle : Forall (λ s, num_scheduled_tokens s <= span_stop s) seqs) by (apply Forall_true; intros s; unfold span_stop; lia).
  assert (Hq : nsum (num_scheduled_tokens <$> seqs) <= nsum (span_stop <$> seqs) ∧
    ((0 + nsum (num_scheduled_tokens <$> seqs) <? 0 + nsum (span_stop <$> seqs)) = existsb (λ s, negb (num_cached_tokens s =? 0)) seqs)).
  { clear. induction seqs as [|s seqs [IH1 IH2]]; [done|]. rewrite !fmap_cons. cbn [existsb]. unfold nsum in *. cbn [foldr].
    assert (Es : span_stop s = num_cached_tokens s + num_scheduled_tokens s) by done. split; [lia|]. rewrite <-IH2.
    destruct (num_cached_tokens s =? 0) eqn:E; cbn [negb orb]; breflect; [|apply Nat.ltb_lt; lia].
    apply eq_bool_prop_intro. rewrite !Is_true_true, !Nat.ltb_lt. lia. }
  destruct Hq as [Hq Hcond]. rewrite Hcond.
  destruct (prepare_block_tables_run n seqs Hne) as (width & Htab & _); [nia|eapply Forall_impl; [exact Had|by intros s []]|].
  exists q, k, width.
  rewrite int64_fits. 2:{ apply Forall_concat, Forall_fmap. eapply Forall_impl; [exact Had|]. intros s Hs.
    unfold compose, span_tokens, slice. apply Forall_take, Forall_drop. apply Hs. }
  rewrite (int64s_fits (concat (span <$> seqs))). 2:{ apply Forall_concat, Forall_fmap, Forall_forall. intros s Hs. apply Forall_forall.
    intros x Hx. apply elem_of_seq in Hx. pose proof (nsum_in (span_stop <$> seqs) (span_stop s) (list_elem_of_fmap_2 _ _ _ Hs)). unfold span_stop in *. lia. }
  rewrite (int32s_fits (0 :: running_sums 0 (num_scheduled_tokens <$> seqs))).
  2:{ constructor; [lia|]. apply Forall_forall. intros x Hx%running_sums_bound. lia. }
  rewrite (int32s_fits (0 :: running_sums 0 (span_stop <$> seqs))).
  2:{ constructor; [lia|]. apply Forall_forall. intros x Hx%running_sums_bound. lia. }
  rewrite (int32s_fits (concat (span_slots bs <$> seqs))).
  2:{ apply Forall_concat, Forall_fmap. eapply Forall_impl; [exact Had|]. intros s [A1 A2 A3 A4]. unfold compose, span_slots. apply Forall_fmap, Forall_forall.
    intros x Hx. apply elem_of_seq in Hx. unfold compose. pose proof (kv_slot_bound bs n (block_table s) x Hbs ltac:(lia) A3). lia. }
  destruct (existsb _ seqs); [rewrite Htab|]; reflexivity.
Qed.

(** The pages of the blocks a request computes tokens of *)
Definition written_pages (bs : nat) (s : Sequence) : list nat := slice (num_cached_tokens s / bs) ((span_stop s + bs - 1) / bs) (block_table s).
Lemma slot_page bs n s p : 0 < bs → addressable bs n s → p ∈ span s →
  kv_slot bs (block_table s) p / bs ∈ written_pages bs s ∧
  written_pages bs s !! (p / bs - num_cached_tokens s / bs) = Some (kv_slot bs (block_table s) p / bs) ∧
  kv_slot bs (block_table s) p mod bs = p mod bs ∧ num_cached_tokens s / bs <= p / bs.
Proof.
  intros Hbs [_ A2 _ _] Hp%elem_of_seq. assert (Hlo : num_cached_tokens s / bs <= p / bs) by (apply Nat.Div0.div_le_mono; lia).
  destruct (lookup_lt_is_Some_2 (block_table s) (p / bs)) as [b Hb]; [apply Nat.Div0.div_lt_upper_bound; lia|].
  pose proof (Nat.mod_upper_bound p bs ltac:(lia)) as Hm.
  assert (E : kv_slot bs (block_table s) p = p mod bs + b * bs) by (unfold kv_slot; rewrite Hb; cbn; unfold id; lia).
  assert (Hq : kv_slot bs (block_table s) p / bs = b) by (rewrite E, Nat.div_add, Nat.div_small by lia; lia).
  assert (Hl : written_pages bs s !! (p / bs - num_cached_tokens s / bs) = Some b).
  { unfold written_pages, slice. rewrite lookup_take_lt, lookup_drop; [by replace (_ + _) with (p / bs) by lia|].
    assert (p / bs < (span_stop s + bs - 1) / bs); [|lia]. apply Nat.div_lt_upper_bound; [lia|]. unfold span_stop.
    pose proof (Nat.div_mod (num_cached_tokens s + num_scheduled_tokens s + bs - 1) bs ltac:(lia)) as D.
    pose proof (Nat.mod_upper_bound (num_cached_tokens s + num_scheduled_tokens s + bs - 1) bs ltac:(lia)). lia. }
  rewrite Hq. split_and!; [by eapply list_elem_of_lookup_2|done| |done]. rewrite E, Nat.Div0.mod_add. by apply Nat.mod_small.
Qed.
(** Different positions have different slots in pages owned once. *)
Lemma span_slots_nodup bs n s : 0 < bs → addressable bs n s → NoDup (written_pages bs s) → NoDup (span_slots bs s).
Proof.
  intros Hbs Ha Hnd. unfold span_slots. apply NoDup_fmap_2_strong; [|apply NoDup_seq]. intros p q Hp Hq E.
  destruct (slot_page bs n s p Hbs Ha Hp) as (_ & Lp & Mp & Gp). destruct (slot_page bs n s q Hbs Ha Hq) as (_ & Lq & Mq & Gq).
  rewrite <-E in Lq, Mq. pose proof (NoDup_lookup _ _ _ _ Hnd Lp Lq).
  rewrite (Nat.div_mod p bs), (Nat.div_mod q bs), <-Mp, <-Mq by lia. by replace (q / bs) with (p / bs) by lia.
Qed.
(** Nor do two requests, when they write different pages. *)
Lemma batch_slots_nodup bs n seqs : 0 < bs → Forall (addressable bs n) seqs →
  NoDup (concat (written_pages bs <$> seqs)) → NoDup (concat (span_slots bs <$> seqs)).
Proof.
  intros Hbs Ha. assert (Hin : ∀ l x, Forall (addressable bs n) l → x ∈ concat (span_slots bs <$> l) → x / bs ∈ concat (written_pages bs <$> l)).
  { induction 1 as [|s l Hs _ IH]; [by intros ?%not_elem_of_nil|]. rewrite !fmap_cons. cbn [concat]. rewrite !elem_of_app. intros [Hx|Hx]; [left|right; auto].
    apply list_elem_of_fmap in Hx as (p & -> & Hp). by apply (slot_page bs n s p). }
  induction Ha as [|s l Hs Hl IH]; [done|]. rewrite !fmap_cons. cbn [concat]. rewrite !NoDup_app. intros (H1 & H2 & H3).
  split_and!; [by apply (span_slots_nodup bs n)| |by apply IH]. intros x Hx Hx'. apply (H2 (x / bs)); [|by apply Hin].
  apply list_elem_of_fmap in Hx as (p & -> & Hp). by apply (slot_page bs n s p).
Qed.

(** C14: the inputs of a prefill batch are the tokens to compute, in order, at their positions; each one's
    keys and values go to the slot of its position in the pages of its own request; the
    boundaries of the requests are the running sums of the scheduled tokens and of the context lengths; and
    the block tables are passed exactly when some request has cached tokens. No two tokens of the batch share a slot when
    the pages its requests write are different. No conversion overflows as
    long as the cache and the batch have fewer than 2{^31} tokens. *)
Theorem prepare_prefill_addresses bs n seqs :
  0 < bs → seqs ≠ [] → Forall (addressable bs n) seqs →
  (Z.of_nat (n * bs) <= 2 ^ 31)%Z → (Z.of_nat (nsum (span_stop <$> seqs)) < 2 ^ 31)%Z →
  (∃ q k width, prepare_prefill bs seqs = inr (concat (span_tokens <$> seqs), Z.of_nat <$> concat (span <$> seqs),
    mkContext true (Some (Z.of_nat <$> 0 :: running_sums 0 (num_scheduled_tokens <$> seqs)))
      (Some (Z.of_nat <$> 0 :: running_sums 0 (span_stop <$> seqs))) q k
      (Some (Z.of_nat <$> concat (span_slots bs <$> seqs))) None
      (if existsb (λ s, negb (num_cached_tokens s =? 0)) seqs then Some (padded_tables width seqs) else None))) ∧
  (NoDup (concat (written_pages bs <$> seqs)) → NoDup (concat (span_slots bs <$> seqs))).
Proof.
  intros Hbs Hne Had Hcap Hsum. split; [by apply (prepare_prefill_run bs n)|].
  by apply (batch_slots_nodup bs n).
Qed.

(** ** A decode batch *)
(** A scheduled request: it owns a page for its last token. *)
Record decodable (n : nat) (s : Sequence) : Prop := {
  de_tokens : 0 < num_tokens s;
  de_len : (Z.of_nat (num_tokens s) < 2 ^ 31)%Z;
  de_cached : (Z.of_nat (num_physical_cached_tokens s) < 2 ^ 31 - 1)%Z;
  de_pages : pages_fit n s;
  de_owns : block_table s ≠ [];
  de_last : (-2 ^ 63 <= last_token s < 2 ^ 63)%Z
}.
(** The place of the last token in the last page. *)
Definition last_slot (bs : nat) (s : Sequence) : nat := default 0 (last (block_table s)) * bs + (num_tokens s - 1) mod bs.

Lemma py_nth_last {A} (l : list A) x : last l = Some x → py_nth l (-1) = inr x.
Proof.
  intros Hl. apply last_Some in Hl as [l' ->]. unfold py_nth. cbn [Z.ltb Z.compare]. rewrite length_app. cbn [length].
  rewrite (proj2 (Z.ltb_ge _ _)) by lia. replace (Z.to_nat _) with (length l') by lia. by rewrite list_lookup_middle.
Qed.
Lemma last_block_tokens bs s : 0 < bs → 0 < num_tokens s →
  (num_blocks bs s - 1) = (num_tokens s - 1) / bs ∧ last_block_num_tokens bs s = S ((num_tokens s - 1) mod bs).
Proof.
  intros Hbs Ht. assert (E : num_blocks bs s - 1 = (num_tokens s - 1) / bs).
  { unfold num_blocks. replace (num_tokens s + bs - 1) with (num_tokens s - 1 + 1 * bs) by lia. rewrite Nat.div_add by lia. lia. }
  split; [done|]. unfold last_block_num_tokens. rewrite E. pose proof (Nat.div_mod (num_tokens s - 1) bs ltac:(lia)). lia.
Qed.
Lemma decode_slot_run bs n s : 0 < bs → decodable n s → decode_slot bs s = inr (Z.of_nat (last_slot bs s)).
Proof.
  intros Hbs [D1 D2 D3 D4 D5 D6]. unfold decode_slot, last_slot. destruct (last (block_table s)) as [page|] eqn:El; [|by apply last_None in El].
  rewrite (py_nth_last _ _ El). cbn [mbind result_bind default]. destruct (last_block_tokens bs s Hbs D1) as [_ ->].
  cbn [mret result_ret]. f_equal. unfold id. lia.
Qed.
Lemma last_slot_is_kv_slot bs s :
  0 < bs → 0 < num_tokens s → length (block_table s) = num_blocks bs s → last_slot bs s = kv_slot bs (block_table s) (num_tokens s - 1).
Proof.
  intros Hbs Ht Hl. unfold last_slot, kv_slot. rewrite last_lookup, Hl. destruct (last_block_tokens bs s Hbs Ht) as [<- _].
  by replace (num_blocks bs s - 1) with (Init.Nat.pred (num_blocks bs s)) by lia.
Qed.
Lemma last_slot_bound bs n s : 0 < bs → decodable n s → last_slot bs s < n * bs.
Proof.
  intros Hbs [D1 D2 D3 D4 D5 D6]. unfold last_slot. destruct (last (block_table s)) as [page|] eqn:El; [|by apply last_None in El].
  pose proof (Nat.mod_upper_bound (num_tokens s - 1) bs ltac:(lia)). unfold pages_fit in D4. rewrite Forall_forall in D4.
  apply last_Some in El as [l El]. specialize (D4 page). rewrite El in D4. specialize (D4 ltac:(set_solver)).
  cbn [default]. unfold id. change (page < n) in D4. nia.
Qed.

Lemma prepare_decode_run bs n seqs :
  0 < bs → seqs ≠ [] → Forall (decodable n) seqs → (Z.of_nat (n * bs) <= 2 ^ 31)%Z →
  ∃ width, prepare_decode bs seqs = inr (last_token <$> seqs, (λ s, Z.of_nat (num_tokens s) - 1)%Z <$> seqs,
     mkContext false None None 0 0 (Some ((λ s, Z.of_nat (last_slot bs s)) <$> seqs))
       (Some ((λ s, Z.of_nat (attention_context_tokens s)) <$> seqs)) (Some (padded_tables width seqs))).
Proof.
  intros Hbs Hne Hd Hcap.
  destruct (prepare_block_tables_run n seqs Hne) as (width & Htab & _); [nia|eapply Forall_impl; [exact Hd|by intros s []]|].
  exists width. unfold prepare_decode.
  assert (mapR (decode_slot bs) seqs = inr ((λ s, Z.of_nat (last_slot bs s)) <$> seqs)) as ->.
  { apply mapR_inr, Forall2_fmap_r, Forall_Forall2_diag. eapply Forall_impl; [exact Hd|]. intros s Hs. by apply (decode_slot_run bs n). }
  cbn [mbind result_bind].
  rewrite (int64_fits (last_token <$> seqs)). 2:{ apply Forall_fmap. eapply Forall_impl; [exact Hd|]. intros s Hs. exact (de_last _ _ Hs). }
  rewrite (int64_fits (_ <$> seqs)). 2:{ apply Forall_fmap. eapply Forall_impl; [exact Hd|]. intros s [D1 D2 _ _ _ _]. cbn in *. lia. }
  rewrite (int32_fits (_ <$> seqs)). 2:{ apply Forall_fmap. eapply Forall_impl; [exact Hd|]. intros s Hs. pose proof (last_slot_bound bs n s Hbs Hs). cbn in *. lia. }
  unfold int32s. rewrite int32_fits. 2:{ apply Forall_fmap, Forall_fmap. eapply Forall_impl; [exact Hd|]. intros s [_ _ D3 _ _ _]. cbn in *. unfold attention_context_tokens. lia. }
  rewrite Htab. cbn [mbind result_bind]. rewrite <-list_fmap_compose. reflexivity.
Qed.
(** C15: a decode batch feeds each request's last token at the last position; its keys and values go to the
    place of that position in the request's last page, which is the slot the position has, as long as
    the request owns exactly the pages its tokens fill. *)
Theorem prepare_decode_addresses bs n seqs :
  0 < bs → seqs ≠ [] → Forall (decodable n) seqs → (Z.of_nat (n * bs) <= 2 ^ 31)%Z →
  (∃ width, prepare_decode bs seqs = inr (last_token <$> seqs, (λ s, Z.of_nat (num_tokens s) - 1)%Z <$> seqs,
     mkContext false None None 0 0 (Some ((λ s, Z.of_nat (last_slot bs s)) <$> seqs))
       (Some ((λ s, Z.of_nat (attention_context_tokens s)) <$> seqs)) (Some (padded_tables width seqs)))) ∧
  Forall (λ s, length (block_table s) = num_blocks bs s → last_slot bs s = kv_slot bs (block_table s) (num_tokens s - 1)) seqs.
Proof.
  intros Hbs Hne Hd Hcap. split; [by apply (prepare_decode_run bs n)|].
  eapply Forall_impl; [exact Hd|]. intros s [D1 _ _ _ _ _] Hl. by apply last_slot_is_kv_slot.
Qed.

(** ** CUDA graphs *)
Lemma elem_graph_sizes m x : x ∈ graph_sizes m ↔ x ∈ [1; 2; 4; 8] ∨ ∃ k, x = 16 * S k ∧ k < graph_max_bs m / 16.
Proof.
  unfold graph_sizes. rewrite elem_of_app, list_elem_of_fmap. apply or_iff_compat_l.
  split; intros (k & -> & Hk); exists k; (split; [done|]); [apply elem_of_seq in Hk; lia|apply elem_of_seq; lia].
Qed.
(** A captured graph covers every decode batch of the request limit [m] when [m] is at most 8 or a multiple of
    16 (a batch of more than 512 runs without graphs). *)
Theorem choose_graph_total m bs :
  m <= 8 ∨ 512 <= m ∨ m mod 16 = 0 → 1 <= bs → bs <= m → bs <= 512 →
  ∃ x, choose_graph (graph_sizes m) bs = inr x ∧ bs <= x ∧ x ∈ graph_sizes m.
Proof.
  intros Hm H1 Hbs H512. unfold choose_graph. destruct (list_find _ _) as [[i x]|] eqn:E.
  - apply list_find_Some in E as (Hi & Hx & _). exists x. split_and!; [done|done|]. by eapply list_elem_of_lookup_2.
  - exfalso. apply list_find_None in E. rewrite Forall_forall in E.
    destruct (decide (bs <= 8)) as [Hs|Hs]; [apply (E 8); [apply elem_graph_sizes; left; set_solver|done]|].
    pose proof (Nat.div_mod (bs - 1) 16 ltac:(lia)) as Hd. pose proof (Nat.mod_upper_bound (bs - 1) 16 ltac:(lia)).
    apply (E (16 * S ((bs - 1) / 16))); [|lia]. apply elem_graph_sizes. right. exists ((bs - 1) / 16). split; [done|].
    unfold graph_max_bs. assert (16 * ((bs - 1) / 16) <= bs - 1) by lia. apply Nat.div_lt_upper_bound; [lia|].
    apply Nat.lt_le_trans with (16 * (Nat.min m 512 / 16)); [|lia].
    assert (Hdm : 16 * (Nat.min m 512 / 16) = Nat.min m 512); [|lia].
    symmetry. apply Nat.div_exact; [lia|]. destruct Hm as [?|[?|Hm]]; [lia|by rewrite Nat.min_r by lia|].
    destruct (Nat.min_spec m 512) as [[_ ->]|[_ ->]]; done.
Qed.
(** C37: for every other limit a full decode batch has none: [next(...)] raises [StopIteration]. *)
Theorem choose_graph_gap m : 8 < m < 512 → m mod 16 ≠ 0 → choose_graph (graph_sizes m) m = inl StopIteration.
Proof.
  intros Hm Hmod. unfold choose_graph. destruct (list_find _ _) as [[i x]|] eqn:E; [|done].
  apply list_find_Some in E as (Hi & Hx & _). exfalso. assert (Hin : x ∈ graph_sizes m) by by eapply list_elem_of_lookup_2.
  apply elem_graph_sizes in Hin as [Hin|(k & -> & Hk)]; [set_unfold; lia|]. unfold graph_max_bs in Hk. rewrite Nat.min_l in Hk by lia.
  pose proof (Nat.div_mod m 16 ltac:(lia)). lia.
Qed.

(** ** The size of the cache *)
(** C36: the cache has at least one page and fits the memory left to it; it is as large as that memory allows unless
    a smaller number of pages is asked for. *)
Theorem allocate_kv_blocks_fits g h bs world util requested n :
  (0 < kv_block_bytes h bs world)%Z → allocate_kv_blocks g h bs world util requested = inr n →
  (0 < n)%Z ∧
  (inject_Z (n * kv_block_bytes h bs world) <=
     inject_Z (gm_total g) * util - inject_Z (gm_total g - gm_free g) - inject_Z (gm_peak g) + inject_Z (gm_current g))%Q ∧
  match requested with Some k => n = k | None => (kv_budget_bytes g util < (n + 1) * kv_block_bytes h bs world)%Z end.
Proof.
  intros Hb Ha. unfold allocate_kv_blocks in Ha. result_inv.
  set (size := kv_block_bytes h bs world) in *. set (budget := kv_budget_bytes g util) in *.
  pose proof (Z.mul_div_le budget size Hb) as Hle. pose proof (Z.mul_succ_div_gt budget size Hb) as Hgt.
  assert (Hn : (0 < n ∧ n <= budget / size ∧ match requested with Some k => n = k | None => n = budget / size end)%Z).
  { unfold resolve_kv_cache_blocks in Ha. result_inv. breflect. destruct requested as [k|]; result_inv; breflect; subst; lia. }
  destruct Hn as (Hn & Hmax & Hreq). assert (Hfit : (n * size <= budget)%Z) by nia.
  split; [done|]. split; [|destruct requested; [done|subst n; nia]].
  etrans; [rewrite <-Zle_Qle; exact Hfit|]. unfold budget, kv_budget_bytes. apply py_int_floor.
  assert (Hpos : (0 < kv_budget_bytes g util)%Z) by (fold budget; nia). unfold kv_budget_bytes, py_int in Hpos.
  set (x := (_ + _)%Q) in *. destruct x as [num den]. cbn in Hpos. unfold Qle. cbn.
  destruct (Z.le_gt_cases 0 num) as [?|Hneg]; [lia|]. pose proof (Z.quot_opp_l num (Zpos den) ltac:(done)) as Hq.
  pose proof (Z.quot_pos (- num) (Zpos den) ltac:(lia) ltac:(lia)). lia.
Qed.

(** ** Pages *)
Section pages.
Context {T : Type} `{LawfulKvTensor T} `{FloatRepr}.
Implicit Types (r : ModelRunner T).

(** A page exported by one runner is imported by another of the same rank and layout, into any page:
    that page then holds the same bytes, and no other page changes. *)
Theorem exported_page_imports r r' b b' digest page blob r1 :
  export_kv_page b digest page r = (inr blob, r1) →
  layout_ok (io_layout (mr_page_io r)) → io_layout (mr_page_io r') = io_layout (mr_page_io r) → mr_rank r' = mr_rank r →
  (Z.of_nat (length (page_bytes b (kv_cache (mr_page_io r)))) <= default_max_payload_bytes)%Z →
  (Z.of_nat b' < page_count (mr_page_io r'))%Z →
  ∃ n r1', import_kv_page b' blob digest page r' = (inr n, r1') ∧
    ∀ j, page_bytes j (kv_cache (mr_page_io r1')) =
      if decide (j = b') then page_bytes b (kv_cache (mr_page_io r)) else page_bytes j (kv_cache (mr_page_io r')).
Proof.
  intros He Hlay Hl Hr Hlen Hb'. unfold export_kv_page, mbind, M_bind, on_page_io, export_page, page_target, mbind, M_bind, getS, getsS in He.
  destruct (raise_if _ _ _) as [[e|[]] io] eqn:Ei in He; [done|]. unfold raise_if in Ei.
  destruct (negb _) eqn:En in Ei; [done|]. injection Ei as <-. cbn [mret M_ret] in He. rewrite Nat2Z.id in He.
  assert (Eta : r <| mr_page_io := mr_page_io r |> = r) by (by destruct r). rewrite Eta in He. clear Eta.
  set (payload := page_bytes b (kv_cache (mr_page_io r))) in *. unfold lift in He.
  destruct (kv_page_metadata _) as [e|m] eqn:Em in He; [done|]. destruct (encode_page m payload) as [e|blob'] eqn:Eenc; [done|].
  injection He as -> _.
  assert (Ek : m = mkMetadata digest (NInt (mr_rank r)) (NInt page) (io_layout (mr_page_io r))).
  { unfold kv_page_metadata in Em. result_inv. done. }
  assert (Hm : metadata_ok m) by (rewrite Ek in *; by split_and!).
  assert (Hdec : decode_page blob (Some digest) (Some (mr_rank r')) (Some page) (Some (io_layout (mr_page_io r'))) default_max_payload_bytes
    = inr (mkPageRecord m payload)).
  { rewrite (decode_encoded m payload) by done. rewrite check_compatible; [done|done|]. subst m. rewrite Hr, Hl.
    split_and!; intros ? [= <-]; done. }
  destruct (encode_envelope m payload blob Hm Eenc) as (_ & _ & Hsize). subst m. cbn [m_layout] in Hsize.
  unfold import_kv_page, mbind, M_bind, getS, lift. rewrite Hdec. cbn [r_payload].
  unfold on_page_io, import_page, page_target, mbind, M_bind, getS. rewrite Hl, Hsize. cbn [negb raise_if mret M_ret].
  rewrite (proj2 (Z.leb_le _ _)), (proj2 (Z.ltb_lt _ _)) by lia. cbn [andb negb raise_if mret M_ret]. unfold modifyS.
  do 2 eexists. split; [reflexivity|]. intros j. cbn [mr_page_io setter set_mr_page_io kv_cache]. rewrite Nat2Z.id. apply page_bytes_set.
Qed.
End pages.

(** ** The shared memory *)
Section shm.
Context {A : Type} `{LawfulPickle A}.

Lemma assign_slice_run i (l buf : bytes) :
  assign_slice i l buf = if length buf <? i + length l
    then inl (ValueError "memoryview assignment: lvalue and rvalue have different structures")
    else inr (take i buf ++ l ++ drop (i + length l) buf).
Proof. unfold assign_slice. by destruct (_ <? _). Qed.
Lemma write_shm_run (call : string * A) buf :
  let data := pickle_dumps call in let buf1 := le_bytes 4 (Z.of_nat (length data)) ++ drop 4 buf in
  (Z.of_nat (length data) < 2 ^ 32)%Z → 4 <= length buf →
  write_shm call buf = match assign_slice 4 data buf1 with inl e => (inl e, buf1) | inr buf2 => (inr tt, buf2) end.
Proof.
  cbv zeta. set (data := pickle_dumps call). intros Hn Hbuf. unfold write_shm. fold data. unfold mbind, M_bind, raise_if, lift, getS.
  rewrite (proj2 (Z.leb_gt _ _)) by lia. cbn [mret M_ret]. rewrite (assign_slice_run 0), le_bytes_length, (proj2 (Nat.ltb_ge _ _)) by lia.
  cbn [putS take app Nat.add]. by destruct (assign_slice 4 data _).
Qed.

(** What the first rank writes, the others read, as long as the pickled call fits the buffer;
    a larger call is refused with a [ValueError]. *)
Theorem shm_round_trip (call : string * A) buf :
  (Z.of_nat (length (pickle_dumps call)) < 2 ^ 32)%Z → 4 <= length buf →
  if 4 + length (pickle_dumps call) <=? length buf
  then ∃ buf', write_shm call buf = (inr tt, buf') ∧ read_shm buf' = inr call ∧ length buf' = length buf
  else ∃ msg buf', write_shm call buf = (inl (ValueError msg), buf').
Proof.
  intros Hn Hbuf. rewrite write_shm_run by done. set (data := pickle_dumps call) in *.
  set (header := le_bytes 4 (Z.of_nat (length data))). assert (Hh : length header = 4) by apply le_bytes_length.
  rewrite assign_slice_run, length_app, Hh, length_drop. replace (4 + (length buf - 4)) with (length buf) by lia.
  destruct (_ <=? _) eqn:E; breflect; [rewrite (proj2 (Nat.ltb_ge _ _)) by lia|rewrite (proj2 (Nat.ltb_lt _ _)) by lia; by do 2 eexists].
  rewrite take_app_length', drop_app_ge, Hh, drop_drop by lia. eexists. split; [reflexivity|].
  split; [|rewrite !length_app, length_drop; lia].
  unfold read_shm, slice. rewrite drop_0, Nat.sub_0_r, take_app_length' by done.
  unfold header at 1. rewrite of_le_bytes_spec by lia. rewrite Nat2Z.id. replace (length data + 4 - 4) with (length data) by lia.
  rewrite drop_app_length' by done. rewrite take_app_length. apply pickle_round.
Qed.
End shm.
