(* ===== verification/RankCalls.v ===== *)
(** * Calls between the ranks

    Models how rank 0 makes the other ranks run a method, [ModelRunner.call], [write_shm], [loop] and [read_shm] of
    [engine/model_runner.py]: it writes the call in the shared memory and sets an event for each rank; a rank waits for
    its event, reads the call, clears the event and runs the method. The ranks interleave freely. On rank 0 a method with a
    collective operation ends only after every rank has entered it: [run] ends with [tolist] of tokens that depend on the
    other ranks' summands, [exit] has a barrier. Another rank may end such a method earlier, when its operations are
    only enqueued, or wait as well. The message is written in one step: where rank 0 is kept waiting nobody reads
    meanwhile ([ranks_inv]). *)
From S2P Require Import Prelude Blake2b StorageBackend KvPage KvPageSpec ModelRunner ModelRunnerSpec.
Set Default Goal Selector "!".
Set Default Proof Using "Type*".

Section calls.
Context {A : Type} `{LawfulPickle A}.
Abbreviation Call := (string * A)%type.
(** Where a rank is in [loop] *)
Inductive LoopState :=
| LWaiting
| LWoken
| LLoaded (call : result Call)
| LRunning (call : Call)
| LStopped
| LRaised (e : exn).
Record Worker := mkWorker { wk_state : LoopState; wk_event : bool; wk_log : list Call }.
(** Where rank 0 is in [call]; [MSetting j] has set the events of the first [j] ranks. *)
Inductive MainState := MIdle | MSetting (j : nat) | MRunning | MRaised (e : exn).
Record Ranks := mkRanks { rk_buf : bytes; rk_main : MainState; rk_issued : list Call; rk_todo : list Call; rk_workers : list Worker }.
Definition ranks_init (buf : bytes) (n : nat) (calls : list Call) : Ranks :=
  mkRanks buf MIdle [] calls (replicate n (mkWorker LWaiting false [])).

(** All ranks have entered the [k]th call. *)
Definition all_entered (k : nat) (s : Ranks) : bool :=
  match rk_main s with MSetting _ => k <? length (rk_issued s) | _ => k <=? length (rk_issued s) end &&
  forallb (λ w, k <=? length (wk_log w)) (rk_workers s).
(** Methods that end on rank 0, and on the other ranks, only after all ranks have entered them *)
Context (collective waits : string → bool).
Definition may_end (waits_for : string → bool) (k : nat) (call : Call) (s : Ranks) : bool := negb (waits_for call.1) || all_entered k s.
Definition set_worker (i : nat) (w : Worker) (s : Ranks) : Ranks :=
  mkRanks (rk_buf s) (rk_main s) (rk_issued s) (rk_todo s) (<[i := w]> (rk_workers s)).
(** A step of rank 0, in [call] *)
Definition main_step (s : Ranks) : option Ranks :=
  match rk_main s with
  | MIdle =>
      match rk_todo s with
      | [] => None
      | call :: todo =>
          match write_shm call (rk_buf s) with
          | (inl e, buf) => Some (mkRanks buf (MRaised e) (rk_issued s) (rk_todo s) (rk_workers s))
          | (inr _, buf) => Some (mkRanks buf (MSetting 0) (rk_issued s ++ [call]) todo (rk_workers s))
          end
      end
  | MSetting j =>
      match rk_workers s !! j with
      | Some w => Some (mkRanks (rk_buf s) (MSetting (S j)) (rk_issued s) (rk_todo s) (<[j := mkWorker (wk_state w) true (wk_log w)]> (rk_workers s)))
      | None => Some (mkRanks (rk_buf s) MRunning (rk_issued s) (rk_todo s) (rk_workers s))
      end
  | MRunning =>
      match last (rk_issued s) with
      | Some call => if may_end collective (length (rk_issued s)) call s
                     then Some (mkRanks (rk_buf s) MIdle (rk_issued s) (rk_todo s) (rk_workers s)) else None
      | None => None
      end
  | MRaised _ => None
  end.
(** A step of the [i]th of the other ranks, in [loop] *)
Definition worker_step (i : nat) (s : Ranks) : option Ranks :=
  w ← rk_workers s !! i;
  match wk_state w with
  | LWaiting => if wk_event w then Some (set_worker i (mkWorker LWoken true (wk_log w)) s) else None
  | LWoken => Some (set_worker i (mkWorker (LLoaded (read_shm (rk_buf s))) (wk_event w) (wk_log w)) s)
  | LLoaded (inr call) => Some (set_worker i (mkWorker (LRunning call) false (wk_log w ++ [call])) s)
  | LLoaded (inl e) => Some (set_worker i (mkWorker (LRaised e) (wk_event w) (wk_log w)) s)
  | LRunning call =>
      if may_end waits (length (wk_log w)) call s
      then Some (set_worker i (mkWorker (if String.eqb call.1 "exit" then LStopped else LWaiting) (wk_event w) (wk_log w)) s) else None
  | LStopped | LRaised _ => None
  end.
(** Who takes a step *)
Inductive Rank := Rank0 | Rank_ (i : nat).
Definition ranks_step (r : Rank) (s : Ranks) : option Ranks := match r with Rank0 => main_step s | Rank_ i => worker_step i s end.
Inductive calls_reachable (s0 : Ranks) : Ranks → Prop :=
| calls_reachable_init : calls_reachable s0 s0
| calls_reachable_step r s s' : calls_reachable s0 s → ranks_step r s = Some s' → calls_reachable s0 s'.
(** The steps taken by ranks in a given order; a rank that cannot step is passed over. *)
Definition run_schedule (rs : list Rank) (s : Ranks) : Ranks := foldl (λ s r, default s (ranks_step r s)) s rs.
Lemma run_schedule_reachable rs s0 s : calls_reachable s0 s → calls_reachable s0 (run_schedule rs s).
Proof.
  unfold run_schedule. revert s. induction rs as [|r rs IH]; intros s Hs; cbn; [done|]. apply IH.
  destruct (ranks_step r s) eqn:E; cbn; [by eapply calls_reachable_step|done].
Qed.

(** ** What every interleaving keeps *)
Definition at_rest (w : Worker) : Prop :=
  match wk_state w with
  | LWaiting => ∀ call, last (wk_log w) = Some call → call.1 ≠ "exit"
  | LRunning call => last (wk_log w) = Some call
  | LStopped => ∃ call, last (wk_log w) = Some call ∧ call.1 = "exit"
  | _ => False
  end.
(** A rank that has entered every issued call; one that has not entered the last call, its event set or not; one that is
    reading it *)
Definition up_to_date (issued : list Call) (w : Worker) : Prop := wk_log w = issued ∧ wk_event w = false ∧ at_rest w.
Definition behind (issued : list Call) (event : bool) (w : Worker) : Prop := ∃ call, wk_log w ++ [call] = issued ∧ wk_event w = event ∧ at_rest w.
Definition reading (issued : list Call) (w : Worker) : Prop :=
  ∃ call, wk_log w ++ [call] = issued ∧ wk_event w = true ∧ (wk_state w = LWoken ∨ wk_state w = LLoaded (inr call)).
Definition called (issued : list Call) (w : Worker) : Prop := up_to_date issued w ∨ behind issued true w ∨ reading issued w.
Definition call_written (s : Ranks) : Prop := ∃ call, last (rk_issued s) = Some call ∧ read_shm (rk_buf s) = inr call.
Definition ranks_inv (s : Ranks) : Prop := 4 <= length (rk_buf s) ∧
  match rk_main s with
  | MIdle | MRaised _ => ∀ i w, rk_workers s !! i = Some w → up_to_date (rk_issued s) w
  | MSetting j => call_written s ∧ ∀ i w, rk_workers s !! i = Some w → if i <? j then called (rk_issued s) w else behind (rk_issued s) false w
  | MRunning => call_written s ∧ ∀ i w, rk_workers s !! i = Some w → called (rk_issued s) w
  end.
Definition call_fits (size : nat) (call : Call) : Prop :=
  (Z.of_nat (length (pickle_dumps call)) < 2 ^ 32)%Z ∧ 4 + length (pickle_dumps call) <= size.
Lemma write_cases (call : Call) buf : 4 <= length buf → ∃ r buf', write_shm call buf = (r, buf') ∧ length buf' = length buf ∧
  (r = inr tt → read_shm buf' = inr call) ∧ (call_fits (length buf) call → r = inr tt).
Proof.
  intros Hb. destruct (decide (Z.of_nat (length (pickle_dumps call)) < 2 ^ 32)%Z) as [Hn|Hn].
  - pose proof (shm_round_trip call buf Hn Hb) as Hrt. destruct (_ <=? _) eqn:E; breflect; [destruct Hrt as (buf' & -> & Hr & Hl); by exists (inr tt), buf'|].
    rewrite write_shm_run by done. rewrite assign_slice_run. set (buf1 := le_bytes 4 _ ++ drop 4 buf).
    assert (Hl : length buf1 = length buf) by (unfold buf1; rewrite length_app, le_bytes_length, length_drop; lia). rewrite Hl.
    rewrite (proj2 (Nat.ltb_lt _ _)) by lia. eexists _, buf1. split_and!; [done..|]. intros [_ Hf]. lia.
  - unfold write_shm, mbind, M_bind, raise_if. rewrite (proj2 (Z.leb_le _ _)) by lia. cbn [mret].
    eexists _, buf. split_and!; [done..|]. by intros [? _].
Qed.
Lemma last_eq {B} (l : list B) x issued : l ++ [x] = issued → last issued = Some x.
Proof. intros <-. apply last_snoc. Qed.
Lemma at_rest_end (c : Call) event log : last log = Some c → at_rest (mkWorker (if String.eqb c.1 "exit" then LStopped else LWaiting) event log).
Proof.
  intros Hl. unfold at_rest. cbn. destruct (String.eqb c.1 "exit") eqn:E; [exists c; by apply String.eqb_eq in E|].
  intros c' Hl'. rewrite Hl in Hl'. injection Hl' as <-. by apply String.eqb_neq.
Qed.
(** A rank's own step, whatever rank 0 does *)
Lemma worker_step_called i s s' w : call_written s → rk_workers s !! i = Some w → called (rk_issued s) w → worker_step i s = Some s' →
  ∃ w', s' = set_worker i w' s ∧ called (rk_issued s) w'.
Proof.
  intros (call & Hlast & Hread) Hw Hc. unfold worker_step. rewrite Hw. cbn [mbind option_bind].
  destruct Hc as [(Hl & He & Hr)|[(c & Hl & He & Hr)|(c & Hl & He & Hr)]].
  - unfold at_rest in Hr. destruct (wk_state w) as [| | |c| |] eqn:Hs; try done; [by rewrite He|]. destruct (may_end _ _ _ _); [|done]. intros [= <-].
    eexists. split; [done|]. left. split; [done|]. split; [done|]. by apply at_rest_end.
  - pose proof (last_eq _ _ _ Hl) as Hlc. rewrite Hlast in Hlc. injection Hlc as <-. unfold at_rest in Hr.
    destruct (wk_state w) as [| | |c| |] eqn:Hs; try done.
    + rewrite He. intros [= <-]. eexists. split; [done|]. right; right. exists call. cbn. auto.
    + destruct (may_end _ _ _ _); [|done]. intros [= <-]. eexists. split; [done|]. right; left. exists call. split; [done|]. split; [done|].
      by apply at_rest_end.
  - pose proof (last_eq _ _ _ Hl) as Hlc. rewrite Hlast in Hlc. injection Hlc as <-. destruct Hr as [->| ->]; intros [= <-]; eexists; (split; [done|]).
    + right; right. exists call. rewrite Hread. cbn. auto.
    + left. split; [done|]. split; [done|]. unfold at_rest. cbn. apply last_snoc.
Qed.
Lemma worker_step_settled i s s' w : rk_workers s !! i = Some w → up_to_date (rk_issued s) w → worker_step i s = Some s' →
  ∃ w', s' = set_worker i w' s ∧ up_to_date (rk_issued s) w'.
Proof.
  intros Hw (Hl & He & Hr). unfold worker_step. rewrite Hw. cbn [mbind option_bind]. unfold at_rest in Hr.
  destruct (wk_state w) as [| | |c| |] eqn:Hs; try done; [by rewrite He|]. destruct (may_end _ _ _ _); [|done]. intros [= <-].
  eexists. split; [done|]. split; [done|]. split; [done|]. by apply at_rest_end.
Qed.
Lemma worker_step_behind i s s' w : rk_workers s !! i = Some w → behind (rk_issued s) false w → worker_step i s = Some s' →
  ∃ w', s' = set_worker i w' s ∧ behind (rk_issued s) false w'.
Proof.
  intros Hw (call & Hl & He & Hr). unfold worker_step. rewrite Hw. cbn [mbind option_bind]. unfold at_rest in Hr.
  destruct (wk_state w) as [| | |c| |] eqn:Hs; try done; [by rewrite He|]. destruct (may_end _ _ _ _); [|done]. intros [= <-].
  eexists. split; [done|]. exists call. split; [done|]. split; [done|]. by apply at_rest_end.
Qed.
Lemma insert_cases {B} (l : list B) i x k y : <[i := x]> l !! k = Some y → k = i ∧ y = x ∨ k ≠ i ∧ l !! k = Some y.
Proof. intros Hl. apply list_lookup_insert_Some in Hl as [(-> & -> & _)|[? ?]]; auto. Qed.
Lemma worker_step_inv i s s' : ranks_inv s → worker_step i s = Some s' → ranks_inv s'.
Proof.
  intros [Hb Hi] Hs. assert (Hex : ∃ w, rk_workers s !! i = Some w) by (unfold worker_step in Hs; destruct (rk_workers s !! i); [by eexists|done]).
  destruct Hex as [w Hw]. unfold ranks_inv. destruct (rk_main s) as [|j| |e] eqn:Hm.
  - destruct (worker_step_settled i s s' w Hw (Hi i w Hw) Hs) as (w' & -> & Hw'). unfold ranks_inv, set_worker, call_written; cbn [rk_buf rk_main rk_workers rk_issued rk_todo]. rewrite Hm. split; [done|].
    intros k v [[-> ->]|[_ Hv]]%insert_cases; [done|by apply (Hi k)].
  - destruct Hi as [Hc Hi]. pose proof (Hi i w Hw) as Hiw. destruct (i <? j) eqn:Hij.
    + destruct (worker_step_called i s s' w Hc Hw Hiw Hs) as (w' & -> & Hw'). unfold ranks_inv, set_worker, call_written; cbn [rk_buf rk_main rk_workers rk_issued rk_todo]. rewrite Hm. split_and!; [done|done|].
      intros k v [[-> ->]|[_ Hv]]%insert_cases; [by rewrite Hij|by apply (Hi k)].
    + destruct (worker_step_behind i s s' w Hw Hiw Hs) as (w' & -> & Hw'). unfold ranks_inv, set_worker, call_written; cbn [rk_buf rk_main rk_workers rk_issued rk_todo]. rewrite Hm. split_and!; [done|done|].
      intros k v [[-> ->]|[_ Hv]]%insert_cases; [by rewrite Hij|by apply (Hi k)].
  - destruct Hi as [Hc Hi]. destruct (worker_step_called i s s' w Hc Hw (Hi i w Hw) Hs) as (w' & -> & Hw'). unfold ranks_inv, set_worker, call_written; cbn [rk_buf rk_main rk_workers rk_issued rk_todo]. rewrite Hm. split_and!; [done|done|].
    intros k v [[-> ->]|[_ Hv]]%insert_cases; [done|by apply (Hi k)].
  - destruct (worker_step_settled i s s' w Hw (Hi i w Hw) Hs) as (w' & -> & Hw'). unfold ranks_inv, set_worker, call_written; cbn [rk_buf rk_main rk_workers rk_issued rk_todo]. rewrite Hm. split; [done|].
    intros k v [[-> ->]|[_ Hv]]%insert_cases; [done|by apply (Hi k)].
Qed.
(** ** Steps of rank 0 *)
Lemma all_entered_spec k s : all_entered k s = true → ∀ i w, rk_workers s !! i = Some w → k <= length (wk_log w).
Proof.
  unfold all_entered. intros [_ Hf]%andb_true_iff i w Hw. rewrite forallb_forall in Hf. apply Nat.leb_le, Hf.
  apply list_elem_of_In. by eapply list_elem_of_lookup_2.
Qed.
Lemma called_entered issued w : called issued w → length issued <= length (wk_log w) → up_to_date issued w.
Proof. intros [Hs|[(c & <- & _)|(c & <- & _)]]; [done|rewrite length_app; cbn; lia..]. Qed.
Definition collectives (s : Ranks) : Prop := Forall (λ c, collective c.1 = true) (rk_issued s ++ rk_todo s).
Lemma main_step_inv s s' : collectives s → ranks_inv s → main_step s = Some s' → ranks_inv s'.
Proof.
  intros Hcol [Hb Hi]. unfold main_step. destruct (rk_main s) as [|j| |e] eqn:Hm; [..|done].
  - destruct (rk_todo s) as [|call todo]; [done|]. destruct (write_cases call (rk_buf s) Hb) as (r & buf & -> & Hb' & Hr & _).
    rewrite <-Hb' in Hb. destruct r as [e|[]]; intros [= <-]; (split; [done|]); [done|]. cbn. split.
    { exists call. split; [apply last_snoc|auto]. }
    intros i w Hw. destruct (Hi i w Hw) as (Hl & He & Hat). exists call. by rewrite Hl.
  - destruct Hi as [Hc Hi]. destruct (rk_workers s !! j) as [w|] eqn:Hj; intros [= <-]; (split; [done|]); unfold ranks_inv, call_written; cbn [rk_buf rk_main rk_workers rk_issued rk_todo].
    + split; [done|]. intros k v [[-> ->]|[Hk Hv]]%insert_cases.
      * rewrite (proj2 (Nat.ltb_lt j (S j))) by lia. pose proof (Hi j w Hj) as Hw. rewrite Nat.ltb_irrefl in Hw. destruct Hw as (c & Hl & _ & Hat).
        right; left. by exists c.
      * pose proof (Hi k v Hv) as Hkv. destruct (k <? j) eqn:E; breflect; [rewrite (proj2 (Nat.ltb_lt _ _)) by lia|rewrite (proj2 (Nat.ltb_ge _ _)) by lia]; done.
    + split; [done|]. intros k v Hv. pose proof (Hi k v Hv) as Hkv. apply lookup_ge_None in Hj. apply lookup_lt_Some in Hv as Hlt.
      by rewrite (proj2 (Nat.ltb_lt _ _)) in Hkv by lia.
  - destruct Hi as [(call & Hlast & Hread) Hi]. rewrite Hlast. destruct (may_end _ _ _ _) eqn:E; [|done]. intros [= <-]. split; [done|]. cbn.
    intros i w Hw. apply called_entered; [by apply (Hi i)|]. unfold may_end in E.
    assert (Hcc : collective call.1 = true).
    { unfold collectives in Hcol. rewrite Forall_app, Forall_forall in Hcol. apply (proj1 Hcol). apply last_Some in Hlast as [l ->]. set_solver. }
    rewrite Hcc in E. exact (all_entered_spec _ _ E i w Hw).
Qed.

(** ** The whole protocol *)
Definition ranks_ok (n : nat) (calls : list Call) (s : Ranks) : Prop :=
  ranks_inv s ∧ rk_issued s ++ rk_todo s = calls ∧ length (rk_workers s) = n.
(** Rank 0 raises only at a call that does not fit the buffer. *)
Definition raised_unfit (size : nat) (s : Ranks) : Prop :=
  length (rk_buf s) = size ∧ ∀ e, rk_main s = MRaised e → ∃ call, call ∈ rk_issued s ++ rk_todo s ∧ ¬ call_fits size call.
Lemma step_unfit size r s s' : 4 <= size → raised_unfit size s → ranks_step r s = Some s' → raised_unfit size s'.
Proof.
  intros Hb [Hl Hr] Hs. destruct r as [|i]; cbn in Hs.
  - unfold main_step in Hs. destruct (rk_main s) as [|j| |e] eqn:Hm; [|destruct (_ !! j); by simplify_eq|by repeat case_match; simplify_eq|done].
    destruct (rk_todo s) as [|call todo] eqn:Ht; [done|]. rewrite <-Hl in Hb. destruct (write_cases call (rk_buf s) Hb) as (r & buf & E & Hl' & _ & Hf).
    rewrite E in Hs. destruct r as [e|[]]; simplify_eq; (split; [cbn; lia|]); [|done]. intros _ _. exists call. cbn. split; [set_solver|].
    intros Hfit. by specialize (Hf Hfit).
  - unfold worker_step in Hs. destruct (rk_workers s !! i); [|done]. cbn in Hs. by repeat case_match; simplify_eq.
Qed.
Lemma step_frame r s s' n calls : ranks_step r s = Some s' → rk_issued s ++ rk_todo s = calls → length (rk_workers s) = n →
  rk_issued s' ++ rk_todo s' = calls ∧ length (rk_workers s') = n.
Proof.
  intros Hs <- <-. destruct r as [|i]; cbn in Hs.
  - unfold main_step in Hs. repeat case_match; simplify_eq; cbn; rewrite ?length_insert, <-?app_assoc; cbn; split; congruence.
  - unfold worker_step in Hs. destruct (rk_workers s !! i); [|done]. cbn in Hs.
    repeat case_match; simplify_eq; cbn; by rewrite length_insert.
Qed.
Lemma ranks_init_ok buf n calls : 4 <= length buf → ranks_ok n calls (ranks_init buf n calls).
Proof.
  intros Hb. split; [|split; [done|apply length_replicate]]. split; [done|]. cbn. intros i w [-> _]%lookup_replicate.
  split; [done|]. split; [done|]. intros call [=].
Qed.
Lemma step_ok r s s' n calls : Forall (λ c, collective c.1 = true) calls → ranks_ok n calls s → ranks_step r s = Some s' → ranks_ok n calls s'.
Proof.
  intros Hcol (Hi & Hc & Hn) Hs. split; [|by eapply step_frame]. destruct r as [|i]; [|by eapply worker_step_inv].
  eapply main_step_inv; [|done..]. unfold collectives. by rewrite Hc.
Qed.
Lemma calls_reachable_ok buf n calls s : 4 <= length buf → Forall (λ c, collective c.1 = true) calls →
  calls_reachable (ranks_init buf n calls) s → ranks_ok n calls s ∧ raised_unfit (length buf) s.
Proof.
  intros Hb Hcol. induction 1 as [|r s s' _ [IH IHu] Hs]; [by split; [apply ranks_init_ok|]|]. split; [by eapply step_ok|by eapply step_unfit].
Qed.

(** How many steps are left *)
Definition worker_left (issued : list Call) (w : Worker) : nat :=
  4 * (length issued - length (wk_log w)) + match wk_state w with LWaiting | LStopped => 3 | LWoken => 2 | LLoaded _ => 1 | LRunning _ => 4 | LRaised _ => 0 end.
Definition main_left (n : nat) (m : MainState) : nat := match m with MIdle => 1 | MSetting j => 3 + (n - j) | MRunning => 2 | MRaised _ => 0 end.
Definition steps_left (s : Ranks) : nat :=
  let n := length (rk_workers s) in length (rk_todo s) * (5 * n + 3) + main_left n (rk_main s) + sum_list (worker_left (rk_issued s) <$> rk_workers s).
Lemma sum_insert (f : Worker → nat) l i w w' : l !! i = Some w → sum_list (f <$> <[i := w']> l) + f w = sum_list (f <$> l) + f w'.
Proof.
  revert i. induction l as [|v l IH]; intros [|i] Hl; csimpl in *; simplify_eq; [lia|]. specialize (IH i Hl). cbn [insert list_insert]. csimpl. lia.
Qed.
Lemma worker_left_issue issued call ws : sum_list (worker_left (issued ++ [call]) <$> ws) <= sum_list (worker_left issued <$> ws) + 4 * length ws.
Proof.
  assert (Hw : ∀ w, worker_left (issued ++ [call]) w <= worker_left issued w + 4) by (intros w; unfold worker_left; rewrite length_app; cbn [length]; lia).
  induction ws as [|w ws IH]; csimpl; [done|]. specialize (Hw w). lia.
Qed.
Lemma main_left_step s s' : main_step s = Some s' → steps_left s' < steps_left s.
Proof.
  unfold main_step, steps_left. destruct (rk_main s) as [|j| |] eqn:Hm; [..|done].
  - destruct (rk_todo s) as [|call todo] eqn:Ht; [done|]. destruct (write_shm call _) as [[e|[]] buf]; intros [= <-]; cbn; rewrite ?Ht; cbn; [lia|].
    pose proof (worker_left_issue (rk_issued s) call (rk_workers s)). lia.
  - destruct (rk_workers s !! j) as [w|] eqn:Hj; intros [= <-]; cbn.
    + rewrite length_insert. pose proof (sum_insert (worker_left (rk_issued s)) _ _ _ (mkWorker (wk_state w) true (wk_log w)) Hj) as E.
      change (worker_left (rk_issued s) (mkWorker _ true _)) with (worker_left (rk_issued s) w) in E. apply lookup_lt_Some in Hj. lia.
    + lia.
  - destruct (last _); [|done]. destruct (may_end _ _ _ _); [|done]. intros [= <-]. cbn. lia.
Qed.
Lemma inv_called s i w : ranks_inv s → rk_workers s !! i = Some w → called (rk_issued s) w ∨ behind (rk_issued s) false w.
Proof.
  intros [_ Hi] Hw. destruct (rk_main s) as [|j| |]; [left; left; by apply (Hi i)| |destruct Hi as [_ Hi]; left; by apply (Hi i)|left; left; by apply (Hi i)].
  destruct Hi as [_ Hi]. specialize (Hi i w Hw). destruct (i <? j); auto.
Qed.
Lemma loaded_short s i w r : ranks_inv s → rk_workers s !! i = Some w → wk_state w = LLoaded r → length (wk_log w) < length (rk_issued s).
Proof.
  intros Hi Hw Hs. destruct (inv_called s i w Hi Hw) as [[(_ & _ & Hr)|[(c & _ & _ & Hr)|(c & <- & _)]]|(c & _ & _ & Hr)];
    [unfold at_rest in Hr; by rewrite Hs in Hr..|rewrite length_app; cbn; lia|unfold at_rest in Hr; by rewrite Hs in Hr].
Qed.
Lemma called_log issued w : called issued w ∨ behind issued false w →
  (wk_log w = issued ∨ ∃ call, wk_log w ++ [call] = issued) ∧ ∀ e, wk_state w ≠ LRaised e.
Proof.
  intros [[(Hl & _ & Hr)|[(c & Hl & _ & Hr)|(c & Hl & _ & Hr)]]|(c & Hl & _ & Hr)]; (split; [by eauto|]); intros e He;
    first [unfold at_rest in Hr; by rewrite He in Hr|rewrite He in Hr; by destruct Hr].
Qed.
Lemma worker_left_step i s s' : ranks_inv s → worker_step i s = Some s' → steps_left s' < steps_left s.
Proof.
  intros Hi. unfold worker_step. destruct (rk_workers s !! i) as [w|] eqn:Hw; [|done]. cbn [mbind option_bind].
  enough (Hlt : ∀ w', worker_left (rk_issued s) w' < worker_left (rk_issued s) w → steps_left (set_worker i w' s) < steps_left s).
  { destruct (wk_state w) as [| |[e|call]|call| |] eqn:Hs; [..|done|done]; repeat case_match; try done; intros [= <-]; apply Hlt; unfold worker_left; rewrite Hs; cbn; try lia.
    pose proof (loaded_short s i w _ Hi Hw Hs). rewrite length_app. cbn. lia. }
  intros w' Hlt. unfold steps_left, set_worker. cbn. rewrite length_insert. pose proof (sum_insert (worker_left (rk_issued s)) _ _ _ w' Hw). lia.
Qed.

(** A step is possible until all calls have ended, unless [write_shm] raised. *)
Definition enabled (s : Ranks) : Prop := ∃ r s', ranks_step r s = Some s'.
Definition ends_in_exit (calls : list Call) : bool := match last calls with Some call => String.eqb call.1 "exit" | None => false end.
Definition ranks_done (calls : list Call) (s : Ranks) : Prop := rk_main s = MIdle ∧ rk_todo s = [] ∧
  ∀ i w, rk_workers s !! i = Some w →
    wk_log w = calls ∧ wk_state w = if ends_in_exit calls then LStopped else LWaiting.
Definition exit_last (calls : list Call) : Prop := ∀ k call, calls !! k = Some call → call.1 = "exit" → S k = length calls.
Lemma entered_intro k s : match rk_main s with MSetting _ => k < length (rk_issued s) | _ => k <= length (rk_issued s) end →
  (∀ i w, rk_workers s !! i = Some w → k <= length (wk_log w)) → all_entered k s = true.
Proof.
  intros Hm Hw. unfold all_entered. apply andb_true_iff. split; [destruct (rk_main s); by first [apply Nat.ltb_lt|apply Nat.leb_le]|].
  rewrite forallb_forall. intros w [i Hl]%list_elem_of_In%list_elem_of_lookup_1. by apply Nat.leb_le, (Hw i).
Qed.
Lemma worker_enabled i s w : rk_workers s !! i = Some w → match wk_state w with
    LWaiting => wk_event w = true | LRunning call => all_entered (length (wk_log w)) s = true | LWoken | LLoaded _ => True | _ => False end → enabled s.
Proof.
  intros Hw Hs. exists (Rank_ i). cbn. unfold worker_step. rewrite Hw. cbn [mbind option_bind].
  destruct (wk_state w) as [| |[e|c]|c| |]; try done; [rewrite Hs|..|unfold may_end; rewrite Hs, orb_true_r]; by eexists.
Qed.
(** A rank that has not entered the last call can step. *)
Lemma late_enabled n calls s i w : exit_last calls → ranks_ok n calls s → rk_main s = MRunning → rk_workers s !! i = Some w →
  length (wk_log w) < length (rk_issued s) → enabled s.
Proof.
  intros Hex ((_ & Hi) & Hc & _) Hm Hw Hlt. rewrite Hm in Hi. destruct Hi as [_ Hi].
  destruct (Hi i w Hw) as [(Hl & _)|[(c & Hl & He & Hr)|(c & Hl & He & Hr)]]; [rewrite Hl in Hlt; lia|..].
  - unfold at_rest in Hr. apply (worker_enabled i s w Hw). destruct (wk_state w) eqn:Hs; try done.
    + apply entered_intro; [rewrite Hm; lia|]. intros j v Hv. rewrite <-Hl, length_app in Hlt.
      destruct (Hi j v Hv) as [(-> & _)|[(c' & Hl' & _)|(c' & Hl' & _)]]; [rewrite <-Hl, length_app; lia|..];
        apply (f_equal length) in Hl, Hl'; rewrite length_app in Hl, Hl'; cbn in Hl, Hl'; lia.
    + destruct Hr as (c' & [l Hl']%last_Some & Hn). assert (Hk : calls !! length l = Some c').
      { rewrite <-Hc, <-Hl, Hl', <-!app_assoc. by rewrite lookup_app_r, Nat.sub_diag. }
      pose proof (Hex _ _ Hk Hn) as Hk'. rewrite <-Hc, <-Hl, Hl', !length_app in Hk'. cbn in Hk'. lia.
  - apply (worker_enabled i s w Hw). by destruct Hr as [->| ->].
Qed.
Lemma late_or_not k (ws : list Worker) : (∃ i w, ws !! i = Some w ∧ length (wk_log w) < k) ∨ ∀ i w, ws !! i = Some w → k <= length (wk_log w).
Proof.
  induction ws as [|w ws [(i & v & Hv & Hlt)|IH]]; [by right|left; by exists (S i), v|].
  destruct (decide (length (wk_log w) < k)); [left; by exists 0, w|]. right. intros [|i] v Hv; cbn in Hv; [simplify_eq; lia|by apply (IH i)].
Qed.
Lemma running_or_not s : (∃ i w c, rk_workers s !! i = Some w ∧ wk_state w = LRunning c) ∨ ∀ i w, rk_workers s !! i = Some w → ∀ c, wk_state w ≠ LRunning c.
Proof.
  induction (rk_workers s) as [|w ws [(i & v & c & Hv & Hs)|IH]]; [by right|left; by exists (S i), v, c|].
  destruct (wk_state w) as [| | |c| |] eqn:Hs; [..|left; by exists 0, w, c| |]; right; (intros [|i] v Hv; cbn in Hv; [simplify_eq; by rewrite Hs|by apply (IH i)]).
Qed.
Lemma ranks_progress n calls s : exit_last calls → ranks_ok n calls s → enabled s ∨ ranks_done calls s ∨ ∃ e, rk_main s = MRaised e.
Proof.
  intros Hex Hok. pose proof Hok as ((_ & Hi) & Hc & _). destruct (rk_main s) as [|j| |e] eqn:Hm.
  - destruct (rk_todo s) as [|call todo] eqn:Ht.
    + rewrite app_nil_r in Hc. destruct (running_or_not s) as [(i & w & c & Hw & Hs)|Hq].
      * left. apply (worker_enabled i s w Hw). rewrite Hs. destruct (Hi i w Hw) as (Hl & _). rewrite Hl.
        apply entered_intro; [by rewrite Hm|]. intros k v Hv. by rewrite (proj1 (Hi k v Hv)).
      * right; left. split_and!; [done..|]. intros i w Hw. destruct (Hi i w Hw) as (Hl & _ & Hr). split; [congruence|].
        unfold at_rest in Hr. rewrite Hl, Hc in Hr. specialize (Hq i w Hw). destruct (wk_state w) eqn:Hs; try done; [|by destruct (Hq call)|].
        -- unfold ends_in_exit. destruct (last calls) as [c|]; [|done]. by rewrite (proj2 (String.eqb_neq _ _) (Hr c eq_refl)).
        -- unfold ends_in_exit. destruct Hr as (c & -> & ->). done.
    + left. exists Rank0. cbn. unfold main_step. rewrite Hm, Ht. destruct (write_shm call _) as [[e|[]] buf]; by eexists.
  - left. exists Rank0. cbn. unfold main_step. rewrite Hm. destruct (_ !! j); by eexists.
  - left. destruct (late_or_not (length (rk_issued s)) (rk_workers s)) as [(i & w & Hw & Hlt)|Hall]; [by eapply late_enabled|].
    exists Rank0. cbn. unfold main_step. rewrite Hm. destruct Hi as [(call & -> & _) _]. unfold may_end.
    rewrite entered_intro, orb_true_r; [by eexists|by rewrite Hm|done].
  - right; right. by exists e.
Qed.

(** C16: when every method waits on rank 0 until all ranks have entered it, and [exit] comes last, then in every interleaving
    each rank has run the calls of rank 0 in order, all of them but perhaps the last, and none fails to read one; the
    calls are never stuck, every step brings them nearer the end, and at the end every rank has run them all, and has left
    [loop] when the last was [exit]. Only a call that does not fit the shared memory makes rank 0 raise. *)
Theorem calls_delivered buf n calls s : 4 <= length buf → Forall (λ c, collective c.1 = true) calls → exit_last calls →
  calls_reachable (ranks_init buf n calls) s →
  rk_issued s ++ rk_todo s = calls ∧ length (rk_workers s) = n ∧
  (∀ i w, rk_workers s !! i = Some w → (wk_log w = rk_issued s ∨ ∃ call, wk_log w ++ [call] = rk_issued s) ∧ ∀ e, wk_state w ≠ LRaised e) ∧
  (enabled s ∨ ranks_done calls s ∨ ∃ e, rk_main s = MRaised e) ∧
  (∀ r s', ranks_step r s = Some s' → steps_left s' < steps_left s) ∧
  ∀ e, rk_main s = MRaised e → ∃ call, call ∈ calls ∧ ¬ call_fits (length buf) call.
Proof.
  intros Hb Hcol Hex Hr. destruct (calls_reachable_ok _ _ _ _ Hb Hcol Hr) as [Hok [_ Hu]]. pose proof Hok as (Hi & Hc & Hn). rewrite Hc in Hu.
  split_and!; [done..| |by eapply ranks_progress| |done].
  - intros i w Hw. by apply called_log, (inv_called s i w).
  - intros [|i] s' Hs; [by apply main_left_step|by eapply worker_left_step].
Qed.
End calls.
