(* ===== verification/Tensor.v ===== *)
(** * Tensors and ranks

    What [layers/] and [models/] take from torch: a tensor is the nested list of its elements, along its dimensions; the
    layout operations ([narrow], [chunk], [split], [view], [cat]) are list operations, and the numeric ones are the
    interfaces [Scalar] and [TorchNN] with their documented formulas as laws. A program of one rank of a process group
    is a [Spmd] computation, whose collective operations wait for all ranks. *)
From S2P Require Import Prelude StorageBackend.
Set Default Goal Selector "!".
Set Default Proof Using "Type".

Abbreviation Vector R := (list R) (only parsing).
Abbreviation Matrix R := (list (list R)) (only parsing).
(** ** Scalars *)
Class Scalar (R : Type) := {
  s_zero : R; s_one : R;
  s_add : R → R → R; s_sub : R → R → R; s_mul : R → R → R; s_div : R → R → R; s_pow : R → R → R;
  s_rsqrt : R → R; s_cos : R → R; s_sin : R → R; s_silu : R → R;
  s_of_nat : nat → R;
  (** [x.float()] and [x.to(dtype)] *)
  to_float : R → R; to_dtype : R → R
}.
(** Sums in exact arithmetic: they do not depend on the order of their terms. *)
Class LawfulScalar (R : Type) `{Scalar R} := {
  add_comm : Comm (=) s_add;
  add_assoc : Assoc (=) s_add;
  add_zero : LeftId (=) s_zero s_add;
  mul_one x : s_mul s_one x = x;
  mul_zero x : s_mul s_zero x = s_zero
}.
#[export] Existing Instances add_comm add_assoc add_zero.
Section scalars.
Context `{Scalar R}.
Definition dot (x w : Vector R) : R := foldr s_add s_zero (zip_with s_mul x w).
Definition add_vectors (x y : Vector R) : Vector R := zip_with s_add x y.
Definition add_matrices (x y : Matrix R) : Matrix R := zip_with add_vectors x y.
Definition add_bias (b : option (Vector R)) (y : Vector R) : Vector R := match b with Some b => add_vectors y b | None => y end.
End scalars.

(** [F.linear] and [F.embedding]; an index out of range is an error. *)
Class TorchNN (R : Type) := {
  linear : Matrix R → Matrix R → option (Vector R) → Matrix R;
  embedding : list Z → Matrix R → result (Matrix R)
}.
Class LawfulTorchNN (R : Type) `{Scalar R, TorchNN R} := {
  linear_spec x w b : linear x w b = (λ xi, add_bias b (dot xi <$> w)) <$> x;
  embedding_spec ids w ys : embedding ids w = inr ys ↔ Forall2 (λ i y, (0 <= i)%Z ∧ w !! Z.to_nat i = Some y) ids ys
}.

(** ** Layout *)
Section layout.
Context {A : Type}.
Implicit Types (l : list A).
(** [t.narrow(0, start, length)] *)
Definition narrow (start len : nat) l : result (list A) :=
  throw_if (length l <? start + len) 
    (RuntimeError ("start (" +:+ str_int (Z.of_nat start) +:+ ") + length (" +:+ str_int (Z.of_nat len) +:+ ") exceeds dimension size"));;
  mret (take len (drop start l)).
(** [t.chunk(n, 0)]: pieces of the same size, rounded up; the last may be shorter and some missing. *)
Definition chunk (n : nat) l : list (list A) :=
  let size := (length l + n - 1) / n in
  (λ i, take size (drop (i * size) l)) <$> seq 0 ((length l + size - 1) / size).
(** The part of rank [r], of size [s] *)
Definition shard (s r : nat) l : list A := take s (drop (r * s) l).
(** A row of [t.split(sizes, -1)] *)
Fixpoint split_sizes (sizes : list nat) l : list (list A) :=
  match sizes with [] => [] | n :: sizes => take n l :: split_sizes sizes (drop n l) end.
(** A row of [t.view(-1, n, size)] *)
Definition view_row (n size : nat) l : list (list A) := (λ h, shard size h l) <$> seq 0 n.
End layout.

(** [t.flatten(1, -1)], of a list of tokens with their heads *)
Definition flatten_heads {A} (t : list (list (list A))) : list (list A) := (λ heads, concat heads) <$> t.

(** ** Programs of the ranks *)
(** [dist.all_reduce(m)] gives every rank the sum, [dist.gather(m, _, 0)] gives rank 0 the list. *)
Inductive Spmd (R A : Type) : Type :=
| Ret (a : A)
| Fail (e : exn)
| AllReduce (m : Matrix R) (k : Matrix R → Spmd R A)
| Gather (m : Matrix R) (k : option (list (Matrix R)) → Spmd R A).
Arguments Ret {R A}.
Arguments Fail {R A}.
Arguments AllReduce {R A}.
Arguments Gather {R A}.
#[export] Instance Spmd_ret {R} : MRet (Spmd R) := λ A, Ret.
#[export] Instance Spmd_bind {R} : MBind (Spmd R) := λ A B f,
  fix go m := match m with
  | Ret a => f a
  | Fail e => Fail e
  | AllReduce m k => AllReduce m (λ x, go (k x))
  | Gather m k => Gather m (λ x, go (k x))
  end.
Definition all_reduce {R} (m : Matrix R) : Spmd R (Matrix R) := AllReduce m Ret.
Definition gather {R} (m : Matrix R) : Spmd R (option (list (Matrix R))) := Gather m Ret.
Definition lift_spmd {R A} (r : result A) : Spmd R A := match r with inl e => Fail e | inr a => Ret a end.

Section world.
Context `{Scalar R}.
Definition sum_matrices (l : list (Matrix R)) : Matrix R :=
  match l with [] => [] | m :: l => foldl add_matrices m l end.
(** The [tp] ranks, each running its program: a collective operation happens when all have reached it. *)
Inductive world {A} (tp : nat) (a : nat → A) : (nat → Spmd R A) → Prop :=
| world_ret p : (∀ r, r < tp → p r = Ret (a r)) → world tp a p
| world_all_reduce p m k : (∀ r, r < tp → p r = AllReduce (m r) (k r)) →
    world tp a (λ r, k r (sum_matrices (m <$> seq 0 tp))) → world tp a p
| world_gather p m k : (∀ r, r < tp → p r = Gather (m r) (k r)) →
    world tp a (λ r, k r (if r =? 0 then Some (m <$> seq 0 tp) else None)) → world tp a p.
(** The same, run; [None]: some rank raised, or they wait for each other. *)
Fixpoint run_ranks {A} (fuel : nat) (ps : list (Spmd R A)) : option (list A) :=
  match fuel with
  | 0 => None
  | S fuel =>
      match mapM (λ p, match p with Ret a => Some a | _ => None end) ps with
      | Some l => Some l
      | None =>
          match mapM (λ p, match p with AllReduce m k => Some (m, k) | _ => None end) ps with
          | Some l => run_ranks fuel ((λ mk, mk.2 (sum_matrices l.*1)) <$> l)
          | None =>
              match mapM (λ p, match p with Gather m k => Some (m, k) | _ => None end) ps with
              | Some l => run_ranks fuel (imap (λ r mk, mk.2 (if r =? 0 then Some l.*1 else None)) l)
              | None => None
              end
          end
      end
  end.

Lemma world_ext {A} tp (a : nat → A) p q : (∀ r, r < tp → p r = q r) → world tp a p → world tp a q.
Proof.
  intros Hpq Hp. destruct Hp as [p Hp|p m k Hp Hw|p m k Hp Hw].
  - apply world_ret. intros r Hr. rewrite <-Hpq; auto.
  - apply (world_all_reduce _ _ _ m k); [|done]. intros r Hr. rewrite <-Hpq; auto.
  - apply (world_gather _ _ _ m k); [|done]. intros r Hr. rewrite <-Hpq; auto.
Qed.
Lemma world_bind {A B} tp (a : nat → A) p (f : nat → A → Spmd R B) b :
  world tp a p → world tp b (λ r, f r (a r)) → world tp b (λ r, p r ≫= f r).
Proof.
  intros Hp Hf. induction Hp as [p Hp|p m k Hp _ IH|p m k Hp _ IH].
  - eapply world_ext; [|exact Hf]. intros r Hr. cbn beta. by rewrite Hp.
  - apply (world_all_reduce _ _ _ m (λ r x, k r x ≫= f r)); [|done]. intros r Hr. by rewrite Hp.
  - apply (world_gather _ _ _ m (λ r x, k r x ≫= f r)); [|done]. intros r Hr. by rewrite Hp.
Qed.
Lemma mapM_ranks {A B} tp (f : A → option B) (p : nat → A) (b : nat → B) : (∀ r, r < tp → f (p r) = Some (b r)) →
  mapM f (p <$> seq 0 tp) = Some (b <$> seq 0 tp).
Proof.
  intros Hf. apply mapM_Some. apply Forall2_fmap_l, Forall2_fmap_r, Forall_Forall2_diag, Forall_forall. intros r Hr%elem_of_seq. apply Hf. lia.
Qed.
Lemma mapM_rank_0 {A B} tp (f : A → option B) (p : nat → A) : 0 < tp → f (p 0) = None → mapM f (p <$> seq 0 tp) = None.
Proof. intros Htp Hf. destruct tp; [lia|]. cbn. by rewrite Hf. Qed.
Lemma imap_ranks {A B} tp (f : nat → A → B) (p : nat → A) : imap f (p <$> seq 0 tp) = (λ r, f r (p r)) <$> seq 0 tp.
Proof.
  apply list_eq. intros r. rewrite list_lookup_imap, !list_lookup_fmap.
  destruct (seq 0 tp !! r) as [k|] eqn:Hk; [|done]. apply lookup_seq in Hk as [-> _]. done.
Qed.
(** The ranks never wait for each other for ever: enough fuel runs them to their ends. *)
Lemma world_runs {A} tp (a : nat → A) p : 0 < tp → world tp a p → ∃ fuel, run_ranks fuel (p <$> seq 0 tp) = Some (a <$> seq 0 tp).
Proof.
  intros Htp Hp. induction Hp as [p Hp|p m k Hp _ [fuel IH]|p m k Hp _ [fuel IH]].
  - exists 1. cbn [run_ranks]. by rewrite (mapM_ranks tp _ p a) by (intros r Hr; by rewrite Hp).
  - exists (S fuel). cbn [run_ranks]. rewrite (mapM_rank_0 tp) by (done || by rewrite Hp).
    rewrite (mapM_ranks tp _ p (λ r, (m r, k r))) by (intros r Hr; by rewrite Hp). rewrite <-IH. f_equal. by rewrite <-!list_fmap_compose.
  - exists (S fuel). cbn [run_ranks]. rewrite (mapM_rank_0 tp) by (done || by rewrite Hp). rewrite (mapM_rank_0 tp) by (done || by rewrite Hp).
    rewrite (mapM_ranks tp _ p (λ r, (m r, k r))) by (intros r Hr; by rewrite Hp). rewrite <-IH, imap_ranks. cbn [snd]. f_equal. by rewrite <-!list_fmap_compose.
Qed.
End world.

(** ** Shards *)
Lemma take_zip_with {A B C} (f : A → B → C) n l k : take n (zip_with f l k) = zip_with f (take n l) (take n k).
Proof. revert l k. induction n as [|n IH]; intros [|x l] [|y k]; cbn; [done..|]. by rewrite IH. Qed.
Lemma drop_zip_with {A B C} (f : A → B → C) n l k : drop n (zip_with f l k) = zip_with f (drop n l) (drop n k).
Proof. revert l k. induction n as [|n IH]; intros [|x l] [|y k]; cbn; try done. by destruct (drop n l). Qed.
Lemma zip_with_fmap_same {A B C D} (f : B → C → D) (g : A → B) (h : A → C) l : zip_with f (g <$> l) (h <$> l) = (λ x, f (g x) (h x)) <$> l.
Proof. induction l as [|x l IH]; cbn; [done|]. by rewrite IH. Qed.
Section shards.
Context {A : Type}.
Implicit Types (l k : list A).
Lemma shard_lookup s r l i : i < s → shard s r l !! i = l !! (r * s + i).
Proof. intros Hi. unfold shard. by rewrite lookup_take_lt, lookup_drop by done. Qed.
Lemma shard_length s r n l : length l = n * s → r < n → length (shard s r l) = s.
Proof. intros Hl Hr. unfold shard. rewrite length_take, length_drop, Hl. nia. Qed.
Lemma shard_fmap {B} (f : A → B) s r l : shard s r (f <$> l) = f <$> shard s r l.
Proof. unfold shard. by rewrite fmap_take, fmap_drop. Qed.
Lemma shard_zip_with {B C} (f : A → B → C) s r l (k : list B) : shard s r (zip_with f l k) = zip_with f (shard s r l) (shard s r k).
Proof. unfold shard. by rewrite drop_zip_with, take_zip_with. Qed.
Lemma shard_whole s l : length l = s → shard s 0 l = l.
Proof. intros <-. unfold shard. cbn. by rewrite drop_0, firstn_all. Qed.
Lemma shard_S s r l : shard s (S r) l = shard s r (drop s l).
Proof. unfold shard. by rewrite drop_drop. Qed.
Lemma concat_shards s n l : length l = n * s → concat ((λ r, shard s r l) <$> seq 0 n) = l.
Proof.
  revert l. induction n as [|n IH]; intros l Hl; [by destruct l|]. cbn [seq fmap list_fmap concat].
  transitivity (take s l ++ drop s l); [|apply take_drop]. f_equal.
  rewrite <-(IH (drop s l)) by (rewrite length_drop; lia). rewrite <-seq_shift, <-list_fmap_compose. f_equal. apply list_fmap_ext. intros i r _.
  apply shard_S.
Qed.
Lemma view_row_length n s l : length (view_row n s l) = n.
Proof. unfold view_row. by rewrite length_fmap, length_seq. Qed.
Lemma view_row_lookup n s l h : h < n → view_row n s l !! h = Some (shard s h l).
Proof. intros Hh. unfold view_row. rewrite list_lookup_fmap, lookup_seq_lt by done. done. Qed.
Lemma shard_shard s m r h l : h < m → shard s h (shard (m * s) r l) = shard s (r * m + h) l.
Proof.
  intros Hh. unfold shard. rewrite List.skipn_firstn_comm, take_take, drop_drop. rewrite Nat.min_l by nia. f_equal. f_equal. lia.
Qed.
End shards.
Section heads.
Context {A : Type}.
Implicit Types (l : list A) (ls : list (list A)).
(** The heads of the part of rank [r] are its part of the heads. *)
Lemma view_row_shard tp n s r l : r < tp → view_row n s (shard (n * s) r l) = shard n r (view_row (tp * n) s l).
Proof.
  intros Hr. apply list_eq. intros h. destruct (decide (h < n)) as [Hh|Hh].
  - rewrite shard_lookup, !view_row_lookup by (done || nia). by rewrite shard_shard.
  - rewrite !lookup_ge_None_2; [done| |rewrite view_row_length; lia]. unfold shard. rewrite length_take. lia.
Qed.
Lemma concat_view_row n s l : length l = n * s → concat (view_row n s l) = l.
Proof. apply concat_shards. Qed.
Lemma concat_rows_length s ls : Forall (λ l, length l = s) ls → length (concat ls) = length ls * s.
Proof. induction 1; cbn; [done|]. rewrite length_app. lia. Qed.
Lemma concat_rows_drop s m ls : Forall (λ l, length l = s) ls → drop (m * s) (concat ls) = concat (drop m ls).
Proof.
  intros Hs. revert m. induction Hs as [|l ls Hl Hs IH]; intros [|m]; cbn; rewrite ?drop_nil, ?drop_0; [done..|].
  rewrite <-IH, <-drop_drop, drop_app_length'; done.
Qed.
Lemma concat_rows_take s m ls : Forall (λ l, length l = s) ls → take (m * s) (concat ls) = concat (take m ls).
Proof.
  intros Hs. revert m. induction Hs as [|l ls Hl Hs IH]; intros [|m]; cbn; rewrite ?take_nil, ?take_0; [done..|].
  rewrite <-IH, <-Hl, take_app_add. done.
Qed.
Lemma concat_shard s n r ls : Forall (λ l, length l = s) ls → concat (shard n r ls) = shard (n * s) r (concat ls).
Proof.
  intros Hs. unfold shard. rewrite Nat.mul_assoc, (concat_rows_drop s) by done. by rewrite (concat_rows_take s) by by apply Forall_drop.
Qed.
End heads.

(** ** Sums *)
Section sums.
Set Default Proof Using "Type*".
Context `{LawfulScalar R}.
Definition sum_scalars (l : list R) : R := match l with [] => s_zero | x :: l => foldl s_add x l end.
Lemma sum_scalars_cons x l : sum_scalars (x :: l) = s_add x (sum_scalars l).
Proof.
  destruct l as [|y l]; cbn; [by rewrite (comm s_add), (left_id s_zero s_add)|]. revert x y. induction l as [|z l IH]; intros x y; cbn; [done|].
  rewrite <-IH. f_equal. by rewrite (assoc s_add).
Qed.
Lemma dot_app x1 x2 w1 w2 : length x1 = length w1 → dot (x1 ++ x2) (w1 ++ w2) = s_add (dot x1 w1) (dot x2 w2).
Proof.
  intros Hl. unfold dot. rewrite zip_with_app by done. generalize (zip_with s_mul x1 w1) (zip_with s_mul x2 w2). intros l k.
  rewrite foldr_app. induction l as [|a l IH]; cbn; [by rewrite (left_id s_zero s_add)|]. by rewrite IH, (assoc s_add).
Qed.
(** A dot product is the sum of those of the parts. *)
Lemma dot_shards s n x w : length x = n * s → length w = n * s → dot x w = sum_scalars ((λ r, dot (shard s r x) (shard s r w)) <$> seq 0 n).
Proof.
  revert x w. induction n as [|n IH]; intros x w Hx Hw; [by destruct x|]. cbn [seq fmap list_fmap]. rewrite sum_scalars_cons.
  rewrite <-(take_drop s x) at 1. rewrite <-(take_drop s w) at 1. rewrite dot_app by (rewrite !length_take; lia). unfold shard at 1 2. cbn [Nat.mul].
  rewrite !drop_0. f_equal. rewrite IH by (rewrite length_drop; lia). rewrite <-seq_shift, <-list_fmap_compose. f_equal. apply list_fmap_ext.
  intros i r _. cbn. by rewrite !shard_S.
Qed.
Lemma foldl_add_matrices {X Y} (g : nat → X → Y → R) (ts : list X) (ws : list Y) f rs :
  foldl add_matrices ((λ t, (λ w, f t w) <$> ws) <$> ts) ((λ r, (λ t, (λ w, g r t w) <$> ws) <$> ts) <$> rs) =
  (λ t, (λ w, foldl s_add (f t w) ((λ r, g r t w) <$> rs)) <$> ws) <$> ts.
Proof.
  revert f. induction rs as [|r rs IH]; intros f; cbn; [done|]. rewrite <-(IH (λ t w, s_add (f t w) (g r t w))). f_equal.
  unfold add_matrices, add_vectors. rewrite zip_with_fmap_same. apply list_fmap_ext. intros i t _. by rewrite zip_with_fmap_same.
Qed.
(** A sum of matrices over the ranks, elementwise *)
Lemma sum_matrices_ranks {X Y} tp (g : nat → X → Y → R) (ts : list X) (ws : list Y) : 0 < tp →
  sum_matrices ((λ r, (λ t, (λ w, g r t w) <$> ws) <$> ts) <$> seq 0 tp) = (λ t, (λ w, sum_scalars ((λ r, g r t w) <$> seq 0 tp)) <$> ws) <$> ts.
Proof. intros Htp. destruct tp as [|tp]; [lia|]. cbn [seq fmap list_fmap sum_matrices sum_scalars]. apply foldl_add_matrices. Qed.
Lemma add_vectors_swap x y b : add_vectors (add_vectors x b) y = add_vectors (add_vectors x y) b.
Proof.
  unfold add_vectors. revert y b. induction x as [|a x IH]; intros [|c y] [|d b]; cbn; [done..|]. f_equal; [|done].
  by rewrite <-!(assoc s_add), (comm s_add c).
Qed.
(** Only rank 0 adds the bias. *)
Lemma sum_matrices_bias b m l : sum_matrices ((add_bias b <$> m) :: l) = add_bias b <$> sum_matrices (m :: l).
Proof.
  cbn. revert m. induction l as [|x l IH]; intros m; cbn; [done|]. rewrite <-IH. f_equal. destruct b as [b|]; cbn; [|by rewrite !list_fmap_id].
  unfold add_matrices. revert x. induction m as [|a m IHm]; intros [|y x]; cbn; [done..|]. by rewrite add_vectors_swap, IHm.
Qed.
End sums.
