(* ===== verification/ParallelLinear.v ===== *)
(** * Parallel layers

    Models [layers/linear.py] and [layers/embed_head.py]: the parts of a weight each rank keeps, the [weight_loader]s that
    cut them out of a checkpoint, and the forward passes with their collective operations. The dimension a column-parallel
    layer is cut along is 0, that of a row-parallel one 1. *)
From S2P Require Import Prelude ModelRunner Tensor.
Set Default Goal Selector "!".
Set Default Proof Using "Type".

(** ** Parameters *)
Inductive Tensor (R : Type) := T1 (v : Vector R) | T2 (m : Matrix R).
Arguments T1 {R}.
Arguments T2 {R}.
(** [torch.empty], and [copy_] between different shapes, which broadcasts or raises *)
Class TorchParam (R : Type) := {
  empty1 : nat → Vector R;
  empty2 : nat → nat → Matrix R;
  copy_broadcast : Tensor R → Tensor R → result (Tensor R)
}.
Definition shaped {R} (rows cols : nat) (m : Matrix R) : Prop := length m = rows ∧ Forall (λ x, length x = cols) m.
Class LawfulTorchParam (R : Type) `{TorchParam R} := {
  empty1_length n : length (empty1 n) = n;
  empty2_shaped n k : shaped n k (empty2 n k)
}.
(** The loaded part, for the layers that pack several weights in one *)
Inductive ShardId := ShardIndex (i : nat) | ShardName (s : string).
(** The [weight_loader] attribute of a parameter: the method and the fields of the layer it reads *)
Inductive Loader :=
| NoLoader
| ReplicatedLoader
| ColumnLoader (tp_rank : nat)
| MergedLoader (output_sizes : list nat) (tp_rank tp_size : nat)
| QKVLoader (head_size num_heads num_kv_heads tp_rank tp_size : nat)
| RowLoader (tp_rank : nat)
| VocabLoader (tp_rank : nat).
Record Param (R : Type) := mkParam { pa_data : Tensor R; pa_loader : Loader }.
Arguments mkParam {R}.
Arguments pa_data {R}.
Arguments pa_loader {R}.

Definition divide (numerator denominator : nat) : result nat :=
  throw_if (denominator =? 0) (ZeroDivisionError "integer modulo by zero");;
  throw_if (negb (numerator mod denominator =? 0)) (AssertionError "");;
  mret (numerator / denominator).

Section loaders.
Context `{TorchParam R}.
Implicit Types (data w : Tensor R).
Definition shape_of data : list nat := match data with T1 v => [length v] | T2 m => [length m; length (default [] (head m))] end.
Definition size_0 data : nat := match data with T1 v => length v | T2 m => length m end.
(** [data.copy_(w)] *)
Definition copy_ data w : result (Tensor R) := if bool_decide (shape_of data = shape_of w) then inr w else copy_broadcast data w.
Definition narrow_0 (start len : nat) data : result (Tensor R) :=
  match data with T1 v => v ← narrow start len v; mret (T1 v) | T2 m => m ← narrow start len m; mret (T2 m) end.
Definition chunk_0 (n : nat) data : list (Tensor R) := match data with T1 v => T1 <$> chunk n v | T2 m => T2 <$> chunk n m end.
Definition splice {A} (start len : nat) (l part : list A) : list A := take start l ++ part ++ drop (start + len) l.
(** [view = data.narrow(0, start, len)], then [view.copy_(w)], which writes through; [w] is computed in between. *)
Definition narrow_copy_ (start len : nat) data (w : result (Tensor R)) : result (Tensor R) :=
  view ← narrow_0 start len data;
  w ← w;
  part ← copy_ view w;
  mret match data, part with
       | T1 v, T1 p => T1 (splice start len v p)
       | T2 m, T2 p => T2 (splice start len m p)
       | _, _ => data
       end.
(** [ColumnParallelLinear.weight_loader] *)
Definition column_weight_loader (tp_rank : nat) data w : result (Tensor R) :=
  let shard_size := size_0 data in
  let start_idx := tp_rank * shard_size in
  w ← narrow_0 start_idx shard_size w;
  copy_ data w.
Definition chunk_of_rank (tp_rank tp_size : nat) w : result (Tensor R) := 
  match chunk_0 tp_size w !! tp_rank with Some w => mret w | None => throw (IndexError "tuple index out of range") end.
(** [MergedColumnParallelLinear.weight_loader] *)
Definition merged_weight_loader (output_sizes : list nat) (tp_rank tp_size : nat) data w (loaded_shard_id : nat) : result (Tensor R) :=
  let shard_offset := nsum (take loaded_shard_id output_sizes) / tp_size in
  size ← py_nth output_sizes (Z.of_nat loaded_shard_id);
  narrow_copy_ shard_offset (size / tp_size) data (chunk_of_rank tp_rank tp_size w).
(** [QKVParallelLinear.weight_loader] *)
Definition qkv_weight_loader (head_size num_heads num_kv_heads tp_rank tp_size : nat) data w (loaded_shard_id : string) : result (Tensor R) :=
  throw_if (negb (existsb (String.eqb loaded_shard_id) ["q"; "k"; "v"])) (AssertionError "");;
  let '(shard_size, shard_offset) :=
    if String.eqb loaded_shard_id "q" then (num_heads * head_size, 0)
    else if String.eqb loaded_shard_id "k" then (num_kv_heads * head_size, num_heads * head_size)
    else (num_kv_heads * head_size, num_heads * head_size + num_kv_heads * head_size) in
  narrow_copy_ shard_offset shard_size data (chunk_of_rank tp_rank tp_size w).
(** [RowParallelLinear.weight_loader] *)
Definition row_weight_loader (tp_rank : nat) data w : result (Tensor R) :=
  match data with
  | T1 _ => copy_ data w
  | T2 m =>
      let shard_size := length (default [] (head m)) in
      let start_idx := tp_rank * shard_size in
      w ← match w with T2 w => w ← mapR (narrow start_idx shard_size) w; mret (T2 w) | T1 _ => inl (IndexError "Dimension out of range") end;
      copy_ data w
  end.
(** [VocabParallelEmbedding.weight_loader] *)
Definition vocab_weight_loader (tp_rank : nat) data w : result (Tensor R) :=
  let shard_size := size_0 data in
  let start_idx := tp_rank * shard_size in
  w ← narrow_0 start_idx shard_size w;
  copy_ data w.
(** [param.weight_loader(param, w)], or with the loaded part as a third argument *)
Definition weight_loader (p : Param R) w (loaded_shard_id : option ShardId) : result (Param R) :=
  let data := pa_data p in
  data' ← match pa_loader p, loaded_shard_id with
          | NoLoader, _ => inl (AttributeError "'Parameter' object has no attribute 'weight_loader'")
          | ReplicatedLoader, None => copy_ data w
          | ColumnLoader tp_rank, None => column_weight_loader tp_rank data w
          | MergedLoader output_sizes tp_rank tp_size, Some (ShardIndex i) => merged_weight_loader output_sizes tp_rank tp_size data w i
          | QKVLoader head_size num_heads num_kv_heads tp_rank tp_size, Some (ShardName s) =>
              qkv_weight_loader head_size num_heads num_kv_heads tp_rank tp_size data w s
          | QKVLoader _ _ _ _ _, Some (ShardIndex _) => inl (AssertionError "")
          | RowLoader tp_rank, None => row_weight_loader tp_rank data w
          | VocabLoader tp_rank, None => vocab_weight_loader tp_rank data w
          | _, _ => inl (TypeError "weight_loader() takes a different number of arguments")
          end;
  mret (mkParam data' (pa_loader p)).

(** ** Layers *)
Record Linear := mkLinear { ln_tp_rank : nat; ln_tp_size : nat; ln_weight : Param R; ln_bias : option (Param R) }.
(** [LinearBase.__init__], with the loader of the subclass *)
Definition linear_base (tp_rank tp_size input_size output_size : nat) (bias : bool) (loader : Loader) : Linear :=
  mkLinear tp_rank tp_size (mkParam (T2 (empty2 output_size input_size)) loader)
    (if bias then Some (mkParam (T1 (empty1 output_size)) loader) else None).
Definition replicated_linear (tp_rank tp_size input_size output_size : nat) (bias : bool) : Linear :=
  linear_base tp_rank tp_size input_size output_size bias ReplicatedLoader.
Definition column_parallel_linear (loader : Loader) (tp_rank tp_size input_size output_size : nat) (bias : bool) : result Linear :=
  part ← divide output_size tp_size;
  mret (linear_base tp_rank tp_size input_size part bias loader).
Definition merged_column_parallel_linear (tp_rank tp_size input_size : nat) (output_sizes : list nat) (bias : bool) : result Linear :=
  column_parallel_linear (MergedLoader output_sizes tp_rank tp_size) tp_rank tp_size input_size (nsum output_sizes) bias.
Definition qkv_parallel_linear (tp_rank tp_size hidden_size head_size total_num_heads : nat) (total_num_kv_heads : option nat) (bias : bool) :
    result Linear :=
  let total_num_kv_heads := match total_num_kv_heads with Some (S _ as n) => n | _ => total_num_heads end in
  num_heads ← divide total_num_heads tp_size;
  num_kv_heads ← divide total_num_kv_heads tp_size;
  let output_size := (total_num_heads + 2 * total_num_kv_heads) * head_size in
  column_parallel_linear (QKVLoader head_size num_heads num_kv_heads tp_rank tp_size) tp_rank tp_size hidden_size output_size bias.
Definition row_parallel_linear (tp_rank tp_size input_size output_size : nat) (bias : bool) : result Linear :=
  part ← divide input_size tp_size;
  mret (linear_base tp_rank tp_size part output_size bias (RowLoader tp_rank)).

Definition matrix (p : Param R) : Matrix R := match pa_data p with T2 m => m | T1 v => [v] end.
Definition vector (p : Param R) : Vector R := match pa_data p with T1 v => v | T2 m => concat m end.
Context `{Scalar R, TorchNN R}.
(** [forward] of [ReplicatedLinear] and [ColumnParallelLinear] *)
Definition linear_forward (l : Linear) (x : Matrix R) : Matrix R := linear x (matrix (ln_weight l)) (vector <$> ln_bias l).
(** [RowParallelLinear.forward] *)
Definition row_forward (l : Linear) (x : Matrix R) : Spmd R (Matrix R) :=
  let y := linear x (matrix (ln_weight l)) (if ln_tp_rank l =? 0 then vector <$> ln_bias l else None) in
  if 1 <? ln_tp_size l then all_reduce y else mret y.

(** ** The vocabulary *)
Record VocabParallelEmbedding := mkVocab {
  ve_tp_rank : nat; ve_tp_size : nat; ve_vocab_start_idx : nat; ve_vocab_end_idx : nat; ve_weight : Param R }.
Definition vocab_parallel_embedding (tp_rank tp_size num_embeddings embedding_dim : nat) : result VocabParallelEmbedding :=
  throw_if (tp_size =? 0) (ZeroDivisionError "integer modulo by zero");;
  throw_if (negb (num_embeddings mod tp_size =? 0)) (AssertionError "");;
  let per_partition := num_embeddings / tp_size in
  let vocab_start_idx := per_partition * tp_rank in
  mret (mkVocab tp_rank tp_size vocab_start_idx (vocab_start_idx + per_partition)
    (mkParam (T2 (empty2 per_partition embedding_dim)) (VocabLoader tp_rank))).
Definition in_partition (e : VocabParallelEmbedding) (id : Z) : bool :=
  ((Z.of_nat (ve_vocab_start_idx e) <=? id) && (id <? Z.of_nat (ve_vocab_end_idx e)))%Z.
Definition of_bool (b : bool) : R := if b then s_one else s_zero.
Definition embedding_forward (e : VocabParallelEmbedding) (x : list Z) : Spmd R (Matrix R) :=
  let mask := in_partition e <$> x in
  let x := if 1 <? ve_tp_size e then zip_with (λ (m : bool) id, if m then id - Z.of_nat (ve_vocab_start_idx e) else 0)%Z mask x else x in
  y ← lift_spmd (embedding x (matrix (ve_weight e)));
  if 1 <? ve_tp_size e then all_reduce (zip_with (λ m row, s_mul (of_bool m) <$> row) mask y) else mret y.
(** [x[cu_seqlens_q[1:] - 1]]; a negative index counts from the end. *)
Definition take_last (cu_seqlens_q : list Z) (x : Matrix R) : result (Matrix R) :=
  mapR (λ i, py_nth x (i - 1)%Z) (tail cu_seqlens_q).
(** [ParallelLMHead.forward]: rank 0 has the logits. *)
Definition lm_head_forward (e : VocabParallelEmbedding) (context : AttentionContext) (x : Matrix R) : Spmd R (option (Matrix R)) :=
  x ← lift_spmd (if cx_is_prefill context
                 then match cx_cu_seqlens_q context with
                      | Some l => take_last l x
                      | None => inl (TypeError "'NoneType' object is not subscriptable")
                      end
                 else mret x);
  let logits := linear x (matrix (ve_weight e)) None in
  if 1 <? ve_tp_size e then
    all_logits ← gather logits;
    (** [torch.cat(all_logits, -1)] *)
    mret ((λ l, foldl (zip_with app) (replicate (length x) []) l) <$> all_logits)
  else mret (Some logits).
End loaders.
