(* ===== verification/ParallelSpec.v ===== *)
(** * What the parallel layers compute

    The weight loaders leave each rank its part of every packed weight, in whatever order the parts are loaded; and the
    ranks together compute what a single rank with the whole weights does. *)
From S2P Require Import Prelude ModelRunner Tensor ParallelLinear.
Set Default Goal Selector "!".
Set Default Proof Using "Type*".

(** ** Row-parallel layers, the embedding and the logits *)
Section forward.
Context `{HS : Scalar R, HLS : !LawfulScalar R, HT : TorchNN R, HLT : !LawfulTorchNN R}.
Definition sum_vectors (l : list (Vector R)) : Vector R := match l with [] => [] | v :: l => foldl add_vectors v l end.
Lemma sum_matrices_rows {X} tp (G : nat → X → Vector R) (ts : list X) : 0 < tp →
  sum_matrices ((λ r, G r <$> ts) <$> seq 0 tp) = (λ t, sum_vectors ((λ r, G r t) <$> seq 0 tp)) <$> ts.
Proof.
  clear. intros Htp. destruct tp as [|tp]; [lia|]. cbn [seq fmap list_fmap sum_matrices sum_vectors]. change (list_fmap _ _ (G 0) ts) with (G 0 <$> ts).
  generalize (G 0) as F. induction (seq 1 tp) as [|r rs IH]; intros F; cbn [fmap list_fmap foldl]; [done|].
  unfold add_matrices at 2. change (list_fmap _ _ F ts) with (F <$> ts). change (list_fmap _ _ (G r) ts) with (G r <$> ts).
  rewrite zip_with_fmap_same. rewrite IH. done.
Qed.
Lemma sum_vectors_ranks {Y} tp (g : nat → Y → R) (ws : list Y) : 0 < tp →
  sum_vectors ((λ r, g r <$> ws) <$> seq 0 tp) = (λ w, sum_scalars ((λ r, g r w) <$> seq 0 tp)) <$> ws.
Proof.
  clear. intros Htp. destruct tp as [|tp]; [lia|]. cbn [seq fmap list_fmap sum_vectors sum_scalars]. change (list_fmap _ _ (g 0) ws) with (g 0 <$> ws).
  generalize (g 0) as F. induction (seq 1 tp) as [|r rs IH]; intros F; cbn [fmap list_fmap foldl]; [done|].
  unfold add_vectors at 2. change (list_fmap _ _ F ws) with (F <$> ws). change (list_fmap _ _ (g r) ws) with (g r <$> ws).
  rewrite zip_with_fmap_same. rewrite IH. done.
Qed.
(** The weights of a row-parallel layer, cut along the input *)
Record row_sharded (tp r s : nat) (l lr : Linear (R := R)) : Prop := {
  rs_rank : ln_tp_rank lr = r;
  rs_size : ln_tp_size lr = tp;
  rs_whole_rank : ln_tp_rank l = 0;
  rs_whole_size : ln_tp_size l = 1;
  rs_cols : Forall (λ row, length row = tp * s) (matrix (ln_weight l));
  rs_weight : matrix (ln_weight lr) = shard s r <$> matrix (ln_weight l);
  rs_bias : vector <$> ln_bias lr = vector <$> ln_bias l
}.
Lemma row_whole l x : ln_tp_rank l = 0 → ln_tp_size l = 1 → row_forward l x = Ret (linear_forward l x).
Proof. intros Hr Hs. unfold row_forward. by rewrite Hr, Hs. Qed.
(** Each rank multiplies its part of the input with its part of the weights: the sum is the whole product. *)
Lemma row_forward_world tp s l (lr : nat → Linear) x : 0 < tp → (∀ r, r < tp → row_sharded tp r s l (lr r)) → Forall (λ row, length row = tp * s) x →
  world tp (λ _, linear_forward l x) (λ r, row_forward (lr r) (shard s r <$> x)).
Proof.
  intros Htp Hl Hx. assert (Hcols : Forall (λ row, length row = tp * s) (matrix (ln_weight l))) by apply (rs_cols _ _ _ _ _ (Hl 0 Htp)).
  set (W := matrix (ln_weight l)) in *. set (b := vector <$> ln_bias l).
  assert (Hrow : ∀ r, r < tp → linear (shard s r <$> x) (matrix (ln_weight (lr r))) (if ln_tp_rank (lr r) =? 0 then vector <$> ln_bias (lr r) else None) =
    (λ xi, add_bias (if r =? 0 then b else None) ((λ w, dot (shard s r xi) (shard s r w)) <$> W)) <$> x).
  { intros r Hr. destruct (Hl r Hr) as [-> _ _ _ _ -> ->]. rewrite linear_spec, <-list_fmap_compose. apply list_fmap_ext. intros i xi _. cbn.
    by rewrite <-list_fmap_compose. }
  assert (Hsum : sum_matrices ((λ r, (λ xi, add_bias (if r =? 0 then b else None) ((λ w, dot (shard s r xi) (shard s r w)) <$> W)) <$> x) <$> seq 0 tp) =
    linear_forward l x).
  { unfold linear_forward. rewrite linear_spec. fold W b.
    transitivity (add_bias b <$> sum_matrices ((λ r, (λ xi, (λ w, dot (shard s r xi) (shard s r w)) <$> W) <$> x) <$> seq 0 tp)).
    - destruct tp as [|tp]; [lia|]. cbn [seq fmap list_fmap]. rewrite <-sum_matrices_bias. f_equal. f_equal; [by rewrite <-list_fmap_compose|].
      rewrite <-!seq_shift, <-!list_fmap_compose. apply list_fmap_ext. intros i r _. done.
    - rewrite sum_matrices_ranks by done. rewrite <-list_fmap_compose. apply list_fmap_ext. intros i xi Hxi. cbn. f_equal. apply list_fmap_ext.
      intros j w Hw. symmetry. apply dot_shards; [by apply (Forall_lookup_1 _ _ _ _ Hx Hxi)|by apply (Forall_lookup_1 _ _ _ _ Hcols Hw)]. }
  unfold row_forward. destruct (decide (tp = 1)) as [->|Hne].
  - apply world_ret. intros r Hr. rewrite (rs_size _ _ _ _ _ (Hl r Hr)), Hrow by done. cbn. f_equal. rewrite <-Hsum. cbn. by replace r with 0 by lia.
  - eapply (world_all_reduce _ _ _ _ (λ _, Ret)); [intros r Hr; rewrite (rs_size _ _ _ _ _ (Hl r Hr)), Hrow by done|].
    + by replace (1 <? tp) with true by (symmetry; apply Nat.ltb_lt; lia).
    + apply world_ret. intros r Hr. by rewrite Hsum.
Qed.

(** The rows of the embedding, cut along the vocabulary *)
Record vocab_sharded (tp r per cols : nat) (e er : VocabParallelEmbedding (R := R)) : Prop := {
  vs_size : ve_tp_size er = tp;
  vs_start : ve_vocab_start_idx er = per * r;
  vs_end : ve_vocab_end_idx er = per * r + per;
  vs_whole_size : ve_tp_size e = 1;
  vs_shaped : shaped (tp * per) cols (matrix (ve_weight e));
  vs_weight : matrix (ve_weight er) = shard per r (matrix (ve_weight e))
}.
Lemma sum_scalars_one tp r0 x : r0 < tp → sum_scalars ((λ r, s_mul (of_bool (r =? r0)) x) <$> seq 0 tp) = x.
Proof.
  intros Hr. assert (Hz : ∀ l, r0 ∉ l → sum_scalars ((λ r, s_mul (of_bool (r =? r0)) x) <$> l) = s_zero).
  { induction l as [|r l IH]; intros Hl; [done|]. cbn [fmap list_fmap]. rewrite sum_scalars_cons. apply not_elem_of_cons in Hl as [Hne Hl].
    rewrite (proj2 (Nat.eqb_neq r r0)) by done. cbn. by rewrite IH, mul_zero, (left_id s_zero s_add). }
  replace (seq 0 tp) with (seq 0 r0 ++ r0 :: seq (S r0) (tp - S r0)) by (change (r0 :: _) with (seq r0 (S (tp - S r0))); rewrite <-seq_app; f_equal; lia).
  generalize (Hz (seq (S r0) (tp - S r0))) as Hr1. generalize (Hz (seq 0 r0)) as Hr0. intros Hr0 Hr1.
  assert (Hn0 : r0 ∉ seq 0 r0) by (rewrite elem_of_seq; lia). assert (Hn1 : r0 ∉ seq (S r0) (tp - S r0)) by (rewrite elem_of_seq; lia).
  clear Hz Hr0 Hn1. specialize (Hr1 ltac:(rewrite elem_of_seq; lia)). revert Hr1. generalize (seq (S r0) (tp - S r0)) as l1. intros l1 Hr1.
  induction (seq 0 r0) as [|r l IH]; cbn [app fmap list_fmap]; rewrite sum_scalars_cons.
  - rewrite Nat.eqb_refl. cbn. change (list_fmap _ _ ?f l1) with (f <$> l1). rewrite Hr1. by rewrite mul_one, (comm s_add), (left_id s_zero s_add).
  - apply not_elem_of_cons in Hn0 as [Hne Hn0]. rewrite (proj2 (Nat.eqb_neq r r0)) by done. cbn. rewrite mul_zero, (left_id s_zero s_add). by apply IH.
Qed.
(** The rank that has the row of a token *)
Definition home (per : nat) (id : Z) : nat := Z.to_nat id / per.
Lemma in_partition_home tp r per cols e er id row : vocab_sharded tp r per cols e er → (0 <= id)%Z → matrix (ve_weight e) !! Z.to_nat id = Some row →
  per ≠ 0 ∧ home per id < tp ∧ in_partition er id = (r =? home per id).
Proof.
  clear. intros He Hid Hl. apply lookup_lt_Some in Hl. destruct (vs_shaped _ _ _ _ _ _ He) as [Hrows _].
  assert (Hper : per ≠ 0) by nia. split_and!; [done|unfold home; apply Nat.Div0.div_lt_upper_bound; nia|].
  unfold in_partition, home. rewrite (vs_start _ _ _ _ _ _ He), (vs_end _ _ _ _ _ _ He).
  apply eq_bool_prop_intro. rewrite !Is_true_true, andb_true_iff, Z.leb_le, Z.ltb_lt, Nat.eqb_eq.
  pose proof (Nat.div_mod (Z.to_nat id) per Hper). pose proof (Nat.mod_upper_bound (Z.to_nat id) per Hper). split; [intros [? ?]|intros ->; nia].
  apply (Nat.div_unique _ _ _ (Z.to_nat id - per * r)); lia.
Qed.
Lemma mul_false (l : Vector R) : s_mul (of_bool false) <$> l = replicate (length l) s_zero.
Proof. induction l as [|a l IH]; [done|]. cbn. by rewrite mul_zero, <-IH. Qed.
Definition masked (per r : nat) (p : Z * Vector R) : Vector R := s_mul (of_bool (r =? home per p.1)) <$> p.2.
(** What rank [r] looks up, and what is left of it behind the mask *)
Lemma masked_lookup tp r per cols e er x y : r < tp → vocab_sharded tp r per cols e er →
  Forall2 (λ i row, (0 <= i)%Z ∧ matrix (ve_weight e) !! Z.to_nat i = Some row) x y →
  ∃ ys, embedding (zip_with (λ (m : bool) id, if m then id - Z.of_nat (ve_vocab_start_idx er) else 0)%Z (in_partition er <$> x) x)
          (matrix (ve_weight er)) = inr ys ∧
        zip_with (λ (m : bool) row, s_mul (of_bool m) <$> row) (in_partition er <$> x) ys = masked per r <$> zip x y.
Proof.
  intros Hr He Hx. setoid_rewrite embedding_spec. destruct (vs_shaped _ _ _ _ _ _ He) as [Hrows Hcols]. rewrite (vs_weight _ _ _ _ _ _ He).
  set (W := matrix (ve_weight e)) in *. induction Hx as [|id row x y [Hid Hl] _ (ys & Hys & Heq)]; [exists []; split; [constructor|done]|].
  cbn [fmap list_fmap zip_with]. destruct (in_partition_home _ _ _ _ _ _ _ _ He Hid Hl) as (Hper & Hhome & ->). unfold home in *.
  pose proof (lookup_lt_Some _ _ _ Hl) as Hlt. pose proof (Nat.div_mod (Z.to_nat id) per Hper). pose proof (Nat.mod_upper_bound (Z.to_nat id) per Hper).
  destruct (r =? Z.to_nat id / per) eqn:Hh; breflect.
  - exists (row :: ys). split; [constructor; [|done]|cbn; unfold masked at 1; cbn; unfold home; by rewrite <-Hh, Nat.eqb_refl, Heq].
    rewrite (vs_start _ _ _ _ _ _ He). split; [nia|]. rewrite shard_lookup by nia. rewrite <-Hl. f_equal. nia.
  - assert (Hex : is_Some (shard per r W !! 0)) by (rewrite shard_lookup by lia; apply lookup_lt_is_Some_2; nia).
    destruct Hex as [row' Hrow']. exists (row' :: ys). split; [constructor; [by split|done]|]. cbn. unfold masked at 1. cbn. unfold home.
    rewrite (proj2 (Nat.eqb_neq r _)) by done. rewrite !mul_false, Heq. do 2 f_equal. transitivity cols; [|symmetry].
    + rewrite shard_lookup in Hrow' by lia. by apply (Forall_lookup_1 _ _ _ _ Hcols Hrow').
    + by apply (Forall_lookup_1 _ _ _ _ Hcols Hl).
Qed.
(** Each rank looks up the tokens of its part and zeroes the others: the sum is the embedding. *)
Lemma embedding_forward_world tp per cols e (er : nat → VocabParallelEmbedding) x y : 0 < tp → (∀ r, r < tp → vocab_sharded tp r per cols e (er r)) →
  embedding_forward e x = Ret y → world tp (λ _, y) (λ r, embedding_forward (er r) x).
Proof.
  intros Htp He Hy. pose proof (He 0 Htp) as He0. unfold embedding_forward in Hy. rewrite (vs_whole_size _ _ _ _ _ _ He0) in Hy. cbn in Hy.
  destruct (embedding x _) as [?|y'] eqn:Hx; [done|]. injection Hy as ->. pose proof Hx as Hemb. apply embedding_spec in Hx.
  destruct (decide (tp = 1)) as [->|Hne].
  { apply world_ret. intros r Hr. unfold embedding_forward. rewrite (vs_size _ _ _ _ _ _ (He r Hr)), (vs_weight _ _ _ _ _ _ (He r Hr)). cbn.
    replace r with 0 by lia. rewrite shard_whole by (destruct (vs_shaped _ _ _ _ _ _ He0); lia). by rewrite Hemb. }
  apply (world_all_reduce _ _ _ (λ r, masked per r <$> zip x y) (λ _, Ret)).
  { intros r Hr. destruct (masked_lookup tp r per cols e (er r) x y Hr (He r Hr) Hx) as (ys & Hys & Heq). unfold embedding_forward.
    rewrite (vs_size _ _ _ _ _ _ (He r Hr)). replace (1 <? tp) with true by (symmetry; apply Nat.ltb_lt; lia). by rewrite Hys, <-Heq. }
  apply world_ret. intros r Hr. f_equal. rewrite (sum_matrices_rows tp (masked per)) by done. transitivity ((zip x y).*2).
  - apply list_fmap_ext. intros i [id row] [Hi1 Hi2]%lookup_zip_Some. destruct (Forall2_lookup_lr _ _ _ _ _ _ Hx Hi1 Hi2) as [Hid Hl].
    unfold masked. cbn. rewrite (sum_vectors_ranks tp (λ r, s_mul (of_bool (r =? home per id)))) by done. rewrite <-(list_fmap_id row) at 2.
    apply list_fmap_ext. intros j a _. apply sum_scalars_one. by destruct (in_partition_home _ _ _ _ _ _ _ _ He0 Hid Hl) as (_ & ? & _).
  - apply snd_zip. by apply Forall2_length in Hx as ->.
Qed.
(** Rank 0 gathers the logits of the whole vocabulary. *)
Lemma cat_ranks {X} tp (G : nat → X → Vector R) (ts : list X) n : n = length ts →
  foldl (zip_with app) (replicate n []) ((λ r, G r <$> ts) <$> seq 0 tp) = (λ t, concat ((λ r, G r t) <$> seq 0 tp)) <$> ts.
Proof.
  clear. intros ->. replace (replicate (length ts) []) with ((λ _, []) <$> ts : Matrix R) by (induction ts as [|t ts IH]; cbn; [done|by rewrite <-IH]).
  assert (Hg : ∀ (F : X → Vector R) rs, foldl (zip_with app) (F <$> ts) ((λ r, G r <$> ts) <$> rs) = (λ t, F t ++ concat ((λ r, G r t) <$> rs)) <$> ts).
  { intros F rs. revert F. induction rs as [|r rs IH]; intros F; cbn [fmap list_fmap foldl concat].
    - apply list_fmap_ext. intros i t _. by rewrite app_nil_r.
    - change (list_fmap _ _ ?f ts) with (f <$> ts). rewrite zip_with_fmap_same, IH. apply list_fmap_ext. intros i t _. by rewrite <-app_assoc. }
  apply (Hg (λ _, [])).
Qed.
Lemma lm_head_forward_world tp per cols e (er : nat → VocabParallelEmbedding) context x y : 0 < tp → (∀ r, r < tp → vocab_sharded tp r per cols e (er r)) →
  lm_head_forward e context x = Ret y → world tp (λ r, if r =? 0 then y else None) (λ r, lm_head_forward (er r) context x).
Proof.
  intros Htp He Hy. destruct (vs_shaped _ _ _ _ _ _ (He 0 Htp)) as [Hrows Hcols]. set (W := matrix (ve_weight e)) in *.
  unfold lm_head_forward in *. destruct (lift_spmd _) as [x'| | |]; [|done..]. cbn [mbind Spmd_bind] in *. rewrite (vs_whole_size _ _ _ _ _ _ (He 0 Htp)) in Hy.
  cbn in Hy. injection Hy as <-. fold W. destruct (decide (tp = 1)) as [->|Hne].
  { apply world_ret. intros r Hr. rewrite (vs_size _ _ _ _ _ _ (He r Hr)), (vs_weight _ _ _ _ _ _ (He r Hr)). replace r with 0 by lia. fold W.
    by rewrite shard_whole by lia. }
  apply (world_gather _ _ _ (λ r, (λ xi, shard per r (dot xi <$> W)) <$> x') (λ r o, Ret ((λ l, foldl (zip_with app) (replicate (length x') []) l) <$> o))).
  - intros r Hr. rewrite (vs_size _ _ _ _ _ _ (He r Hr)), (vs_weight _ _ _ _ _ _ (He r Hr)). fold W.
    replace (1 <? tp) with true by (symmetry; apply Nat.ltb_lt; lia). rewrite linear_spec. cbn. f_equal. apply list_fmap_ext. intros i xi _. cbn.
    by rewrite shard_fmap.
  - apply world_ret. intros r Hr. destruct (r =? 0); [|done]. cbn. do 2 f_equal. rewrite (cat_ranks tp (λ r xi, shard per r (dot xi <$> W))) by done.
    rewrite linear_spec. apply list_fmap_ext. intros i xi _. cbn. apply concat_shards. by rewrite length_fmap.
Qed.
End forward.
