(* ===== verification/Qwen3.v ===== *)
(** * The Qwen3 model

    Models [layers/activation.py], [layers/layernorm.py], [layers/rotary_embedding.py], [layers/attention.py],
    [layers/sampler.py] and [models/qwen3.py]: what one rank computes. The attention kernels of [flash_attn] are the
    interface [FlashAttention]; a forward pass returns the layers with their caches written. *)
From S2P Require Import Prelude ModelRunner Tensor ParallelLinear.
Set Default Goal Selector "!".
Set Default Proof Using "Type".

(** ** Elementwise layers *)
Section layers.
Context `{Scalar R}.
(** [SiluAndMul] *)
Definition silu_and_mul_row (row : Vector R) : Vector R :=
  match chunk 2 row with [x; y] => zip_with s_mul (s_silu <$> x) y | _ => [] end.
Definition silu_and_mul (x : Matrix R) : Matrix R := silu_and_mul_row <$> x.
(** [RMSNorm] *)
Record RMSNorm := mkRMSNorm { rn_eps : R; rn_weight : Param R }.
Definition rms_norm (hidden_size : nat) (eps : R) : RMSNorm := mkRMSNorm eps (mkParam (T1 (replicate hidden_size s_one)) NoLoader).
Definition mean (x : Vector R) : R := s_div (foldr s_add s_zero x) (s_of_nat (length x)).
Definition normalize (eps : R) (x : Vector R) : Vector R :=
  let var := mean ((λ a, s_mul a a) <$> x) in
  (λ a, s_mul a (s_rsqrt (s_add var eps))) <$> x.
Definition rms_row (n : RMSNorm) (x : Vector R) : Vector R :=
  zip_with s_mul (to_dtype <$> normalize (rn_eps n) (to_float <$> x)) (vector (rn_weight n)).
Definition rms_forward (n : RMSNorm) (x : Matrix R) : Matrix R := rms_row n <$> x.
(** A row of [add_rms_forward]: the normalized sum, and the sum *)
Definition add_rms_row (n : RMSNorm) (x residual : Vector R) : Vector R * Vector R :=
  let x := add_vectors (to_float <$> x) (to_float <$> residual) in
  (zip_with s_mul (to_dtype <$> normalize (rn_eps n) x) (vector (rn_weight n)), to_dtype <$> x).
Definition add_rms_forward (n : RMSNorm) (x residual : Matrix R) : Matrix R * Matrix R :=
  let rows := zip_with (add_rms_row n) x residual in (rows.*1, rows.*2).
(** [RotaryEmbedding]: the row of [cos_sin_cache] at each position *)
Definition apply_rotary_emb (x cos sin : Vector R) : Vector R :=
  match chunk 2 (to_float <$> x) with
  | [x1; x2] =>
      let y1 := zip_with s_sub (zip_with s_mul x1 cos) (zip_with s_mul x2 sin) in
      let y2 := zip_with s_add (zip_with s_mul x2 cos) (zip_with s_mul x1 sin) in
      to_dtype <$> (y1 ++ y2)
  | _ => []
  end.
Definition inv_freq (rotary_dim : nat) (base : R) : Vector R :=
  (λ i, s_div s_one (s_pow base (s_div (s_of_nat (2 * i)) (s_of_nat rotary_dim)))) <$> seq 0 ((rotary_dim + 1) / 2).
Definition rotary_embedding (head_size rotary_dim max_position_embeddings : nat) (base : R) : result (Matrix R) :=
  throw_if (negb (rotary_dim =? head_size)) (AssertionError "");;
  mret ((λ t, let freqs := s_mul (s_of_nat t) <$> inv_freq rotary_dim base in (s_cos <$> freqs) ++ (s_sin <$> freqs)) <$> seq 0 max_position_embeddings).
(** [cos_sin_cache[positions]]; a negative position counts from the end. *)
Definition rotary_row (cos_sin_cache : Matrix R) (position : Z) : result (Vector R * Vector R) :=
  cos_sin ← py_nth cos_sin_cache position;
  mret (match chunk 2 cos_sin with [cos; sin] => (cos, sin) | _ => ([], []) end).
Definition rotate (cos_sin : list (Vector R * Vector R)) (x : list (Matrix R)) : list (Matrix R) :=
  zip_with (λ cs heads, (λ h, apply_rotary_emb h cs.1 cs.2) <$> heads) cos_sin x.
Definition rotary_forward (cos_sin_cache : Matrix R) (positions : list Z) (query key : list (Matrix R)) : result (list (Matrix R) * list (Matrix R)) :=
  cos_sin ← mapR (rotary_row cos_sin_cache) positions;
  mret (rotate cos_sin query, rotate cos_sin key).
End layers.

(** ** The key and value cache *)
Section cache.
Context {R : Type}.
(** Memory from a pointer on; outside of it an access is undefined. *)
Definition load (ptr : list R) (offsets : list Z) : option (Vector R) := mapM (λ o, if (0 <=? o)%Z then ptr !! Z.to_nat o else None) offsets.
Definition store_one (ptr : option (list R)) (ox : Z * R) : option (list R) :=
  ptr ← ptr; if ((0 <=? ox.1) && (ox.1 <? Z.of_nat (length ptr)))%Z then Some (<[Z.to_nat ox.1 := ox.2]> ptr) else None.
Definition store (ptr : list R) (offsets : list Z) (row : Vector R) : option (list R) := foldl store_one (Some ptr) (zip offsets row).
(** A result of integer arithmetic in Triton: 64 bits wide if an operand is an argument that needs it, 32 bits otherwise *)
Definition wrap (wide : bool) (z : Z) : Z := let w := if wide then 64%Z else 32%Z in ((z + 2 ^ (w - 1)) mod 2 ^ w - 2 ^ (w - 1))%Z.
(** [idx * stride + tl.arange(0, D)] *)
Definition offsets (idx : Z) (stride D : nat) : list Z :=
  let wide := (2 ^ 31 <=? Z.of_nat stride)%Z in
  (λ j, wrap wide (wrap wide (idx * Z.of_nat stride) + Z.of_nat j)) <$> seq 0 D.
(** One program of [store_kvcache_kernel]; [tl.program_id] and the slots are 32-bit integers. *)
Definition store_kvcache_kernel (key_ptr : list R) (key_stride : nat) (value_ptr : list R) (value_stride : nat) (slot_mapping : list Z) (D idx : nat)
    (caches : list R * list R) : option (list R * list R) :=
  slot ← slot_mapping !! idx;
  if (slot =? -1)%Z then Some caches
  else
    key ← load key_ptr (offsets (Z.of_nat idx) key_stride D);
    value ← load value_ptr (offsets (Z.of_nat idx) value_stride D);
    let cache_offsets := offsets slot D D in
    k_cache ← store caches.1 cache_offsets key;
    v_cache ← store caches.2 cache_offsets value;
    Some (k_cache, v_cache).
(** The programs, run in some order *)
Definition run_programs (kernel : nat → list R * list R → option (list R * list R)) (order : list nat) (caches : list R * list R) :
    option (list R * list R) :=
  foldl (λ c idx, c ≫= kernel idx) (Some caches) order.
(** A tensor of tokens, each with its heads: where its elements are, and the strides of its three dimensions *)
Record HeadsView := mkHeadsView { hv_ptr : list R; hv_tokens : nat; hv_token_stride : nat; hv_head_stride : nat; hv_stride : nat }.
(** [key] and [value] have [N] tokens; of a cache's strides only that of a slot, [slot_stride], is looked at. *)
Definition store_kvcache (N num_heads head_dim : nat) (key value : HeadsView) (k_slot_stride v_slot_stride : nat) (slot_mapping : list Z)
    (caches : list R * list R) : result (list R * list R) :=
  let D := num_heads * head_dim in
  throw_if (negb ((hv_stride key =? 1) && (hv_stride value =? 1))) (AssertionError "");;
  throw_if (negb ((hv_head_stride key =? head_dim) && (hv_head_stride value =? head_dim))) (AssertionError "");;
  throw_if (negb ((k_slot_stride =? D) && (v_slot_stride =? D))) (AssertionError "");;
  throw_if (negb (length slot_mapping =? N)) (AssertionError "");;
  match run_programs (store_kvcache_kernel (hv_ptr key) (hv_token_stride key) (hv_ptr value) (hv_token_stride value) slot_mapping D) (seq 0 N) caches with
  | Some caches => mret caches
  | None => inl (RuntimeError "CUDA error: an illegal memory access was encountered")
  end.
(** The elements of a view: [head_dim] adjacent ones for each head *)
Definition view_heads (num_heads head_dim : nat) (t : HeadsView) : list (Matrix R) :=
  (λ i, (λ h, take head_dim (drop (i * hv_token_stride t + h * hv_head_stride t) (hv_ptr t))) <$> seq 0 num_heads) <$> seq 0 (hv_tokens t).
(** A contiguous tensor *)
Definition contiguous (num_heads head_dim : nat) (t : list (Matrix R)) : HeadsView :=
  mkHeadsView (concat (flatten_heads t)) (length t) (num_heads * head_dim) head_dim 1.
End cache.

(** ** Attention *)
(** [flash_attn_varlen_func] on keys and values of the batch, or on the caches through the block tables, and
    [flash_attn_with_kvcache]. A query, key or value is a list of tokens, and a token a list of heads. *)
Class FlashAttention (R : Type) := {
  flash_attn_varlen : AttentionContext → R → list (Matrix R) → list (Matrix R) → list (Matrix R) → list (Matrix R);
  flash_attn_with_kvcache : AttentionContext → R → list (Matrix R) → list (Matrix R) → list (Matrix R) → list (Matrix R)
}.
Section model.
Context `{Scalar R, TorchNN R, TorchParam R, FlashAttention R}.
(** [Attention]; an empty cache is one that is not allocated yet. *)
Record Attention := mkAttention {
  an_num_heads : nat; an_head_dim : nat; an_scale : R; an_num_kv_heads : nat; an_k_cache : list R; an_v_cache : list R }.
Definition attention (num_heads head_dim : nat) (scale : R) (num_kv_heads : nat) : Attention :=
  mkAttention num_heads head_dim scale num_kv_heads [] [].
(** The slots of a cache, each with its heads *)
Definition cache_view (num_kv_heads head_dim : nat) (cache : list R) : list (Matrix R) :=
  let D := num_kv_heads * head_dim in
  view_row num_kv_heads head_dim <$> view_row (length cache / D) D cache.
(** The first lines of [Attention.forward]: the caches after [store_kvcache]. The rotation leaves the keys contiguous; the
    values are a view of the projection. *)
Definition attention_store (context : AttentionContext) (a : Attention) (k : list (Matrix R)) (v : HeadsView) : result (list R * list R) :=
  let D := an_num_kv_heads a * an_head_dim a in
  if (0 <? length (an_k_cache a)) && (0 <? length (an_v_cache a))
  then match cx_slot_mapping context with
       | Some slot_mapping =>
           store_kvcache (length k) (an_num_kv_heads a) (an_head_dim a) (contiguous (an_num_kv_heads a) (an_head_dim a) k) v D D slot_mapping
             (an_k_cache a, an_v_cache a)
       | None => inl (AttributeError "'NoneType' object has no attribute 'numel'")
       end
  else mret (an_k_cache a, an_v_cache a).
(** [Attention.forward] *)
Definition attention_forward (context : AttentionContext) (a : Attention) (q k : list (Matrix R)) (v : HeadsView) : result (list (Matrix R) * Attention) :=
  caches ← attention_store context a k v;
  let a := mkAttention (an_num_heads a) (an_head_dim a) (an_scale a) (an_num_kv_heads a) caches.1 caches.2 in
  let k_cache := cache_view (an_num_kv_heads a) (an_head_dim a) (an_k_cache a) in
  let v_cache := cache_view (an_num_kv_heads a) (an_head_dim a) (an_v_cache a) in
  mret (if cx_is_prefill context then
          let '(k, v) := match cx_block_tables context with
                         | Some _ => (k_cache, v_cache)
                         | None => (k, view_heads (an_num_kv_heads a) (an_head_dim a) v)
                         end in
          flash_attn_varlen context (an_scale a) q k v
        else flash_attn_with_kvcache context (an_scale a) q k_cache v_cache, a).

(** ** [Qwen3Attention] *)
Record Qwen3Config := mkQwen3Config {
  qc_vocab_size : nat; qc_hidden_size : nat; qc_intermediate_size : nat; qc_num_hidden_layers : nat;
  qc_num_attention_heads : nat; qc_num_key_value_heads : nat; qc_head_dim : option nat; qc_max_position_embeddings : nat;
  qc_rms_norm_eps : R; qc_attention_bias : option bool; qc_rope_theta : option R; qc_rope_scaling_theta : option R;
  qc_hidden_act : string; qc_tie_word_embeddings : bool }.
Record Qwen3Attention := mkQwen3Attention {
  qa_num_heads : nat; qa_num_kv_heads : nat; qa_head_dim : nat; qa_qkv_bias : bool;
  qa_qkv_proj : Linear (R := R); qa_o_proj : Linear (R := R); qa_rotary_emb : Matrix R; qa_attn : Attention;
  qa_q_norm : RMSNorm (R := R); qa_k_norm : RMSNorm (R := R) }.
(** [getattr(config, "rope_theta", 1000000)], and [rope_scaling]'s when it has one *)
Definition rope_base (c : Qwen3Config) : R := default (default (s_of_nat 1000000) (qc_rope_theta c)) (qc_rope_scaling_theta c).
(** [head_dim ** -0.5] *)
Definition head_scale (head_dim : nat) : R := s_pow (s_of_nat head_dim) (s_div (s_sub s_zero s_one) (s_of_nat 2)).
Definition qwen3_attention (tp_rank tp_size : nat) (c : Qwen3Config) : result Qwen3Attention :=
  throw_if (tp_size =? 0) (ZeroDivisionError "integer modulo by zero");;
  throw_if (negb (qc_num_attention_heads c mod tp_size =? 0)) (AssertionError "");;
  throw_if (negb (qc_num_key_value_heads c mod tp_size =? 0)) (AssertionError "");;
  let num_heads := qc_num_attention_heads c / tp_size in
  let num_kv_heads := qc_num_key_value_heads c / tp_size in
  head_dim ← match qc_head_dim c with
             | Some (S _ as n) => mret n
             | _ => throw_if (qc_num_attention_heads c =? 0) (ZeroDivisionError "integer division or modulo by zero");;
                    mret (qc_hidden_size c / qc_num_attention_heads c)
             end;
  let qkv_bias := default true (qc_attention_bias c) in
  qkv_proj ← qkv_parallel_linear tp_rank tp_size (qc_hidden_size c) head_dim (qc_num_attention_heads c) (Some (qc_num_key_value_heads c)) qkv_bias;
  o_proj ← row_parallel_linear tp_rank tp_size (qc_num_attention_heads c * head_dim) (qc_hidden_size c) false;
  rotary_emb ← rotary_embedding head_dim head_dim (qc_max_position_embeddings c) (rope_base c);
  mret (mkQwen3Attention num_heads num_kv_heads head_dim qkv_bias qkv_proj o_proj rotary_emb
    (attention num_heads head_dim (head_scale head_dim) num_kv_heads) (rms_norm head_dim (qc_rms_norm_eps c)) (rms_norm head_dim (qc_rms_norm_eps c))).
(** A row of [qkv.split([q_size, kv_size, kv_size], dim=-1)]: the query and the key, each seen as heads *)
Definition split_heads (num_heads num_kv_heads head_dim : nat) (row : Vector R) : Matrix R * Matrix R :=
  match split_sizes [num_heads * head_dim; num_kv_heads * head_dim; num_kv_heads * head_dim] row with
  | [q; k; _] => (view_row num_heads head_dim q, view_row num_kv_heads head_dim k)
  | _ => ([], [])
  end.
(** The value stays where it is in the projection: behind the query and the key of its token. *)
Definition split_value (num_heads num_kv_heads head_dim : nat) (qkv : Matrix R) : HeadsView :=
  mkHeadsView (drop ((num_heads + num_kv_heads) * head_dim) (concat qkv)) (length qkv) ((num_heads + 2 * num_kv_heads) * head_dim) head_dim 1.
(** The query, the key and the value of each token: the projection, the norms without a bias, the rotation *)
Definition qwen3_qkv (positions : list Z) (m : Qwen3Attention) (hidden_states : Matrix R) : result (list (Matrix R) * list (Matrix R) * HeadsView) :=
  let qkv := linear_forward (qa_qkv_proj m) hidden_states in
  let heads := split_heads (qa_num_heads m) (qa_num_kv_heads m) (qa_head_dim m) <$> qkv in
  let q := heads.*1 in
  let k := heads.*2 in
  let v := split_value (qa_num_heads m) (qa_num_kv_heads m) (qa_head_dim m) qkv in
  let q := if qa_qkv_bias m then q else fmap (M:=list) (rms_row (qa_q_norm m)) <$> q in
  let k := if qa_qkv_bias m then k else fmap (M:=list) (rms_row (qa_k_norm m)) <$> k in
  qk ← rotary_forward (qa_rotary_emb m) positions q k;
  mret (qk.1, qk.2, v).
Definition qwen3_attention_forward (context : AttentionContext) (positions : list Z) (m : Qwen3Attention) (hidden_states : Matrix R) :
    Spmd R (Matrix R * Qwen3Attention) :=
  qkv ← lift_spmd (qwen3_qkv positions m hidden_states);
  oa ← lift_spmd (attention_forward context (qa_attn m) qkv.1.1 qkv.1.2 qkv.2);
  output ← row_forward (qa_o_proj m) (flatten_heads oa.1);
  mret (output, mkQwen3Attention (qa_num_heads m) (qa_num_kv_heads m) (qa_head_dim m) (qa_qkv_bias m) (qa_qkv_proj m) (qa_o_proj m)
    (qa_rotary_emb m) oa.2 (qa_q_norm m) (qa_k_norm m)).

(** ** [Qwen3MLP] *)
Record Qwen3MLP := mkQwen3MLP { qm_gate_up_proj : Linear (R := R); qm_down_proj : Linear (R := R) }.
Definition qwen3_mlp (tp_rank tp_size hidden_size intermediate_size : nat) (hidden_act : string) : result Qwen3MLP :=
  gate_up_proj ← merged_column_parallel_linear tp_rank tp_size hidden_size [intermediate_size; intermediate_size] false;
  down_proj ← row_parallel_linear tp_rank tp_size intermediate_size hidden_size false;
  throw_if (negb (String.eqb hidden_act "silu")) (AssertionError "");;
  mret (mkQwen3MLP gate_up_proj down_proj).
Definition qwen3_mlp_forward (m : Qwen3MLP) (x : Matrix R) : Spmd R (Matrix R) :=
  let gate_up := linear_forward (qm_gate_up_proj m) x in
  let x := silu_and_mul gate_up in
  row_forward (qm_down_proj m) x.

(** ** [Qwen3DecoderLayer] *)
Record Qwen3DecoderLayer := mkQwen3DecoderLayer {
  ql_self_attn : Qwen3Attention; ql_mlp : Qwen3MLP; ql_input_layernorm : RMSNorm (R := R); ql_post_attention_layernorm : RMSNorm (R := R) }.
Definition qwen3_decoder_layer (tp_rank tp_size : nat) (c : Qwen3Config) : result Qwen3DecoderLayer :=
  self_attn ← qwen3_attention tp_rank tp_size c;
  mlp ← qwen3_mlp tp_rank tp_size (qc_hidden_size c) (qc_intermediate_size c) (qc_hidden_act c);
  mret (mkQwen3DecoderLayer self_attn mlp (rms_norm (qc_hidden_size c) (qc_rms_norm_eps c)) (rms_norm (qc_hidden_size c) (qc_rms_norm_eps c))).
Definition qwen3_decoder_layer_forward (context : AttentionContext) (positions : list Z) (m : Qwen3DecoderLayer)
    (hidden_states : Matrix R) (residual : option (Matrix R)) : Spmd R (Matrix R * Matrix R * Qwen3DecoderLayer) :=
  let '(hidden_states, residual) :=
    match residual with
    | None => (rms_forward (ql_input_layernorm m) hidden_states, hidden_states)
    | Some residual => add_rms_forward (ql_input_layernorm m) hidden_states residual
    end in
  ha ← qwen3_attention_forward context positions (ql_self_attn m) hidden_states;
  let '(hidden_states, residual) := add_rms_forward (ql_post_attention_layernorm m) ha.1 residual in
  hidden_states ← qwen3_mlp_forward (ql_mlp m) hidden_states;
  mret (hidden_states, residual, mkQwen3DecoderLayer ha.2 (ql_mlp m) (ql_input_layernorm m) (ql_post_attention_layernorm m)).

(** ** [Qwen3Model] and [Qwen3ForCausalLM] *)
Record Qwen3Model := mkQwen3Model {
  qw_embed_tokens : VocabParallelEmbedding (R := R); qw_layers : list Qwen3DecoderLayer; qw_norm : RMSNorm (R := R) }.
Definition qwen3_model (tp_rank tp_size : nat) (c : Qwen3Config) : result Qwen3Model :=
  embed_tokens ← vocab_parallel_embedding tp_rank tp_size (qc_vocab_size c) (qc_hidden_size c);
  layers ← mapR (λ _, qwen3_decoder_layer tp_rank tp_size c) (seq 0 (qc_num_hidden_layers c));
  mret (mkQwen3Model embed_tokens layers (rms_norm (qc_hidden_size c) (qc_rms_norm_eps c))).
Fixpoint layers_forward (context : AttentionContext) (positions : list Z) (layers : list Qwen3DecoderLayer) (hidden_states : Matrix R)
    (residual : option (Matrix R)) : Spmd R (Matrix R * option (Matrix R) * list Qwen3DecoderLayer) :=
  match layers with
  | [] => mret (hidden_states, residual, [])
  | layer :: layers =>
      hr ← qwen3_decoder_layer_forward context positions layer hidden_states residual;
      rest ← layers_forward context positions layers hr.1.1 (Some hr.1.2);
      mret (rest.1, hr.2 :: rest.2)
  end.
Definition qwen3_model_forward (context : AttentionContext) (m : Qwen3Model) (input_ids positions : list Z) : Spmd R (Matrix R * Qwen3Model) :=
  hidden_states ← embedding_forward (qw_embed_tokens m) input_ids;
  hr ← layers_forward context positions (qw_layers m) hidden_states None;
  (** Without layers the norm returns no pair. *)
  match hr.1.2 with
  | None => Fail (ValueError "not enough values to unpack (expected 2)")
  | Some residual => mret ((add_rms_forward (qw_norm m) hr.1.1 residual).1, mkQwen3Model (qw_embed_tokens m) hr.2 (qw_norm m))
  end.
Record Qwen3ForCausalLM := mkQwen3ForCausalLM { ql_model : Qwen3Model; ql_lm_head : VocabParallelEmbedding (R := R) }.
(** [lm_head.weight.data] is [embed_tokens.weight.data] when the embeddings are tied. *)
Definition qwen3_for_causal_lm (tp_rank tp_size : nat) (c : Qwen3Config) : result Qwen3ForCausalLM :=
  model ← qwen3_model tp_rank tp_size c;
  lm_head ← vocab_parallel_embedding tp_rank tp_size (qc_vocab_size c) (qc_hidden_size c);
  mret (mkQwen3ForCausalLM model
    (if qc_tie_word_embeddings c
     then mkVocab (ve_tp_rank lm_head) (ve_tp_size lm_head) (ve_vocab_start_idx lm_head) (ve_vocab_end_idx lm_head)
            (mkParam (pa_data (ve_weight (qw_embed_tokens model))) (pa_loader (ve_weight lm_head)))
     else lm_head)).
(** [compute_logits(model(input_ids, positions))] *)
Definition qwen3_logits (context : AttentionContext) (m : Qwen3ForCausalLM) (input_ids positions : list Z) :
    Spmd R (option (Matrix R) * Qwen3ForCausalLM) :=
  hm ← qwen3_model_forward context (ql_model m) input_ids positions;
  logits ← lm_head_forward (ql_lm_head m) context hm.1;
  mret (logits, mkQwen3ForCausalLM hm.2 (ql_lm_head m)).
End model.

(** ** [Sampler] *)
(** [torch.softmax], the order, and [1e-10]; the noise of [exponential_] is an argument. *)
Class SamplerOps (R : Type) := { softmax : Vector R → Vector R; s_ltb : R → R → bool; s_tiny : R }.
Section sampler.
Context `{Scalar R, SamplerOps R}.
Definition clamp_min (low x : R) : R := if s_ltb x low then low else x.
(** The first index of a greatest element *)
Fixpoint argmax_from (i best_index : nat) (best : R) (l : Vector R) : nat :=
  match l with
  | [] => best_index
  | x :: l => if s_ltb best x then argmax_from (S i) i x l else argmax_from (S i) best_index best l
  end.
Definition argmax (l : Vector R) : result nat :=
  match l with
  | [] => throw (IndexError "argmax(): Expected reduction dim to have non-zero size")
  | x :: l => mret (argmax_from 1 0 x l)
  end.
Definition sample_row (logits : Vector R) (temperature : R) (noise : Vector R) : result nat :=
  let probs := softmax ((λ x, s_div (to_float x) temperature) <$> logits) in
  argmax (zip_with s_div probs (clamp_min s_tiny <$> noise)).
Definition sampler_forward (logits : Matrix R) (temperatures : Vector R) (noise : Matrix R) : result (list nat) :=
  mapR (λ '(row, t, e), sample_row row t e) (zip (zip logits temperatures) noise).

Lemma argmax_from_range i best_index best l : best_index < i → argmax_from i best_index best l < i + length l.
Proof.
  revert i best_index best. induction l as [|x l IH]; intros i b best Hb; cbn; [lia|].
  destruct (s_ltb best x); rewrite <-Nat.add_succ_comm; apply IH; lia.
Qed.
(** A sampled token is in the vocabulary. *)
Lemma sample_row_range logits temperature noise t : (∀ x, length (softmax x) = length x) → sample_row logits temperature noise = inr t → t < length logits.
Proof.
  intros Hs. unfold sample_row, argmax. destruct (zip_with _ _ _) as [|x l] eqn:Hz; [done|]. intros [= <-].
  apply (f_equal length) in Hz. rewrite length_zip_with, Hs, length_fmap in Hz. cbn in Hz. pose proof (argmax_from_range 1 0 x l ltac:(lia)). lia.
Qed.
End sampler.
