(* ===== verification/CacheSpec.v ===== *)
(** * Writing the key and value cache

    The programs of [store_kvcache_kernel] write the key and the value of each token in the row of its slot, in whatever
    order they run; and a rank that writes its heads into its cache keeps its part of what a single rank would write. *)
From S2P Require Import Prelude ModelRunner Tensor ParallelLinear Qwen3.
Set Default Goal Selector "!".
Set Default Proof Using "Type*".

Section memory.
Context {R : Type}.
Implicit Types (ptr mem : list R) (rows : list (list R)).
(** [len] elements from an offset on *)
Definition row_at (ptr : list R) (offset len : nat) : option (list R) :=
  if offset + len <=? length ptr then Some (take len (drop offset ptr)) else None.
Lemma row_at_Some ptr offset len row : row_at ptr offset len = Some row ↔ offset + len <= length ptr ∧ row = take len (drop offset ptr).
Proof. unfold row_at. destruct (_ <=? _) eqn:E; breflect; [split; [by intros [= <-]|by intros [_ ->]]|split; [done|lia]]. Qed.
Lemma row_of W rows idx : 0 < W → Forall (λ row, length row = W) rows → row_at (concat rows) (idx * W) W = rows !! idx.
Proof.
  intros HW Hrows. unfold row_at. rewrite (concat_rows_length W) by done. destruct (rows !! idx) as [row|] eqn:Hl.
  - pose proof (lookup_lt_Some _ _ _ Hl). rewrite (proj2 (Nat.leb_le _ _)) by nia. rewrite (concat_rows_drop W) by done.
    rewrite (drop_S _ _ _ Hl). cbn. f_equal. assert (Hr : length row = W) by by apply (Forall_lookup_1 _ _ _ _ Hrows Hl).
    by rewrite <-Hr, take_app_length.
  - apply lookup_ge_None in Hl. by rewrite (proj2 (Nat.leb_gt _ _)) by nia.
Qed.
(** Offsets below [2 ^ 31] do not wrap around. *)
Definition adjacent (off n : nat) : list Z := (λ j, Z.of_nat (off + j)) <$> seq 0 n.
Lemma adjacent_S off n : adjacent off (S n) = Z.of_nat off :: adjacent (S off) n.
Proof.
  unfold adjacent. cbn [seq fmap list_fmap]. rewrite Nat.add_0_r, <-fmap_S_seq, <-list_fmap_compose. f_equal.
  apply list_fmap_ext. intros i j _. cbn. f_equal. lia.
Qed.
Lemma wrap_small wide z : (0 <= z < 2 ^ 31)%Z → wrap wide z = z.
Proof. intros Hz. unfold wrap. destruct wide; cbn [Z.sub Z.pow]; rewrite Z.mod_small; lia. Qed.
Lemma offsets_small idx stride D : (Z.of_nat (idx * stride + D) <= 2 ^ 31)%Z → offsets (Z.of_nat idx) stride D = adjacent (idx * stride) D.
Proof.
  intros Hb. unfold offsets, adjacent. apply list_fmap_ext. intros i j Hj. apply lookup_seq in Hj as [-> Hj]. cbn [Nat.add].
  rewrite (wrap_small _ (Z.of_nat idx * Z.of_nat stride)) by lia. rewrite wrap_small by lia. lia.
Qed.
Lemma load_adjacent ptr off n : off + n <= length ptr → load ptr (adjacent off n) = Some (take n (drop off ptr)).
Proof.
  revert off. unfold load. induction n as [|n IH]; intros off Hl; [done|]. rewrite adjacent_S. cbn [mapM].
  rewrite (proj2 (Z.leb_le _ _)), Nat2Z.id by lia. destruct (lookup_lt_is_Some_2 ptr off) as [x Hx]; [lia|]. rewrite Hx. cbn [mbind option_bind].
  rewrite IH by lia. cbn. by rewrite (drop_S _ _ _ Hx).
Qed.
Lemma store_adjacent mem off row : off + length row <= length mem →
  store mem (adjacent off (length row)) row = Some (take off mem ++ row ++ drop (off + length row) mem).
Proof.
  revert mem off. unfold store. induction row as [|x row IH]; intros mem off Hl; cbn [length] in *.
  { rewrite Nat.add_0_r. cbn. by rewrite take_drop. }
  rewrite adjacent_S. cbn [zip zip_with foldl]. unfold store_one at 2. cbn [mbind option_bind fst snd].
  rewrite (proj2 (andb_true_iff _ _)) by (rewrite Z.leb_le, Z.ltb_lt; lia). rewrite Nat2Z.id, IH by (rewrite length_insert; lia). f_equal.
  rewrite drop_insert_lt by lia. rewrite (take_S_r _ _ x) by (apply list_lookup_insert_eq; lia).
  rewrite take_insert_ge by lia. rewrite <-app_assoc. cbn. by replace (S (off + length row)) with (off + S (length row)) by lia.
Qed.
Lemma load_small ptr idx stride D row : (Z.of_nat (idx * stride + D) <= 2 ^ 31)%Z → row_at ptr (idx * stride) D = Some row →
  load ptr (offsets (Z.of_nat idx) stride D) = Some row.
Proof. intros Hb [Hl ->]%row_at_Some. by rewrite offsets_small, load_adjacent. Qed.
Lemma rows_of_memory slots W mem : length mem = slots * W → Forall (λ row, length row = W) (view_row slots W mem).
Proof.
  intros Hl. apply Forall_lookup. intros s row Hs. pose proof (lookup_lt_Some _ _ _ Hs) as Hlt. rewrite view_row_length in Hlt.
  rewrite view_row_lookup in Hs by done. injection Hs as <-. by apply (shard_length W s slots).
Qed.
Lemma view_concat slots W rows : length rows = slots → Forall (λ row, length row = W) rows → view_row slots W (concat rows) = rows.
Proof.
  intros Hl HW. apply list_eq. intros s. destruct (decide (s < slots)) as [Hs|Hs].
  - rewrite view_row_lookup by done. destruct (lookup_lt_is_Some_2 rows s) as [row Hrow]; [lia|]. rewrite Hrow. f_equal.
    unfold shard. rewrite (concat_rows_drop W) by done. rewrite (drop_S _ _ _ Hrow). cbn.
    assert (Hr : length row = W) by by apply (Forall_lookup_1 _ _ _ _ HW Hrow). by rewrite <-Hr, take_app_length.
  - rewrite !lookup_ge_None_2; [done|lia|rewrite view_row_length; lia].
Qed.
(** The kernel stores the row of the slot. *)
Lemma store_row slots W mem s row : length mem = slots * W → length row = W → s < slots → (Z.of_nat (slots * W) <= 2 ^ 31)%Z →
  ∃ mem', store mem (offsets (Z.of_nat s) W W) row = Some mem' ∧ length mem' = slots * W ∧ view_row slots W mem' = <[s := row]> (view_row slots W mem).
Proof.
  intros Hl Hr Hs Hb. rewrite offsets_small by nia. replace (adjacent (s * W) W) with (adjacent (s * W) (length row)) by by rewrite Hr. rewrite store_adjacent by nia. eexists. split; [done|].
  pose proof (rows_of_memory slots W mem Hl) as Hrows. set (rows := view_row slots W mem) in *. assert (Hlen : length rows = slots) by apply view_row_length.
  replace mem with (concat rows) by by apply concat_view_row. rewrite (concat_rows_take W), Hr by done.
  replace (s * W + W) with (S s * W) by lia. rewrite (concat_rows_drop W) by done.
  replace (concat (take s rows) ++ row ++ concat (drop (S s) rows)) with (concat (<[s:=row]> rows)).
  - assert (Hins : Forall (λ row, length row = W) (<[s:=row]> rows)) by by apply Forall_insert. split.
    + rewrite (concat_rows_length W) by done. by rewrite length_insert, Hlen.
    + apply view_concat; [by rewrite length_insert|done].
  - rewrite insert_take_drop by lia. by rewrite concat_app.
Qed.

(** ** The kernel's programs *)
(** What the program of token [idx] does to the rows of a cache *)
Definition write_slot (slot_mapping : list Z) (row : nat → list R) (rows : list (list R)) (idx : nat) : list (list R) :=
  match slot_mapping !! idx with Some slot => if (slot =? -1)%Z then rows else <[Z.to_nat slot := row idx]> rows | None => rows end.
Definition slots_valid (slots : nat) (slot_mapping : list Z) : Prop := Forall (λ s, -1 <= s < Z.of_nat slots)%Z slot_mapping.
Context (key_ptr value_ptr : list R) (key_stride value_stride D slots N : nat) (slot_mapping : list Z) (key value : nat → list R).
Record kernel_input : Prop := {
  ki_key idx : idx < N → row_at key_ptr (idx * key_stride) D = Some (key idx) ∧ (Z.of_nat (idx * key_stride + D) <= 2 ^ 31)%Z;
  ki_value idx : idx < N → row_at value_ptr (idx * value_stride) D = Some (value idx) ∧ (Z.of_nat (idx * value_stride + D) <= 2 ^ 31)%Z;
  ki_slots : slots_valid slots slot_mapping;
  ki_length : length slot_mapping = N;
  ki_bound : (Z.of_nat (slots * D) <= 2 ^ 31)%Z
}.
Definition cache_rows (caches : list R * list R) (krows vrows : list (list R)) : Prop :=
  length caches.1 = slots * D ∧ length caches.2 = slots * D ∧ view_row slots D caches.1 = krows ∧ view_row slots D caches.2 = vrows.
Lemma row_at_length ptr offset (row : list R) : row_at ptr offset D = Some row → length row = D.
Proof. intros [Hl ->]%row_at_Some. rewrite length_take, length_drop. lia. Qed.
Lemma kernel_writes caches krows vrows idx : kernel_input → idx < N → cache_rows caches krows vrows →
  ∃ caches', store_kvcache_kernel key_ptr key_stride value_ptr value_stride slot_mapping D idx caches = Some caches' ∧
    cache_rows caches' (write_slot slot_mapping key krows idx) (write_slot slot_mapping value vrows idx).
Proof.
  intros [Hk Hv Hs Hl Hb] Hidx (Hl1 & Hl2 & Hr1 & Hr2). unfold store_kvcache_kernel, write_slot.
  destruct (lookup_lt_is_Some_2 slot_mapping idx) as [slot Hslot]; [lia|]. rewrite Hslot. cbn. pose proof (Forall_lookup_1 _ _ _ _ Hs Hslot) as Hss. cbn in Hss.
  destruct (slot =? -1)%Z eqn:E1; [by exists caches|]. breflect. destruct (Hk idx Hidx) as [Hka Hkb]. destruct (Hv idx Hidx) as [Hva Hvb].
  rewrite (load_small _ _ _ _ _ Hkb Hka). cbn [mbind option_bind]. rewrite (load_small _ _ _ _ _ Hvb Hva). cbn [mbind option_bind].
  destruct (Z_of_nat_complete slot ltac:(lia)) as [s ->]. rewrite Nat2Z.id.
  destruct (store_row slots D caches.1 s (key idx)) as (m1 & -> & Hm1 & Hv1); [done|exact (row_at_length _ _ _ Hka)|lia|done|].
  destruct (store_row slots D caches.2 s (value idx)) as (m2 & E2 & Hm2 & Hv2); [done|exact (row_at_length _ _ _ Hva)|lia|done|].
  cbn. rewrite E2. cbn. eexists. split; [done|]. unfold cache_rows. cbn. by rewrite Hv1, Hv2, Hr1, Hr2.
Qed.
Lemma programs_write caches krows vrows order : kernel_input → Forall (λ idx, idx < N) order → cache_rows caches krows vrows →
  ∃ caches', run_programs (store_kvcache_kernel key_ptr key_stride value_ptr value_stride slot_mapping D) order caches = Some caches' ∧
    cache_rows caches' (foldl (write_slot slot_mapping key) krows order) (foldl (write_slot slot_mapping value) vrows order).
Proof.
  intros Hi Ho. revert caches krows vrows. induction Ho as [|idx order Hidx _ IH]; intros caches krows vrows Hc; [by exists caches|].
  destruct (kernel_writes caches krows vrows idx) as (caches1 & E1 & Hc1); [done..|]. unfold run_programs. cbn. rewrite E1. by apply IH.
Qed.
Lemma store_kvcache_writes n d nk nv caches krows vrows : D = n * d → kernel_input → cache_rows caches krows vrows →
  ∃ caches', store_kvcache N n d (mkHeadsView key_ptr nk key_stride d 1) (mkHeadsView value_ptr nv value_stride d 1) D D slot_mapping caches = inr caches' ∧
    cache_rows caches' (foldl (write_slot slot_mapping key) krows (seq 0 N)) (foldl (write_slot slot_mapping value) vrows (seq 0 N)).
Proof.
  intros HD Hi Hc. destruct (programs_write caches krows vrows (seq 0 N) Hi) as (caches' & E & Hc'); [|done|].
  - apply Forall_forall. intros idx Hidx%elem_of_seq. lia.
  - exists caches'. unfold store_kvcache. cbn [hv_ptr hv_token_stride hv_head_stride hv_stride]. rewrite <-HD, (ki_length Hi), !Nat.eqb_refl. cbn.
    by rewrite E.
Qed.

(** ** In any order *)
Lemma foldl_write_other row rows order s : (∀ idx slot, idx ∈ order → slot_mapping !! idx = Some slot → slot ≠ Z.of_nat s) → 
  slots_valid slots slot_mapping → foldl (write_slot slot_mapping row) rows order !! s = rows !! s.
Proof.
  intros Hs Hv. revert rows. induction order as [|idx order IH]; intros rows; [done|]. cbn. rewrite IH by (intros; eapply Hs; [by right|done]).
  unfold write_slot. destruct (slot_mapping !! idx) as [slot|] eqn:Hl; [|done]. destruct (slot =? -1)%Z eqn:E; [done|]. breflect.
  pose proof (Forall_lookup_1 _ _ _ _ Hv Hl). cbn in *. apply list_lookup_insert_ne. intros <-. eapply (Hs idx slot); [by left|done|lia].
Qed.
Lemma foldl_write_length row rows order : length (foldl (write_slot slot_mapping row) rows order) = length rows.
Proof.
  revert rows. induction order as [|idx order IH]; intros rows; [done|]. cbn. rewrite IH. unfold write_slot.
  destruct (slot_mapping !! idx) as [slot|]; [|done]. destruct (slot =? -1)%Z; [done|]. apply length_insert.
Qed.
(** No two tokens have the same slot. *)
Definition slots_apart : Prop := ∀ i j s, slot_mapping !! i = Some s → slot_mapping !! j = Some s → s ≠ (-1)%Z → i = j.
Lemma foldl_write_slot row rows order idx s : slots_valid slots slot_mapping → slots_apart → NoDup order → idx ∈ order →
  slot_mapping !! idx = Some (Z.of_nat s) → s < length rows → foldl (write_slot slot_mapping row) rows order !! s = Some (row idx).
Proof.
  intros Hv Ha Hnd Hin Hl. revert rows. induction Hnd as [|i order Hi Hnd IH]; intros rows Hs; [by apply not_elem_of_nil in Hin|]. cbn.
  destruct (decide (idx ∈ order)) as [Ho|Ho].
  - apply IH; [done|]. pose proof (foldl_write_length row rows [i]) as Hlen. cbn in Hlen. lia.
  - apply elem_of_cons in Hin as [->|?]; [|done]. rewrite foldl_write_other; [|intros j slot Hj Hlj ->|done].
    + unfold write_slot. rewrite Hl. replace (Z.of_nat s =? -1)%Z with false by (symmetry; apply Z.eqb_neq; lia). rewrite Nat2Z.id.
      by rewrite list_lookup_insert_eq by done.
    + apply Ho. by replace i with j by (apply (Ha j i (Z.of_nat s)); [done|done|lia]).
Qed.
End memory.

(** C17: the programs of [store_kvcache_kernel] run in parallel: in whatever order they do, no access is out of bounds, the row
    of each token's slot holds its key and its value, whatever the strides of the tensors as long as the tensors have at most [2 ^ 31]
    elements, and no other row changes. *)
Theorem kernel_any_order {R} (key_ptr value_ptr : list R) (key_stride value_stride D slots N : nat) slot_mapping (key value : nat → list R)
    caches order :
  kernel_input key_ptr value_ptr key_stride value_stride D slots N slot_mapping key value → slots_apart slot_mapping →
  order ≡ₚ seq 0 N → length caches.1 = slots * D → length caches.2 = slots * D →
  ∃ k_cache v_cache,
    run_programs (store_kvcache_kernel key_ptr key_stride value_ptr value_stride slot_mapping D) order caches = Some (k_cache, v_cache) ∧
    length k_cache = slots * D ∧ length v_cache = slots * D ∧
    (∀ idx s, slot_mapping !! idx = Some (Z.of_nat s) → shard D s k_cache = key idx ∧ shard D s v_cache = value idx) ∧
    (∀ s, s < slots → Z.of_nat s ∉ slot_mapping → shard D s k_cache = shard D s caches.1 ∧ shard D s v_cache = shard D s caches.2).
Proof.
  intros Hi Ha Ho Hk Hv. pose proof (ki_slots _ _ _ _ _ _ _ _ _ _ Hi) as Hs. pose proof (ki_length _ _ _ _ _ _ _ _ _ _ Hi) as Hl.
  destruct (programs_write key_ptr value_ptr key_stride value_stride D slots N slot_mapping key value caches (view_row slots D caches.1)
    (view_row slots D caches.2) order Hi) as ([kc vc] & E & Hl1 & Hl2 & Hr1 & Hr2).
  { rewrite Ho. apply Forall_forall. intros idx Hidx%elem_of_seq. lia. } { done. }
  assert (Hnd : NoDup order) by (rewrite Ho; apply NoDup_seq). exists kc, vc. split_and!; try done.
  - intros idx s Hidx. assert (Hin : idx ∈ order) by (rewrite Ho; apply elem_of_seq; apply lookup_lt_Some in Hidx; lia).
    pose proof (Forall_lookup_1 _ _ _ _ Hs Hidx) as Hb. cbn in Hb. split; apply Some_inj.
    + rewrite <-(view_row_lookup slots D kc s) by lia. cbn in Hr1. rewrite Hr1. eapply foldl_write_slot; [done..|rewrite view_row_length; lia].
    + rewrite <-(view_row_lookup slots D vc s) by lia. cbn in Hr2. rewrite Hr2. eapply foldl_write_slot; [done..|rewrite view_row_length; lia].
  - intros s Hlt Hn. assert (Hno : ∀ idx slot, idx ∈ order → slot_mapping !! idx = Some slot → slot ≠ Z.of_nat s).
    { intros idx slot _ Hidx ->. by apply Hn, (list_elem_of_lookup_2 _ idx). }
    split; apply Some_inj; rewrite <-!(view_row_lookup slots D _ s) by lia; cbn in Hr1, Hr2; rewrite ?Hr1, ?Hr2; by eapply foldl_write_other.
Qed.

(** The first offset of a row that lies more than [2 ^ 31] elements into a tensor overflows: with more elements than that in a
    cache, or in the batch's projection, whose rows are the values' stride apart, an access is out of bounds. *)
Lemma kernel_overflows {R} (ptr : list R) (idx stride D : nat) : 0 < D → (Z.of_nat stride < 2 ^ 31)%Z →
  (2 ^ 31 <= Z.of_nat idx * Z.of_nat stride < 2 ^ 32)%Z →
  load ptr (offsets (Z.of_nat idx) stride D) = None ∧ ∀ x row, store ptr (offsets (Z.of_nat idx) stride D) (x :: row) = None.
Proof.
  intros HD Hs Hb. set (z := (Z.of_nat idx * Z.of_nat stride)%Z) in *. assert (Hz : wrap false (wrap false z + Z.of_nat 0) = (z - 2 ^ 32)%Z).
  { assert (Hw : wrap false z = (z - 2 ^ 32)%Z).
    { unfold wrap. cbn [Z.sub Z.pow]. replace ((z + 2 ^ (32 - 1)) mod 2 ^ 32)%Z with (z + 2 ^ 31 - 2 ^ 32)%Z by (apply (Z.mod_unique_pos _ _ 1); lia). lia. }
    rewrite Hw, Z.add_0_r. unfold wrap. rewrite Z.mod_small; lia. }
  assert (Hneg : (0 <=? z - 2 ^ 32)%Z = false) by (apply Z.leb_gt; lia).
  destruct D as [|D]; [lia|]. unfold offsets. fold z. rewrite (proj2 (Z.leb_gt _ _)) by lia. cbn [seq fmap list_fmap]. rewrite Hz. split.
  - unfold load. cbn [mapM]. by rewrite Hneg.
  - intros x row. unfold store. cbn [zip zip_with foldl]. unfold store_one at 2. cbn [mbind option_bind fst snd]. rewrite Hneg. cbn [andb].
    induction (zip _ row) as [|ox l IH]; [done|]. cbn [foldl]. apply IH.
Qed.
