(* ===== verification/Qwen3Spec.v ===== *)
(** * Tensor parallelism is transparent

    The ranks of a tensor-parallel group, each with its heads, its part of every weight and its part of the caches, never
    wait for each other for ever, and compute the logits a single rank with the whole model computes, in exact arithmetic. *)
From S2P Require Import Prelude ModelRunner Tensor ParallelLinear ParallelSpec Qwen3 CacheSpec.
Set Default Goal Selector "!".
Set Default Proof Using "Type*".

(** ** Heads *)
Section heads.
Context {R : Type}.
Implicit Types (x q k v : list (Matrix R)).
(** Tokens of [n] heads of [d] elements *)
Definition tokens (n d : nat) x : Prop := Forall (λ t, length t = n ∧ Forall (λ row, length row = d) t) x.
Definition head_of (h : nat) x : Matrix R := (λ t, default [] (t !! h)) <$> x.
(** An attention kernel computes each head of the query from that head, and from the head of its group in the keys and in
    the values. *)
Definition headwise (f : list (Matrix R) → list (Matrix R) → list (Matrix R) → list (Matrix R)) : Prop :=
  ∃ g : Matrix R → Matrix R → Matrix R → Matrix R, ∀ group nk d q k v, 0 < group → 0 < nk →
    tokens (group * nk) d q → tokens nk d k → tokens nk d v →
    tokens (group * nk) d (f q k v) ∧ length (f q k v) = length q ∧
    ∀ h, h < group * nk → head_of h (f q k v) = g (head_of h q) (head_of (h / group) k) (head_of (h / group) v).
Lemma tokens_shard tp n d r x : r < tp → tokens (tp * n) d x → tokens n d (shard n r <$> x).
Proof.
  intros Hr Hx. apply Forall_fmap. eapply Forall_impl; [exact Hx|]. intros t [Hl Ht]. cbn. split; [by eapply shard_length|].
  unfold shard. by apply Forall_take, Forall_drop.
Qed.
Lemma head_of_shard n r h x : h < n → head_of h (shard n r <$> x) = head_of (r * n + h) x.
Proof. intros Hh. unfold head_of. rewrite <-list_fmap_compose. apply list_fmap_ext. intros i t _. cbn. by rewrite shard_lookup. Qed.
Lemma heads_ext n d x y : tokens n d x → tokens n d y → length x = length y → (∀ h, h < n → head_of h x = head_of h y) → x = y.
Proof.
  intros Hx Hy Hl Hh. apply list_eq_same_length with (length x); [done|done|]. intros i t u _ Ht Hu.
  destruct (Forall_lookup_1 _ _ _ _ Hx Ht) as [Hnt _]. destruct (Forall_lookup_1 _ _ _ _ Hy Hu) as [Hnu _].
  apply list_eq_same_length with n; [done|done|]. intros h a b Hlt Ha Hb.
  assert (He : head_of h x !! i = head_of h y !! i) by (by rewrite Hh). unfold head_of in He. rewrite !list_lookup_fmap, Ht, Hu in He.
  cbn in He. rewrite Ha, Hb in He. by injection He.
Qed.
(** A kernel on the heads of a rank computes that rank's part of the heads. *)
Lemma headwise_shard f tp group mk d r q k v : headwise f → 0 < group → 0 < mk → r < tp →
  tokens (tp * (group * mk)) d q → tokens (tp * mk) d k → tokens (tp * mk) d v →
  tokens (tp * (group * mk)) d (f q k v) ∧ f (shard (group * mk) r <$> q) (shard mk r <$> k) (shard mk r <$> v) = shard (group * mk) r <$> f q k v.
Proof.
  intros [g Hg] Hgr Hmk Hr Hq Hk Hv. replace (tp * (group * mk)) with (group * (tp * mk)) in * by lia.
  destruct (Hg group (tp * mk) d q k v) as (Ho & Hlo & Hho); [done|nia|done..|].
  replace (group * (tp * mk)) with (tp * (group * mk)) in * by lia.
  destruct (Hg group mk d (shard (group * mk) r <$> q) (shard mk r <$> k) (shard mk r <$> v)) as (Hor & Hlr & Hhr);
    [done|done|by apply (tokens_shard tp)..|].
  split; [done|]. apply (heads_ext (group * mk) d); [done|by apply (tokens_shard tp)|by rewrite Hlr, !length_fmap|].
  intros h Hh. assert (Hd : h / group < mk) by (apply Nat.Div0.div_lt_upper_bound; lia).
  rewrite Hhr, !head_of_shard by done. rewrite Hho by nia. f_equal; f_equal;
    (replace (r * (group * mk) + h) with (h + (r * mk) * group) by lia; rewrite Nat.div_add by lia; lia).
Qed.
End heads.
Class LawfulFlashAttention (R : Type) `{FlashAttention R} := {
  flash_attn_varlen_headwise context scale : headwise (flash_attn_varlen context scale);
  flash_attn_with_kvcache_headwise context scale : headwise (flash_attn_with_kvcache context scale)
}.

Section spec.
Set Default Proof Using "All".
Context `{HS : Scalar R, HLS : !LawfulScalar R, HT : TorchNN R, HLT : !LawfulTorchNN R}.
Context `{HF : FlashAttention R, HLF : !LawfulFlashAttention R}.
(** [tp] ranks, with [mk] heads of keys and [group * mk] of queries each, of [d] elements, and caches of [slots] slots *)
Context (tp group mk d slots : nat) (Htp : 0 < tp) (Hgroup : 0 < group) (Hmk : 0 < mk) (Hd : 0 < d).
Abbreviation mq := (group * mk).
Implicit Types (x : Matrix R).

(** ** The caches *)
Record cache_sharded (r : nat) (mem memr : list R) : Prop := {
  cs_whole : length mem = slots * (tp * (mk * d));
  cs_part : length memr = slots * (mk * d);
  cs_rows : view_row slots (mk * d) memr = shard (mk * d) r <$> view_row slots (tp * (mk * d)) mem
}.
Lemma cache_view_rows W n (mem : list R) : length mem = slots * (n * d) → W = n * d → 0 < W →
  cache_view n d mem = view_row n d <$> view_row slots W mem ∧ tokens n d (cache_view n d mem).
Proof.
  intros Hl -> HW. unfold cache_view. rewrite Hl, Nat.div_mul by lia. split; [done|].
  apply Forall_fmap. eapply Forall_impl; [by apply rows_of_memory|]. intros row Hrow. cbn. split; [apply view_row_length|].
  by apply (rows_of_memory n d).
Qed.
Lemma cache_view_sharded r mem memr : r < tp → cache_sharded r mem memr →
  cache_view mk d memr = shard mk r <$> cache_view (tp * mk) d mem ∧ tokens (tp * mk) d (cache_view (tp * mk) d mem).
Proof.
  intros Hr [Hw Hp Hrows]. destruct (cache_view_rows (mk * d) mk memr) as [-> _]; [done|done|nia|].
  destruct (cache_view_rows (tp * (mk * d)) (tp * mk) mem) as [-> Ht]; [lia|lia|nia|]. split; [|done].
  rewrite Hrows, <-!list_fmap_compose. apply list_fmap_ext. intros i row _. cbn. by apply view_row_shard.
Qed.
Lemma write_slots_shard r slot_mapping row (rowr : nat → Vector R) rows order : (∀ idx, idx ∈ order → rowr idx = shard (mk * d) r (row idx)) →
  foldl (write_slot slot_mapping rowr) (shard (mk * d) r <$> rows) order = shard (mk * d) r <$> foldl (write_slot slot_mapping row) rows order.
Proof.
  intros Hrow. revert rows. induction order as [|idx order IH]; intros rows; [done|]. cbn [foldl].
  rewrite <-IH by (intros; apply Hrow; by right). f_equal. unfold write_slot. destruct (slot_mapping !! idx) as [slot|]; [|done].
  destruct (slot =? -1)%Z; [done|]. rewrite list_fmap_insert. by rewrite Hrow by by left.
Qed.
(** The rows of contiguous keys, as the kernel reads them *)
Lemma contiguous_rows n (k : list (Matrix R)) idx : tokens n d k → 0 < n → idx < length k →
  row_at (concat (flatten_heads k)) (idx * (n * d)) (n * d) = Some (default [] (flatten_heads k !! idx)).
Proof.
  intros Hk Hn Hidx. rewrite row_of; [|nia|].
  - destruct (lookup_lt_is_Some_2 (flatten_heads k) idx) as [row ->]; [unfold flatten_heads; by rewrite length_fmap|done].
  - apply Forall_fmap. eapply Forall_impl; [exact Hk|]. intros t [Hl Ht]. cbn. by rewrite (concat_rows_length d), Hl by done.
Qed.
(** The view [v] of values, [width] elements apart, shows the heads [vh]. *)
Record value_of (n width : nat) (v : HeadsView) (vh : list (Matrix R)) : Prop := {
  vo_strides : hv_token_stride v = width ∧ hv_head_stride v = d ∧ hv_stride v = 1;
  vo_heads : view_heads n d v = vh;
  vo_rows idx : idx < length vh → row_at (hv_ptr v) (idx * width) (n * d) = Some (default [] (flatten_heads vh !! idx))
}.
Lemma flatten_shard n r (k : list (Matrix R)) : tokens n d k → flatten_heads (shard mk r <$> k) = shard (mk * d) r <$> flatten_heads k.
Proof.
  intros Hk. unfold flatten_heads. rewrite <-!list_fmap_compose. apply list_fmap_ext. intros i t Ht. cbn.
  destruct (Forall_lookup_1 _ _ _ _ Hk Ht) as [_ Hrows]. by apply concat_shard.
Qed.
Lemma flatten_shard_lookup n r (k : list (Matrix R)) idx : tokens n d k →
  default [] (flatten_heads (shard mk r <$> k) !! idx) = shard (mk * d) r (default [] (flatten_heads k !! idx)).
Proof.
  intros Hk. rewrite (flatten_shard n) by done. rewrite list_lookup_fmap. destruct (flatten_heads k !! idx); [done|]. cbn.
  unfold shard. by rewrite drop_nil, take_nil.
Qed.
(** The rows of a batch of the projection, on a single rank and on each of [tp] *)
Definition qkv_width : nat := (tp * mq + 2 * (tp * mk)) * d.
Definition part_width : nat := (mq + 2 * mk) * d.
(** A rank stores its heads where a single rank stores all of them. *)
Lemma store_sharded r (k vh : list (Matrix R)) v vr slot_mapping kc vc kcr vcr caches' : r < tp → tokens (tp * mk) d k → tokens (tp * mk) d vh →
  value_of (tp * mk) qkv_width v vh → value_of mk part_width vr (shard mk r <$> vh) → length k <= length vh →
  slots_valid slots slot_mapping → (Z.of_nat (slots * (tp * (mk * d))) <= 2 ^ 31)%Z → (Z.of_nat (length slot_mapping * qkv_width) <= 2 ^ 31)%Z →
  cache_sharded r kc kcr → cache_sharded r vc vcr →
  store_kvcache (length k) (tp * mk) d (contiguous (tp * mk) d k) v (tp * mk * d) (tp * mk * d) slot_mapping (kc, vc) = inr caches' →
  ∃ cachesr', store_kvcache (length k) mk d (contiguous mk d (shard mk r <$> k)) vr (mk * d) (mk * d) slot_mapping (kcr, vcr) = inr cachesr' ∧
    cache_sharded r caches'.1 cachesr'.1 ∧ cache_sharded r caches'.2 cachesr'.2.
Proof.
  intros Hr Hk Hvh [Sv _ Vv] [Sr _ Vr] Hkv Hs Hb Hw [Wk Pk Rk] [Wv Pv Rv] Hst. assert (Hlen : length slot_mapping = length k).
  { unfold store_kvcache in Hst. do 3 apply result_bind_inr in Hst as ([] & _ & Hst). apply result_bind_inr in Hst as ([] & Ht & _).
    apply throw_if_ok in Ht. by breflect. }
  rewrite Hlen in Hw. destruct v as [vp vn vw vhs vs], vr as [rp rn rw rhs rs]. cbn [hv_ptr hv_token_stride hv_head_stride hv_stride] in *.
  destruct Sv as (-> & -> & ->), Sr as (-> & -> & ->). unfold contiguous in *.
  replace (tp * (mk * d)) with (tp * mk * d) in * by lia. set (W := tp * mk * d) in *.
  assert (HWq : W <= qkv_width) by (unfold W, qkv_width; nia). assert (HWp : mk * d <= part_width ∧ part_width <= qkv_width) by (unfold part_width, qkv_width; nia).
  assert (HmW : mk * d <= W) by (unfold W; nia).
  destruct (store_kvcache_writes (concat (flatten_heads k)) vp W qkv_width W slots (length k) slot_mapping
    (λ idx, default [] (flatten_heads k !! idx)) (λ idx, default [] (flatten_heads vh !! idx)) (tp * mk) d (length k) vn (kc, vc) (view_row slots W kc)
    (view_row slots W vc)) as (c & E & L1 & L2 & V1 & V2); [done| |done|].
  { split; [..|done|done|done]; intros idx Hidx; (split; [|nia]); [apply contiguous_rows; [done|nia|done]|apply Vv; lia]. }
  rewrite E in Hst. injection Hst as <-.
  destruct (store_kvcache_writes (concat (flatten_heads (shard mk r <$> k))) rp (mk * d) part_width (mk * d) slots
    (length k) slot_mapping (λ idx, default [] (flatten_heads (shard mk r <$> k) !! idx)) (λ idx, default [] (flatten_heads (shard mk r <$> vh) !! idx))
    mk d (length (shard mk r <$> k)) rn (kcr, vcr) (view_row slots (mk * d) kcr) (view_row slots (mk * d) vcr)) as (cr & Er & L1r & L2r & V1r & V2r); [done| |done|].
  { split; [..|done|done|nia]; intros idx Hidx; (split; [|nia]); [apply contiguous_rows; [by apply (tokens_shard tp)|done|rewrite length_fmap; lia]|apply Vr; rewrite length_fmap; lia]. }
  exists cr. split; [done|]. rewrite Rk in V1r. rewrite Rv in V2r. rewrite (write_slots_shard r _ (λ idx, default [] (flatten_heads k !! idx))) in V1r.
  2:{ intros idx _. by apply (flatten_shard_lookup (tp * mk)). }
  rewrite (write_slots_shard r _ (λ idx, default [] (flatten_heads vh !! idx))) in V2r; [|intros idx _; by apply (flatten_shard_lookup (tp * mk))].
  unfold W in *. replace (tp * mk * d) with (tp * (mk * d)) in * by lia.
  rewrite <-V1 in V1r. rewrite <-V2 in V2r. done.
Qed.

(** ** Attention *)
Record attention_sharded (r : nat) (a ar : Attention (R := R)) : Prop := {
  as_kv_heads : an_num_kv_heads a = tp * mk;
  as_kv_heads_part : an_num_kv_heads ar = mk;
  as_head_dim : an_head_dim a = d;
  as_head_dim_part : an_head_dim ar = d;
  as_scale : an_scale ar = an_scale a;
  as_k_cache : cache_sharded r (an_k_cache a) (an_k_cache ar);
  as_v_cache : cache_sharded r (an_v_cache a) (an_v_cache ar)
}.
(** A context whose slots the caches have, of a batch whose projection has at most [2 ^ 31] elements *)
Definition context_valid (context : AttentionContext) : Prop := ∀ l, cx_slot_mapping context = Some l →
  slots_valid slots l ∧ (Z.of_nat (length l * qkv_width) <= 2 ^ 31)%Z.
Context (Hbound : (Z.of_nat (slots * (tp * (mk * d))) <= 2 ^ 31)%Z).
Lemma cache_allocated r mem memr : cache_sharded r mem memr → (0 <? length memr) = (0 <? length mem).
Proof. intros [-> -> _]. apply eq_bool_prop_intro. rewrite !Is_true_true, !Nat.ltb_lt. split; intros; nia. Qed.
Lemma attention_store_sharded r a ar context (k vh : list (Matrix R)) v vr caches : r < tp → attention_sharded r a ar → context_valid context →
  tokens (tp * mk) d k → tokens (tp * mk) d vh → value_of (tp * mk) qkv_width v vh → value_of mk part_width vr (shard mk r <$> vh) → length k <= length vh →
  attention_store context a k v = inr caches →
  ∃ cachesr, attention_store context ar (shard mk r <$> k) vr = inr cachesr ∧
    cache_sharded r caches.1 cachesr.1 ∧ cache_sharded r caches.2 cachesr.2.
Proof.
  intros Hr [Hk1 Hk2 Hd1 Hd2 Hs Hkc Hvc] Hc Hk Hvh Hv Hvr Hkv. unfold attention_store.
  rewrite (cache_allocated r _ _ Hkc), (cache_allocated r _ _ Hvc), Hk1, Hk2, Hd1, Hd2.
  destruct (_ && _); [|intros [= <-]; by eexists]. destruct (cx_slot_mapping context) as [l|] eqn:El; [|done].
  rewrite length_fmap. destruct (Hc l El) as [Hsl Hw]. intros Hst. by eapply (store_sharded r k vh v vr); [..|exact Hst].
Qed.
Lemma attention_forward_sharded r a ar context (q k vh o : list (Matrix R)) v vr a' : r < tp → attention_sharded r a ar → context_valid context →
  tokens (tp * mq) d q → tokens (tp * mk) d k → tokens (tp * mk) d vh → value_of (tp * mk) qkv_width v vh → value_of mk part_width vr (shard mk r <$> vh) →
  length k <= length vh → attention_forward context a q k v = inr (o, a') →
  tokens (tp * mq) d o ∧ ∃ ar', attention_forward context ar (shard mq r <$> q) (shard mk r <$> k) vr = inr (shard mq r <$> o, ar') ∧
    attention_sharded r a' ar'.
Proof.
  intros Hr Ha Hc Hq Hk Hvh Hv Hvr Hkv. unfold attention_forward. intros Hf. apply result_bind_inr in Hf as (caches & Hst & Hf).
  destruct (attention_store_sharded r a ar context k vh v vr caches) as (cachesr & -> & Hkc & Hvc); [done..|]. cbn [mbind result_bind].
  destruct Ha as [Hk1 Hk2 Hd1 Hd2 Hs _ _]. cbn [an_num_kv_heads an_head_dim an_scale an_k_cache an_v_cache] in *. rewrite Hk1, Hd1 in Hf.
  rewrite Hk2, Hd2, Hs. rewrite (vo_heads _ _ _ _ Hv) in Hf. rewrite (vo_heads _ _ _ _ Hvr).
  destruct (cache_view_sharded r _ _ Hr Hkc) as [-> Tk]. destruct (cache_view_sharded r _ _ Hr Hvc) as [-> Tv].
  injection Hf as Ho <-. assert (Hkernel : ∀ f (k v : list (Matrix R)), headwise f → tokens (tp * mk) d k → tokens (tp * mk) d v →
    tokens (tp * mq) d (f q k v) ∧ f (shard mq r <$> q) (shard mk r <$> k) (shard mk r <$> v) = shard mq r <$> f q k v).
  { intros f k0 v0 Hf Hk0 Hv0. by apply headwise_shard. }
  pose proof (flash_attn_varlen_headwise context (an_scale a)) as Hvar. pose proof (flash_attn_with_kvcache_headwise context (an_scale a)) as Hkv'.
  destruct (cx_is_prefill context); [destruct (cx_block_tables context)|]; subst o.
  - destruct (Hkernel _ _ _ Hvar Tk Tv) as [? ->]. split; [done|]. eexists. split; [done|]. by split.
  - destruct (Hkernel _ _ _ Hvar Hk Hvh) as [? ->]. split; [done|]. eexists. split; [done|]. by split.
  - destruct (Hkernel _ _ _ Hkv' Tk Tv) as [? ->]. split; [done|]. eexists. split; [done|]. by split.
Qed.

(** ** Projections *)
(** The parts of [q], [k] and [v] in the projection, and in its bias *)
Definition packed_qkv {A} (r : nat) (l lr : list A) : Prop := ∃ q k v,
  l = q ++ k ++ v ∧ lr = shard (mq * d) r q ++ shard (mk * d) r k ++ shard (mk * d) r v ∧
  length q = tp * (mq * d) ∧ length k = tp * (mk * d) ∧ length v = tp * (mk * d).
Definition packed_bias {A} (packed : list A → list A → Prop) (b br : option (list A)) : Prop :=
  match b, br with Some b, Some br => packed b br | None, None => True | _, _ => False end.
Definition qkv_sharded (r : nat) (l lr : Linear (R := R)) : Prop :=
  packed_qkv r (matrix (ln_weight l)) (matrix (ln_weight lr)) ∧ packed_bias (packed_qkv r) (vector <$> ln_bias l) (vector <$> ln_bias lr).
Lemma packed_qkv_fmap {A B} r (f : A → B) l lr : packed_qkv r l lr → packed_qkv r (f <$> l) (f <$> lr).
Proof.
  intros (q & k & v & -> & -> & Hq & Hk & Hv). exists (f <$> q), (f <$> k), (f <$> v). by rewrite !fmap_app, !shard_fmap, !length_fmap.
Qed.
Lemma packed_qkv_zip {A B C} r (f : A → B → C) l lr k kr : r < tp → packed_qkv r l lr → packed_qkv r k kr → packed_qkv r (zip_with f l k) (zip_with f lr kr).
Proof.
  intros Hr (q1 & k1 & v1 & -> & -> & Hq1 & Hk1 & Hv1) (q2 & k2 & v2 & -> & -> & Hq2 & Hk2 & Hv2).
  exists (zip_with f q1 q2), (zip_with f k1 k2), (zip_with f v1 v2). rewrite !shard_zip_with, !length_zip_with.
  rewrite !zip_with_app by (rewrite ?(shard_length _ _ tp) by done; lia). split_and!; [done|done|lia..].
Qed.
Lemma packed_qkv_row r l lr xi : r < tp → qkv_sharded r l lr →
  packed_qkv r (add_bias (vector <$> ln_bias l) (dot xi <$> matrix (ln_weight l))) (add_bias (vector <$> ln_bias lr) (dot xi <$> matrix (ln_weight lr))).
Proof.
  intros Hr [Hw Hb]. pose proof (packed_qkv_fmap r (dot xi) _ _ Hw) as Hdot.
  destruct (vector <$> ln_bias l), (vector <$> ln_bias lr); [|done|done|done]. by apply packed_qkv_zip.
Qed.
Lemma split_heads_app n m (q k v : Vector R) : length q = n * d → length k = m * d → length v = m * d →
  split_heads n m d (q ++ k ++ v) = (view_row n d q, view_row m d k).
Proof.
  intros Hq Hk Hv. unfold split_heads. cbn [split_sizes]. rewrite <-Hq, take_app_length, drop_app_length. by rewrite <-Hk, take_app_length.
Qed.
(** The heads of the value of a token *)
Definition value_heads (n m : nat) (row : Vector R) : Matrix R := view_row m d (drop ((n + m) * d) row).
Lemma value_heads_app n m (q k v : Vector R) : length q = n * d → length k = m * d → value_heads n m (q ++ k ++ v) = view_row m d v.
Proof. intros Hq Hk. unfold value_heads. rewrite app_assoc, drop_app_length'; [done|]. rewrite length_app. lia. Qed.
Lemma split_heads_sharded r (row rowr : Vector R) : r < tp → packed_qkv r row rowr →
  let qk := split_heads (tp * mq) (tp * mk) d row in let v := value_heads (tp * mq) (tp * mk) row in
  split_heads mq mk d rowr = (shard mq r qk.1, shard mk r qk.2) ∧ value_heads mq mk rowr = shard mk r v ∧
  length qk.1 = tp * mq ∧ length qk.2 = tp * mk ∧ length v = tp * mk ∧ Forall (λ h : Vector R, length h = d) (qk.1 ++ qk.2 ++ v) ∧
  length row = qkv_width ∧ length rowr = part_width.
Proof.
  intros Hr (q & k & v & -> & -> & Hq & Hk & Hv). cbv zeta. unfold qkv_width, part_width.
  rewrite !split_heads_app, !value_heads_app by (rewrite ?(shard_length _ _ tp) by done; lia). rewrite !(view_row_shard tp) by done. cbn [fst snd].
  rewrite !length_app, !(shard_length _ _ tp), !view_row_length by done. split_and!; [done..| |lia|lia]. rewrite !Forall_app.
  split_and!; apply rows_of_memory; lia.
Qed.
(** A batch of the projection as the memory of its values *)
Lemma split_value_of n m (rows : Matrix R) : Forall (λ row, length row = (n + 2 * m) * d) rows →
  value_of m ((n + 2 * m) * d) (split_value n m d rows) (value_heads n m <$> rows).
Proof.
  intros Hrows. set (W := (n + 2 * m) * d). set (o := (n + m) * d). assert (Hrow : ∀ idx row, rows !! idx = Some row → length row = W) by (intros idx row Hl; exact (Forall_lookup_1 _ _ _ _ Hrows Hl)).
  assert (HoW : o + m * d = W) by (unfold o, W; lia).
  assert (Hdrop : ∀ idx row, rows !! idx = Some row → ∃ rest, drop (idx * W) (drop o (concat rows)) = drop o row ++ rest).
  { intros idx row Hl. exists (concat (drop (S idx) rows)). rewrite drop_drop, Nat.add_comm, <-drop_drop, (concat_rows_drop W) by done.
    rewrite (drop_S _ _ _ Hl). cbn [concat]. rewrite drop_app_le by (rewrite (Hrow idx row Hl); lia). done. }
  split; [done| |].
  - unfold view_heads, split_value. cbn [hv_tokens hv_token_stride hv_head_stride hv_ptr]. fold W o. apply list_eq. intros idx.
    rewrite !list_lookup_fmap. destruct (rows !! idx) as [row|] eqn:Hl.
    + rewrite lookup_seq_lt by by eapply lookup_lt_Some. cbn. f_equal. unfold value_heads, view_row. apply list_fmap_ext. intros i h Hh.
      apply lookup_seq in Hh as [-> Hh]. cbn [Nat.add]. rewrite <-drop_drop. destruct (Hdrop idx row Hl) as [rest ->]. fold o.
      assert (Hlen : length (drop o row) = m * d) by (rewrite length_drop, (Hrow idx row Hl); lia).
      rewrite drop_app_le by (rewrite Hlen; nia). rewrite take_app_le; [done|]. rewrite length_drop, Hlen. nia.
    + rewrite lookup_seq_ge; [done|]. by apply lookup_ge_None.
  - intros idx Hidx. rewrite length_fmap in Hidx. destruct (lookup_lt_is_Some_2 rows idx Hidx) as [row Hl]. unfold split_value. cbn [hv_ptr]. fold W o.
    apply row_at_Some. unfold flatten_heads. rewrite !list_lookup_fmap, Hl. cbn.
    assert (Hlen : length (drop o row) = m * d) by (rewrite length_drop, (Hrow idx row Hl); lia). split.
    + rewrite length_drop, (concat_rows_length W) by done. nia.
    + destruct (Hdrop idx row Hl) as [rest ->]. fold o. rewrite <-Hlen, take_app_length. unfold value_heads. by apply concat_view_row.
Qed.
(** The heads of a batch *)
Lemma qkv_heads r l lr x : r < tp → qkv_sharded r l lr →
  let qkv := linear_forward l x in let qkvr := linear_forward lr x in
  let heads := split_heads (tp * mq) (tp * mk) d <$> qkv in let headsr := split_heads mq mk d <$> qkvr in
  headsr.*1 = shard mq r <$> heads.*1 ∧ headsr.*2 = shard mk r <$> heads.*2 ∧ tokens (tp * mq) d heads.*1 ∧ tokens (tp * mk) d heads.*2 ∧
  ∃ vh, length vh = length qkv ∧ tokens (tp * mk) d vh ∧ value_of (tp * mk) qkv_width (split_value (tp * mq) (tp * mk) d qkv) vh ∧
    value_of mk part_width (split_value mq mk d qkvr) (shard mk r <$> vh).
Proof.
  intros Hr Hl. unfold linear_forward. rewrite !linear_spec. cbv zeta. unfold tokens.
  set (f := λ xi, add_bias (vector <$> ln_bias l) (dot xi <$> matrix (ln_weight l))).
  set (fr := λ xi, add_bias (vector <$> ln_bias lr) (dot xi <$> matrix (ln_weight lr))).
  pose proof (λ xi, split_heads_sharded r (f xi) (fr xi) Hr (packed_qkv_row r l lr xi Hr Hl)) as Hrow. cbv zeta in Hrow. clearbody f fr.
  rewrite <-!list_fmap_compose, !Forall_fmap.
  assert (Hshape : ∀ xi, let qk := split_heads (tp * mq) (tp * mk) d (f xi) in let v := value_heads (tp * mq) (tp * mk) (f xi) in
    (length qk.1 = tp * mq ∧ Forall (λ h : Vector R, length h = d) qk.1) ∧ (length qk.2 = tp * mk ∧ Forall (λ h : Vector R, length h = d) qk.2) ∧
    length v = tp * mk ∧ Forall (λ h : Vector R, length h = d) v).
  { intros xi. destruct (Hrow xi) as (_ & _ & H1 & H2 & H3 & HFa & _). rewrite !Forall_app in HFa. cbv zeta. tauto. }
  do 2 (split; [apply list_fmap_ext; intros i xi _; unfold compose; by destruct (Hrow xi) as (-> & _)|]).
  do 2 (split; [apply Forall_forall; intros xi _; apply (Hshape xi)|]).
  exists (value_heads (tp * mq) (tp * mk) <$> (f <$> x)). rewrite !length_fmap. split; [done|].
  split; [rewrite <-list_fmap_compose, Forall_fmap; apply Forall_forall; intros xi _; apply (Hshape xi)|].
  split; [apply split_value_of, Forall_fmap, Forall_forall; intros xi _; cbn; by destruct (Hrow xi) as (_ & _ & _ & _ & _ & _ & H6 & _)|].
  replace (shard mk r <$> (value_heads (tp * mq) (tp * mk) <$> (f <$> x))) with (value_heads mq mk <$> (fr <$> x)).
  - apply split_value_of, Forall_fmap, Forall_forall. intros xi _. cbn. by destruct (Hrow xi) as (_ & _ & _ & _ & _ & _ & _ & H7).
  - rewrite <-!list_fmap_compose. apply list_fmap_ext. intros i xi _. unfold compose. by destruct (Hrow xi) as (_ & -> & _).
Qed.

(** ** Norms and rotation of the heads *)
Definition norm_ok (n : nat) (m : RMSNorm (R := R)) : Prop := length (vector (rn_weight m)) = n.
Lemma rms_row_length n (m : RMSNorm (R := R)) row : norm_ok n m → length row = n → length (rms_row m row) = n.
Proof. intros Hm Hr. unfold rms_row, normalize. rewrite length_zip_with, !length_fmap. unfold norm_ok in Hm. lia. Qed.
Lemma fmap_heads_shard {A} n r (f : Vector R → A) (x : list (Matrix R)) : fmap (M:=list) f <$> (shard n r <$> x) = shard n r <$> (fmap (M:=list) f <$> x).
Proof. rewrite <-!list_fmap_compose. apply list_fmap_ext. intros i t _. cbn. by rewrite shard_fmap. Qed.
Lemma tokens_fmap n (f : Vector R → Vector R) (x : list (Matrix R)) : (∀ row, length row = d → length (f row) = d) → tokens n d x → tokens n d (fmap (M:=list) f <$> x).
Proof.
  intros Hf Hx. apply Forall_fmap. eapply Forall_impl; [exact Hx|]. intros t [Hl Ht]. cbn. rewrite length_fmap. split; [done|].
  apply Forall_fmap. eapply Forall_impl; [exact Ht|]. intros row. apply Hf.
Qed.
Lemma chunk_2 {A} e (l : list A) : length l = 2 * e → chunk 2 l = if e =? 0 then [] else [take e l; drop e l].
Proof.
  intros Hl. unfold chunk. rewrite Hl. replace ((2 * e + 2 - 1) / 2) with e by (apply (Nat.div_unique _ 2 e 1); lia).
  destruct e as [|e]; [done|]. replace ((2 * S e + S e - 1) / S e) with 2 by (apply (Nat.div_unique _ (S e) 2 e); lia).
  cbn [seq fmap list_fmap Nat.eqb Nat.mul]. rewrite drop_0, Nat.add_0_r. do 3 f_equal. apply firstn_all2. rewrite length_drop. lia.
Qed.
(** The dimension of a head is even, and the table has a row of cosines and sines for each position. *)
Definition rotary_ok (table : Matrix R) : Prop := ∃ e, d = 2 * e ∧ Forall (λ row, length row = d) table.
Lemma py_nth_lookup {A} (l : list A) i a : py_nth l i = inr a → ∃ k, l !! k = Some a.
Proof.
  unfold py_nth. set (j := (if (i <? 0)%Z then _ else _)%Z). destruct (j <? 0)%Z; [done|]. destruct (l !! Z.to_nat j) eqn:E; [|done].
  intros [= <-]. by eexists.
Qed.
Lemma rotary_row_length table p cs : rotary_ok table → rotary_row table p = inr cs → ∃ e, d = 2 * e ∧ length cs.1 = e ∧ length cs.2 = e.
Proof.
  intros (e & He2 & Ht) Hr. exists e. unfold rotary_row in Hr. apply result_bind_inr in Hr as (row & Hn & Hr). injection Hr as <-.
  apply py_nth_lookup in Hn as [k Hk]. pose proof (Forall_lookup_1 _ _ _ _ Ht Hk) as Hrow. cbn in Hrow.
  rewrite (chunk_2 e) by lia. split; [done|]. destruct (e =? 0) eqn:He; breflect; [by subst|]. cbn. rewrite length_take, length_drop. lia.
Qed.
Lemma apply_rotary_length e (row cos sin : Vector R) : length row = 2 * e → length cos = e → length sin = e → length (apply_rotary_emb row cos sin) = 2 * e.
Proof.
  intros Hr Hc Hs. unfold apply_rotary_emb. rewrite (chunk_2 e) by by rewrite length_fmap. destruct (e =? 0) eqn:He; breflect; [cbn; lia|].
  cbn. rewrite length_fmap, length_app, !length_zip_with, length_take, length_drop, length_fmap. lia.
Qed.
Lemma rotate_shard n r cs (x : list (Matrix R)) : rotate cs (shard n r <$> x) = shard n r <$> rotate cs x.
Proof. revert x. induction cs as [|c cs IH]; intros [|t x]; [done..|]. unfold rotate in *. cbn [zip_with fmap list_fmap]. f_equal; [by rewrite shard_fmap|apply IH]. Qed.
Lemma rotate_tokens table positions cs n (x : list (Matrix R)) : rotary_ok table → mapR (rotary_row table) positions = inr cs → tokens n d x → tokens n d (rotate cs x).
Proof.
  intros Ht Hcs. apply mapR_inr in Hcs. revert x. induction Hcs as [|p c ps cs Hp _ IH]; intros [|t x] Hx; cbn; try apply Forall_nil_2.
  apply Forall_cons in Hx as [[Hl Hrows] Hx]. apply Forall_cons. split; [|by apply IH]. rewrite length_fmap. split; [done|].
  apply Forall_fmap. eapply Forall_impl; [exact Hrows|]. intros row Hrow. cbn.
  destruct (rotary_row_length _ _ _ Ht Hp) as (e & He & Hc & Hs). rewrite He in Hrow |- *. by apply apply_rotary_length.
Qed.

(** ** Attention layers *)
Lemma ranks_choice {A} (a0 : A) n (P : nat → A → Prop) : (∀ r, r < n → ∃ a, P r a) → ∃ f, ∀ r, r < n → P r (f r).
Proof.
  induction n as [|n IH]; intros Hex; [exists (λ _, a0); lia|]. destruct IH as [f Hf]; [intros r Hr; apply Hex; lia|].
  destruct (Hex n) as [a Ha]; [lia|]. exists (λ r, if decide (r = n) then a else f r). intros r Hr. destruct (decide (r = n)) as [->|Hne]; [done|].
  apply Hf. lia.
Qed.
Record qattn_sharded (r : nat) (m mr : Qwen3Attention (R := R)) : Prop := {
  qs_heads : qa_num_heads m = tp * mq;
  qs_heads_part : qa_num_heads mr = mq;
  qs_kv_heads : qa_num_kv_heads m = tp * mk;
  qs_kv_heads_part : qa_num_kv_heads mr = mk;
  qs_head_dim : qa_head_dim m = d;
  qs_head_dim_part : qa_head_dim mr = d;
  qs_bias : qa_qkv_bias mr = qa_qkv_bias m;
  qs_qkv : qkv_sharded r (qa_qkv_proj m) (qa_qkv_proj mr);
  qs_o : row_sharded tp r (mq * d) (qa_o_proj m) (qa_o_proj mr);
  qs_rotary : qa_rotary_emb mr = qa_rotary_emb m;
  qs_rotary_ok : rotary_ok (qa_rotary_emb m);
  qs_attn : attention_sharded r (qa_attn m) (qa_attn mr);
  qs_q_norm : qa_q_norm mr = qa_q_norm m;
  qs_k_norm : qa_k_norm mr = qa_k_norm m;
  qs_norms_ok : norm_ok d (qa_q_norm m) ∧ norm_ok d (qa_k_norm m)
}.
Lemma qwen3_qkv_sharded r positions m mr x q k v : r < tp → qattn_sharded r m mr → qwen3_qkv positions m x = inr (q, k, v) →
  ∃ vh vr, qwen3_qkv positions mr x = inr (shard mq r <$> q, shard mk r <$> k, vr) ∧
    value_of (tp * mk) qkv_width v vh ∧ value_of mk part_width vr (shard mk r <$> vh) ∧
    tokens (tp * mq) d q ∧ tokens (tp * mk) d k ∧ tokens (tp * mk) d vh ∧ length k <= length vh.
Proof.
  intros Hr [H1 H2 H3 H4 H5 H6 H7 H8 _ H9 Hrot _ H10 H11 [Nq Nk]]. unfold qwen3_qkv. rewrite H1, H2, H3, H4, H5, H6, H7, H9, H10, H11. cbv zeta.
  destruct (qkv_heads r _ _ x Hr H8) as (-> & -> & Tq & Tk & vh & Lv & Tv & Hv & Hvr). unfold rotary_forward.
  set (heads := split_heads (tp * mq) (tp * mk) d <$> linear_forward (qa_qkv_proj m) x) in *.
  assert (Lh : length heads = length vh) by (unfold heads; by rewrite length_fmap). clearbody heads.
  intros Hf. apply result_bind_inr in Hf as (qk & Hf & Hq). apply result_bind_inr in Hf as (cs & Hcs & Hf). rewrite Hcs. cbn [mbind result_bind] in *.
  injection Hf as <-. injection Hq as <- <- <-. cbn [fst snd]. eexists vh, _.
  assert (Tq' : tokens (tp * mq) d (if qa_qkv_bias m then heads.*1 else fmap (M:=list) (rms_row (qa_q_norm m)) <$> heads.*1)).
  { destruct (qa_qkv_bias m); [done|]. apply tokens_fmap; [|done]. intros row. by apply rms_row_length. }
  assert (Tk' : tokens (tp * mk) d (if qa_qkv_bias m then heads.*2 else fmap (M:=list) (rms_row (qa_k_norm m)) <$> heads.*2)).
  { destruct (qa_qkv_bias m); [done|]. apply tokens_fmap; [|done]. intros row. by apply rms_row_length. }
  split_and!; [|done|exact Hvr|by eapply rotate_tokens|by eapply rotate_tokens|done|].
  - rewrite <-!rotate_shard. destruct (qa_qkv_bias m); [done|]. by rewrite !fmap_heads_shard.
  - unfold rotate. rewrite length_zip_with. etrans; [apply Nat.le_min_r|]. rewrite <-Lh. by destruct (qa_qkv_bias m); rewrite !length_fmap.
Qed.
Lemma flatten_query n r (o : list (Matrix R)) : tokens n d o → flatten_heads (shard mq r <$> o) = shard (mq * d) r <$> flatten_heads o.
Proof.
  intros Ho. unfold flatten_heads. rewrite <-!list_fmap_compose. apply list_fmap_ext. intros i t Ht. cbn.
  destruct (Forall_lookup_1 _ _ _ _ Ho Ht) as [_ Hrows]. by apply concat_shard.
Qed.
Lemma qwen3_attention_world context positions m (mr : nat → Qwen3Attention) x y m' : (∀ r, r < tp → qattn_sharded r m (mr r)) → context_valid context →
  qwen3_attention_forward context positions m x = Ret (y, m') →
  ∃ mr', (∀ r, r < tp → qattn_sharded r m' (mr' r)) ∧ world tp (λ r, (y, mr' r)) (λ r, qwen3_attention_forward context positions (mr r) x).
Proof.
  intros Hm Hc Hf. unfold qwen3_attention_forward in Hf. destruct (qwen3_qkv positions m x) as [?|[[q k] v]] eqn:Hqkv; [done|]. cbn [mbind Spmd_bind lift_spmd] in Hf.
  destruct (attention_forward context (qa_attn m) _ _ _) as [?|[o a']] eqn:Ha; [done|]. cbn [mbind Spmd_bind lift_spmd fst snd] in Hf, Ha.
  pose proof (Hm 0 Htp) as Hm0. rewrite row_whole in Hf by apply (qs_o _ _ _ Hm0). injection Hf as <- <-.
  assert (Hpart : ∀ r, r < tp → tokens (tp * mq) d o ∧ ∃ ar', attention_sharded r a' ar' ∧
    ∃ vr, qwen3_qkv positions (mr r) x = inr (shard mq r <$> q, shard mk r <$> k, vr) ∧
      attention_forward context (qa_attn (mr r)) (shard mq r <$> q) (shard mk r <$> k) vr = inr (shard mq r <$> o, ar')).
  { intros r Hr. destruct (qwen3_qkv_sharded r positions m (mr r) x q k v Hr (Hm r Hr) Hqkv) as (vh & vr & Eq & Hv & Hvr & Tq & Tk & Tv & Hkv).
    destruct (attention_forward_sharded r (qa_attn m) (qa_attn (mr r)) context q k vh o v vr a') as (To & ar' & Ear & Sar);
      [done|apply (qs_attn _ _ _ (Hm r Hr))|done..|]. split; [done|]. exists ar'. split; [done|]. by exists vr. }
  destruct (ranks_choice (qa_attn m) tp _ (λ r Hr, proj2 (Hpart r Hr))) as [ar' Har].
  exists (λ r, mkQwen3Attention (qa_num_heads (mr r)) (qa_num_kv_heads (mr r)) (qa_head_dim (mr r)) (qa_qkv_bias (mr r)) (qa_qkv_proj (mr r))
    (qa_o_proj (mr r)) (qa_rotary_emb (mr r)) (ar' r) (qa_q_norm (mr r)) (qa_k_norm (mr r))). split.
  - intros r Hr. destruct (Hm r Hr). by split; try (apply Har).
  - destruct (Hpart 0 Htp) as [To _]. apply (world_ext _ _ (λ r, row_forward (qa_o_proj (mr r)) (shard (mq * d) r <$> flatten_heads o) ≫= λ output,
      mret (output, mkQwen3Attention (qa_num_heads (mr r)) (qa_num_kv_heads (mr r)) (qa_head_dim (mr r)) (qa_qkv_bias (mr r)) (qa_qkv_proj (mr r))
        (qa_o_proj (mr r)) (qa_rotary_emb (mr r)) (ar' r) (qa_q_norm (mr r)) (qa_k_norm (mr r))))).
    + intros r Hr. destruct (Har r Hr) as (_ & vr & Eq & Ea). unfold qwen3_attention_forward. rewrite Eq.
      cbn [mbind Spmd_bind lift_spmd fst snd]. rewrite Ea. cbn [mbind Spmd_bind lift_spmd fst snd]. by rewrite (flatten_query (tp * mq)).
    + eapply world_bind; [apply row_forward_world; [done|intros r Hr; apply (qs_o _ _ _ (Hm r Hr))|]|by apply world_ret].
      apply Forall_fmap. eapply Forall_impl; [exact To|]. intros t [Hl Ht]. cbn. rewrite (concat_rows_length d), Hl by done. lia.
Qed.

(** ** The rest of a layer *)
(** Each rank has [si] of the intermediate features, and [per] tokens of the vocabulary. *)
Context (si per cols : nat).
Record mlp_sharded (r : nat) (m mr : Qwen3MLP (R := R)) : Prop := {
  ms_gate_up : ∃ gate up, matrix (ln_weight (qm_gate_up_proj m)) = gate ++ up ∧
    matrix (ln_weight (qm_gate_up_proj mr)) = shard si r gate ++ shard si r up ∧ length gate = tp * si ∧ length up = tp * si;
  ms_no_bias : ln_bias (qm_gate_up_proj m) = None ∧ ln_bias (qm_gate_up_proj mr) = None;
  ms_down : row_sharded tp r si (qm_down_proj m) (qm_down_proj mr)
}.
Lemma silu_and_mul_app n (g u : Vector R) : length g = n → length u = n → silu_and_mul_row (g ++ u) = zip_with s_mul (s_silu <$> g) u.
Proof.
  intros Hg Hu. unfold silu_and_mul_row. rewrite (chunk_2 n) by (rewrite length_app; lia). destruct (n =? 0) eqn:Hn; breflect.
  - subst n. by apply nil_length_inv in Hn as ->.
  - by rewrite <-Hg, take_app_length, drop_app_length.
Qed.
Lemma mlp_world m (mr : nat → Qwen3MLP) x y : (∀ r, r < tp → mlp_sharded r m (mr r)) → qwen3_mlp_forward m x = Ret y →
  world tp (λ _, y) (λ r, qwen3_mlp_forward (mr r) x).
Proof.
  intros Hm. unfold qwen3_mlp_forward. pose proof (Hm 0 Htp) as Hm0. rewrite row_whole by apply (ms_down _ _ _ Hm0). intros [= <-].
  assert (Hrow : ∀ xi r, r < tp → length (silu_and_mul_row (dot xi <$> matrix (ln_weight (qm_gate_up_proj m)))) = tp * si ∧
    silu_and_mul_row (dot xi <$> matrix (ln_weight (qm_gate_up_proj (mr r)))) =
    shard si r (silu_and_mul_row (dot xi <$> matrix (ln_weight (qm_gate_up_proj m))))).
  { intros xi r Hr. destruct (ms_gate_up _ _ _ (Hm r Hr)) as (gate & up & -> & -> & Hg & Hu). rewrite !fmap_app.
    rewrite (silu_and_mul_app (tp * si)) by by rewrite length_fmap. rewrite (silu_and_mul_app si) by (rewrite length_fmap; by eapply shard_length).
    rewrite shard_zip_with, !shard_fmap. split; [|done]. rewrite length_zip_with, !length_fmap. lia. }
  assert (Hx : ∀ r, r < tp → silu_and_mul (linear_forward (qm_gate_up_proj (mr r)) x) = shard si r <$> silu_and_mul (linear_forward (qm_gate_up_proj m) x)).
  { intros r Hr. unfold silu_and_mul, linear_forward. destruct (ms_no_bias _ _ _ (Hm r Hr)) as [-> ->]. rewrite !linear_spec, <-!list_fmap_compose.
    apply list_fmap_ext. intros i xi _. by apply Hrow. }
  apply (world_ext _ _ (λ r, row_forward (qm_down_proj (mr r)) (shard si r <$> silu_and_mul (linear_forward (qm_gate_up_proj m) x)))).
  { intros r Hr. by rewrite Hx. }
  apply row_forward_world; [done|intros r Hr; apply (ms_down _ _ _ (Hm r Hr))|]. unfold silu_and_mul, linear_forward.
  destruct (ms_no_bias _ _ _ Hm0) as [-> _]. rewrite linear_spec, <-list_fmap_compose. apply Forall_fmap, Forall_forall. intros xi _. cbn.
  by apply (Hrow xi 0).
Qed.
Record layer_sharded (r : nat) (m mr : Qwen3DecoderLayer (R := R)) : Prop := {
  ls_attn : qattn_sharded r (ql_self_attn m) (ql_self_attn mr);
  ls_mlp : mlp_sharded r (ql_mlp m) (ql_mlp mr);
  ls_input_norm : ql_input_layernorm mr = ql_input_layernorm m;
  ls_post_norm : ql_post_attention_layernorm mr = ql_post_attention_layernorm m
}.
Lemma layer_world context positions m (mr : nat → Qwen3DecoderLayer) x res y m' : (∀ r, r < tp → layer_sharded r m (mr r)) → context_valid context →
  qwen3_decoder_layer_forward context positions m x res = Ret (y, m') →
  ∃ mr', (∀ r, r < tp → layer_sharded r m' (mr' r)) ∧ world tp (λ r, (y, mr' r)) (λ r, qwen3_decoder_layer_forward context positions (mr r) x res).
Proof.
  intros Hm Hc. set (norm := λ m : Qwen3DecoderLayer, match res with
    | None => (rms_forward (ql_input_layernorm m) x, x) | Some res => add_rms_forward (ql_input_layernorm m) x res end).
  assert (Hn : ∀ r, r < tp → norm (mr r) = norm m) by (intros r Hr; unfold norm; by rewrite (ls_input_norm _ _ _ (Hm r Hr))).
  unfold qwen3_decoder_layer_forward. fold (norm m). destruct (norm m) as [h res1] eqn:Hnm.
  destruct (qwen3_attention_forward context positions (ql_self_attn m) h) as [[o a']| | |] eqn:Ha; [|done..]. cbn [mbind Spmd_bind fst snd].
  destruct (qwen3_attention_world context positions _ (λ r, ql_self_attn (mr r)) h o a' (λ r Hr, ls_attn _ _ _ (Hm r Hr)) Hc Ha) as (ar' & Hattn & Hw).
  destruct (add_rms_forward (ql_post_attention_layernorm m) o res1) as [h2 res2] eqn:Hadd.
  destruct (qwen3_mlp_forward (ql_mlp m) h2) as [h3| | |] eqn:Hmlp; [|done..]. cbn [mbind Spmd_bind]. intros [= <- <-].
  exists (λ r, mkQwen3DecoderLayer (ar' r) (ql_mlp (mr r)) (ql_input_layernorm (mr r)) (ql_post_attention_layernorm (mr r))). split.
  { intros r Hr. destruct (Hm r Hr) as [_ ? ? ?]. by split; [apply Hattn|..]. }
  eapply world_ext; [intros r Hr; fold (norm (mr r)); rewrite (Hn r Hr); reflexivity|]. eapply world_bind; [exact Hw|]. cbn [fst snd].
  eapply world_ext; [intros r Hr; rewrite (ls_post_norm _ _ _ (Hm r Hr)), Hadd; reflexivity|]. cbn beta iota.
  eapply world_bind; [apply (mlp_world _ (λ r, ql_mlp (mr r)) h2 h3 (λ r Hr, ls_mlp _ _ _ (Hm r Hr)) Hmlp)|]. apply world_ret. intros r Hr. by rewrite (ls_post_norm _ _ _ (Hm r Hr)).
Qed.
(** The layers of the ranks: one function of the rank for each layer *)
Definition layers_sharded (layers : list Qwen3DecoderLayer) (parts : list (nat → Qwen3DecoderLayer)) : Prop :=
  Forall2 (λ m mr, ∀ r, r < tp → layer_sharded r m (mr r)) layers parts.
Lemma layers_world context positions layers parts x res y layers' : layers_sharded layers parts → context_valid context →
  layers_forward context positions layers x res = Ret (y, layers') →
  ∃ parts', layers_sharded layers' parts' ∧
    world tp (λ r, (y, (λ f, f r) <$> parts')) (λ r, layers_forward context positions ((λ f, f r) <$> parts) x res).
Proof.
  intros Hl Hc. revert x res y layers'. induction Hl as [|m mr layers parts Hm _ IH]; intros x res y layers' Hf.
  { injection Hf as <- <-. exists []. split; [constructor|by apply world_ret]. }
  cbn [layers_forward] in Hf. destruct (qwen3_decoder_layer_forward context positions m x res) as [[h m']| | |] eqn:Hm'; [|done..].
  cbn [mbind Spmd_bind fst snd] in Hf. destruct (layers_forward context positions layers _ _) as [[h2 rest]| | |] eqn:Hrest; [|done..].
  injection Hf as <- <-. destruct (layer_world context positions m mr x res h m' Hm Hc Hm') as (mr' & Hms & Hw).
  destruct (IH _ _ _ _ Hrest) as (parts' & Hps & Hw'). exists (mr' :: parts'). split; [by constructor|]. cbn [fmap list_fmap layers_forward].
  eapply world_bind; [exact Hw|]. cbn [fst snd]. eapply world_bind; [exact Hw'|]. by apply world_ret.
Qed.

(** ** The model *)
Record model_sharded (m : Qwen3ForCausalLM (R := R)) (mr : nat → Qwen3ForCausalLM (R := R)) : Prop := {
  md_embed r : r < tp → vocab_sharded tp r per cols (qw_embed_tokens (ql_model m)) (qw_embed_tokens (ql_model (mr r)));
  md_layers : ∃ parts, layers_sharded (qw_layers (ql_model m)) parts ∧ ∀ r, r < tp → qw_layers (ql_model (mr r)) = (λ f, f r) <$> parts;
  md_norm r : r < tp → qw_norm (ql_model (mr r)) = qw_norm (ql_model m);
  md_head r : r < tp → vocab_sharded tp r per cols (ql_lm_head m) (ql_lm_head (mr r))
}.
Lemma logits_world context m (mr : nat → Qwen3ForCausalLM) ids positions logits m' : model_sharded m mr → context_valid context →
  qwen3_logits context m ids positions = Ret (logits, m') →
  ∃ mr', model_sharded m' mr' ∧ world tp (λ r, (if r =? 0 then logits else None, mr' r)) (λ r, qwen3_logits context (mr r) ids positions).
Proof.
  intros [He (parts & Hl & Hp) Hn Hh] Hc. unfold qwen3_logits, qwen3_model_forward.
  destruct (embedding_forward (qw_embed_tokens (ql_model m)) ids) as [x| | |] eqn:Hx; [|done..]. cbn [mbind Spmd_bind].
  destruct (layers_forward context positions (qw_layers (ql_model m)) x None) as [[[h res] layers']| | |] eqn:Hlf; [|done..]. cbn [mbind Spmd_bind fst snd].
  destruct res as [res|]; [|done]. destruct (add_rms_forward (qw_norm (ql_model m)) h res) as [hn res'] eqn:Hadd. cbn [mret Spmd_ret mbind Spmd_bind fst snd].
  destruct (lm_head_forward (ql_lm_head m) context hn) as [o| | |] eqn:Ho; [|done..]. cbn [mbind Spmd_bind]. intros [= <- <-].
  destruct (layers_world context positions _ parts x None _ layers' Hl Hc Hlf) as (parts' & Hl' & Hw).
  exists (λ r, mkQwen3ForCausalLM (mkQwen3Model (qw_embed_tokens (ql_model (mr r))) ((λ f, f r) <$> parts') (qw_norm (ql_model (mr r)))) (ql_lm_head (mr r))).
  split; [split; [done|by exists parts'|done|done]|].
  apply (world_bind _ (λ r, (hn, mkQwen3Model (qw_embed_tokens (ql_model (mr r))) ((λ f, f r) <$> parts') (qw_norm (ql_model (mr r)))))).
  - eapply world_bind; [exact (embedding_forward_world tp per cols _ (λ r, qw_embed_tokens (ql_model (mr r))) ids x Htp He Hx)|].
    eapply world_bind; [eapply world_ext; [intros r Hr; rewrite (Hp r Hr); reflexivity|exact Hw]|]. cbn [fst snd].
    apply world_ret. intros r Hr. cbn [fst snd]. by rewrite (Hn r Hr), Hadd.
  - cbn [fst snd]. eapply world_bind; [exact (lm_head_forward_world tp per cols _ (λ r, ql_lm_head (mr r)) context hn o Htp Hh Ho)|by apply world_ret].
Qed.
End spec.

(** ** Batch after batch *)
Section batches.
Context `{HS : Scalar R, HT : TorchNN R, HF : FlashAttention R}.
(** The forward passes of a rank, each on the caches the ones before left *)
Fixpoint batches_forward (m : Qwen3ForCausalLM (R := R)) (batches : list (AttentionContext * list Z * list Z)) :
    Spmd R (list (option (Matrix R)) * Qwen3ForCausalLM (R := R)) :=
  match batches with
  | [] => mret ([], m)
  | (context, input_ids, positions) :: batches =>
      lm ← qwen3_logits context m input_ids positions;
      rest ← batches_forward lm.2 batches;
      mret (lm.1 :: rest.1, rest.2)
  end.
End batches.
(** Tensor parallelism changes nothing: when a single rank with the whole model gets its logits in every batch of a
    sequence, the ranks with their parts all run to their ends without waiting for each other for ever, rank 0 gets the
    same logits, and the parts of the models and of their caches still belong together. *)
Lemma ranks_run_together `{HS : Scalar R, HLS : !LawfulScalar R, HT : TorchNN R, HLT : !LawfulTorchNN R, HF : FlashAttention R,
    HLF : !LawfulFlashAttention R} (tp group mk d slots si per cols : nat) (m m' : Qwen3ForCausalLM (R := R)) (mr : nat → Qwen3ForCausalLM (R := R))
    batches logits :
  0 < tp → 0 < group → 0 < mk → 0 < d → (Z.of_nat (slots * (tp * (mk * d))) <= 2 ^ 31)%Z →
  model_sharded tp group mk d slots si per cols m mr → Forall (λ b, context_valid tp group mk d slots b.1.1) batches →
  batches_forward m batches = Ret (logits, m') →
  ∃ fuel mr', run_ranks fuel ((λ r, batches_forward (mr r) batches) <$> seq 0 tp) =
      Some ((λ r, (if r =? 0 then logits else (λ _, None) <$> logits, mr' r)) <$> seq 0 tp) ∧
    model_sharded tp group mk d slots si per cols m' mr'.
Proof.
  intros Htp Hg Hmk Hd Hb Hm Hc Hf. cut (∃ mr', model_sharded tp group mk d slots si per cols m' mr' ∧
    world tp (λ r, (if r =? 0 then logits else (λ _, None) <$> logits, mr' r)) (λ r, batches_forward (mr r) batches)).
  { intros (mr' & Hm' & Hw). destruct (world_runs tp _ _ Htp Hw) as [fuel Hr]. by exists fuel, mr'. }
  revert m mr logits Hm Hf. induction Hc as [|[[context ids] positions] batches Hctx _ IH]; intros m mr logits Hm Hf; cbn [batches_forward] in *.
  { injection Hf as <- <-. exists mr. split; [done|]. apply world_ret. intros r Hr. by destruct (r =? 0). }
  destruct (qwen3_logits context m ids positions) as [[lg m1]| | |] eqn:Hl; [|done..]. cbn [mbind Spmd_bind fst snd] in Hf.
  destruct (batches_forward m1 batches) as [[rest m2]| | |] eqn:Hrest; [|done..]. injection Hf as <- <-.
  destruct (logits_world tp group mk d slots Htp Hg Hmk Hd Hb si per cols context m mr ids positions lg m1 Hm Hctx Hl) as (mr1 & Hm1 & Hw1).
  destruct (IH m1 mr1 rest Hm1 Hrest) as (mr2 & Hm2 & Hw2). exists mr2. split; [done|]. eapply world_bind; [exact Hw1|]. cbn [fst snd].
  eapply world_bind; [exact Hw2|]. apply world_ret. intros r Hr. cbn [fst snd]. by destruct (r =? 0).
Qed.
