(* ===== verification/Loader.v ===== *)
(** * Loading the weights

    Models [utils/loader.py]: every tensor of the checkpoint goes to the parameter of its name, or, when its name has that
    of a packed module, to its part of that one. The store maps the name of a parameter to its storage and its loader:
    tied embeddings are two names of one storage. *)
From S2P Require Import Prelude StorageBackend ModelRunner Tensor ParallelLinear.
Set Default Goal Selector "!".
Set Default Proof Using "Type*".

(** ** Strings *)
(** [k in s] *)
Fixpoint str_contains (k s : string) : bool :=
  String.prefix k s || match s with EmptyString => false | String _ s => str_contains k s end.
(** [s.replace(k, v)] for a non-empty [k]; [skip] characters belong to the occurrence just replaced. *)
Fixpoint replace_from (k v : string) (skip : nat) (s : string) : string :=
  match s with
  | EmptyString => EmptyString
  | String c s' =>
      match skip with
      | S skip => replace_from k v skip s'
      | 0 => if String.prefix k s then v +:+ replace_from k v (String.length k - 1) s' else String c (replace_from k v 0 s')
      end
  end.
Definition str_replace (k v s : string) : string := replace_from k v 0 s.

(** ** The model's parameters *)
Record ParamStore (R : Type) := mkParamStore { ps_names : gmap string (string * Loader); ps_data : gmap string (Tensor R) }.
Arguments mkParamStore {R}.
Arguments ps_names {R}.
Arguments ps_data {R}.
(** [Qwen3ForCausalLM.packed_modules_mapping] *)
Definition packed_modules_mapping : list (string * (string * ShardId)) := [
  ("q_proj", ("qkv_proj", ShardName "q"));
  ("k_proj", ("qkv_proj", ShardName "k"));
  ("v_proj", ("qkv_proj", ShardName "v"));
  ("gate_proj", ("gate_up_proj", ShardIndex 0));
  ("up_proj", ("gate_up_proj", ShardIndex 1))].
(** The parameter a weight goes to, and the part of it *)
Definition weight_target (mapping : list (string * (string * ShardId))) (weight_name : string) : string * option ShardId :=
  match List.find (λ kv, str_contains kv.1 weight_name) mapping with
  | Some (k, (v, shard_id)) => (str_replace k v weight_name, Some shard_id)
  | None => (weight_name, None)
  end.
Section load.
Context `{TorchParam R}.
Implicit Types (s : ParamStore R).
(** [model.get_parameter(name)] *)
Definition get_parameter (name : string) s : result (string * Param R) :=
  match ps_names s !! name with
  | Some (storage, loader) => match ps_data s !! storage with Some t => mret (storage, mkParam t loader) | None => throw Dangling end
  | None => throw (AttributeError ("`" +:+ name +:+ "` is not an attribute"))
  end.
(** [getattr(param, "weight_loader", default_weight_loader)] on an unpacked weight, [getattr(param, "weight_loader")] on a part *)
Definition run_loader (p : Param R) (w : Tensor R) (shard_id : option ShardId) : result (Param R) :=
  match pa_loader p, shard_id with
  | NoLoader, None => data ← copy_ (pa_data p) w; mret (mkParam data NoLoader)
  | _, _ => weight_loader p w shard_id
  end.
(** One round of the inner loop of [load_model] *)
Definition load_weight mapping s (entry : string * Tensor R) : result (ParamStore R) :=
  let '(param_name, shard_id) := weight_target mapping entry.1 in
  sp ← get_parameter param_name s;
  p ← run_loader sp.2 entry.2 shard_id;
  mret (mkParamStore (ps_names s) (<[sp.1 := pa_data p]> (ps_data s))).
(** [load_model], on the tensors of the files in the order the files come *)
Fixpoint load_weights mapping s (entries : list (string * Tensor R)) : result (ParamStore R) :=
  match entries with
  | [] => mret s
  | e :: entries => s ← load_weight mapping s e; load_weights mapping s entries
  end.
Definition load_model mapping s (files : list (list (string * Tensor R))) : result (ParamStore R) := load_weights mapping s (concat files).
End load.
