(* ===== verification/LoaderSpec.v ===== *)
(** * Every rank gets its part of the checkpoint

    Whatever the order of the files and of the tensors in them, loading leaves in each parameter of a rank its part of the
    weight, or the parts of the weights it packs, side by side. *)
From Stdlib Require Import Ascii.
From S2P Require Import Prelude Json StorageBackend ModelRunner Tensor ParallelLinear Loader.
Set Default Goal Selector "!".
Set Default Proof Using "Type*".

(** ** One parameter *)
Section parts.
Context `{TorchParam R}.
(** What the loaders use of a tensor along dimension 0: [wr] makes one of its rows, which satisfy [ok]. *)
Record rows_of {A} (wr : list A → Tensor R) (ok : A → Prop) : Prop := {
  ro_size a : size_0 (wr a) = length a;
  ro_copy a b : length a = length b → Forall ok a → Forall ok b → copy_ (wr a) (wr b) = inr (wr b);
  ro_narrow start len a : start + len <= length a → narrow_0 start len (wr a) = inr (wr (take len (drop start a)));
  ro_chunk n a : chunk_0 n (wr a) = wr <$> chunk n a;
  ro_narrow_copy start len a b : start + len <= length a → length b = len → Forall ok a → Forall ok b →
    narrow_copy_ start len (wr a) (inr (wr b)) = inr (wr (splice start len a b))
}.
Lemma narrow_ok {A} start len (l : list A) : start + len <= length l → narrow start len l = inr (take len (drop start l)).
Proof. intros Hl. unfold narrow. by rewrite (proj2 (Nat.ltb_ge _ _)). Qed.
Lemma same_shape cols (a b : Matrix R) : length a = length b → Forall (λ x, length x = cols) a → Forall (λ x, length x = cols) b →
  shape_of (T2 a) = shape_of (T2 b).
Proof. intros Hl Ha Hb. cbn. rewrite Hl. destruct Ha as [|x a Hx _], Hb as [|y b Hy _]; cbn in *; congruence. Qed.
Lemma copy_shape (a b : Tensor R) : shape_of a = shape_of b → copy_ a b = inr b.
Proof. intros Hs. unfold copy_. by rewrite bool_decide_true. Qed.
Lemma rows_of_vector : rows_of T1 (λ _, True).
Proof.
  split; [done|..].
  - intros a b Hl _ _. apply copy_shape. cbn. by rewrite Hl.
  - intros start len a Hl. cbn. by rewrite narrow_ok.
  - done.
  - intros start len a b Hl Hb _ _. unfold narrow_copy_. cbn [narrow_0]. rewrite narrow_ok by done. cbn. rewrite copy_shape; [done|]. cbn.
    by rewrite length_take, length_drop, Hb, Nat.min_l by lia.
Qed.
Lemma rows_of_matrix cols : rows_of T2 (λ x, length x = cols).
Proof.
  split; [done|..].
  - intros a b Hl Ha Hb. by apply copy_shape, (same_shape cols).
  - intros start len a Hl. cbn. by rewrite narrow_ok.
  - done.
  - intros start len a b Hl Hb Ha Hbk. unfold narrow_copy_. cbn [narrow_0]. rewrite narrow_ok by done. cbn. rewrite copy_shape; [done|].
    apply (same_shape cols); [by rewrite length_take, length_drop, Hb, Nat.min_l by lia|by apply Forall_take, Forall_drop|done].
Qed.
Lemma chunk_shards {A} tp s (w : list A) : 0 < s → 0 < tp → length w = tp * s → chunk tp w = (λ r, shard s r w) <$> seq 0 tp.
Proof.
  intros Hs Htp Hw. unfold chunk, shard. rewrite Hw. replace ((tp * s + tp - 1) / tp) with s by (apply (Nat.div_unique _ tp s (tp - 1)); nia).
  by replace ((tp * s + s - 1) / s) with tp by (apply (Nat.div_unique _ s tp (s - 1)); nia).
Qed.

Set Default Proof Using "All".
Context {A : Type} (wr : list A → Tensor R) (ok : A → Prop) (Hwr : rows_of wr ok) (tp r : nat) (Hr : r < tp).
Implicit Types (a w : list A).
Lemma shard_ok s w : Forall ok w → Forall ok (shard s r w).
Proof. intros Hw. by apply Forall_take, Forall_drop. Qed.
Lemma chunk_of_rank_shard s w : 0 < s → length w = tp * s → chunk_of_rank r tp (wr w) = inr (wr (shard s r w)).
Proof.
  intros Hs Hw. unfold chunk_of_rank. rewrite (ro_chunk _ _ Hwr), (chunk_shards tp s) by lia.
  by rewrite <-list_fmap_compose, list_lookup_fmap, lookup_seq_lt by done.
Qed.
(** A column-parallel weight, or the embedding *)
Lemma column_loads s a w : length a = s → length w = tp * s → Forall ok a → Forall ok w → column_weight_loader r (wr a) (wr w) = inr (wr (shard s r w)).
Proof.
  intros Ha Hw Oa Ow. unfold column_weight_loader. rewrite (ro_size _ _ Hwr), Ha, (ro_narrow _ _ Hwr) by nia. cbn [mbind result_bind].
  apply (ro_copy _ _ Hwr); [|done|by apply shard_ok]. by rewrite Ha, (shard_length s r tp).
Qed.
(** Packed parts: [ss] are their sizes on a rank. *)
Lemma segment_copied ss segs i s w : length <$> segs = ss → ss !! i = Some s → length w = s → Forall (Forall ok) segs → Forall ok w →
  narrow_copy_ (nsum (take i ss)) s (wr (concat segs)) (inr (wr w)) = inr (wr (concat (<[i := w]> segs))).
Proof.
  intros Hss Hi Hw Osegs Ow. assert (Hlt : i < length segs) by (apply lookup_lt_Some in Hi; rewrite <-Hss, length_fmap in Hi; done).
  destruct (lookup_lt_is_Some_2 segs i Hlt) as [old Hold]. assert (Hlen : length old = s).
  { rewrite <-Hss, list_lookup_fmap, Hold in Hi. by injection Hi. }
  assert (Hcat : ∀ l : list (list A), length (concat l) = nsum (length <$> l)).
  { induction l as [|x l IH]; [done|]. cbn. by rewrite length_app, IH. }
  assert (Hpre : nsum (take i ss) = length (concat (take i segs))) by by rewrite Hcat, fmap_take, Hss.
  assert (Hseg : concat segs = concat (take i segs) ++ old ++ concat (drop (S i) segs)).
  { rewrite <-(take_drop_middle segs i old Hold) at 1. by rewrite concat_app. }
  rewrite (ro_narrow_copy _ _ Hwr); [|rewrite Hseg, !length_app; lia|done|by apply Forall_concat|done].
  do 2 f_equal. rewrite insert_take_drop by done. rewrite concat_app. cbn. unfold splice. rewrite Hpre, Hseg.
  rewrite take_app_length, <-Hlen, <-drop_drop, drop_app_length, drop_app_length. done.
Qed.
(** What the loader of a packed weight leaves of its data *)
Definition packed_after (ss : list nat) (segs : list (list A)) : Prop := length <$> segs = ss ∧ Forall (Forall ok) segs.
Lemma packed_insert ss segs i s w : packed_after ss segs → ss !! i = Some s → length w = s → Forall ok w → packed_after ss (<[i := w]> segs).
Proof.
  intros [Hss Hok] Hi Hw Ow. split; [|by apply Forall_insert]. rewrite list_fmap_insert, Hw, Hss. by apply list_insert_id.
Qed.
Lemma merged_loads ss segs i s w : packed_after ss segs → ss !! i = Some s → 0 < s → length w = tp * s → Forall ok w →
  merged_weight_loader ((λ s, tp * s) <$> ss) r tp (wr (concat segs)) (wr w) i = inr (wr (concat (<[i := shard s r w]> segs))).
Proof.
  intros [Hss Hok] Hi Hs Hw Ow. unfold merged_weight_loader. rewrite (py_nth_Some _ _ (tp * s)) by (by rewrite list_lookup_fmap, Hi).
  cbn [mbind result_bind]. rewrite (chunk_of_rank_shard s w) by done. cbn [mbind result_bind].
  assert (Hsum : ∀ l : list nat, nsum ((λ s, tp * s) <$> l) = nsum l * tp).
  { induction l as [|x l IH]; [done|]. unfold nsum in *. cbn. lia. }
  rewrite <-fmap_take, Hsum, Nat.div_mul, (Nat.mul_comm tp s), Nat.div_mul by lia.
  apply (segment_copied ss); [done|done|by apply (shard_length s r tp)|done|by apply shard_ok].
Qed.
Lemma qkv_loads nq nk hd segs name i s w : packed_after [nq * hd; nk * hd; nk * hd] segs → [("q", nq * hd); ("k", nk * hd); ("v", nk * hd)] !! i = Some (name, s) →
  0 < s → length w = tp * s → Forall ok w →
  qkv_weight_loader hd nq nk r tp (wr (concat segs)) (wr w) name = inr (wr (concat (<[i := shard s r w]> segs))).
Proof.
  intros [Hss Hok] Hi Hs Hw Ow. unfold qkv_weight_loader.
  assert (Hseg : ∀ off, off = nsum (take i [nq * hd; nk * hd; nk * hd]) → [nq * hd; nk * hd; nk * hd] !! i = Some s →
    narrow_copy_ off s (wr (concat segs)) (inr (wr (shard s r w))) = inr (wr (concat (<[i := shard s r w]> segs)))).
  { intros off -> Hs'. apply (segment_copied [nq * hd; nk * hd; nk * hd]); [done|done|by apply (shard_length s r tp)|done|by apply shard_ok]. }
  destruct i as [|[|[|i]]]; [injection Hi as <- <-..|done]; cbn -[narrow_copy_ chunk_of_rank]; rewrite (chunk_of_rank_shard _ w) by done; cbn -[narrow_copy_];
    apply Hseg; cbn; [done|done|lia|done|lia|done].
Qed.

(** *** All the parts of a packed weight, in any order *)
Lemma split_sizes_packed ss a : length a = nsum ss → Forall ok a → concat (split_sizes ss a) = a ∧ packed_after ss (split_sizes ss a).
Proof.
  revert a. induction ss as [|s ss IH]; intros a Ha Oa; cbn in *.
  { destruct a; [|done]. split; [done|split; [done|constructor]]. }
  unfold nsum in IH.
  destruct (IH (drop s a)) as (Hc & Hl & Ho); [rewrite length_drop; lia|by apply Forall_drop|]. rewrite Hc, take_drop. split; [done|].
  split; [cbn [fmap list_fmap]; rewrite length_take, Nat.min_l by lia; f_equal; exact Hl|]. constructor; [by apply Forall_take|done].
Qed.
Definition place (ss : list nat) (segs : list (list A)) (part : nat * list A) : list (list A) :=
  <[part.1 := shard (ss !!! part.1) r part.2]> segs.
Lemma place_lookup ss parts segs i w : NoDup parts.*1 → (i, w) ∈ parts → i < length segs →
  foldl (place ss) segs parts !! i = Some (shard (ss !!! i) r w).
Proof.
  revert segs. induction parts as [|[j v] parts IH]; intros segs Hnd Hin Hi; [by apply not_elem_of_nil in Hin|]. cbn [foldl].
  cbn in Hnd. apply NoDup_cons in Hnd as [Hj Hnd]. apply elem_of_cons in Hin as [[= <- <-]|Hin].
  - assert (Hrest : ∀ segs', foldl (place ss) segs' parts !! i = segs' !! i).
    { clear - Hj. induction parts as [|[j u] parts IH]; intros segs'; [done|]. cbn in Hj |- *. apply not_elem_of_cons in Hj as [Hne Hj].
      rewrite IH by done. by apply list_lookup_insert_ne. }
    rewrite Hrest. by apply list_lookup_insert_eq.
  - apply IH; [done|done|]. unfold place. by rewrite length_insert.
Qed.
Lemma place_length ss parts segs : length (foldl (place ss) segs parts) = length segs.
Proof. revert segs. induction parts as [|p parts IH]; intros segs; [done|]. cbn [foldl]. rewrite IH. apply length_insert. Qed.
Lemma place_all ss ws parts segs : length segs = length ss → length ws = length ss → parts ≡ₚ zip (seq 0 (length ss)) ws →
  foldl (place ss) segs parts = zip_with (λ s w, shard s r w) ss ws.
Proof.
  intros Hsegs Hws Hp. assert (Hnd : NoDup parts.*1) by (rewrite Hp, fst_zip by (rewrite length_seq; lia); apply NoDup_seq).
  apply list_eq_same_length with (length ss); [by rewrite length_zip_with, Hws, Nat.min_id|by rewrite place_length|].
  intros i a b Hi Ha Hb. apply lookup_zip_with_Some in Hb as (s & w & -> & Hs & Hw).
  rewrite (place_lookup ss parts segs i w) in Ha; [|done| |lia].
  - injection Ha as <-. by rewrite (list_lookup_total_correct _ _ _ Hs).
  - rewrite Hp. apply (list_elem_of_lookup_2 _ i), lookup_zip_Some. by rewrite lookup_seq_lt by done.
Qed.
(** Loads of the parts [parts] of a parameter, [sid] naming them *)
Fixpoint run_parts (loader : Loader) (data : Tensor R) (parts : list (Tensor R * option ShardId)) : result (Tensor R) :=
  match parts with
  | [] => mret data
  | (w, shard_id) :: parts => p ← run_loader (mkParam data loader) w shard_id; run_parts loader (pa_data p) parts
  end.
Lemma packed_run loader (sid : nat → option ShardId) ss ws (data : list A) parts : Forall (λ s, 0 < s) ss → length data = nsum ss → Forall ok data →
  Forall2 (λ s w, length w = tp * s ∧ Forall ok w) ss ws →
  (∀ segs i s w, packed_after ss segs → ss !! i = Some s → 0 < s → length w = tp * s → Forall ok w →
    run_loader (mkParam (wr (concat segs)) loader) (wr w) (sid i) = inr (mkParam (wr (concat (<[i := shard s r w]> segs))) loader)) →
  parts ≡ₚ (λ iw, (wr iw.2, sid iw.1)) <$> zip (seq 0 (length ss)) ws →
  run_parts loader (wr data) parts = inr (wr (concat (zip_with (λ s w, shard s r w) ss ws))).
Proof.
  intros Hpos Hd Od Hws Hstep Hp. destruct (split_sizes_packed ss data Hd Od) as [Hdata Hpk]. rewrite <-Hdata. clear Hdata.
  set (segs := split_sizes ss data) in *. clearbody segs. pose proof (Forall2_length _ _ _ Hws) as Hlen.
  destruct (Permutation_map_inv (λ iw, (wr iw.2, sid iw.1)) _ Hp) as (order & -> & Ho).
  assert (Hsegs : length segs = length ss) by (destruct Hpk as [<- _]; by rewrite length_fmap).
  rewrite <-(place_all ss ws order segs); [|done|done|by symmetry].
  assert (Hin : Forall (λ iw, ∃ s, ss !! iw.1 = Some s ∧ 0 < s ∧ length iw.2 = tp * s ∧ Forall ok iw.2) order).
  { rewrite <-Ho. apply Forall_lookup. intros j [i w] [Hi Hw]%lookup_zip_Some. apply lookup_seq in Hi as [-> Hi]. cbn.
    destruct (lookup_lt_is_Some_2 ss j Hi) as [s Hs]. exists s. destruct (Forall2_lookup_lr _ _ _ _ _ _ Hws Hs Hw) as [? ?].
    split_and!; [done| |done|done]. by apply (Forall_lookup_1 _ _ _ _ Hpos Hs). }
  clear - Hstep Hin Hpk Hwr Hr. revert segs Hpk. induction Hin as [|[i w] order (s & Hs & Hpos & Hw & Ow) _ IH]; intros segs Hpk; [done|].
  cbn [map run_parts fst snd]. cbn in Hs, Hw, Ow. rewrite (Hstep segs i s w) by done. cbn [mbind result_bind pa_data foldl].
  assert (Hpl : place ss segs (i, w) = <[i := shard s r w]> segs) by (unfold place; cbn; by rewrite (list_lookup_total_correct _ _ _ Hs)).
  rewrite Hpl. apply IH. apply (packed_insert ss segs i s); [done|done|by apply (shard_length s r tp)|by apply shard_ok].
Qed.
End parts.

(** A property of each element of a list that is written out *)
Ltac each := repeat first [apply Forall_nil_2 | apply Forall_cons_2; [done|] | apply Forall2_nil_2 | apply Forall2_cons_2; [done|]].

(** ** A whole checkpoint *)
Section checkpoint.
Context `{TorchParam R}.
(** [assembled loader data parts t]: the tensors [parts], in some order, are the whole weight of a parameter of rank [r] of
    [tp] with this loader; [t] is the rank's part. *)
Inductive assembled (tp r : nat) : Loader → Tensor R → list (Tensor R * option ShardId) → Tensor R → Prop :=
| assembled_whole loader data w : loader = NoLoader ∨ loader = ReplicatedLoader → shape_of data = shape_of w →
    assembled tp r loader data [(w, None)] w
| assembled_column {A} (wr : list A → Tensor R) ok loader a w s : rows_of wr ok → loader = ColumnLoader r ∨ loader = VocabLoader r →
    length a = s → length w = tp * s → Forall ok a → Forall ok w → assembled tp r loader (wr a) [(wr w, None)] (wr (shard s r w))
| assembled_row n s a w : 0 < n → shaped n s a → shaped n (tp * s) w → assembled tp r (RowLoader r) (T2 a) [(T2 w, None)] (T2 (shard s r <$> w))
| assembled_row_bias a w : length a = length w → assembled tp r (RowLoader r) (T1 a) [(T1 w, None)] (T1 w)
| assembled_qkv {A} (wr : list A → Tensor R) ok nq nk hd a q k v parts : rows_of wr ok → 0 < nq * hd → 0 < nk * hd →
    length a = nq * hd + (nk * hd + nk * hd) → length q = tp * (nq * hd) → length k = tp * (nk * hd) → length v = tp * (nk * hd) →
    Forall ok a → Forall ok (q ++ k ++ v) →
    parts ≡ₚ [(wr q, Some (ShardName "q")); (wr k, Some (ShardName "k")); (wr v, Some (ShardName "v"))] →
    assembled tp r (QKVLoader hd nq nk r tp) (wr a) parts (wr (shard (nq * hd) r q ++ shard (nk * hd) r k ++ shard (nk * hd) r v))
| assembled_merged {A} (wr : list A → Tensor R) ok s a gate up parts : rows_of wr ok → 0 < s → length a = s + s → length gate = tp * s →
    length up = tp * s → Forall ok a → Forall ok (gate ++ up) →
    parts ≡ₚ [(wr gate, Some (ShardIndex 0)); (wr up, Some (ShardIndex 1))] →
    assembled tp r (MergedLoader [tp * s; tp * s] r tp) (wr a) parts (wr (shard s r gate ++ shard s r up)).
Lemma assembled_runs tp r loader data parts t : r < tp → assembled tp r loader data parts t → run_parts loader data parts = inr t.
Proof.
  intros Hr [loader' data' w [->| ->] Hs|A wr ok loader' a w s Hwr [->| ->] Ha Hw Oa Ow|n s a w Hn [Ha Sa] [Hw Sw]|a w Hl
    |A wr ok nq nk hd a q k v ps Hwr Hq Hk La Lq Lk Lv Oa Ow Hp|A wr ok s a gate up ps Hwr Hs La Lg Lu Oa Ow Hp].
  - cbn. by rewrite copy_shape.
  - cbn. unfold weight_loader. cbn. by rewrite copy_shape.
  - cbn. unfold weight_loader. cbn. by rewrite (column_loads wr ok Hwr tp r Hr s).
  - cbn. unfold weight_loader. cbn. change vocab_weight_loader with column_weight_loader. by rewrite (column_loads wr ok Hwr tp r Hr s).
  - cbn -[row_weight_loader]. unfold weight_loader. cbn -[row_weight_loader].
    assert (Hrow : row_weight_loader r (T2 a) (T2 w) = inr (T2 (shard s r <$> w))).
    { unfold row_weight_loader. assert (Hh : length (default [] (head a)) = s) by (destruct Sa; [cbn in Ha; lia|done]). rewrite Hh.
      rewrite (proj2 (mapR_inr (narrow (r * s) s) w (shard s r <$> w))).
      - cbn -[copy_]. apply copy_shape, (same_shape s); [by rewrite length_fmap, Ha, Hw|done|]. apply Forall_fmap. eapply Forall_impl; [exact Sw|].
        intros x Hx. cbn. by apply (shard_length s r tp).
      - apply Forall2_fmap_r, Forall_Forall2_diag. eapply Forall_impl; [exact Sw|]. intros x Hx. cbn in Hx |- *. rewrite narrow_ok; [done|nia]. }
    by rewrite Hrow.
  - cbn. unfold weight_loader. cbn. rewrite copy_shape; [done|]. cbn. by rewrite Hl.
  - apply Forall_app in Ow as [Oq [Ok Ov]%Forall_app].
    rewrite (packed_run wr ok Hwr tp r Hr _ (λ i, Some (ShardName (["q"; "k"; "v"] !!! i))) [nq * hd; nk * hd; nk * hd] [q; k; v] a);
      [cbn; by rewrite app_nil_r|each|rewrite La; unfold nsum; cbn; lia|done|each| |done].
    intros segs i s w Hpk Hi Hs Hw Owi. unfold run_loader, weight_loader. cbn -[qkv_weight_loader].
    rewrite (qkv_loads wr ok Hwr tp r Hr nq nk hd segs _ i s w); [done|done| |done..]. by destruct i as [|[|[|i]]]; [injection Hi as <-..|].
  - apply Forall_app in Ow as [Og Ou].
    rewrite (packed_run wr ok Hwr tp r Hr _ (λ i, Some (ShardIndex i)) [s; s] [gate; up] a);
      [cbn; by rewrite app_nil_r|each|rewrite La; unfold nsum; cbn; lia|done|each| |done].
    intros segs i s' w Hpk Hi Hs' Hw Owi. unfold run_loader, weight_loader. cbn -[merged_weight_loader].
    pose proof (merged_loads wr ok Hwr tp r Hr [s; s] segs i s' w Hpk Hi Hs' Hw Owi) as Hm. cbn [fmap list_fmap] in Hm. by rewrite Hm.
Qed.

(** The tensors of the checkpoint that go to a storage, with their loader *)
Definition parts_of mapping (s : ParamStore R) (key : string) (entries : list (string * Tensor R)) : list (Loader * (Tensor R * option ShardId)) :=
  omap (λ e, let '(name, shard_id) := weight_target mapping e.1 in
             match ps_names s !! name with
             | Some (key', loader) => if decide (key' = key) then Some (loader, (e.2, shard_id)) else None
             | None => None
             end) entries.
Fixpoint run_loads (data : Tensor R) (parts : list (Loader * (Tensor R * option ShardId))) : result (Tensor R) :=
  match parts with
  | [] => mret data
  | (loader, (w, shard_id)) :: parts => p ← run_loader (mkParam data loader) w shard_id; run_loads (pa_data p) parts
  end.
(** The loads of the parameters do not interfere: each storage ends as its own loads leave it. *)
Lemma load_weights_separate mapping s entries (want : string → Tensor R) :
  (∀ e, e ∈ entries → is_Some (ps_names s !! (weight_target mapping e.1).1)) →
  (∀ name key loader, ps_names s !! name = Some (key, loader) → is_Some (ps_data s !! key)) →
  (∀ key data, ps_data s !! key = Some data → run_loads data (parts_of mapping s key entries) = inr (want key)) →
  ∃ s', load_weights mapping s entries = inr s' ∧ ps_names s' = ps_names s ∧
    ∀ key, ps_data s' !! key = (λ _, want key) <$> ps_data s !! key.
Proof.
  revert s. induction entries as [|e entries IH]; intros s Hn Hd Hw; cbn [load_weights].
  { exists s. split_and!; [done..|]. intros key. destruct (ps_data s !! key) as [t|] eqn:Ht; [|done]. cbn. specialize (Hw key t Ht). by injection Hw as ->. }
  destruct (Hn e) as [[key loader] Hk]; [by left|]. destruct (Hd _ _ _ Hk) as [data Hdata]. pose proof (Hw key data Hdata) as Hrun.
  unfold parts_of in Hrun. cbn [omap list_omap] in Hrun. destruct (weight_target mapping e.1) as [name shard_id] eqn:Ht. cbn [fst] in Hk.
  rewrite Hk, decide_True in Hrun by done. cbn [run_loads] in Hrun. apply result_bind_inr in Hrun as (p & Hp & Hrun).
  assert (Hload : load_weight mapping s e = inr (mkParamStore (ps_names s) (<[key := pa_data p]> (ps_data s)))).
  { unfold load_weight. rewrite Ht. unfold get_parameter. rewrite Hk, Hdata. cbn -[run_loader]. by rewrite Hp. }
  rewrite Hload. cbn [mbind result_bind].
  destruct (IH (mkParamStore (ps_names s) (<[key := pa_data p]> (ps_data s)))) as (s' & Hs' & Hnames & Hs); cbn [ps_names ps_data].
  - intros e' He'. apply Hn. by right.
  - intros name' key' loader' Hk'. destruct (decide (key' = key)) as [->|Hne]; [rewrite lookup_insert_eq; by eexists|].
    rewrite lookup_insert_ne by done. by apply (Hd name' key' loader').
  - intros key' data' Hd'. destruct (decide (key' = key)) as [->|Hne].
    + rewrite lookup_insert_eq in Hd'. by injection Hd' as <-.
    + rewrite lookup_insert_ne in Hd' by done. specialize (Hw key' data' Hd'). unfold parts_of in Hw. cbn [omap list_omap] in Hw.
      rewrite Ht, Hk, decide_False in Hw by done. exact Hw.
  - exists s'. split_and!; [done|done|]. intros key'. rewrite Hs. cbn [ps_data]. destruct (decide (key' = key)) as [->|Hne].
    + by rewrite lookup_insert_eq, Hdata.
    + by rewrite lookup_insert_ne.
Qed.
End checkpoint.
(** C18: loading a complete checkpoint succeeds, in whatever order its files and tensors come: every parameter of the rank then
    holds the rank's part of its weight, packed weights the parts of theirs side by side, and no parameter is touched that
    the checkpoint does not name. *)
Theorem load_model_assembles `{TorchParam R} (tp r : nat) mapping s files (want : string → Tensor R) : r < tp →
  (∀ e, e ∈ concat files → is_Some (ps_names s !! (weight_target mapping e.1).1)) →
  (∀ name key loader, ps_names s !! name = Some (key, loader) → is_Some (ps_data s !! key)) →
  (∀ key data, ps_data s !! key = Some data →
     parts_of mapping s key (concat files) = [] ∧ want key = data ∨
     ∃ loader parts, parts_of mapping s key (concat files) = pair loader <$> parts ∧ assembled tp r loader data parts (want key)) →
  ∃ s', load_model mapping s files = inr s' ∧ ps_names s' = ps_names s ∧ ∀ key, ps_data s' !! key = (λ _, want key) <$> ps_data s !! key.
Proof.
  intros Hr Hn Hd Hw. apply load_weights_separate; [done|done|]. intros key data Hdata.
  destruct (Hw key data Hdata) as [[-> ->]|(loader & parts & -> & Ha)]; [done|]. apply (assembled_runs _ _ _ _ _ _ Hr) in Ha.
  rewrite <-Ha. clear. revert data. induction parts as [|[w sid] parts IH]; intros data; [done|]. cbn.
  destruct (run_loader _ _ _); [done|]. cbn. by rewrite IH.
Qed.

(** ** The names of a checkpoint *)
(** The tensors of a layer in a Qwen3 checkpoint, the parameter each goes to and its part of it *)
Definition layer_weights : list (string * (string * option ShardId)) := [
  ("self_attn.q_proj.weight", ("self_attn.qkv_proj.weight", Some (ShardName "q")));
  ("self_attn.k_proj.weight", ("self_attn.qkv_proj.weight", Some (ShardName "k")));
  ("self_attn.v_proj.weight", ("self_attn.qkv_proj.weight", Some (ShardName "v")));
  ("self_attn.q_proj.bias", ("self_attn.qkv_proj.bias", Some (ShardName "q")));
  ("self_attn.k_proj.bias", ("self_attn.qkv_proj.bias", Some (ShardName "k")));
  ("self_attn.v_proj.bias", ("self_attn.qkv_proj.bias", Some (ShardName "v")));
  ("self_attn.o_proj.weight", ("self_attn.o_proj.weight", None));
  ("self_attn.q_norm.weight", ("self_attn.q_norm.weight", None));
  ("self_attn.k_norm.weight", ("self_attn.k_norm.weight", None));
  ("mlp.gate_proj.weight", ("mlp.gate_up_proj.weight", Some (ShardIndex 0)));
  ("mlp.up_proj.weight", ("mlp.gate_up_proj.weight", Some (ShardIndex 1)));
  ("mlp.down_proj.weight", ("mlp.down_proj.weight", None));
  ("input_layernorm.weight", ("input_layernorm.weight", None));
  ("post_attention_layernorm.weight", ("post_attention_layernorm.weight", None))].
Definition free_of (c : Ascii.ascii) (s : string) : Prop := Forall (λ a, a ≠ c) (String.list_ascii_of_string s).
Lemma prefix_other c k a s : a ≠ c → String.prefix (String c k) (String a s) = false.
Proof. intros Hne. cbn. by destruct (Ascii.ascii_dec c a) as [->|]. Qed.
Lemma contains_after c k P t : free_of c P → str_contains (String c k) (P +:+ t) = str_contains (String c k) t.
Proof.
  unfold free_of. induction P as [|a P IH]; intros Hf; [done|]. cbn [String.list_ascii_of_string] in Hf. apply Forall_cons in Hf as [Ha Hf].
  change (String a P +:+ t) with (String a (P +:+ t)). cbn [str_contains]. by rewrite prefix_other, IH by done.
Qed.
Lemma replace_after c k v P t : free_of c P → str_replace (String c k) v (P +:+ t) = P +:+ str_replace (String c k) v t.
Proof.
  unfold free_of, str_replace. induction P as [|a P IH]; intros Hf; [done|]. cbn [String.list_ascii_of_string] in Hf. apply Forall_cons in Hf as [Ha Hf].
  change (String a P +:+ t) with (String a (P +:+ t)). cbn [replace_from]. by rewrite prefix_other, IH by done.
Qed.
Lemma digits_are_digits fuel n acc : Forall (λ c, 48 <= c <= 57)%Z acc → Forall (λ c, 48 <= c <= 57)%Z (digits fuel n acc).
Proof.
  revert n acc. induction fuel as [|fuel IH]; intros n acc Ha; [done|]. cbn [digits].
  assert (Hacc : Forall (λ c, 48 <= c <= 57)%Z ((48 + n mod 10)%Z :: acc)).
  { constructor; [|done]. pose proof (Z.mod_pos_bound n 10). lia. }
  destruct (n / 10 =? 0)%Z; [done|by apply IH].
Qed.
Lemma free_of_number c i : (Ascii.nat_of_ascii c < 48 ∨ 57 < Ascii.nat_of_ascii c) → free_of c (str_int (Z.of_nat i)).
Proof.
  intros Hc. unfold free_of, str_int, string_of. rewrite String.list_ascii_of_string_of_list_ascii. apply Forall_fmap.
  assert (Hd : Forall (λ c, 48 <= c <= 57)%Z (py_str_int (Z.of_nat i))).
  { unfold py_str_int. rewrite (proj2 (Z.ltb_ge _ _)) by lia. unfold dec. by apply digits_are_digits. }
  eapply Forall_impl; [exact Hd|]. intros z Hz. cbn in Hz |- *. intros <-. rewrite Ascii.nat_ascii_embedding in Hc by lia. lia.
Qed.
(** The name of each tensor of a layer leads to its parameter, and to its part of a packed one: no other key of the
    mapping occurs in the name, whatever the number of the layer. *)
Theorem layer_weight_target (i : nat) sub target : (sub, target) ∈ layer_weights →
  let layer := "model.layers." +:+ str_int (Z.of_nat i) +:+ "." in
  weight_target packed_modules_mapping (layer +:+ sub) = (layer +:+ target.1, target.2).
Proof.
  intros Hin layer. assert (Hfree : ∀ c, c ∈ ["q"; "k"; "v"; "g"; "u"]%char → free_of c layer).
  { intros c Hc. assert (Happ : ∀ s1 s2, free_of c s1 → free_of c s2 → free_of c (s1 +:+ s2)).
    { clear. intros s1 s2 H1 H2. unfold free_of in *. induction s1 as [|a s1 IH]; [done|]. cbn [String.list_ascii_of_string] in H1.
      apply Forall_cons in H1 as [Ha H1]. constructor; [done|by apply IH]. }
    repeat apply Happ; [| |]; [|apply free_of_number|];
      repeat (apply elem_of_cons in Hc as [->|Hc]; [first [by repeat constructor|right; apply Nat.ltb_lt; reflexivity]|]); by apply not_elem_of_nil in Hc. }
  assert (Hfind : List.find (λ kv, str_contains kv.1 (layer +:+ sub)) packed_modules_mapping = List.find (λ kv, str_contains kv.1 sub) packed_modules_mapping).
  { unfold packed_modules_mapping. cbn [List.find fst]. rewrite !contains_after by (apply Hfree; set_solver). done. }
  unfold weight_target. rewrite Hfind. unfold layer_weights in Hin.
  repeat (apply elem_of_cons in Hin as [[= -> ->]|Hin]; [cbn -[layer str_replace]; rewrite ?replace_after by (apply Hfree; set_solver); reflexivity|]).
  by apply not_elem_of_nil in Hin.
Qed.
