(* ===== verification/Qwen3Load.v ===== *)
(** * From a checkpoint to the parts of the ranks

    Constructing the model on every rank of a tensor-parallel group and loading the same checkpoint gives the parts
    [tensor_parallel_transparent] is about. The loads of a parameter are those [load_model] performs on it, by
    [load_weights_separate]. *)
From S2P Require Import Prelude ModelRunner Tensor ParallelLinear ParallelSpec Qwen3 CacheSpec Qwen3Spec Loader LoaderSpec.
Set Default Goal Selector "!".
Set Default Proof Using "Type*".

(** ** A checkpoint *)
Record LayerWeights (R : Type) := mkLayerWeights {
  lw_q : Matrix R; lw_k : Matrix R; lw_v : Matrix R; lw_bias : option (Vector R * Vector R * Vector R); lw_o : Matrix R;
  lw_q_norm : Vector R; lw_k_norm : Vector R; lw_gate : Matrix R; lw_up : Matrix R; lw_down : Matrix R;
  lw_input_norm : Vector R; lw_post_norm : Vector R }.
Record ModelWeights (R : Type) := mkModelWeights {
  mw_embed : Matrix R; mw_layers : list (LayerWeights R); mw_norm : Vector R; mw_head : Matrix R }.
Arguments mkLayerWeights {R}.
Arguments lw_q {R}.
Arguments lw_k {R}.
Arguments lw_v {R}.
Arguments lw_bias {R}.
Arguments lw_o {R}.
Arguments lw_q_norm {R}.
Arguments lw_k_norm {R}.
Arguments lw_gate {R}.
Arguments lw_up {R}.
Arguments lw_down {R}.
Arguments lw_input_norm {R}.
Arguments lw_post_norm {R}.
Arguments mkModelWeights {R}.
Arguments mw_embed {R}.
Arguments mw_layers {R}.
Arguments mw_norm {R}.
Arguments mw_head {R}.

Section load.
Context `{HS : Scalar R, HP : TorchParam R}.
(** ** Loading, parameter by parameter *)
Definition load_param (p : Param R) (parts : list (Tensor R * option ShardId)) : result (Param R) :=
  data ← run_parts (pa_loader p) (pa_data p) parts;
  mret (mkParam data (pa_loader p)).
Definition whole (t : Tensor R) : list (Tensor R * option ShardId) := [(t, None)].
Definition load_linear (l : Linear (R := R)) (weight : list (Tensor R * option ShardId)) (bias : option (list (Tensor R * option ShardId))) :
    result (Linear (R := R)) :=
  w ← load_param (ln_weight l) weight;
  b ← match ln_bias l, bias with
      | Some p, Some parts => p ← load_param p parts; mret (Some p)
      | b, _ => mret b
      end;
  mret (mkLinear (ln_tp_rank l) (ln_tp_size l) w b).
Definition load_norm (n : RMSNorm (R := R)) (w : Vector R) : result (RMSNorm (R := R)) :=
  p ← load_param (rn_weight n) (whole (T1 w));
  mret (mkRMSNorm (rn_eps n) p).
Definition load_vocab (e : VocabParallelEmbedding (R := R)) (w : Matrix R) : result (VocabParallelEmbedding (R := R)) :=
  p ← load_param (ve_weight e) (whole (T2 w));
  mret (mkVocab (ve_tp_rank e) (ve_tp_size e) (ve_vocab_start_idx e) (ve_vocab_end_idx e) p).
Definition qkv_parts {A} (wr : list A → Tensor R) (q k v : list A) : list (Tensor R * option ShardId) :=
  [(wr q, Some (ShardName "q")); (wr k, Some (ShardName "k")); (wr v, Some (ShardName "v"))].
(** The norms of the heads exist without a bias only. *)
Definition load_attention (m : Qwen3Attention (R := R)) (w : LayerWeights R) : result (Qwen3Attention (R := R)) :=
  qkv ← load_linear (qa_qkv_proj m) (qkv_parts T2 (lw_q w) (lw_k w) (lw_v w)) ((λ '(q, k, v), qkv_parts T1 q k v) <$> lw_bias w);
  o ← load_linear (qa_o_proj m) (whole (T2 (lw_o w))) None;
  qn ← (if qa_qkv_bias m then mret (qa_q_norm m) else load_norm (qa_q_norm m) (lw_q_norm w));
  kn ← (if qa_qkv_bias m then mret (qa_k_norm m) else load_norm (qa_k_norm m) (lw_k_norm w));
  mret (mkQwen3Attention (qa_num_heads m) (qa_num_kv_heads m) (qa_head_dim m) (qa_qkv_bias m) qkv o (qa_rotary_emb m) (qa_attn m) qn kn).
Definition load_mlp (m : Qwen3MLP (R := R)) (w : LayerWeights R) : result (Qwen3MLP (R := R)) :=
  gate_up ← load_linear (qm_gate_up_proj m) [(T2 (lw_gate w), Some (ShardIndex 0)); (T2 (lw_up w), Some (ShardIndex 1))] None;
  down ← load_linear (qm_down_proj m) (whole (T2 (lw_down w))) None;
  mret (mkQwen3MLP gate_up down).
Definition load_layer (m : Qwen3DecoderLayer (R := R)) (w : LayerWeights R) : result (Qwen3DecoderLayer (R := R)) :=
  attn ← load_attention (ql_self_attn m) w;
  mlp ← load_mlp (ql_mlp m) w;
  n1 ← load_norm (ql_input_layernorm m) (lw_input_norm w);
  n2 ← load_norm (ql_post_attention_layernorm m) (lw_post_norm w);
  mret (mkQwen3DecoderLayer attn mlp n1 n2).
Definition load_qwen3 (m : Qwen3ForCausalLM (R := R)) (w : ModelWeights R) : result (Qwen3ForCausalLM (R := R)) :=
  embed ← load_vocab (qw_embed_tokens (ql_model m)) (mw_embed w);
  layers ← mapR (λ lw, load_layer lw.1 lw.2) (zip (qw_layers (ql_model m)) (mw_layers w));
  norm ← load_norm (qw_norm (ql_model m)) (mw_norm w);
  head ← load_vocab (ql_lm_head m) (mw_head w);
  mret (mkQwen3ForCausalLM (mkQwen3Model embed layers norm) head).
(** The model of a rank, constructed and loaded *)
Definition loaded_rank (tp_rank tp_size : nat) (c : Qwen3Config (R := R)) (w : ModelWeights R) : result (Qwen3ForCausalLM (R := R)) :=
  m ← qwen3_for_causal_lm tp_rank tp_size c;
  load_qwen3 m w.
(** [allocate_kv_cache] gives each layer its caches. *)
Definition with_cache (m : Qwen3DecoderLayer (R := R)) (kv : list R * list R) : Qwen3DecoderLayer (R := R) :=
  let at' := ql_self_attn m in
  let an := qa_attn at' in
  mkQwen3DecoderLayer (mkQwen3Attention (qa_num_heads at') (qa_num_kv_heads at') (qa_head_dim at') (qa_qkv_bias at') (qa_qkv_proj at') (qa_o_proj at')
    (qa_rotary_emb at') (mkAttention (an_num_heads an) (an_head_dim an) (an_scale an) (an_num_kv_heads an) kv.1 kv.2) (qa_q_norm at') (qa_k_norm at'))
    (ql_mlp m) (ql_input_layernorm m) (ql_post_attention_layernorm m).
Definition with_caches (m : Qwen3ForCausalLM (R := R)) (kvs : list (list R * list R)) : Qwen3ForCausalLM (R := R) :=
  mkQwen3ForCausalLM (mkQwen3Model (qw_embed_tokens (ql_model m)) (zip_with with_cache (qw_layers (ql_model m)) kvs) (qw_norm (ql_model m))) (ql_lm_head m).
End load.

(** ** The loaded parts *)
Section loaded.
Context `{HS : Scalar R, HP : TorchParam R, HLP : !LawfulTorchParam R}.
Set Default Proof Using "All".
Implicit Types (w : LayerWeights R).
(** A configuration of [hq] query heads and [hk] key heads of [hd] elements, and the weights that fit it *)
Record config_ok (c : Qwen3Config (R := R)) (hq hk hd inter vocab hidden : nat) : Prop := {
  co_heads : qc_num_attention_heads c = hq;
  co_kv_heads : qc_num_key_value_heads c = hk;
  co_head_dim : qc_head_dim c = Some hd;
  co_intermediate : qc_intermediate_size c = inter;
  co_vocab : qc_vocab_size c = vocab;
  co_hidden : qc_hidden_size c = hidden;
  co_act : qc_hidden_act c = "silu";
  co_even : ∃ e, hd = 2 * e;
  co_positive : 0 < hq ∧ 0 < hk ∧ 0 < hd ∧ 0 < inter ∧ 0 < hidden
}.
Definition qkv_bias (c : Qwen3Config (R := R)) : bool := default true (qc_attention_bias c).
Record layer_weights_ok (c : Qwen3Config (R := R)) (hq hk hd inter hidden : nat) w : Prop := {
  lo_q : shaped (hq * hd) hidden (lw_q w);
  lo_k : shaped (hk * hd) hidden (lw_k w);
  lo_v : shaped (hk * hd) hidden (lw_v w);
  lo_bias : match lw_bias w with
            | Some (q, k, v) => qkv_bias c = true ∧ length q = hq * hd ∧ length k = hk * hd ∧ length v = hk * hd
            | None => qkv_bias c = false
            end;
  lo_o : shaped hidden (hq * hd) (lw_o w);
  lo_head_norms : length (lw_q_norm w) = hd ∧ length (lw_k_norm w) = hd;
  lo_gate : shaped inter hidden (lw_gate w);
  lo_up : shaped inter hidden (lw_up w);
  lo_down : shaped hidden inter (lw_down w);
  lo_norms : length (lw_input_norm w) = hidden ∧ length (lw_post_norm w) = hidden
}.
Definition norm_of (eps : R) (w : Vector R) : RMSNorm (R := R) := mkRMSNorm eps (mkParam (T1 w) NoLoader).
Definition rotary_table (c : Qwen3Config (R := R)) (hd : nat) : Matrix R :=
  match rotary_embedding hd hd (qc_max_position_embeddings c) (rope_base c) with inr t => t | inl _ => [] end.
(** The attention layer of rank [r] of [T], with [nq] and [nk] heads *)
Definition rank_attention (T r : nat) (c : Qwen3Config (R := R)) w (nq nk hd : nat) : Qwen3Attention (R := R) :=
  let pack {A} (q k v : list A) := shard (nq * hd) r q ++ shard (nk * hd) r k ++ shard (nk * hd) r v in
  let loader := QKVLoader hd nq nk r T in
  mkQwen3Attention nq nk hd (qkv_bias c)
    (mkLinear r T (mkParam (T2 (pack (lw_q w) (lw_k w) (lw_v w))) loader) ((λ '(q, k, v), mkParam (T1 (pack q k v)) loader) <$> lw_bias w))
    (mkLinear r T (mkParam (T2 (shard (nq * hd) r <$> lw_o w)) (RowLoader r)) None) (rotary_table c hd) (attention nq hd (head_scale hd) nk)
    (if qkv_bias c then rms_norm hd (qc_rms_norm_eps c) else norm_of (qc_rms_norm_eps c) (lw_q_norm w))
    (if qkv_bias c then rms_norm hd (qc_rms_norm_eps c) else norm_of (qc_rms_norm_eps c) (lw_k_norm w)).
Definition rank_mlp (T r s : nat) w : Qwen3MLP (R := R) :=
  mkQwen3MLP (mkLinear r T (mkParam (T2 (shard s r (lw_gate w) ++ shard s r (lw_up w))) (MergedLoader [T * s; T * s] r T)) None)
    (mkLinear r T (mkParam (T2 (shard s r <$> lw_down w)) (RowLoader r)) None).
Definition rank_layer (T r : nat) (c : Qwen3Config (R := R)) w (nq nk hd s : nat) : Qwen3DecoderLayer (R := R) :=
  mkQwen3DecoderLayer (rank_attention T r c w nq nk hd) (rank_mlp T r s w) (norm_of (qc_rms_norm_eps c) (lw_input_norm w))
    (norm_of (qc_rms_norm_eps c) (lw_post_norm w)).
Definition rank_vocab (T r per : nat) (W : Matrix R) : VocabParallelEmbedding (R := R) :=
  mkVocab r T (per * r) (per * r + per) (mkParam (T2 (shard per r W)) (VocabLoader r)).
Definition rank_model (T r : nat) (c : Qwen3Config (R := R)) (w : ModelWeights R) (nq nk hd s per : nat) : Qwen3ForCausalLM (R := R) :=
  mkQwen3ForCausalLM (mkQwen3Model (rank_vocab T r per (mw_embed w)) ((λ lw, rank_layer T r c lw nq nk hd s) <$> mw_layers w)
    (norm_of (qc_rms_norm_eps c) (mw_norm w))) (rank_vocab T r per (mw_head w)).

Context (T r : nat) (Hr : r < T).
Lemma divide_mul x : divide (T * x) T = inr x.
Proof.
  unfold divide. rewrite (proj2 (Nat.eqb_neq T 0)) by lia. cbn -[Nat.modulo Nat.div]. rewrite Nat.mul_comm, Nat.Div0.mod_mul, Nat.div_mul by lia. done.
Qed.
Lemma load_assembled p parts t : assembled T r (pa_loader p) (pa_data p) parts t → load_param p parts = inr (mkParam t (pa_loader p)).
Proof. intros Ha. unfold load_param. by rewrite (assembled_runs T r _ _ _ _ Hr Ha). Qed.
Lemma load_norm_whole n eps (v : Vector R) : length v = n → load_norm (rms_norm n eps) v = inr (norm_of eps v).
Proof.
  intros Hw. unfold load_norm. rewrite (load_assembled _ _ (T1 v)); [done|]. apply assembled_whole; [by left|]. cbn. by rewrite length_replicate, Hw.
Qed.
Lemma qkv_linear_loaded hidden hd nq nk bias (q k v : Matrix R) b : 0 < nq * hd → 0 < nk * hd →
  shaped (T * nq * hd) hidden q → shaped (T * nk * hd) hidden k → shaped (T * nk * hd) hidden v →
  match b with
  | Some (q, k, v) => bias = true ∧ length q = T * nq * hd ∧ length k = T * nk * hd ∧ length v = T * nk * hd
  | None => bias = false
  end →
  (l ← qkv_parallel_linear r T hidden hd (T * nq) (Some (T * nk)) bias; load_linear l (qkv_parts T2 q k v) ((λ '(q, k, v), qkv_parts T1 q k v) <$> b)) =
  inr (mkLinear r T (mkParam (T2 (shard (nq * hd) r q ++ shard (nk * hd) r k ++ shard (nk * hd) r v)) (QKVLoader hd nq nk r T))
    ((λ '(q, k, v), mkParam (T1 (shard (nq * hd) r q ++ shard (nk * hd) r k ++ shard (nk * hd) r v)) (QKVLoader hd nq nk r T)) <$> b)).
Proof.
  intros Hq Hk [Lq Sq] [Lk Sk] [Lv Sv] Hb. unfold qkv_parallel_linear. assert (Hkv : match Some (T * nk) with Some (S _ as n) => n | _ => T * nq end = T * nk).
  { assert (T * nk ≠ 0) by nia. by destruct (T * nk). }
  rewrite Hkv, !divide_mul. cbn [mret result_ret mbind result_bind]. unfold column_parallel_linear.
  replace ((T * nq + 2 * (T * nk)) * hd) with (T * (nq * hd + (nk * hd + nk * hd))) by lia. rewrite divide_mul. cbn [mret result_ret mbind result_bind].
  unfold load_linear, linear_base. cbn [ln_weight ln_bias ln_tp_rank ln_tp_size].
  destruct (empty2_shaped (nq * hd + (nk * hd + nk * hd)) hidden) as [Le Se].
  rewrite (load_assembled _ _ (T2 (shard (nq * hd) r q ++ shard (nk * hd) r k ++ shard (nk * hd) r v))).
  2:{ apply (assembled_qkv T r T2 (λ x, length x = hidden)); [apply rows_of_matrix|lia..|done|by rewrite !Forall_app|done]. }
  cbn [mret result_ret mbind result_bind pa_loader]. destruct b as [[[bq bk] bv]|]; [destruct Hb as (-> & Bq & Bk & Bv)|by subst bias]. cbn [fmap option_fmap option_map].
  rewrite (load_assembled _ _ (T1 (shard (nq * hd) r bq ++ shard (nk * hd) r bk ++ shard (nk * hd) r bv))); [done|].
  apply (assembled_qkv T r T1 (λ _, True)); [apply rows_of_vector|lia|lia|cbn; by rewrite empty1_length|lia..|by apply Forall_true|by apply Forall_true|done].
Qed.
Lemma row_linear_loaded n s (W : Matrix R) : 0 < n → shaped n (T * s) W →
  (l ← row_parallel_linear r T (T * s) n false; load_linear l (whole (T2 W)) None) = inr (mkLinear r T (mkParam (T2 (shard s r <$> W)) (RowLoader r)) None).
Proof.
  intros Hn HW. unfold row_parallel_linear. rewrite divide_mul. cbn [mret result_ret mbind result_bind]. unfold load_linear, linear_base. cbn [ln_weight ln_bias ln_tp_rank ln_tp_size].
  rewrite (load_assembled _ _ (T2 (shard s r <$> W))); [done|]. apply (assembled_row T r n); [done|apply empty2_shaped|done].
Qed.
Lemma gate_up_loaded hidden s (g u : Matrix R) : 0 < s → shaped (T * s) hidden g → shaped (T * s) hidden u →
  (l ← merged_column_parallel_linear r T hidden [T * s; T * s] false;
   load_linear l [(T2 g, Some (ShardIndex 0)); (T2 u, Some (ShardIndex 1))] None) =
  inr (mkLinear r T (mkParam (T2 (shard s r g ++ shard s r u)) (MergedLoader [T * s; T * s] r T)) None).
Proof.
  intros Hs [Lg Sg] [Lu Su]. unfold merged_column_parallel_linear, column_parallel_linear.
  replace (nsum [T * s; T * s]) with (T * (s + s)) by (unfold nsum; cbn; lia). rewrite divide_mul. cbn [mret result_ret mbind result_bind].
  unfold load_linear, linear_base. cbn [ln_weight ln_bias ln_tp_rank ln_tp_size]. destruct (empty2_shaped (s + s) hidden) as [Le Se].
  rewrite (load_assembled _ _ (T2 (shard s r g ++ shard s r u))); [done|].
  apply (assembled_merged T r T2 (λ x, length x = hidden)); [apply rows_of_matrix|done..|by rewrite Forall_app|done].
Qed.
Lemma vocab_loaded per hidden (W : Matrix R) : shaped (T * per) hidden W →
  (e ← vocab_parallel_embedding r T (T * per) hidden; load_vocab e W) = inr (rank_vocab T r per W).
Proof.
  intros [LW SW]. unfold vocab_parallel_embedding. rewrite (proj2 (Nat.eqb_neq T 0)) by lia. cbn [mret result_ret mbind result_bind throw_if].
  rewrite (Nat.mul_comm T per), Nat.Div0.mod_mul, Nat.div_mul by lia. cbn [mret result_ret mbind result_bind throw_if negb Nat.eqb]. unfold load_vocab. cbn [ve_weight].
  destruct (empty2_shaped per hidden) as [Le Se]. rewrite (load_assembled _ _ (T2 (shard per r W))); [done|].
  apply (assembled_column T r T2 (λ x, length x = hidden)); [apply rows_of_matrix|by right|done..].
Qed.

(** ** Layers *)
Lemma rotary_table_ok (c : Qwen3Config (R := R)) hd : rotary_embedding hd hd (qc_max_position_embeddings c) (rope_base c) = inr (rotary_table c hd).
Proof. unfold rotary_table, rotary_embedding. by rewrite Nat.eqb_refl. Qed.
Lemma attention_loaded c nq nk hd inter vocab hidden w : config_ok c (T * nq) (T * nk) hd inter vocab hidden →
  layer_weights_ok c (T * nq) (T * nk) hd inter hidden w →
  (m ← qwen3_attention r T c; load_attention m w) = inr (rank_attention T r c w nq nk hd).
Proof.
  intros [Ch Ck Cd _ _ Chid _ _ (Pq & Pk & Pd & _ & Phid)] [Wq Wk Wv Wb Wo [Wqn Wkn] _ _ _ _]. unfold qwen3_attention. rewrite Ch, Ck, Cd, Chid.
  rewrite (proj2 (Nat.eqb_neq T 0)) by lia. cbn [mret result_ret mbind result_bind throw_if].
  rewrite !(Nat.mul_comm T), !Nat.Div0.mod_mul, !Nat.div_mul by lia. cbn [mret result_ret mbind result_bind throw_if negb Nat.eqb].
  destruct hd as [|hd']; [lia|]. set (hd := S hd') in *. cbn [mret result_ret mbind result_bind].
  pose proof (qkv_linear_loaded hidden hd nq nk (qkv_bias c) (lw_q w) (lw_k w) (lw_v w) (lw_bias w) ltac:(nia) ltac:(nia) Wq Wk Wv Wb) as Hqkv.
  destruct (qkv_parallel_linear r T hidden hd (T * nq) (Some (T * nk)) (qkv_bias c)) as [?|qkv] eqn:Eq; [done|].
  rewrite !(Nat.mul_comm nq T), !(Nat.mul_comm nk T). fold (qkv_bias c). rewrite Eq. cbn [mret result_ret mbind result_bind] in Hqkv |- *.
  replace (T * nq * hd) with (T * (nq * hd)) in * by lia. pose proof (row_linear_loaded hidden (nq * hd) (lw_o w) Phid Wo) as Ho.
  destruct (row_parallel_linear r T (T * (nq * hd)) hidden false) as [?|o] eqn:Eo; [done|]. cbn [mret result_ret mbind result_bind] in Ho |- *.
  rewrite rotary_table_ok. cbn [mret result_ret mbind result_bind]. unfold load_attention. cbn [qa_qkv_proj qa_o_proj qa_qkv_bias qa_q_norm qa_k_norm].
  rewrite Hqkv. cbn [mret result_ret mbind result_bind]. rewrite Ho.
  cbn [mret result_ret mbind result_bind]. unfold rank_attention. destruct (qkv_bias c); [done|]. by rewrite !load_norm_whole.
Qed.
Lemma mlp_loaded c nq nk hd s vocab hidden w : config_ok c (T * nq) (T * nk) hd (T * s) vocab hidden →
  layer_weights_ok c (T * nq) (T * nk) hd (T * s) hidden w →
  (m ← qwen3_mlp r T (qc_hidden_size c) (qc_intermediate_size c) (qc_hidden_act c); load_mlp m w) = inr (rank_mlp T r s w).
Proof.
  intros [_ _ _ Ci _ Chid Ca _ (_ & _ & _ & Pi & Phid)] [_ _ _ _ _ _ Wg Wu Wd _]. unfold qwen3_mlp. rewrite Ci, Chid, Ca.
  pose proof (gate_up_loaded hidden s (lw_gate w) (lw_up w) ltac:(nia) Wg Wu) as Hg.
  destruct (merged_column_parallel_linear _ _ _ _ _) as [?|g]; [done|]. cbn [mret result_ret mbind result_bind] in Hg |- *.
  pose proof (row_linear_loaded hidden s (lw_down w) Phid Wd) as Hd.
  destruct (row_parallel_linear _ _ _ _ _) as [?|d]; [done|]. cbn [mret result_ret mbind result_bind throw_if negb] in Hd |- *.
  change (String.eqb "silu" "silu") with true. cbn [negb throw_if mret result_ret mbind result_bind]. unfold load_mlp. cbn [qm_gate_up_proj qm_down_proj]. rewrite Hg. cbn [mret result_ret mbind result_bind]. by rewrite Hd.
Qed.
Lemma layer_loaded c nq nk hd s vocab hidden w : config_ok c (T * nq) (T * nk) hd (T * s) vocab hidden →
  layer_weights_ok c (T * nq) (T * nk) hd (T * s) hidden w →
  (m ← qwen3_decoder_layer r T c; load_layer m w) = inr (rank_layer T r c w nq nk hd s).
Proof.
  intros Hc Hw. pose proof (attention_loaded c nq nk hd _ vocab hidden w Hc Hw) as Ha. pose proof (mlp_loaded c nq nk hd s vocab hidden w Hc Hw) as Hm.
  unfold qwen3_decoder_layer. destruct (qwen3_attention r T c) as [?|at']; [done|]. cbn [mret result_ret mbind result_bind] in Ha |- *.
  destruct (qwen3_mlp _ _ _ _ _) as [?|mlp]; [done|]. cbn [mret result_ret mbind result_bind] in Hm |- *. unfold load_layer.
  cbn [ql_self_attn ql_mlp ql_input_layernorm ql_post_attention_layernorm]. rewrite Ha. cbn [mret result_ret mbind result_bind]. rewrite Hm.
  cbn [mret result_ret mbind result_bind]. destruct (lo_norms _ _ _ _ _ _ _ Hw). rewrite !load_norm_whole by by rewrite (co_hidden _ _ _ _ _ _ _ Hc). done.
Qed.
(** ** The model *)
Record model_weights_ok (c : Qwen3Config (R := R)) (hq hk hd inter vocab hidden : nat) (w : ModelWeights R) : Prop := {
  mo_embed : shaped vocab hidden (mw_embed w);
  mo_layers : length (mw_layers w) = qc_num_hidden_layers c ∧ Forall (layer_weights_ok c hq hk hd inter hidden) (mw_layers w);
  mo_norm : length (mw_norm w) = hidden;
  mo_head : shaped vocab hidden (mw_head w);
  mo_tied : qc_tie_word_embeddings c = true → mw_head w = mw_embed w
}.
Lemma layers_loaded c nq nk hd s vocab hidden k ws layers : config_ok c (T * nq) (T * nk) hd (T * s) vocab hidden →
  Forall (layer_weights_ok c (T * nq) (T * nk) hd (T * s) hidden) ws → mapR (λ _, qwen3_decoder_layer r T c) (seq k (length ws)) = inr layers →
  mapR (λ lw, load_layer lw.1 lw.2) (zip layers ws) = inr ((λ lw, rank_layer T r c lw nq nk hd s) <$> ws).
Proof.
  intros Hc Hw. revert k layers. induction Hw as [|w ws Hw _ IH]; intros k layers Hl; [by destruct layers|].
  cbn [length seq mapR] in Hl. apply result_bind_inr in Hl as (m & Hm & Hl). apply result_bind_inr in Hl as (ms & Hms & Hl). injection Hl as <-.
  pose proof (layer_loaded c nq nk hd s vocab hidden w Hc Hw) as Hload. rewrite Hm in Hload. cbn [mbind result_bind] in Hload.
  cbn [zip zip_with mapR fst snd]. rewrite Hload. cbn [mret result_ret mbind result_bind]. by rewrite (IH (S k) ms Hms).
Qed.
Lemma layers_constructed c nq nk hd s vocab hidden k ws : config_ok c (T * nq) (T * nk) hd (T * s) vocab hidden →
  Forall (layer_weights_ok c (T * nq) (T * nk) hd (T * s) hidden) ws → ∃ layers, mapR (λ _, qwen3_decoder_layer r T c) (seq k (length ws)) = inr layers.
Proof.
  intros Hc Hw. apply mapR_total. intros i Hi%elem_of_seq. destruct Hw as [|w ws Hw _]; [cbn in Hi; lia|].
  pose proof (layer_loaded c nq nk hd s vocab hidden w Hc Hw) as Hload. destruct (qwen3_decoder_layer r T c) as [?|m]; [done|by exists m].
Qed.
Lemma rank_loaded c nq nk hd s per hidden (w : ModelWeights R) : config_ok c (T * nq) (T * nk) hd (T * s) (T * per) hidden →
  model_weights_ok c (T * nq) (T * nk) hd (T * s) (T * per) hidden w → loaded_rank r T c w = inr (rank_model T r c w nq nk hd s per).
Proof.
  intros Hc [We [Wl Wls] Wn Wh _]. unfold loaded_rank, qwen3_for_causal_lm, qwen3_model. rewrite (co_vocab _ _ _ _ _ _ _ Hc), (co_hidden _ _ _ _ _ _ _ Hc), <-Wl.
  pose proof (vocab_loaded per hidden (mw_embed w) We) as He. pose proof (vocab_loaded per hidden (mw_head w) Wh) as Hh.
  destruct (vocab_parallel_embedding r T (T * per) hidden) as [?|e] eqn:Ee; [done|]. cbn [mret result_ret mbind result_bind] in He, Hh |- *.
  destruct (layers_constructed c nq nk hd s (T * per) hidden 0 _ Hc Wls) as [layers Hl]. rewrite Hl. cbn [mret result_ret mbind result_bind].
  unfold load_qwen3. cbn [ql_model ql_lm_head qw_embed_tokens qw_layers qw_norm]. rewrite He. cbn [mret result_ret mbind result_bind].
  rewrite (layers_loaded c nq nk hd s (T * per) hidden 0 _ _ Hc Wls Hl). cbn [mret result_ret mbind result_bind]. rewrite load_norm_whole by done.
  cbn [mret result_ret mbind result_bind]. destruct (qc_tie_word_embeddings c); [|by rewrite Hh].
  assert (Htie : mkVocab (ve_tp_rank e) (ve_tp_size e) (ve_vocab_start_idx e) (ve_vocab_end_idx e) (mkParam (pa_data (ve_weight e)) (pa_loader (ve_weight e))) = e)
    by by destruct e as [? ? ? ? []]. rewrite Htie. by rewrite Hh.
Qed.
End loaded.

(** ** The parts belong together *)
Section together.
Context `{HS : Scalar R}.
(** A configuration for [tp] ranks with [mk] key heads of [hd] elements each, [group] query heads to a key head, [s]
    intermediate features and [per] tokens *)
Context (tp group mk hd s per hidden slots : nat) (Htp : 0 < tp) (c : Qwen3Config (R := R)).
Context (Hc : config_ok c (tp * (group * mk)) (tp * mk) hd (tp * s) (tp * per) hidden).
Set Default Proof Using "All".
(** The caches of rank [r], when the single rank's are [kvs] *)
Definition cut_cache (r : nat) (mem : list R) : list R := concat (shard (mk * hd) r <$> view_row slots (tp * (mk * hd)) mem).
Definition part_caches (r : nat) (kvs : list (list R * list R)) : list (list R * list R) := (λ kv, (cut_cache r kv.1, cut_cache r kv.2)) <$> kvs.
Definition caches_ok (kvs : list (list R * list R)) : Prop :=
  length kvs = qc_num_hidden_layers c ∧ Forall (λ kv, length kv.1 = slots * (tp * (mk * hd)) ∧ length kv.2 = slots * (tp * (mk * hd))) kvs.
Lemma cut_cache_sharded r mem : r < tp → length mem = slots * (tp * (mk * hd)) → cache_sharded tp mk hd slots r mem (cut_cache r mem).
Proof.
  intros Hr Hl. pose proof (rows_of_memory slots (tp * (mk * hd)) mem Hl) as Hrows.
  assert (Hpart : Forall (λ row, length row = mk * hd) (shard (mk * hd) r <$> view_row slots (tp * (mk * hd)) mem)).
  { apply Forall_fmap. eapply Forall_impl; [exact Hrows|]. intros row Hrow. cbn. by apply (shard_length _ r tp). }
  split; [done|unfold cut_cache; by rewrite (concat_rows_length (mk * hd)), length_fmap, view_row_length by done|].
  apply view_concat; [by rewrite length_fmap, view_row_length|done].
Qed.
Lemma pack_whole {A} nq nk (q k v : list A) : length q = nq * hd → length k = nk * hd → length v = nk * hd →
  shard (nq * hd) 0 q ++ shard (nk * hd) 0 k ++ shard (nk * hd) 0 v = q ++ k ++ v.
Proof. intros Hq Hk Hv. by rewrite !shard_whole. Qed.
Lemma rank_linear_sharded r n (W : Matrix R) loader : r < tp → Forall (λ row, length row = tp * n) W →
  row_sharded tp r n (mkLinear 0 1 (mkParam (T2 (shard (tp * n) 0 <$> W)) loader) None) (mkLinear r tp (mkParam (T2 (shard n r <$> W)) (RowLoader r)) None).
Proof.
  intros Hr HW. assert (Hid : shard (tp * n) 0 <$> W = W).
  { rewrite <-(list_fmap_id W) at 2. apply list_fmap_ext. intros i row Hi. apply shard_whole. by apply (Forall_lookup_1 _ _ _ _ HW Hi). }
  rewrite Hid. by split.
Qed.
Lemma rank_attention_sharded r w kv : r < tp → layer_weights_ok c (tp * (group * mk)) (tp * mk) hd (tp * s) hidden w →
  length kv.1 = slots * (tp * (mk * hd)) → length kv.2 = slots * (tp * (mk * hd)) →
  layer_sharded tp group mk hd slots s r (with_cache (rank_layer 1 0 c w (tp * (group * mk)) (tp * mk) hd (tp * s)) kv)
    (with_cache (rank_layer tp r c w (group * mk) mk hd s) (cut_cache r kv.1, cut_cache r kv.2)).
Proof.
  intros Hr [[Lq Sq] [Lk Sk] [Lv Sv] Wb [_ So] [Nq Nk] [Lg Sg] [Lu Su] [_ Sd] _] Hk1 Hk2. split; [split| |done|done]; try done.
  - unfold qkv_sharded. cbn -[shard]. split.
    + exists (lw_q w), (lw_k w), (lw_v w). rewrite pack_whole by done. split_and!; [done|done|lia..].
    + destruct (lw_bias w) as [[[q k] v]|]; [|done]. destruct Wb as (_ & Bq & Bk & Bv). cbn -[shard]. exists q, k, v. rewrite pack_whole by done.
      split_and!; [done|done|lia..].
  - cbn -[shard]. replace (tp * (group * mk) * hd) with (tp * (group * mk * hd)) in * by lia. by apply rank_linear_sharded.
  - cbn. destruct (co_even _ _ _ _ _ _ _ Hc) as [e He]. exists e. split; [done|].
    unfold rotary_table, rotary_embedding. rewrite Nat.eqb_refl. cbn -[Nat.div]. apply Forall_fmap, Forall_forall. intros t _.
    unfold inv_freq. cbn -[Nat.div]. rewrite length_app, !length_fmap, length_seq. replace ((hd + 1) / 2) with e by (apply (Nat.div_unique _ 2 e 1); lia). lia.
  - by split; try by apply cut_cache_sharded.
  - cbn. unfold norm_ok. destruct (qkv_bias c); cbn; [by rewrite length_replicate|done].
  - split; [|done|].
    + exists (lw_gate w), (lw_up w). cbn -[shard]. by rewrite !shard_whole.
    + cbn -[shard]. by apply rank_linear_sharded.
Qed.
Lemma rank_vocab_sharded r (W : Matrix R) : r < tp → shaped (tp * per) hidden W → vocab_sharded tp r per hidden (rank_vocab 1 0 (tp * per) W) (rank_vocab tp r per W).
Proof. intros Hr HW. pose proof HW as [Lw _]. split; try done; cbn -[shard]; by rewrite (shard_whole _ W). Qed.
Lemma rank_models_sharded (w : ModelWeights R) kvs : model_weights_ok c (tp * (group * mk)) (tp * mk) hd (tp * s) (tp * per) hidden w → caches_ok kvs →
  model_sharded tp group mk hd slots s per hidden (with_caches (rank_model 1 0 c w (tp * (group * mk)) (tp * mk) hd (tp * s) (tp * per)) kvs)
    (λ r, with_caches (rank_model tp r c w (group * mk) mk hd s per) (part_caches r kvs)).
Proof.
  intros [We [Wl Wls] Wn Wh _] [Ck Cks]. split; [intros r Hr; by apply rank_vocab_sharded| |done|intros r Hr; by apply rank_vocab_sharded].
  exists (zip_with (λ lw kv r, with_cache (rank_layer tp r c lw (group * mk) mk hd s) (cut_cache r kv.1, cut_cache r kv.2)) (mw_layers w) kvs). cbn.
  rewrite <-Ck in Wl. split.
  - unfold layers_sharded. clear Wl Ck. revert kvs Cks. induction Wls as [|lw ws Hlw _ IH]; intros [|kv kvs] Cks; cbn; try constructor.
    + apply Forall_cons in Cks as [[Hk1 Hk2] _]. intros r Hr. by apply rank_attention_sharded.
    + apply Forall_cons in Cks as [_ Cks]. by apply IH.
  - intros r Hr. unfold part_caches. clear. revert kvs. induction (mw_layers w) as [|lw ws IH]; intros [|kv kvs]; cbn; [done..|]. by rewrite <-IH.
Qed.
End together.

(** C6: tensor parallelism changes nothing: a configuration whose heads, features and vocabulary the [tp] ranks share evenly,
    and a checkpoint that fits it, load on a single rank and on each of the ranks. When the single rank then gets its
    logits in every batch of a sequence (whose projections, like the caches, have at most [2 ^ 31] elements), the ranks, with their parts of the caches, all run to their ends without waiting
    for each other for ever, and rank 0 gets the same logits. *)
Theorem tensor_parallel_transparent `{HS : Scalar R, HLS : !LawfulScalar R, HT : TorchNN R, HLT : !LawfulTorchNN R, HP : TorchParam R,
    HLP : !LawfulTorchParam R, HF : FlashAttention R, HLF : !LawfulFlashAttention R}
    (tp group mk hd s per hidden slots : nat) (c : Qwen3Config (R := R)) (w : ModelWeights R) kvs batches logits m' :
  0 < tp → config_ok c (tp * (group * mk)) (tp * mk) hd (tp * s) (tp * per) hidden →
  model_weights_ok c (tp * (group * mk)) (tp * mk) hd (tp * s) (tp * per) hidden w →
  caches_ok tp mk hd slots c kvs → (Z.of_nat (slots * (tp * (mk * hd))) <= 2 ^ 31)%Z → Forall (λ b, context_valid tp group mk hd slots b.1.1) batches →
  ∃ m mr, loaded_rank 0 1 c w = inr m ∧ (∀ r, r < tp → loaded_rank r tp c w = inr (mr r)) ∧
    (batches_forward (with_caches m kvs) batches = Ret (logits, m') →
     ∃ fuel mr', run_ranks fuel ((λ r, batches_forward (with_caches (mr r) (part_caches tp mk hd slots r kvs)) batches) <$> seq 0 tp) =
       Some ((λ r, (if r =? 0 then logits else (λ _, None) <$> logits, mr' r)) <$> seq 0 tp)).
Proof.
  intros Htp Hc Hw Hk Hb Hx. exists (rank_model 1 0 c w (tp * (group * mk)) (tp * mk) hd (tp * s) (tp * per)), (λ r, rank_model tp r c w (group * mk) mk hd s per).
  split_and!.
  - apply (rank_loaded 1 0 ltac:(lia) c _ _ _ _ _ hidden); by rewrite !Nat.mul_1_l.
  - intros r Hr. by apply (rank_loaded tp r Hr c _ _ _ _ _ hidden).
  - intros Hf. destruct (co_positive _ _ _ _ _ _ _ Hc) as (Pq & Pk & Pd & _ & _).
    assert (Hg : group ≠ 0) by (intros ->; lia). assert (Hmk : mk ≠ 0) by (intros ->; lia).
    destruct (ranks_run_together tp group mk hd slots s per hidden _ m' _ batches logits Htp ltac:(lia) ltac:(lia) Pd Hb
      (rank_models_sharded tp group mk hd s per hidden slots Htp c Hc w kvs Hw Hk) Hx Hf) as (fuel & mr' & Hr & _).
    by exists fuel, mr'.
Qed.
