(* ===== verification/RemoteCatalog.v ===== *)
(** * The persistent prefix catalog

    Models [nanovllm/engine/remote_catalog.py]: the records of a catalog
    snapshot with the checks of their constructors, and the codec that writes a
    snapshot as a checksummed JSON document and reads it back. *)
From S2P Require Import Prelude Json Blake2b StorageBackend.
Set Default Goal Selector "!".
Local Open Scope Z_scope.

Definition catalog_schema : string := "nanovllm-remote-prefix-catalog".
Definition catalog_version : Z := 1.

(** ** Records *)
Record CatalogPageRecord := mkPageEntry {
  cp_object_key : string;
  cp_identity_digest : string;
  cp_tp_rank : Z;
  cp_page_index : Z
}.
Definition catalog_page_record (p : CatalogPageRecord) : result CatalogPageRecord :=
  throw_if (negb (nonempty (cp_object_key p)) || negb (nonempty (cp_identity_digest p)))
    (ValueError "catalog page keys and identities must not be empty");;
  throw_if ((cp_tp_rank p <? 0) || (cp_page_index p <? 0))
    (ValueError "catalog TP ranks and page indexes must be non-negative");;
  mret p.

Record CatalogPrefixRecord := mkPrefixEntry {
  pf_block_keys : list (list Z);
  pf_pages : list CatalogPageRecord
}.
(** [{len(block) for block in blocks}] *)
Definition block_sizes (blocks : list (list Z)) : gset nat := list_to_set (length <$> blocks).
Definition uint32 (t : Z) : bool := (0 <=? t) && (t <? 2 ^ 32).
(** The loop over [enumerate(zip(self.block_keys, self.pages))], from [index]. *)
Fixpoint check_blocks (index : Z) (l : list (list Z * CatalogPageRecord)) : result () :=
  match l with
  | [] => mret tt
  | (block, page) :: l =>
      throw_if (negb (cp_page_index page =? index)) (ValueError "catalog page indexes must start at zero");;
      throw_if (negb (forallb uint32 block)) (ValueError "catalog token ids must fit in uint32");;
      check_blocks (index + 1) l
  end.
Definition catalog_prefix_record (p : CatalogPrefixRecord) : result CatalogPrefixRecord :=
  throw_if ((length (pf_block_keys p) =? 0)%nat || negb (length (pf_block_keys p) =? length (pf_pages p))%nat)
    (ValueError "catalog prefix vectors must have the same non-zero length");;
  throw_if (negb (size (block_sizes (pf_block_keys p)) =? 1)%nat || bool_decide (0%nat ∈ block_sizes (pf_block_keys p)))
    (ValueError "catalog token blocks must have one positive page size");;
  check_blocks 0 (zip (pf_block_keys p) (pf_pages p));;
  mret p.

Record RemoteCatalogSnapshot := mkSnapshot {
  sn_identity_digest : string;
  sn_tp_rank : Z;
  sn_prefixes : list CatalogPrefixRecord
}.
Definition remote_catalog_snapshot (s : RemoteCatalogSnapshot) : result RemoteCatalogSnapshot :=
  throw_if (negb (nonempty (sn_identity_digest s)) || (sn_tp_rank s <? 0)) (ValueError "catalog identity is invalid");;
  throw_if (length (sn_prefixes s) =? 0)%nat (ValueError "catalog snapshot must contain at least one prefix");;
  throw_if (negb (size (block_sizes (concat (pf_block_keys <$> sn_prefixes s))) =? 1)%nat)
    (ValueError "catalog prefixes must use one page size");;
  throw_if (existsb (λ page, negb (String.eqb (cp_identity_digest page) (sn_identity_digest s))
                             || negb (cp_tp_rank page =? sn_tp_rank s)) (concat (pf_pages <$> sn_prefixes s)))
    (ValueError "catalog page identity does not match its snapshot");;
  mret s.

(** ** Writing *)
Definition page_json (p : CatalogPageRecord) : Json :=
  JObj [("object_key", JStr (cp_object_key p)); ("identity_digest", JStr (cp_identity_digest p));
        ("tp_rank", JInt (cp_tp_rank p)); ("page_index", JInt (cp_page_index p))].
Definition prefix_json (p : CatalogPrefixRecord) : Json :=
  JObj [("block_keys", JList (map (λ block, JList (map JInt block)) (pf_block_keys p)));
        ("pages", JList (map page_json (pf_pages p)))].
(** [RemoteCatalogSnapshotCodec._payload] *)
Definition snapshot_payload (s : RemoteCatalogSnapshot) : Json :=
  JObj [("identity_digest", JStr (sn_identity_digest s)); ("tp_rank", JInt (sn_tp_rank s));
        ("prefixes", JList (map prefix_json (sn_prefixes s)))].

Section codec.
Context `{FloatRepr}.

(** [_canonical_json]: the text is ASCII, so that encoding it changes nothing. *)
Definition canonical_json (v : Json) : text := render canonical_style v.
Definition json_checksum (v : Json) : string := string_of (hexdigest 16 (canonical_json v)).
Definition encode_snapshot (s : RemoteCatalogSnapshot) : text :=
  let payload := snapshot_payload s in
  canonical_json (JObj [("schema", JStr catalog_schema); ("version", JInt catalog_version);
                        ("checksum", JStr (json_checksum payload)); ("payload", payload)]).
End codec.

(** ** Reading *)
(** [v[key]] *)
Definition subscript (key : string) (v : Json) : result Json :=
  match v with
  | JObj fs => match dict_get key fs with Some x => mret x | None => throw (KeyError key) end
  | _ => throw (TypeError "object is not subscriptable with a string")
  end.
(** [iter(v)] *)
Definition py_iter (v : Json) : result (list Json) :=
  match v with
  | JList l => mret l
  | JStr s => mret (map (λ c, JStr (string_of (utf8_encode c))) (codepoints (bytes_of s)))
  | JObj fs => mret (map (λ kv, JStr kv.1) fs)
  | _ => throw (TypeError "object is not iterable")
  end.
(** The [isinstance] checks of the records' constructors. *)
Definition need_str (v : Json) (e : exn) : result string := match v with JStr s => mret s | _ => throw e end.
Definition need_int (v : Json) (e : exn) : result Z := match v with JInt z => mret z | _ => throw e end.

Definition read_page (v : Json) : result CatalogPageRecord :=
  key ← subscript "object_key" v;
  digest ← subscript "identity_digest" v;
  rank ← subscript "tp_rank" v;
  page ← subscript "page_index" v;
  key ← need_str key (ValueError "catalog page keys and identities must not be empty");
  digest ← need_str digest (ValueError "catalog page keys and identities must not be empty");
  rank ← need_int rank (ValueError "catalog TP ranks and page indexes must be non-negative");
  page ← need_int page (ValueError "catalog TP ranks and page indexes must be non-negative");
  catalog_page_record (mkPageEntry key digest rank page).
Definition read_prefix (v : Json) : result CatalogPrefixRecord :=
  keys ← subscript "block_keys" v;
  blocks ← py_iter keys;
  blocks ← mapR py_iter blocks;
  pages ← subscript "pages" v;
  pages ← py_iter pages;
  pages ← mapR read_page pages;
  blocks ← mapR (mapR (λ t, need_int t (ValueError "catalog token ids must fit in uint32"))) blocks;
  catalog_prefix_record (mkPrefixEntry blocks pages).

Section decode.
Context `{FloatRepr}.

(** The checks of the loaded document. *)
Definition read_document (document : Json) : result RemoteCatalogSnapshot :=
  match document with
  | JObj fs =>
      throw_if (negb (match dict_get "schema" fs with Some (JStr s) => String.eqb s catalog_schema | _ => false end))
        (ValueError "unsupported catalog schema");;
      throw_if (negb (match dict_get "version" fs with Some (JInt v) => v =? catalog_version | _ => false end))
        (ValueError "unsupported catalog version");;
      payload ← subscript "payload" document;
      checksum ← subscript "checksum" document;
      match payload, checksum with
      | JObj _, JStr checksum =>
          throw_if (negb (is_ascii (bytes_of checksum)))
            (TypeError "comparing strings with non-ASCII characters is not supported");;
          throw_if (negb (String.eqb checksum (json_checksum payload))) (ValueError "catalog snapshot checksum mismatch");;
          prefixes ← subscript "prefixes" payload;
          prefixes ← py_iter prefixes;
          prefixes ← mapR read_prefix prefixes;
          digest ← subscript "identity_digest" payload;
          rank ← subscript "tp_rank" payload;
          digest ← need_str digest (ValueError "catalog identity is invalid");
          rank ← need_int rank (ValueError "catalog identity is invalid");
          remote_catalog_snapshot (mkSnapshot digest rank prefixes)
      | _, _ => throw (TypeError "catalog payload or checksum has an invalid type")
      end
  | _ => throw (TypeError "catalog envelope must be an object")
  end.
(** The part of [decode] inside [try]. *)
Definition read_snapshot (blob : bytes) : result RemoteCatalogSnapshot :=
  t ← decode_utf8 blob;
  document ← loads t;
  read_document document.
Definition is_key_error (e : exn) : bool := match e with KeyError _ => true | _ => false end.
(** [RemoteCatalogSnapshotCodec.decode] *)
Definition decode_snapshot (blob : bytes) : result RemoteCatalogSnapshot :=
  match read_snapshot blob with
  | inl e =>
      if is_key_error e || is_type_error e || is_value_error e
      then throw (RemoteCatalogSnapshotError ("invalid remote catalog snapshot: " +:+ exn_message e))
      else throw e
  | r => r
  end.
End decode.

(** ** Round trip *)
(** What the constructors accept, with ASCII strings. *)
Definition page_ok (p : CatalogPageRecord) : Prop :=
  catalog_page_record p = inr p ∧ is_ascii (bytes_of (cp_object_key p)) = true ∧
  is_ascii (bytes_of (cp_identity_digest p)) = true.
Definition prefix_ok (p : CatalogPrefixRecord) : Prop :=
  catalog_prefix_record p = inr p ∧ Forall page_ok (pf_pages p).
Definition snapshot_ok (s : RemoteCatalogSnapshot) : Prop :=
  remote_catalog_snapshot s = inr s ∧ Forall prefix_ok (sn_prefixes s) ∧
  is_ascii (bytes_of (sn_identity_digest s)) = true.

Lemma read_page_back p : page_ok p → read_page (sorted_json (page_json p)) = inr p ∧ plain (page_json p) = true.
Proof.
  intros (Hok & Hk & Hd). split.
  - destruct p as [key digest rank page]. exact Hok.
  - cbn [plain page_json forallb fst snd]. rewrite Hk, Hd. vm_compute. reflexivity.
Qed.
Lemma sorted_ints block : sorted_json (JList (map JInt block)) = JList (map JInt block).
Proof. cbn [sorted_json]. by rewrite map_map. Qed.
Lemma read_prefix_back p : prefix_ok p → read_prefix (sorted_json (prefix_json p)) = inr p ∧ plain (prefix_json p) = true.
Proof.
  intros (Hok & Hp). rewrite Forall_forall in Hp. split.
  - destruct p as [blocks pages]. cbn [prefix_json sorted_json pf_block_keys pf_pages map fst snd].
    rewrite !map_map. change (sort_fields ?l) with l. unfold read_prefix.
    change (subscript "block_keys" _) with (inr (JList (map (λ block, sorted_json (JList (map JInt block))) blocks)) : result Json).
    change (subscript "pages" _) with (inr (JList (map (λ x, sorted_json (page_json x)) pages)) : result Json).
    cbn [mbind result_bind py_iter mret result_ret].
    rewrite (map_ext (λ block, sorted_json (JList (map JInt block))) _ sorted_ints).
    assert (Hb : mapR py_iter (map (λ block, JList (map JInt block)) blocks) = inr (map (map JInt) blocks)).
    { rewrite <-(map_map (map JInt) JList). apply mapR_map, Forall_forall. by intros ??. }
    rewrite Hb. cbn [mbind result_bind].
    rewrite (mapR_map read_page (λ x, sorted_json (page_json x))) by (apply Forall_forall; intros g Hg; by apply read_page_back, Hp). cbn [mbind result_bind].
    rewrite (mapR_map _ (map JInt)); [exact Hok|]. apply Forall_forall. intros b _.
    apply (mapR_map _ JInt), Forall_forall. by intros t _.
  - cbn [plain prefix_json forallb fst snd]. apply andb_true_iff. split; [|vm_compute; reflexivity].
    rewrite !andb_true_iff. split_and!; try (vm_compute; reflexivity).
    + apply forallb_eq_true, Forall_forall. intros x (b & <- & _)%list_elem_of_In%in_map_iff. cbn [plain].
      apply forallb_eq_true, Forall_forall. intros y (t & <- & _)%list_elem_of_In%in_map_iff. done.
    + apply forallb_eq_true, Forall_forall. intros x (g & <- & Hg)%list_elem_of_In%in_map_iff.
      by apply read_page_back, Hp, list_elem_of_In.
Qed.

(** ** What the constructors guarantee of a value they return *)
Lemma read_page_checked v g : read_page v = inr g → catalog_page_record g = inr g.
Proof.
  unfold read_page. intros H. result_inv. assert (Hg := H). unfold catalog_page_record in H. result_inv. by subst g.
Qed.
Lemma read_pages_checked l gs : mapR read_page l = inr gs → Forall (λ g, catalog_page_record g = inr g) gs.
Proof. rewrite mapR_inr. induction 1; constructor; eauto using read_page_checked. Qed.
Definition prefix_checked (p : CatalogPrefixRecord) : Prop :=
  catalog_prefix_record p = inr p ∧ Forall (λ g, catalog_page_record g = inr g) (pf_pages p).
Lemma read_prefix_checked v p : read_prefix v = inr p → prefix_checked p.
Proof.
  unfold read_prefix. intros H. result_inv. assert (Hp := H). unfold catalog_prefix_record in H. result_inv. subst p.
  split; [exact Hp|]. cbn [pf_pages].
  eapply read_pages_checked. eassumption.
Qed.
Lemma read_prefixes_checked l ps : mapR read_prefix l = inr ps → Forall prefix_checked ps.
Proof. rewrite mapR_inr. induction 1; constructor; eauto using read_prefix_checked. Qed.

(** ** What reading can raise: only what the [except] clause catches *)
Definition caught (e : exn) : bool := is_key_error e || is_type_error e || is_value_error e.
Create HintDb catalog_db.
Lemma subscript_err k v e : subscript k v = inl e → caught e = true.
Proof.
  unfold subscript. destruct v; try (by intros [= <-]). destruct (dict_get k fields); [done|]. by intros [= <-].
Qed.
Lemma py_iter_err v e : py_iter v = inl e → caught e = true.
Proof. unfold py_iter. destruct v; try done; by intros [= <-]. Qed.
Lemma need_str_err v m e : need_str v (ValueError m) = inl e → caught e = true.
Proof. destruct v; cbn; try done; by intros [= <-]. Qed.
Lemma need_int_err v m e : need_int v (ValueError m) = inl e → caught e = true.
Proof. destruct v; cbn; try done; by intros [= <-]. Qed.
#[local] Hint Resolve subscript_err py_iter_err need_str_err need_int_err : catalog_db.
Lemma read_page_err v e : read_page v = inl e → caught e = true.
Proof. intros H. unfold read_page, catalog_page_record in H. result_err H; subst; eauto with catalog_db; done. Qed.
Lemma check_blocks_err l i e : check_blocks i l = inl e → caught e = true.
Proof.
  revert i. induction l as [|[b p] l IH]; intros i H; cbn [check_blocks] in H; [done|].
  result_err H; subst; eauto; done.
Qed.
#[local] Hint Resolve read_page_err check_blocks_err : catalog_db.
Lemma read_prefix_err v e : read_prefix v = inl e → caught e = true.
Proof.
  intros H. unfold read_prefix, catalog_prefix_record in H. result_err H; subst; eauto with catalog_db; try done.
  - apply mapR_inl in H as (y & _ & H). eauto with catalog_db.
  - apply mapR_inl in H as (y & _ & H). eauto with catalog_db.
  - apply mapR_inl in H as (y & _ & H). apply mapR_inl in H as (z & _ & H). eauto with catalog_db.
Qed.
#[local] Hint Resolve read_prefix_err : catalog_db.

Section theorems.
Context `{FloatRepr}.

Lemma json_checksum_ascii v : ascii_string (json_checksum v).
Proof.
  unfold ascii_string, json_checksum. rewrite hexdigest_bytes.
  eapply Forall_impl; [apply hexlify_ascii, blake2b_bytes|]. cbn. lia.
Qed.

(** The document [encode] writes, as [loads] gives it back: fields in order. *)
Lemma read_written c digest rank prefixes ps :
  is_ascii (bytes_of c) = true →
  json_checksum (JObj [("identity_digest", JStr digest); ("prefixes", JList ps); ("tp_rank", JInt rank)]) = c →
  mapR read_prefix ps = inr prefixes →
  read_document (JObj [("checksum", JStr c);
      ("payload", JObj [("identity_digest", JStr digest); ("prefixes", JList ps); ("tp_rank", JInt rank)]);
      ("schema", JStr catalog_schema); ("version", JInt catalog_version)]) =
  remote_catalog_snapshot (mkSnapshot digest rank prefixes).
Proof.
  intros Hascii Hsum Hps. unfold read_document. apply throw_if_bind; [reflexivity|]. apply throw_if_bind; [reflexivity|].
  revert Hsum. set (payload := JObj [("identity_digest", _); _; _]). intros Hsum.
  change (subscript "payload" _) with (inr payload : result Json).
  change (subscript "checksum" _) with (inr (JStr c) : result Json).
  cbn [mbind result_bind]. unfold payload at 1.
  apply throw_if_bind; [by apply negb_false_iff|].
  apply throw_if_bind; [apply negb_false_iff, String.eqb_eq; by rewrite Hsum|].
  change (subscript "prefixes" _) with (inr (JList ps) : result Json).
  change (subscript "identity_digest" _) with (inr (JStr digest) : result Json).
  change (subscript "tp_rank" _) with (inr (JInt rank) : result Json).
  cbn [mbind result_bind py_iter mret result_ret]. by rewrite Hps.
Qed.
(** Sorting the fields of the payload. *)
Lemma sorted_payload digest rank prefixes :
  sorted_json (snapshot_payload (mkSnapshot digest rank prefixes)) =
  JObj [("identity_digest", JStr digest); ("prefixes", JList (map (λ p, sorted_json (prefix_json p)) prefixes));
        ("tp_rank", JInt rank)].
Proof.
  cbn [snapshot_payload sorted_json map fst snd sn_prefixes sn_identity_digest sn_tp_rank]. by rewrite map_map.
Qed.
Lemma payload_plain s : snapshot_ok s → plain (snapshot_payload s) = true.
Proof.
  intros (_ & Hp & Hd). rewrite Forall_forall in Hp.
  cbn [plain snapshot_payload forallb fst snd]. rewrite Hd.
  apply andb_true_iff. split; [|vm_compute; reflexivity]. rewrite !andb_true_iff. split_and!; try (vm_compute; reflexivity).
  apply forallb_eq_true, Forall_forall. intros x (g & <- & Hg)%list_elem_of_In%in_map_iff.
  by apply read_prefix_back, Hp, list_elem_of_In.
Qed.
(** The envelope around a payload. *)
Definition snapshot_document (c : string) (payload : Json) : Json :=
  JObj [("schema", JStr catalog_schema); ("version", JInt catalog_version); ("checksum", JStr c); ("payload", payload)].
Lemma document_plain c payload :
  is_ascii (bytes_of c) = true → plain payload = true → plain (snapshot_document c payload) = true.
Proof. intros Hc Hp. unfold snapshot_document. cbn [plain forallb fst snd]. rewrite Hp, Hc. vm_compute. reflexivity. Qed.
Lemma sorted_document c payload :
  sorted_json (snapshot_document c payload) =
  JObj [("checksum", JStr c); ("payload", sorted_json payload); ("schema", JStr catalog_schema);
        ("version", JInt catalog_version)].
Proof. reflexivity. Qed.

Lemma read_encoded s : snapshot_ok s → read_snapshot (encode_snapshot s) = inr s.
Proof.
  intros Hs. pose proof (payload_plain s Hs) as Hplain. destruct Hs as (Hok & Hp & _). rewrite Forall_forall in Hp.
  unfold read_snapshot, encode_snapshot. fold (snapshot_document (json_checksum (snapshot_payload s)) (snapshot_payload s)).
  assert (Hsum : json_checksum (sorted_json (snapshot_payload s)) = json_checksum (snapshot_payload s)).
  { unfold json_checksum, canonical_json. by rewrite render_sorted. }
  assert (Hc : is_ascii (bytes_of (json_checksum (snapshot_payload s))) = true) by apply is_ascii_true, json_checksum_ascii.
  revert Hsum Hc. generalize (json_checksum (snapshot_payload s)). intros c Hsum Hc.
  assert (Hd := document_plain c _ Hc Hplain). unfold canonical_json.
  rewrite decode_utf8_ascii by by apply render_ascii. cbn [mbind result_bind].
  rewrite loads_render by done. cbn [mbind result_bind]. rewrite sorted_document.
  destruct s as [digest rank prefixes]. rewrite sorted_payload in Hsum |- *.
  rewrite (read_written c digest rank prefixes); [exact Hok|done..|].
  apply (mapR_map read_prefix (λ p, sorted_json (prefix_json p))), Forall_forall. intros g Hg. by apply read_prefix_back, Hp.
Qed.
(** A snapshot survives the codec: what [encode] writes decodes to the same
    snapshot. *)
Theorem snapshot_round_trip s : snapshot_ok s → decode_snapshot (encode_snapshot s) = inr s.
Proof. intros Hs. unfold decode_snapshot. by rewrite (read_encoded s Hs). Qed.

(** Whatever the bytes, [decode] raises nothing but [RemoteCatalogSnapshotError],
    and a snapshot it returns passes the checks of the constructors. *)
Theorem decode_snapshot_total blob :
  match decode_snapshot blob with
  | inl e => ∃ m, e = RemoteCatalogSnapshotError m
  | inr s => remote_catalog_snapshot s = inr s ∧ Forall prefix_checked (sn_prefixes s)
  end.
Proof.
  unfold decode_snapshot. destruct (read_snapshot blob) as [e|s] eqn:E.
  - enough (caught e = true) as Hc by (unfold caught in Hc; rewrite Hc; by eexists). unfold read_snapshot in E. apply result_bind_inl in E as [E|(t & _ & E)].
    { unfold decode_utf8 in E. result_err E. by subst. }
    apply result_bind_inl in E as [E|(doc & _ & E)]; [apply loads_errors in E; by destruct e|]. unfold read_document in E.
    destruct doc; try (by injection E as <-). result_err E; subst; eauto with catalog_db; try done.
    match type of E with match ?p with _ => _ end = _ => destruct p; try (by injection E as <-) end.
    match type of E with match ?p with _ => _ end = _ => destruct p; try (by injection E as <-) end.
    unfold remote_catalog_snapshot in E. result_err E; subst; eauto with catalog_db; try done.
    apply mapR_inl in E as (y & _ & E). eauto with catalog_db.
  - unfold read_snapshot in E. result_inv. unfold read_document in E.
    match type of E with match ?d with _ => _ end = _ => destruct d; try discriminate E end. result_inv.
    match type of E with match ?p with _ => _ end = _ => destruct p; try discriminate E end.
    match type of E with match ?p with _ => _ end = _ => destruct p; try discriminate E end. result_inv.
    assert (Hs := E). unfold remote_catalog_snapshot in E. result_inv. subst s. split; [exact Hs|].
    cbn [sn_prefixes]. eapply read_prefixes_checked. eassumption.
Qed.
End theorems.

(** ** Witness: two pages of two tokens *)
Definition sample_page (i : Z) : CatalogPageRecord := mkPageEntry "pool/key" "d0" 1 i.
Definition sample_snapshot : RemoteCatalogSnapshot :=
  mkSnapshot "d0" 1 [mkPrefixEntry [[1; 2]; [3; 4]] [sample_page 0; sample_page 1]].
(** No float occurs in a catalog. *)
Definition no_floats : FloatRepr := λ _, bytes_of "0.0".
Lemma snapshot_round_trip_witness :
  snapshot_ok sample_snapshot ∧
  @decode_snapshot no_floats (@encode_snapshot no_floats sample_snapshot) = inr sample_snapshot.
Proof.
  assert (H0 : snapshot_ok sample_snapshot).
  { split_and!; [vm_compute; reflexivity| |vm_compute; reflexivity].
    repeat constructor; vm_compute; reflexivity. }
  split; [exact H0|]. apply (@snapshot_round_trip no_floats sample_snapshot H0).
Defined.
