(* ===== verification/PrefixCatalog.v ===== *)
(** * The prefix catalog of remote pages

    Models [RemotePageDescriptor] and [RemotePrefixCatalog] of
    [nanovllm/engine/remote_restore.py]: a radix index from token prefixes to
    handles, a table from handles to descriptors of remote objects, its snapshot and the
    merge of one. The codec of the snapshots is in [RemoteCatalog.v]. *)
From S2P Require Import Prelude Json Blake2b StorageBackend RemoteCatalog RadixCache.
Set Default Goal Selector "!".

Record RemotePageDescriptor := mkDescriptor {
  pd_object_key : string;
  pd_identity_digest : string;
  pd_tp_rank : Z;
  pd_page_index : Z
}.
Definition remote_page_descriptor (d : RemotePageDescriptor) : result RemotePageDescriptor :=
  throw_if (negb (nonempty (pd_object_key d)) || negb (nonempty (pd_identity_digest d)))
    (ValueError "remote page keys and identities must not be empty");;
  throw_if ((pd_tp_rank d <? 0) || (pd_page_index d <? 0))%Z (ValueError "tp_rank and page_index must be non-negative");;
  mret d.

Record RemotePrefixCatalog := mkPrefixCatalog {
  ct_index : RadixPrefixCache;
  ct_descriptors : gmap nat RemotePageDescriptor;
  ct_next_handle : nat;
  ct_identity : option (string * Z)
}.
#[export] Instance RemotePrefixCatalog_eta : RecordEta RemotePrefixCatalog := λ r, {|
  ct_index := ct_index r; ct_descriptors := ct_descriptors r; ct_next_handle := ct_next_handle r;
  ct_identity := ct_identity r |}.
#[export] Instance set_ct_index : Setter ct_index := ltac:(derive_setter).
#[export] Instance set_ct_descriptors : Setter ct_descriptors := ltac:(derive_setter).
#[export] Instance set_ct_next_handle : Setter ct_next_handle := ltac:(derive_setter).
#[export] Instance set_ct_identity : Setter ct_identity := ltac:(derive_setter).
Abbreviation MP := (M RemotePrefixCatalog).

(** [RemotePrefixCatalog.__init__] *)
Definition catalog_init : RemotePrefixCatalog := mkPrefixCatalog radix_init ∅ 0 None.
(** A method of [self.index] *)
Definition on_index {A} (m : M RadixPrefixCache A) : MP A := λ c,
  match m (ct_index c) with (r, i) => (r, c <| ct_index := i |>) end.

(** ** [register] *)
(** The loop over [enumerate(descriptors)], from [index]. *)
Fixpoint check_pages (index : Z) (l : list RemotePageDescriptor) : result () :=
  match l with
  | [] => mret tt
  | d :: l =>
      throw_if (negb (pd_page_index d =? index)%Z) (ValueError "remote descriptor page indexes must start at zero");;
      check_pages (index + 1) l
  end.
Definition page_identity (d : RemotePageDescriptor) : string * Z := (pd_identity_digest d, pd_tp_rank d).

Definition register (block_keys : list BlockKey) (descriptors : list RemotePageDescriptor) : MP () :=
  raise_if (negb (length block_keys =? length descriptors))
    (ValueError "block keys and remote descriptors must have the same length");;
  if bool_decide (block_keys = []) then mret tt
  else
    lift (check_pages 0 descriptors);;
    match elements (list_to_set (page_identity <$> descriptors) : gset (string * Z)) with
    | [identity] =>
        c ← getS;
        raise_if (match ct_identity c with Some i => negb (bool_decide (identity = i)) | None => false end)
          (ValueError "remote catalog identity does not match its existing entries");;
        modifyS (λ c, c <| ct_identity := Some identity |>);;
        let handles := seq (ct_next_handle c) (length block_keys) in
        modifyS (λ c, c <| ct_next_handle := ct_next_handle c + length handles |>);;
        forM (zip handles descriptors) (λ hd, modifyS (λ c, c <| ct_descriptors := <[hd.1 := hd.2]> (ct_descriptors c) |>));;
        on_index (insert_prefix block_keys handles);;
        c ← getS;
        let live_handles := dom (block_locations (ct_index c)) in
        forM handles (λ h, if bool_decide (h ∈ live_handles) then mret tt
                           else modifyS (λ c, c <| ct_descriptors := delete h (ct_descriptors c) |>))
    | _ => raise (ValueError "a remote prefix must belong to one model identity and TP rank")
    end.

(** ** [match] *)
(** [self.descriptors[handle]] *)
Definition describe (h : nat) : MP RemotePageDescriptor :=
  c ← getS; of_option (KeyError "handle") (ct_descriptors c !! h).
Definition catalog_match (block_keys : list BlockKey) : MP (list RemotePageDescriptor) :=
  handles ← on_index (match_prefix block_keys);
  mapM_M describe handles.

(** ** [snapshot] *)
(** The order of tuples of integers, and of tuples of them. *)
Fixpoint tuple_lt {A} (eq lt : A → A → bool) (l r : list A) : bool :=
  match l, r with
  | _, [] => false
  | [], _ :: _ => true
  | x :: l, y :: r => lt x y || (eq x y && tuple_lt eq lt l r)
  end.
Definition key_lt : BlockKey → BlockKey → bool := tuple_lt Z.eqb Z.ltb.
Definition keys_lt : list BlockKey → list BlockKey → bool := tuple_lt (λ x y, bool_decide (x = y)) key_lt.
(** [sorted(children, key=lambda item: item.edge_keys)] *)
Definition by_edge (x y : list BlockKey * node_ref) : Prop := keys_lt y.1 x.1 = false.
#[export] Instance by_edge_dec x y : Decision (by_edge x y).
Proof. unfold by_edge. apply _. Defined.
Definition sorted_children (l : list (list BlockKey * node_ref)) : list (list BlockKey * node_ref) := merge_sort by_edge l.

Definition page_record (d : RemotePageDescriptor) : CatalogPageRecord :=
  mkPageEntry (pd_object_key d) (pd_identity_digest d) (pd_tp_rank d) (pd_page_index d).
Fixpoint catalog_visit (fuel : nat) (n : node_ref) (parent_keys : list BlockKey) (parent_handles : list nat) :
    MP (list CatalogPrefixRecord) :=
  match fuel with
  | 0 => raise OutOfFuel
  | S fuel =>
      nd ← on_index (deref n);
      let block_keys := parent_keys ++ edge_keys nd in
      let handles := parent_handles ++ block_ids nd in
      if negb (bool_decide (n = root)) && bool_decide (children nd = ∅) then
        pages ← mapM_M (λ h, d ← describe h; lift (catalog_page_record (page_record d))) handles;
        p ← lift (catalog_prefix_record (mkPrefixEntry block_keys pages));
        mret [p]
      else
        edges ← mapM_M (λ m, md ← on_index (deref m); mret (edge_keys md, m)) ((map_to_list (children nd)).*2);
        ps ← mapM_M (λ e, catalog_visit fuel e.2 block_keys handles) (sorted_children edges);
        mret (concat ps)
  end.
Definition catalog_snapshot : MP (option RemoteCatalogSnapshot) :=
  c ← getS;
  match ct_identity c with
  | None => mret None
  | Some (identity_digest, tp_rank) =>
      prefixes ← catalog_visit (walk_fuel (ct_index c)) root [] [];
      s ← lift (remote_catalog_snapshot (mkSnapshot identity_digest tp_rank prefixes));
      mret (Some s)
  end.

(** ** [merge_snapshot] *)
Definition read_descriptor (p : CatalogPageRecord) : result RemotePageDescriptor :=
  remote_page_descriptor (mkDescriptor (cp_object_key p) (cp_identity_digest p) (cp_tp_rank p) (cp_page_index p)).
Definition merge_snapshot (s : RemoteCatalogSnapshot) : MP nat :=
  c ← getS;
  raise_if (match ct_identity c with
            | Some i => negb (bool_decide ((sn_identity_digest s, sn_tp_rank s) = i))
            | None => false
            end) (ValueError "snapshot identity does not match the existing catalog");;
  forM (sn_prefixes s) (λ p,
    descriptors ← lift (mapR read_descriptor (pf_pages p));
    register (pf_block_keys p) descriptors);;
  mret (length (sn_prefixes s)).

(** ** [validate] *)
Definition catalog_validate : MP () :=
  on_index validate;;
  c ← getS;
  assertM (bool_decide (dom (ct_descriptors c) = dom (block_locations (ct_index c))))
    "set(self.descriptors) == set(self.index.block_locations)".
