(* ===== verification/PrefixCatalogSpec.v ===== *)
(** * The prefix catalog refines a finite map

    [known D c]: the catalog [c] knows the descriptor [D !! ks] of each page-aligned
    token prefix [ks]. [register] adds the unknown prefixes of a path, [match] returns
    the descriptors of the longest known chain, and a catalog written as a snapshot and merged
    into an empty one knows the same. *)
From S2P Require Import Prelude Json Blake2b StorageBackend RemoteCatalog RadixCache RadixSpec RadixOps RadixRemove RadixLru PrefixCatalog.
Set Default Goal Selector "!".

Abbreviation page_map := (gmap (list BlockKey) RemotePageDescriptor).

(** [m] gives the handle of each known prefix. *)
Record catalog_inv (m : gmap (list BlockKey) nat) (c : RemotePrefixCatalog) : Prop := {
  ci_index : represents m (ct_index c);
  ci_dom h : is_Some (ct_descriptors c !! h) ↔ ∃ ks, m !! ks = Some h;
  ci_handle ks h : m !! ks = Some h → h < ct_next_handle c;
  ci_page ks h d : m !! ks = Some h → ct_descriptors c !! h = Some d →
    ct_identity c = Some (page_identity d) ∧ pd_page_index d = (Z.of_nat (length ks) - 1)%Z;
  ci_identity : is_Some (ct_identity c) → m ≠ ∅
}.
Definition known (D : page_map) (c : RemotePrefixCatalog) : Prop :=
  ∃ m, catalog_inv m c ∧ ∀ ks, D !! ks = m !! ks ≫= λ h, ct_descriptors c !! h.

Lemma known_init : known ∅ catalog_init.
Proof.
  exists ∅. split; [|done]. split; try done.
  - apply radix_init_empty.
  - intros h. split; [by intros [? ?]|by intros (ks & ?)].
  - by intros [? ?].
Qed.
(** Every located handle is known, and conversely. *)
Lemma located_known m i h : represents m i → is_Some (block_locations i !! h) ↔ ∃ ks, m !! ks = Some h.
Proof.
  intros (P & HI & Hm). split.
  - intros [[n k] (p & nd & Hn & Hnd & Hk)%(ri_loc _ _ HI)]. destruct (decide (n = root)) as [->|Hr].
    { destruct (ri_rootnd _ _ HI) as (rd & ? & _ & E & _). simplify_eq. by rewrite E in Hk. }
    destruct (ri_node _ _ HI n p Hn Hr) as (nd' & q & qp & qd & k' & ? & ? & ? & ? & -> & ? & ? & ?).
    simplify_eq. eexists. apply Hm. by eapply edge_mapped.
  - intros (ks & (n & qp & nd & (_ & nd' & Hnd' & Hn & _) & Hnd & Hk)%Hm). simplify_eq.
    eexists. apply (ri_loc _ _ HI). by eexists _, _.
Qed.

(** ** [match] *)
Lemma longest_described (m : gmap (list BlockKey) nat) (D : page_map) (f : nat → option RemotePageDescriptor) rest pre :
  (∀ ks, D !! ks = m !! ks ≫= f) → (∀ ks h, m !! ks = Some h → is_Some (f h)) →
  Forall2 (λ h d, f h = Some d) (longest_from m pre rest) (longest_from D pre rest).
Proof.
  intros HD Hf. revert pre. induction rest as [|k rest IH]; intros pre; simpl; [constructor|].
  rewrite HD. destruct (m !! (pre ++ [k])) as [h|] eqn:E; simpl; [|constructor].
  destruct (Hf _ _ E) as [d Hd]. rewrite Hd. by constructor.
Qed.
Lemma mapM_reads_all {S A B} (R : A → B → Prop) (f : A → M S B) l ys s :
  Forall2 (λ x y, f x s = (inr y, s)) l ys → mapM_M f l s = (inr ys, s).
Proof. induction 1 as [|x y l ys Hx _ IH]; [done|]. cbn. unfold mbind, M_bind. by rewrite Hx, IH. Qed.
Lemma describe_run h d c : ct_descriptors c !! h = Some d → describe h c = (inr d, c).
Proof. intros Hd. unfold describe, mbind, M_bind, getS. by rewrite Hd. Qed.

Lemma known_index D c i :
  known D c → (∀ m, represents m (ct_index c) → represents m i) → known D (c <| ct_index := i |>).
Proof. intros (m & [I1 I2 I3 I4 I5] & HD) Hi. exists m. split; [|done]. split; try done. by apply Hi. Qed.
Lemma catalog_match_spec D c keys :
  known D c → ∃ c', catalog_match keys c = (inr (longest_match D keys), c') ∧ known D c' ∧ ct_identity c' = ct_identity c.
Proof.
  intros HK. pose proof HK as (m & HI & HD).
  destruct (match_prefix_spec m (ct_index c) keys (ci_index _ _ HI)) as (i & Hrun & Hi & _).
  exists (c <| ct_index := i |>). split_and!; [| |done].
  - unfold catalog_match, on_index, mbind, M_bind. rewrite Hrun. apply (mapM_reads_all (λ _ _, True)).
    eapply Forall2_impl; [apply (longest_described m D (λ h, ct_descriptors c !! h)); [done|]|].
    + intros ks h Hk. apply (ci_dom _ _ HI). eauto.
    + intros h d Hd. by apply describe_run.
  - destruct HI as [I1 I2 I3 I4 I5]. exists m. split; [|done]. by split.
Qed.

(** ** [register] *)
(** A path of pages of one identity, from the first on. *)
Definition valid_path (identity : string * Z) (keys : list BlockKey) (ds : list RemotePageDescriptor) : Prop :=
  length keys = length ds ∧ keys ≠ [] ∧
  ∀ i d, ds !! i = Some d → pd_page_index d = Z.of_nat i ∧ page_identity d = identity.
Lemma check_pages_ok n ds :
  check_pages n ds = inr tt ↔ ∀ i d, ds !! i = Some d → pd_page_index d = (n + Z.of_nat i)%Z.
Proof.
  revert n. induction ds as [|d ds IH]; intros n; cbn; [by split|]. split.
  - intros Hc. result_inv. pose proof (proj1 (IH _) Hc) as Hi'; clear Hc; rename Hi' into Hc. breflect. intros [|i] d' Hi; cbn in Hi; [injection Hi as <-; lia|].
    rewrite (Hc i d' Hi). lia.
  - intros Hc. apply throw_if_bind; [apply negb_false_iff, Z.eqb_eq; rewrite (Hc 0 d eq_refl); lia|].
    apply IH. intros i d' Hi. rewrite (Hc (S i) d' Hi). lia.
Qed.
Lemma check_pages_err n ds e : check_pages n ds = inl e → ∃ msg, e = ValueError msg.
Proof.
  revert n. induction ds as [|d ds IH]; intros n Hc; cbn in Hc; [done|].
  result_err Hc; [by eexists|by eapply IH].
Qed.
Lemma one_identity ds idn :
  elements (list_to_set (page_identity <$> ds) : gset (string * Z)) = [idn] ↔ ds ≠ [] ∧ ∀ d, d ∈ ds → page_identity d = idn.
Proof.
  split.
  - intros E. assert (Hin : ∀ x, x ∈ page_identity <$> ds ↔ x = idn).
    { intros x. rewrite <-(elem_of_list_to_set (C := gset (string * Z))), <-elem_of_elements, E. apply list_elem_of_singleton. }
    split.
    + intros ->. by apply (not_elem_of_nil idn), Hin.
    + intros d Hd. apply Hin. by apply list_elem_of_fmap_2.
  - intros [Hne Hall]. assert ((list_to_set (page_identity <$> ds) : gset (string * Z)) = {[idn]}) as ->; [|apply elements_singleton].
    apply set_eq. intros x. rewrite elem_of_list_to_set, elem_of_singleton, list_elem_of_fmap. split.
    + intros (d & -> & Hd). by apply Hall.
    + intros ->. destruct ds as [|d ds]; [done|]. exists d. rewrite (Hall d) by by left. split; [done|by left].
Qed.

Lemma describe_all hds c :
  NoDup hds.*1 →
  forM hds (λ hd, modifyS (λ c, c <| ct_descriptors := <[hd.1 := hd.2]> (ct_descriptors c) |>)) c =
    (inr tt, c <| ct_descriptors := list_to_map hds ∪ ct_descriptors c |>).
Proof.
  revert c. induction hds as [|[h d] hds IH]; intros c Hnd; cbn [forM].
  { cbn [list_to_map foldr]. rewrite map_empty_union. by destruct c. }
  rewrite fmap_cons in Hnd. apply NoDup_cons in Hnd as [Hni Hnd].
  unfold mbind, M_bind, modifyS. rewrite (IH _ Hnd). cbn [fst snd].
  refine (f_equal (λ ds, (inr tt, c <| ct_descriptors := ds |>)) _).
  change (list_to_map ((h, d) :: hds)) with (<[h := d]> (list_to_map hds : gmap nat RemotePageDescriptor)).
  rewrite <-insert_union_l, insert_union_r; [done|]. by apply not_elem_of_list_to_map_1.
Qed.
Lemma prune_all live handles c :
  forM handles (λ h, if bool_decide (h ∈ (live : gset nat)) then mret tt
                     else modifyS (λ c, c <| ct_descriptors := delete h (ct_descriptors c) |>)) c =
    (inr tt, c <| ct_descriptors := filter (λ hd, hd.1 ∈ handles → hd.1 ∈ live) (ct_descriptors c) |>).
Proof.
  revert c. induction handles as [|h handles IH]; intros c; cbn [forM].
  { rewrite map_filter_id; [by destruct c|]. intros k d _ Hk. by apply not_elem_of_nil in Hk. }
  unfold mbind, M_bind. case_bool_decide as Hh.
  - unfold mret, M_ret. rewrite IH. refine (f_equal (λ ds, (inr tt, c <| ct_descriptors := ds |>)) _). apply map_filter_ext. intros k d _. cbn [fst]. rewrite elem_of_cons. naive_solver.
  - unfold modifyS. rewrite IH. refine (f_equal (λ ds, (inr tt, c <| ct_descriptors := ds |>)) _). cbn [ct_descriptors setter set_ct_descriptors]. apply map_eq. intros k. apply option_eq. intros d.
    rewrite !map_lookup_filter_Some, lookup_delete_Some, elem_of_cons. cbn [fst]. naive_solver.
Qed.

Lemma lookup_handles n (ds : list RemotePageDescriptor) h d :
  (list_to_map (zip (seq n (length ds)) ds) : gmap nat RemotePageDescriptor) !! h = Some d ↔
  ∃ i, h = n + i ∧ ds !! i = Some d.
Proof.
  rewrite <-elem_of_list_to_map; [|rewrite fst_zip by (rewrite length_seq; done); apply NoDup_seq].
  rewrite list_elem_of_lookup. setoid_rewrite lookup_zip_Some. split.
  - intros (i & [Hi ?]%lookup_seq & Hd). by exists i.
  - intros (i & -> & Hd). exists i. split; [|done]. apply lookup_seq. split; [done|]. by eapply lookup_lt_Some.
Qed.

Section register.
Context (D : page_map) (m : gmap (list BlockKey) nat) (c : RemotePrefixCatalog) (HI : catalog_inv m c)
  (HD : ∀ ks, D !! ks = m !! ks ≫= λ h, ct_descriptors c !! h).
Context (idn : string * Z) (keys : list BlockKey) (ds : list RemotePageDescriptor) (Hv : valid_path idn keys ds)
  (Hidn : ∀ i, ct_identity c = Some i → i = idn).
Let handles := seq (ct_next_handle c) (length keys).
Let m' := m ∪ path_map keys handles.

Lemma handle_at i h : handles !! i = Some h ↔ h = ct_next_handle c + i ∧ i < length keys.
Proof using Type. unfold handles. apply lookup_seq. Qed.
Lemma old_handle ks h : m !! ks = Some h → h ∉ handles.
Proof using HI. intros Hk%(ci_handle _ _ HI) [? _]%elem_of_seq. lia. Qed.
Lemma new_prefix ks h :
  m' !! ks = Some h ↔ m !! ks = Some h ∨ m !! ks = None ∧ ∃ i, h = ct_next_handle c + i ∧ i < length keys ∧ ks = take (S i) keys.
Proof using Type.
  unfold m'. rewrite lookup_union_Some_raw, lookup_path_map by (unfold handles; by rewrite length_seq).
  setoid_rewrite handle_at. naive_solver.
Qed.

(** The table after [register], in terms of the one before. *)
Definition table_after (i : RadixPrefixCache) : gmap nat RemotePageDescriptor :=
  filter (λ hd, hd.1 ∈ handles → hd.1 ∈ (dom (block_locations i) : gset nat))
    (list_to_map (zip handles ds) ∪ ct_descriptors c).
Lemma table_old i ks h : m !! ks = Some h → table_after i !! h = ct_descriptors c !! h.
Proof using HI Hv.
  intros Hk. pose proof (old_handle _ _ Hk) as Hn. apply option_eq. intros d.
  unfold table_after. rewrite map_lookup_filter_Some, lookup_union_Some_raw. cbn [fst].
  assert ((list_to_map (zip handles ds) : gmap nat RemotePageDescriptor) !! h = None) as E; [|by naive_solver].
  apply not_elem_of_list_to_map_1. destruct Hv as [Hlen _]. rewrite fst_zip; [done|]. unfold handles. rewrite length_seq. lia.
Qed.
Lemma table_new i k d : represents m' i → m !! take (S k) keys = None → ds !! k = Some d → table_after i !! (ct_next_handle c + k) = Some d.
Proof using HI Hv.
  intros Hi Hk Hd. destruct Hv as [Hlen _]. pose proof (lookup_lt_Some _ _ _ Hd) as Hlt.
  unfold table_after. apply map_lookup_filter_Some. cbn [fst]. split.
  - apply lookup_union_Some_raw. left. unfold handles. rewrite Hlen. apply lookup_handles. by exists k.
  - intros _. apply elem_of_dom, (located_known m' i _ Hi). exists (take (S k) keys). apply new_prefix. right.
    split; [done|]. exists k. split_and!; [done|lia|done].
Qed.
Lemma table_dom i h : represents m' i → is_Some (table_after i !! h) → ∃ ks, m' !! ks = Some h.
Proof using HI Hv HD.
  intros Hi [d Hd]. unfold table_after in Hd. apply map_lookup_filter_Some in Hd as [Hd Hlive]. cbn [fst] in Hlive.
  destruct (decide (h ∈ handles)) as [Hin|Hout].
  - apply (located_known m' i h Hi), elem_of_dom. by apply Hlive.
  - apply lookup_union_Some_raw in Hd as [Hd|[_ Hd]].
    + exfalso. apply Hout. destruct Hv as [Hlen _]. unfold handles in *. rewrite Hlen in *. apply lookup_handles in Hd as (k & -> & Hk).
      apply elem_of_seq. apply lookup_lt_Some in Hk. lia.
    + destruct (proj1 (ci_dom _ _ HI h) (ex_intro _ _ Hd)) as [ks Hks]. exists ks. apply new_prefix. by left.
Qed.

Lemma register_inv i :
  represents m' i → known (D ∪ path_map keys ds)
    (mkPrefixCatalog i (table_after i) (ct_next_handle c + length handles) (Some idn)).
Proof using HI HD Hv Hidn.
  intros Hi. pose proof Hv as (Hlen & Hne & Hds). exists m'. split; [split|]; cbn.
  - done.
  - intros h. split; [by apply table_dom|]. intros (ks & [Hk|(Hk & k & -> & Hlt & ->)]%new_prefix).
    + rewrite (table_old i ks h Hk). apply (ci_dom _ _ HI). eauto.
    + rewrite Hlen in Hlt. apply lookup_lt_is_Some in Hlt as [d Hd]. rewrite (table_new i k d) by done. by eexists.
  - intros ks h. unfold handles. rewrite length_seq. intros [Hk%(ci_handle _ _ HI)|(_ & k & -> & Hlt & _)]%new_prefix; lia.
  - intros ks h d [Hk|(Hk & k & -> & Hlt & ->)]%new_prefix Hd.
    + rewrite (table_old i ks h Hk) in Hd. destruct (ci_page _ _ HI ks h d Hk Hd) as [E ?]. by rewrite (Hidn _ E).
    + rewrite Hlen in Hlt. apply lookup_lt_is_Some in Hlt as [d' Hd']. rewrite (table_new i k d') in Hd by done. injection Hd as ->.
      destruct (Hds k d Hd') as [-> ->]. split; [done|]. rewrite length_take. apply lookup_lt_Some in Hd'. lia.
  - intros _ E. assert (Hpos : 0 < length keys) by (apply Nat.neq_0_lt_0; by intros ?%length_zero_iff_nil).
    assert (is_Some (m' !! take 1 keys)) as [h Hh]; [|by rewrite E in Hh].
    destruct (m !! take 1 keys) as [h|] eqn:E1; [exists h; apply new_prefix; by left|].
    exists (ct_next_handle c + 0). apply new_prefix. right. split; [done|]. by exists 0.
  - intros ks. apply option_eq. intros d. rewrite lookup_union_Some_raw, HD, lookup_path_map by done.
    destruct (m !! ks) as [h|] eqn:Ek; cbn [mbind option_bind].
    + assert (m' !! ks = Some h) as -> by (apply new_prefix; by left). cbn [mbind option_bind]. rewrite (table_old i ks h Ek).
      destruct (proj2 (ci_dom _ _ HI h) (ex_intro _ _ Ek)) as [d' Hd']. rewrite Hd'. naive_solver.
    + rewrite bind_Some. split.
      * intros [?|(_ & k & Hk & ->)]; [done|]. exists (ct_next_handle c + k). split; [|by apply table_new].
        apply new_prefix. right. split; [done|]. exists k. split_and!; [done|rewrite Hlen; by eapply lookup_lt_Some|done].
      * intros (h & [Hk|(_ & k & -> & Hlt & ->)]%new_prefix & Hd); [congruence|]. right. split; [done|]. exists k.
        rewrite Hlen in Hlt. apply lookup_lt_is_Some in Hlt as [d' Hd']. rewrite (table_new i k d') in Hd by done. by injection Hd as ->.
Qed.

Lemma register_spec :
  ∃ c', register keys ds c = (inr tt, c') ∧ known (D ∪ path_map keys ds) c' ∧ ct_identity c' = Some idn.
Proof using HI HD Hv Hidn.
  pose proof Hv as (Hlen & Hne & Hds).
  destruct (insert_prefix_spec m (ct_index c) keys handles) as (i & Hrun & Hi).
  { apply (ci_index _ _ HI). } { unfold handles. by rewrite length_seq. } { apply NoDup_seq. }
  { intros k h Hh _ ks Hk. apply (old_handle _ _ Hk). by eapply list_elem_of_lookup_2. }
  eexists. split; [|split; [by apply (register_inv i)|done]].
  unfold register. rewrite Hlen, Nat.eqb_refl. cbn [negb raise_if]. rewrite bool_decide_eq_false_2 by done.
  assert (check_pages 0 ds = inr tt) as Hc by (apply check_pages_ok; intros k d Hd; by destruct (Hds k d Hd) as [-> _]).
  assert (elements (list_to_set (page_identity <$> ds) : gset (string * Z)) = [idn]) as He.
  { apply one_identity. split; [by intros ->; destruct keys|]. intros d [k Hk]%list_elem_of_lookup. by destruct (Hds k d Hk). }
  rewrite Hc, He.
  assert (match ct_identity c with Some i => negb (bool_decide (idn = i)) | None => false end = false) as Hn.
  { destruct (ct_identity c) as [i'|]; [|done]. apply negb_false_iff, bool_decide_eq_true. by rewrite (Hidn i'). }
  unfold lift, mbind, M_bind, mret, M_ret, getS. rewrite Hn. unfold raise_if, mret, M_ret, modifyS.
  rewrite <-Hlen. fold handles. rewrite describe_all.
  2:{ rewrite fst_zip; [apply NoDup_seq|]. unfold handles. rewrite length_seq. lia. }
  unfold on_index. cbn [ct_index setter set_ct_descriptors set_ct_next_handle set_ct_identity]. rewrite Hrun.
  apply prune_all.
Qed.
End register.

(** C21: c12: [register] succeeds exactly on the paths of pages of one identity, from the
    first page on, that agree with the catalog's identity; the descriptors it already
    knows stay. Otherwise it raises [ValueError] and changes nothing. *)
Theorem register_total D c keys ds :
  known D c →
  let accepted idn := valid_path idn keys ds ∧ ∀ i, ct_identity c = Some i → i = idn in
  (keys = [] ∧ ds = [] ∧ register keys ds c = (inr tt, c)) ∨
  (∃ idn c', accepted idn ∧ register keys ds c = (inr tt, c') ∧ known (D ∪ path_map keys ds) c' ∧ ct_identity c' = Some idn) ∨
  (∃ msg, register keys ds c = (inl (ValueError msg), c) ∧ ∀ idn, ¬ accepted idn).
Proof.
  intros (m & HI & HD) accepted. destruct (decide (length keys = length ds)) as [Hlen|Hlen].
  2:{ right. right. eexists. split; [|by intros idn [(? & _) _]]. unfold register. apply Nat.eqb_neq in Hlen as ->. done. }
  destruct (decide (keys = [])) as [->|Hne].
  { left. destruct ds; [|done]. by split_and!. }
  assert (Hdec : (∃ idn, accepted idn) ∨ ∃ msg, register keys ds c = (inl (ValueError msg), c) ∧ ∀ idn, ¬ accepted idn).
  2:{ destruct Hdec as [(idn & Hv & Hidn)|?]; [|by right; right]. right. left.
      destruct (register_spec D m c HI HD idn keys ds Hv Hidn) as (c' & ? & ? & ?). by exists idn, c'. }
  unfold register. rewrite Hlen, Nat.eqb_refl. cbn [negb raise_if]. rewrite bool_decide_eq_false_2 by done.
  destruct (check_pages 0 ds) as [e|[]] eqn:Ec.
  { right. destruct (check_pages_err _ _ _ Ec) as [msg ->]. exists msg. split; [done|]. intros idn [(_ & _ & Hds) _].
    rewrite (proj2 (check_pages_ok 0 ds)) in Ec; [done|]. intros i d Hi. by destruct (Hds i d Hi) as [-> _]. }
  unfold lift, mbind, M_bind, mret, M_ret. destruct (elements _) as [|idn [|? ?]] eqn:Ee.
  1,3: right; eexists; split; [done|]; intros idn' [(_ & _ & Hds) _];
    rewrite (proj2 (one_identity ds idn')) in Ee; [done|]; split; [by intros ->; destruct keys|];
    intros d [i Hi]%list_elem_of_lookup; by destruct (Hds i d Hi).
  pose proof (proj1 (one_identity ds idn) Ee) as [_ Hall].
  assert (Hv : valid_path idn keys ds).
  { split_and!; [done..|]. intros i d Hi. split; [by rewrite (proj1 (check_pages_ok 0 ds) Ec i d Hi)|].
    apply Hall. by eapply list_elem_of_lookup_2. }
  unfold getS. destruct (ct_identity c) as [i|] eqn:Ei; [|left; exists idn; split; [done|by intros ? ?]].
  destruct (decide (idn = i)) as [->|Hi]; [left; exists i; split; [done|by intros ? [= ->]]|].
  right. eexists. rewrite bool_decide_eq_false_2 by done. split; [done|]. intros idn' [(_ & _ & Hds) Hidn].
  apply Hi. rewrite (Hidn i eq_refl). destruct ds as [|d ds']; [by destruct keys|].
  rewrite <-(Hall d) by by left. by destruct (Hds 0 d eq_refl) as [_ ->].
Qed.

(** ** [snapshot] *)
(** What the snapshot's constructors accept: tokens that fit, one page size. *)
Definition storable (bs : nat) (D : page_map) : Prop :=
  0 < bs ∧ ∀ ks d, D !! ks = Some d →
    remote_page_descriptor d = inr d ∧ Forall (λ k, length k = bs ∧ forallb uint32 k = true) ks.
(** The record of the path to a leaf. *)
Definition leaf_record (D : page_map) (lp : list BlockKey) : CatalogPrefixRecord :=
  mkPrefixEntry lp (page_record <$> longest_match D lp).
(** Every prefix of the path is known. *)
Definition known_path (D : page_map) (lp : list BlockKey) : Prop := length (longest_match D lp) = length lp.

Lemma known_path_lookup (D : page_map) lp i d :
  longest_match D lp !! i = Some d → D !! take (S i) lp = Some d.
Proof. intros Hi. by apply (proj1 (longest_from_char D [] lp)) in Hi. Qed.
Lemma known_path_all (D : page_map) lp i : known_path D lp → i < length lp → ∃ d, longest_match D lp !! i = Some d ∧ D !! take (S i) lp = Some d.
Proof.
  intros Hk Hi. rewrite <-Hk in Hi. apply lookup_lt_is_Some in Hi as [d Hd]. exists d. split; [done|by apply known_path_lookup].
Qed.

Lemma forall_block_sizes bs (blocks : list BlockKey) :
  blocks ≠ [] → Forall (λ k, length k = bs) blocks → block_sizes blocks = {[bs]}.
Proof.
  intros Hne Hall. apply set_eq. intros x. unfold block_sizes. rewrite elem_of_list_to_set, elem_of_singleton, list_elem_of_fmap.
  rewrite Forall_forall in Hall. split.
  - intros (k & -> & Hk). by apply Hall.
  - intros ->. destruct blocks as [|k blocks]; [done|]. exists k. split; [symmetry; apply Hall; by left|by left].
Qed.
Lemma check_blocks_ok n l :
  (∀ i k p, l !! i = Some (k, p) → cp_page_index p = (n + Z.of_nat i)%Z ∧ forallb uint32 k = true) → check_blocks n l = inr tt.
Proof.
  revert n. induction l as [|[k p] l IH]; intros n Hl; cbn [check_blocks]; [done|].
  destruct (Hl 0 k p eq_refl) as [E1 E2]. apply throw_if_bind; [apply negb_false_iff, Z.eqb_eq; lia|].
  apply throw_if_bind; [by rewrite E2|]. apply IH. intros i k' p' Hi. destruct (Hl (S i) k' p' Hi) as [E3 E4]. split; [lia|done].
Qed.

Lemma catalog_eta (c : RemotePrefixCatalog) : c <| ct_index := ct_index c |> = c.
Proof. by destruct c. Qed.

Section visit.
Context (D : page_map) (m : gmap (list BlockKey) nat) (c : RemotePrefixCatalog) (HI : catalog_inv m c)
  (HD : ∀ ks, D !! ks = m !! ks ≫= λ h, ct_descriptors c !! h).
Context (bs : nat) (HS : storable bs D).

Lemma page_at ks d : D !! ks = Some d → pd_page_index d = (Z.of_nat (length ks) - 1)%Z ∧ ct_identity c = Some (page_identity d).
Proof using HI HD. rewrite HD, bind_Some. intros (h & Hk & Hd). by destruct (ci_page _ _ HI ks h d Hk Hd). Qed.
Lemma page_record_valid ks d : D !! ks = Some d → catalog_page_record (page_record d) = inr (page_record d).
Proof using HS.
  intros Hd. destruct HS as [_ H]. destruct (H ks d Hd) as [Hv _]. unfold remote_page_descriptor in Hv. result_inv.
  apply throw_if_bind; [done|]. by apply throw_if_bind.
Qed.
Lemma leaf_record_valid lp : lp ≠ [] → known_path D lp → catalog_prefix_record (leaf_record D lp) = inr (leaf_record D lp).
Proof using HI HD HS.
  intros Hne Hk. assert (Hall : Forall (λ k, length k = bs ∧ forallb uint32 k = true) lp).
  { assert (0 < length lp) as Hlt by (destruct lp; cbn; [done|lia]).
    destruct (known_path_all D lp (length lp - 1) Hk) as (d & _ & Hd); [lia|].
    rewrite take_ge in Hd by lia. by destruct (proj2 HS _ _ Hd). }
  assert (Hsz : block_sizes lp = {[bs]}) by (apply forall_block_sizes; [done|eapply Forall_impl; [exact Hall|by intros k [? _]]]).
  unfold catalog_prefix_record, leaf_record. cbn [pf_block_keys pf_pages]. apply throw_if_bind.
  { rewrite length_fmap, Hk, Nat.eqb_refl. destruct lp; done. }
  apply throw_if_bind.
  { rewrite Hsz, size_singleton. cbn [negb orb Nat.eqb]. apply bool_decide_eq_false. rewrite elem_of_singleton. destruct HS. lia. }
  rewrite check_blocks_ok; [done|]. intros i k p Hi. apply lookup_zip_Some in Hi as [Hki Hp].
  rewrite list_lookup_fmap, fmap_Some in Hp. destruct Hp as (d & Hd & ->). apply known_path_lookup in Hd.
  destruct (page_at _ _ Hd) as [Hp _]. pose proof (lookup_lt_Some _ _ _ Hki). cbn. rewrite Hp, length_take. split; [lia|].
  by destruct (proj1 (Forall_lookup _ _) Hall i k Hki).
Qed.

(** [ids] are the handles of the path [p]. *)
Definition chain (p : list BlockKey) (ids : list nat) : Prop :=
  length ids = length p ∧ ∀ i b, ids !! i = Some b → m !! take (S i) p = Some b.
Lemma chain_described p ids : chain p ids → Forall2 (λ h d, ct_descriptors c !! h = Some d) ids (longest_match D p) ∧ known_path D p.
Proof using HI HD.
  intros [Hlen Hids]. assert (longest_match m p = ids) as <-.
  { unfold longest_match. rewrite (longest_from_app m [] p ids (length ids)); [|done|lia|done].
    rewrite drop_ge by lia. by rewrite app_nil_r. }
  assert (HF : Forall2 (λ h d, ct_descriptors c !! h = Some d) (longest_match m p) (longest_match D p)).
  { apply longest_described; [done|]. intros ks h Hk. apply (ci_dom _ _ HI). eauto. }
  split; [done|]. unfold known_path. by rewrite <-Hlen, (Forall2_length _ _ _ HF).
Qed.

Context (P : paths) (HP : radix_inv P (ct_index c)) (Hm : ∀ ks b, m !! ks = Some b ↔ mapped P (ct_index c) ks b).
Lemma chain_edge n qp ids nd :
  chain qp ids → P !! n = Some (qp ++ edge_keys nd) → heap (ct_index c) !! n = Some nd → n ≠ root →
  chain (qp ++ edge_keys nd) (ids ++ block_ids nd).
Proof using Hm HP.
  intros [Hlen Hids] Hn Hnd Hr.
  assert (Hle : length (edge_keys nd) = length (block_ids nd)).
  { destruct (ri_node _ _ HP n _ Hn Hr) as (nd' & q & qp' & qd & k & ? & ? & ? & ? & _ & ? & ? & ?). by simplify_eq. }
  split; [rewrite !length_app; lia|]. intros i b Hb. apply lookup_app_Some in Hb as [Hb|[Hi Hb]].
  - pose proof (lookup_lt_Some _ _ _ Hb). rewrite take_app_le by lia. by apply Hids.
  - apply Hm. rewrite take_app_ge by lia. replace (S i - length qp) with (S (i - length ids)) by lia.
    by eapply edge_mapped.
Qed.

(** A leaf below the path [p]. *)
Definition leaf_at (p lp : list BlockKey) : Prop :=
  ∃ x xd, P !! x = Some lp ∧ p `prefix_of` lp ∧ heap (ct_index c) !! x = Some xd ∧ children xd = ∅ ∧ x ≠ root.
Lemma leaf_children n p nd lp :
  P !! n = Some p → heap (ct_index c) !! n = Some nd → n = root ∨ children nd ≠ ∅ →
  leaf_at p lp ↔ ∃ k x xp, children nd !! k = Some x ∧ P !! x = Some xp ∧ leaf_at xp lp.
Proof using HP.
  intros Hn Hnd Hne. split.
  - intros (x & xd & Hx & Hp & Hxd & Hch & Hxr).
    destruct (subtree_step _ _ _ _ _ _ _ HP Hn Hnd Hx Hp) as [->|(k & y & yp & Hk & Hy & Hyp)].
    + rewrite Hnd in Hxd. injection Hxd as <-. by destruct Hne.
    + exists k, y, yp. split_and!; [done..|]. by exists x, xd.
  - intros (k & y & yp & Hk & Hy & x & xd & Hx & Hp & Hxd & Hch & Hxr).
    destruct (child_path _ _ _ _ _ _ _ HP Hn Hnd Hk) as (yd & _ & Hy' & _). rewrite Hy in Hy'. injection Hy' as ->.
    exists x, xd. split_and!; try done. etrans; [|done]. by eexists.
Qed.

Lemma deref_run n nd : heap (ct_index c) !! n = Some nd → on_index (deref n) c = (inr nd, c).
Proof using Type. intros Hn. unfold on_index, deref, mbind, M_bind, getS. rewrite Hn. cbn [of_option mret M_ret]. by rewrite catalog_eta. Qed.
Lemma visit_leaf p ids :
  p ≠ [] → chain p ids →
  (pages ← mapM_M (λ h, d ← describe h; lift (catalog_page_record (page_record d))) ids;
   r ← lift (catalog_prefix_record (mkPrefixEntry p pages)); mret [r]) c = (inr [leaf_record D p], c).
Proof using HI HD HS.
  intros Hne Hch. destruct (chain_described p ids Hch) as [Hd Hk]. unfold mbind at 1, M_bind at 1.
  erewrite (mapM_reads_all (λ _ _, True)).
  2:{ instantiate (1 := page_record <$> longest_match D p). apply Forall2_fmap_r. apply Forall2_same_length_lookup.
      split; [by eapply Forall2_length|]. intros i h d Hh Hdi. pose proof (Forall2_lookup_lr _ _ _ _ _ _ Hd Hh Hdi) as Hhd.
      unfold mbind, M_bind. rewrite (describe_run _ _ _ Hhd). unfold lift. by rewrite (page_record_valid (take (S i) p)) by by apply known_path_lookup. }
  fold (leaf_record D p). unfold lift, mbind, M_bind. rewrite leaf_record_valid by done. done.
Qed.
(** The children of a node, with their edges. *)
Lemma visit_edges n p nd :
  P !! n = Some p → heap (ct_index c) !! n = Some nd →
  ∃ es, mapM_M (λ m, md ← on_index (deref m); mret (edge_keys md, m)) ((map_to_list (children nd)).*2) c = (inr es, c) ∧
    ∀ e, e ∈ es ↔ ∃ k md, children nd !! k = Some e.2 ∧ heap (ct_index c) !! e.2 = Some md ∧ P !! e.2 = Some (p ++ edge_keys md) ∧
      e.1 = edge_keys md ∧ e.2 ≠ root.
Proof using HP.
  intros Hn Hnd. destruct (mapM_M_reads (λ x e, e.2 = x ∧ ∃ md, heap (ct_index c) !! x = Some md ∧ e.1 = edge_keys md)
    (λ m, md ← on_index (deref m); mret (edge_keys md, m)) ((map_to_list (children nd)).*2) c) as (es & Hes & HR).
  { intros x [k Hk]%elem_of_map_values. destruct (child_path _ _ _ _ _ _ _ HP Hn Hnd Hk) as (xd & Hxd & _).
    exists (edge_keys xd, x). unfold mbind, M_bind. rewrite (deref_run _ _ Hxd). split; [done|]. split; [done|]. by exists xd. }
  exists es. split; [done|]. intros [ek x]. cbn [fst snd]. split.
  - intros [i Hi]%list_elem_of_lookup. destruct (Forall2_lookup_r _ _ _ _ _ HR Hi) as (y & Hy & E & md & Hmd & E').
    cbn [fst snd] in *. subst y. apply list_elem_of_lookup_2, elem_of_map_values in Hy as [k Hk].
    destruct (child_path _ _ _ _ _ _ _ HP Hn Hnd Hk) as (md' & Hmd' & Hx & Hxr & _). exists k, md. rewrite Hmd in Hmd'. by injection Hmd' as <-.
  - intros (k & md & Hk & Hmd & _ & -> & _). assert (Hx : x ∈ (map_to_list (children nd)).*2) by (apply elem_of_map_values; eauto).
    apply list_elem_of_lookup in Hx as [i Hi]. destruct (Forall2_lookup_l _ _ _ _ _ HR Hi) as ([ek' y] & Hy & E & md' & Hmd' & E').
    cbn [fst snd] in *. subst y ek'. rewrite Hmd in Hmd'. injection Hmd' as <-. by eapply list_elem_of_lookup_2.
Qed.
Lemma concat_reads {A B} (Q : A → B → Prop) l rss :
  Forall2 (λ e rs, ∀ r, r ∈ rs ↔ Q e r) l rss → ∀ r, r ∈ concat rss ↔ ∃ e, e ∈ l ∧ Q e r.
Proof using Type.
  induction 1 as [|e rs l rss He _ IH]; intros r; cbn [concat].
  - split; [by intros ?%not_elem_of_nil|by intros (e & ?%not_elem_of_nil & _)].
  - rewrite elem_of_app, He, IH. split.
    + intros [?|(e' & ? & ?)]; [exists e; split; [by left|done]|exists e'; split; [by right|done]].
    + intros (e' & [->|?]%elem_of_cons & ?); eauto.
Qed.
Lemma catalog_visit_spec fuel n qp nd ids :
  P !! n = Some (qp ++ edge_keys nd) → heap (ct_index c) !! n = Some nd → chain qp ids → (n = root → qp = [] ∧ ids = []) →
  subtree_size P (qp ++ edge_keys nd) <= fuel →
  ∃ rs, catalog_visit fuel n qp ids c = (inr rs, c) ∧
    ∀ r, r ∈ rs ↔ ∃ lp, leaf_at (qp ++ edge_keys nd) lp ∧ r = leaf_record D lp.
Proof using HI HD HS Hm HP.
  revert n qp nd ids. induction fuel as [|fuel IH]; intros n qp nd ids Hn Hnd Hch Hroot Hfuel.
  { pose proof (subtree_size_pos _ _ _ Hn). lia. }
  set (p := qp ++ edge_keys nd) in *. cbn [catalog_visit]. unfold mbind at 1, M_bind at 1. rewrite (deref_run _ _ Hnd).
  cbv zeta. fold p. assert (Hch' : chain p (ids ++ block_ids nd)).
  { destruct (decide (n = root)) as [->|Hr]; [|by eapply chain_edge].
    destruct (Hroot eq_refl) as [-> ->]. destruct (ri_rootnd _ _ HP) as (rd & Hrd & E1 & E2 & _).
    rewrite Hnd in Hrd. injection Hrd as <-. unfold p. rewrite E1, E2. exact Hch. }
  destruct (negb (bool_decide (n = root)) && bool_decide (children nd = ∅)) eqn:Eleaf.
  - breflect. rewrite visit_leaf; [| |done].
    2:{ intros E. rewrite E in Hn. by apply (path_nil HP) in Hn. }
    eexists. split; [done|]. intros r. rewrite list_elem_of_singleton. split.
    + intros ->. exists p. split; [|done]. by exists n, nd.
    + intros (lp & (x & xd & Hx & Hp & Hxd & Hxc & Hxr) & ->).
      destruct (subtree_step _ _ _ _ _ _ _ HP Hn Hnd Hx Hp) as [->|(k & y & yp & Hk & _)]; [congruence|].
      by match goal with E : children nd = ∅ |- _ => rewrite E in Hk end.
  - assert (Hinner : n = root ∨ children nd ≠ ∅) by (apply andb_false_iff in Eleaf as [E|E]; breflect; auto).
    destruct (visit_edges n p nd Hn Hnd) as (es & Hes & Hin). unfold mbind at 1, M_bind at 1. rewrite Hes.
    destruct (mapM_M_reads (λ e rs, ∀ r, r ∈ rs ↔ ∃ lp, leaf_at (p ++ e.1) lp ∧ r = leaf_record D lp)
      (λ e, catalog_visit fuel e.2 p (ids ++ block_ids nd)) (sorted_children es) c) as (rss & Hrss & HR).
    { intros e He. unfold sorted_children in He. rewrite merge_sort_Permutation in He. apply Hin in He as (k & md & Hk & Hmd & Hm' & E & Hmr).
      rewrite E. apply IH; [done|done|done|done|]. pose proof (subtree_size_child _ _ _ _ _ _ _ _ HP Hn Hnd Hk Hm'). lia. }
    unfold mbind at 1, M_bind at 1. rewrite Hrss. eexists. split; [done|]. intros r.
    rewrite (concat_reads _ _ _ HR r). unfold sorted_children. setoid_rewrite merge_sort_Permutation.
    setoid_rewrite (leaf_children n p nd _ Hn Hnd Hinner). split.
    + intros (e & (k & md & Hk & Hmd & Hm' & -> & _)%Hin & lp & Hlp & ->). exists lp. split; [|done]. by eauto 10.
    + intros (lp & (k & x & xp & Hk & Hx & Hlp) & ->). destruct (child_path _ _ _ _ _ _ _ HP Hn Hnd Hk) as (md & Hmd & Hx' & Hxr & _).
      rewrite Hx in Hx'. injection Hx' as ->. exists (edge_keys md, x). split; [apply Hin; by exists k, md|]. by exists lp.
Qed.

(** Every live node has a leaf below it, and every prefix of a leaf's path is known. *)
Lemma leaf_below p : ∀ n, P !! n = Some p → n ≠ root → ∃ lp, leaf_at p lp.
Proof using HP.
  induction p as [p IH] using (induction_ltof1 _ (subtree_size P)); unfold ltof in IH. intros n Hn Hr.
  destruct (live_heap HP _ _ Hn) as [nd Hnd]. destruct (decide (children nd = ∅)) as [Hc|Hc]; [by exists p, n, nd|].
  destruct (map_choose _ Hc) as (k & x & Hk). destruct (child_path _ _ _ _ _ _ _ HP Hn Hnd Hk) as (xd & Hxd & Hx & Hxr & _).
  destruct (IH (p ++ edge_keys xd)) with (n := x) as (lp & y & yd & ? & Hp & ?); [by eapply subtree_size_child|done|done|].
  exists lp, y, yd. split; [done|]. split; [|done]. etrans; [|done]. by eexists.
Qed.
Lemma known_lookup ks : is_Some (m !! ks) → is_Some (D !! ks).
Proof using HI HD. intros [h Hk]. rewrite HD, Hk. cbn. apply (ci_dom _ _ HI). eauto. Qed.
Lemma leaf_known p lp : leaf_at p lp → lp ≠ [] ∧ known_path D lp.
Proof using HI HD HP Hm.
  intros (x & xd & Hx & _ & Hxd & _ & Hr). assert (Hne : lp ≠ []) by (intros ->; by apply (path_nil HP) in Hx).
  split; [done|]. destruct (covers_self HP _ _ Hx Hr) as (? & ? & qp & ? & ? & _ & _ & _ & _ & _ & _ & _ & _ & Hc). destruct (covers_mapped HP _ _ _ Hc) as [b Hb]. apply Hm in Hb.
  destruct (longest_from_char D [] lp) as (_ & Hle & Hnone). fold (longest_match D lp) in *. unfold known_path.
  destruct (decide (length (longest_match D lp) < length lp)) as [Hlt|]; [|lia]. specialize (Hnone Hlt). cbn [app] in Hnone.
  assert (is_Some (D !! take (S (length (longest_match D lp))) lp)) as [d Hd]; [|congruence].
  apply known_lookup. eapply mapped_prefix; [exact HP|exact Hm|exact Hb| |apply prefix_take].
  by destruct lp.
Qed.
Lemma known_covered ks d : D !! ks = Some d → ∃ lp, leaf_at [] lp ∧ ks `prefix_of` lp.
Proof using HD HP Hm.
  rewrite HD, bind_Some. intros (h & (n & qp & nd & (Hr & nd' & Hnd & Hn & _ & Hp) & _)%Hm & _).
  destruct (leaf_below _ n Hn Hr) as (lp & x & xd & Hx & Hpre & Hrest). exists lp. split; [exists x, xd; split; [done|]; split; [apply prefix_nil|done]|].
  by etrans.
Qed.
End visit.

(** What the snapshot of a catalog says. *)
Record snapshot_of (D : page_map) (idn : string * Z) (s : RemoteCatalogSnapshot) (lps : list (list BlockKey)) : Prop := {
  so_identity : (sn_identity_digest s, sn_tp_rank s) = idn;
  so_prefixes : sn_prefixes s = leaf_record D <$> lps;
  so_paths lp : lp ∈ lps → lp ≠ [] ∧ known_path D lp;
  so_covers ks d : D !! ks = Some d → ∃ lp, lp ∈ lps ∧ ks `prefix_of` lp
}.
Lemma visit_root D c bs :
  known D c → storable bs D → ∃ lps, catalog_visit (walk_fuel (ct_index c)) root [] [] c = (inr (leaf_record D <$> lps), c) ∧
    (∀ lp, lp ∈ lps → lp ≠ [] ∧ known_path D lp) ∧ ∀ ks d, D !! ks = Some d → ∃ lp, lp ∈ lps ∧ ks `prefix_of` lp.
Proof.
  intros (m & HI & HD) HS. destruct (ci_index _ _ HI) as (P & HP & Hm).
  destruct (ri_rootnd _ _ HP) as (rd & Hrd & E1 & E2 & _).
  destruct (catalog_visit_spec D m c HI HD bs HS P HP Hm (walk_fuel (ct_index c)) root [] rd []) as (rs & Hrs & Hin).
  - rewrite E1. apply (ri_root _ _ HP).
  - done.
  - by split.
  - done.
  - pose proof (paths_size _ _ HP). pose proof (subtree_size_le P ([] ++ edge_keys rd)). unfold walk_fuel. lia.
  - rewrite E1 in Hin. cbn [app] in Hin. exists (pf_block_keys <$> rs). rewrite Hrs. split_and!.
    + do 2 f_equal. rewrite <-list_fmap_compose. symmetry. rewrite <-(list_fmap_id rs) at 2. apply list_fmap_ext.
      intros i r Hr. apply list_elem_of_lookup_2, Hin in Hr as (lp & _ & ->). done.
    + intros lp' (r & -> & (lp & Hlp & ->)%Hin)%list_elem_of_fmap. by eapply (leaf_known D m c HI HD P HP Hm).
    + intros ks d Hd. destruct (known_covered D m c HD P HP Hm ks d Hd) as (lp & Hlp & Hpre).
      exists lp. split; [|done]. apply list_elem_of_fmap. exists (leaf_record D lp). split; [done|]. apply Hin. by exists lp.
Qed.

Lemma in_lists {A} (x : A) ls : x ∈ concat ls ↔ ∃ l, l ∈ ls ∧ x ∈ l.
Proof. rewrite list_elem_of_In, in_concat. setoid_rewrite list_elem_of_In. done. Qed.

Section storable.
Context (D : page_map) (c : RemotePrefixCatalog) (HK : known D c) (bs : nat) (HS : storable bs D).

Lemma known_page ks d : D !! ks = Some d → pd_page_index d = (Z.of_nat (length ks) - 1)%Z ∧ ct_identity c = Some (page_identity d).
Proof using HK. destruct HK as (m & HI & HD). by eapply page_at. Qed.
Lemma leaf_blocks lp : known_path D lp → Forall (λ k, length k = bs) lp.
Proof using HS.
  intros Hk. destruct (decide (lp = [])) as [->|Hne]; [constructor|].
  assert (0 < length lp) as Hlt by (destruct lp; cbn; [done|lia]).
  destruct (known_path_all D lp (length lp - 1) Hk) as (d & _ & Hd); [lia|].
  rewrite take_ge in Hd by lia. destruct (proj2 HS _ _ Hd) as [_ Hall]. eapply Forall_impl; [exact Hall|by intros k [? _]].
Qed.
Lemma snapshot_valid idn s lps : snapshot_of D idn s lps → ct_identity c = Some idn → D ≠ ∅ → remote_catalog_snapshot s = inr s.
Proof using HK HS.
  intros [S1 S2 S3 S4] Hidn Hne. destruct s as [dg rank ps]. cbn in *. subst ps idn.
  destruct (map_choose _ Hne) as (ks0 & d0 & Hd0). destruct (S4 _ _ Hd0) as (lp0 & Hlp0 & _).
  destruct (known_page _ _ Hd0) as [_ Hid0]. rewrite Hidn in Hid0. injection Hid0 as Edg Erk.
  destruct (proj2 HS _ _ Hd0) as [Hv _]. unfold remote_page_descriptor in Hv. result_inv. breflect.
  unfold remote_catalog_snapshot. cbn [sn_identity_digest sn_tp_rank sn_prefixes]. rewrite Edg, Erk.
  assert (Hks : ∀ lp, lp ∈ lps → Forall (λ k, length k = bs) lp) by (intros lp Hlp; by apply leaf_blocks, S3).
  apply throw_if_bind.
  { apply orb_false_iff. split; [by apply negb_false_iff|]. by apply Z.ltb_ge. }
  apply throw_if_bind; [apply Nat.eqb_neq; rewrite length_fmap; by destruct lps; [apply not_elem_of_nil in Hlp0|]|].
  apply throw_if_bind.
  { rewrite <-list_fmap_compose. erewrite (forall_block_sizes bs); [by rewrite size_singleton| |].
    - intros E. destruct (S3 _ Hlp0) as [Hne0 _]. destruct lp0 as [|k lp0]; [done|]. apply (not_elem_of_nil k). rewrite <-E.
      apply in_lists. exists (k :: lp0). split; [|by left]. apply list_elem_of_fmap. by exists (k :: lp0).
    - apply Forall_forall. intros k (l & (lp & -> & Hlp)%list_elem_of_fmap & Hk)%in_lists. by apply (proj1 (Forall_forall _ _) (Hks lp Hlp)). }
  apply throw_if_bind; [|done].
  apply not_true_is_false. intros (page & (l & Hl & Hp)%list_elem_of_In%in_lists & Hbad)%existsb_exists.
  rewrite <-list_fmap_compose in Hl. apply list_elem_of_fmap in Hl as (lp & -> & Hlp). cbn [leaf_record pf_pages compose] in Hp.
  apply list_elem_of_fmap in Hp as (d & -> & [i Hi]%list_elem_of_lookup). apply known_path_lookup in Hi.
  destruct (known_page _ _ Hi) as [_ Hid]. rewrite Hidn in Hid. injection Hid as E1 E2. cbn in Hbad.
  rewrite <-E1, <-E2, Edg, Erk, String.eqb_refl, Z.eqb_refl in Hbad. done.
Qed.
End storable.

(** ** [merge_snapshot] *)
Section merge.
Context (D : page_map) (idn : string * Z).
Context (HD : ∀ ks d, D !! ks = Some d →
  remote_page_descriptor d = inr d ∧ pd_page_index d = (Z.of_nat (length ks) - 1)%Z ∧ page_identity d = idn).

Lemma read_descriptor_record d : remote_page_descriptor d = inr d → read_descriptor (page_record d) = inr d.
Proof using Type. by destruct d. Qed.
Lemma leaf_path_valid lp : lp ≠ [] → known_path D lp → valid_path idn lp (longest_match D lp).
Proof using HD.
  intros Hne Hk. split_and!; [done|done|]. intros i d Hi. pose proof (lookup_lt_Some _ _ _ Hi) as Hlt. rewrite Hk in Hlt.
  apply known_path_lookup in Hi. destruct (HD _ _ Hi) as (_ & -> & ->). rewrite length_take. split; [lia|done].
Qed.
(** The catalog [c] knows part of [D], at least the paths [lps]. *)
Definition merged (lps : list (list BlockKey)) (c : RemotePrefixCatalog) : Prop :=
  ∃ D', known D' c ∧ D' ⊆ D ∧ (∀ i, ct_identity c = Some i → i = idn) ∧
    ∀ lp i, lp ∈ lps → i < length lp → is_Some (D' !! take (S i) lp).
Lemma merge_one lps lp c :
  merged lps c → lp ≠ [] → known_path D lp →
  ∃ c', (ds ← lift (mapR read_descriptor (pf_pages (leaf_record D lp))); register (pf_block_keys (leaf_record D lp)) ds) c = (inr tt, c') ∧
    merged (lps ++ [lp]) c'.
Proof using HD.
  intros (D' & HK & Hsub & Hidn & Hall) Hne Hk. destruct HK as (m & HI & HDm).
  destruct (register_spec D' m c HI HDm idn lp (longest_match D lp)) as (c' & Hrun & HK' & Hid'); [by apply leaf_path_valid|done|].
  exists c'. split.
  - cbn [leaf_record pf_pages pf_block_keys]. rewrite (mapR_map read_descriptor page_record).
    { unfold lift, mbind, M_bind. exact Hrun. }
    apply Forall_forall. intros d [i Hi]%list_elem_of_lookup. apply read_descriptor_record.
    by destruct (HD _ _ (known_path_lookup _ _ _ _ Hi)).
  - exists (D' ∪ path_map lp (longest_match D lp)). split; [done|]. split_and!.
    + apply map_subseteq_spec. intros ks d [Hd|[_ Hd]]%lookup_union_Some_raw; [by eapply lookup_weaken|].
      apply lookup_path_map in Hd as (i & Hi & ->); [|done]. by apply known_path_lookup.
    + intros i. rewrite Hid'. by intros [= <-].
    + intros lp' i [Hin|E%list_elem_of_singleton]%elem_of_app Hi; [|subst lp'].
      * destruct (Hall lp' i Hin Hi) as [d Hd]. exists d. by apply lookup_union_Some_raw; left.
      * destruct (D' !! take (S i) lp) as [d|] eqn:Ed; [exists d; by apply lookup_union_Some_raw; left|].
        destruct (known_path_all D lp i Hk Hi) as (d & Hd & _). exists d. apply lookup_union_Some_raw. right. split; [done|].
        apply lookup_path_map; [done|]. by exists i.
Qed.
Lemma merge_all todo : ∀ lps c,
  merged lps c → (∀ lp, lp ∈ todo → lp ≠ [] ∧ known_path D lp) →
  ∃ c', forM (leaf_record D <$> todo) (λ p, ds ← lift (mapR read_descriptor (pf_pages p)); register (pf_block_keys p) ds) c = (inr tt, c') ∧
    merged (lps ++ todo) c'.
Proof using HD.
  induction todo as [|lp todo IH]; intros lps c HM Hall; [exists c; rewrite app_nil_r; done|].
  destruct (Hall lp) as [Hne Hk]; [by left|]. destruct (merge_one lps lp c HM Hne Hk) as (c1 & Hrun1 & HM1).
  destruct (IH (lps ++ [lp]) c1 HM1) as (c' & Hrun & HM'); [intros lp' ?; apply Hall; by right|].
  exists c'. rewrite <-app_assoc in HM'. split; [|exact HM'].
  rewrite fmap_cons. cbn [forM]. unfold mbind at 1, M_bind at 1. by rewrite Hrun1, Hrun.
Qed.
Lemma merged_everything lps c :
  merged lps c → (∀ ks d, D !! ks = Some d → ∃ lp, lp ∈ lps ∧ ks `prefix_of` lp) → known D c.
Proof using HD.
  intros (D' & HK & Hsub & Hidn & Hall) Hcov. assert (D' = D) as <-; [|done].
  apply (anti_symm (⊆)); [done|]. apply map_subseteq_spec. intros ks d Hd. destruct (Hcov _ _ Hd) as (lp & Hlp & Hpre).
  assert (Hpos : 0 < length ks).
  { destruct (HD _ _ Hd) as (Hv & Hp & _). unfold remote_page_descriptor in Hv. result_inv. breflect. lia. }
  pose proof (prefix_of_take _ _ Hpre) as Eks. destruct (Hall lp (length ks - 1) Hlp) as [d' Hd']; [apply prefix_length in Hpre; lia|].
  replace (S (length ks - 1)) with (length ks) in Hd' by lia. rewrite <-Eks in Hd'.
  pose proof (lookup_weaken _ _ _ _ Hd' Hsub). congruence.
Qed.
End merge.

(** C22: a catalog that is not empty can be written as a snapshot that passes the checks of
    its constructors, is unchanged by that, and an empty catalog that merges the snapshot knows
    exactly the same pages of the same prefixes. *)
Theorem catalog_persists D c bs :
  known D c → storable bs D → D ≠ ∅ →
  ∃ s n c', catalog_snapshot c = (inr (Some s), c) ∧ remote_catalog_snapshot s = inr s ∧
    merge_snapshot s catalog_init = (inr n, c') ∧ known D c' ∧ ct_identity c' = ct_identity c.
Proof.
  intros HK HS Hne. destruct (map_choose _ Hne) as (ks0 & d0 & Hd0). destruct (known_page D c HK _ _ Hd0) as [_ Hid].
  destruct (visit_root D c bs HK HS) as (lps & Hrun & Hlps & Hcov). set (idn := page_identity d0) in *.
  set (s := mkSnapshot idn.1 idn.2 (leaf_record D <$> lps)).
  assert (Hs : snapshot_of D idn s lps) by by split.
  pose proof (snapshot_valid D c HK bs HS idn s lps Hs Hid Hne) as Hvalid.
  assert (HDall : ∀ ks d, D !! ks = Some d → remote_page_descriptor d = inr d ∧ pd_page_index d = (Z.of_nat (length ks) - 1)%Z ∧ page_identity d = idn).
  { intros ks d Hd. destruct (proj2 HS _ _ Hd) as [Hv _]. destruct (known_page D c HK _ _ Hd) as [Hp Hi].
    split_and!; [done..|]. congruence. }
  destruct (merge_all D idn HDall lps [] catalog_init) as (c' & Hm & HM).
  { exists ∅. split_and!; [apply known_init|apply map_empty_subseteq|done|by intros lp i ?%not_elem_of_nil]. }
  { exact Hlps. }
  pose proof (merged_everything D idn HDall lps c' HM Hcov) as HK'.
  exists s, (length lps), c'. split_and!; [|done| |done|].
  - unfold catalog_snapshot, mbind at 1, M_bind at 1, getS. rewrite Hid. destruct idn as [dg rank] eqn:Ei. unfold mbind, M_bind.
    rewrite Hrun. cbn [fst snd] in *. unfold lift. fold s. by rewrite Hvalid.
  - unfold merge_snapshot, mbind at 1, M_bind at 1, getS. cbn [catalog_init ct_identity raise_if]. unfold mbind, M_bind, mret, M_ret.
    cbn [raise_if]. change (sn_prefixes s) with (leaf_record D <$> lps). unfold mbind, M_bind in Hm. cbn [raise_if mret M_ret]. rewrite Hm. by rewrite length_fmap.
  - rewrite Hid. by destruct (known_page D c' HK' _ _ Hd0) as [_ ->].
Qed.
