(* ===== verification/TransferCoordinator.v ===== *)
(** * The transfer coordinator

    Models [nanovllm/engine/transfer_coordinator.py]. The event loop runs one
    coroutine at a time up to its next [await]; the lock is only held between two
    awaits, so taking it never suspends, and each stretch between awaits is one
    event here. The tasks are the list of all tasks created, a task's identity
    being its position; a call to [get], [put] or [evict] stays in the list of
    calls. An interleaving of the program is a sequence of events, each enabled
    where the code could run it. *)
From S2P Require Import Prelude Json StorageBackend.
Set Default Goal Selector "!".

(** ** State *)
Inductive KVTransferState := ABSENT | FETCHING | RESIDENT | WRITING | EVICTING | FAILED.
#[export] Instance KVTransferState_eq_dec : EqDecision KVTransferState.
Proof. solve_decision. Defined.
Definition state_value (st : KVTransferState) : string :=
  match st with
  | ABSENT => "absent" | FETCHING => "fetching" | RESIDENT => "resident"
  | WRITING => "writing" | EVICTING => "evicting" | FAILED => "failed"
  end.

Record KVTransferSnapshot := mkTransferSnapshot {
  ts_key : string;
  ts_state : KVTransferState;
  ts_generation : nat;
  ts_has_payload : bool;
  ts_waiters : nat;
  ts_error : option string
}.

Record KVTransferMetrics := mkTransferMetrics {
  backend_gets : nat;
  backend_get_bytes : nat;
  coalesced_gets : nat;
  backend_puts : nat;
  backend_put_bytes : nat;
  backend_removes : nat;
  cancelled_waiters : nat;
  failures : nat
}.
#[export] Instance KVTransferMetrics_eta : RecordEta KVTransferMetrics := λ r,
  {| backend_gets := backend_gets r; backend_get_bytes := backend_get_bytes r;
     coalesced_gets := coalesced_gets r; backend_puts := backend_puts r;
     backend_put_bytes := backend_put_bytes r; backend_removes := backend_removes r;
     cancelled_waiters := cancelled_waiters r; failures := failures r |}.
#[export] Instance set_backend_gets : Setter backend_gets := ltac:(derive_setter).
#[export] Instance set_backend_get_bytes : Setter backend_get_bytes := ltac:(derive_setter).
#[export] Instance set_coalesced_gets : Setter coalesced_gets := ltac:(derive_setter).
#[export] Instance set_backend_puts : Setter backend_puts := ltac:(derive_setter).
#[export] Instance set_backend_put_bytes : Setter backend_put_bytes := ltac:(derive_setter).
#[export] Instance set_backend_removes : Setter backend_removes := ltac:(derive_setter).
#[export] Instance set_cancelled_waiters : Setter cancelled_waiters := ltac:(derive_setter).
#[export] Instance set_failures : Setter failures := ltac:(derive_setter).
(** [KVTransferMetrics.to_dict] *)
Definition metrics_to_dict (m : KVTransferMetrics) : list (string * nat) :=
  [("backend_gets", backend_gets m); ("backend_get_bytes", backend_get_bytes m);
   ("coalesced_gets", coalesced_gets m); ("backend_puts", backend_puts m);
   ("backend_put_bytes", backend_put_bytes m); ("backend_removes", backend_removes m);
   ("cancelled_waiters", cancelled_waiters m); ("failures", failures m)].

(** [_Entry]; tasks are positions in the list of tasks. *)
Record Entry := mkEntry {
  en_state : KVTransferState;
  en_generation : nat;
  en_payload : option bytes;
  en_task : option nat;
  en_io_tail : option nat;
  en_waiters : nat;
  en_error : option string
}.
Definition entry_init : Entry := mkEntry ABSENT 0 None None None 0 None.
#[export] Instance Entry_eta : RecordEta Entry := λ r,
  {| en_state := en_state r; en_generation := en_generation r; en_payload := en_payload r;
     en_task := en_task r; en_io_tail := en_io_tail r; en_waiters := en_waiters r; en_error := en_error r |}.
#[export] Instance set_en_state : Setter en_state := ltac:(derive_setter).
#[export] Instance set_en_generation : Setter en_generation := ltac:(derive_setter).
#[export] Instance set_en_payload : Setter en_payload := ltac:(derive_setter).
#[export] Instance set_en_task : Setter en_task := ltac:(derive_setter).
#[export] Instance set_en_io_tail : Setter en_io_tail := ltac:(derive_setter).
#[export] Instance set_en_waiters : Setter en_waiters := ltac:(derive_setter).
#[export] Instance set_en_error : Setter en_error := ltac:(derive_setter).

(** The three coroutines that run as tasks, and where a task stands: waiting for
    its predecessor, with its I/O handed to a thread, with the outcome of the I/O
    to be processed, done. *)
Inductive Coroutine := Fetch | Put (payload : bytes) (overwrite : bool) | Evict.
Inductive TaskStage :=
| Waiting
| InThread
| IoDone (r : result (option bytes))
| Done (r : result (option bytes)).
Record Task := mkTask {
  tk_key : string;
  tk_run : Coroutine;
  tk_generation : nat;
  tk_previous : option nat;
  tk_stage : TaskStage
}.
#[export] Instance Task_eta : RecordEta Task := λ r,
  {| tk_key := tk_key r; tk_run := tk_run r; tk_generation := tk_generation r;
     tk_previous := tk_previous r; tk_stage := tk_stage r |}.
#[export] Instance set_tk_stage : Setter tk_stage := ltac:(derive_setter).

(** A call: blocked on a task, returned (or raised), or cancelled. [joined] and
    [retry] are the two locals of [get]. *)
Inductive Op := OpGet (key : string) | OpPut (key : string) (payload : bytes) (overwrite : bool) | OpEvict (key : string).
Definition op_key (o : Op) : string := match o with OpGet k | OpPut k _ _ | OpEvict k => k end.
Inductive CallStage :=
| Blocked (t : nat) (joined retry : bool)
| Returned (r : result (option bytes))
| Cancelled.
Record Call := mkCall { cl_op : Op; cl_stage : CallStage }.

Inductive ClosePhase := Open | Closing | Closed.

Record Coordinator (B : Type) := mkCoordinator {
  tc_backend : B;
  tc_entries : gmap string Entry;
  tc_metrics : KVTransferMetrics;
  tc_phase : ClosePhase;
  tc_tasks : list Task;
  tc_calls : list Call
}.
Arguments mkCoordinator {B}.
Arguments tc_backend {B}.
Arguments tc_entries {B}.
Arguments tc_metrics {B}.
Arguments tc_phase {B}.
Arguments tc_tasks {B}.
Arguments tc_calls {B}.
#[export] Instance Coordinator_eta {B} : RecordEta (Coordinator B) := λ r,
  {| tc_backend := tc_backend r; tc_entries := tc_entries r; tc_metrics := tc_metrics r;
     tc_phase := tc_phase r; tc_tasks := tc_tasks r; tc_calls := tc_calls r |}.
#[export] Instance set_tc_backend {B} : Setter (@tc_backend B) := ltac:(derive_setter).
#[export] Instance set_tc_entries {B} : Setter (@tc_entries B) := ltac:(derive_setter).
#[export] Instance set_tc_metrics {B} : Setter (@tc_metrics B) := ltac:(derive_setter).
#[export] Instance set_tc_phase {B} : Setter (@tc_phase B) := ltac:(derive_setter).
#[export] Instance set_tc_tasks {B} : Setter (@tc_tasks B) := ltac:(derive_setter).
#[export] Instance set_tc_calls {B} : Setter (@tc_calls B) := ltac:(derive_setter).

Section coordinator.
Context {B : Type} `{KVStorageBackend B}.
Abbreviation MC := (M (Coordinator B)).

(** [AsyncKVTransferCoordinator.__init__] *)
Definition coordinator_init (backend : B) : Coordinator B :=
  mkCoordinator backend ∅ (mkTransferMetrics 0 0 0 0 0 0 0 0) Open [] [].

(** ** Shared steps *)
(** [self._entries.setdefault(key, _Entry())] *)
Definition get_entry (key : string) : MC Entry :=
  s ← getS; mret (default entry_init (tc_entries s !! key)).
Definition set_entry (key : string) (e : Entry) : MC () :=
  modifyS (λ s : Coordinator B, s <| tc_entries := <[key := e]> (tc_entries s) |>).
Definition count (f : KVTransferMetrics → KVTransferMetrics) : MC () :=
  modifyS (λ s : Coordinator B, s <| tc_metrics := f (tc_metrics s) |>).
(** [asyncio.create_task] *)
Definition create_task (tk : Task) : MC nat :=
  s ← getS; putS (s <| tc_tasks := tc_tasks s ++ [tk] |>);; mret (length (tc_tasks s)).
Definition set_stage (t : nat) (stage : TaskStage) : MC () :=
  modifyS (λ s : Coordinator B, s <| tc_tasks := alter (λ tk, tk <| tk_stage := stage |>) t (tc_tasks s) |>).

(** The common part of [get], [put] and [evict]: a new generation, whose task runs
    after the last one of the key. *)
Definition start_task (key : string) (state : KVTransferState) (run : Coroutine) : MC nat :=
  entry ← get_entry key;
  let entry := entry <| en_generation := S (en_generation entry) |> <| en_state := state |>
                     <| en_payload := None |> <| en_error := None |> in
  t ← create_task (mkTask key run (en_generation entry) (en_io_tail entry) Waiting);
  set_entry key (entry <| en_task := Some t |> <| en_io_tail := Some t |>);;
  mret t.

(** [_ensure_open] and the check of the key *)
Definition ensure_open : MC () :=
  s ← getS;
  raise_if (match tc_phase s with Open => false | _ => true end)
    (RuntimeError "KV transfer coordinator is closed").
Definition check_key (key : string) : MC () :=
  raise_if (negb (nonempty key)) (ValueError "key must not be empty").

(** ** The coroutines *)
(** The backend call of a task, in its thread. *)
Definition backend_io (tk : Task) : M B (option bytes) :=
  match tk_run tk with
  | Fetch => st_get (tk_key tk)
  | Put payload overwrite =>
      (if overwrite then st_upsert (tk_key tk) payload else st_put (tk_key tk) payload);; mret (Some payload)
  | Evict => st_remove (tk_key tk);; mret None
  end.
(** [_finish_success] *)
Definition finish_success (key : string) (generation : nat) (state : KVTransferState)
    (payload : option bytes) : MC bool :=
  s ← getS;
  entry ← of_option (KeyError key) (tc_entries s !! key);
  if negb (en_generation entry =? generation) then mret false
  else
    set_entry key (entry <| en_state := state |> <| en_payload := payload |> <| en_task := None |>
                         <| en_error := None |>);;
    mret true.
(** [_finish_failure] *)
Definition finish_failure (key : string) (generation : nat) (exc : exn) : MC () :=
  s ← getS;
  entry ← of_option (KeyError key) (tc_entries s !! key);
  (if en_generation entry =? generation
   then set_entry key (entry <| en_state := FAILED |> <| en_payload := None |> <| en_task := None |>
                             <| en_error := Some (exn_str exc) |>)
   else mret tt);;
  count (λ m, m <| failures := S (failures m) |>).
Definition size_of (p : option bytes) : nat := match p with Some l => length l | None => 0 end.
(** What [_fetch], [_put] and [_evict] do once the thread is done. *)
Definition after_io (tk : Task) (r : result (option bytes)) : MC (option bytes) :=
  match r with
  | inl exc => finish_failure (tk_key tk) (tk_generation tk) exc;; raise exc
  | inr payload =>
      match tk_run tk with
      | Fetch => count (λ m, m <| backend_get_bytes := backend_get_bytes m + size_of payload |>)
      | Put _ _ => count (λ m, m <| backend_put_bytes := backend_put_bytes m + size_of payload |>)
      | Evict => mret tt
      end;;
      let state := match payload with Some _ => RESIDENT | None => ABSENT end in
      current ← finish_success (tk_key tk) (tk_generation tk) state payload;
      mret (if current : bool then payload else None)
  end.

(** ** The calls *)
(** One turn of the loop of [get], up to its [await]. *)
Definition get_attempt (key : string) : MC CallStage :=
  entry ← get_entry key;
  match en_state entry with
  | RESIDENT => mret (Returned (inr (en_payload entry)))
  | FETCHING | WRITING | EVICTING =>
      match en_task entry with
      | None => raise (RuntimeError (state_value (en_state entry) +:+ " entry is missing its I/O task"))
      | Some t =>
          set_entry key (entry <| en_waiters := S (en_waiters entry) |>);;
          count (λ m, m <| coalesced_gets := S (coalesced_gets m) |>);;
          mret (Blocked t true (bool_decide (en_state entry = EVICTING)))
      end
  | ABSENT | FAILED =>
      t ← start_task key FETCHING Fetch;
      count (λ m, m <| backend_gets := S (backend_gets m) |>);;
      mret (Blocked t false false)
  end.
Definition put_attempt (key : string) (payload : bytes) (overwrite : bool) : MC CallStage :=
  t ← start_task key WRITING (Put payload overwrite);
  count (λ m, m <| backend_puts := S (backend_puts m) |>);;
  mret (Blocked t false false).
Definition evict_attempt (key : string) : MC CallStage :=
  t ← start_task key EVICTING Evict;
  count (λ m, m <| backend_removes := S (backend_removes m) |>);;
  mret (Blocked t false false).
(** An exception ends the call. *)
Definition returning (m : MC CallStage) : MC CallStage := try_except m (λ e, mret (Returned (inl e))).

(** [get], [put], [evict] up to their first [await]. *)
Definition begin_call (o : Op) : MC () :=
  stage ← returning (
    ensure_open;; check_key (op_key o);;
    match o with
    | OpGet key => get_attempt key
    | OpPut key payload overwrite => put_attempt key payload overwrite
    | OpEvict key => evict_attempt key
    end);
  modifyS (λ s : Coordinator B, s <| tc_calls := tc_calls s ++ [mkCall o stage] |>).
Definition set_call (c : nat) (stage : CallStage) : MC () :=
  modifyS (λ s : Coordinator B, s <| tc_calls := alter (λ cl, mkCall (cl_op cl) stage) c (tc_calls s) |>).
(** The [finally] clause of [get]. *)
Definition leave (key : string) (joined : bool) : MC () :=
  if joined then
    s ← getS;
    entry ← of_option (KeyError key) (tc_entries s !! key);
    set_entry key (entry <| en_waiters := en_waiters entry - 1 |>)
  else mret tt.
(** A call resumes when the task it awaits is done. *)
Definition resume_call (c : nat) (o : Op) (r : result (option bytes)) (joined retry : bool) : MC () :=
  stage ← returning (
    leave (op_key o) joined;;
    match r with
    | inl e => raise e
    | inr v =>
        if retry then get_attempt (op_key o)
        else mret (Returned (inr (match o with OpGet _ => v | _ => None end)))
    end);
  set_call c stage.
(** A caller gives up: the shielded task goes on. *)
Definition cancel_call (c : nat) (o : Op) (joined : bool) : MC () :=
  (match o with
   | OpGet _ => count (λ m, m <| cancelled_waiters := S (cancelled_waiters m) |>)
   | _ => mret tt
   end);;
  leave (op_key o) joined;;
  set_call c Cancelled.

(** ** [snapshot], [metrics], [wait_idle], [close] *)
Definition snapshot (key : string) (s : Coordinator B) : KVTransferSnapshot :=
  let entry := default entry_init (tc_entries s !! key) in
  mkTransferSnapshot key (en_state entry) (en_generation entry)
    (match en_payload entry with Some _ => true | None => false end) (en_waiters entry) (en_error entry).
Definition is_done (t : nat) (s : Coordinator B) : bool :=
  match tc_tasks s !! t with Some tk => match tk_stage tk with Done _ => true | _ => false end | None => false end.
(** The tasks [wait_idle] gathers. *)
Definition pending_tails (s : Coordinator B) : list nat :=
  filter (λ t, is_done t s = false) (omap (λ ke : string * Entry, en_io_tail ke.2) (map_to_list (tc_entries s))).

(** ** Events *)
Inductive event :=
| ECall (o : Op)
| EStart (t : nat)
| EIo (t : nat)
| EFinish (t : nat)
| EResume (c : nat)
| ECancel (c : nat)
| EClose
| ECloseBackend.

Definition run_state {A} (m : MC A) (s : Coordinator B) : Coordinator B := (m s).2.
Definition previous_done (tk : Task) (s : Coordinator B) : bool :=
  match tk_previous tk with None => true | Some p => is_done p s end.
(** One event; [None] where the code cannot run it. *)
Definition step (e : event) (s : Coordinator B) : option (Coordinator B) :=
  match e with
  | ECall o => Some (run_state (begin_call o) s)
  | EStart t =>
      tk ← tc_tasks s !! t;
      match tk_stage tk with
      | Waiting => if previous_done tk s then Some (run_state (set_stage t InThread) s) else None
      | _ => None
      end
  | EIo t =>
      tk ← tc_tasks s !! t;
      match tk_stage tk with
      | InThread =>
          let '(r, b) := backend_io tk (tc_backend s) in
          Some (run_state (set_stage t (IoDone r)) (s <| tc_backend := b |>))
      | _ => None
      end
  | EFinish t =>
      tk ← tc_tasks s !! t;
      match tk_stage tk with
      | IoDone r => let '(r', s') := after_io tk r s in Some (run_state (set_stage t (Done r')) s')
      | _ => None
      end
  | EResume c =>
      cl ← tc_calls s !! c;
      match cl_stage cl with
      | Blocked t joined retry =>
          tk ← tc_tasks s !! t;
          match tk_stage tk with
          | Done r => Some (run_state (resume_call c (cl_op cl) r joined retry) s)
          | _ => None
          end
      | _ => None
      end
  | ECancel c =>
      cl ← tc_calls s !! c;
      match cl_stage cl with
      | Blocked _ joined _ => Some (run_state (cancel_call c (cl_op cl) joined) s)
      | _ => None
      end
  | EClose => Some (s <| tc_phase := match tc_phase s with Open => Closing | p => p end |>)
  | ECloseBackend =>
      match tc_phase s, pending_tails s with
      | Closing, [] => Some (s <| tc_backend := (st_close (tc_backend s)).2 |> <| tc_phase := Closed |>)
      | _, _ => None
      end
  end.
Fixpoint run (es : list event) (s : Coordinator B) : option (Coordinator B) :=
  match es with
  | [] => Some s
  | e :: es => s' ← step e s; run es s'
  end.
Inductive reachable (backend : B) : Coordinator B → Prop :=
| reach_init : reachable backend (coordinator_init backend)
| reach_step e s s' : reachable backend s → step e s = Some s' → reachable backend s'.
End coordinator.
