(* ===== verification/TransferSpec.v ===== *)
(** * The transfer coordinator: invariants of every interleaving

    What holds in every state [TransferCoordinator.v] can reach: one task in
    flight per key, in the order of the calls; a busy entry has its task; a
    resident entry holds what the backend holds, up to a plain put on a store that
    keeps existing objects. *)
From S2P Require Import Prelude Json StorageBackend TransferCoordinator.
Set Default Goal Selector "!".

Section spec.
Context {B : Type} `{LawfulBackend B}.
Implicit Types (s : Coordinator B) (e : Entry) (tk : Task).

(** ** The invariant *)
Definition stage_done (st : TaskStage) : bool := match st with Done _ => true | _ => false end.
Definition busy (r : Coroutine) : KVTransferState :=
  match r with Fetch => FETCHING | Put _ _ => WRITING | Evict => EVICTING end.
(** What an entry holds once its last task is done. *)
Definition settled e (r : result (option bytes)) : Prop :=
  match r with
  | inl _ => en_state e = FAILED ∧ en_payload e = None
  | inr (Some p) => en_state e = RESIDENT ∧ en_payload e = Some p
  | inr None => en_state e = ABSENT ∧ en_payload e = None
  end.
(** What the store then holds for the key: the outcome of the task, except that a
    store that does not overwrite may have kept an older object under a plain put. *)
Definition backed (run : Coroutine) (k : string) (r : option bytes) (m : gmap string bytes) : Prop :=
  m !! k = r ∨
  put_overwrites (B := B) = false ∧ is_Some (m !! k) ∧ ∃ p, r = Some p ∧ run = Put p false.
Definition io_outcome (st : TaskStage) : option (option bytes) :=
  match st with IoDone (inr r) | Done (inr r) => Some r | _ => None end.

Definition tail_inv s (k : string) e (t : nat) : Prop :=
  ∃ tk, tc_tasks s !! t = Some tk ∧ tk_key tk = k ∧ tk_generation tk = en_generation e ∧
    match tk_stage tk with
    | Done r => en_task e = None ∧ settled e r
    | _ => en_task e = Some t ∧ en_state e = busy (tk_run tk) ∧ en_payload e = None
    end ∧
    (∀ r, io_outcome (tk_stage tk) = Some r → tc_phase s ≠ Closed → backed (tk_run tk) k r (view (tc_backend s))).
Definition entry_inv s (k : string) e : Prop :=
  match en_io_tail e with
  | None => en_generation e = 0 ∧ en_state e = ABSENT ∧ en_task e = None ∧ en_payload e = None
  | Some t => tail_inv s k e t
  end.
Definition prev_inv s (i : nat) tk : Prop :=
  match tk_previous tk with
  | None => tk_generation tk = 1
  | Some p => ∃ tp, tc_tasks s !! p = Some tp ∧ tk_key tp = tk_key tk ∧ tk_generation tk = S (tk_generation tp)
  end.
Definition task_inv s (i : nat) tk : Prop :=
  1 <= tk_generation tk ∧ prev_inv s i tk ∧
  (∃ e, tc_entries s !! tk_key tk = Some e ∧ tk_generation tk <= en_generation e ∧
        (tk_generation tk = en_generation e → en_io_tail e = Some i)) ∧
  (tk_stage tk ≠ Waiting → previous_done tk s = true).
Record co_inv s : Prop := {
  ci_entry k e : tc_entries s !! k = Some e → entry_inv s k e;
  ci_task i tk : tc_tasks s !! i = Some tk → task_inv s i tk;
  ci_order i j ti tj : i < j → tc_tasks s !! i = Some ti → tc_tasks s !! j = Some tj →
    tk_key ti = tk_key tj → tk_generation ti < tk_generation tj
}.

Lemma coordinator_init_inv b : co_inv (coordinator_init b).
Proof. split; cbn; try done. Qed.

(** Only the backend, the entries, the tasks and the phase matter. *)
Definition same_core s s' : Prop :=
  tc_backend s' = tc_backend s ∧ tc_entries s' = tc_entries s ∧ tc_tasks s' = tc_tasks s ∧ tc_phase s' = tc_phase s.
Lemma co_inv_core s s' : same_core s s' → co_inv s → co_inv s'.
Proof.
  destruct s, s'. unfold same_core. cbn. intros (-> & -> & -> & ->) [H1 H2 H3]. split; [exact H1|exact H2|exact H3].
Qed.

(** A task is behind another of its key exactly when its generation is. *)
Lemma generation_order s i j ti tj :
  co_inv s → tc_tasks s !! i = Some ti → tc_tasks s !! j = Some tj → tk_key ti = tk_key tj →
  tk_generation ti < tk_generation tj → i < j.
Proof.
  intros HI Hi Hj Hk Hg. destruct (decide (i < j)) as [|Hn]; [done|].
  destruct (decide (i = j)) as [->|Hne]; [simplify_eq; lia|].
  pose proof (ci_order _ HI j i tj ti ltac:(lia) Hj Hi (eq_sym Hk)). lia.
Qed.
Lemma is_done_true s t : is_done t s = true ↔ ∃ tk r, tc_tasks s !! t = Some tk ∧ tk_stage tk = Done r.
Proof.
  unfold is_done. split.
  - destruct (tc_tasks s !! t) as [tk|]; [|done]. destruct (tk_stage tk) eqn:E; try done. eauto.
  - by intros (tk & r & -> & ->).
Qed.

(** A task that has begun finds all the earlier ones of its key done. *)
Lemma begun_alone s i j ti tj :
  co_inv s → i < j → tc_tasks s !! i = Some ti → tc_tasks s !! j = Some tj → tk_key ti = tk_key tj →
  tk_stage tj ≠ Waiting → is_done i s = true.
Proof.
  intros HI. revert tj. induction (lt_wf j) as [j _ IH]. intros tj Hij Hi Hj Hk Hst.
  destruct (ci_task _ HI j tj Hj) as (Hg1 & Hp & _ & Hdone). specialize (Hdone Hst).
  pose proof (ci_order _ HI i j ti tj Hij Hi Hj Hk) as Hlt.
  destruct (ci_task _ HI i ti Hi) as (Hgi & _). unfold prev_inv, previous_done in *.
  destruct (tk_previous tj) as [p|]; [|lia]. destruct Hp as (tp & Htp & Hkp & Hgp).
  destruct (decide (i = p)) as [->|Hne]; [done|].
  assert (Hpj : p < j) by (apply (generation_order s p j tp tj); [done..|lia]).
  assert (Hip : i < p).
  { destruct (decide (i < p)) as [|Hn]; [done|].
    pose proof (ci_order _ HI p i tp ti ltac:(lia) Htp Hi ltac:(congruence)). lia. }
  destruct (proj1 (is_done_true s p) Hdone) as (tp' & r & Htp' & Hr). rewrite Htp in Htp'. injection Htp' as <-.
  apply (IH p Hpj tp); [done..|congruence|]. by rewrite Hr.
Qed.

(** ** Submitting a task *)
Lemma default_entry_inv s k : co_inv s → entry_inv s k (default entry_init (tc_entries s !! k)).
Proof. intros HI. destruct (tc_entries s !! k) eqn:E; cbn; [by apply (ci_entry _ HI)|done]. Qed.
Lemma task_entry s i tk : co_inv s → tc_tasks s !! i = Some tk →
  ∃ e, tc_entries s !! tk_key tk = Some e ∧ tk_generation tk <= en_generation e ∧
       (tk_generation tk = en_generation e → en_io_tail e = Some i).
Proof. intros HI Hi. by destruct (ci_task _ HI i tk Hi) as (_ & _ & He & _). Qed.

Definition submitted (key : string) (state : KVTransferState) (run : Coroutine) s : Coordinator B :=
  let e := default entry_init (tc_entries s !! key) in
  let t := length (tc_tasks s) in
  s <| tc_tasks := tc_tasks s ++ [mkTask key run (S (en_generation e)) (en_io_tail e) Waiting] |>
    <| tc_entries := <[key := mkEntry state (S (en_generation e)) None (Some t) (Some t) (en_waiters e) None]> (tc_entries s) |>.
Lemma start_task_run key state run s :
  start_task key state run s = (inr (length (tc_tasks s)), submitted key state run s).
Proof. reflexivity. Qed.
Lemma task_submitted key state run s i tk :
  tc_tasks s !! i = Some tk → tc_tasks (submitted key state run s) !! i = Some tk.
Proof. intros Hi. cbn. by apply lookup_app_l_Some. Qed.
Lemma done_submitted key state run s t : is_done t s = true → is_done t (submitted key state run s) = true.
Proof.
  intros (tk & r & Ht & Hr)%is_done_true. apply is_done_true. exists tk, r. split; [by apply task_submitted|done].
Qed.
Lemma new_task_cases key state run s i tk :
  tc_tasks (submitted key state run s) !! i = Some tk →
  tc_tasks s !! i = Some tk ∨
  i = length (tc_tasks s) ∧
  tk = mkTask key run (S (en_generation (default entry_init (tc_entries s !! key))))
         (en_io_tail (default entry_init (tc_entries s !! key))) Waiting.
Proof. cbn. intros [Hi|[Hi Hl]]%lookup_snoc_Some; [left; tauto|right; by split]. Qed.

Lemma submitted_inv key run s : co_inv s → co_inv (submitted key (busy run) run s).
Proof.
  intros HI. set (s' := submitted key (busy run) run s). pose proof (default_entry_inv s key HI) as He.
  set (e := default entry_init (tc_entries s !! key)) in *.
  assert (Hgen : ∀ i tk, tc_tasks s !! i = Some tk → tk_key tk = key → tk_generation tk <= en_generation e).
  { intros i tk Hi Hk. destruct (task_entry s i tk HI Hi) as (e1 & He1 & Hle & _). subst key e. by rewrite He1. }
  split.
  - intros k e' Hk. cbn in Hk. apply lookup_insert_Some in Hk as [[<- <-]|[Hne Hk]].
    + unfold entry_inv. cbn. eexists. split; [by apply list_lookup_middle|]. cbn. split_and!; done.
    + pose proof (ci_entry _ HI k e' Hk) as Hold. unfold entry_inv in *. destruct (en_io_tail e') as [t|]; [|done].
      destruct Hold as (tk & Ht & Hrest). exists tk. split; [by apply task_submitted|exact Hrest].
  - intros i tk Hi. destruct (new_task_cases _ _ _ _ _ _ Hi) as [Hold|[-> ->]].
    + destruct (ci_task _ HI i tk Hold) as (H1 & H2 & (e1 & He1 & Hle & Heq) & H4). split_and!; [done|..].
      * unfold prev_inv in *. destruct (tk_previous tk) as [p|]; [|done]. destruct H2 as (tp & Htp & ?).
        exists tp. split; [by apply task_submitted|done].
      * cbn. destruct (decide (tk_key tk = key)) as [E|Hne].
        -- rewrite E, lookup_insert_eq. eexists. split; [done|]. cbn. specialize (Hgen i tk Hold E).
           fold e. split; lia.
        -- rewrite lookup_insert_ne by done. eauto.
      * intros Hst. specialize (H4 Hst). unfold previous_done in *. destruct (tk_previous tk); [by apply done_submitted|done].
    + split_and!; cbn; [lia|..].
      * unfold prev_inv. cbn. fold e. unfold entry_inv in He. destruct (en_io_tail e) as [p|]; [|destruct He; lia].
        destruct He as (tp & Htp & Hk & Hg & _). exists tp. split_and!; [by apply lookup_app_l_Some|done|lia].
      * rewrite lookup_insert_eq. eexists. split; [done|]. cbn. fold e. split; [lia|done].
      * done.
  - intros i j ti tj Hij Hi Hj Hk.
    destruct (new_task_cases _ _ _ _ _ _ Hi) as [Hi'|[-> ->]]; destruct (new_task_cases _ _ _ _ _ _ Hj) as [Hj'|[-> ->]].
    + by apply (ci_order _ HI i j).
    + cbn in *. fold e. specialize (Hgen i ti Hi' Hk). lia.
    + apply lookup_lt_Some in Hj'. lia.
    + lia.
Qed.

(** ** Advancing a task *)
Definition entry_shape e : nat * option nat := (en_generation e, en_io_tail e).
Definition staged (t : nat) (stage : TaskStage) s : Coordinator B :=
  s <| tc_tasks := alter (λ tk, tk <| tk_stage := stage |>) t (tc_tasks s) |>.
Lemma lookup_staged t stage s i :
  tc_tasks (staged t stage s) !! i =
    (if decide (i = t) then (λ tk, tk <| tk_stage := stage |>) <$> (tc_tasks s !! i) else tc_tasks s !! i).
Proof.
  cbn. destruct (decide (i = t)) as [->|Hne]; [by rewrite list_lookup_alter_eq|by rewrite list_lookup_alter_ne].
Qed.
Lemma done_staged t stage s tk p :
  tc_tasks s !! t = Some tk → stage_done (tk_stage tk) = false → is_done p s = true →
  is_done p (staged t stage s) = true.
Proof.
  intros Ht Hnd (tp & r & Hp & Hr)%is_done_true. apply is_done_true. exists tp, r. split; [|done].
  rewrite lookup_staged. destruct (decide (p = t)) as [->|]; [|done]. simplify_eq. by rewrite Hr in Hnd.
Qed.

(** A stage further: what is left to show is what the entries say. *)
Lemma staged_inv s s1 t tk stage :
  co_inv s → tc_tasks s !! t = Some tk → stage_done (tk_stage tk) = false → previous_done tk s = true →
  tc_tasks s1 = tc_tasks (staged t stage s) →
  (∀ k, entry_shape <$> (tc_entries s1 !! k) = entry_shape <$> (tc_entries s !! k)) →
  (∀ k e, tc_entries s1 !! k = Some e → entry_inv s1 k e) →
  co_inv s1.
Proof.
  intros HI Ht Hnd Hprev Htasks Hshape Hent.
  assert (Hold : ∀ i tk1, tc_tasks s1 !! i = Some tk1 → ∃ tk0, tc_tasks s !! i = Some tk0 ∧
    tk_key tk1 = tk_key tk0 ∧ tk_generation tk1 = tk_generation tk0 ∧ tk_previous tk1 = tk_previous tk0 ∧
    (i = t ∨ tk_stage tk1 = tk_stage tk0)).
  { intros i tk1 Hi. rewrite Htasks, lookup_staged in Hi. destruct (decide (i = t)) as [->|]; [|by exists tk1; auto 6].
    rewrite Ht in Hi. injection Hi as <-. exists tk. auto 6. }
  assert (Hnew : ∀ i tk0, tc_tasks s !! i = Some tk0 → ∃ tk1, tc_tasks s1 !! i = Some tk1 ∧
    tk_key tk1 = tk_key tk0 ∧ tk_generation tk1 = tk_generation tk0).
  { intros i tk0 Hi. rewrite Htasks, lookup_staged. destruct (decide (i = t)); rewrite Hi; eexists; by split_and!. }
  assert (Hdone : ∀ p, is_done p s = true → is_done p s1 = true).
  { intros p Hp. apply (done_staged t stage s tk) in Hp; [|done..]. unfold is_done in *. by rewrite Htasks. }
  split; [exact Hent| |].
  - intros i tk1 Hi. destruct (Hold i tk1 Hi) as (tk0 & Hi0 & Ek & Eg & Ep & Es).
    destruct (ci_task _ HI i tk0 Hi0) as (H1 & H2 & (e & He & Hle & Heq) & H4). split_and!; [lia|..].
    + unfold prev_inv in *. rewrite Ep, Eg, Ek. destruct (tk_previous tk0) as [p|]; [|done].
      destruct H2 as (tp & Htp & Hkp & Hgp). destruct (Hnew p tp Htp) as (tp1 & ? & ? & ?). exists tp1. split_and!; [done|congruence|lia].
    + specialize (Hshape (tk_key tk0)). rewrite He in Hshape. destruct (tc_entries s1 !! tk_key tk0) as [e1|] eqn:E1; [|done].
      injection Hshape as Hg Htl. exists e1. rewrite Ek, Eg, Hg, Htl. done.
    + intros Hst. unfold previous_done. rewrite Ep.
      assert (Hp : previous_done tk0 s = true).
      { destruct Es as [->|Es]; [simplify_eq; exact Hprev|]. apply H4. congruence. }
      unfold previous_done in Hp. destruct (tk_previous tk0); [by apply Hdone|done].
  - intros i j ti tj Hij Hi Hj Hk. destruct (Hold i ti Hi) as (ti0 & Hi0 & Ek & Eg & _).
    destruct (Hold j tj Hj) as (tj0 & Hj0 & Ek' & Eg' & _). rewrite Eg, Eg'.
    apply (ci_order _ HI i j); [done..|congruence].
Qed.

(** The entry of a task that has begun and is not done is on that task, or on a
    later one that has not begun. *)
Lemma tail_of_begun s t tk e t0 tk0 :
  co_inv s → tc_tasks s !! t = Some tk → stage_done (tk_stage tk) = false → tk_stage tk ≠ Waiting →
  tc_entries s !! tk_key tk = Some e → en_io_tail e = Some t0 → tc_tasks s !! t0 = Some tk0 →
  t0 ≠ t → tk_stage tk0 = Waiting.
Proof.
  intros HI Ht Hnd Hw He Ht0 Htk0 Hne. pose proof (ci_entry _ HI _ _ He) as Hent. unfold entry_inv in Hent.
  rewrite Ht0 in Hent. destruct Hent as (tk1 & Htk1 & Hk & Hg & _). rewrite Htk0 in Htk1. injection Htk1 as <-.
  destruct (task_entry s t tk HI Ht) as (e1 & He1 & Hle & Heq). rewrite He in He1. injection He1 as <-.
  assert (tk_generation tk < tk_generation tk0).
  { destruct (decide (tk_generation tk = en_generation e)) as [E|E]; [specialize (Heq E); congruence|lia]. }
  assert (Hlt : t < t0) by (by apply (generation_order s t t0 tk tk0)).
  destruct (tk_stage tk0) eqn:E; [done|exfalso..];
    (pose proof (begun_alone s t t0 tk tk0 HI Hlt Ht Htk0 (eq_sym Hk)) as Hd; rewrite E in Hd;
     specialize (Hd ltac:(done)); apply is_done_true in Hd as (tk' & r' & Ht' & Hr');
     rewrite Ht in Ht'; injection Ht' as <-; by rewrite Hr' in Hnd).
Qed.

Lemma start_event_inv s t tk :
  co_inv s → tc_tasks s !! t = Some tk → tk_stage tk = Waiting → previous_done tk s = true →
  co_inv (staged t InThread s).
Proof.
  intros HI Ht Hst Hp. apply (staged_inv s _ t tk InThread); [done|done|by rewrite Hst|done|done|done|].
  intros k e Hk. pose proof (ci_entry _ HI k e Hk) as Hent. unfold entry_inv in *.
  destruct (en_io_tail e) as [t0|]; [|done]. destruct Hent as (tk0 & Ht0 & Hkey & Hg & Hs & Hv).
  unfold tail_inv. rewrite lookup_staged. destruct (decide (t0 = t)) as [->|Hne]; [|by exists tk0].
  rewrite Ht0. rewrite Ht0 in Ht. injection Ht as ->. eexists. split; [done|]. cbn. rewrite Hst in Hs. done.
Qed.

Lemma backed_lookup run k r m m' : m' !! k = m !! k → backed run k r m → backed run k r m'.
Proof. intros E. unfold backed. by rewrite E. Qed.
Lemma written_other overwrites k v m m' : written overwrites k v m m' → delete k m' = delete k m.
Proof. intros [->|(_ & _ & ->)]; [apply delete_insert_eq|done]. Qed.
Lemma written_backed k p m m' : written put_overwrites k p m m' → backed (Put p false) k (Some p) m'.
Proof. intros [->|(Ho & Hs & ->)]; [left; apply lookup_insert_eq|right; eauto]. Qed.

(** What a backend call does to the store: its outcome is backed by the store, and
    no other key changes. *)
Lemma backend_io_spec tk b :
  wp (backend_io tk) (λ r b', backed (tk_run tk) (tk_key tk) r (view b') ∧ delete (tk_key tk) (view b') = delete (tk_key tk) (view b))
    (λ _ b', delete (tk_key tk) (view b') = delete (tk_key tk) (view b)) b.
Proof.
  unfold backend_io. destruct (tk_run tk) as [|p ov|].
  - eapply wp_mono; [apply get_law| |].
    + intros r b' [-> ->]. split; [by left|done].
    + by intros _ b' ->.
  - apply wp_bind. destruct ov.
    + eapply wp_mono; [apply upsert_law| |done]. intros [] b' Hv. apply wp_ret.
      rewrite Hv. split; [left; apply lookup_insert_eq|apply delete_insert_eq].
    + eapply wp_mono; [apply put_law| |done]. intros [] b' Hv. apply wp_ret.
      split; [by eapply written_backed|by eapply written_other].
  - apply wp_bind. eapply wp_mono; [apply remove_law| |done]. intros [] b' Hv. apply wp_ret.
    rewrite Hv. split; [left; apply lookup_delete_eq|apply delete_delete_eq].
Qed.

Lemma io_event_inv s t tk r b :
  co_inv s → tc_tasks s !! t = Some tk → tk_stage tk = InThread → backend_io tk (tc_backend s) = (r, b) →
  co_inv (staged t (IoDone r) (s <| tc_backend := b |>)).
Proof.
  intros HI Ht Hst Hio.
  assert (Hnd : stage_done (tk_stage tk) = false) by by rewrite Hst.
  assert (Hp : previous_done tk s = true) by (apply (ci_task _ HI t tk Ht); by rewrite Hst).
  pose proof (backend_io_spec tk (tc_backend s)) as Hspec. unfold wp in Hspec. rewrite Hio in Hspec.
  assert (Hother : ∀ k, k ≠ tk_key tk → view b !! k = view (tc_backend s) !! k).
  { intros k Hne. rewrite <-(lookup_delete_ne _ (tk_key tk) k), <-(lookup_delete_ne (view (tc_backend s)) (tk_key tk) k) by done.
    f_equal. destruct r; tauto. }
  apply (staged_inv s _ t tk (IoDone r)); [done..|].
  intros k e Hk. pose proof (ci_entry _ HI k e Hk) as Hent. unfold entry_inv in *.
  destruct (en_io_tail e) as [t0|] eqn:Etail; [|done]. destruct Hent as (tk0 & Ht0 & Hkey & Hg & Hs & Hv).
  unfold tail_inv. rewrite lookup_staged. cbn [tc_tasks setter set_tc_backend]. rewrite Ht0.
  destruct (decide (t0 = t)) as [->|Hne].
  - simplify_eq. eexists. split; [done|]. cbn. rewrite Hst in Hs. destruct Hs as (Hs1 & Hs2 & Hs3). split_and!; try done.
    intros r' Hr' _. destruct r as [|r]; [done|]. injection Hr' as <-. apply Hspec.
  - exists tk0. split_and!; try done. intros r' Hr' Hph. cbn. destruct (decide (k = tk_key tk)) as [->|Hk'].
    + rewrite (tail_of_begun s t tk e t0 tk0) in Hr'; [done..|by rewrite Hst|done|done|done|done].
    + eapply backed_lookup; [by apply Hother|]. by apply Hv.
Qed.

(** ** Processing the outcome *)
(** The entry as the task leaves it, and the value its awaiters get. *)
Definition resolved e (r : result (option bytes)) : Entry :=
  match r with
  | inl exc => e <| en_state := FAILED |> <| en_payload := None |> <| en_task := None |> <| en_error := Some (exn_str exc) |>
  | inr p => e <| en_state := match p with Some _ => RESIDENT | None => ABSENT end |> <| en_payload := p |>
               <| en_task := None |> <| en_error := None |>
  end.
Lemma after_io_run tk r s e :
  tc_entries s !! tk_key tk = Some e →
  ∃ s', after_io tk r s =
      (if en_generation e =? tk_generation tk then r else match r with inl x => inl x | inr _ => inr None end, s') ∧
    tc_backend s' = tc_backend s ∧ tc_tasks s' = tc_tasks s ∧ tc_phase s' = tc_phase s ∧ tc_calls s' = tc_calls s ∧
    tc_entries s' = if en_generation e =? tk_generation tk then <[tk_key tk := resolved e r]> (tc_entries s) else tc_entries s.
Proof.
  intros He. destruct r as [exc|p].
  - unfold after_io, finish_failure, mbind, M_bind, getS. rewrite He. cbn [of_option mret M_ret].
    destruct (_ =? _); eexists; (split; [reflexivity|done]).
  - unfold after_io, finish_success, mbind, M_bind, getS.
    destruct (tk_run tk); cbn [count modifyS mret M_ret tc_entries setter set_tc_metrics]; rewrite He; cbn [of_option mret M_ret];
      destruct (_ =? _); cbn [negb]; eexists; (split; [reflexivity|done]).
Qed.
Lemma settled_resolved e r : settled (resolved e r) r.
Proof. by destruct r as [|[p|]]. Qed.

Lemma finish_event_inv s t tk r r' s' :
  co_inv s → tc_tasks s !! t = Some tk → tk_stage tk = IoDone r → after_io tk r s = (r', s') →
  co_inv (staged t (Done r') s').
Proof.
  intros HI Ht Hst Hrun. destruct (task_entry s t tk HI Ht) as (e & He & Hle & Heq).
  destruct (after_io_run tk r s e He) as (s1 & Hrun1 & Hb & Htk & Hph & _ & Hent). rewrite Hrun in Hrun1.
  injection Hrun1 as Hr' ->.
  assert (Hnd : stage_done (tk_stage tk) = false) by by rewrite Hst.
  assert (Hp : previous_done tk s = true) by (apply (ci_task _ HI t tk Ht); by rewrite Hst).
  assert (Hkeep : ∀ k e0, tc_entries s !! k = Some e0 → (k = tk_key tk → en_generation e ≠ tk_generation tk) →
    entry_inv (staged t (Done r') s1) k e0).
  { intros k e0 Hk Hstale. pose proof (ci_entry _ HI k e0 Hk) as Hi. unfold entry_inv in *.
    destruct (en_io_tail e0) as [t0|] eqn:Et0; [|done]. destruct Hi as (tk0 & Ht0 & Hkey & Hg & Hs & Hv).
    unfold tail_inv. rewrite lookup_staged, Htk, Ht0. destruct (decide (t0 = t)) as [->|Hne].
    - exfalso. simplify_eq. by apply Hstale.
    - exists tk0. split_and!; try done. cbn. by rewrite Hb, Hph. }
  apply (staged_inv s _ t tk (Done r')); [done..|by cbn; rewrite Htk| |].
  - intros k. cbn. rewrite Hent. destruct (_ =? _); [|done]. destruct (decide (k = tk_key tk)) as [->|Hne].
    + rewrite lookup_insert_eq, He. cbn. f_equal. by destruct r.
    + by rewrite lookup_insert_ne.
  - intros k e0 Hk. cbn in Hk. rewrite Hent in Hk. destruct (_ =? _) eqn:Eg; breflect; [|by apply Hkeep].
    apply lookup_insert_Some in Hk as [[<- <-]|[Hne Hk]]; [|by apply Hkeep].
    specialize (Heq (eq_sym Eg)). unfold entry_inv.
    assert (Htail : en_io_tail (resolved e r) = Some t) by by destruct r. rewrite Htail.
    pose proof (ci_entry _ HI _ _ He) as Hi. unfold entry_inv in Hi. rewrite Heq in Hi.
    destruct Hi as (tk0 & Ht0 & Hkey & Hg & _ & Hv). simplify_eq.
    unfold tail_inv. rewrite lookup_staged, Htk, Ht, decide_True by done. eexists. split; [done|]. cbn.
    split_and!; [done|by destruct r|by destruct r|apply settled_resolved|].
    intros r1 Hr1 Hopen. rewrite Hb. rewrite Hph in Hopen. apply Hv; [|done]. rewrite Hst. by destruct r.
Qed.

(** ** The calls *)
Definition with_waiters (k : string) e (n : nat) s : Coordinator B :=
  s <| tc_entries := <[k := e <| en_waiters := n |>]> (tc_entries s) |>.
Lemma waiters_inv k e n s : co_inv s → tc_entries s !! k = Some e → co_inv (with_waiters k e n s).
Proof.
  intros HI He. split; [|intros i tk Hi|exact (ci_order _ HI)].
  - intros k' e' Hk. cbn in Hk. apply lookup_insert_Some in Hk as [[<- <-]|[Hne Hk]]; [exact (ci_entry _ HI _ _ He)|].
    exact (ci_entry _ HI _ _ Hk).
  - destruct (ci_task _ HI i tk Hi) as (H1 & H2 & (e1 & He1 & H3) & H4). split_and!; [done|exact H2| |exact H4].
    cbn. destruct (decide (tk_key tk = k)) as [E|Hne].
    + rewrite E, lookup_insert_eq. eexists. split; [done|]. cbn. rewrite E in He1. by simplify_eq.
    + rewrite lookup_insert_ne by done. eauto.
Qed.

Lemma busy_entry s k e :
  co_inv s → tc_entries s !! k = Some e → (en_state e = FETCHING ∨ en_state e = WRITING ∨ en_state e = EVICTING) →
  ∃ t tk, en_task e = Some t ∧ en_io_tail e = Some t ∧ tc_tasks s !! t = Some tk ∧ tk_key tk = k ∧
    stage_done (tk_stage tk) = false ∧ tk_generation tk = en_generation e.
Proof.
  intros HI He Hb. pose proof (ci_entry _ HI k e He) as Hi. unfold entry_inv in Hi.
  destruct (en_io_tail e) as [t|]; [|destruct Hi as (_ & Hst & _); rewrite Hst in Hb; naive_solver].
  destruct Hi as (tk & Ht & Hk & Hg & Hs & _). exists t, tk.
  destruct (tk_stage tk); try (destruct Hs as (? & _); done).
  destruct Hs as (_ & Hs). unfold settled in Hs. exfalso.
  destruct r as [|[|]]; destruct Hs as [Hs _]; rewrite Hs in Hb; naive_solver.
Qed.
Lemma resident_entry s k e :
  co_inv s → tc_entries s !! k = Some e → en_state e = RESIDENT →
  ∃ t tk p, en_io_tail e = Some t ∧ tc_tasks s !! t = Some tk ∧ tk_stage tk = Done (inr (Some p)) ∧
    en_payload e = Some p ∧ (tc_phase s ≠ Closed → backed (tk_run tk) k (Some p) (view (tc_backend s))).
Proof.
  intros HI He Hb. pose proof (ci_entry _ HI k e He) as Hi. unfold entry_inv in Hi.
  destruct (en_io_tail e) as [t|] eqn:Etail; [|destruct Hi as (_ & Hst & _); congruence].
  destruct Hi as (tk & Ht & Hk & Hg & Hs & Hv).
  destruct (tk_stage tk) as [| | |r] eqn:Est; try (destruct Hs as (_ & Hs & _); rewrite Hs in Hb; by destruct (tk_run tk)).
  destruct Hs as (_ & Hs). destruct r as [|[p|]]; destruct Hs as [Hs Hp]; try congruence.
  exists t, tk, p. split_and!; try done. by apply Hv.
Qed.

(** What one turn of [get] does. *)
Definition task_of s (t : nat) (k : string) : Prop := ∃ tk, tc_tasks s !! t = Some tk ∧ tk_key tk = k.
Definition attempt_post (key : string) s (stage : CallStage) (s' : Coordinator B) : Prop :=
  co_inv s' ∧ tc_calls s' = tc_calls s ∧ tc_phase s' = tc_phase s ∧
  match stage with
  | Returned r => s' = s ∧ ∃ run p, r = inr (Some p) ∧ (tc_phase s ≠ Closed → backed run key (Some p) (view (tc_backend s)))
  | Blocked t joined _ => task_of s' t key ∧ is_done t s' = false ∧ tc_tasks s `prefix_of` tc_tasks s' ∧
      (∀ k, en_waiters (default entry_init (tc_entries s' !! k)) =
         en_waiters (default entry_init (tc_entries s !! k)) + (if decide (k = key) then Nat.b2n joined else 0)) ∧
      (if joined then tc_tasks s' = tc_tasks s else True)
  | Cancelled => False
  end.
Lemma start_attempt key run f s :
  co_inv s →
  wp (t ← start_task key (busy run) run; count f;; mret (Blocked t false false)) (attempt_post key s) noexn s.
Proof.
  intros HI. apply wp_bind. eapply wp_of_run; [apply start_task_run|]. unfold count. wp_steps. split_and!.
  - eapply co_inv_core; [|by apply (submitted_inv key run)]. done.
  - done.
  - done.
  - eexists. split; [by apply list_lookup_middle|done].
  - unfold is_done. cbn. by rewrite list_lookup_middle.
  - by eexists.
  - intros k. cbn. destruct (decide (k = key)) as [->|Hne]; [rewrite lookup_insert_eq; cbn; lia|].
    rewrite lookup_insert_ne by done. lia.
  - done.
Qed.
Lemma join_attempt key e s retry :
  co_inv s → tc_entries s !! key = Some e →
  (en_state e = FETCHING ∨ en_state e = WRITING ∨ en_state e = EVICTING) →
  wp match en_task e with
     | None => raise (RuntimeError (state_value (en_state e) +:+ " entry is missing its I/O task"))
     | Some t => set_entry key (e <| en_waiters := S (en_waiters e) |>);;
         count (λ m, m <| coalesced_gets := S (coalesced_gets m) |>);; mret (Blocked t true retry)
     end (attempt_post key s) noexn s.
Proof.
  intros HI He Hb. destruct (busy_entry s key e HI He Hb) as (t & tk & -> & _ & Ht & Hk & Hnd & _).
  unfold set_entry, count. wp_steps. split_and!.
  - eapply co_inv_core; [|by apply (waiters_inv key e (S (en_waiters e)) s)]. done.
  - done.
  - done.
  - by exists tk.
  - unfold is_done. cbn. rewrite Ht. by destruct (tk_stage tk).
  - done.
  - intros k. cbn. destruct (decide (k = key)) as [->|Hne]; [rewrite lookup_insert_eq, He; cbn; lia|].
    rewrite lookup_insert_ne by done. lia.
  - done.
Qed.
Lemma get_attempt_spec key s : co_inv s → wp (get_attempt key) (attempt_post key s) noexn s.
Proof.
  intros HI. unfold get_attempt, get_entry. wp_steps.
  destruct (tc_entries s !! key) as [e|] eqn:He; [|by apply (start_attempt key Fetch)].
  change (default entry_init (Some e)) with e.
  pose proof (λ r, join_attempt key e s r HI He) as Hjoin.
  destruct (en_state e) eqn:Est; try (by apply (start_attempt key Fetch)); try (by apply Hjoin; auto).
  apply wp_ret. destruct (resident_entry s key e HI He Est) as (t & tk & p & _ & _ & _ & -> & Hv).
  split_and!; [done..|]. by exists (tk_run tk), p.
Qed.
Lemma put_attempt_spec key payload overwrite s : co_inv s → wp (put_attempt key payload overwrite) (attempt_post key s) noexn s.
Proof. apply (start_attempt key (Put payload overwrite)). Qed.
Lemma evict_attempt_spec key s : co_inv s → wp (evict_attempt key) (attempt_post key s) noexn s.
Proof. apply (start_attempt key Evict). Qed.

(** ** The calls and the waiter counts *)
Definition joined_on (k : string) (cl : Call) : nat :=
  match cl_stage cl with Blocked _ true _ => if decide (op_key (cl_op cl) = k) then 1 else 0 | _ => 0 end.
Definition joined_count (k : string) (l : list Call) : nat := nsum (joined_on k <$> l).
Lemma joined_count_app k l cl : joined_count k (l ++ [cl]) = joined_count k l + joined_on k cl.
Proof. unfold joined_count. rewrite fmap_app, nsum_app. unfold nsum. csimpl. lia. Qed.
Lemma joined_count_alter k g l c cl :
  l !! c = Some cl → joined_count k (alter g c l) + joined_on k cl = joined_count k l + joined_on k (g cl).
Proof.
  apply (nsum_alter (joined_on k)).
Qed.

(** Tasks stay, and so do their outcomes. *)
Definition extends s s' : Prop :=
  ∀ i tk, tc_tasks s !! i = Some tk → ∃ tk', tc_tasks s' !! i = Some tk' ∧ tk_key tk' = tk_key tk ∧
    ∀ r, tk_stage tk = Done r → tk_stage tk' = Done r.
#[local] Instance extends_preorder : PreOrder extends.
Proof.
  split.
  - intros s i tk Hi. by exists tk.
  - intros s1 s2 s3 H1 H2 i tk Hi. destruct (H1 i tk Hi) as (tk2 & Hi2 & E2 & D2).
    destruct (H2 i tk2 Hi2) as (tk3 & Hi3 & E3 & D3). exists tk3. split_and!; [done|congruence|auto].
Qed.
Lemma prefix_extends s s' : tc_tasks s `prefix_of` tc_tasks s' → extends s s'.
Proof. intros Hp i tk Hi. exists tk. split_and!; [by eapply prefix_lookup_Some|done|done]. Qed.

(** A refusal, or the failure of the I/O the call waited for. *)
Definition call_error s (o : Op) (x : exn) : Prop :=
  x = RuntimeError "KV transfer coordinator is closed" ∨ x = ValueError "key must not be empty" ∨
  ∃ t tk, tc_tasks s !! t = Some tk ∧ tk_key tk = op_key o ∧ tk_stage tk = Done (inl x).
Definition call_ok s (cl : Call) : Prop :=
  match cl_stage cl with
  | Blocked t _ _ => task_of s t (op_key (cl_op cl))
  | Returned (inl x) => call_error s (cl_op cl) x
  | _ => True
  end.
Lemma call_ok_extends s s' cl : extends s s' → call_ok s cl → call_ok s' cl.
Proof.
  intros Hx. unfold call_ok. destruct (cl_stage cl) as [t j r|[x|v]|]; try done.
  - intros (tk & Ht & Hk). destruct (Hx t tk Ht) as (tk' & Ht' & Hk' & _). exists tk'. split; congruence.
  - intros [?|[?|(t & tk & Ht & Hk & Hs)]]; [by left|by right; left|]. right; right.
    destruct (Hx t tk Ht) as (tk' & Ht' & Hk' & Hd). exists t, tk'. split_and!; [done|congruence|auto].
Qed.

Definition waiters_of s (k : string) : nat := en_waiters (default entry_init (tc_entries s !! k)).
Record sys_inv s : Prop := {
  si_core : co_inv s;
  si_calls : Forall (call_ok s) (tc_calls s);
  si_waiters k : waiters_of s k = joined_count k (tc_calls s)
}.
Lemma coordinator_init_sys b : sys_inv (coordinator_init b).
Proof. split; [apply coordinator_init_inv|constructor|done]. Qed.

(** A step that leaves calls and counts alone. *)
Lemma sys_inv_quiet s s' :
  sys_inv s → co_inv s' → extends s s' → tc_calls s' = tc_calls s → (∀ k, waiters_of s' k = waiters_of s k) → sys_inv s'.
Proof.
  intros [HI Hc Hw] HI' Hx Ec Ew. split; [done| |].
  - rewrite Ec. eapply Forall_impl; [exact Hc|]. intros cl. by apply call_ok_extends.
  - intros k. rewrite Ew, Ec. apply Hw.
Qed.
Lemma staged_extends t stage s tk :
  tc_tasks s !! t = Some tk → stage_done (tk_stage tk) = false → extends s (staged t stage s).
Proof.
  intros Ht Hnd i tk0 Hi. rewrite lookup_staged. destruct (decide (i = t)) as [->|]; [|by exists tk0].
  rewrite Hi. eexists. split; [done|]. split; [done|]. intros r Hr. simplify_eq. by rewrite Hr in Hnd.
Qed.

(** [leave] takes one off the count of the key. *)
Definition left_one (key : string) (joined : bool) s s' : Prop :=
  co_inv s' ∧ tc_calls s' = tc_calls s ∧ tc_tasks s' = tc_tasks s ∧ tc_phase s' = tc_phase s ∧ tc_backend s' = tc_backend s ∧
  ∀ k, waiters_of s' k = waiters_of s k - (if decide (k = key) then Nat.b2n joined else 0).
Lemma leave_spec key joined s t :
  co_inv s → task_of s t key → wp (leave key joined) (λ _ s', left_one key joined s s') noexn s.
Proof.
  intros HI (tk & Ht & Hk). unfold leave. destruct joined; wp_steps.
  - destruct (task_entry s t tk HI Ht) as (e & He & _). rewrite Hk in He. rewrite He. cbn [of_option].
    unfold set_entry. wp_steps. split_and!; try done; [by apply (waiters_inv key e)|].
    intros k. unfold waiters_of. cbn. destruct (decide (k = key)) as [->|Hne]; [by rewrite lookup_insert_eq, He|].
    rewrite lookup_insert_ne by done. lia.
  - split_and!; try done. intros k. destruct (decide _); cbn; lia.
Qed.

Lemma joined_on_blocked k o t j r :
  joined_on k (mkCall o (Blocked t j r)) = if decide (k = op_key o) then Nat.b2n j else 0.
Proof. unfold joined_on. cbn. destruct j; repeat case_decide; cbn; congruence. Qed.
Lemma joined_count_ge k l c cl : l !! c = Some cl → joined_on k cl <= joined_count k l.
Proof.
  intros Hc. pose proof (joined_count_alter k (λ cl, mkCall (cl_op cl) Cancelled) l c cl Hc) as E. cbn in E. lia.
Qed.

(** From [s] to [s'], a call of [o] that counted for [old] reaches [stage]. *)
Definition advances (o : Op) (old : string → nat) s (stage : CallStage) s' : Prop :=
  co_inv s' ∧ tc_calls s' = tc_calls s ∧ extends s s' ∧ call_ok s' (mkCall o stage) ∧
  ∀ k, waiters_of s' k + old k = waiters_of s k + joined_on k (mkCall o stage).
Lemma attempt_advances o old s0 s stage s' :
  extends s0 s → tc_calls s = tc_calls s0 → (∀ k, waiters_of s k + old k = waiters_of s0 k) →
  attempt_post (op_key o) s stage s' → advances o old s0 stage s'.
Proof.
  intros Hx Hcs Hw (HI & Hc & _ & Hst). destruct stage as [t j r|r|]; [| |done].
  - destruct Hst as (Ht & _ & Hpre & Hcnt & _). split_and!; [done|congruence|by etrans; [|apply prefix_extends]|done|].
    intros k. rewrite joined_on_blocked, <-Hw. unfold waiters_of. rewrite Hcnt. lia.
  - destruct Hst as (-> & run & p & -> & _). split_and!; try done. intros k. rewrite <-Hw. cbn. lia.
Qed.
Lemma error_advances o old s0 s x :
  co_inv s → extends s0 s → tc_calls s = tc_calls s0 → (∀ k, waiters_of s k + old k = waiters_of s0 k) →
  call_error s o x → advances o old s0 (Returned (inl x)) s.
Proof. intros HI Hx Hc Hw He. split_and!; try done. intros k. rewrite <-Hw. cbn. lia. Qed.
Lemma wp_returning (m : M (Coordinator B) CallStage) Q s :
  wp m Q (λ x s', Q (Returned (inl x)) s') s → wp (returning m) Q noexn s.
Proof. intros Hm. apply wp_try_except. eapply wp_mono; [exact Hm|done|]. intros x s' Hq. by apply wp_ret. Qed.

Lemma begin_call_sys o s : sys_inv s → wp (begin_call o) (λ _ s', sys_inv s') noexn s.
Proof.
  intros [HI Hc Hw]. unfold begin_call. apply wp_bind.
  eapply wp_mono; [apply (wp_returning _ (advances o (λ _, 0) s))| |done].
  - unfold ensure_open, check_key. wp_steps. apply wp_raise_if; [intros _|intros _; apply error_advances; [done|reflexivity|done|intros; lia|by left]].
    wp_steps. apply wp_raise_if; [intros _|intros _; apply error_advances; [done|reflexivity|done|intros; lia|by right; left]].
    apply (wp_mono _ (attempt_post (op_key o) s) _ noexn); [|intros stage s'; apply (attempt_advances o _ s s); [reflexivity|done|intros; lia]|done].
    destruct o as [key|key p ov|key]; [by apply get_attempt_spec|by apply put_attempt_spec|by apply evict_attempt_spec].
  - intros stage s' (HI' & Hc' & Hx & Hok & Hcnt). wp_steps. split.
    + eapply co_inv_core; [|exact HI']. done.
    + cbn. rewrite Hc'. apply Forall_app. split; [|by constructor].
      eapply Forall_impl; [exact Hc|]. intros cl. by apply call_ok_extends.
    + intros k. specialize (Hcnt k). cbn [tc_calls setter set_tc_calls]. rewrite joined_count_app, Hc', <-Hw.
      rewrite Nat.add_0_r in Hcnt. exact Hcnt.
Qed.

(** A call of the list moves on. *)
Lemma set_call_sys s s' c o t j r stage :
  sys_inv s → tc_calls s !! c = Some (mkCall o (Blocked t j r)) →
  advances o (λ k, joined_on k (mkCall o (Blocked t j r))) s stage s' →
  wp (set_call c stage) (λ _ s2, sys_inv s2) noexn s'.
Proof.
  intros [HI Hc Hw] Hcall (HI' & Hc' & Hx & Hok & Hcnt). unfold set_call. wp_steps. split.
  - eapply co_inv_core; [|exact HI']. done.
  - cbn. rewrite Hc'. apply Forall_alter.
    + eapply Forall_impl; [exact Hc|]. intros cl. by apply call_ok_extends.
    + intros cl Hcl _. rewrite Hcall in Hcl. by injection Hcl as <-.
  - intros k. specialize (Hcnt k). cbn [tc_calls setter set_tc_calls].
    pose proof (joined_count_alter k (λ cl, mkCall (cl_op cl) stage) _ _ _ Hcall) as E. cbn [cl_op] in E.
    rewrite Hc'. specialize (Hw k). cbn beta in Hcnt.
    change (waiters_of s' k = joined_count k (alter (λ cl, mkCall (cl_op cl) stage) c (tc_calls s))).
    lia.
Qed.
Lemma leave_advances s s' c o t j r :
  sys_inv s → tc_calls s !! c = Some (mkCall o (Blocked t j r)) → left_one (op_key o) j s s' →
  co_inv s' ∧ extends s s' ∧ tc_calls s' = tc_calls s ∧
  ∀ k, waiters_of s' k + joined_on k (mkCall o (Blocked t j r)) = waiters_of s k.
Proof.
  intros [HI Hc Hw] Hcall (HI' & Hc' & Ht & _ & _ & Hl). split_and!; [done| |done|].
  - apply prefix_extends. by rewrite Ht.
  - intros k. rewrite Hl, joined_on_blocked. pose proof (joined_count_ge k _ _ _ Hcall) as Hge.
    rewrite joined_on_blocked, <-Hw in Hge. lia.
Qed.
Lemma blocked_task s c o t j r :
  sys_inv s → tc_calls s !! c = Some (mkCall o (Blocked t j r)) → task_of s t (op_key o).
Proof. intros [_ Hc _] Hcall. rewrite Forall_lookup in Hc. exact (Hc c _ Hcall). Qed.

Lemma resume_call_sys s c o t tk r j retry :
  sys_inv s → tc_calls s !! c = Some (mkCall o (Blocked t j retry)) → tc_tasks s !! t = Some tk → tk_stage tk = Done r →
  wp (resume_call c o r j retry) (λ _ s', sys_inv s') noexn s.
Proof.
  intros HS Hcall Ht Hst. pose proof (blocked_task s c o t j retry HS Hcall) as Htask. unfold resume_call. apply wp_bind.
  eapply wp_mono; [apply (wp_returning _ (advances o (λ k, joined_on k (mkCall o (Blocked t j retry))) s))| |done].
  2:{ intros stage s' Ha. by eapply set_call_sys. }
  apply wp_bind. eapply wp_mono; [by apply (leave_spec _ _ _ t); [apply si_core|]| |done].
  intros [] s1 Hleft. destruct (leave_advances s s1 c o t j retry HS Hcall Hleft) as (HI1 & Hx & Hc1 & Hw1).
  destruct r as [x|v].
  - apply wp_raise, error_advances; try done. right; right. destruct Htask as (tk' & Ht' & Hk).
    rewrite Ht in Ht'. injection Ht' as <-. destruct (Hx t tk Ht) as (tk1 & Ht1 & Hk1 & Hd1).
    exists t, tk1. split_and!; [done|congruence|auto].
  - destruct retry.
    + eapply wp_mono; [by apply get_attempt_spec| |done]. intros stage s'. by apply attempt_advances.
    + apply wp_ret. split_and!; try done. intros k. rewrite <-Hw1. cbn. lia.
Qed.
Lemma cancel_call_sys s c o t j retry :
  sys_inv s → tc_calls s !! c = Some (mkCall o (Blocked t j retry)) →
  wp (cancel_call c o j) (λ _ s', sys_inv s') noexn s.
Proof.
  intros HS Hcall.
  set (s0 := (match o with
    | OpGet _ => count (λ m, m <| cancelled_waiters := S (cancelled_waiters m) |>) | _ => mret tt end s).2).
  assert (HS0 : sys_inv s0 ∧ tc_calls s0 = tc_calls s).
  { split; [|by destruct o]. apply (sys_inv_quiet s); try by destruct o.
    - eapply co_inv_core; [|apply HS]. by destruct o.
    - apply prefix_extends. by destruct o. }
  destruct HS0 as [HS0 Hc0]. assert (Hcall0 : tc_calls s0 !! c = Some (mkCall o (Blocked t j retry))) by by rewrite Hc0.
  unfold cancel_call. apply wp_bind.
  apply (wp_of_run _ _ _ _ tt s0); [by destruct o|]. apply wp_bind.
  eapply wp_mono; [apply (leave_spec _ _ _ t); [apply HS0|by eapply blocked_task]| |done].
  intros [] s1 Hleft. destruct (leave_advances s0 s1 c o t j retry HS0 Hcall0 Hleft) as (HI1 & Hx & Hc1 & Hw1).
  eapply (set_call_sys s0); [done..|]. split_and!; try done. intros k. rewrite <-Hw1. cbn. lia.
Qed.

(** ** Every event *)
Lemma phase_inv s b ph :
  co_inv s → (ph ≠ Closed → tc_phase s ≠ Closed ∧ b = tc_backend s) →
  co_inv (s <| tc_backend := b |> <| tc_phase := ph |>).
Proof.
  intros [H1 H2 H3] Hph. split; [|exact H2|exact H3]. intros k e Hk. specialize (H1 k e Hk). unfold entry_inv in *.
  destruct (en_io_tail e) as [t|]; [|done]. destruct H1 as (tk & Ht & Hkey & Hg & Hs & Hv). exists tk. split_and!; try done.
  intros r Hr Hopen. cbn in *. destruct (Hph Hopen) as [Ho ->]. by apply Hv.
Qed.
Lemma run_state_wp {A} (m : M (Coordinator B) A) (Q : Coordinator B → Prop) s :
  wp m (λ _ s', Q s') noexn s → Q (run_state m s).
Proof. unfold wp, run_state, noexn. by destruct (m s) as [[e|a] s']. Qed.
Lemma step_inv s ev s' : sys_inv s → step ev s = Some s' → sys_inv s'.
Proof.
  intros HS. pose proof (si_core _ HS) as HI. destruct ev as [o|t|t|t|c|c| |]; unfold step; intros Hstep.
  - injection Hstep as <-. apply run_state_wp. by apply begin_call_sys.
  - destruct (tc_tasks s !! t) as [tk|] eqn:Ht; [|done]. cbn in Hstep. destruct (tk_stage tk) eqn:Est; try done.
    destruct (previous_done tk s) eqn:Ep; [|done]. injection Hstep as <-.
    apply (sys_inv_quiet s); [done|by eapply start_event_inv|eapply staged_extends; [done|by rewrite Est]|done|done].
  - destruct (tc_tasks s !! t) as [tk|] eqn:Ht; [|done]. cbn in Hstep. destruct (tk_stage tk) eqn:Est; try done.
    destruct (backend_io tk (tc_backend s)) as [r b] eqn:Eio. injection Hstep as <-.
    apply (sys_inv_quiet s); [done|by eapply io_event_inv|eapply (staged_extends t (IoDone r) s); [done|by rewrite Est]|done|done].
  - destruct (tc_tasks s !! t) as [tk|] eqn:Ht; [|done]. cbn in Hstep. destruct (tk_stage tk) eqn:Est; try done.
    destruct (after_io tk r s) as [r' s1] eqn:Erun. injection Hstep as <-.
    destruct (task_entry s t tk HI Ht) as (e & He & _).
    destruct (after_io_run tk r s e He) as (s2 & Hrun & _ & Htk & _ & Hcl & Hent). rewrite Erun in Hrun. injection Hrun as _ ->.
    apply (sys_inv_quiet s); [done|by eapply finish_event_inv| |done|].
    + intros i tk0 Hi. assert (Hnd : stage_done (tk_stage tk) = false) by by rewrite Est.
      destruct (staged_extends t (Done r') s tk Ht Hnd i tk0 Hi) as (tk1 & Hi1 & Hrest). exists tk1. split; [|exact Hrest].
      change (tc_tasks (staged t (Done r') s2) !! i = Some tk1). cbn in *. by rewrite Htk.
    + intros k. unfold waiters_of. cbn. rewrite Hent. destruct (_ =? _); [|done].
      destruct (decide (k = tk_key tk)) as [->|Hne]; [|by rewrite lookup_insert_ne].
      rewrite lookup_insert_eq, He. by destruct r.
  - destruct (tc_calls s !! c) as [[o st]|] eqn:Hc; [|done]. cbn in Hstep. destruct st as [t j r| |]; try done.
    destruct (tc_tasks s !! t) as [tk|] eqn:Ht; [|done]. cbn in Hstep. destruct (tk_stage tk) eqn:Est; try done.
    injection Hstep as <-. apply run_state_wp. by eapply resume_call_sys.
  - destruct (tc_calls s !! c) as [[o st]|] eqn:Hc; [|done]. cbn in Hstep. destruct st as [t j r| |]; try done.
    injection Hstep as <-. apply run_state_wp. by eapply cancel_call_sys.
  - injection Hstep as <-. apply (sys_inv_quiet s); [done| |by apply prefix_extends|done|done].
    apply (phase_inv s (tc_backend s)); [done|]. by destruct (tc_phase s).
  - destruct (tc_phase s) eqn:Eph; try done. destruct (pending_tails s); [|done]. injection Hstep as <-.
    apply (sys_inv_quiet s); [done|by apply phase_inv|by apply prefix_extends|done|done].
Qed.
Lemma reachable_inv backend s : reachable backend s → sys_inv s.
Proof. induction 1 as [|ev s s' _ IH Hs]; [apply coordinator_init_sys|by eapply step_inv]. Qed.
End spec.
