(* ===== verification/TransferContract.v ===== *)
(** * The transfer coordinator: what its clients rely on

    Consequences of the invariant of [TransferSpec.v] in every reachable state,
    the progress of pending transfers, and the one kind of transfer that [close] lets
    start. *)
From S2P Require Import Prelude Json StorageBackend TransferCoordinator TransferSpec.
Set Default Goal Selector "!".

Section contract.
Context {B : Type} `{LawfulBackend B}.
Implicit Types (s : Coordinator B) (e : Entry) (tk : Task).

(** C19: per-key serialization: in no interleaving are two transfers of one key in
    I/O at once, and they happen in the order the operations were submitted: when
    a task has begun, every earlier task of its key is done. *)
Theorem io_serialized backend s i j ti tj :
  reachable backend s → i < j → tc_tasks s !! i = Some ti → tc_tasks s !! j = Some tj →
  tk_key ti = tk_key tj → tk_stage tj ≠ Waiting → ∃ r, tk_stage ti = Done r.
Proof.
  intros Hr Hij Hi Hj Hk Hst. pose proof (begun_alone s i j ti tj (si_core _ (reachable_inv _ _ Hr)) Hij Hi Hj Hk Hst) as Hd.
  apply is_done_true in Hd as (tk & r & Ht & Hs). rewrite Hi in Ht. injection Ht as <-. by exists r.
Qed.

(** C20: cache coherence: until the store is closed, a resident entry has a payload
    and the backend holds an object for its key. The two are equal, except where the
    last operation submitted for the key was a plain put of that payload on a store
    whose put may keep an existing object. When the last operation submitted has
    succeeded, the entry holds its outcome, and so does the backend, with the same
    exception. *)
Theorem resident_coherent backend s k e :
  reachable backend s → tc_phase s ≠ Closed → tc_entries s !! k = Some e →
  (en_state e = RESIDENT → ∃ p stored, en_payload e = Some p ∧ view (tc_backend s) !! k = Some stored ∧
     (stored = p ∨
      put_overwrites (B := B) = false ∧
      ∃ t tk, en_io_tail e = Some t ∧ tc_tasks s !! t = Some tk ∧ tk_run tk = Put p false)) ∧
  (∀ t tk r, en_io_tail e = Some t → tc_tasks s !! t = Some tk → tk_stage tk = Done (inr r) →
     en_payload e = r ∧
     (view (tc_backend s) !! k = r ∨
      put_overwrites (B := B) = false ∧ is_Some (view (tc_backend s) !! k) ∧ ∃ p, r = Some p ∧ tk_run tk = Put p false)).
Proof.
  intros Hr Hopen He. pose proof (si_core _ (reachable_inv _ _ Hr)) as HI. split.
  - intros Hst. destruct (resident_entry s k e HI He Hst) as (t & tk & p & Ht & Htk & _ & Hp & Hv). exists p.
    destruct (Hv Hopen) as [Hb|(Ho & [stored Hs] & p' & [= <-] & Hrun)]; [by exists p; auto|].
    exists stored. split_and!; [done..|]. right. split; [done|]. by exists t, tk.
  - intros t tk r Ht Htk Hst. pose proof (ci_entry _ HI k e He) as Hent. unfold entry_inv in Hent. rewrite Ht in Hent.
    destruct Hent as (tk' & Htk' & _ & _ & Hs & Hv). rewrite Htk in Htk'. injection Htk' as <-. rewrite Hst in Hs, Hv.
    destruct Hs as (_ & Hs). split; [by destruct r; destruct Hs|by apply Hv].
Qed.

(** Coalescing: a [get] on an open coordinator never raises at submission. It
    returns the resident payload without I/O, or waits for a transfer of its key
    that is in flight; when it joins one it starts no I/O of its own. *)
Theorem get_coalesces backend s key :
  reachable backend s → tc_phase s = Open → nonempty key = true →
  ∃ stage s', begin_call (OpGet key) s = (inr tt, s') ∧ tc_calls s' = tc_calls s ++ [mkCall (OpGet key) stage] ∧
    match stage with
    | Returned r => tc_tasks s' = tc_tasks s ∧ ∃ run p, r = inr (Some p) ∧ backed run key (Some p) (view (tc_backend s))
    | Blocked t joined _ => task_of s' t key ∧ is_done t s' = false ∧ (joined = true → tc_tasks s' = tc_tasks s)
    | Cancelled => False
    end.
Proof.
  intros Hr Hopen Hkey. pose proof (si_core _ (reachable_inv _ _ Hr)) as HI.
  destruct (wp_run _ _ _ (get_attempt_spec key s HI)) as (stage & s1 & Hrun & _ & Hc & _ & Hpost).
  exists stage. eexists. split.
  { unfold begin_call, returning, try_except, ensure_open, check_key, mbind, M_bind, getS. rewrite Hopen.
    cbn [op_key]. rewrite Hkey. cbn [negb raise_if mret M_ret]. rewrite Hrun. reflexivity. }
  cbn [tc_calls setter set_tc_calls]. rewrite Hc. split; [done|]. destruct stage as [t j r|r|]; [| |done].
  - destruct Hpost as (H1 & H2 & _ & _ & H3). split_and!; [exact H1|exact H2|intros ->; exact H3].
  - destruct Hpost as (-> & run & p & -> & Hv). split; [done|]. exists run, p. split; [done|]. apply Hv. by rewrite Hopen.
Qed.

(** Accounting: in every interleaving, cancellations included, the waiter
    count of a key is the number of calls that joined its transfer and are still
    blocked; every blocked call waits for a task of its key; and a call that raised
    was refused or saw the failure of an I/O of its key, never a broken entry. *)
Theorem calls_accounted backend s :
  reachable backend s →
  (∀ k, en_waiters (default entry_init (tc_entries s !! k)) = joined_count k (tc_calls s)) ∧
  (∀ c o t j r, tc_calls s !! c = Some (mkCall o (Blocked t j r)) → task_of s t (op_key o)) ∧
  (∀ c o x, tc_calls s !! c = Some (mkCall o (Returned (inl x))) → call_error s o x).
Proof.
  intros Hr. destruct (reachable_inv _ _ Hr) as [HI Hc Hw]. rewrite Forall_lookup in Hc. split_and!; [exact Hw|..].
  - intros c o t j r Hcall. exact (Hc c _ Hcall).
  - intros c o x Hcall. exact (Hc c _ Hcall).
Qed.

(** ** Progress *)
Definition remaining tk : nat :=
  match tk_stage tk with Waiting => 3 | InThread => 2 | IoDone _ => 1 | Done _ => 0 end.
Definition pending_work s : nat := nsum (remaining <$> tc_tasks s).
Definition task_event (ev : event) : Prop := match ev with EStart _ | EIo _ | EFinish _ => True | _ => False end.

Lemma staged_work t stage s tk n :
  tc_tasks s !! t = Some tk → remaining tk = S n → remaining (tk <| tk_stage := stage |>) = n →
  S (pending_work (staged t stage s)) = pending_work s.
Proof.
  intros Ht Hr Hn. unfold pending_work.
  pose proof (nsum_alter remaining (λ tk, tk <| tk_stage := stage |>) (tc_tasks s) t tk Ht) as E.
  rewrite Hr, Hn in E. change (tc_tasks (staged t stage s)) with (alter (λ tk, tk <| tk_stage := stage |>) t (tc_tasks s)). lia.
Qed.
Lemma step_enabled s i tk :
  co_inv s → tc_tasks s !! i = Some tk → stage_done (tk_stage tk) = false →
  ∃ ev s', task_event ev ∧ step ev s = Some s' ∧ S (pending_work s') = pending_work s.
Proof.
  intros HI. revert tk. induction (lt_wf i) as [i _ IH]. intros tk Hi Hnd.
  destruct (tk_stage tk) as [| |r|] eqn:Est; [| | |done].
  - destruct (previous_done tk s) eqn:Ep.
    + exists (EStart i), (staged i InThread s). split_and!; [done| |].
      * unfold step. rewrite Hi. cbn. by rewrite Est, Ep.
      * apply (staged_work i _ s tk 2); [done|unfold remaining; by rewrite Est|done].
    + destruct (ci_task _ HI i tk Hi) as (_ & Hp & _). unfold previous_done, prev_inv in *.
      destruct (tk_previous tk) as [p|]; [|done]. destruct Hp as (tp & Htp & Hk & Hg).
      apply (IH p) with tp; [|done|].
      * apply (generation_order s p i tp tk); [done..|lia].
      * unfold is_done in Ep. rewrite Htp in Ep. by destruct (tk_stage tp).
  - destruct (backend_io tk (tc_backend s)) as [r b] eqn:Eio.
    exists (EIo i), (staged i (IoDone r) (s <| tc_backend := b |>)). split_and!; [done| |].
    + unfold step. rewrite Hi. cbn. by rewrite Est, Eio.
    + change (pending_work s) with (pending_work (s <| tc_backend := b |>)).
      apply (staged_work i _ _ tk 1); [done|unfold remaining; by rewrite Est|done].
  - destruct (after_io tk r s) as [r' s1] eqn:Erun. destruct (task_entry s i tk HI Hi) as (e & He & _).
    destruct (after_io_run tk r s e He) as (s2 & Hrun & _ & Htk & _). rewrite Erun in Hrun. injection Hrun as _ ->.
    exists (EFinish i), (staged i (Done r') s2). split_and!; [done| |].
    + unfold step. rewrite Hi. cbn. by rewrite Est, Erun.
    + assert (E : pending_work s = pending_work s2) by (unfold pending_work; by rewrite Htk). rewrite E.
      apply (staged_work i _ _ tk 0); [by rewrite Htk|unfold remaining; by rewrite Est|done].
Qed.
Lemma no_work_left s :
  co_inv s → pending_work s = 0 →
  (∀ i tk, tc_tasks s !! i = Some tk → ∃ r, tk_stage tk = Done r) ∧ pending_tails s = [].
Proof.
  intros HI Hz. unfold pending_work in Hz. apply nsum_zero in Hz. rewrite Forall_fmap, Forall_lookup in Hz.
  assert (Hd : ∀ i tk, tc_tasks s !! i = Some tk → ∃ r, tk_stage tk = Done r).
  { intros i tk Hi. specialize (Hz i tk Hi). unfold remaining in Hz. cbn in Hz. destruct (tk_stage tk) as [| | |r]; try done. by exists r. }
  split; [exact Hd|]. unfold pending_tails. apply elem_of_nil_inv. intros t [Hnd Ht]%list_elem_of_filter.
  apply list_elem_of_omap in Ht as ([k e] & Hke & Htail). apply elem_of_map_to_list in Hke. cbn in Htail.
  pose proof (ci_entry _ HI k e Hke) as Hent. unfold entry_inv in Hent. rewrite Htail in Hent.
  destruct Hent as (tk & Htk & _). destruct (Hd t tk Htk) as (r & Hr). unfold is_done in Hnd. by rewrite Htk, Hr in Hnd.
Qed.
Lemma run_app es1 es2 s : run (es1 ++ es2) s = run es1 s ≫= run es2.
Proof. revert s. induction es1 as [|ev es IH]; intros s; cbn; [done|]. destruct (step ev s); cbn; [apply IH|done]. Qed.

(** C38: no deadlock: whatever state the calls have led to, the tasks in flight can
    run to completion, in as many steps as they have stages left, without any
    further call; then [wait_idle] finds nothing to wait for. *)
Theorem transfers_drain backend s :
  reachable backend s →
  ∃ events s', Forall task_event events ∧ length events = pending_work s ∧ run events s = Some s' ∧
    (∀ i tk, tc_tasks s' !! i = Some tk → ∃ r, tk_stage tk = Done r) ∧ pending_tails s' = [].
Proof.
  intros Hr. remember (pending_work s) as n eqn:En. revert s Hr En. induction n as [|n IH]; intros s Hr En;
    pose proof (si_core _ (reachable_inv _ _ Hr)) as HI.
  - exists [], s. destruct (no_work_left s HI (eq_sym En)). split_and!; [constructor|done|done|done|done].
  - assert (Hsome : ∃ i tk, tc_tasks s !! i = Some tk ∧ stage_done (tk_stage tk) = false).
    { destruct (decide (Forall (λ tk, stage_done (tk_stage tk) = true) (tc_tasks s))) as [Hall|Hn].
      - exfalso. unfold pending_work in En. symmetry in En. assert (E0 : nsum (remaining <$> tc_tasks s) = 0); [|lia].
        apply nsum_zero. rewrite Forall_fmap. eapply Forall_impl; [exact Hall|]. intros tk. unfold remaining. cbn. by destruct (tk_stage tk).
      - apply not_Forall_Exists in Hn; [|intros ?; apply _]. apply Exists_exists in Hn as (tk & Hin & Hnd).
        apply list_elem_of_lookup_1 in Hin as [i Hi]. exists i, tk. split; [done|]. by apply not_true_iff_false. }
    destruct Hsome as (i & tk & Hi & Hnd). destruct (step_enabled s i tk HI Hi Hnd) as (ev & s1 & Hev & Hstep & Hw).
    destruct (IH s1) as (es & s' & Hes & Hlen & Hrun & Hrest); [by eapply reach_step|lia|].
    exists (ev :: es), s'. split_and!; [by constructor|cbn; lia| |apply Hrest..]. cbn. by rewrite Hstep.
Qed.
(** ** [close] and a call that retries *)
Lemma leave_run s c o t j r :
  sys_inv s → tc_calls s !! c = Some (mkCall o (Blocked t j r)) →
  ∃ s1, leave (op_key o) j s = (inr tt, s1) ∧ co_inv s1 ∧ tc_tasks s1 = tc_tasks s ∧ tc_backend s1 = tc_backend s ∧
    tc_calls s1 = tc_calls s ∧
    en_state (default entry_init (tc_entries s1 !! op_key o)) = en_state (default entry_init (tc_entries s !! op_key o)).
Proof.
  intros HS Hcall. pose proof (si_core _ HS) as HI. pose proof (blocked_task s c o t j r HS Hcall) as (tk & Ht & Hk).
  destruct j; [|by exists s]. destruct (task_entry s t tk HI Ht) as (e & He & _). rewrite Hk in He.
  exists (with_waiters (op_key o) e (en_waiters e - 1) s). split.
  { unfold leave, mbind, M_bind, getS. rewrite He. reflexivity. }
  split_and!; [by apply waiters_inv|done..|]. cbn. by rewrite lookup_insert_eq, He.
Qed.

(** A key with no object and no transfer; one turn of [get] then starts one, and
    otherwise none. *)
Definition idle s (k : string) : Prop :=
  en_state (default entry_init (tc_entries s !! k)) = ABSENT ∨ en_state (default entry_init (tc_entries s !! k)) = FAILED.
Lemma get_attempt_idle key s :
  idle s key → ∃ stage s1, get_attempt key s = (inr stage, s1) ∧ same_core (submitted key FETCHING Fetch s) s1.
Proof.
  intros Hidle. unfold get_attempt, get_entry, mbind, M_bind, getS, mret, M_ret.
  destruct Hidle as [-> | ->]; rewrite start_task_run; (do 2 eexists; split; [reflexivity|done]).
Qed.
Lemma get_attempt_busy key s :
  ¬ idle s key → wp (get_attempt key) (λ _ s1, tc_tasks s1 = tc_tasks s) (λ _ s1, tc_tasks s1 = tc_tasks s) s.
Proof.
  unfold idle, get_attempt, get_entry. intros Hb. wp_steps.
  destruct (en_state _); try (exfalso; by auto); [|by apply wp_ret|..]; (destruct (en_task _); [|by apply wp_raise]);
    unfold set_entry, count; wp_steps; done.
Qed.
Lemma get_attempt_calls key s :
  wp (get_attempt key) (λ _ s1, tc_calls s1 = tc_calls s) (λ _ s1, tc_calls s1 = tc_calls s) s.
Proof.
  unfold get_attempt, get_entry. wp_steps. destruct (en_state _); try by apply wp_ret.
  all: try (destruct (en_task _); [|by apply wp_raise]; unfold set_entry, count; wp_steps; done).
  all: apply wp_bind; (eapply wp_of_run; [apply start_task_run|]); unfold count; wp_steps; done.
Qed.
(** Only a [get] retries. *)
Definition retries_get (cl : Call) : Prop :=
  match cl_stage cl with Blocked _ _ true => ∃ k, cl_op cl = OpGet k | _ => True end.
Definition calls_retry s : Prop := Forall retries_get (tc_calls s).
Lemma begin_call_retry o s : calls_retry s → wp (begin_call o) (λ _ s1, calls_retry s1) noexn s.
Proof.
  intros HS. unfold begin_call. apply wp_bind.
  apply (wp_mono _ (λ stage s1, tc_calls s1 = tc_calls s ∧ retries_get (mkCall o stage)) _ noexn); [|
    intros stage s1 [Hc Hr]; unfold calls_retry; wp_steps; cbn; rewrite Hc; apply Forall_app; by split; [|constructor]|done].
  apply wp_returning. unfold ensure_open, check_key. wp_steps. apply wp_raise_if; [intros _|by intros _].
  wp_steps. apply wp_raise_if; [intros _|by intros _].
  destruct o as [key|key p ov|key]; cbn [op_key].
  - eapply wp_mono; [apply get_attempt_calls|intros stage s1 Hc; split; [done|]..].
    + destruct stage as [? ? []| |]; try done. by exists key.
    + done.
  - unfold put_attempt. apply wp_bind. eapply wp_of_run; [apply start_task_run|]. unfold count. by wp_steps.
  - unfold evict_attempt. apply wp_bind. eapply wp_of_run; [apply start_task_run|]. unfold count. by wp_steps.
Qed.
Lemma set_call_retry s c o t j r stage s1 :
  calls_retry s → tc_calls s !! c = Some (mkCall o (Blocked t j r)) → tc_calls s1 = tc_calls s →
  retries_get (mkCall o stage) → wp (set_call c stage) (λ _ s2, calls_retry s2) noexn s1.
Proof.
  intros HS Hcall Hc Hr. unfold set_call, calls_retry. wp_steps. cbn. rewrite Hc. apply Forall_alter; [exact HS|].
  intros cl Hcl _. rewrite Hcall in Hcl. by injection Hcl as <-.
Qed.
Lemma resume_call_retry s c o t v j retry :
  sys_inv s → calls_retry s → tc_calls s !! c = Some (mkCall o (Blocked t j retry)) →
  wp (resume_call c o v j retry) (λ _ s1, calls_retry s1) noexn s.
Proof.
  intros HI HS Hcall. destruct (leave_run s c o t j retry HI Hcall) as (s1 & Hrun & _ & _ & _ & Hc & _).
  unfold resume_call. apply wp_bind.
  apply (wp_mono _ (λ stage s2, tc_calls s2 = tc_calls s ∧ retries_get (mkCall o stage)) _ noexn); [|
    intros stage s2 [Hc2 Hr]; by eapply set_call_retry|done].
  apply wp_returning, wp_bind. eapply wp_of_run; [exact Hrun|]. destruct v as [x|v]; [by apply wp_raise|].
  destruct retry; [|by apply wp_ret]. rewrite <-Hc.
  eapply wp_mono; [apply get_attempt_calls|intros stage s2 Hc2; split; [done|]..]; [|done].
  pose proof (proj1 (Forall_lookup _ _) HS c _ Hcall) as Hk. unfold retries_get in Hk. cbn in Hk. destruct Hk as [k ->].
  destruct stage as [? ? []| |]; try done. by exists k.
Qed.
Lemma run_state_both {A} (m : M (Coordinator B) A) (Q : Coordinator B → Prop) s :
  wp m (λ _ s1, Q s1) (λ _ s1, Q s1) s → Q (run_state m s).
Proof. unfold wp, run_state. by destruct (m s) as [[e|a] s1]. Qed.
Lemma reachable_retry backend s : reachable backend s → calls_retry s.
Proof.
  induction 1 as [|ev s s' Hr IH Hstep]; [constructor|]. pose proof (reachable_inv _ _ Hr) as HS.
  destruct ev as [o|t|t|t|c|c| |]; unfold step in Hstep.
  - injection Hstep as <-. by apply run_state_wp, begin_call_retry.
  - destruct (tc_tasks s !! t) as [tk|]; [|done]. cbn in Hstep. destruct (tk_stage tk); try done.
    destruct (previous_done tk s); [|done]. by injection Hstep as <-.
  - destruct (tc_tasks s !! t) as [tk|]; [|done]. cbn in Hstep. destruct (tk_stage tk); try done.
    destruct (backend_io tk (tc_backend s)). by injection Hstep as <-.
  - destruct (tc_tasks s !! t) as [tk|] eqn:Ht; [|done]. cbn in Hstep. destruct (tk_stage tk); try done.
    destruct (after_io tk r s) as [r' s1] eqn:Erun. injection Hstep as <-.
    destruct (task_entry s t tk (si_core _ HS) Ht) as (e & He & _).
    destruct (after_io_run tk r s e He) as (s2 & Hrun & _ & _ & _ & Hcl & _). rewrite Erun in Hrun. injection Hrun as _ ->.
    unfold calls_retry. cbn. by rewrite Hcl.
  - destruct (tc_calls s !! c) as [[o st]|] eqn:Hc; [|done]. cbn in Hstep. destruct st as [t j r| |]; try done.
    destruct (tc_tasks s !! t) as [tk|]; [|done]. cbn in Hstep. destruct (tk_stage tk); try done.
    injection Hstep as <-. by eapply run_state_wp, resume_call_retry.
  - destruct (tc_calls s !! c) as [[o st]|] eqn:Hc; [|done]. cbn in Hstep. destruct st as [t j r| |]; try done.
    injection Hstep as <-. apply run_state_both. unfold cancel_call.
    set (s0 := (match o with
      | OpGet _ => count (λ m, m <| cancelled_waiters := S (cancelled_waiters m) |>) | _ => mret tt end s).2).
    apply wp_bind. apply (wp_of_run _ _ _ _ tt s0); [by destruct o|]. apply wp_bind.
    assert (Hc0 : tc_calls s0 = tc_calls s) by by destruct o. clearbody s0.
    assert (Hset : ∀ s1, tc_calls s1 = tc_calls s0 → wp (set_call c Cancelled) (λ _ s2, calls_retry s2) (λ _ s2, calls_retry s2) s1).
    { intros s1 Hc1. eapply wp_mono; [eapply (set_call_retry s); [done..|congruence|done]|done|done]. }
    assert (HS0 : calls_retry s0) by (unfold calls_retry; by rewrite Hc0).
    unfold leave. destruct j; wp_steps; [|by apply Hset].
    destruct (tc_entries s0 !! op_key o); cbn [of_option]; [unfold set_entry; wp_steps; by apply Hset|by apply wp_raise].
  - by injection Hstep as <-.
  - destruct (tc_phase s); try done. destruct (pending_tails s); [|done]. by injection Hstep as <-.
Qed.
(** An event by which a [get] of [k] that waited for an eviction tries again and
    finds no object and no transfer. *)
Definition retries s ev (k : string) : Prop :=
  ∃ c t j tk v, ev = EResume c ∧ tc_calls s !! c = Some (mkCall (OpGet k) (Blocked t j true)) ∧
    tc_tasks s !! t = Some tk ∧ tk_stage tk = Done (inr v) ∧ idle s k.
#[local] Instance idle_dec s k : Decision (idle s k).
Proof. unfold idle. apply _. Defined.
#[local] Instance is_get_dec (o : Op) : Decision (∃ k, o = OpGet k).
Proof. destruct o as [k| |]; [left; by exists k|right; by intros [? ?]..]. Defined.
#[local] Instance succeeds_dec (r : result (option bytes)) : Decision (∃ p, r = inr p).
Proof. destruct r as [|p]; [right; by intros [? ?]|left; by exists p]. Defined.
Lemma idle_tail_done s k e :
  co_inv s → tc_entries s !! k = Some e → idle s k →
  match en_io_tail e with Some t => is_done t s = true | None => True end.
Proof.
  intros HI He Hid. pose proof (ci_entry _ HI k e He) as Hi. unfold entry_inv, idle in *. rewrite He in Hid. cbn in Hid.
  destruct (en_io_tail e) as [t|]; [|done]. destruct Hi as (tk & Ht & _ & _ & Hs & _). apply is_done_true.
  destruct (tk_stage tk) as [| | |r] eqn:Est; [..|by exists tk, r];
    (exfalso; destruct Hs as (_ & Hs & _); rewrite Hs in Hid; destruct (tk_run tk); naive_solver).
Qed.
(** The transfer that starts can reach the backend at once. *)
Lemma fetch_runs k s s1 :
  co_inv s → idle s k → same_core (submitted k FETCHING Fetch s) s1 →
  ∃ s2, run [EStart (length (tc_tasks s)); EIo (length (tc_tasks s))] s1 = Some s2 ∧
    tc_backend s2 = (st_get k (tc_backend s)).2.
Proof.
  intros HI Hid (Hb & _ & Ht & _). cbn [run step].
  assert (Hnew : tc_tasks s1 !! length (tc_tasks s) = Some (mkTask k Fetch
    (S (en_generation (default entry_init (tc_entries s !! k)))) (en_io_tail (default entry_init (tc_entries s !! k))) Waiting)).
  { rewrite Ht. cbn. by apply list_lookup_middle. }
  rewrite Hnew. cbn [mbind option_bind tk_stage]. unfold previous_done. cbn [tk_previous].
  assert (Hp : match en_io_tail (default entry_init (tc_entries s !! k)) with None => true | Some p => is_done p s1 end = true).
  { destruct (tc_entries s !! k) as [e|] eqn:He; [|done]. cbn. pose proof (idle_tail_done s k e HI He Hid) as Hd.
    destruct (en_io_tail e); [|done]. unfold is_done. rewrite Ht. by apply done_submitted. }
  rewrite Hp. cbn [mbind option_bind step run_state set_stage modifyS snd]. cbn [tc_tasks setter set_tc_tasks].
  rewrite list_lookup_alter_eq, Hnew. cbn. rewrite Hb. cbn. destruct (st_get k (tc_backend s)) as [r b]. by eexists.
Qed.
Lemma resume_get s c k t j v :
  sys_inv s → tc_calls s !! c = Some (mkCall (OpGet k) (Blocked t j true)) → idle s k →
  let s1 := run_state (resume_call c (OpGet k) (inr v) j true) s in
  length (tc_tasks s1) = S (length (tc_tasks s)) ∧
  ∃ s2, run [EStart (length (tc_tasks s)); EIo (length (tc_tasks s))] s1 = Some s2 ∧
    tc_backend s2 = (st_get k (tc_backend s)).2.
Proof.
  intros HS Hcall Hid. destruct (leave_run s c _ t j true HS Hcall) as (s0 & Hrun & HI0 & Ht0 & Hb0 & _ & He0).
  cbn [op_key] in *. assert (Hid0 : idle s0 k) by (unfold idle in *; by rewrite He0).
  destruct (get_attempt_idle k s0 Hid0) as (stage & s1 & Hrun1 & Hcore).
  unfold run_state, resume_call, returning, try_except, mbind, M_bind. cbn [op_key]. rewrite Hrun, Hrun1.
  cbn [set_call modifyS snd].
  assert (Hcore2 : same_core (submitted k FETCHING Fetch s0)
    (s1 <| tc_calls := alter (λ cl, mkCall (cl_op cl) stage) c (tc_calls s1) |>)) by exact Hcore.
  destruct (fetch_runs k s0 _ HI0 Hid0 Hcore2) as (s2 & Hrun2 & Hb2). rewrite Ht0 in Hrun2. split.
  - destruct Hcore as (_ & _ & Ht & _). cbn. rewrite Ht. cbn. rewrite length_app, Ht0. cbn. lia.
  - exists s2. split; [exact Hrun2|]. by rewrite Hb2, Hb0.
Qed.
Lemma resume_quiet s c o t tk v j r :
  sys_inv s → calls_retry s → tc_calls s !! c = Some (mkCall o (Blocked t j r)) → tc_tasks s !! t = Some tk →
  tk_stage tk = Done v →
  (∃ k, retries s (EResume c) k) ∨ tc_tasks (run_state (resume_call c o v j r) s) = tc_tasks s.
Proof.
  intros HS HR Hcall Ht Hst. destruct (decide ((∃ k, o = OpGet k) ∧ r = true ∧ (∃ p, v = inr p) ∧ idle s (op_key o)))
    as [([k ->] & -> & [p ->] & Hid)|Hno].
  { left. exists k, c, t, j, tk, p. by split_and!. }
  right. destruct (leave_run s c o t j r HS Hcall) as (s0 & Hrun & _ & Ht0 & _ & _ & He0).
  apply run_state_wp. unfold resume_call. apply wp_bind.
  apply (wp_mono _ (λ _ s1, tc_tasks s1 = tc_tasks s) _ noexn); [|intros stage s1 E; unfold set_call; by wp_steps|done].
  apply wp_returning, wp_bind. eapply wp_of_run; [exact Hrun|]. destruct v as [x|v]; [by apply wp_raise|].
  destruct r; [|by apply wp_ret]. rewrite <-Ht0. apply get_attempt_busy. intros Hid.
  pose proof (proj1 (Forall_lookup _ _) HR c _ Hcall) as Hk. unfold retries_get in Hk. cbn in Hk. destruct Hk as [k ->].
  apply Hno. split_and!; [by exists k|done|by exists v|]. unfold idle in *. cbn [op_key] in *. by rewrite <-He0.
Qed.
Lemma closed_quiet backend s ev s1 :
  reachable backend s → tc_phase s ≠ Open → step ev s = Some s1 →
  (∃ k, retries s ev k) ∨ length (tc_tasks s1) = length (tc_tasks s).
Proof.
  intros Hr Hph Hstep. pose proof (reachable_inv _ _ Hr) as HS.
  destruct ev as [o|t|t|t|c|c| |]; [right|right|right|right| |right|right|right]; unfold step in Hstep.
  - injection Hstep as <-. unfold run_state, begin_call, returning, try_except, ensure_open, mbind, M_bind, getS.
    by destruct (tc_phase s).
  - destruct (tc_tasks s !! t) as [tk|]; [|done]. cbn in Hstep. destruct (tk_stage tk); try done.
    destruct (previous_done tk s); [|done]. injection Hstep as <-. cbn. by rewrite length_alter.
  - destruct (tc_tasks s !! t) as [tk|]; [|done]. cbn in Hstep. destruct (tk_stage tk); try done.
    destruct (backend_io tk (tc_backend s)). injection Hstep as <-. cbn. by rewrite length_alter.
  - destruct (tc_tasks s !! t) as [tk|] eqn:Ht; [|done]. cbn in Hstep. destruct (tk_stage tk); try done.
    destruct (after_io tk r s) as [r' s2] eqn:Erun. injection Hstep as <-.
    destruct (task_entry s t tk (si_core _ HS) Ht) as (e & He & _).
    destruct (after_io_run tk r s e He) as (s3 & Hrun & _ & Htk & _). rewrite Erun in Hrun. injection Hrun as _ ->.
    cbn. by rewrite length_alter, Htk.
  - destruct (tc_calls s !! c) as [[o st]|] eqn:Hc; [|done]. cbn in Hstep. destruct st as [t j r| |]; try done.
    destruct (tc_tasks s !! t) as [tk|] eqn:Ht; [|done]. cbn in Hstep. destruct (tk_stage tk) eqn:Est; try done.
    injection Hstep as <-.
    destruct (resume_quiet s c o t tk _ j r HS (reachable_retry _ _ Hr) Hc Ht Est) as [|E]; [by left|right; by rewrite E].
  - destruct (tc_calls s !! c) as [[o st]|] eqn:Hc; [|done]. cbn in Hstep. destruct st as [t j r| |]; try done.
    injection Hstep as <-. f_equal. apply run_state_both. unfold cancel_call. apply wp_bind.
    destruct o as [key|key p ov|key]; unfold count, leave, set_call; wp_steps; destruct j; wp_steps; try done; cbn [op_key tc_entries setter set_tc_metrics];
      (destruct (tc_entries s !! key); cbn [of_option]; [unfold set_entry; wp_steps; done|by apply wp_raise]).
  - by injection Hstep as <-.
  - destruct (tc_phase s); try done. destruct (pending_tails s); [|done]. by injection Hstep as <-.
Qed.

(** C40: what [close] lets through: once [close] has begun, and for ever after, the
    only event that starts a transfer is a [get] that was waiting for an eviction
    and tries again, since [get] checks that the coordinator is open before its loop
    only. When the key then has no object, such a [get] does start one, whatever the
    interleaving, and its thread can call the backend at once, even a closed one. *)
Theorem get_after_close backend s ev s1 :
  reachable backend s → tc_phase s ≠ Open → step ev s = Some s1 →
  (length (tc_tasks s1) ≠ length (tc_tasks s) → ∃ k, retries s ev k) ∧
  (∀ k, retries s ev k → length (tc_tasks s1) = S (length (tc_tasks s)) ∧
     ∃ s2, run [EStart (length (tc_tasks s)); EIo (length (tc_tasks s))] s1 = Some s2 ∧
       tc_backend s2 = (st_get k (tc_backend s)).2).
Proof.
  intros Hr Hph Hstep. split.
  - intros Hne. by destruct (closed_quiet backend s ev s1 Hr Hph Hstep).
  - intros k (c & t & j & tk & v & -> & Hc & Ht & Hst & Hid). unfold step in Hstep. rewrite Hc in Hstep. cbn in Hstep.
    rewrite Ht in Hstep. cbn in Hstep. rewrite Hst in Hstep. injection Hstep as <-.
    by apply (resume_get s c k t j v (reachable_inv _ _ Hr)).
Qed.
End contract.

(** ** Witnesses: an upload that a reader joins *)
Lemma run_reachable {B} `{LawfulBackend B} (b : B) es (s s' : Coordinator B) :
  reachable b s → run es s = Some s' → reachable b s'.
Proof.
  revert s. induction es as [|ev es IH]; intros s Hr Hrun; cbn in Hrun; [by injection Hrun as <-|].
  destruct (step ev s) as [s1|] eqn:E; [|done]. apply (IH s1); [by eapply reach_step|done].
Qed.
Definition empty_store : InMemoryKVStore := mkInMemory ∅.
Definition joined_upload : list event :=
  [ECall (OpPut "k" [1%Z; 2%Z] false); ECall (OpGet "k"); ECall (OpPut "k" [3%Z] true); EStart 0; EIo 0].
Definition after_upload : list event := joined_upload ++ [EFinish 0; EStart 1; EIo 1; EFinish 1; EResume 1].
Definition state_after (es : list event) : Coordinator InMemoryKVStore :=
  default (coordinator_init empty_store) (run es (coordinator_init empty_store)).
Lemma mid_reachable : reachable empty_store (state_after joined_upload).
Proof. apply (run_reachable empty_store joined_upload (coordinator_init empty_store)); [apply reach_init|vm_compute; reflexivity]. Qed.
Lemma end_reachable : reachable empty_store (state_after after_upload).
Proof. apply (run_reachable empty_store after_upload (coordinator_init empty_store)); [apply reach_init|vm_compute; reflexivity]. Qed.

Lemma io_serialized_witness :
  ∃ ti tj r, tc_tasks (state_after after_upload) !! 0 = Some ti ∧ tc_tasks (state_after after_upload) !! 1 = Some tj ∧
    tk_key ti = tk_key tj ∧ tk_stage ti = Done r.
Proof.
  destruct (tc_tasks (state_after after_upload) !! 0) as [ti|] eqn:E0; [|vm_compute in E0; discriminate E0].
  destruct (tc_tasks (state_after after_upload) !! 1) as [tj|] eqn:E1; [|vm_compute in E1; discriminate E1].
  assert (Hk : tk_key ti = tk_key tj) by (vm_compute in E0, E1; injection E0 as <-; injection E1 as <-; reflexivity).
  assert (Hst : tk_stage tj ≠ Waiting) by (vm_compute in E1; injection E1 as <-; discriminate).
  destruct (io_serialized empty_store _ 0 1 ti tj end_reachable (le_n 1) E0 E1 Hk Hst) as [r Hr].
  exists ti, tj, r. split_and!; [reflexivity|reflexivity|exact Hk|exact Hr].
Defined.
Lemma resident_coherent_witness :
  ∃ e p, tc_entries (state_after after_upload) !! "k" = Some e ∧ en_payload e = Some p ∧
    objects (tc_backend (state_after after_upload)) !! "k" = Some p.
Proof.
  destruct (tc_entries (state_after after_upload) !! "k") as [e|] eqn:E; [|vm_compute in E; discriminate E].
  assert (Hst : en_state e = RESIDENT) by (vm_compute in E; injection E as <-; reflexivity).
  assert (Hopen : tc_phase (state_after after_upload) ≠ Closed) by (vm_compute; discriminate).
  destruct (proj1 (resident_coherent empty_store _ "k" e end_reachable Hopen E) Hst) as (p & v & Hp & Hv & [->|[Ho _]]).
  - exists e, p. split_and!; [reflexivity|exact Hp|exact Hv].
  - discriminate Ho.
Defined.
Lemma get_coalesces_witness :
  ∃ stage s', begin_call (OpGet "k") (state_after joined_upload) = (inr tt, s') ∧
    tc_calls s' = tc_calls (state_after joined_upload) ++ [mkCall (OpGet "k") stage].
Proof.
  destruct (get_coalesces empty_store _ "k" mid_reachable eq_refl eq_refl) as (stage & s' & H1 & H2 & _).
  exists stage, s'. split; [exact H1|exact H2].
Defined.
Lemma calls_accounted_witness :
  en_waiters (default entry_init (tc_entries (state_after joined_upload) !! "k")) =
  joined_count "k" (tc_calls (state_after joined_upload)).
Proof. exact (proj1 (calls_accounted empty_store _ mid_reachable) "k"). Defined.
Lemma transfers_drain_witness :
  ∃ events s', length events = 4 ∧ run events (state_after joined_upload) = Some s' ∧ pending_tails s' = [].
Proof.
  destruct (transfers_drain empty_store _ mid_reachable) as (events & s' & _ & Hlen & Hrun & _ & Hp).
  exists events, s'. split_and!; [rewrite Hlen; vm_compute; reflexivity|exact Hrun|exact Hp].
Defined.

(** A [get] waits for an eviction; it tries again while a second eviction keeps
    [close] waiting, and a last time once the store is closed. *)
Definition closed_while_evicting : list event :=
  [ECall (OpEvict "k"); ECall (OpGet "k"); ECall (OpEvict "k"); EClose; EStart 0; EIo 0; EFinish 0;
   EResume 1; EStart 1; EIo 1; EFinish 1; ECloseBackend].
Lemma get_after_close_witness :
  let s := state_after closed_while_evicting in
  tc_phase s = Closed ∧
  ∃ s1 s2, step (EResume 1) s = Some s1 ∧ length (tc_tasks s1) = 3 ∧ run [EStart 2; EIo 2] s1 = Some s2 ∧
    tc_backend s2 = (st_get "k" (tc_backend s)).2.
Proof.
  assert (Hr : reachable empty_store (state_after closed_while_evicting))
    by (apply (run_reachable empty_store closed_while_evicting (coordinator_init empty_store));
        [apply reach_init|vm_compute; reflexivity]).
  split; [vm_compute; reflexivity|].
  destruct (step (EResume 1) (state_after closed_while_evicting)) as [s1|] eqn:E; [|vm_compute in E; discriminate E].
  assert (Hph : tc_phase (state_after closed_while_evicting) ≠ Open) by (vm_compute; discriminate).
  assert (Hret : retries (state_after closed_while_evicting) (EResume 1) "k").
  { exists 1, 1, true. do 2 eexists. split_and!; [reflexivity|vm_compute; reflexivity..|left; vm_compute; reflexivity]. }
  destruct (proj2 (get_after_close empty_store _ _ _ Hr Hph E) "k" Hret) as (Hlen & s2 & Hrun & Hb).
  exists s1, s2. split_and!; [reflexivity|rewrite Hlen; vm_compute; reflexivity|exact Hrun|exact Hb].
Defined.

(** ** A store whose put keeps an existing object *)
Definition insert_only_put (k : string) (v : bytes) : M InMemoryKVStore () :=
  modifyS (λ b, match objects b !! k with Some _ => b | None => mkInMemory (<[k := v]> (objects b)) end).
Definition insert_only_ops : KVStorageBackend InMemoryKVStore := {|
  st_put := insert_only_put; st_upsert := mem_upsert; st_get := mem_get; st_exists := mem_exists;
  st_remove := mem_remove; st_put_many := mem_put_many; st_get_many := mem_get_many;
  st_exists_many := mem_exists_many; st_remove_many := mem_remove_many; st_close := mem_close
|}.
Lemma insert_only_lawful : @LawfulBackend InMemoryKVStore insert_only_ops.
Proof.
  refine (@Build_LawfulBackend _ insert_only_ops objects false _ _ _ _ _); intros; cbn;
    unfold insert_only_put, mem_upsert, mem_get, mem_exists, mem_remove; wp_steps; try done; [|by split..].
  destruct (objects b !! k) eqn:E; [right|by left]. by rewrite E.
Qed.
(** Two plain puts: the coordinator answers with the second payload, the store holds
    the first. An upsert brings them together again. *)
Example insert_only_diverges :
  let once t := [EStart t; EIo t; EFinish t] in
  let puts := ECall (OpPut "k" [1%Z] false) :: once 0 ++ ECall (OpPut "k" [2%Z] false) :: once 1 in
  let after es := run (H := insert_only_ops) es (coordinator_init empty_store) in
  let both s := (en_payload <$> (tc_entries s !! "k"), objects (tc_backend s) !! "k") in
  both <$> after puts = Some (Some (Some [2%Z]), Some [1%Z]) ∧
  both <$> after (puts ++ ECall (OpPut "k" [3%Z] true) :: once 2) = Some (Some (Some [3%Z]), Some [3%Z]).
Proof. split; vm_compute; reflexivity. Qed.
