(* ===== verification/SchedulerTrace.v ===== *)
(** * The bounded flight recorder

    Models [nanovllm/engine/scheduler_trace.py]. The trace file is the list of
    lines written to it, ASCII text; whether the operating system accepts the [n]-th
    append is a parameter. *)
From S2P Require Import Prelude Json.
Set Default Goal Selector "!".

Record Row := mkRow { row_id : nat; row_event : Json }.

Record SchedulerTrace := mkSchedulerTrace {
  tr_history_max : nat;
  tr_history : list Row;
  tr_following : nat;
  tr_remaining : nat;
  tr_max_triggers : nat;
  tr_triggers : nat;
  tr_max_bytes : nat;
  tr_bytes_written : nat;
  tr_event_id : nat;
  tr_last_written : Z;
  tr_enabled : bool;
  tr_file : list text;
  tr_appends : nat
}.
#[export] Instance SchedulerTrace_eta : RecordEta SchedulerTrace := λ r, {|
  tr_history_max := tr_history_max r; tr_history := tr_history r; tr_following := tr_following r;
  tr_remaining := tr_remaining r; tr_max_triggers := tr_max_triggers r; tr_triggers := tr_triggers r;
  tr_max_bytes := tr_max_bytes r; tr_bytes_written := tr_bytes_written r; tr_event_id := tr_event_id r;
  tr_last_written := tr_last_written r; tr_enabled := tr_enabled r; tr_file := tr_file r;
  tr_appends := tr_appends r |}.
#[export] Instance set_tr_history : Setter tr_history := ltac:(derive_setter).
#[export] Instance set_tr_remaining : Setter tr_remaining := ltac:(derive_setter).
#[export] Instance set_tr_triggers : Setter tr_triggers := ltac:(derive_setter).
#[export] Instance set_tr_bytes_written : Setter tr_bytes_written := ltac:(derive_setter).
#[export] Instance set_tr_event_id : Setter tr_event_id := ltac:(derive_setter).
#[export] Instance set_tr_last_written : Setter tr_last_written := ltac:(derive_setter).
#[export] Instance set_tr_enabled : Setter tr_enabled := ltac:(derive_setter).
#[export] Instance set_tr_file : Setter tr_file := ltac:(derive_setter).
#[export] Instance set_tr_appends : Setter tr_appends := ltac:(derive_setter).

(** [deque(maxlen=n).append(x)] *)
Definition push_bounded {A} (n : nat) (x : A) (l : list A) : list A :=
  let l := l ++ [x] in drop (length l - n) l.

Section trace.
Context `{FloatRepr} (append_ok : nat → bool).

Definition newline : text := [10%Z].
(** [json.dumps(value, allow_nan=allow_nan)] *)
Definition trace_dumps (allow_nan : bool) : Json → result text :=
  dumps (mkStyle [44; 32]%Z [58; 32]%Z false allow_nan).
(** [{**base, **fields}] *)
Definition dict_update (base fields : list (string * Json)) : list (string * Json) :=
  foldl (λ d kv, dict_set kv.1 kv.2 d) base fields.

(** [SchedulerTrace.__init__]; [exists_already] makes the exclusive open fail. *)
Definition trace_init (metadata : list (string * Json)) (exists_already : bool)
    (history following max_triggers max_bytes : nat) : result SchedulerTrace :=
  throw_if exists_already (OSError "File exists");;
  line ← trace_dumps true (JObj (dict_update [("event", JStr "header"); ("schema_version", JInt 1);
                       ("history_events", JInt (Z.of_nat history));
                       ("following_events", JInt (Z.of_nat following));
                       ("max_triggers", JInt (Z.of_nat max_triggers));
                       ("max_bytes", JInt (Z.of_nat max_bytes))] metadata));
  let header := line ++ newline in
  mret {| tr_history_max := history; tr_history := []; tr_following := following; tr_remaining := 0;
          tr_max_triggers := max_triggers; tr_triggers := 0; tr_max_bytes := max_bytes;
          tr_bytes_written := length header; tr_event_id := 0; tr_last_written := -1;
          tr_enabled := true; tr_file := [header]; tr_appends := 0 |}.

(** One line of the payload. *)
Definition row_line (r : Row) : result text :=
  line ← trace_dumps false (JObj (dict_set "event_id" (JInt (Z.of_nat (row_id r)))
                                   (match row_event r with JObj fs => fs | _ => [] end)));
  mret (line ++ newline).

Definition payload_of (rows : list Row) : result text :=
  lines ← mapR row_line rows;
  mret (concat lines).

(** The part of [record] inside [try]. *)
Definition write_rows (rows : list Row) : M SchedulerTrace () :=
  payload ← lift (payload_of rows);
  tr ← getS;
  let n := length payload in
  if tr_max_bytes tr <? tr_bytes_written tr + n then
    modifyS (λ tr, tr <| tr_enabled := false |>)
  else
    modifyS (λ tr, tr <| tr_appends := S (tr_appends tr) |>);;
    raise_if (negb (append_ok (tr_appends tr))) (OSError "write");;
    modifyS (λ tr, tr <| tr_file := tr_file tr ++ [payload] |>);;
    modifyS (λ tr, tr <| tr_bytes_written := tr_bytes_written tr + n |>);;
    last_row ← lift (py_nth rows (-1));
    modifyS (λ tr, tr <| tr_last_written := Z.of_nat (row_id last_row) |>);;
    modifyS (λ tr, tr <| tr_remaining := tr_remaining tr - 1 |>);;
    tr ← getS;
    if (tr_max_triggers tr <=? tr_triggers tr) && (tr_remaining tr =? 0)
    then modifyS (λ tr, tr <| tr_enabled := false |>)
    else mret tt.

(** [except (OSError, ValueError)] *)
Definition is_trace_failure (e : exn) : bool :=
  match e with OSError _ | ValueError _ => true | _ => false end.

(** [SchedulerTrace.record] *)
Definition record (event : Json) (trigger : bool) : M SchedulerTrace () :=
  tr ← getS;
  if negb (tr_enabled tr) then mret tt
  else
    let row := {| row_id := tr_event_id tr; row_event := event |} in
    modifyS (λ tr, tr <| tr_event_id := S (tr_event_id tr) |>);;
    modifyS (λ tr, tr <| tr_history := push_bounded (tr_history_max tr) row (tr_history tr) |>);;
    rows ← (if trigger && (tr_triggers tr <? tr_max_triggers tr) then
              modifyS (λ tr, tr <| tr_triggers := S (tr_triggers tr) |>);;
              modifyS (λ tr, tr <| tr_remaining := tr_following tr + 1 |>);;
              tr ← getS;
              mret (Some (filter (λ r, tr_last_written tr < Z.of_nat (row_id r))%Z (tr_history tr)))
            else if negb (tr_remaining tr =? 0) then mret (Some [row])
            else mret None);
    match rows with
    | None => mret tt
    | Some rows =>
        try_except (write_rows rows)
          (λ e, if is_trace_failure e then modifyS (λ tr, tr <| tr_enabled := false |>) else raise e)
    end.
End trace.

(** ** The bounds of the recorder *)
Section bounds.
Context `{FloatRepr} (append_ok : nat → bool).

(** The file never exceeds its byte limit, event ids are fresh, and the rows kept
    in memory are bounded and in order. *)
Record trace_inv (tr : SchedulerTrace) : Prop := {
  ti_bytes : tr_bytes_written tr <= tr_max_bytes tr;
  ti_sum : tr_bytes_written tr = nsum (length <$> tr_file tr);
  ti_triggers : tr_triggers tr <= tr_max_triggers tr;
  ti_history : length (tr_history tr) <= tr_history_max tr;
  ti_ids r : r ∈ tr_history tr → row_id r < tr_event_id tr;
  ti_written : (tr_last_written tr < Z.of_nat (tr_event_id tr))%Z
}.

Lemma push_bounded_length {A} n (x : A) l : length (push_bounded n x l) <= n.
Proof. unfold push_bounded. rewrite length_drop. lia. Qed.
Lemma push_bounded_in {A} n (x y : A) l : y ∈ push_bounded n x l → y = x ∨ y ∈ l.
Proof.
  unfold push_bounded. intros Hy. assert (Hin : y ∈ l ++ [x]).
  { rewrite <-(take_drop (length (l ++ [x]) - n) (l ++ [x])). apply elem_of_app. by right. }
  set_solver.
Qed.

Lemma push_bounded_new {A} n (x : A) l : 0 < n → x ∈ push_bounded n x l.
Proof.
  intros Hn. unfold push_bounded. rewrite length_app. cbn [length].
  rewrite drop_app_le by lia. apply elem_of_app. right. by apply list_elem_of_singleton.
Qed.
(** Encoding rows raises nothing but [ValueError]. *)
Lemma payload_errors rows e : payload_of rows = inl e → is_trace_failure e = true.
Proof.
  unfold payload_of. intros Hp. result_err Hp. apply mapR_inl in Hp as (r & _ & Hp).
  unfold row_line, trace_dumps, dumps in Hp. result_err Hp. by subst.
Qed.

(** The part inside [try] keeps the invariant and raises only what is caught. *)
Lemma write_rows_inv rows tr :
  trace_inv tr → rows ≠ [] → (∀ r, r ∈ rows → row_id r < tr_event_id tr) →
  wp (write_rows append_ok rows) (λ _ tr', trace_inv tr') (λ e tr', is_trace_failure e = true ∧ trace_inv tr') tr.
Proof.
  intros HI Hne Hrows. unfold write_rows. wp_step. apply wp_lift; [|intros e He; split; [by eapply payload_errors|done]].
  intros payload _. wp_steps. destruct (_ <? _) eqn:E; breflect; wp_steps.
  { destruct HI; by split. }
  apply wp_raise_if; [|intros _; split; [done|]; destruct HI; by split]. intros _. wp_steps.
  destruct rows as [|r0 rows0] using rev_ind; [done|]. clear IHrows0.
  assert (Hlast : py_nth (rows0 ++ [r0]) (-1) = inr r0).
  { unfold py_nth. cbn [Z.ltb Z.compare]. rewrite length_app. cbn [length].
    rewrite (proj2 (Z.ltb_ge _ _)) by lia. replace (Z.to_nat _) with (length rows0) by lia.
    by rewrite list_lookup_middle. }
  apply wp_lift; [|intros e He; rewrite Hlast in He; done]. intros last_row E'. rewrite Hlast in E'. injection E' as <-.
  wp_steps. assert (Hin : row_id r0 < tr_event_id tr) by (apply Hrows; set_solver).
  assert (HI' : ∀ b, trace_inv (tr <| tr_appends := S (tr_appends tr) |> <| tr_file := tr_file tr ++ [payload] |>
    <| tr_bytes_written := tr_bytes_written tr + length payload |>
    <| tr_last_written := Z.of_nat (row_id r0) |> <| tr_remaining := tr_remaining tr - 1 |>
    <| tr_enabled := b |>)).
  { intros b. destruct HI. split; cbn; try done; [|lia].
    rewrite fmap_app, nsum_app. unfold nsum in *. cbn. lia. }
  destruct (_ && _); wp_steps; [apply (HI' false)|apply (HI' (tr_enabled tr))].
Qed.

Lemma write_rows_max rows tr :
  wp (write_rows append_ok rows) (λ _ tr', tr_history_max tr' = tr_history_max tr)
    (λ _ tr', tr_history_max tr' = tr_history_max tr) tr.
Proof.
  unfold write_rows. wp_step. apply wp_lift; [intros payload _|done]. wp_steps. destruct (_ <? _); wp_steps; [done|].
  apply wp_raise_if; [intros _|done]. wp_steps. apply wp_lift; [intros r _|done]. wp_steps. by destruct (_ && _).
Qed.

(** Recording keeps the recorder within its bounds (the bytes of the file, the
    rows in memory, the triggers), whatever the event, and no failure of the file
    system or of the encoder escapes to the scheduler. *)
Theorem record_bounded event trigger tr :
  trace_inv tr → 0 < tr_history_max tr →
  wp (record append_ok event trigger) (λ _ tr', trace_inv tr' ∧ tr_history_max tr' = tr_history_max tr) noexn tr.
Proof.
  intros HI Hmax. unfold record. wp_steps. destruct (negb (tr_enabled tr)); wp_steps; [done|].
  set (row := {| row_id := tr_event_id tr; row_event := event |}).
  set (tr1 := tr <| tr_event_id := S (tr_event_id tr) |>
     <| tr_history := push_bounded (tr_history_max tr) row (tr_history tr) |>).
  assert (HI1 : trace_inv tr1).
  { destruct HI. split; cbn; try done; try lia.
    - apply push_bounded_length.
    - intros r [->|Hr]%push_bounded_in; [cbn; lia|]. apply ti_ids0 in Hr. lia. }
  assert (Hw : ∀ rows tr', trace_inv tr' → rows ≠ [] → (∀ r, r ∈ rows → row_id r < tr_event_id tr') →
    tr_history_max tr' = tr_history_max tr →
    wp (try_except (write_rows append_ok rows)
          (λ e, if is_trace_failure e then modifyS (λ tr, tr <| tr_enabled := false |>) else raise e))
      (λ _ tr', trace_inv tr' ∧ tr_history_max tr' = tr_history_max tr) noexn tr').
  { intros rows tr' HI' Hne Hrows Hm. apply wp_try_except. eapply wp_mono.
    - apply wp_and; [by apply write_rows_inv|apply write_rows_max].
    - intros _ tr2 [??]. by rewrite <-Hm.
    - intros e tr2 [[Hf HI2] Hm2]. rewrite Hf. apply wp_modify. split; [destruct HI2; by split|]. cbn. congruence. }
  destruct (trigger && _) eqn:Et; wp_steps.
  - breflect. apply Hw.
    + destruct HI1. split; cbn in *; done || lia.
    + intros E. assert (Hin : row ∈ push_bounded (tr_history_max tr) row (tr_history tr)) by by apply push_bounded_new.
      assert (Hf : row ∈ ([] : list Row)); [|set_solver]. rewrite <-E. apply list_elem_of_filter. split; [|exact Hin].
      apply (ti_written _ HI).
    + intros r [_ Hr]%list_elem_of_filter. cbn in *. by apply (ti_ids _ HI1).
    + done.
  - destruct (negb _); wp_steps; [|done]. apply Hw; [done..| |done].
    intros r Hr%list_elem_of_singleton. subst r. cbn. lia.
Qed.
End bounds.

(** ** A recorder at the start of a run *)
Definition fixed_floats : FloatRepr := λ _, bytes_of "0.5".
Definition sample_trace : SchedulerTrace :=
  match @trace_init fixed_floats [("git", JStr "abc")] false 4 2 1 400 with inr tr => tr | inl _ => 
    mkSchedulerTrace 0 [] 0 0 0 0 0 0 0 0 false [] 0 end.
Lemma sample_trace_inv : trace_inv sample_trace.
Proof. split; try (apply (bool_decide_unpack _); vm_compute; done). by intros r ?%not_elem_of_nil. Qed.
Lemma record_bounded_witness :
  trace_inv sample_trace ∧ 0 < tr_history_max sample_trace ∧
  wp (@record fixed_floats (λ n, n =? 0) (JObj [("kind", JStr "stall")]) true)
    (λ _ tr', trace_inv tr' ∧ tr_history_max tr' = tr_history_max sample_trace) noexn sample_trace.
Proof.
  assert (Hmax : 0 < tr_history_max sample_trace) by (apply (bool_decide_unpack _); vm_compute; exact I).
  split; [exact sample_trace_inv|]. split; [exact Hmax|].
  exact (@record_bounded fixed_floats (λ n, n =? 0) (JObj [("kind", JStr "stall")]) true sample_trace sample_trace_inv Hmax).
Defined.
