(* ===== verification/Scheduler.v ===== *)
(** * The scheduler

    Models [nanovllm/engine/scheduler.py]. Request objects live in a store keyed
    by [seq_id]; the queues hold ids, so that a request mutated through one of
    them is seen through the others, as the code's shared objects are. The clock
    and [perf_counter] are streams of readings. The remote restore service is the interface
    [RestoreService] (implemented in [RemoteRestore.v]). *)
From S2P Require Import Prelude Qos Sequence Policy KvPolicy RadixCache BlockManager Json SchedulerTrace.
Set Default Goal Selector "!".

(** ** The restore service *)
Record RestoreCandidate (Pg : Type) := mkRestoreCandidate {
  cand_pages : list Pg;
  cand_total_ms : Q;
  cand_transfer_bytes : Z
}.
Arguments mkRestoreCandidate {Pg}.
Arguments cand_pages {Pg}.
Arguments cand_total_ms {Pg}.
Arguments cand_transfer_bytes {Pg}.
(** [RemoteRestoreCandidate.num_blocks] *)
Definition cand_num_blocks {Pg} (c : RestoreCandidate Pg) : nat := length (cand_pages c).

(** [R] is the service's state, [T] a transfer handle, [Pg] a page descriptor. *)
Class RestoreService (R T Pg : Type) := {
  plan_restore : Sequence → nat → Q → M R (option (RestoreCandidate Pg));
  submit_restore : nat → list Pg → list nat → M R T;
  transfer_done : T → R → bool;
  cancel_waiters : T → M R ()
}.

Record SchedulerConfig := mkSchedulerConfig {
  c_max_num_seqs : nat;
  c_max_num_active_seqs : option Z;
  c_kv_admission_lookahead : Z;
  c_max_num_batched_tokens : nat;
  c_max_model_len : nat;
  c_requested_max_model_len : nat;
  c_eos : Z;
  c_kvcache_block_size : nat;
  c_num_kvcache_blocks : nat;
  c_num_kvcache_blocks_override : option nat;
  c_prefix_cache_backend : string;
  c_qos_prefill_ms_per_token : Q;
  c_qos_decode_ms_per_token : Q;
  c_qos_ewma_alpha : Q;
  c_scheduling_policy : string;
  c_qos_best_effort_slo_ms : Q;
  c_qos_priority_boost_ms : Q;
  c_qos_aging_ms_per_step : Q;
  c_remote_kv_cost_aware : bool;
  c_kv_reclaim_policy : string;
  c_kv_reclaim_min_keep_ratio : Q;
  c_kv_reclaim_max_keep_ratio : Q;
  c_kv_reclaim_budget_scale_ms : Q;
  c_kv_reclaim_target_free_blocks : nat;
  c_kv_compression_policy : string;
  c_kv_compression_sink_blocks : nat;
  c_kv_compression_recent_blocks : nat;
  c_kv_compression_importance_blocks : nat;
  c_kv_compression_query_tokens : nat;
  c_kv_compression_trigger_free_ratio : Q;
  c_metrics_summary_mode : string;
  c_scheduler_trace_path : option string
}.

(** The counters of the scheduler object. *)
Record Counters := mkCounters {
  n_admission_deferred : nat;
  n_reclaim_events : nat;
  n_reclaim_requested : nat;
  n_reclaim_freed : nat;
  n_reclaim_retained : nat;
  n_reclaim_invalidated : nat;
  n_forced_fallbacks : nat;
  n_compression_events : nat;
  n_compression_dropped : nat;
  n_compression_freed : nat;
  n_compression_tokens : nat;
  n_restore_started : nat;
  n_restore_completed : nat;
  n_restore_failed : nat;
  n_cancelled : nat
}.
#[export] Instance Counters_eta : RecordEta Counters := λ r, {|
  n_admission_deferred := n_admission_deferred r; n_reclaim_events := n_reclaim_events r;
  n_reclaim_requested := n_reclaim_requested r; n_reclaim_freed := n_reclaim_freed r;
  n_reclaim_retained := n_reclaim_retained r; n_reclaim_invalidated := n_reclaim_invalidated r;
  n_forced_fallbacks := n_forced_fallbacks r; n_compression_events := n_compression_events r;
  n_compression_dropped := n_compression_dropped r; n_compression_freed := n_compression_freed r;
  n_compression_tokens := n_compression_tokens r; n_restore_started := n_restore_started r;
  n_restore_completed := n_restore_completed r; n_restore_failed := n_restore_failed r;
  n_cancelled := n_cancelled r |}.
#[export] Instance set_n_admission_deferred : Setter n_admission_deferred := ltac:(derive_setter).
#[export] Instance set_n_reclaim_events : Setter n_reclaim_events := ltac:(derive_setter).
#[export] Instance set_n_reclaim_requested : Setter n_reclaim_requested := ltac:(derive_setter).
#[export] Instance set_n_reclaim_freed : Setter n_reclaim_freed := ltac:(derive_setter).
#[export] Instance set_n_reclaim_retained : Setter n_reclaim_retained := ltac:(derive_setter).
#[export] Instance set_n_reclaim_invalidated : Setter n_reclaim_invalidated := ltac:(derive_setter).
#[export] Instance set_n_forced_fallbacks : Setter n_forced_fallbacks := ltac:(derive_setter).
#[export] Instance set_n_compression_events : Setter n_compression_events := ltac:(derive_setter).
#[export] Instance set_n_compression_dropped : Setter n_compression_dropped := ltac:(derive_setter).
#[export] Instance set_n_compression_freed : Setter n_compression_freed := ltac:(derive_setter).
#[export] Instance set_n_compression_tokens : Setter n_compression_tokens := ltac:(derive_setter).
#[export] Instance set_n_restore_started : Setter n_restore_started := ltac:(derive_setter).
#[export] Instance set_n_restore_completed : Setter n_restore_completed := ltac:(derive_setter).
#[export] Instance set_n_restore_failed : Setter n_restore_failed := ltac:(derive_setter).
#[export] Instance set_n_cancelled : Setter n_cancelled := ltac:(derive_setter).
Definition no_counts : Counters := mkCounters 0 0 0 0 0 0 0 0 0 0 0 0 0 0 0.

(** [PendingRestoreState] *)
Record PendingRestoreState (T : Type) := mkPendingRestore {
  pr_sequence : nat;
  pr_transfer : T;
  pr_total_cached_blocks : nat;
  pr_restored_blocks : nat
}.
Arguments mkPendingRestore {T}.
Arguments pr_sequence {T}.
Arguments pr_transfer {T}.
Arguments pr_total_cached_blocks {T}.
Arguments pr_restored_blocks {T}.

Record Scheduler (R T : Type) := mkScheduler {
  cfg : SchedulerConfig;
  max_num_active_seqs : option nat;
  kv_admission_lookahead : nat;
  block_manager : BlockManager;
  objs : gmap nat Sequence;
  waiting : list nat;
  running : list nat;
  step_id : nat;
  ticks : nat;
  estimator : ExecutionTimeEstimator;
  policy : AnyPolicy;
  kv_reclaim_policy : KVReclaimPolicy;
  counts : Counters;
  completed_metrics : list RequestMetrics;
  metrics_by_seq_id : gmap nat RequestMetrics;
  completed_summary : option MetricsSummary;
  completed_summary_count : Z;
  summary_calls : nat;
  summary_refreshes : nat;
  summary_elapsed_ms : Q;
  perf_ticks : nat;
  remote_restore_service : option R;
  pending_restores : list (nat * PendingRestoreState T);
  trace : option SchedulerTrace
}.
Arguments mkScheduler {R T}.
Arguments cfg {R T}.
Arguments max_num_active_seqs {R T}.
Arguments kv_admission_lookahead {R T}.
Arguments block_manager {R T}.
Arguments objs {R T}.
Arguments waiting {R T}.
Arguments running {R T}.
Arguments step_id {R T}.
Arguments ticks {R T}.
Arguments estimator {R T}.
Arguments policy {R T}.
Arguments kv_reclaim_policy {R T}.
Arguments counts {R T}.
Arguments completed_metrics {R T}.
Arguments metrics_by_seq_id {R T}.
Arguments completed_summary {R T}.
Arguments completed_summary_count {R T}.
Arguments summary_calls {R T}.
Arguments summary_refreshes {R T}.
Arguments summary_elapsed_ms {R T}.
Arguments perf_ticks {R T}.
Arguments remote_restore_service {R T}.
Arguments pending_restores {R T}.
Arguments trace {R T}.
#[export] Instance Scheduler_eta {R T} : RecordEta (Scheduler R T) := λ r, {|
  cfg := cfg r; max_num_active_seqs := max_num_active_seqs r;
  kv_admission_lookahead := kv_admission_lookahead r; block_manager := block_manager r;
  objs := objs r; waiting := waiting r; running := running r; step_id := step_id r;
  ticks := ticks r; estimator := estimator r; policy := policy r;
  kv_reclaim_policy := kv_reclaim_policy r; counts := counts r;
  completed_metrics := completed_metrics r; metrics_by_seq_id := metrics_by_seq_id r;
  completed_summary := completed_summary r; completed_summary_count := completed_summary_count r;
  summary_calls := summary_calls r; summary_refreshes := summary_refreshes r;
  summary_elapsed_ms := summary_elapsed_ms r; perf_ticks := perf_ticks r;
  remote_restore_service := remote_restore_service r; pending_restores := pending_restores r;
  trace := trace r |}.
#[export] Instance set_block_manager {R T} : Setter (@block_manager R T) := ltac:(derive_setter).
#[export] Instance set_objs {R T} : Setter (@objs R T) := ltac:(derive_setter).
#[export] Instance set_waiting {R T} : Setter (@waiting R T) := ltac:(derive_setter).
#[export] Instance set_running {R T} : Setter (@running R T) := ltac:(derive_setter).
#[export] Instance set_step_id {R T} : Setter (@step_id R T) := ltac:(derive_setter).
#[export] Instance set_ticks {R T} : Setter (@ticks R T) := ltac:(derive_setter).
#[export] Instance set_estimator {R T} : Setter (@estimator R T) := ltac:(derive_setter).
#[export] Instance set_counts {R T} : Setter (@counts R T) := ltac:(derive_setter).
#[export] Instance set_completed_metrics {R T} : Setter (@completed_metrics R T) := ltac:(derive_setter).
#[export] Instance set_metrics_by_seq_id {R T} : Setter (@metrics_by_seq_id R T) := ltac:(derive_setter).
#[export] Instance set_completed_summary {R T} : Setter (@completed_summary R T) := ltac:(derive_setter).
#[export] Instance set_completed_summary_count {R T} : Setter (@completed_summary_count R T) := ltac:(derive_setter).
#[export] Instance set_summary_calls {R T} : Setter (@summary_calls R T) := ltac:(derive_setter).
#[export] Instance set_summary_refreshes {R T} : Setter (@summary_refreshes R T) := ltac:(derive_setter).
#[export] Instance set_summary_elapsed_ms {R T} : Setter (@summary_elapsed_ms R T) := ltac:(derive_setter).
#[export] Instance set_perf_ticks {R T} : Setter (@perf_ticks R T) := ltac:(derive_setter).
#[export] Instance set_remote_restore_service {R T} : Setter (@remote_restore_service R T) := ltac:(derive_setter).
#[export] Instance set_pending_restores {R T} : Setter (@pending_restores R T) := ltac:(derive_setter).
#[export] Instance set_trace {R T} : Setter (@trace R T) := ltac:(derive_setter).

(** [dict.pop(key)] on an insertion-ordered dictionary *)
Definition assoc {A} (k : nat) (l : list (nat * A)) : option A :=
  snd <$> (snd <$> list_find (λ e, e.1 = k) l).
Definition assoc_del {A} (k : nat) (l : list (nat * A)) : list (nat * A) := filter (λ e, e.1 ≠ k) l.

Section scheduler.
Context {R T Pg : Type} `{RestoreService R T Pg} `{Hasher} `{FloatRepr}.
Context (append_ok : nat → bool) (clock perf_counter : nat → Q).

Abbreviation MS := (M (Scheduler R T)).

(** [Scheduler.__init__] *)
Definition scheduler_init (c : SchedulerConfig) (service : option R) (trace_exists : bool) :
    result (Scheduler R T) :=
  throw_if (c_kv_admission_lookahead c <? 0)%Z (ValueError "kv_admission_lookahead must be non-negative");;
  throw_if (match c_max_num_active_seqs c with Some n => n <? 1 | None => false end)%Z
    (ValueError "max_num_active_seqs must be positive");;
  manager ← block_manager_init (c_num_kvcache_blocks c) (c_kvcache_block_size c) (c_prefix_cache_backend c);
  est ← execution_time_estimator
          (mkEstimator (c_qos_prefill_ms_per_token c) (c_qos_decode_ms_per_token c) (c_qos_ewma_alpha c));
  pol ← create_policy (c_scheduling_policy c) (c_qos_best_effort_slo_ms c)
          (c_qos_priority_boost_ms c) (c_qos_aging_ms_per_step c);
  reclaim ← create_kv_reclaim_policy (c_kv_reclaim_policy c) (c_kv_reclaim_min_keep_ratio c)
              (c_kv_reclaim_max_keep_ratio c) (c_kv_reclaim_budget_scale_ms c);
  throw_if (negb (String.eqb (c_metrics_summary_mode c) "cached" || String.eqb (c_metrics_summary_mode c) "full"))
    (ValueError "metrics_summary_mode must be cached or full");;
  let nat_json n := JInt (Z.of_nat n) in
  tr ← (match c_scheduler_trace_path c with
        | None => mret None
        | Some path =>
            if String.eqb path "" then mret None
            else
              t ← trace_init
                [("policy", JStr (c_scheduling_policy c));
                 ("kv_reclaim_policy", JStr (c_kv_reclaim_policy c));
                 ("kv_compression_policy", JStr (c_kv_compression_policy c));
                 ("prefix_cache_backend", JStr (c_prefix_cache_backend c));
                 ("block_size", nat_json (c_kvcache_block_size c));
                 ("num_blocks", nat_json (length (blocks manager)));
                 ("max_num_seqs", nat_json (c_max_num_seqs c));
                 ("max_num_active_seqs",
                    match c_max_num_active_seqs c with Some n => JInt (n) | None => JNull end);
                 ("kv_admission_lookahead", JInt ((c_kv_admission_lookahead c)));
                 ("max_num_batched_tokens", nat_json (c_max_num_batched_tokens c));
                 ("sequence_snapshot_limit", nat_json 64)]
                trace_exists 512 128 32 (16 * 1024 * 1024);
              mret (Some t)
        end);
  mret {|
    cfg := c; max_num_active_seqs := Z.to_nat <$> c_max_num_active_seqs c;
    kv_admission_lookahead := Z.to_nat (c_kv_admission_lookahead c);
    block_manager := manager; objs := ∅; waiting := []; running := []; step_id := 0; ticks := 0;
    estimator := est; policy := pol; kv_reclaim_policy := reclaim; counts := no_counts;
    completed_metrics := []; metrics_by_seq_id := ∅; completed_summary := None;
    completed_summary_count := -1; summary_calls := 0; summary_refreshes := 0; summary_elapsed_ms := 0;
    perf_ticks := 0; remote_restore_service := service; pending_restores := []; trace := tr |}.

(** ** Access *)
(** [self.clock()] *)
Definition read_clock : MS Q :=
  sc ← getS; putS (sc <| ticks := S (ticks sc) |>);; mret (clock (ticks sc)).
Definition get_seq (i : nat) : MS Sequence :=
  sc ← getS; of_option Dangling (objs sc !! i).
Definition set_seq (i : nat) (s : Sequence) : MS () :=
  modifyS (λ sc, sc <| objs := <[i := s]> (objs sc) |>).
Definition update_seq (i : nat) (f : Sequence → Sequence) : MS () :=
  s ← get_seq i; set_seq i (f s).
(** A method of the request that may raise. *)
Definition update_seqR (i : nat) (f : Sequence → result Sequence) : MS () :=
  s ← get_seq i; s ← lift (f s); set_seq i s.
Definition get_seqs (l : list nat) : MS (list Sequence) := mapM_M get_seq l.
(** A method of the block manager that reads the request. *)
Definition on_bm {A} (m : MB A) : MS A := λ sc,
  match m (block_manager sc) with (r, bm') => (r, sc <| block_manager := bm' |>) end.
(** A method of the block manager that mutates the request. *)
Definition on_bms {A} (i : nat) (m : MBS A) : MS A :=
  s ← get_seq i;
  ((λ sc, match m (block_manager sc, s) with
          | (r, (bm', s')) => (r, sc <| block_manager := bm' |> <| objs := <[i := s']> (objs sc) |>)
          end) : MS A).
Definition count (f : Counters → Counters) : MS () := modifyS (λ sc, sc <| counts := f (counts sc) |>).
(** A call on [self.remote_restore_service] *)
Definition on_service {A} (m : M R A) : MS A := λ sc,
  match remote_restore_service sc with
  | None => (inl (TypeError "'NoneType' object has no attribute"), sc)
  | Some r => match m r with (x, r') => (x, sc <| remote_restore_service := Some r' |>) end
  end.
(** [deque.remove(x)]; a request has no [__eq__], so ids stand for identity. *)
Definition remove_waiting (i : nat) : MS () :=
  sc ← getS;
  l ← of_option (ValueError "deque.remove(x): x not in deque") (remove_first i (waiting sc));
  putS (sc <| waiting := l |>).
Definition remove_running (i : nat) : MS () :=
  sc ← getS;
  l ← of_option (ValueError "deque.remove(x): x not in deque") (remove_first i (running sc));
  putS (sc <| running := l |>).
Definition free_blocks : MS nat := getsS (λ sc, length (free_block_ids (block_manager sc))).
Definition owns_blocks (s : Sequence) : bool := negb (bool_decide (block_table s = [])).

(** The policy, applied to queues of ids. *)
Definition budget (s : Sequence) (now : Q) : MS (option Q) :=
  sc ← getS; lift (budget_ms (policy sc) (estimator sc) s (step_id sc) now).

(** ** Tracing *)
Definition status_name (st : SequenceStatus) : string :=
  match st with
  | WAITING => "WAITING" | WAITING_FOR_KV => "WAITING_FOR_KV" | RUNNING => "RUNNING"
  | FINISHED => "FINISHED" | CANCELLED => "CANCELLED"
  end.
Definition jnat (n : nat) : Json := JInt (Z.of_nat n).
Definition jfloat (q : Q) : Json := JFloat (Finite q).

Definition snapshot (now : Q) (i : nat) : MS Json :=
  s ← get_seq i;
  sc ← getS;
  arrival ← of_option (TypeError "unsupported operand type(s) for -: 'float' and 'NoneType'") (arrival_time s);
  b ← budget s now;
  mret (JObj [("seq_id", jnat (seq_id s)); ("status", JStr (status_name (status s)));
    ("priority", JInt ((priority (qos s)))); ("request_class", JStr (request_class (qos s)));
    ("age_ms", jfloat (Qmax 0 ((now - arrival) * 1000)));
    ("budget_ms", match b with Some b => jfloat b | None => JNull end);
    ("tokens", jnat (num_tokens s)); ("completion_tokens", jnat (num_completion_tokens s));
    ("max_tokens", jnat (max_tokens s)); ("cached_tokens", jnat (num_cached_tokens s));
    ("physical_cached_tokens", jnat (num_physical_cached_tokens s));
    ("owned_blocks", jnat (length (block_table s)));
    ("scheduled_tokens", jnat (num_scheduled_tokens s));
    ("next_decode_needs_page", JBool (needs_page (c_kvcache_block_size (cfg sc)) s));
    ("preemptions", jnat (preemption_count s));
    ("recomputed_tokens", jnat (kv_recomputed_tokens s));
    ("compressed", JBool (kv_compressed s))]).

Definition on_trace (m : M SchedulerTrace ()) (tr : SchedulerTrace) : MS () := λ sc,
  match m tr with (x, tr') => (x, sc <| trace := Some tr' |>) end.
(** [_trace]; the clock is read when no [now] is passed. *)
Definition trace_event (event : string) (seqs : list nat) (now : option Q) (trigger : bool)
    (details : list (string * Json)) : MS () :=
  sc ← getS;
  match trace sc with
  | None => mret tt
  | Some tr =>
      if negb (tr_enabled tr) then mret tt
      else
        now ← match now with Some t => mret t | None => read_clock end;
        sc ← getS;
        w ← mapM_M (snapshot now) (take 64 (waiting sc));
        r ← mapM_M (snapshot now) (take 64 (running sc));
        sel ← mapM_M (snapshot now) (take 64 seqs);
        let row := JObj ([("event", JStr event); ("step", jnat (step_id sc)); ("time_s", jfloat now);
          ("free_blocks", jnat (length (free_block_ids (block_manager sc))));
          ("waiting_count", jnat (length (waiting sc))); ("running_count", jnat (length (running sc)));
          ("pending_restore_count", jnat (length (pending_restores sc)));
          ("prefill_ms_per_token", jfloat (prefill_ms_per_token (estimator sc)));
          ("decode_ms_per_token", jfloat (decode_ms_per_token (estimator sc)));
          ("waiting", JList w); ("running", JList r); ("selected", JList sel)] ++ details) in
        on_trace (record append_ok row trigger) tr
  end.

(** ** Queue state *)
Definition sched_is_finished (sc : Scheduler R T) : bool :=
  bool_decide (waiting sc = []) && bool_decide (running sc = []) && bool_decide (pending_restores sc = []).

Definition resident_count : MS nat :=
  sc ← getS;
  w ← get_seqs (waiting sc);
  mret (length (running sc) + length (pending_restores sc) + length (filter owns_blocks w)).

(** ** [add] *)
Definition add (s : Sequence) : MS () :=
  let i := seq_id s in
  sc ← getS;
  now ← read_clock;
  set_seq i (mark_arrived (step_id sc) now s);;
  modifyS (λ sc, sc <| waiting := waiting sc ++ [i] |>);;
  trace_event "arrival" [i] None false [].

(** ** [cancel] *)
Definition cancel_request (i : nat) : MS bool :=
  sc ← getS;
  found ← (if bool_decide (i ∈ waiting sc) then remove_waiting i;; mret true
           else if bool_decide (i ∈ running sc) then remove_running i;; mret true
           else match assoc i (pending_restores sc) with
                | None => mret false
                | Some st =>
                    modifyS (λ sc, sc <| pending_restores := assoc_del i (pending_restores sc) |>);;
                    on_service (cancel_waiters (pr_transfer st));;
                    mret true
                end);
  if negb found then mret false
  else
    modifyS (λ sc, sc <| block_manager := block_manager sc <| pending_matches :=
      delete i (pending_matches (block_manager sc)) |> |>);;
    modifyS (λ sc, sc <| block_manager := block_manager sc <| pending_resume_matches :=
      delete i (pending_resume_matches (block_manager sc)) |> |>);;
    s ← get_seq i;
    (if owns_blocks s then on_bms i deallocate else mret tt);;
    update_seq i (λ s, s <| num_scheduled_tokens := 0 |>);;
    now ← read_clock;
    update_seq i (cancel now);;
    count (λ c, c <| n_cancelled := S (n_cancelled c) |>);;
    trace_event "cancel" [i] None false [];;
    mret true.

(** ** Remote restores *)
Definition start_remote_restore (i : nat) (local_cached_blocks : nat) (now : Q) : MS bool :=
  sc ← getS;
  s ← get_seq i;
  if bool_decide (remote_restore_service sc = None) || remote_restore_attempted s then mret false
  else
    candidate ← on_service (plan_restore s local_cached_blocks (prefill_ms_per_token (estimator sc)));
    match candidate with
    | None => mret false
    | Some cand =>
        let total_cached_blocks := cand_num_blocks cand in
        block_ids ← on_bms i (reserve_restore local_cached_blocks total_cached_blocks);
        let pages := slice local_cached_blocks total_cached_blocks (cand_pages cand) in
        update_seqR i (begin_remote_restore now);;
        transfer ← try_except (t ← on_service (submit_restore i pages block_ids); mret (Some t))
          (λ exc,
             on_bms i abort_restore;;
             update_seqR i (seq_fail_remote_restore now exc);;
             count (λ c, c <| n_restore_failed := S (n_restore_failed c) |>);;
             mret None);
        match transfer with
        | None => mret false
        | Some t =>
            remove_waiting i;;
            modifyS (λ sc, sc <| pending_restores := pending_restores sc ++
              [(i, mkPendingRestore i t total_cached_blocks (length pages))] |>);;
            count (λ c, c <| n_restore_started := S (n_restore_started c) |>);;
            mret true
        end
    end.

Definition restore_done (sc : Scheduler R T) (st : PendingRestoreState T) : bool :=
  match remote_restore_service sc with
  | Some r => transfer_done (pr_transfer st) r
  | None => false
  end.
Definition ready_remote_restores (sc : Scheduler R T) : list (PendingRestoreState T) :=
  filter (λ st, restore_done sc st = true) ((pending_restores sc).*2).

Definition complete_remote_restore (i : nat) : MS () :=
  sc ← getS;
  st ← of_option (KeyError "seq_id") (assoc i (pending_restores sc));
  on_bms (pr_sequence st) (commit_restored_prefix (pr_total_cached_blocks st));;
  now ← read_clock;
  update_seqR (pr_sequence st)
    (finish_remote_restore now (Z.of_nat (pr_restored_blocks st * c_kvcache_block_size (cfg sc))));;
  modifyS (λ sc, sc <| pending_restores := assoc_del i (pending_restores sc) |>);;
  modifyS (λ sc, sc <| waiting := waiting sc ++ [pr_sequence st] |>);;
  count (λ c, c <| n_restore_completed := S (n_restore_completed c) |>).

Definition fail_remote_restore (i : nat) (error : exn) : MS () :=
  sc ← getS;
  st ← of_option (KeyError "seq_id") (assoc i (pending_restores sc));
  modifyS (λ sc, sc <| pending_restores := assoc_del i (pending_restores sc) |>);;
  on_service (cancel_waiters (pr_transfer st));;
  on_bms (pr_sequence st) abort_restore;;
  now ← read_clock;
  update_seqR (pr_sequence st) (seq_fail_remote_restore now error);;
  modifyS (λ sc, sc <| waiting := pr_sequence st :: waiting sc |>);;
  count (λ c, c <| n_restore_failed := S (n_restore_failed c) |>).

Definition has_pending_restores (sc : Scheduler R T) : bool := negb (bool_decide (pending_restores sc = [])).

(** ** Reclaim and compression *)
Definition apply_kv_reclaim (i : nat) (d : KVReclaimDecision) : MS nat :=
  trace_event "reclaim_plan" [i] None true
    [("keep_blocks", jnat (kd_keep_blocks d)); ("reclaim_blocks", jnat (kd_reclaim_blocks d));
     ("invalidated_tokens", jnat (kd_invalidated_tokens d))];;
  freed_blocks ← on_bms i (reclaim_suffix (kd_keep_blocks d));
  update_seq i (record_kv_reclaim freed_blocks (kd_keep_blocks d) (kd_invalidated_tokens d));;
  count (λ c, c <| n_reclaim_events := S (n_reclaim_events c) |>
                <| n_reclaim_requested := n_reclaim_requested c + kd_reclaim_blocks d |>
                <| n_reclaim_freed := n_reclaim_freed c + freed_blocks |>
                <| n_reclaim_retained := n_reclaim_retained c + kd_keep_blocks d |>
                <| n_reclaim_invalidated := n_reclaim_invalidated c + kd_invalidated_tokens d |>);;
  trace_event "reclaim_applied" [i] None false [("freed_blocks", jnat freed_blocks)];;
  mret freed_blocks.

Definition maybe_compress (i : nat) : MS nat :=
  sc ← getS;
  let c := cfg sc in
  let name := c_kv_compression_policy c in
  if negb (String.eqb name "sink_recent" || String.eqb name "query_aware") then mret 0
  else
    let total_blocks := length (blocks (block_manager sc)) in
    raise_if (total_blocks =? 0) (ZeroDivisionError "division by zero");;
    let free_ratio := (inject_nat (length (free_block_ids (block_manager sc))) / inject_nat total_blocks)%Q in
    if Qlt_bool (c_kv_compression_trigger_free_ratio c) free_ratio then mret 0
    else
      '(dropped, freed, dropped_tokens) ←
        (if String.eqb name "query_aware" then
           on_bms i (compress_query_aware (c_kv_compression_sink_blocks c) (c_kv_compression_recent_blocks c)
                       (c_kv_compression_importance_blocks c) (c_kv_compression_query_tokens c))
         else
           on_bms i (compress_sink_recent (c_kv_compression_sink_blocks c) (c_kv_compression_recent_blocks c)));
      if dropped =? 0 then mret 0
      else
        update_seq i (record_kv_compression dropped dropped_tokens);;
        count (λ c, c <| n_compression_events := S (n_compression_events c) |>
                      <| n_compression_dropped := n_compression_dropped c + dropped |>
                      <| n_compression_freed := n_compression_freed c + freed |>
                      <| n_compression_tokens := n_compression_tokens c + dropped_tokens |>);;
        mret freed.

(** [reclaim_order]: no budget counts as an infinite one. *)
Definition reclaim_order (sc : Scheduler R T) (now : Q) (s : Sequence) : result budget_key :=
  b ← budget_ms (policy sc) (estimator sc) s (step_id sc) now;
  mret (b, arrival_step s, seq_id s).

(** [KVReclaimPolicy().plan(...)]: the base policy keeps nothing. *)
Definition plan_all (sc : Scheduler R T) (s : Sequence) (b : option Q) : KVReclaimDecision :=
  plan (c_kvcache_block_size (cfg sc)) None s b 1.

Definition forced_reclaim (i : nat) (now : Q) : MS () :=
  s ← get_seq i;
  b ← budget s now;
  sc ← getS;
  apply_kv_reclaim i (plan_all sc s b);;
  count (λ c, c <| n_forced_fallbacks := S (n_forced_fallbacks c) |>).

(** [_ensure_resume_capacity] *)
Fixpoint ensure_resume_loop (fuel : nat) (i : nat) (now : Q) : MS bool :=
  match fuel with
  | 0 => raise OutOfFuel
  | S fuel =>
      s ← get_seq i;
      fits ← (if owns_blocks s then on_bm (can_resume s) else mret true);
      if fits : bool then s ← get_seq i; on_bm (can_resume s)
      else
        sc ← getS;
        w ← get_seqs (waiting sc);
        let candidates := filter (λ s', seq_id s' ≠ i ∧ owns_blocks s' = true) w in
        match candidates with
        | _ :: _ =>
            victim ← lift (max_by (reclaim_order sc now) candidates);
            forced_reclaim (seq_id victim) now;;
            ensure_resume_loop fuel i now
        | [] =>
            if negb (bool_decide (running sc = [])) then mret false
            else
              forced_reclaim i now;;
              ensure_resume_loop fuel i now
        end
  end.
Definition ensure_resume_capacity (i : nat) (now : Q) : MS bool :=
  sc ← getS; ensure_resume_loop (length (waiting sc) + 2) i now.

(** ** [preempt] *)
Definition finish_preempt (i : nat) : MS () :=
  update_seq i (λ s, s <| status := WAITING |>);;
  update_seq i (λ s, s <| is_prefill := true |>);;
  update_seq i (λ s, s <| preemption_count := S (preemption_count s) |>);;
  modifyS (λ sc, sc <| waiting := i :: waiting sc |>).

Definition preempt (i : nat) : MS () :=
  s ← get_seq i;
  if kv_compressed s then
    let owned_blocks := length (block_table s) in
    let invalidated_tokens := num_cached_tokens s in
    free_before ← free_blocks;
    on_bms i deallocate;;
    free_after ← free_blocks;
    let freed_blocks := free_after - free_before in
    update_seq i (record_kv_reclaim freed_blocks 0 invalidated_tokens);;
    count (λ c, c <| n_reclaim_events := S (n_reclaim_events c) |>
                  <| n_reclaim_requested := n_reclaim_requested c + owned_blocks |>
                  <| n_reclaim_freed := n_reclaim_freed c + freed_blocks |>
                  <| n_reclaim_invalidated := n_reclaim_invalidated c + invalidated_tokens |>);;
    finish_preempt i;;
    trace_event "preempted" [i] None false [("freed_blocks", jnat freed_blocks)]
  else
    now ← read_clock;
    b ← budget s now;
    sc ← getS;
    let min_reclaim_blocks :=
      Nat.max 1 (c_kv_reclaim_target_free_blocks (cfg sc) - length (free_block_ids (block_manager sc))) in
    let decision := plan (c_kvcache_block_size (cfg sc)) (kv_reclaim_policy sc) s b min_reclaim_blocks in
    apply_kv_reclaim i decision;;
    finish_preempt i;;
    trace_event "preempted" [i] None false
      [("keep_blocks", jnat (kd_keep_blocks decision));
       ("invalidated_tokens", jnat (kd_invalidated_tokens decision))].

(** ** [_schedule_once] *)
(** The locals of the prefill loop. *)
Record PrefillState := mkPrefillState {
  ps_scheduled : list nat;
  ps_batched : nat;
  ps_deferred : gset nat;
  ps_progress_only : bool
}.

Definition should_prefill (w : list nat) (now : Q) : MS bool :=
  ws ← get_seqs w;
  sc ← getS;
  rs ← get_seqs (running sc);
  lift (should_schedule_prefill (policy sc) (estimator sc) ws rs (step_id sc) now).

(** The eligible requests of one iteration; [None] is [break]. *)
Definition eligible_waiting (ps : PrefillState) (now : Q) : MS (option (list nat)) :=
  sc ← getS;
  owners ← get_seqs (waiting sc);
  let resident := seq_id <$> filter owns_blocks owners in
  let eligible := if ps_progress_only ps then filter (.∈ resident) (waiting sc) else waiting sc in
  if ps_progress_only ps && bool_decide (eligible = []) then mret None
  else
    deferred ← (if bool_decide (ps_deferred ps = ∅) then mret (Some eligible)
                else
                  let eligible := filter (.∉ ps_deferred ps) eligible in
                  if bool_decide (eligible = []) then mret None
                  else ok ← should_prefill eligible now;
                       mret (if ok : bool then Some eligible else None));
    match deferred with
    | None => mret None
    | Some eligible =>
        match max_num_active_seqs sc with
        | None => mret (Some eligible)
        | Some limit =>
            n ← resident_count;
            if limit <=? n then
              let eligible := filter (.∈ resident) eligible in
              ok ← should_prefill eligible now;
              if ok : bool then mret (Some eligible)
              else
                trace_event "admission_deferred" [] (Some now) false
                  [("reason", JStr "resident_limit"); ("resident_count", jnat n)];;
                mret None
            else mret (Some eligible)
        end
    end.

(** What one iteration of the prefill loop decides. *)
Inductive Step := Break | Continue (ps : PrefillState).

(** The allocation branch, up to the number of cached blocks; [inl] leaves the
    iteration. *)
Definition admit_new (i : nat) (ps : PrefillState) (now : Q) : MS (Step + nat) :=
  s ← get_seq i;
  sc ← getS;
  let lookahead := kv_admission_lookahead sc in
  cached ← on_bm (can_allocate s);
  match cached with
  | None =>
      trace_event "prefill_blocked" [i] (Some now) false [("reason", JStr "allocation_capacity")];;
      sc ← getS;
      w ← get_seqs (waiting sc);
      if bool_decide (running sc = []) && existsb owns_blocks w then
        trace_event "prefill_progress_fallback" [i] (Some now) false [];;
        mret (inl (Continue {| ps_scheduled := ps_scheduled ps; ps_batched := ps_batched ps;
                               ps_deferred := ps_deferred ps; ps_progress_only := true |}))
      else if (0 <? lookahead) && negb (bool_decide (running sc = [])) then
        let deferred := {[ i ]} ∪ ps_deferred ps in
        count (λ c, c <| n_admission_deferred := S (n_admission_deferred c) |>);;
        if size deferred <? c_max_num_seqs (cfg sc) then
          mret (inl (Continue {| ps_scheduled := ps_scheduled ps; ps_batched := ps_batched ps;
                                 ps_deferred := deferred; ps_progress_only := ps_progress_only ps |}))
        else mret (inl Break)
      else mret (inl Break)
  | Some num_cached_blocks =>
      sc ← getS;
      deferred ← (if (0 <? lookahead) && negb (bool_decide (running sc = [])) then
          required ← on_bm (planned_allocation_pages s);
          rs ← get_seqs (running sc);
          let reserve := priority_reserve_pages s rs lookahead (c_kvcache_block_size (cfg sc)) in
          free ← free_blocks;
          if (Z.of_nat free - required <? Z.of_nat reserve)%Z then
            modifyS (λ sc, sc <| block_manager := block_manager sc <| pending_matches :=
              delete (seq_id s) (pending_matches (block_manager sc)) |> |>);;
            count (λ c, c <| n_admission_deferred := S (n_admission_deferred c) |>);;
            trace_event "admission_deferred" [i] (Some now) false
              [("reason", JStr "priority_page_reserve"); ("required_pages", JInt (required));
               ("reserved_pages", jnat reserve)];;
            mret true
          else mret false
        else mret false);
      if deferred : bool then
        let deferred := {[ i ]} ∪ ps_deferred ps in
        if c_max_num_seqs (cfg sc) <=? size deferred then mret (inl Break)
        else mret (inl (Continue {| ps_scheduled := ps_scheduled ps; ps_batched := ps_batched ps;
                                    ps_deferred := deferred; ps_progress_only := ps_progress_only ps |}))
      else
        started ← start_remote_restore i num_cached_blocks now;
        if started : bool then mret (inl (Continue ps))
        else mret (inr num_cached_blocks)
  end.

(** The end of the iteration: allocate, account, and start the request. *)
Definition start_prefill (i : nat) (ps : PrefillState) (num_cached_blocks num_tokens_ remaining : nat)
    (now : Q) : MS Step :=
  s ← get_seq i;
  (if owns_blocks s then mret tt
   else
     let previous_cached_tokens := num_cached_tokens s in
     on_bms i (allocate num_cached_blocks);;
     update_seq i (λ s, record_reused_tokens (num_cached_tokens s - previous_cached_tokens) s));;
  update_seq i (mark_scheduled now);;
  update_seq i (λ s, s <| num_scheduled_tokens := Nat.min num_tokens_ remaining |>);;
  let batched := ps_batched ps + Nat.min num_tokens_ remaining in
  s ← get_seq i;
  (if num_cached_tokens s + num_scheduled_tokens s =? num_tokens s then
     update_seq i (λ s, s <| status := RUNNING |>);;
     remove_waiting i;;
     modifyS (λ sc, sc <| running := running sc ++ [i] |>)
   else mret tt);;
  trace_event "prefill_admitted" [i] (Some now) false
    [("batched_tokens", jnat batched); ("remaining_token_budget", jnat remaining)];;
  mret (Continue {| ps_scheduled := ps_scheduled ps ++ [i]; ps_batched := batched;
                    ps_deferred := ps_deferred ps; ps_progress_only := ps_progress_only ps |}).

(** One iteration of the prefill loop. *)
Definition prefill_step (ps : PrefillState) (now : Q) : MS Step :=
  eligible ← eligible_waiting ps now;
  match eligible with
  | None => mret Break
  | Some eligible =>
      ws ← get_seqs eligible;
      sc ← getS;
      s ← lift (select_waiting (policy sc) (estimator sc) ws (step_id sc) now);
      let i := seq_id s in
      b ← budget s now;
      update_seq i (λ s, s <| last_budget_ms := b |>);;
      let remaining := c_max_num_batched_tokens (cfg sc) - ps_batched ps in
      if remaining =? 0 then mret Break
      else
        fits ← (if owns_blocks s then ensure_resume_capacity i now else mret true);
        if negb fits then
          trace_event "prefill_blocked" [i] (Some now) false [("reason", JStr "resume_capacity")];;
          mret Break
        else
          s ← get_seq i;
          if negb (owns_blocks s) then
            r ← admit_new i ps now;
            match r with
            | inl step => mret step
            | inr num_cached_blocks =>
                s ← get_seq i;
                (* [num_cached_blocks] never exceeds what the tokens fill *)
                let num_tokens_ := num_tokens s - num_cached_blocks * c_kvcache_block_size (cfg sc) in
                if (remaining <? num_tokens_) && negb (bool_decide (ps_scheduled ps = [])) then mret Break
                else start_prefill i ps num_cached_blocks num_tokens_ remaining now
            end
          else
            reused_tokens ← on_bms i resume;
            update_seq i (record_reused_tokens reused_tokens);;
            s ← get_seq i;
            let num_tokens_ := num_tokens s - num_cached_tokens s in
            if (remaining <? num_tokens_) && negb (bool_decide (ps_scheduled ps = [])) then mret Break
            else start_prefill i ps 0 num_tokens_ remaining now
  end.

Fixpoint prefill_loop (fuel : nat) (ps : PrefillState) (now : Q) : MS (list nat) :=
  match fuel with
  | 0 => raise OutOfFuel
  | S fuel =>
      sc ← getS;
      if negb (bool_decide (waiting sc = [])) && (length (ps_scheduled ps) <? c_max_num_seqs (cfg sc)) then
        step ← prefill_step ps now;
        match step with
        | Break => mret (ps_scheduled ps)
        | Continue ps => prefill_loop fuel ps now
        end
      else mret (ps_scheduled ps)
  end.

(** The inner loop of the decode phase; [false] when the request preempted itself. *)
Fixpoint make_room (fuel : nat) (i : nat) (now : Q) : MS bool :=
  match fuel with
  | 0 => raise OutOfFuel
  | S fuel =>
      s ← get_seq i;
      fits ← on_bm (can_append s);
      if fits : bool then mret true
      else
        sc ← getS;
        if negb (bool_decide (running sc = [])) then
          rs ← get_seqs (running sc);
          victim ← lift (select_preemption_victim (policy sc) (estimator sc) rs (step_id sc) now);
          match victim with
          | None => raise (TypeError "'NoneType' object has no attribute 'seq_id'")
          | Some v =>
              let j := seq_id v in
              trace_event "append_pressure" [i; j] (Some now) true
                [("reason", JStr "decode_page_exhausted"); ("victim_id", jnat j); ("requester_id", jnat i)];;
              remove_running j;;
              preempt j;;
              make_room fuel i now
          end
        else
          trace_event "append_pressure" [i] (Some now) true
            [("reason", JStr "decode_self_preemption"); ("victim_id", jnat i); ("requester_id", jnat i)];;
          preempt i;;
          mret false
  end.

(** The decode loop; the flag is [retry_prefill]. *)
Fixpoint decode_loop (fuel : nat) (scheduled : list nat) (retry : bool) (now : Q) : MS (list nat * bool) :=
  match fuel with
  | 0 => raise OutOfFuel
  | S fuel =>
      sc ← getS;
      if negb (bool_decide (running sc = [])) && (length scheduled <? c_max_num_seqs (cfg sc)) then
        rs ← get_seqs (running sc);
        s ← lift (select_running (policy sc) (estimator sc) rs (step_id sc) now);
        let i := seq_id s in
        b ← budget s now;
        update_seq i (λ s, s <| last_budget_ms := b |>);;
        remove_running i;;
        maybe_compress i;;
        room ← make_room (S (length (running sc))) i now;
        if room : bool then
          update_seq i (λ s, s <| num_scheduled_tokens := 1 |>);;
          update_seq i (λ s, s <| is_prefill := false |>);;
          on_bms i may_append;;
          decode_loop fuel (scheduled ++ [i]) retry now
        else decode_loop fuel scheduled true now
      else mret (scheduled, retry)
  end.

(** Fuel of the prefill loop: every iteration but the last shortens the queue,
    defers one more request, takes pages from a waiting one, or sets a flag. *)
Definition prefill_fuel (sc : Scheduler R T) : nat := 2 * length (waiting sc) + c_max_num_seqs (cfg sc) + 3.

(** [None] asks for a retry. *)
Definition schedule_once : MS (option (list nat * bool)) :=
  modifyS (λ sc, sc <| step_id := S (step_id sc) |>);;
  now ← read_clock;
  sc ← getS;
  schedule_prefill ← should_prefill (waiting sc) now;
  trace_event "schedule_start" [] (Some now) false [("prefer_prefill", JBool schedule_prefill)];;
  scheduled ← (if schedule_prefill : bool
               then prefill_loop (prefill_fuel sc) (mkPrefillState [] 0 ∅ false) now
               else mret []);
  match scheduled with
  | _ :: _ =>
      trace_event "schedule_end" scheduled (Some now) false [("phase", JStr "prefill")];;
      mret (Some (scheduled, true))
  | [] =>
      sc ← getS;
      '(scheduled, retry) ← decode_loop (S (length (running sc))) [] false now;
      sc ← getS;
      match scheduled with
      | [] =>
          if negb (bool_decide (pending_restores sc = [])) then mret (Some ([] : list nat, true))
          else if (retry : bool) then mret None
          else
            trace_event "no_runnable" [] (Some now) true [];;
            raise (RuntimeError "no runnable request fits in the available KV cache")
      | _ =>
          modifyS (λ sc, sc <| running := scheduled ++ running sc |>);;
          trace_event "schedule_end" scheduled (Some now) false [("phase", JStr "decode")];;
          mret (Some (scheduled, false))
      end
  end.

(** ** [schedule] *)
Definition schedule : MS (list nat * bool) :=
  result ← schedule_once;
  result ← match result with Some r => mret (Some r) | None => schedule_once end;
  match result with
  | Some r => mret r
  | None => raise (RuntimeError "scheduler retry failed to make progress")
  end.

(** ** [postprocess] *)
Definition postprocess_one (now : Q) (is_prefill : bool) (i : nat) (token : Z) : MS () :=
  s ← get_seq i;
  on_bm (hash_blocks s);;
  (if is_prefill then update_seq i (λ s, record_recomputed_tokens (num_scheduled_tokens s) s) else mret tt);;
  update_seq i (λ s, s <| num_cached_tokens := num_cached_tokens s + num_scheduled_tokens s |>);;
  update_seq i (λ s, s <| num_physical_cached_tokens :=
                            num_physical_cached_tokens s + num_scheduled_tokens s |>);;
  update_seq i (λ s, s <| num_scheduled_tokens := 0 |>);;
  s ← get_seq i;
  if is_prefill && (num_cached_tokens s <? num_tokens s) then mret tt
  else
    update_seq i (append_token token (Some now) now);;
    s ← get_seq i;
    sc ← getS;
    if (negb (ignore_eos s) && (token =? c_eos (cfg sc))%Z) || (num_completion_tokens s =? max_tokens s) then
      update_seq i (λ s, s <| status := FINISHED |>);;
      update_seq i (mark_finished now);;
      on_bms i deallocate;;
      remove_running i;;
      s ← get_seq i;
      metrics ← lift (seq_metrics s);
      modifyS (λ sc, sc <| completed_metrics := completed_metrics sc ++ [metrics] |>);;
      modifyS (λ sc, sc <| metrics_by_seq_id := <[seq_id s := metrics]> (metrics_by_seq_id sc) |>);;
      trace_event "finished" [i] (Some now) false []
    else mret tt.

Definition postprocess (seqs : list nat) (tokens : list Z) (is_prefill : bool) : MS () :=
  now ← read_clock;
  forM (zip seqs tokens) (λ it, postprocess_one now is_prefill it.1 it.2).

(** ** Observation and metrics *)
Definition observe_execution (is_prefill : bool) (n : Z) (elapsed_ms : Q) : MS () :=
  modifyS (λ sc, sc <| estimator := observe is_prefill n elapsed_ms (estimator sc) |>);;
  trace_event "execution" [] None false
    [("phase", JStr (if is_prefill then "prefill" else "decode")); ("num_tokens", JInt (n));
     ("elapsed_ms", jfloat elapsed_ms)].

Definition request_metrics (i : nat) (sc : Scheduler R T) : option RequestMetrics :=
  metrics_by_seq_id sc !! i.

(** [perf_counter()] *)
Definition read_perf : MS Q :=
  sc ← getS; putS (sc <| perf_ticks := S (perf_ticks sc) |>);; mret (perf_counter (perf_ticks sc)).

(** [metrics]: the completed-request summary with its cache, and the live part. *)
Record SchedulerMetrics := mkSchedulerMetrics {
  sm_summary : MetricsSummary;
  sm_counts : Counters;
  sm_cache : CacheMetrics;
  sm_summary_calls : nat;
  sm_summary_refreshes : nat;
  sm_summary_compute_ms : Q;
  sm_trace_enabled : bool;
  sm_num_kvcache_blocks : nat;
  sm_capacity_tokens : nat;
  sm_prefill_ms_per_token_ewma : Q;
  sm_decode_ms_per_token_ewma : Q;
  sm_remote_restore_pending : nat;
  sm_waiting_requests : nat;
  sm_running_requests : nat
}.

Definition sched_metrics : MS SchedulerMetrics :=
  modifyS (λ sc, sc <| summary_calls := S (summary_calls sc) |>);;
  sc ← getS;
  let n := Z.of_nat (length (completed_metrics sc)) in
  (if String.eqb (c_metrics_summary_mode (cfg sc)) "full" || negb (n =? completed_summary_count sc)%Z then
     started ← read_perf;
     summary ← lift (summarize_metrics (completed_metrics sc));
     modifyS (λ sc, sc <| completed_summary := Some summary |>);;
     stopped ← read_perf;
     modifyS (λ sc, sc <| summary_elapsed_ms := (summary_elapsed_ms sc + (stopped - started) * 1000)%Q |>);;
     modifyS (λ sc, sc <| completed_summary_count := n |>);;
     modifyS (λ sc, sc <| summary_refreshes := S (summary_refreshes sc) |>)
   else mret tt);;
  cache ← on_bm cache_metrics;
  sc ← getS;
  summary ← of_option Dangling (completed_summary sc);
  mret {|
    sm_summary := summary; sm_counts := counts sc; sm_cache := cache;
    sm_summary_calls := summary_calls sc; sm_summary_refreshes := summary_refreshes sc;
    sm_summary_compute_ms := summary_elapsed_ms sc;
    sm_trace_enabled := match trace sc with Some _ => true | None => false end;
    sm_num_kvcache_blocks := length (blocks (block_manager sc));
    sm_capacity_tokens := length (blocks (block_manager sc)) * c_kvcache_block_size (cfg sc);
    sm_prefill_ms_per_token_ewma := prefill_ms_per_token (estimator sc);
    sm_decode_ms_per_token_ewma := decode_ms_per_token (estimator sc);
    sm_remote_restore_pending := length (pending_restores sc);
    sm_waiting_requests := length (waiting sc);
    sm_running_requests := length (running sc) |}.
End scheduler.
