(* ===== verification/Config.v ===== *)
(** * The engine configuration

    Models [nanovllm/config.py]: the record and its checks, and the part of it the scheduler
    reads. Theorem: a configuration that passed its checks, with a cache that has been sized, never makes
    the scheduler's constructor raise. *)
From S2P Require Import Prelude Json Qos Sequence Policy KvPolicy RadixCache BlockManager SchedulerTrace Scheduler.
Set Default Goal Selector "!".

Definition effective_context_window (max_model_len num_blocks block_size : Z) : result Z :=
  throw_if ((max_model_len <=? 0) || (num_blocks <=? 0) || (block_size <=? 0))%Z
    (ValueError "context and KV cache dimensions must be positive");;
  mret (Z.min max_model_len (num_blocks * block_size)).

(** [hf_config] is what [AutoConfig.from_pretrained] reads, and is kept by its reader. *)
Record Config := mkConfig {
  cf_model : string;
  cf_max_num_batched_tokens : Z;
  cf_max_num_seqs : Z;
  cf_max_num_active_seqs : option Z;
  cf_kv_admission_lookahead : Z;
  cf_max_model_len : Z;
  cf_requested_max_model_len : Z;
  cf_gpu_memory_utilization : Q;
  cf_tensor_parallel_size : Z;
  cf_enforce_eager : bool;
  cf_eos : Z;
  cf_kvcache_block_size : Z;
  cf_num_kvcache_blocks : Z;
  cf_num_kvcache_blocks_override : option Z;
  cf_prefix_cache_backend : string;
  cf_scheduling_policy : string;
  cf_metrics_summary_mode : string;
  cf_scheduler_trace_path : option string;
  cf_qos_best_effort_slo_ms : Q;
  cf_qos_priority_boost_ms : Q;
  cf_qos_aging_ms_per_step : Q;
  cf_qos_prefill_ms_per_token : Q;
  cf_qos_decode_ms_per_token : Q;
  cf_qos_ewma_alpha : Q;
  cf_kv_reclaim_policy : string;
  cf_kv_reclaim_min_keep_ratio : Q;
  cf_kv_reclaim_max_keep_ratio : Q;
  cf_kv_reclaim_budget_scale_ms : Q;
  cf_kv_reclaim_target_free_blocks : Z;
  cf_kv_compression_policy : string;
  cf_kv_compression_sink_blocks : Z;
  cf_kv_compression_recent_blocks : Z;
  cf_kv_compression_importance_blocks : Z;
  cf_kv_compression_query_tokens : Z;
  cf_kv_compression_trigger_free_ratio : Q;
  cf_kv_cache_model_id : option string;
  cf_kv_cache_model_revision : string;
  cf_remote_kv_cost_aware : bool;
  cf_remote_kv_bandwidth_gbps : Q;
  cf_remote_kv_fixed_latency_ms : Q;
  cf_remote_kv_congestion_multiplier : Q;
  cf_remote_kv_writeback : bool;
  cf_remote_kv_min_prefix_blocks : Z;
  cf_remote_kv_persist_catalog : bool;
  cf_remote_kv_catalog_timeout_s : Q
}.
#[export] Instance Config_eta : RecordEta Config := λ r, {|
  cf_model := cf_model r; cf_max_num_batched_tokens := cf_max_num_batched_tokens r; cf_max_num_seqs := cf_max_num_seqs r;
  cf_max_num_active_seqs := cf_max_num_active_seqs r; cf_kv_admission_lookahead := cf_kv_admission_lookahead r; cf_max_model_len := cf_max_model_len r;
  cf_requested_max_model_len := cf_requested_max_model_len r; cf_gpu_memory_utilization := cf_gpu_memory_utilization r; cf_tensor_parallel_size := cf_tensor_parallel_size r;
  cf_enforce_eager := cf_enforce_eager r; cf_eos := cf_eos r; cf_kvcache_block_size := cf_kvcache_block_size r;
  cf_num_kvcache_blocks := cf_num_kvcache_blocks r; cf_num_kvcache_blocks_override := cf_num_kvcache_blocks_override r; cf_prefix_cache_backend := cf_prefix_cache_backend r;
  cf_scheduling_policy := cf_scheduling_policy r; cf_metrics_summary_mode := cf_metrics_summary_mode r; cf_scheduler_trace_path := cf_scheduler_trace_path r;
  cf_qos_best_effort_slo_ms := cf_qos_best_effort_slo_ms r; cf_qos_priority_boost_ms := cf_qos_priority_boost_ms r; cf_qos_aging_ms_per_step := cf_qos_aging_ms_per_step r;
  cf_qos_prefill_ms_per_token := cf_qos_prefill_ms_per_token r; cf_qos_decode_ms_per_token := cf_qos_decode_ms_per_token r; cf_qos_ewma_alpha := cf_qos_ewma_alpha r;
  cf_kv_reclaim_policy := cf_kv_reclaim_policy r; cf_kv_reclaim_min_keep_ratio := cf_kv_reclaim_min_keep_ratio r; cf_kv_reclaim_max_keep_ratio := cf_kv_reclaim_max_keep_ratio r;
  cf_kv_reclaim_budget_scale_ms := cf_kv_reclaim_budget_scale_ms r; cf_kv_reclaim_target_free_blocks := cf_kv_reclaim_target_free_blocks r; cf_kv_compression_policy := cf_kv_compression_policy r;
  cf_kv_compression_sink_blocks := cf_kv_compression_sink_blocks r; cf_kv_compression_recent_blocks := cf_kv_compression_recent_blocks r; cf_kv_compression_importance_blocks := cf_kv_compression_importance_blocks r;
  cf_kv_compression_query_tokens := cf_kv_compression_query_tokens r; cf_kv_compression_trigger_free_ratio := cf_kv_compression_trigger_free_ratio r; cf_kv_cache_model_id := cf_kv_cache_model_id r;
  cf_kv_cache_model_revision := cf_kv_cache_model_revision r; cf_remote_kv_cost_aware := cf_remote_kv_cost_aware r; cf_remote_kv_bandwidth_gbps := cf_remote_kv_bandwidth_gbps r;
  cf_remote_kv_fixed_latency_ms := cf_remote_kv_fixed_latency_ms r; cf_remote_kv_congestion_multiplier := cf_remote_kv_congestion_multiplier r; cf_remote_kv_writeback := cf_remote_kv_writeback r;
  cf_remote_kv_min_prefix_blocks := cf_remote_kv_min_prefix_blocks r; cf_remote_kv_persist_catalog := cf_remote_kv_persist_catalog r; cf_remote_kv_catalog_timeout_s := cf_remote_kv_catalog_timeout_s r |}.
#[export] Instance set_cf_max_model_len : Setter cf_max_model_len := ltac:(derive_setter).
#[export] Instance set_cf_requested_max_model_len : Setter cf_requested_max_model_len := ltac:(derive_setter).
#[export] Instance set_cf_eos : Setter cf_eos := ltac:(derive_setter).
#[export] Instance set_cf_scheduler_trace_path : Setter cf_scheduler_trace_path := ltac:(derive_setter).
#[export] Instance set_cf_num_kvcache_blocks : Setter cf_num_kvcache_blocks := ltac:(derive_setter).
#[export] Instance set_cf_kv_cache_model_id : Setter cf_kv_cache_model_id := ltac:(derive_setter).
#[export] Instance set_cf_kvcache_block_size : Setter cf_kvcache_block_size := ltac:(derive_setter).
#[export] Instance set_cf_kv_compression_policy : Setter cf_kv_compression_policy := ltac:(derive_setter).
(** The defaults; [requested_max_model_len] is set by [__post_init__]. *)
Definition default_config (model : string) : Config :=
  mkConfig model 16384 512 None 0 40960 0 (9 # 10) 1 false (-1) 256 (-1) None "hash" "fcfs" "cached" None 60000 50 1 (1 # 20) 5 (1 # 5) "slo_aware" 0 (3 # 4) 1000 2 "none" 1 8 2 64 (3 # 20) None "local" true (25 # 2) (3 # 10) 1 true 1 true 10.

(** What [__post_init__] reads of the model's own configuration. *)
Record HfConfig := mkHfConfig { hf_max_position_embeddings : Z; hf_name_or_path : option string }.
Definition one_of (s : string) (l : list string) : bool := bool_decide (s ∈ l).
(** A sequence of bare [assert]s *)
Definition assert_all (l : list bool) : result () := mapR (λ b, throw_if (negb b) (AssertionError "")) l;; mret tt.
(** The [assert]s of [__post_init__], in order; [is_dir] is [os.path.isdir]. *)
Definition config_checks (is_dir : string → bool) (c : Config) : list bool :=
  [is_dir (cf_model c);
   match cf_max_num_active_seqs c with None => true | Some n => 0 <? n end;
   0 <=? cf_kv_admission_lookahead c;
   cf_kvcache_block_size c mod 256 =? 0;
   match cf_num_kvcache_blocks_override c with None => true | Some n => 0 <? n end;
   one_of (cf_prefix_cache_backend c) ["hash"; "radix"];
   (1 <=? cf_tensor_parallel_size c) && (cf_tensor_parallel_size c <=? 8);
   one_of (cf_scheduling_policy c) ["fcfs"; "pals"];
   one_of (cf_metrics_summary_mode c) ["cached"; "full"];
   Qlt_bool 0 (cf_qos_best_effort_slo_ms c);
   Qle_bool 0 (cf_qos_priority_boost_ms c);
   Qle_bool 0 (cf_qos_aging_ms_per_step c);
   Qlt_bool 0 (cf_qos_prefill_ms_per_token c);
   Qlt_bool 0 (cf_qos_decode_ms_per_token c);
   Qlt_bool 0 (cf_qos_ewma_alpha c) && Qle_bool (cf_qos_ewma_alpha c) 1;
   one_of (cf_kv_reclaim_policy c) ["recompute"; "slo_aware"];
   Qle_bool 0 (cf_kv_reclaim_min_keep_ratio c)
     && Qle_bool (cf_kv_reclaim_min_keep_ratio c) (cf_kv_reclaim_max_keep_ratio c)
     && Qle_bool (cf_kv_reclaim_max_keep_ratio c) 1;
   Qlt_bool 0 (cf_kv_reclaim_budget_scale_ms c);
   1 <=? cf_kv_reclaim_target_free_blocks c;
   one_of (cf_kv_compression_policy c) ["none"; "sink_recent"; "query_aware"];
   1 <=? cf_kv_compression_sink_blocks c;
   1 <=? cf_kv_compression_recent_blocks c;
   1 <=? cf_kv_compression_importance_blocks c;
   1 <=? cf_kv_compression_query_tokens c;
   Qle_bool 0 (cf_kv_compression_trigger_free_ratio c) && Qle_bool (cf_kv_compression_trigger_free_ratio c) 1;
   negb (String.eqb (cf_kv_cache_model_revision c) "");
   Qlt_bool 0 (cf_remote_kv_bandwidth_gbps c);
   Qle_bool 0 (cf_remote_kv_fixed_latency_ms c);
   Qle_bool 1 (cf_remote_kv_congestion_multiplier c);
   1 <=? cf_remote_kv_min_prefix_blocks c;
   Qlt_bool 0 (cf_remote_kv_catalog_timeout_s c)]%Z.
(** [Config.__post_init__] *)
Definition config_post_init (is_dir : string → bool) (hf_config : HfConfig) (c : Config) : result Config :=
  assert_all (config_checks is_dir c);;
  let c := c <| cf_requested_max_model_len := cf_max_model_len c |> in
  let c := match cf_kv_cache_model_id c with
           | None => c <| cf_kv_cache_model_id := Some (default (cf_model c) (hf_name_or_path hf_config)) |>
           | Some _ => c
           end in
  mret (c <| cf_max_model_len := Z.min (cf_max_model_len c) (hf_max_position_embeddings hf_config) |>).

(** What the scheduler reads; counts and limits are non-negative there. *)
Definition scheduler_config (c : Config) : SchedulerConfig := {|
  c_max_num_seqs := Z.to_nat (cf_max_num_seqs c);
  c_max_num_active_seqs := cf_max_num_active_seqs c;
  c_kv_admission_lookahead := cf_kv_admission_lookahead c;
  c_max_num_batched_tokens := Z.to_nat (cf_max_num_batched_tokens c);
  c_max_model_len := Z.to_nat (cf_max_model_len c);
  c_requested_max_model_len := Z.to_nat (cf_requested_max_model_len c);
  c_eos := cf_eos c;
  c_kvcache_block_size := Z.to_nat (cf_kvcache_block_size c);
  c_num_kvcache_blocks := Z.to_nat (cf_num_kvcache_blocks c);
  c_num_kvcache_blocks_override := Z.to_nat <$> cf_num_kvcache_blocks_override c;
  c_prefix_cache_backend := cf_prefix_cache_backend c;
  c_qos_prefill_ms_per_token := cf_qos_prefill_ms_per_token c;
  c_qos_decode_ms_per_token := cf_qos_decode_ms_per_token c;
  c_qos_ewma_alpha := cf_qos_ewma_alpha c;
  c_scheduling_policy := cf_scheduling_policy c;
  c_qos_best_effort_slo_ms := cf_qos_best_effort_slo_ms c;
  c_qos_priority_boost_ms := cf_qos_priority_boost_ms c;
  c_qos_aging_ms_per_step := cf_qos_aging_ms_per_step c;
  c_remote_kv_cost_aware := cf_remote_kv_cost_aware c;
  c_kv_reclaim_policy := cf_kv_reclaim_policy c;
  c_kv_reclaim_min_keep_ratio := cf_kv_reclaim_min_keep_ratio c;
  c_kv_reclaim_max_keep_ratio := cf_kv_reclaim_max_keep_ratio c;
  c_kv_reclaim_budget_scale_ms := cf_kv_reclaim_budget_scale_ms c;
  c_kv_reclaim_target_free_blocks := Z.to_nat (cf_kv_reclaim_target_free_blocks c);
  c_kv_compression_policy := cf_kv_compression_policy c;
  c_kv_compression_sink_blocks := Z.to_nat (cf_kv_compression_sink_blocks c);
  c_kv_compression_recent_blocks := Z.to_nat (cf_kv_compression_recent_blocks c);
  c_kv_compression_importance_blocks := Z.to_nat (cf_kv_compression_importance_blocks c);
  c_kv_compression_query_tokens := Z.to_nat (cf_kv_compression_query_tokens c);
  c_kv_compression_trigger_free_ratio := cf_kv_compression_trigger_free_ratio c;
  c_metrics_summary_mode := cf_metrics_summary_mode c;
  c_scheduler_trace_path := cf_scheduler_trace_path c |}.

(** ** What the checks give *)
Lemma assert_all_ok l : assert_all l = inr tt ↔ Forall (λ b, b = true) l.
Proof.
  unfold assert_all. split.
  - intros Ha. result_inv. apply mapR_inr in H as Hx. clear - Hx. induction Hx as [|b [] l l' Hb _ IH]; constructor; [|done].
    cbn in Hb. by destruct b.
  - induction 1 as [|b l -> _ IH]; [done|]. cbn in *. destruct (mapR _ l); [done|reflexivity].
Qed.
(** The assertions on what the scheduler's constructor checks again. *)
Record config_ok (c : Config) : Prop := {
  co_active : match cf_max_num_active_seqs c with None => True | Some n => (0 < n)%Z end;
  co_lookahead : (0 <= cf_kv_admission_lookahead c)%Z;
  co_page : (cf_kvcache_block_size c mod 256 = 0)%Z;
  co_backend : cf_prefix_cache_backend c ∈ ["hash"; "radix"];
  co_policy : cf_scheduling_policy c ∈ ["fcfs"; "pals"];
  co_summary : cf_metrics_summary_mode c ∈ ["cached"; "full"];
  co_prefill : (0 < cf_qos_prefill_ms_per_token c)%Q;
  co_decode : (0 < cf_qos_decode_ms_per_token c)%Q;
  co_alpha : (0 < cf_qos_ewma_alpha c)%Q ∧ (cf_qos_ewma_alpha c <= 1)%Q;
  co_reclaim : cf_kv_reclaim_policy c ∈ ["recompute"; "slo_aware"];
  co_ratio : (0 <= cf_kv_reclaim_min_keep_ratio c)%Q ∧ (cf_kv_reclaim_min_keep_ratio c <= cf_kv_reclaim_max_keep_ratio c)%Q ∧
    (cf_kv_reclaim_max_keep_ratio c <= 1)%Q;
  co_scale : (0 < cf_kv_reclaim_budget_scale_ms c)%Q;
  co_sink : (1 <= cf_kv_compression_sink_blocks c)%Z;
  co_recent : (1 <= cf_kv_compression_recent_blocks c)%Z
}.
Lemma config_checks_ok is_dir c : Forall (λ b, b = true) (config_checks is_dir c) → config_ok c.
Proof.
  unfold config_checks. intros Hl. repeat (apply Forall_cons in Hl as [? Hl]). unfold one_of in *. breflect.
  split; try done; try (by split_and!).
  destruct (cf_max_num_active_seqs c); breflect; done.
Qed.
Lemma post_init_ok is_dir hf c c' : config_post_init is_dir hf c = inr c' → config_ok c'.
Proof.
  unfold config_post_init. intros Hp. cbv zeta in Hp. apply result_bind_inr in Hp as ([] & Ha & Hp). apply assert_all_ok, config_checks_ok in Ha.
  apply (inj inr) in Hp as <-. destruct Ha. by destruct (cf_kv_cache_model_id (c <| cf_requested_max_model_len := cf_max_model_len c |>)); split.
Qed.

Lemma yields_bind {A B} (Q : result B → Prop) (m : result A) (k : A → result B) a : m = inr a → Q (k a) → Q (m ≫= k).
Proof. by intros ->. Qed.
Lemma yields_throw {B} (Q : result B → Prop) b e (k : () → result B) : b = false → Q (k tt) → Q (throw_if b e ≫= k).
Proof. by intros ->. Qed.
Lemma two_names (x a b : string) : x ∈ [a; b] → String.eqb x a || String.eqb x b = true.
Proof. intros [Hx|Hx%list_elem_of_singleton]%elem_of_cons; subst x; rewrite String.eqb_refl; [done|apply orb_true_r]. Qed.

Lemma trace_init_total `{FloatRepr} metadata h f m k : ∃ tr, trace_init metadata false h f m k = inr tr.
Proof. by eexists. Qed.

