(* ===== verification/SchedulerInv.v ===== *)
(** * The scheduler: the accounting invariant and the small steps

    [sched_ok held sc]: the requests the scheduler knows are those in its queues
    and those in [held], the ones a method under way has taken out of them; their
    block tables are exactly the references the block manager counts. The
    scheduler is the one of an engine without a remote restore service. *)
From S2P Require Import Prelude Json Qos Sequence Policy KvPolicy RadixCache BlockManager BlockInv BlockSpec SchedulerTrace Scheduler.
Set Default Goal Selector "!".
Set Default Proof Using "Type".

(** ** The invariant *)
(** What holds of every request the scheduler knows; [bs] is the page size. *)
Record request_ok (bs i : nat) (s : Sequence) : Prop := {
  rq_id : seq_id s = i;
  rq_arrived : arrived s;
  rq_tokens : num_tokens s = length (token_ids s);
  rq_cached : num_cached_tokens s < num_tokens s;
  rq_cover : kv_compressed s = false →
    num_physical_cached_tokens s = num_cached_tokens s ∧ num_cached_tokens s <= length (block_table s) * bs;
  rq_physical : num_physical_cached_tokens s <= num_cached_tokens s;
  rq_last : last (token_ids s) = Some (last_token s);
  rq_prompt : num_prompt_tokens s <= num_tokens s
}.
(** A waiting request is uncompressed and holds no more pages than it needs. *)
Definition wait_ok (bs : nat) (s : Sequence) : Prop :=
  (status s = WAITING ∧ is_prefill s = true) ∧ kv_compressed s = false ∧ length (block_table s) <= num_blocks bs s.
(** Pages of [bs] tokens that hold [n] tokens. *)
Definition pages (bs n : nat) : nat := (n + bs - 1) / bs.
Lemma pages_of_tokens bs s : pages bs (num_tokens s) = num_blocks bs s.
Proof. done. Qed.
Lemma pages_least bs n len : 0 < bs → n <= len * bs → pages bs n <= len.
Proof. intros Hbs Hn. unfold pages. assert ((n + bs - 1) / bs < S len); [|lia]. apply Nat.Div0.div_lt_upper_bound; nia. Qed.
Lemma pages_cover bs n : 0 < bs → n <= pages bs n * bs.
Proof.
  intros Hbs. unfold pages. pose proof (Nat.div_mod (n + bs - 1) bs ltac:(lia)).
  pose proof (Nat.mod_upper_bound (n + bs - 1) bs ltac:(lia)). nia.
Qed.
(** One more token needs a page exactly when the last one is full. *)
Lemma pages_succ bs n : 2 <= bs → pages bs (n + 1) = pages bs n + Nat.b2n ((n + 1) mod bs =? 1).
Proof.
  intros Hbs. unfold pages. rewrite (Nat.div_mod n bs) at 1 2 3 by lia.
  pose proof (Nat.mod_upper_bound n bs ltac:(lia)) as Hm. set (q := n / bs). set (r := n mod bs) in *.
  replace (bs * q + r + 1 + bs - 1) with (r + bs + q * bs) by lia. replace (bs * q + r + bs - 1) with (r + bs - 1 + q * bs) by lia.
  replace (bs * q + r + 1) with (r + 1 + q * bs) by lia. rewrite !Nat.div_add, Nat.Div0.mod_add by lia.
  destruct (decide (r = 0)) as [->|Hr].
  - rewrite (Nat.mod_small (0 + 1)), Nat.eqb_refl by lia. rewrite (Nat.div_small (0 + bs - 1)) by lia.
    replace (0 + bs) with (1 * bs) by lia. rewrite Nat.div_mul by lia. cbn. lia.
  - assert ((r + bs) / bs = 1) as ->.
    { replace (r + bs) with (r + 1 * bs) by lia. rewrite Nat.div_add, (Nat.div_small r) by lia. lia. }
    assert ((r + bs - 1) / bs = 1) as ->.
    { replace (r + bs - 1) with (r - 1 + 1 * bs) by lia. rewrite Nat.div_add, (Nat.div_small (r - 1)) by lia. lia. }
    assert (((r + 1) mod bs =? 1) = false) as ->; [|cbn; lia]. apply Nat.eqb_neq. intros E.
    destruct (decide (r + 1 = bs)) as [Eb|Eb]; [rewrite Eb, Nat.Div0.mod_same in E; lia|].
    rewrite Nat.mod_small in E by lia. lia.
Qed.
(** An uncompressed request owns the pages of its computed and scheduled tokens, no more. *)
Definition tight (bs : nat) (s : Sequence) : Prop :=
  kv_compressed s = false → length (block_table s) = pages bs (num_cached_tokens s + num_scheduled_tokens s).
(** A running request lacks the tokens scheduled for it, or one. *)
Definition run_ok (bs : nat) (s : Sequence) : Prop :=
  status s = RUNNING ∧ num_cached_tokens s + Nat.max 1 (num_scheduled_tokens s) = num_tokens s ∧ tight bs s ∧ block_table s ≠ [].
Definition trace_ok (o : option SchedulerTrace) : Prop :=
  match o with Some tr => trace_inv tr ∧ 0 < tr_history_max tr | None => True end.
(** What [Config] validates, for the two policies modelled here. *)
Definition compression_ok (c : SchedulerConfig) : Prop :=
  c_kv_compression_policy c ≠ "query_aware" ∧
  (c_kv_compression_policy c = "sink_recent" →
     1 <= c_kv_compression_sink_blocks c ∧ 1 <= c_kv_compression_recent_blocks c).

Section inv.
Context {R T Pg : Type} `{RestoreService R T Pg} `{Hasher} `{FloatRepr}.
Implicit Types (sc : Scheduler R T) (s : Sequence) (held l : list nat).
Abbreviation MS := (M (Scheduler R T)).

Definition table sc (i : nat) : list nat := match objs sc !! i with Some s => block_table s | None => [] end.
Definition owned sc l : list nat := concat (table sc <$> l).
Definition live held sc : list nat := held ++ waiting sc ++ running sc.

Record sched_ok held sc : Prop := {
  so_bm : bm_inv (owned sc (live held sc)) (block_manager sc);
  so_nodup : NoDup (live held sc);
  so_obj i : i ∈ live held sc → ∃ s, objs sc !! i = Some s ∧ request_ok (block_size (block_manager sc)) i s;
  so_wait i s : i ∈ waiting sc → objs sc !! i = Some s → wait_ok (block_size (block_manager sc)) s;
  so_run i s : i ∈ running sc → objs sc !! i = Some s → run_ok (block_size (block_manager sc)) s;
  so_bs : block_size (block_manager sc) = c_kvcache_block_size (cfg sc);
  so_bs_pos : 2 <= block_size (block_manager sc);
  so_blocks : 0 < length (blocks (block_manager sc));
  so_compression : compression_ok (cfg sc);
  so_service : remote_restore_service sc = None;
  so_pending : pending_restores sc = [];
  so_trace : trace_ok (trace sc)
}.

(** What the steps of [schedule] leave alone. *)
Definition static sc sc' : Prop :=
  cfg sc' = cfg sc ∧ max_num_active_seqs sc' = max_num_active_seqs sc ∧
  kv_admission_lookahead sc' = kv_admission_lookahead sc ∧ bm_static (block_manager sc) (block_manager sc') ∧
  ∀ j, token_ids <$> objs sc' !! j = token_ids <$> objs sc !! j.
#[export] Instance static_preorder : PreOrder static.
Proof.
  split; [intros x; by split_and!|]. intros x y z (?&?&?&?&Ht) (?&?&?&?&Ht'). split_and!; try (etrans; done).
  intros j. by rewrite Ht'.
Qed.
(** Only the requests in [l] change. *)
Definition only l sc sc' : Prop := static sc sc' ∧ ∀ j, j ∉ l → objs sc' !! j = objs sc !! j.
Definition same_queues sc sc' : Prop := waiting sc' = waiting sc ∧ running sc' = running sc.
#[export] Instance same_queues_preorder : PreOrder same_queues.
Proof. split; [intros x; by split|]. intros x y z [? ?] [? ?]. split; congruence. Qed.
(** Nothing a later decision reads changes. *)
Definition quiet sc sc' : Prop :=
  static sc sc' ∧ same_queues sc sc' ∧ objs sc' = objs sc ∧ block_manager sc' = block_manager sc.

Lemma only_refl l sc : only l sc sc.
Proof. split; [reflexivity|done]. Qed.
Lemma only_trans l sc1 sc2 sc3 : only l sc1 sc2 → only l sc2 sc3 → only l sc1 sc3.
Proof. intros [S1 O1] [S2 O2]. split; [by etrans|]. intros j Hj. by rewrite O2, O1. Qed.
Lemma only_mono l l' sc sc' : l ⊆ l' → only l sc sc' → only l' sc sc'.
Proof. intros Hl [Hs Ho]. split; [done|]. intros j Hj. apply Ho. by intros ?%Hl. Qed.
Lemma only_other i j sc sc' : only [i] sc sc' → j ≠ i → objs sc' !! j = objs sc !! j.
Proof. intros [_ Ho] Hj. apply Ho. apply not_elem_of_cons. split; [done|apply not_elem_of_nil]. Qed.
Lemma only_nil l sc sc' : only [] sc sc' → only l sc sc'.
Proof. apply only_mono. apply list_subseteq_nil. Qed.
Lemma quiet_only l sc sc' : quiet sc sc' → only l sc sc'.
Proof. intros (Hs & _ & Ho & _). split; [done|]. by rewrite Ho. Qed.

Lemma owned_perm sc l1 l2 : l1 ≡ₚ l2 → owned sc l1 ≡ₚ owned sc l2.
Proof. intros Hl. unfold owned. induction Hl; cbn; [done|by f_equiv|by rewrite !app_assoc, (Permutation_app_comm (table sc y))|by etrans]. Qed.
Lemma owned_insert sc sc' i s l :
  objs sc' = <[i := s]> (objs sc) → i ∉ l → owned sc' l = owned sc l.
Proof.
  intros Ho Hi. unfold owned. f_equal. apply list_fmap_ext. intros k x Hx. unfold table. rewrite Ho, lookup_insert_ne; [done|].
  intros ->. apply Hi. by eapply list_elem_of_lookup_2.
Qed.

(** ** Working on one request *)
Definition with_request (bm : BlockManager) (i : nat) s sc : Scheduler R T :=
  sc <| block_manager := bm |> <| objs := <[i := s]> (objs sc) |>.

Lemma sched_focus held sc i :
  sched_ok held sc → i ∈ live held sc →
  ∃ s own, objs sc !! i = Some s ∧ request_ok (block_size (block_manager sc)) i s ∧
    bm_inv (block_table s ++ own) (block_manager sc) ∧
    ∀ bm' s', bm_inv (block_table s' ++ own) bm' → bm_static (block_manager sc) bm' →
      request_ok (block_size (block_manager sc)) i s' →
      (i ∈ waiting sc → wait_ok (block_size (block_manager sc)) s') → (i ∈ running sc → run_ok (block_size (block_manager sc)) s') →
      sched_ok held (with_request bm' i s' sc).
Proof.
  intros [I1 I2 I3 I4 I4' I5 I6 I7 I8 I9 I10 I11] Hi. destruct (I3 i Hi) as (s & Hs & Hok).
  apply elem_of_Permutation in Hi as [rest Hrest]. rewrite Hrest in I2. apply NoDup_cons in I2 as [Hni Hnd].
  exists s, (owned sc rest). split_and!; [done|done| |].
  - rewrite (owned_perm sc _ _ Hrest) in I1. unfold owned in I1. rewrite fmap_cons in I1. cbn [concat] in I1.
    unfold table in I1 at 1. by rewrite Hs in I1.
  - intros bm' s' HI (Hbs & Hbe & Hbl) Hok' Hw Hr. set (sc' := with_request bm' i s' sc).
    assert (Hlive : live held sc' = live held sc) by done.
    assert (Hat : objs sc' !! i = Some s') by apply lookup_insert_eq.
    assert (Hne : ∀ j, j ≠ i → objs sc' !! j = objs sc !! j) by (intros j Hj; by apply lookup_insert_ne).
    split; try done.
    + rewrite Hlive, (owned_perm sc' _ _ Hrest). unfold owned. rewrite fmap_cons. cbn [concat].
      rewrite <-(owned_insert sc sc' i s' rest) in HI by done. unfold table at 1. by rewrite Hat.
    + rewrite Hlive, Hrest. by constructor.
    + intros j Hj. change (block_manager sc') with bm'. rewrite Hbs.
      destruct (decide (j = i)) as [->|Hji]; [by eauto|]. rewrite Hne by done. by apply I3.
    + intros j sj Hj Hsj. change (block_manager sc') with bm'. rewrite Hbs. destruct (decide (j = i)) as [->|Hji].
      * rewrite Hat in Hsj. injection Hsj as <-. by apply Hw.
      * rewrite Hne in Hsj by done. by eapply I4.
    + intros j sj Hj Hsj. change (block_manager sc') with bm'. rewrite Hbs. destruct (decide (j = i)) as [->|Hji].
      * rewrite Hat in Hsj. injection Hsj as <-. by apply Hr.
      * rewrite Hne in Hsj by done. by eapply I4'.
    + cbn. by rewrite Hbs.
    + cbn. by rewrite Hbs.
    + cbn. by rewrite Hbl.
Qed.
(** The block manager alone. *)
Lemma sched_manager held sc bm' :
  sched_ok held sc → bm_inv (owned sc (live held sc)) bm' → bm_static (block_manager sc) bm' →
  sched_ok held (sc <| block_manager := bm' |>).
Proof.
  intros [I1 I2 I3 I4 I4' I5 I6 I7 I8 I9 I10 I11] HI (Hbs & Hbe & Hbl). split; cbn; try done.
  - intros j Hj. rewrite Hbs. by apply I3.
  - intros j sj Hj Hsj. rewrite Hbs. by eapply I4.
  - intros j sj Hj Hsj. rewrite Hbs. by eapply I4'.
  - by rewrite Hbs.
  - by rewrite Hbs.
  - by rewrite Hbl.
Qed.
(** Moving a request between the queues and the hands of the caller. *)
Lemma sched_move held held' sc w r :
  sched_ok held sc → held' ++ w ++ r ≡ₚ live held sc →
  (∀ i s, i ∈ w → i ∉ waiting sc → objs sc !! i = Some s → wait_ok (block_size (block_manager sc)) s) →
  (∀ i s, i ∈ r → i ∉ running sc → objs sc !! i = Some s → run_ok (block_size (block_manager sc)) s) →
  sched_ok held' (sc <| waiting := w |> <| running := r |>).
Proof.
  intros [I1 I2 I3 I4 I4' I5 I6 I7 I8 I9 I10 I11] Hp Hw Hr. set (sc' := sc <| waiting := w |> <| running := r |>).
  assert (Hlive : live held' sc' ≡ₚ live held sc) by exact Hp. split; try done.
  - change (block_manager sc') with (block_manager sc). change (owned sc' (live held' sc')) with (owned sc (live held' sc')).
    by rewrite (owned_perm sc _ _ Hlive).
  - by rewrite Hlive.
  - intros i Hi. rewrite Hlive in Hi. by apply I3.
  - intros i s Hi Hs. destruct (decide (i ∈ waiting sc)) as [Hin|Hout]; [by eapply I4|by eapply Hw].
  - intros i s Hi Hs. destruct (decide (i ∈ running sc)) as [Hin|Hout]; [by eapply I4'|by eapply Hr].
Qed.
(** Fields the invariant does not mention. *)
Lemma sched_same held sc sc' :
  sched_ok held sc → cfg sc' = cfg sc → block_manager sc' = block_manager sc → objs sc' = objs sc → same_queues sc sc' →
  remote_restore_service sc' = remote_restore_service sc → pending_restores sc' = pending_restores sc →
  trace_ok (trace sc') → sched_ok held sc'.
Proof.
  intros [I1 I2 I3 I4 I4' I5 I6 I7 I8 I9 I10 I11] E1 E2 E3 [E4 E5] E6 E7 E8.
  split; unfold live, owned, table in *; rewrite ?E1, ?E2, ?E3, ?E4, ?E5, ?E6, ?E7; done.
Qed.

(** ** Access *)
Lemma get_seq_run sc i s : objs sc !! i = Some s → get_seq i sc = (inr s, sc).
Proof. intros Hs. unfold get_seq, mbind, M_bind, getS. by rewrite Hs. Qed.
Lemma wp_get_seq sc i s (Q : Sequence → Scheduler R T → Prop) E : objs sc !! i = Some s → Q s sc → wp (get_seq i) Q E sc.
Proof. intros Hs HQ. eapply wp_of_run; [by apply get_seq_run|done]. Qed.

Lemma with_request_twice bm1 s1 bm2 s2 i sc : with_request bm2 i s2 (with_request bm1 i s1 sc) = with_request bm2 i s2 sc.
Proof.
  change (sc <| block_manager := bm2 |> <| objs := <[i := s2]> (<[i := s1]> (objs sc)) |> = with_request bm2 i s2 sc).
  by rewrite insert_insert_eq.
Qed.
Lemma with_request_at bm i s sc : objs (with_request bm i s sc) !! i = Some s.
Proof. apply lookup_insert_eq. Qed.
Lemma with_request_ne bm i s sc j : j ≠ i → objs (with_request bm i s sc) !! j = objs sc !! j.
Proof. intros Hj. by apply lookup_insert_ne. Qed.
Lemma with_request_only bm i s s' sc :
  bm_static (block_manager sc) bm → objs sc !! i = Some s → token_ids s' = token_ids s → only [i] sc (with_request bm i s' sc).
Proof.
  intros Hb Hs Ht. split; [do 4 (split; [done|])|].
  - intros j. destruct (decide (j = i)) as [->|Hj]; [by rewrite with_request_at, Hs; cbn; rewrite Ht|by rewrite with_request_ne].
  - intros j Hj. apply with_request_ne. set_solver.
Qed.

(** Symbolic execution on one request: the state is [with_request bm i s sc]. *)
Lemma wp_focus {A} sc i s (m : MS A) Q E :
  objs sc !! i = Some s → wp m Q E (with_request (block_manager sc) i s sc) → wp m Q E sc.
Proof.
  intros Hs. assert (with_request (block_manager sc) i s sc = sc) as ->; [|done].
  unfold with_request. rewrite insert_id by done. by destruct sc.
Qed.
Lemma wp_read_focus bm i s sc (Q : Sequence → Scheduler R T → Prop) E :
  Q s (with_request bm i s sc) → wp (get_seq i) Q E (with_request bm i s sc).
Proof. apply wp_get_seq, with_request_at. Qed.
Lemma wp_update_focus bm i s sc f (Q : () → Scheduler R T → Prop) E :
  Q tt (with_request bm i (f s) sc) → wp (update_seq i f) Q E (with_request bm i s sc).
Proof.
  intros HQ. unfold update_seq. apply wp_bind. apply wp_read_focus. unfold set_seq. apply wp_modify.
  by rewrite <-(with_request_twice bm s bm (f s)) in HQ.
Qed.
Lemma wp_on_bms_focus {A} bm i s sc (m : MBS A) (Q : A → Scheduler R T → Prop) E :
  wp m (λ a st, Q a (with_request (st.1) i (st.2) sc)) (λ e st, E e (with_request (st.1) i (st.2) sc)) (bm, s) →
  wp (on_bms i m) Q E (with_request bm i s sc).
Proof.
  intros Hm. unfold on_bms. apply wp_bind. apply wp_read_focus. unfold wp in *. cbn.
  destruct (m (bm, s)) as [[e|a] [bm' s']]; cbn [fst snd] in Hm; by rewrite <-(with_request_twice bm s bm' s') in Hm.
Qed.
Lemma wp_on_bm {A} (m : MB A) sc (Q : A → Scheduler R T → Prop) E :
  wp m (λ a bm', Q a (sc <| block_manager := bm' |>)) (λ e bm', E e (sc <| block_manager := bm' |>)) (block_manager sc) →
  wp (on_bm m) Q E sc.
Proof. unfold wp, on_bm. by destruct (m (block_manager sc)) as [[e|a] bm']. Qed.

Lemma live_waiting held sc i : i ∈ waiting sc → i ∈ live held sc.
Proof. intros Hi. unfold live. set_solver. Qed.
Lemma live_running held sc i : i ∈ running sc → i ∈ live held sc.
Proof. intros Hi. unfold live. set_solver. Qed.
Lemma live_held held sc i : i ∈ held → i ∈ live held sc.
Proof. intros Hi. unfold live. set_solver. Qed.
Lemma waiting_not_running held sc i : sched_ok held sc → i ∈ waiting sc → i ∉ running sc ∧ i ∉ held.
Proof.
  intros HI Hw. pose proof (so_nodup _ _ HI) as Hd. unfold live in Hd.
  apply NoDup_app in Hd as (_ & Hh & (_ & Hr & _)%NoDup_app). split; [by apply Hr|].
  intros Hx. apply (Hh i Hx). set_solver.
Qed.
Lemma held_not_queued held sc i : sched_ok held sc → i ∈ held → i ∉ waiting sc ∧ i ∉ running sc.
Proof.
  intros HI Hh. pose proof (so_nodup _ _ HI) as Hd. unfold live in Hd.
  apply NoDup_app in Hd as (_ & Hn & _). specialize (Hn i Hh). set_solver.
Qed.

(** Reading a queue of requests *)
Definition at_ids sc (i : nat) s : Prop := objs sc !! i = Some s ∧ request_ok (block_size (block_manager sc)) i s.
Lemma get_seqs_run held sc l :
  sched_ok held sc → l ⊆ live held sc →
  ∃ ss, get_seqs l sc = (inr ss, sc) ∧ Forall2 (at_ids sc) l ss.
Proof.
  intros HI Hl. destruct (mapM_M_reads (at_ids sc) get_seq l sc) as (ss & Hrun & HR); [|by exists ss].
  intros i Hi. destruct (so_obj _ _ HI i (Hl i Hi)) as (s & Hs & Hok). exists s. split; [by apply get_seq_run|done].
Qed.
Lemma wp_get_seqs held sc l (Q : list Sequence → Scheduler R T → Prop) E :
  sched_ok held sc → l ⊆ live held sc → (∀ ss, Forall2 (at_ids sc) l ss → Q ss sc) → wp (get_seqs l) Q E sc.
Proof. intros HI Hl HQ. destruct (get_seqs_run held sc l HI Hl) as (ss & Hrun & HR). eapply wp_of_run; [done|]. by apply HQ. Qed.
Lemma at_ids_arrived sc l ss : Forall2 (at_ids sc) l ss → Forall arrived ss.
Proof. intros HR. induction HR as [|i s l ss [_ [_ ? _ _ _]]]; by constructor. Qed.
Lemma at_ids_in sc l ss s : Forall2 (at_ids sc) l ss → s ∈ ss → seq_id s ∈ l ∧ objs sc !! seq_id s = Some s.
Proof.
  intros HR Hs. apply list_elem_of_lookup in Hs as [k Hk]. destruct (Forall2_lookup_r _ _ _ _ _ HR Hk) as (i & Hi & Ho & Hok).
  rewrite (rq_id _ _ _ Hok). split; [by eapply list_elem_of_lookup_2|done].
Qed.
Lemma at_ids_nil sc l ss : Forall2 (at_ids sc) l ss → l ≠ [] → ss ≠ [].
Proof. by intros [|? ? ? ? ?]. Qed.
Lemma at_ids_filter sc l ss (P : Sequence → Prop) `{!∀ s, Decision (P s)} i :
  Forall2 (at_ids sc) l ss → i ∈ seq_id <$> filter P ss ↔ i ∈ l ∧ ∃ s, objs sc !! i = Some s ∧ P s.
Proof.
  intros HR. rewrite list_elem_of_fmap. split.
  - intros (s & -> & [HP Hs]%list_elem_of_filter). destruct (at_ids_in _ _ _ _ HR Hs). eauto.
  - intros (Hi & s & Hs & HP). apply list_elem_of_lookup in Hi as [k Hk].
    destruct (Forall2_lookup_l _ _ _ _ _ HR Hk) as (s' & Hs' & Ho & Hok). assert (s' = s) as -> by congruence.
    exists s. split; [by rewrite (rq_id _ _ _ Hok)|]. apply list_elem_of_filter. split; [done|by eapply list_elem_of_lookup_2].
Qed.

(** The policy never fails on requests that have arrived. *)
Lemma wp_budget sc s now (Q : option Q → Scheduler R T → Prop) E :
  arrived s → (∀ b, Q b sc) → wp (budget s now) Q E sc.
Proof.
  intros Ha HQ. unfold budget. wp_steps. apply wp_lift; [done|].
  intros e He. destruct (budget_total (policy sc) (estimator sc) s (step_id sc) now Ha) as [b Hb]. congruence.
Qed.

(** ** Steps that do not interfere *)
Lemma quiet_refl sc : quiet sc sc.
Proof. split_and!; [reflexivity|done..]. Qed.
Lemma quiet_trans sc1 sc2 sc3 : quiet sc1 sc2 → quiet sc2 sc3 → quiet sc1 sc3.
Proof. intros (?&[??]&?&?) (?&[??]&?&?). split; [by etrans|]. split_and!; [split|..]; congruence. Qed.
Lemma tick_ok held sc n : sched_ok held sc → sched_ok held (sc <| ticks := n |>) ∧ quiet sc (sc <| ticks := n |>).
Proof. intros HI. split; [by eapply sched_same; [done..|apply (so_trace _ _ HI)]|split_and!; done]. Qed.
(** Pure bookkeeping. *)
Lemma count_spec held sc f :
  sched_ok held sc → wp (count f) (λ _ sc', sched_ok held sc' ∧ quiet sc sc') noexn sc.
Proof. intros HI. unfold count. wp_steps. split; [by eapply sched_same; [done..|apply (so_trace _ _ HI)]|split_and!; done]. Qed.

(** ** Leaving a queue *)
Lemma remove_first_perm x l : x ∈ l → ∃ l', remove_first x l = Some l' ∧ x :: l' ≡ₚ l ∧ l' ⊆ l.
Proof.
  induction l as [|y l IH]; intros Hx; [by apply not_elem_of_nil in Hx|]. cbn. case_decide as E.
  - subst. exists l. split_and!; [done..|set_solver].
  - apply elem_of_cons in Hx as [?|Hx]; [done|]. destruct (IH Hx) as (l' & -> & Hp & Hs). exists (y :: l').
    split_and!; [done| |set_solver]. rewrite <-Hp. apply perm_swap.
Qed.
Lemma remove_running_spec held sc i :
  sched_ok held sc → i ∈ running sc →
  wp (remove_running i) (λ _ sc', sched_ok (i :: held) sc' ∧ only [] sc sc' ∧ waiting sc' = waiting sc ∧
    i :: running sc' ≡ₚ running sc ∧ block_manager sc' = block_manager sc) noexn sc.
Proof.
  intros HI Hi. unfold remove_running. wp_steps. destruct (remove_first_perm i _ Hi) as (l & -> & Hp & Hs).
  cbn [of_option]. wp_steps. split; [|split; [split; [by split_and!|done]|done]].
  assert (Hm : sched_ok (i :: held) (sc <| waiting := waiting sc |> <| running := l |>)); [|by destruct sc].
  eapply sched_move; [exact HI| | |].
  - unfold live. rewrite <-Hp. solve_Permutation.
  - done.
  - intros j s Hj Hn. by apply Hs in Hj.
Qed.
Lemma remove_waiting_spec held sc i :
  sched_ok held sc → i ∈ waiting sc →
  wp (remove_waiting i) (λ _ sc', sched_ok (i :: held) sc' ∧ only [] sc sc' ∧ running sc' = running sc ∧
    i :: waiting sc' ≡ₚ waiting sc ∧ block_manager sc' = block_manager sc) noexn sc.
Proof.
  intros HI Hi. unfold remove_waiting. wp_steps. destruct (remove_first_perm i _ Hi) as (l & -> & Hp & Hs).
  cbn [of_option]. wp_steps. split; [|split; [split; [by split_and!|done]|done]].
  assert (Hm : sched_ok (i :: held) (sc <| waiting := l |> <| running := running sc |>)); [|by destruct sc].
  eapply sched_move; [exact HI| | |].
  - unfold live. rewrite <-Hp. solve_Permutation.
  - intros j s Hj Hn. by apply Hs in Hj.
  - done.
Qed.
(** ** The clock and the flight recorder do not interfere *)
Context (append_ok : nat → bool) (clock : nat → Q).
Lemma read_clock_spec held sc :
  sched_ok held sc → wp (read_clock clock) (λ _ sc', sched_ok held sc' ∧ quiet sc sc') noexn sc.
Proof. intros HI. unfold read_clock. wp_steps. by apply tick_ok. Qed.

Lemma snapshot_run held sc now i : sched_ok held sc → i ∈ live held sc → ∃ j, snapshot now i sc = (inr j, sc) ∧ True.
Proof.
  intros HI Hi. destruct (so_obj _ _ HI i Hi) as (s & Hs & Hok). pose proof (rq_arrived _ _ _ Hok) as [a Ha].
  destruct (budget_total (policy sc) (estimator sc) s (step_id sc) now (rq_arrived _ _ _ Hok)) as [b Hb].
  unfold snapshot, mbind, M_bind, getS. rewrite (get_seq_run _ _ _ Hs). unfold of_option. rewrite Ha.
  unfold budget, mbind, M_bind, getS, lift, mret, M_ret. rewrite Hb. by eexists.
Qed.

Lemma trace_meta held sc event l now tr details :
  sched_ok held sc → l ⊆ live held sc →
  wp (trace_event append_ok clock event l now tr details) (λ _ sc', sched_ok held sc' ∧ quiet sc sc' ∧ metrics_by_seq_id sc' = metrics_by_seq_id sc) noexn sc.
Proof.
  intros HI Hl. unfold trace_event. wp_steps. destruct (trace sc) as [t|] eqn:Et; [|wp_step; split_and!; [done|apply quiet_refl|done]].
  destruct (negb (tr_enabled t)); wp_step; [split_and!; [done|apply quiet_refl|done]|].
  apply (wp_mono _ (λ _ sc', sched_ok held sc' ∧ quiet sc sc' ∧ metrics_by_seq_id sc' = metrics_by_seq_id sc) _ noexn);
    [|intros nw sc1 (HI1 & HQ1 & Hm1)|done].
  { destruct now; [wp_step; split_and!; [done|apply quiet_refl|done]|]. unfold read_clock. wp_steps. by destruct (tick_ok held sc (S (ticks sc)) HI). }
  wp_step. wp_step. assert (Hread : ∀ l' (Q : list Json → Scheduler R T → Prop), l' ⊆ live held sc1 →
    (∀ js, Q js sc1) → wp (mapM_M (snapshot nw) (take 64 l')) Q noexn sc1).
  { intros l' Q Hl' HQ. destruct (mapM_M_reads (λ _ _, True) (snapshot nw) (take 64 l') sc1) as (js & Hrun & _).
    - intros i Hi. eapply snapshot_run; [exact HI1|]. apply Hl'. by eapply subseteq_take.
    - eapply wp_of_run; [exact Hrun|]. apply HQ. }
  pose proof HQ1 as (_ & [Qw Qr] & _).
  wp_step. apply Hread; [intros i; apply live_waiting|]. intros w.
  wp_step. apply Hread; [intros i; apply live_running|]. intros r.
  wp_step. apply Hread; [unfold live in *; by rewrite Qw, Qr|]. intros sel. unfold on_trace.
  assert (Ht : trace_inv t ∧ 0 < tr_history_max t).
  { pose proof (so_trace _ _ HI) as Ht. by rewrite Et in Ht. }
  set (row := JObj _). destruct (wp_run _ _ _ (record_bounded append_ok row tr t (proj1 Ht) (proj2 Ht))) as (u & t' & Hrun & Ht' & Hm).
  unfold wp. rewrite Hrun. split_and!; [| |done].
  - eapply sched_same; [exact HI1|done..|]. cbn. split; [done|]. rewrite Hm. apply Ht.
  - eapply quiet_trans; [exact HQ1|by split_and!].
Qed.
Lemma trace_spec held sc event l now tr details :
  sched_ok held sc → l ⊆ live held sc →
  wp (trace_event append_ok clock event l now tr details) (λ _ sc', sched_ok held sc' ∧ quiet sc sc') noexn sc.
Proof. intros HI Hl. eapply wp_mono; [by apply trace_meta| |done]. by intros ? ? (? & ? & _). Qed.
End inv.
