(* ===== verification/SchedulerReclaim.v ===== *)
(** * The scheduler: reclaiming, resuming, preempting and compressing

    Each step keeps [sched_ok] and changes the requests it names only. The loop of
    [_ensure_resume_capacity] ends, and when it succeeds the request can be resumed. *)
From S2P Require Import Prelude Json Qos Sequence Policy KvPolicy RadixCache BlockManager BlockInv BlockSpec BlockAgain SchedulerTrace Scheduler SchedulerInv.
Set Default Goal Selector "!".
Set Default Proof Using "Type".

(** The request after a reclaim decision. *)
Definition reclaimed (bs : nat) (d : KVReclaimDecision) (freed : nat) (s : Sequence) : Sequence :=
  record_kv_reclaim freed (kd_keep_blocks d) (kd_invalidated_tokens d) (reclaimed_seq bs (kd_keep_blocks d) s).

Lemma reclaimed_ok bs i s d m freed :
  request_ok bs i s → decision_ok bs s m d → request_ok bs i (reclaimed bs d freed s).
Proof.
  intros [Q1 Q2 Q3 Q4 Q5 Q6 Q7 Q8] (D1 & D2 & _). split; cbn; try done; [lia|]. intros _. split; [done|]. rewrite length_take. nia.
Qed.
Lemma reclaimed_wait bs s d m freed :
  wait_ok bs s → decision_ok bs s m d → wait_ok bs (reclaimed bs d freed s).
Proof. intros ([W0 W1] & W2 & W3) (D1 & _). split_and!; cbn; try done. rewrite length_take. change (num_blocks bs (reclaimed bs d freed s)) with (num_blocks bs s). lia. Qed.
Lemma blocks_cover bs s keep : 0 < bs → keep * bs <= num_tokens s → keep <= num_blocks bs s.
Proof. intros Hbs Hk. unfold num_blocks. apply Nat.div_le_lower_bound; lia. Qed.

Lemma filter_length_le {A} (P Q : A → Prop) `{!∀ x, Decision (P x), !∀ x, Decision (Q x)} (l : list A) :
  (∀ x, P x → Q x) → length (filter P l) <= length (filter Q l).
Proof.
  intros HPQ. induction l as [|x l IH]; [done|]. destruct (decide (P x)).
  - rewrite !filter_cons_True by auto. cbn. lia.
  - rewrite filter_cons_False by done. destruct (decide (Q x)); [rewrite filter_cons_True by done; cbn; lia|].
    by rewrite filter_cons_False.
Qed.
Lemma filter_length_lt {A} (P Q : A → Prop) `{!∀ x, Decision (P x), !∀ x, Decision (Q x)} (l : list A) y :
  (∀ x, P x → Q x) → y ∈ l → ¬ P y → Q y → length (filter P l) < length (filter Q l).
Proof.
  intros HPQ. induction l as [|x l IH]; intros Hy HnP HQ; [by apply not_elem_of_nil in Hy|].
  apply elem_of_cons in Hy as [<-|Hy].
  - rewrite filter_cons_False, filter_cons_True by done. cbn. pose proof (filter_length_le P Q l HPQ). lia.
  - specialize (IH Hy HnP HQ). destruct (decide (P x)).
    + rewrite !filter_cons_True by auto. cbn. lia.
    + rewrite filter_cons_False by done. destruct (decide (Q x)); [rewrite filter_cons_True by done; cbn; lia|].
      by rewrite filter_cons_False.
Qed.

Section steps.
Context {R T Pg : Type} `{RestoreService R T Pg} `{Hasher} `{FloatRepr}.
Implicit Types (sc : Scheduler R T) (s : Sequence) (held l : list nat).
Abbreviation MS := (M (Scheduler R T)).
Abbreviation bs_of sc := (block_size (block_manager sc)).

Lemma quiet_bs sc sc' : static sc sc' → bs_of sc' = bs_of sc.
Proof. by intros (_ & _ & _ & (E & _) & _). Qed.

(** Chaining a quiet step. *)
Lemma wp_quiet {A B} held sc (m : MS A) (k : A → MS B) Q E :
  wp m (λ _ sc', sched_ok held sc' ∧ quiet sc sc') noexn sc →
  (∀ a sc', sched_ok held sc' → quiet sc sc' → wp (k a) Q E sc') → wp (m ≫= k) Q E sc.
Proof. intros Hm Hk. apply wp_bind. eapply wp_mono; [exact Hm| |done]. intros a sc' [HI HQ]. by apply Hk. Qed.
Lemma wp_quiet_last {A} held sc (m : MS A) Q E :
  wp m (λ _ sc', sched_ok held sc' ∧ quiet sc sc') noexn sc →
  (∀ a sc', sched_ok held sc' → quiet sc sc' → Q a sc') → wp m Q E sc.
Proof. intros Hm Hk. eapply wp_mono; [exact Hm| |done]. intros a sc' [HI HQ]. by apply Hk. Qed.

Lemma table_at sc i s : objs sc !! i = Some s → table sc i = block_table s.
Proof. intros Hs. unfold table. by rewrite Hs. Qed.
Lemma owns_table s : owns_blocks s = true ↔ block_table s ≠ [].
Proof. unfold owns_blocks. rewrite negb_true_iff. apply bool_decide_eq_false. Qed.

(** When nobody holds a page, every page is free. *)
Lemma all_free held sc :
  sched_ok held sc → (∀ i, i ∈ live held sc → table sc i = []) →
  length (free_block_ids (block_manager sc)) = length (blocks (block_manager sc)).
Proof.
  intros HI Hnone. assert (Ho : owned sc (live held sc) = []).
  { unfold owned. induction (live held sc) as [|i l IH]; [done|]. cbn. rewrite Hnone by set_solver. cbn.
    apply IH. intros j Hj. apply Hnone. set_solver. }
  pose proof (so_bm _ _ HI) as HB. rewrite Ho in HB. rewrite <-(bm_total _ _ HB).
  assert (used_block_ids (block_manager sc) = ∅) as ->; [|rewrite size_empty; lia].
  apply elem_of_equiv_empty_L. intros b. rewrite (bi_used _ _ HB). unfold occ. simpl. lia.
Qed.

(** The request needs more pages than the cache has. *)
Definition too_big sc (i : nat) : Prop :=
  ∃ s, objs sc !! i = Some s ∧ length (blocks (block_manager sc)) < num_blocks (bs_of sc) s.

(** [can_resume] as the scheduler calls it. *)
Definition resumable (s : Sequence) (bm : BlockManager) : Prop :=
  ∃ l, pending_resume_matches bm !! seq_id s = Some l ∧
    length l <= num_blocks (block_size bm) s - 1 - length (block_table s) ∧
    admitted s bm (num_blocks (block_size bm) s - length (block_table s)) l.
Lemma can_resume_sched held sc i s :
  sched_ok held sc → i ∈ waiting sc → objs sc !! i = Some s →
  wp (on_bm (can_resume s)) (λ r sc', sched_ok held sc' ∧ only [] sc sc' ∧ same_queues sc sc' ∧
    can_resume s (block_manager sc) = (inr r, block_manager sc') ∧
    (r = true → resumable s (block_manager sc')) ∧
    (r = false → length (free_block_ids (block_manager sc)) < num_blocks (bs_of sc) s - length (block_table s))) noexn sc.
Proof.
  intros HI Hi Hs. destruct (so_wait _ _ HI i s Hi Hs) as (_ & _ & Hle).
  destruct (wp_run _ _ _ (can_resume_spec _ s _ (so_bm _ _ HI) Hle)) as (r & bm' & Hrun & HB & HS & Hf & _ & _ & _ & Hy & Hn).
  apply wp_on_bm. eapply wp_of_run; [exact Hrun|].
  change (block_manager (sc <| block_manager := bm' |>)) with bm'. split_and!; try done.
  - by apply sched_manager.
  - destruct HS as (E & _). unfold resumable. by rewrite E.
Qed.

(** The other waiting requests that hold pages, and the iterations that remain. *)
Definition owners_of sc (i : nat) : list nat := filter (λ j, j ≠ i ∧ table sc j ≠ []) (waiting sc).
Definition resume_measure sc (i : nat) : nat :=
  if decide (table sc i = []) then 1 else length (owners_of sc i) + 2.

(** [_ensure_resume_capacity] returns; [true] means that the request can be resumed,
    or that it was reclaimed itself because nobody else held pages. *)
Definition resume_outcome sc (i : nat) (r : bool) sc' : Prop :=
  if r then ∃ s', objs sc' !! i = Some s' ∧ (block_table s' ≠ [] → resumable s' (block_manager sc')) ∧
    (block_table s' = [] → ∀ j, j ∈ waiting sc' → table sc' j = [])
  else running sc = [] → too_big sc' i.

Context (append_ok : nat → bool) (clock : nat → Q).

Lemma apply_kv_reclaim_spec held sc i s d m :
  sched_ok held sc → i ∈ held ++ waiting sc → objs sc !! i = Some s → decision_ok (bs_of sc) s m d →
  wp (apply_kv_reclaim append_ok clock i d) (λ r sc', sched_ok held sc' ∧ only [i] sc sc' ∧ same_queues sc sc' ∧
    objs sc' !! i = Some (reclaimed (bs_of sc) d r s)) noexn sc.
Proof.
  intros HI Hi Hs Hd. assert (Hlive : i ∈ live held sc) by (unfold live; set_solver).
  unfold apply_kv_reclaim. eapply wp_quiet; [apply trace_spec; [exact HI|set_solver]|].
  intros _ sc1 HI1 Q1. pose proof Q1 as (St & [Qw Qr] & Qo & Qb). rewrite <-Qo in Hs. rewrite <-Qb in Hd |- *.
  assert (Hlive1 : i ∈ live held sc1) by (unfold live in *; by rewrite Qw, Qr).
  destruct (sched_focus held sc1 i HI1 Hlive1) as (s' & own & Hs' & Hok & HB & Hback).
  assert (s' = s) as -> by congruence. wp_step. eapply wp_focus; [exact Hs|]. apply wp_on_bms_focus.
  destruct Hd as (D1 & D2 & D3). eapply wp_mono; [by apply (reclaim_suffix_spec own)| |done].
  intros freed [bm2 s2] (-> & HB2 & HS2 & _). cbn [fst snd] in *. wp_step. apply wp_update_focus.
  fold (reclaimed (bs_of sc1) d freed s).
  assert (HI2 : sched_ok held (with_request bm2 i (reclaimed (bs_of sc1) d freed s) sc1)).
  { apply Hback; [exact HB2|done|by eapply reclaimed_ok| |].
    - intros Hw. eapply reclaimed_wait; [by eapply (so_wait _ _ HI1)|done].
    - intros Hr. apply elem_of_app in Hi as [Hi|Hi].
      + by destruct (held_not_queued _ _ _ HI1 Hi).
      + rewrite <-Qw in Hi. by destruct (waiting_not_running _ _ _ HI1 Hi). }
  assert (HO2 : only [i] sc1 (with_request bm2 i (reclaimed (bs_of sc1) d freed s) sc1)) by by eapply with_request_only.
  eapply wp_quiet; [by apply count_spec|]. intros _ sc3 HI3 Q3.
  eapply wp_quiet; [apply trace_spec; [exact HI3|]|].
  { destruct Q3 as (_ & [Ew Er] & _). unfold live in *. rewrite Ew, Er. set_solver. }
  intros _ sc4 HI4 Q4. pose proof (quiet_trans _ _ _ Q3 Q4) as Q34. wp_step. split_and!.
  - done.
  - eapply only_trans; [by apply quiet_only|]. eapply only_trans; [exact HO2|by apply quiet_only].
  - destruct Q34 as (_ & [E1 E2] & _). split; [by rewrite E1|by rewrite E2].
  - destruct Q34 as (_ & _ & -> & _). apply with_request_at.
Qed.

Lemma forced_reclaim_spec held sc i s now :
  sched_ok held sc → i ∈ waiting sc → objs sc !! i = Some s →
  wp (forced_reclaim append_ok clock i now) (λ _ sc', sched_ok held sc' ∧ only [i] sc sc' ∧ same_queues sc sc' ∧
    ∃ s', objs sc' !! i = Some s' ∧ block_table s' = [] ∧ seq_id s' = seq_id s) noexn sc.
Proof.
  intros HI Hi Hs. destruct (so_obj _ _ HI i) as (s' & Hs' & Hok); [by apply live_waiting|].
  assert (s' = s) as -> by congruence. unfold forced_reclaim. wp_step. eapply wp_get_seq; [done|].
  wp_step. apply wp_budget; [apply (rq_arrived _ _ _ Hok)|]. intros b. wp_steps.
  eapply (wp_mono _ _ _ noexn); [eapply (apply_kv_reclaim_spec held sc i s _ 1); [done|set_solver|done|]| |done].
  { unfold plan_all. rewrite <-(so_bs _ _ HI). apply plan_decision_ok. done. }
  intros freed sc1 (HI1 & HO1 & HQ1 & Hs1). eapply wp_quiet_last; [by apply count_spec|].
  intros _ sc2 HI2 Q2. pose proof Q2 as (_ & [E1 E2] & E3 & _). split_and!.
  - done.
  - eapply only_trans; [exact HO1|by apply quiet_only].
  - destruct HQ1. split; congruence.
  - eexists. rewrite E3. split; [exact Hs1|]. split; [|done].
    assert (Hk : kd_keep_blocks (plan_all sc s b) = 0) by (cbn; lia). cbn [block_table reclaimed record_kv_reclaim].
    change (take (kd_keep_blocks (plan_all sc s b)) (block_table s) = []). by rewrite Hk.
Qed.

Lemma ensure_resume_loop_spec fuel now : ∀ sc i,
  sched_ok [] sc → i ∈ waiting sc → resume_measure sc i <= fuel →
  (table sc i = [] → ∀ j, j ∈ waiting sc → table sc j = []) →
  wp (ensure_resume_loop append_ok clock fuel i now) (λ r sc', sched_ok [] sc' ∧ only (waiting sc) sc sc' ∧
    same_queues sc sc' ∧ resume_outcome sc i r sc') noexn sc.
Proof.
  induction fuel as [|fuel IH]; intros sc i HI Hi Hfuel Hempty.
  { unfold resume_measure in Hfuel. case_decide; lia. }
  destruct (so_obj _ _ HI i) as (s & Hs & Hok); [by apply live_waiting|]. pose proof (table_at _ _ _ Hs) as Ht.
  cbn [ensure_resume_loop]. wp_step. eapply wp_get_seq; [done|]. wp_step.
  destruct (owns_blocks s) eqn:Eo.
  2:{ (* the request holds nothing *)
    wp_steps. eapply wp_get_seq; [done|]. eapply wp_mono; [by apply (can_resume_sched [] sc i)| |done].
    intros r sc1 (HI1 & HO1 & HQ1 & _ & Hy & Hn). split_and!; [done|by apply only_nil|done|].
    assert (Hnil : block_table s = []) by (apply dec_stable; rewrite <-owns_table; congruence).
    assert (Hs1 : objs sc1 !! i = Some s) by (rewrite <-Hs; apply HO1; set_solver).
    destruct r; cbn.
    - exists s. split_and!; [done|by intros|]. intros _ j Hj. unfold table. rewrite (proj2 HO1) by set_solver.
      apply Hempty; [by rewrite Ht|]. destruct HQ1 as [<- _]. done.
    - intros Hr. specialize (Hn eq_refl). rewrite (all_free [] sc HI) in Hn.
      + exists s. destruct HO1 as [(_ & _ & _ & (B1 & _ & B3) & _) _]. rewrite B1, B3. split; [done|lia].
      + intros j. unfold live. cbn [app]. rewrite Hr, app_nil_r. apply Hempty. by rewrite Ht. }
  (* the request holds pages *)
  assert (Hown : block_table s ≠ []) by (by apply owns_table).
  eapply wp_mono; [by apply (can_resume_sched [] sc i)| |done].
  intros fits sc1 (HI1 & HO1 & HQ1 & Hrun & Hy & _). pose proof HQ1 as [Qw Qr].
  assert (Hs1 : objs sc1 !! i = Some s) by (rewrite <-Hs; apply HO1; set_solver).
  assert (Hi1 : i ∈ waiting sc1) by by rewrite Qw.
  destruct fits.
  { wp_step. eapply wp_get_seq; [exact Hs1|]. eapply wp_mono; [by apply (can_resume_sched [] sc1 i)| |done].
    intros r sc2 (HI2 & HO2 & HQ2 & Hrun2 & Hy2 & _). split_and!; [done| |by etrans|].
    - by eapply only_trans; apply only_nil.
    - destruct (so_wait _ _ HI i s Hi Hs) as (_ & _ & Hle).
      destruct (can_resume_again _ s _ _ (so_bm _ _ HI) Hle Hrun) as [bm2 Hag]. rewrite Hag in Hrun2. injection Hrun2 as <- _.
      cbn. exists s. split_and!; [rewrite <-Hs1; apply HO2; set_solver|intros _; by apply Hy2|by intros]. }
  wp_step. wp_step. wp_step. eapply (wp_get_seqs [] sc1); [done|intros j; apply live_waiting|].
  intros ws Hws. set (candidates := filter _ ws).
  assert (Hcand : ∀ s', s' ∈ candidates → seq_id s' ∈ waiting sc1 ∧ objs sc1 !! seq_id s' = Some s' ∧ seq_id s' ≠ i ∧ block_table s' ≠ []).
  { intros s' [[Hne Ho] Hin]%list_elem_of_filter. destruct (at_ids_in _ _ _ _ Hws Hin). split_and!; [done..|]. by apply owns_table. }
  assert (Hi' : ∀ sc', same_queues sc1 sc' → i ∈ waiting sc') by (by intros sc' [-> _]).
  assert (Hfin : ∀ sc2 k, sched_ok [] sc2 → only [k] sc1 sc2 → k ∈ waiting sc → same_queues sc1 sc2 →
    resume_measure sc2 i <= fuel → (table sc2 i = [] → ∀ j, j ∈ waiting sc2 → table sc2 j = []) →
    wp (ensure_resume_loop append_ok clock fuel i now) (λ r sc', sched_ok [] sc' ∧ only (waiting sc) sc sc' ∧
      same_queues sc sc' ∧ resume_outcome sc i r sc') noexn sc2).
  { intros sc2 k HI2 HO2 Hk HQ2 Hf2 Hn2. eapply wp_mono; [apply (IH sc2 i HI2); [by apply Hi'|done..]| |done].
    intros r sc3 (HI3 & HO3 & HQ3 & Hout). assert (HQ12 : same_queues sc sc2) by by etrans. pose proof HQ12 as [Qw2 Qr2].
    split_and!; [done| |by etrans|].
    - rewrite Qw2 in HO3. eapply only_trans; [by apply only_nil|]. eapply only_trans; [|exact HO3].
      eapply only_mono; [|exact HO2]. set_solver.
    - destruct r; cbn in *; [done|]. by rewrite <-Qr2. }
  assert (Hm1 : resume_measure sc i = length (owners_of sc i) + 2).
  { unfold resume_measure. by rewrite decide_False by (by rewrite Ht). }
  rewrite Hm1 in Hfuel. destruct candidates as [|c0 cs] eqn:Ec.
  - (* nobody else holds pages *)
    destruct (bool_decide (running sc1 = [])) eqn:Er; cbn [negb]; breflect.
    2:{ wp_step. split_and!; [done|by apply only_nil|done|]. cbn. intros E. by rewrite <-Qr in E. }
    wp_step. eapply wp_mono; [by apply (forced_reclaim_spec [] sc1 i s)| |done].
    intros _ sc2 (HI2 & HO2 & HQ2 & s2 & Hs2 & Ht2 & _). apply (Hfin sc2 i); try done.
    + unfold resume_measure. rewrite (table_at _ _ _ Hs2), decide_True by done. lia.
    + intros _ j Hj. destruct (decide (j = i)) as [->|Hji]; [by rewrite (table_at _ _ _ Hs2)|].
      unfold table. rewrite (proj2 HO2) by set_solver. destruct HQ2 as [Qw2 _]. rewrite Qw2 in Hj.
      destruct (objs sc1 !! j) as [sj|] eqn:Ej; [|done]. apply dec_stable. intros Hne.
      assert (Hin : j ∈ seq_id <$> candidates); [|by rewrite Ec in Hin; apply not_elem_of_nil in Hin].
      apply (at_ids_filter _ _ _ _ j Hws). split; [done|]. exists sj. split; [done|].
      destruct (so_obj _ _ HI1 j) as (sj' & Ej' & Hokj); [by apply live_waiting|]. assert (sj' = sj) as -> by congruence.
      rewrite (rq_id _ _ _ Hokj). split; [done|]. by apply owns_table.
  - (* the largest of the others is reclaimed *)
    wp_step. apply wp_lift.
    2:{ intros e He. destruct (max_by_total (reclaim_order sc1 now) (c0 :: cs)) as (v & Hv & _); [done| |congruence].
        intros x Hx. rewrite <-Ec in Hx. apply list_elem_of_filter in Hx as [_ Hx]. unfold reclaim_order.
        pose proof (at_ids_arrived _ _ _ Hws) as Ha. rewrite Forall_forall in Ha.
        destruct (budget_total (policy sc1) (estimator sc1) x (step_id sc1) now (Ha x Hx)) as [b Hb]. rewrite Hb. by eexists. }
    intros v Hv. apply max_by_greatest in Hv as [Hv _]. destruct (Hcand v Hv) as (Hv1 & Hv2 & Hv3 & Hv4).
    wp_step. eapply wp_mono; [by apply (forced_reclaim_spec [] sc1 (seq_id v) v)| |done].
    intros _ sc2 (HI2 & HO2 & HQ2 & s2 & Hs2 & Ht2 & _).
    assert (Hsame : ∀ j, j ≠ seq_id v → table sc2 j = table sc j).
    { intros j Hj. unfold table. rewrite (proj2 HO2), (proj2 HO1) by set_solver. done. }
    assert (Hv5 : table sc (seq_id v) ≠ []).
    { unfold table. rewrite <-(proj2 HO1) by set_solver. by rewrite Hv2. }
    apply (Hfin sc2 (seq_id v)); try done; [by rewrite <-Qw| |].
    + unfold resume_measure. rewrite Hsame by done. rewrite decide_False by (by rewrite Ht).
      assert (length (owners_of sc2 i) < length (owners_of sc i)); [|lia].
      unfold owners_of. destruct HQ2 as [-> _]. rewrite Qw. apply (filter_length_lt _ _ _ (seq_id v)).
      * intros x [? Hx]. split; [done|]. destruct (decide (x = seq_id v)) as [->|]; [done|]. by rewrite <-Hsame.
      * by rewrite <-Qw.
      * intros [_ Hx]. apply Hx. by rewrite (table_at _ _ _ Hs2).
      * done.
    + rewrite Hsame by done. rewrite Ht. by intros ?.
Qed.

Lemma ensure_resume_spec sc i now :
  sched_ok [] sc → i ∈ waiting sc → table sc i ≠ [] →
  wp (ensure_resume_capacity append_ok clock i now) (λ r sc', sched_ok [] sc' ∧ only (waiting sc) sc sc' ∧
    same_queues sc sc' ∧ resume_outcome sc i r sc') noexn sc.
Proof.
  intros HI Hi Ht. unfold ensure_resume_capacity. wp_steps. apply ensure_resume_loop_spec; [done..| |done].
  unfold resume_measure. rewrite decide_False by done. unfold owners_of.
  pose proof (length_filter (λ j, j ≠ i ∧ table sc j ≠ []) (waiting sc)). lia.
Qed.

(** ** [preempt] *)
Lemma finish_preempt_spec held sc i s :
  sched_ok (i :: held) sc → objs sc !! i = Some s → kv_compressed s = false →
  length (block_table s) <= num_blocks (bs_of sc) s →
  wp (finish_preempt i) (λ _ sc', sched_ok held sc' ∧ only [i] sc sc' ∧ waiting sc' = i :: waiting sc ∧
    running sc' = running sc) noexn sc.
Proof.
  clear append_ok clock. intros HI Hs Hc Hl. destruct (sched_focus _ _ i HI) as (s' & own & Hs' & Hok & HB & Hback); [unfold live; set_solver|].
  assert (s' = s) as -> by congruence. unfold finish_preempt.
  do 3 (wp_step; (apply wp_update_focus || (eapply wp_focus; [exact Hs|apply wp_update_focus])); cbn beta).
  set (s3 := s <| status := WAITING |> <| is_prefill := true |> <| preemption_count := _ |>).
  destruct (held_not_queued _ _ i HI) as [Hnw Hnr]; [by left|].
  assert (HI3 : sched_ok (i :: held) (with_request (block_manager sc) i s3 sc)).
  { apply Hback; [done|reflexivity|by destruct Hok|by intros ?|by intros ?]. }
  wp_step. split_and!; [|apply (with_request_only (block_manager sc) i s s3 sc); done|done..].
  assert (Hm : sched_ok held (with_request (block_manager sc) i s3 sc <| waiting := i :: waiting sc |> <| running := running sc |>));
    [|by destruct sc].
  eapply sched_move; [exact HI3| | |done].
  - unfold live. cbn [waiting running with_request setter]. solve_Permutation.
  - intros j sj Hj Hnj. destruct (decide (j = i)) as [->|Hne]; [rewrite with_request_at; by intros [= <-]|].
    apply elem_of_cons in Hj as [?|Hj]; [done|]. by destruct Hnj.
Qed.
Lemma preempt_spec held sc i :
  sched_ok (i :: held) sc →
  wp (preempt append_ok clock i) (λ _ sc', sched_ok held sc' ∧ only [i] sc sc' ∧ waiting sc' = i :: waiting sc ∧
    running sc' = running sc) noexn sc.
Proof.
  intros HI. assert (Hlive : i ∈ live (i :: held) sc) by (unfold live; set_solver).
  destruct (sched_focus _ _ i HI Hlive) as (s & own & Hs & Hok & HB & Hback).
  destruct (held_not_queued _ _ i HI) as [Hnw Hnr]; [by left|].
  assert (Hend : ∀ sc1 s1 ev det, sched_ok (i :: held) sc1 → only [i] sc sc1 → same_queues sc sc1 → objs sc1 !! i = Some s1 →
    kv_compressed s1 = false → length (block_table s1) <= num_blocks (bs_of sc1) s1 →
    wp (finish_preempt i;; trace_event append_ok clock ev [i] None false det)
      (λ _ sc', sched_ok held sc' ∧ only [i] sc sc' ∧ waiting sc' = i :: waiting sc ∧ running sc' = running sc) noexn sc1).
  { intros sc1 s1 ev det HI1 HO1 [Qw Qr] Hs1 Hc1 Hl1. wp_step. eapply wp_mono; [by apply (finish_preempt_spec held sc1 i s1)| |done].
    intros _ sc2 (HI2 & HO2 & Hw2 & Hr2). eapply wp_quiet_last; [apply trace_spec; [exact HI2|]|].
    { intros j ->%list_elem_of_singleton. apply live_waiting. rewrite Hw2. by left. }
    intros _ sc3 HI3 Q3. pose proof Q3 as (_ & [E1 E2] & _). split_and!; [done| |congruence..].
    eapply only_trans; [exact HO1|]. eapply only_trans; [exact HO2|by apply quiet_only]. }
  unfold preempt. wp_step. eapply wp_get_seq; [exact Hs|]. destruct (kv_compressed s) eqn:Ec.
  - unfold free_blocks. wp_steps. eapply wp_focus; [exact Hs|]. apply wp_on_bms_focus.
    eapply wp_mono; [by apply (deallocate_spec own)| |done].
    intros _ [bm2 s2] (-> & HB2 & HS2 & _). cbn [fst snd]. wp_steps. apply wp_update_focus.
    set (s3 := record_kv_reclaim _ _ _ _). cbv zeta.
    assert (HI3 : sched_ok (i :: held) (with_request bm2 i s3 sc)).
    { apply Hback; [done..| |by intros ?|by intros ?]. destruct Hok as [Q1 Q2 Q3 Q4 Q5 Q6 Q7 Q8]. split; cbn; try done; lia. }
    assert (HO3 : only [i] sc (with_request bm2 i s3 sc)) by by eapply with_request_only.
    eapply wp_quiet; [by apply count_spec|]. intros _ sc4 HI4 Q4. pose proof Q4 as (_ & HQ4 & E3 & _).
    apply (Hend sc4 s3); try done.
    + eapply only_trans; [exact HO3|by apply quiet_only].
    + rewrite E3. apply with_request_at.
    + cbn. lia.
  - eapply wp_quiet; [by apply read_clock_spec|]. intros now sc1 HI1 Q1. pose proof Q1 as (_ & [Qw Qr] & Qo & Qb).
    wp_step. apply wp_budget; [apply (rq_arrived _ _ _ Hok)|]. intros b. wp_steps. cbv zeta.
    set (d := plan _ _ _ _ _).
    assert (Hd : decision_ok (bs_of sc1) s (Nat.max 1 (c_kv_reclaim_target_free_blocks (cfg sc1) -
      length (free_block_ids (block_manager sc1)))) d).
    { unfold d. rewrite <-(so_bs _ _ HI1). apply plan_decision_ok. lia. }
    rewrite <-Qo in Hs. eapply wp_mono; [eapply (apply_kv_reclaim_spec (i :: held) sc1 i s); [done|set_solver|done|exact Hd]| |done].
    intros freed sc2 (HI2 & HO2 & HQ2 & Hs2). eapply (Hend sc2); [done| | |exact Hs2|done|].
    + eapply only_trans; [by apply quiet_only|exact HO2].
    + etrans; [|exact HQ2]. by split.
    + destruct HO2 as [(_ & _ & _ & (B1 & _) & _) _]. rewrite B1. cbn. rewrite length_take.
      destruct Hd as (_ & D2 & _). pose proof (rq_cached _ _ _ Hok). pose proof (so_bs_pos _ _ HI1).
      assert (kd_keep_blocks d <= num_blocks (bs_of sc1) s); [|unfold num_blocks in *; cbn; lia].
      apply blocks_cover; lia.
Qed.
End steps.
