(* ===== verification/SchedulerDecode.v ===== *)
(** * The scheduler: the decode phase

    The loop that picks running requests, makes room for their next token by
    preempting others, and gives each picked one the page it needs. *)
From S2P Require Import Prelude Json Qos Sequence Policy KvPolicy RadixCache BlockManager BlockInv BlockSpec BlockAgain SchedulerTrace Scheduler SchedulerInv SchedulerReclaim.
Set Default Goal Selector "!".
Set Default Proof Using "Type".

(** What decoding does not change while it makes room. *)
Definition same_progress (s s' : Sequence) : Prop :=
  num_cached_tokens s' = num_cached_tokens s ∧ num_tokens s' = num_tokens s ∧
  num_scheduled_tokens s' = num_scheduled_tokens s ∧ status s' = status s ∧ token_ids s' = token_ids s ∧
  (kv_compressed s' = false → kv_compressed s = false ∧ block_table s' = block_table s) ∧
  (block_table s ≠ [] → block_table s' ≠ []).
#[export] Instance same_progress_preorder : PreOrder same_progress.
Proof. split; [intros s; by split_and!|]. intros s1 s2 s3 (?&?&?&?&?&T1&N1) (?&?&?&?&?&T2&N2). split_and!; try congruence; [|auto].
  intros Hc. destruct (T2 Hc) as [Hc2 ->]. by apply T1.
Qed.
Lemma same_progress_tight bs s s' : same_progress s s' → tight bs s → tight bs s'.
Proof. intros (Ec & _ & En & _ & _ & Hc & _) Ht Hk. destruct (Hc Hk) as [Hk' ->]. rewrite Ec, En. by apply Ht. Qed.

(** A request of a decode batch: one token, all before it cached, a page for it. *)
Definition decode_ready (bs : nat) (s : Sequence) : Prop :=
  status s = RUNNING ∧ num_scheduled_tokens s = 1 ∧ is_prefill s = false ∧
  num_cached_tokens s + 1 = num_tokens s ∧
  (kv_compressed s = false → length (block_table s) = num_blocks bs s) ∧ block_table s ≠ [].

Section decode.
Context {R T Pg : Type} `{RestoreService R T Pg} `{Hasher} `{FloatRepr}.
Implicit Types (sc : Scheduler R T) (s : Sequence) (held l : list nat).
Abbreviation bs_of sc := (block_size (block_manager sc)).

Lemma same_queues_live held sc sc' : same_queues sc sc' → live held sc' = live held sc.
Proof. intros [Qw Qr]. unfold live. by rewrite Qw, Qr. Qed.

(** ** Compression *)
Lemma compressed_ok bs i s keep : request_ok bs i s → request_ok bs i (compressed_seq bs keep s).
Proof. intros [Q1 Q2 Q3 Q4 Q5 Q6 Q7 Q8]. split; try done. cbn. lia. Qed.
Lemma recorded_ok bs i s d t : request_ok bs i s → request_ok bs i (record_kv_compression d t s).
Proof. by intros [Q1 Q2 Q3 Q4 Q5 Q6 Q7 Q8]; split. Qed.

Lemma maybe_compress_spec held sc i :
  sched_ok (i :: held) sc →
  wp (maybe_compress i) (λ _ sc', sched_ok (i :: held) sc' ∧ only [i] sc sc' ∧ same_queues sc sc' ∧
    ∃ s s', objs sc !! i = Some s ∧ objs sc' !! i = Some s' ∧ same_progress s s') noexn sc.
Proof.
  intros HI. destruct (sched_focus _ _ i HI) as (s & own & Hs & Hok & HB & Hback); [by apply live_held; left|].
  destruct (held_not_queued _ _ i HI) as [Hnw Hnr]; [by left|].
  assert (Hid : sched_ok (i :: held) sc ∧ only [i] sc sc ∧ same_queues sc sc ∧
    ∃ s s', objs sc !! i = Some s ∧ objs sc !! i = Some s' ∧ same_progress s s').
  { split_and!; [done|apply only_refl|done|]. by exists s, s. }
  unfold maybe_compress. wp_step. wp_step. cbv zeta beta. destruct (so_compression _ _ HI) as [Hnq Hsink].
  destruct (negb _) eqn:En; [wp_step; exact Hid|]. breflect.
  wp_step. apply wp_raise_if; [intros _|intros E; breflect; pose proof (so_blocks _ _ HI); lia].
  destruct (Qlt_bool _ _); [wp_step; exact Hid|].
  rewrite (proj2 (String.eqb_neq _ "query_aware")) in * by done.
  destruct En as [En|En]; [apply String.eqb_eq in En|done]. destruct (Hsink En) as [Hs1 Hs2].
  wp_step. eapply wp_focus; [exact Hs|]. apply wp_on_bms_focus.
  eapply wp_mono; [by apply (compress_sink_recent_spec own)| |done].
  intros [[dropped freed] dt] [bm2 s2] (H0' & H1' & HB2 & HF & _). cbn [fst snd] in *.
  destruct (dropped =? 0) eqn:Ed; breflect.
  - destruct (H0' Ed) as [_ [= -> ->]]. wp_step.
    assert (HI' : sched_ok (i :: held) (with_request (block_manager sc) i s sc)) by (apply Hback; [done|reflexivity|done|by intros ?|by intros ?]).
    split_and!; [done|by eapply with_request_only|done|]. exists s, s. rewrite with_request_at. by split_and!.
  - destruct (H1' Ed) as (keep & -> & Hkeep). wp_step. apply wp_update_focus. set (s3 := record_kv_compression _ _ _).
    assert (HI3 : sched_ok (i :: held) (with_request bm2 i s3 sc)).
    { apply Hback; [done|by apply frame_static|by apply recorded_ok, compressed_ok|by intros ?|by intros ?]. }
    assert (HO3 : only [i] sc (with_request bm2 i s3 sc)) by (eapply with_request_only; [by apply frame_static|exact Hs|done]).
    eapply wp_quiet; [by apply count_spec|]. intros _ sc4 HI4 Q4. wp_step. pose proof Q4 as (_ & HQ4 & E3 & _).
    split_and!; [done|eapply only_trans; [exact HO3|by apply quiet_only]|exact HQ4|].
    exists s, s3. rewrite E3, with_request_at. by split_and!.
Qed.

Lemma held_perm held held' sc : held ≡ₚ held' → sched_ok held sc → sched_ok held' sc.
Proof.
  intros Hp HI. assert (Hm : sched_ok held' (sc <| waiting := waiting sc |> <| running := running sc |>)); [|by destruct sc].
  eapply sched_move; [exact HI| |done|done]. unfold live. by rewrite Hp.
Qed.

Definition room sc (i : nat) : Prop :=
  ∃ s, objs sc !! i = Some s ∧ Nat.b2n (needs_page (bs_of sc) s) <= length (free_block_ids (block_manager sc)).

(** The request takes its page and its token. *)
Lemma give_token {A} held sc i s (K : M (Scheduler R T) A) Q E :
  sched_ok (i :: held) sc → objs sc !! i = Some s → room sc i →
  status s = RUNNING → num_cached_tokens s + 1 = num_tokens s → num_scheduled_tokens s = 0 → tight (bs_of sc) s → block_table s ≠ [] →
  (∀ sc' s', sched_ok (i :: held) sc' → only [i] sc sc' → same_queues sc sc' → objs sc' !! i = Some s' →
     decode_ready (bs_of sc') s' → wp K Q E sc') →
  wp (update_seq i (λ s, s <| num_scheduled_tokens := 1 |>);;
      update_seq i (λ s, s <| is_prefill := false |>);; on_bms i may_append;; K) Q E sc.
Proof.
  intros HI Hs (s0 & Hs0 & Hroom) Hst Hc Hn0 Ht Hne HK. assert (s0 = s) as -> by congruence.
  destruct (sched_focus _ _ i HI) as (s' & own & Hs' & Hok & HB & Hback); [by apply live_held; left|].
  assert (s' = s) as -> by congruence. destruct (held_not_queued _ _ i HI) as [Hnw Hnr]; [by left|].
  wp_step. eapply wp_focus; [exact Hs|]. apply wp_update_focus. wp_step. apply wp_update_focus.
  set (s2 := s <| num_scheduled_tokens := 1 |> <| is_prefill := false |>). cbn beta.
  wp_step. apply wp_on_bms_focus. eapply wp_mono; [by apply (may_append_spec own s2)| |done].
  intros _ [bm3 s3] (HB3 & HF3 & Happ). cbn [fst snd] in *. pose proof HF3 as (B1 & _ & _).
  assert (H3 : request_ok (bs_of sc) i s3 ∧ decode_ready (bs_of sc) s3 ∧ token_ids s3 = token_ids s).
  { pose proof (so_bs_pos _ _ HI) as Hbs. destruct Hok as [Q1 Q2 Q3 Q4 Q5 Q6 Q7 Q8].
    destruct (needs_page (bs_of sc) s2) eqn:En.
    - destruct Happ as (b & _ & ->). split_and!; [split|split_and!|]; cbn; try done; rewrite ?length_app; cbn.
      + intros Hk. destruct (Q5 Hk). split; [done|lia].
      + intros Hk. rewrite (Ht Hk), Hn0, Nat.add_0_r, <-pages_of_tokens. cbn. rewrite <-Hc, pages_succ by done.
        unfold needs_page in En. cbn in En. by rewrite <-Hc in En; rewrite En.
      + by destruct (block_table s).
    - subst s3. split_and!; [by split|split_and!|done]; cbn; try done. intros Hk.
      rewrite (Ht Hk), Hn0, Nat.add_0_r, <-pages_of_tokens. cbn. rewrite <-Hc, pages_succ by done.
      unfold needs_page in En. cbn in En. rewrite <-Hc in En; rewrite En. cbn. lia. }
  destruct H3 as (Hok3 & Hr3 & Ht3).
  apply (HK _ s3).
  - apply Hback; [done|by apply frame_static|done|by intros ?|by intros ?].
  - eapply with_request_only; [by apply frame_static|exact Hs|done].
  - done.
  - apply with_request_at.
  - cbn. by rewrite B1.
Qed.

(** ** Room for one token *)
Context (append_ok : nat → bool) (clock : nat → Q).

Lemma make_room_spec fuel now : ∀ held sc i,
  sched_ok (i :: held) sc → length (running sc) < fuel →
  wp (make_room append_ok clock fuel i now) (λ r sc', ∃ victims, victims ++ running sc' ≡ₚ running sc ∧
    only (if r then victims else i :: victims) sc sc' ∧
    (if r then sched_ok (i :: held) sc' ∧ live (i :: held) sc' ≡ₚ live (i :: held) sc ∧ room sc' i
     else sched_ok held sc' ∧ live held sc' ≡ₚ live (i :: held) sc ∧ running sc' = [])) noexn sc.
Proof.
  induction fuel as [|fuel IH]; intros held sc i HI Hfuel; [lia|].
  destruct (so_obj _ _ HI i) as (s & Hs & Hok); [by apply live_held; left|].
  cbn [make_room]. wp_step. eapply wp_get_seq; [done|]. wp_step. apply wp_on_bm. unfold can_append. wp_step.
  assert (Hsc : ∀ sc0 : Scheduler R T, sc0 <| block_manager := block_manager sc0 |> = sc0) by (by intros []). rewrite Hsc.
  destruct (_ <=? _) eqn:Efit; breflect.
  { wp_step. exists []. split_and!; [done|apply only_refl|done|done|]. by exists s. }
  wp_step. wp_step. destruct (bool_decide (running sc = [])) eqn:Er; cbn [negb]; breflect.
  - eapply wp_quiet; [apply trace_spec; [exact HI|]|].
    { intros j ->%list_elem_of_singleton. apply live_held. by left. }
    intros _ sc1 HI1 Q1. pose proof Q1 as (_ & HQ1 & _). wp_step. eapply wp_mono; [by apply preempt_spec| |done].
    intros _ sc2 (HI2 & HO2 & Hw2 & Hr2). wp_step. exists []. pose proof HQ1 as [Qw Qr].
    split_and!; [by rewrite Hr2, Qr|eapply only_trans; [by apply quiet_only|exact HO2]|done| |by rewrite Hr2, Qr].
    unfold live. rewrite Hw2, Hr2, Qw, Qr. solve_Permutation.
  - wp_step. eapply wp_get_seqs; [exact HI|intros j; apply live_running|]. intros rs Hrs.
    destruct (victim_in (policy sc) (estimator sc) rs (step_id sc) now) as (v & Hv & Hin).
    { by eapply at_ids_nil. }
    { by eapply at_ids_arrived. }
    wp_step. rewrite Hv. apply wp_lift; [intros ? [= <-]|done]. cbv zeta.
    destruct (at_ids_in _ _ _ _ Hrs Hin) as [Hj _]. set (j := seq_id v) in *.
    eapply wp_quiet; [apply trace_spec; [exact HI|]|].
    { intros k [Hk|Hk%list_elem_of_singleton]%elem_of_cons; subst k; [apply live_held; by left|by apply live_running]. }
    intros _ sc1 HI1 Q1. pose proof Q1 as (_ & [Qw Qr] & _). rewrite <-Qr in Hj.
    wp_step. eapply wp_mono; [by apply (remove_running_spec (i :: held) sc1 j)| |done].
    intros _ sc2 (HI2 & HO2 & Hw2 & Hr2 & _). wp_step. eapply wp_mono; [by apply (preempt_spec append_ok clock (i :: held) sc2 j)| |done].
    intros _ sc3 (HI3 & HO3 & Hw3 & Hr3).
    assert (Hlen : S (length (running sc3)) = length (running sc)) by (rewrite Hr3, <-Qr, <-Hr2; done).
    eapply wp_mono; [apply (IH held sc3 i HI3); lia| |done].
    intros r sc4 (victims & Hp & HO4 & Hout).
    assert (HO03 : only [j] sc sc3).
    { eapply only_trans; [by apply quiet_only|]. eapply only_trans; [by apply only_nil|exact HO3]. }
    assert (Hl3 : live (i :: held) sc3 ≡ₚ live (i :: held) sc).
    { unfold live. rewrite Hw3, Hr3, Hw2, <-Qw, <-Qr, <-Hr2. solve_Permutation. }
    exists (j :: victims). split_and!.
    + cbn. by rewrite Hp, Hr3, Hr2, Qr.
    + eapply only_trans; [eapply only_mono, HO03|eapply only_mono, HO4]; destruct r; set_solver.
    + by destruct r; rewrite <-Hl3.
Qed.

(** ** The loop *)
Record decode_inv sch sc : Prop := {
  di_ok : sched_ok sch sc;
  di_ready i s : i ∈ sch → objs sc !! i = Some s → decode_ready (bs_of sc) s;
  di_idle i s : i ∈ running sc → objs sc !! i = Some s → num_scheduled_tokens s = 0;
  di_len : length sch <= c_max_num_seqs (cfg sc)
}.

Lemma decode_loop_spec fuel now : ∀ sch retry sc,
  decode_inv sch sc → length (running sc) < fuel →
  wp (decode_loop append_ok clock fuel sch retry now) (λ r sc', decode_inv (r.1) sc' ∧ static sc sc' ∧
    live (r.1) sc' ≡ₚ live sch sc ∧ sch `prefix_of` r.1 ∧ (retry = true → r.2 = true) ∧ (running sc = [] → r.2 = retry) ∧
    (0 < c_max_num_seqs (cfg sc) → r.1 = [] → running sc' = [] ∧ (running sc = [] ∨ r.2 = true))) noexn sc.
Proof.
  induction fuel as [|fuel IH]; intros sch retry sc HD Hfuel; [lia|]. pose proof (di_ok _ _ HD) as HI.
  cbn [decode_loop]. wp_step. wp_step. destruct (_ && _) eqn:Eg.
  2:{ wp_step. split_and!; [done|reflexivity|done|done|done|done|]. cbn [fst]. intros Hmax ->. breflect.
      destruct Eg as [Eg|Eg]; breflect; [auto|cbn in Eg; lia]. }
  breflect. wp_step. eapply wp_get_seqs; [exact HI|intros j; apply live_running|]. intros rs Hrs.
  destruct (select_running_in (policy sc) (estimator sc) rs (step_id sc) now) as (s & Hsel & Hin).
  { by eapply at_ids_nil. }
  { by eapply at_ids_arrived. }
  wp_step. rewrite Hsel. apply wp_lift; [intros ? [= <-]|done]. cbv zeta.
  destruct (at_ids_in _ _ _ _ Hrs Hin) as [Hi Hs]. set (i := seq_id s) in *.
  destruct (sched_focus _ _ i HI) as (s' & own & Hs' & Hok & HB & Hback); [by apply live_running|].
  assert (s' = s) as -> by congruence.
  wp_step. apply wp_budget; [apply (rq_arrived _ _ _ Hok)|]. intros b.
  wp_step. eapply wp_focus; [exact Hs|]. apply wp_update_focus.
  set (s1 := s <| last_budget_ms := b |>). set (sc1 := with_request _ i s1 sc).
  assert (HI1 : sched_ok sch sc1).
  { apply Hback; [done|reflexivity|by destruct Hok| |].
    - intros Hw. by apply (waiting_not_running _ _ _ HI) in Hw as [? _].
    - intros _. exact (so_run _ _ HI i s Hi Hs). }
  assert (HO1 : only [i] sc sc1) by (by eapply with_request_only).
  assert (HQ1 : same_queues sc sc1) by done. pose proof HQ1 as [Qw1 Qr1].
  assert (Hs1 : objs sc1 !! i = Some s1) by apply with_request_at.
  assert (Hsp1 : same_progress s s1) by by split_and!. clearbody s1 sc1. clear Hback HB.
  wp_step. eapply wp_mono; [apply (remove_running_spec sch sc1 i HI1); by rewrite Qr1| |done].
  intros _ sc2 (HI2 & HO2 & Hw2 & Hr2 & _).
  wp_step. eapply wp_mono; [by apply (maybe_compress_spec sch sc2 i)| |done].
  intros _ sc3 (HI3 & HO3 & HQ3 & s2 & s3 & Hs2 & Hs3 & Hsp). pose proof HQ3 as [Qw3 Qr3].
  assert (Hs12 : s2 = s1) by (rewrite (proj2 HO2) in Hs2 by apply not_elem_of_nil; congruence).
  clear Hs2. subst s2. assert (Hsp' : same_progress s s3) by by etrans.
  assert (Hlen : S (length (running sc3)) = length (running sc)) by (by rewrite Qr3, <-Qr1, <-Hr2).
  wp_step. eapply wp_mono; [by apply (make_room_spec (S (length (running sc))) now sch sc3 i HI3); lia| |done].
  intros r sc4 (victims & Hv & HO4 & Hout).
  (* what stays the same *)
  destruct (held_not_queued _ _ i HI3) as [Hnw Hnr]; [by left|].
  assert (Hvin : ∀ j, j ∈ victims → j ∈ running sc3) by (intros j Hj; rewrite <-Hv; apply elem_of_app; by left).
  assert (Hsame : ∀ j, j ≠ i → j ∉ victims → objs sc4 !! j = objs sc !! j).
  { intros j Hji Hjv. rewrite (proj2 HO4) by (destruct r; [exact Hjv|apply not_elem_of_cons; split; [exact Hji|exact Hjv]]).
    rewrite (only_other _ _ _ _ HO3 Hji), (proj2 HO2) by apply not_elem_of_nil. apply (only_other _ _ _ _ HO1 Hji). }
  assert (Hst4 : static sc sc4) by (etrans; [apply HO1|etrans; [apply HO2|etrans; [apply HO3|apply HO4]]]).
  assert (Hrun_sub : ∀ j, j ∈ running sc3 → j ∈ running sc).
  { intros j. rewrite Qr3. intros Hj. rewrite <-Qr1, <-Hr2. by right. }
  assert (Hsch : ∀ j, j ∈ sch → objs sc4 !! j = objs sc !! j).
  { intros j Hj. destruct (held_not_queued _ _ j HI Hj) as [_ Hjr]. apply Hsame; [by intros ->|].
    intros Hjv. by apply Hjr, Hrun_sub, Hvin. }
  assert (Hleft : ∀ j, j ∈ running sc4 → j ≠ i ∧ j ∈ running sc ∧ objs sc4 !! j = objs sc !! j).
  { intros j Hj. assert (Hj3 : j ∈ running sc3) by (rewrite <-Hv; apply elem_of_app; by right).
    assert (Hji : j ≠ i) by (intros ->; by apply Hnr). split_and!; [done|by apply Hrun_sub|]. apply Hsame; [done|].
    pose proof (so_nodup _ _ HI3) as Hd. unfold live in Hd. apply NoDup_app in Hd as (_ & _ & (_ & _ & Hd)%NoDup_app).
    rewrite <-Hv in Hd. apply NoDup_app in Hd as (_ & Hd & _). intros Hjv. by apply (Hd j). }
  assert (Hlive3 : live (i :: sch) sc3 ≡ₚ live sch sc).
  { unfold live. rewrite Qw3, Qr3, Hw2, Qw1, <-Qr1, <-Hr2. solve_Permutation. }
  destruct r.
  - (* room *)
    destruct Hout as (HI4 & Hl4 & Hroom).
    assert (Hs4 : objs sc4 !! i = Some s3).
    { rewrite (proj2 HO4); [done|]. intros Hjv. by apply Hnr, Hvin. }
    pose proof (same_progress_tight (bs_of sc) _ _ Hsp') as Ht. assert (Hne : block_table s ≠ [] → block_table s3 ≠ []) by apply Hsp'. destruct Hsp' as (P1 & P2 & P3 & P4 & _). destruct (so_run _ _ HI i s Hi Hs) as (Hst & Hc & Ht0 & Hne0).
    rewrite (di_idle _ _ HD i s Hi Hs) in Hc. change (Nat.max 1 0) with 1 in Hc.
    eapply (give_token sch sc4 i s3); [done|done|done|by rewrite P4|by rewrite P1, P2|rewrite P3; by apply (di_idle _ _ HD i s)|rewrite (quiet_bs _ _ Hst4); by apply Ht|by apply Hne|].
    intros sc5 s5 HI5 HO5 [Qw5 Qr5] Hs5 Hready.
    assert (HD5 : decode_inv (sch ++ [i]) sc5).
    { split.
      - eapply held_perm; [|exact HI5]. solve_Permutation.
      - intros j sj Hj Hsj. apply elem_of_app in Hj as [Hj|Hj%list_elem_of_singleton]; [|subst j; congruence].
        destruct (held_not_queued _ _ j HI Hj) as [_ Hjr]. assert (Hji : j ≠ i) by (intros ->; by destruct (held_not_queued _ _ i HI)).
        rewrite (only_other _ _ _ _ HO5 Hji), (Hsch j Hj) in Hsj.
        rewrite (quiet_bs _ _ (proj1 HO5)), (quiet_bs _ _ Hst4). by eapply (di_ready _ _ HD).
      - intros j sj Hj Hsj. rewrite Qr5 in Hj. destruct (Hleft j Hj) as (Hji & Hjr & Hsj4).
        rewrite (only_other _ _ _ _ HO5 Hji), Hsj4 in Hsj. by eapply (di_idle _ _ HD).
      - rewrite length_app. cbn [length]. destruct HO5 as [(-> & _) _], Hst4 as (-> & _). lia. }
    eapply wp_mono; [apply (IH _ retry sc5 HD5)| |done].
    { rewrite Qr5, <-Hlen in *. apply Permutation_length in Hv. rewrite length_app in Hv. lia. }
    intros [sch' retry'] sc6 (HD6 & Hst6 & Hl6 & Hpre & Hret & _ & Hend). cbn [fst snd] in *. split_and!; try done.
    + etrans; [exact Hst4|]. etrans; [apply HO5|done].
    + rewrite Hl6, <-Hlive3, <-Hl4. unfold live. rewrite Qw5, Qr5. solve_Permutation.
    + etrans; [|exact Hpre]. by eexists.
    + intros _ ->. apply prefix_nil_inv in Hpre. by destruct sch.
  - (* the request preempted itself *)
    destruct Hout as (HI4 & Hl4 & Hr4).
    assert (HD4 : decode_inv sch sc4).
    { split; [done| | |].
      - intros j sj Hj Hsj. rewrite Hsch in Hsj by done. rewrite (quiet_bs _ _ Hst4). by eapply (di_ready _ _ HD).
      - intros j sj Hj. rewrite Hr4 in Hj. by apply not_elem_of_nil in Hj.
      - destruct Hst4 as (-> & _). apply (di_len _ _ HD). }
    eapply wp_mono; [apply (IH _ true sc4 HD4)| |done].
    { rewrite Hr4. cbn. lia. }
    intros [sch' retry'] sc6 (HD6 & Hst6 & Hl6 & Hpre & Hret & _ & Hend). cbn [fst snd] in *. split_and!; try done.
    + by etrans.
    + by rewrite Hl6, Hl4, Hlive3.
    + intros _. by apply Hret.
    + intros Hmax ->. destruct Hst4 as (Hcfg & _). rewrite Hcfg in Hend. destruct (Hend Hmax eq_refl) as [? _]. auto.
Qed.
End decode.
