(* ===== verification/SchedulerPrefill.v ===== *)
(** * The scheduler: the prefill phase

    Which waiting request is eligible, whether it is admitted, and how it starts.
    Each step keeps the invariant; when nothing runs and every request fits the cache
    alone, none of them gives up. *)
From S2P Require Import Prelude Json Qos Sequence Policy KvPolicy RadixCache BlockManager BlockInv BlockSpec BlockAgain SchedulerTrace Scheduler SchedulerInv SchedulerReclaim SchedulerDecode.
Set Default Goal Selector "!".
Set Default Proof Using "Type".

(** ** Page arithmetic *)
Lemma num_blocks_covers bs s : 0 < bs → num_tokens s <= num_blocks bs s * bs.
Proof.
  intros Hbs. unfold num_blocks. pose proof (Nat.div_mod (num_tokens s + bs - 1) bs ltac:(lia)).
  pose proof (Nat.mod_upper_bound (num_tokens s + bs - 1) bs ltac:(lia)). nia.
Qed.
Lemma partial_blocks bs s k : 0 < bs → 0 < num_tokens s → k <= num_blocks bs s - 1 → k * bs < num_tokens s.
Proof.
  intros Hbs Ht Hk. unfold num_blocks in Hk. pose proof (Nat.Div0.mul_div_le (num_tokens s + bs - 1) bs).
  assert (1 <= (num_tokens s + bs - 1) / bs) by (apply Nat.div_le_lower_bound; lia). nia.
Qed.

(** A request of a prefill batch: some tokens to compute, pages for all its tokens,
    and it runs exactly when the batch completes its prompt. *)
Definition prefill_ready (bs : nat) (s : Sequence) : Prop :=
  0 < num_scheduled_tokens s ∧ is_prefill s = true ∧ kv_compressed s = false ∧
  num_cached_tokens s + num_scheduled_tokens s <= num_tokens s ∧ length (block_table s) = num_blocks bs s ∧
  (status s = RUNNING ↔ num_cached_tokens s + num_scheduled_tokens s = num_tokens s).

Section prefill.
Context {R T Pg : Type} `{RestoreService R T Pg} `{Hasher} `{FloatRepr}.
Implicit Types (sc : Scheduler R T) (s : Sequence) (held l : list nat) (ps : PrefillState).
Abbreviation bs_of sc := (block_size (block_manager sc)).

(** ** Eligibility *)
Lemma should_prefill_run held sc l now :
  sched_ok held sc → l ⊆ live held sc →
  ∃ b, should_prefill l now sc = (inr b, sc) ∧ (b = true → l ≠ []) ∧ (running sc = [] → l ≠ [] → b = true).
Proof.
  intros HI Hl. destruct (get_seqs_run held sc l HI Hl) as (ws & Hws & Hw).
  destruct (get_seqs_run held sc (running sc) HI) as (rs & Hrs & Hr); [by intros j; apply live_running|].
  destruct (prefill_total (policy sc) (estimator sc) ws rs (step_id sc) now (at_ids_arrived _ _ _ Hw) (at_ids_arrived _ _ _ Hr))
    as (b & Hb & Hne).
  exists b. split_and!.
  - unfold should_prefill, mbind, M_bind, getS, lift. by rewrite Hws, Hrs, Hb.
  - intros Hbt ->. apply (Hne Hbt). by inversion Hw.
  - intros E Hln. rewrite E in Hr. inversion Hr. subst rs.
    rewrite prefill_idle in Hb by (by eapply at_ids_nil). by injection Hb.
Qed.

(** The waiting requests that hold pages. *)
Definition has_owner sc : Prop := ∃ j, j ∈ waiting sc ∧ table sc j ≠ [].
Lemma resident_ids sc ws i :
  Forall2 (at_ids sc) (waiting sc) ws → i ∈ seq_id <$> filter owns_blocks ws ↔ i ∈ waiting sc ∧ table sc i ≠ [].
Proof.
  intros Hws. rewrite (at_ids_filter _ _ _ _ i Hws). split.
  - intros (Hi & s & Hs & Ho). split; [done|]. rewrite (table_at _ _ _ Hs). by apply owns_table, Is_true_true.
  - intros (Hi & Ht). split; [done|]. unfold table in Ht. destruct (objs sc !! i) as [s|]; [|done]. exists s.
    split; [done|]. by apply Is_true_true, owns_table.
Qed.

Definition eligible_outcome sc ps (r : option (list nat)) : Prop :=
  match r with
  | None => True
  | Some l => l ≠ [] ∧ l ⊆ waiting sc ∧ (∀ i, i ∈ l → i ∉ ps_deferred ps) ∧
      (ps_progress_only ps = true → ∀ i, i ∈ l → table sc i ≠ [])
  end.
(** Nothing runs and nothing has been tried but the fallback. *)
Definition calm sc ps : Prop :=
  running sc = [] ∧ ps_scheduled ps = [] ∧ ps_deferred ps = ∅ ∧ max_num_active_seqs sc ≠ Some 0.
Definition fresh_start sc ps : Prop := calm sc ps ∧ (ps_progress_only ps = true → has_owner sc).

Context (append_ok : nat → bool) (clock : nat → Q).

Lemma eligible_waiting_spec sc ps now :
  sched_ok [] sc → waiting sc ≠ [] →
  wp (eligible_waiting append_ok clock ps now) (λ r sc', sched_ok [] sc' ∧ quiet sc sc' ∧ eligible_outcome sc ps r ∧
    (fresh_start sc ps → r ≠ None)) noexn sc.
Proof.
  intros HI Hne. unfold eligible_waiting. wp_step. wp_step. wp_step.
  eapply (wp_get_seqs [] sc); [done|intros j; apply live_waiting|]. intros ws Hws. cbv zeta.
  set (resident := seq_id <$> _). assert (Hres : ∀ i, i ∈ resident ↔ i ∈ waiting sc ∧ table sc i ≠ []).
  { intros i. apply (resident_ids _ _ i Hws). }
  set (el := if ps_progress_only ps then _ else _).
  assert (Hel : el ⊆ waiting sc ∧ (ps_progress_only ps = true → ∀ i, i ∈ el → table sc i ≠ []) ∧
    (ps_progress_only ps = false → el = waiting sc) ∧ (ps_progress_only ps = true → ∀ j, j ∈ waiting sc → table sc j ≠ [] → j ∈ el)).
  { unfold el. destruct (ps_progress_only ps); split_and!; try done.
    - intros i [_ Hi]%list_elem_of_filter. done.
    - intros _ i [Hi _]%list_elem_of_filter. by apply Hres.
    - intros _ j Hj Ht. apply list_elem_of_filter. split; [by apply Hres|done]. }
  clearbody el. destruct Hel as (E1 & E2 & E3 & E4).
  destruct (ps_progress_only ps && bool_decide (el = [])) eqn:Ep.
  { breflect. wp_step. split_and!; [done|apply quiet_refl|done|]. intros (_ & Ho). destruct (Ho H2) as (j & Hj & Ht). specialize (E4 H2 j Hj Ht). subst el. by apply not_elem_of_nil in E4. }
  assert (Hne' : el ≠ []).
  { destruct (ps_progress_only ps) eqn:Epo; [cbn [andb] in Ep; by breflect|by rewrite E3]. }
  (* after the deferred requests are set aside *)
  set (Mid := λ (r : option (list nat)) sc', sc' = sc ∧ match r with
    | None => ps_deferred ps ≠ ∅
    | Some l => l ≠ [] ∧ l ⊆ el ∧ (∀ i, i ∈ l → i ∉ ps_deferred ps) ∧ (ps_deferred ps = ∅ → l = el) end).
  wp_step. apply (wp_mono _ Mid _ noexn); [|intros r sc' [-> Hr]|done].
  { destruct (bool_decide (ps_deferred ps = ∅)) eqn:Ed; breflect; [wp_step; split; [done|]; split_and!; [exact Hne'|done|intros i _; rewrite Ed; apply not_elem_of_empty|done]|].
    cbv zeta. destruct (bool_decide (filter (.∉ ps_deferred ps) el = [])) eqn:Ef; breflect; [wp_step; by split|].
    assert (Hfs : filter (.∉ ps_deferred ps) el ⊆ live [] sc).
    { intros i [_ Hi]%list_elem_of_filter. by apply live_waiting, E1. }
    destruct (should_prefill_run [] sc _ now HI Hfs) as (b & Hb & Hbt & _).
    wp_step. eapply wp_of_run; [exact Hb|]. wp_step. split; [done|]. destruct b; [|done]. split_and!; [done| | |done].
    - intros i [_ Hi]%list_elem_of_filter. done.
    - by intros i [Hi _]%list_elem_of_filter. }
  destruct r as [l|]; [|wp_step; split_and!; [done|apply quiet_refl|done|]; by intros ((_ & _ & Hd & _) & _)].
  destruct Hr as (L1 & L2 & L3 & L4).
  assert (Hdone : eligible_outcome sc ps (Some l)).
  { split_and!; [done|by etrans|done|]. intros Hp i Hi. by apply E2, L2. }
  destruct (max_num_active_seqs sc) as [limit|] eqn:El; [|wp_step; split_and!; [done|apply quiet_refl|done|done]].
  assert (Hcnt : ∃ n, resident_count sc = (inr n, sc) ∧ (running sc = [] → has_owner sc ∨ n = 0)).
  { unfold resident_count, mbind, M_bind, getS. destruct (get_seqs_run [] sc (waiting sc) HI) as (ws' & Hrun & Hws').
    { intros j. apply live_waiting. }
    rewrite Hrun. eexists. split; [done|]. intros ->. rewrite (so_pending _ _ HI). cbn [length Nat.add].
    destruct (filter owns_blocks ws') as [|s0 l0] eqn:Ef; [by right|left]. exists (seq_id s0).
    apply (resident_ids _ _ _ Hws'). rewrite Ef. by left. }
  destruct Hcnt as (n & Hn & Hown). wp_step. eapply wp_of_run; [exact Hn|].
  destruct (limit <=? n) eqn:Eln; breflect; [|wp_step; split_and!; [done|apply quiet_refl|done|done]].
  cbv zeta. set (l' := filter _ l). assert (Hl' : l' ⊆ l) by (by intros i [_ Hi]%list_elem_of_filter).
  assert (Hlw : l' ⊆ live [] sc) by (intros i Hi; by apply live_waiting, E1, L2, Hl').
  destruct (should_prefill_run [] sc l' now HI Hlw) as (b & Hb & Hbt & Hbi).
  wp_step. eapply wp_of_run; [exact Hb|]. destruct b.
  - wp_step. split_and!; [done|apply quiet_refl| |done]. split_and!; [by apply Hbt|..].
    + intros i Hi. by apply E1, L2, Hl'.
    + intros i Hi. by apply L3, Hl'.
    + intros Hp i Hi. by apply E2, L2, Hl'.
  - eapply wp_quiet; [apply trace_spec; [exact HI|by intros i ?%not_elem_of_nil]|]. intros _ sc2 HI2 Q2. wp_step.
    split_and!; [done|done|done|]. intros ((Hr & _ & Hd & Hlim) & _) _.
    assert (Hl'ne : l' ≠ []); [|by discriminate (Hbi Hr Hl'ne)].
    destruct (Hown Hr) as [(j & Hj & Ht)|Hn0]; [|subst n; assert (limit = 0) as -> by lia; done].
    intros E. assert (Hin : j ∈ l'); [|rewrite E in Hin; by apply not_elem_of_nil in Hin].
    apply list_elem_of_filter. split; [by apply Hres|]. rewrite (L4 Hd).
    destruct (ps_progress_only ps) eqn:Epo; [|by rewrite E3].
    by apply E4.
Qed.

(** ** Admission *)
Definition allocatable (s : Sequence) (bm : BlockManager) (k : nat) : Prop :=
  k <= num_blocks (block_size bm) s - 1 ∧
  ∃ l, pending_matches bm !! seq_id s = Some l ∧ length l = k ∧ admitted s bm (num_blocks (block_size bm) s) l.

Definition admit_outcome sc s ps (r : Step + nat) sc' : Prop :=
  match r with
  | inl Break => running sc = [] → too_big sc (seq_id s)
  | inl (Continue ps') =>
      ps_scheduled ps' = ps_scheduled ps ∧ ps_batched ps' = ps_batched ps ∧
      ((ps_deferred ps' = ps_deferred ps ∧ ps_progress_only ps' = true ∧ running sc = [] ∧ has_owner sc) ∨
       (ps_deferred ps' = {[ seq_id s ]} ∪ ps_deferred ps ∧ ps_progress_only ps' = ps_progress_only ps ∧
        size (ps_deferred ps') < c_max_num_seqs (cfg sc) ∧ running sc ≠ []))
  | inr k => allocatable s (block_manager sc') k
  end.

Lemma existsb_owner sc ws :
  Forall2 (at_ids sc) (waiting sc) ws → existsb owns_blocks ws = true ↔ has_owner sc.
Proof.
  intros Hws. rewrite existsb_exists. split.
  - intros (s & Hs & Ho). exists (seq_id s). apply (resident_ids _ _ _ Hws). apply list_elem_of_fmap. exists s. split; [done|].
    apply list_elem_of_filter. split; [by apply Is_true_true|]. by apply list_elem_of_In.
  - intros (j & Hj). apply (resident_ids _ _ _ Hws), list_elem_of_fmap in Hj as (s & -> & [Ho Hs]%list_elem_of_filter).
    exists s. split; [by apply list_elem_of_In|by apply Is_true_true].
Qed.
Lemma no_owner_free sc :
  sched_ok [] sc → running sc = [] → ¬ has_owner sc →
  length (free_block_ids (block_manager sc)) = length (blocks (block_manager sc)).
Proof.
  intros HI Hr Hno. apply (all_free [] sc HI). intros i. unfold live. rewrite Hr, app_nil_r. cbn [app].
  intros Hi. apply dec_stable. intros Ht. apply Hno. by exists i.
Qed.

(** [can_allocate] as the scheduler calls it. *)
Lemma can_allocate_sched sc s :
  sched_ok [] sc →
  wp (on_bm (can_allocate s)) (λ r sc', sched_ok [] sc' ∧ only [] sc sc' ∧ same_queues sc sc' ∧
    match r with
    | Some k => allocatable s (block_manager sc') k
    | None => length (free_block_ids (block_manager sc)) < num_blocks (bs_of sc) s
    end) noexn sc.
Proof.
  intros HI.
  destruct (wp_run _ _ _ (can_allocate_spec _ s _ (so_bm _ _ HI))) as (r & bm' & Hrun & HB & HS & _ & _ & _ & _ & _ & Hr).
  apply wp_on_bm. eapply wp_of_run; [exact Hrun|]. change (block_manager (sc <| block_manager := bm' |>)) with bm'.
  split; [by apply sched_manager|]. split; [split; [by split_and!|done]|]. split; [done|].
  destruct r as [k|]; [|apply Hr]. destruct HS as (E & _). unfold allocatable. by rewrite E.
Qed.

Lemma start_remote_restore_none sc i k now s :
  remote_restore_service sc = None → objs sc !! i = Some s → start_remote_restore i k now sc = (inr false, sc).
Proof.
  intros Hn Hs. unfold start_remote_restore, mbind, M_bind, getS. rewrite (get_seq_run _ _ _ Hs).
  by rewrite bool_decide_eq_true_2.
Qed.

(** What an admission step leaves alone. *)
Definition undisturbed sc sc' : Prop := sched_ok [] sc' ∧ only [] sc sc' ∧ same_queues sc sc'.
Lemma undisturbed_quiet sc sc1 sc2 : undisturbed sc sc1 → sched_ok [] sc2 → quiet sc1 sc2 → undisturbed sc sc2.
Proof.
  intros (HI1 & HO1 & HQ1) HI2 Q2. split; [done|]. split; [eapply only_trans; [exact HO1|by apply quiet_only]|].
  etrans; [exact HQ1|]. apply Q2.
Qed.
Lemma undisturbed_table sc sc' j : undisturbed sc sc' → table sc' j = table sc j.
Proof. intros (_ & [_ Ho] & _). unfold table. by rewrite Ho by apply not_elem_of_nil. Qed.
Lemma undisturbed_owner sc sc' : undisturbed sc sc' → has_owner sc' ↔ has_owner sc.
Proof.
  intros HU. pose proof HU as (_ & _ & Qw & _).
  split; intros (j & Hj & Ht); exists j; rewrite (undisturbed_table _ _ j HU) in *; by rewrite Qw in *.
Qed.

Lemma admit_new_spec sc i s ps now :
  sched_ok [] sc → i ∈ waiting sc → objs sc !! i = Some s →
  wp (admit_new append_ok clock i ps now) (λ r sc', undisturbed sc sc' ∧ admit_outcome sc s ps r sc') noexn sc.
Proof.
  intros HI Hi Hs. destruct (so_obj _ _ HI i) as (s' & Hs' & Hok); [by apply live_waiting|].
  assert (s' = s) as -> by congruence. pose proof (rq_id _ _ _ Hok) as Hid.
  unfold admit_new. wp_step. eapply wp_get_seq; [done|]. wp_step. wp_step. cbv zeta. wp_step.
  eapply wp_mono; [by apply can_allocate_sched| |done]. intros r sc1 (HI1 & HO1 & HQ1 & Hr). pose proof HQ1 as [Qw Qr].
  assert (HU1 : undisturbed sc sc1) by done.
  assert (Hs1 : objs sc1 !! i = Some s) by (rewrite <-Hs; apply HO1, not_elem_of_nil).
  destruct r as [k|].
  - wp_step. wp_step. set (Mid := λ (d : bool) sc', undisturbed sc sc' ∧
      (if d then running sc ≠ [] else block_manager sc' = block_manager sc1)).
    wp_step. apply (wp_mono _ Mid _ noexn); [|intros d sc2 [HU2 Hd]|done].
    { destruct ((0 <? kv_admission_lookahead sc) && negb (bool_decide (running sc1 = []))) eqn:El; [|wp_step; by split].
      breflect. rewrite Qr in H3. destruct Hr as (_ & l & Hpend & _). wp_step. apply wp_on_bm.
      unfold planned_allocation_pages. wp_step. wp_step. wp_step. rewrite Hpend. cbn [of_option]. wp_step. wp_step.
      assert (Hsc : ∀ sc0 : Scheduler R T, sc0 <| block_manager := block_manager sc0 |> = sc0) by (by intros []). rewrite Hsc.
      wp_step. eapply (wp_get_seqs [] sc1); [exact HI1|intros j; apply live_running|]. intros rs Hrs. unfold free_blocks.
      cbv zeta. wp_step. wp_step. cbn beta. wp_if Ez; [|wp_step; by split].
      wp_step. wp_step. set (sc2 := sc1 <| block_manager := _ |>).
      assert (HI2 : sched_ok [] sc2).
      { apply sched_manager; [exact HI1| |by split_and!]. apply bm_inv_set_pending; [apply (so_bm _ _ HI1)|].
        apply ids_ok_delete, (bi_pending _ _ (so_bm _ _ HI1)). }
      assert (HU2 : undisturbed sc sc2).
      { split; [exact HI2|]. split; [|exact HQ1]. eapply only_trans; [exact HO1|]. split; [by split_and!|done]. }
      clearbody sc2. eapply wp_quiet; [by apply count_spec|]. intros _ sc3 HI3 Q3.
      pose proof (undisturbed_quiet _ _ _ HU2 HI3 Q3) as HU3. pose proof HU3 as (_ & _ & Qw3 & _).
      eapply wp_quiet; [apply trace_spec; [exact HI3|]|].
      { intros j ->%list_elem_of_singleton. apply live_waiting. by rewrite Qw3. }
      intros _ sc4 HI4 Q4. wp_step. split; [by eapply undisturbed_quiet|done]. }
    destruct d.
    + destruct (_ <=? _) eqn:Esz; breflect; wp_step; (split; [done|]); [by intros ?|].
      split_and!; [done..|]. right. rewrite Hid. split_and!; [done..| |done]. cbn.
      destruct HO1 as [(E & _) _]. by rewrite E in Esz.
    + destruct HU2 as (HI2 & HO2 & HQ2). wp_step.
      assert (Hs2 : objs sc2 !! i = Some s) by (rewrite <-Hs; apply HO2, not_elem_of_nil).
      eapply wp_of_run; [apply (start_remote_restore_none _ _ _ _ s); [apply (so_service _ _ HI2)|done]|].
      cbv beta iota. wp_step.
      split; [done|]. cbn. by rewrite Hd.
  - eapply wp_quiet; [apply trace_spec; [exact HI1|]|].
    { intros j ->%list_elem_of_singleton. apply live_waiting. by rewrite Qw. }
    intros _ sc2 HI2 Q2. pose proof (undisturbed_quiet _ _ _ HU1 HI2 Q2) as HU2. pose proof HU2 as (_ & HO2 & Qw2 & Qr2).
    wp_step. wp_step. wp_step. eapply (wp_get_seqs [] sc2); [done|intros j; apply live_waiting|]. intros ws Hws.
    rewrite Qr2. destruct (bool_decide (running sc = []) && existsb owns_blocks ws) eqn:Eo.
    + breflect. apply (existsb_owner _ _ Hws), (undisturbed_owner _ _ HU2) in H3.
      eapply wp_quiet; [apply trace_spec; [exact HI2|]|].
      { intros j ->%list_elem_of_singleton. apply live_waiting. by rewrite Qw2. }
      intros _ sc3 HI3 Q3. wp_step. split; [by eapply undisturbed_quiet|]. split_and!; [done..|]. by left.
    + destruct ((0 <? kv_admission_lookahead sc) && negb (bool_decide (running sc = []))) eqn:El.
      * breflect. eapply wp_quiet; [by apply count_spec|]. intros _ sc3 HI3 Q3.
        destruct (_ <? _) eqn:Esz; breflect; wp_step; (split; [by eapply undisturbed_quiet|]); [|by intros ?].
        split_and!; [done..|]. right. split_and!; [by rewrite Hid|done| |done].
        cbn. destruct HO2 as [(E & _) _]. by rewrite E in Esz.
      * wp_step. split; [done|]. intros Er. rewrite Hid. exists s. split; [done|].
        rewrite (no_owner_free sc HI Er) in Hr; [done|]. intros Hown. apply (undisturbed_owner _ _ HU2), (existsb_owner _ _ Hws) in Hown.
        rewrite Hown, bool_decide_eq_true_2 in Eo by done. done.
Qed.

(** ** Pages for an admitted request *)
(** The request holds a page for each of its tokens and has some left to compute. *)
Definition paged sc i sc' : Prop :=
  sched_ok [] sc' ∧ only [i] sc sc' ∧ same_queues sc sc' ∧
  ∃ s', objs sc' !! i = Some s' ∧ block_table s' ≠ [] ∧ num_tokens s' <= length (block_table s') * bs_of sc.

Lemma allocate_step sc i s k f :
  sched_ok [] sc → i ∈ waiting sc → objs sc !! i = Some s → block_table s = [] → allocatable s (block_manager sc) k →
  wp (on_bms i (allocate k);; update_seq i (λ s, record_reused_tokens (f s) s))
    (λ _ sc', paged sc i sc' ∧ ∃ s', objs sc' !! i = Some s' ∧ num_tokens s' - num_cached_tokens s' = num_tokens s - k * bs_of sc) noexn sc.
Proof.
  intros HI Hi Hs Hnil (Hk & l & Hpend & Hl & Hadm). clear append_ok clock.
  destruct (sched_focus _ _ i HI) as (s' & own & Hs' & Hok & HB & Hback); [by apply live_waiting|].
  assert (s' = s) as -> by congruence. destruct (waiting_not_running _ _ i HI Hi) as [Hnr _].
  pose proof (so_bs_pos _ _ HI) as Hbs. destruct (so_wait _ _ HI i s Hi Hs) as ([W0 W0'] & W1 & W2).
  wp_step. eapply wp_focus; [exact Hs|]. apply wp_on_bms_focus. rewrite Hnil in HB.
  eapply wp_mono; [by apply (allocate_spec own s _ k l)| |done].
  intros _ [bm2 s2] (fresh & Hlen & _ & Hs2 & HB2 & HS2 & _). cbn [fst snd] in *. apply wp_update_focus.
  set (s3 := record_reused_tokens _ _). assert (E : s3 = record_reused_tokens (f s2) (allocated (bs_of sc) k (l ++ fresh) s)) by (by rewrite <-Hs2).
  assert (Ht : block_table s3 = l ++ fresh) by (by rewrite E). assert (Htok : num_tokens s3 = num_tokens s) by (by rewrite E).
  assert (Hids : token_ids s3 = token_ids s) by (by rewrite E). assert (Hc : num_cached_tokens s3 = k * bs_of sc) by (by rewrite E).
  pose proof (num_blocks_covers (bs_of sc) s) as Hcov. destruct Hok as [Q1 Q2 Q3 Q4 Q5 Q6 Q7 Q8].
  pose proof (partial_blocks (bs_of sc) s k) as Hpart.
  split; [|exists s3; rewrite with_request_at; split; [done|lia]].
  split; [|split; [by eapply with_request_only|split; [done|]]].
  - apply Hback; [by rewrite Ht; rewrite Hs2 in HB2|done| | |done].
    + assert (Hp : num_physical_cached_tokens s3 = num_cached_tokens s3) by by rewrite E.
      split; [by rewrite E|rewrite E; exact Q2|by rewrite Htok, Hids|lia| |lia|by rewrite E|by rewrite E]. intros _. rewrite Ht, Hc, Hlen. split; [by rewrite Hp|nia].
    + intros _. split_and!; [by rewrite E..|]. unfold num_blocks in *. rewrite Ht, Htok. lia.
  - exists s3. rewrite with_request_at, Ht, Htok. split; [done|]. split; [|rewrite Hlen; lia].
    intros Hn. rewrite Hn in Hlen. cbn in Hlen. lia.
Qed.

Lemma resume_step sc i s :
  sched_ok [] sc → i ∈ waiting sc → objs sc !! i = Some s → block_table s ≠ [] → resumable s (block_manager sc) →
  wp (r ← on_bms i resume; update_seq i (record_reused_tokens r)) (λ _ sc', paged sc i sc') noexn sc.
Proof.
  intros HI Hi Hs Hne (l & Hpend & Hl & Hadm). clear append_ok clock.
  destruct (sched_focus _ _ i HI) as (s' & own & Hs' & Hok & HB & Hback); [by apply live_waiting|].
  assert (s' = s) as -> by congruence. destruct (waiting_not_running _ _ i HI Hi) as [Hnr _].
  pose proof (so_bs_pos _ _ HI) as Hbs. destruct (so_wait _ _ HI i s Hi Hs) as ([W0 W0'] & W1 & W2).
  wp_step. eapply wp_focus; [exact Hs|]. apply wp_on_bms_focus.
  eapply wp_mono; [by apply (resume_spec own s _ l)| |done].
  intros r [bm2 s2] (fresh & Hr & Hlen & Hs2 & HB2 & HS2 & _). cbn [fst snd] in *. apply wp_update_focus.
  set (s3 := record_reused_tokens _ _). assert (E : s3 = record_reused_tokens r (pushed (l ++ fresh) s <| num_cached_tokens := num_cached_tokens s + r |>
             <| num_physical_cached_tokens := num_physical_cached_tokens s + r |>)) by (by rewrite <-Hs2).
  assert (Ht : block_table s3 = block_table s ++ l ++ fresh) by (by rewrite E). assert (Htok : num_tokens s3 = num_tokens s) by (by rewrite E).
  assert (Hids : token_ids s3 = token_ids s) by (by rewrite E). assert (Hc : num_cached_tokens s3 = num_cached_tokens s + r) by (by rewrite E).
  pose proof (num_blocks_covers (bs_of sc) s) as Hcov. destruct Hok as [Q1 Q2 Q3 Q4 Q5 Q6 Q7 Q8]. destruct (Q5 W1) as [Hphys Hcc].
  assert (Hlt : num_cached_tokens s + r < num_tokens s).
  { destruct l as [|b0 l0]; [cbn in Hr; lia|].
    pose proof (partial_blocks (bs_of sc) s (length (block_table s) + length (b0 :: l0)) ltac:(lia) ltac:(lia)) as Hp.
    cbn [length] in *. nia. }
  split; [|split; [by eapply with_request_only|split; [done|]]].
  - apply Hback; [by rewrite Ht; rewrite Hs2 in HB2|done| | |done].
    + assert (Hp : num_physical_cached_tokens s3 = num_cached_tokens s3) by (rewrite E; cbn; lia).
      split; [by rewrite E|rewrite E; exact Q2|by rewrite Htok, Hids|lia| |lia|by rewrite E|by rewrite E]. intros _. rewrite Ht, Hc, Hlen. split; [|lia].
      by rewrite <-Hc.
    + intros _. split_and!; [by rewrite E..|]. unfold num_blocks in *. rewrite Ht, Htok. lia.
  - exists s3. rewrite with_request_at, Ht, Htok. split; [done|]. split; [|rewrite Hlen; lia].
    intros Hn. by apply app_eq_nil in Hn as [? _].
Qed.

(** ** Starting a request *)
(** [n] tokens of request [i] join the batch, whose budget has [rem] left. *)
Definition joined sc i n rem sc' : Prop :=
  sched_ok [] sc' ∧ only [i] sc sc' ∧
  (∃ s, objs sc' !! i = Some s ∧ prefill_ready (bs_of sc) s ∧ num_scheduled_tokens s = n ∧
     ((status s = RUNNING ∧ i :: waiting sc' ≡ₚ waiting sc ∧ running sc' = running sc ++ [i]) ∨
      (status s = WAITING ∧ same_queues sc sc' ∧ n = rem))).

Lemma with_request_waiting bm i s sc w : with_request bm i s sc <| waiting := w |> = with_request bm i s (sc <| waiting := w |>).
Proof. done. Qed.

(** The request leaves the waiting queue for the running one. *)
Lemma start_running sc i s bm :
  sched_ok [] sc → i ∈ waiting sc → objs sc !! i = Some s → bm = block_manager sc → run_ok (bs_of sc) (s <| status := RUNNING |>) →
  wp (remove_waiting i;; modifyS (λ sc, sc <| running := running sc ++ [i] |>))
    (λ _ sc', sched_ok [] sc' ∧ i :: waiting sc' ≡ₚ waiting sc ∧ running sc' = running sc ++ [i] ∧
       objs sc' = <[i := s <| status := RUNNING |>]> (objs sc) ∧ cfg sc' = cfg sc ∧ max_num_active_seqs sc' = max_num_active_seqs sc ∧
       kv_admission_lookahead sc' = kv_admission_lookahead sc ∧ block_manager sc' = block_manager sc) noexn
    (with_request bm i (s <| status := RUNNING |>) sc).
Proof.
  clear append_ok clock. intros HI Hi Hs -> Hrun. unfold remove_waiting. wp_step. wp_step. wp_step.
  destruct (remove_first_perm i (waiting sc) Hi) as (l & Hl & Hp & Hsub). wp_step.
  change (waiting (with_request (block_manager sc) i (s <| status := RUNNING |>) sc)) with (waiting sc). rewrite Hl. cbn [of_option].
  wp_step. wp_step. wp_step. set (s' := s <| status := RUNNING |>) in *. split_and!; try done.
  set (sc1 := sc <| waiting := l |> <| running := running sc |>).
  assert (HI1 : sched_ok [i] sc1).
  { eapply sched_move; [exact HI| | |done]; [unfold live; rewrite <-Hp; solve_Permutation|].
    intros j sj Hj Hn. by apply Hsub in Hj. }
  assert (Hs1 : objs sc1 !! i = Some s) by exact Hs.
  destruct (sched_focus _ _ i HI1) as (s0 & own & Hs0 & Hok & HB & Hback); [by apply live_held; left|].
  assert (s0 = s) as -> by congruence. destruct (held_not_queued _ _ i HI1) as [Hnw Hnr]; [by left|].
  assert (HI2 : sched_ok [i] (with_request (block_manager sc1) i s' sc1)).
  { apply Hback; [done|reflexivity|by destruct Hok|by intros ?|by intros ?]. }
  assert (Hm : sched_ok [] (with_request (block_manager sc1) i s' sc1 <| waiting := l |> <| running := running sc ++ [i] |>)).
  { eapply sched_move; [exact HI2|unfold live; cbn; solve_Permutation|done|].
    intros j sj Hj Hn Hsj. destruct (decide (j = i)) as [->|Hne]; [|apply elem_of_app in Hj as [Hj|Hj%list_elem_of_singleton]; done].
    rewrite with_request_at in Hsj. by injection Hsj as <-. }
  by destruct sc.
Qed.

Lemma start_tail {A} sc i s nt rem now ev tr det (st : A) :
  sched_ok [] sc → i ∈ waiting sc → objs sc !! i = Some s → num_tokens s <= length (block_table s) * bs_of sc →
  nt = num_tokens s - num_cached_tokens s → 0 < rem →
  wp (update_seq i (mark_scheduled now);; update_seq i (λ s, s <| num_scheduled_tokens := Nat.min nt rem |>);;
      s ← get_seq i;
      (if num_cached_tokens s + num_scheduled_tokens s =? num_tokens s then
         update_seq i (λ s, s <| status := RUNNING |>);; remove_waiting i;;
         modifyS (λ sc, sc <| running := running sc ++ [i] |>)
       else mret tt);;
      trace_event append_ok clock ev [i] (Some now) tr det;; mret st)
    (λ r sc', r = st ∧ joined sc i (Nat.min nt rem) rem sc') noexn sc.
Proof.
  intros HI Hi Hs Hcov Hnt Hrem.
  destruct (sched_focus _ _ i HI) as (s' & own & Hs' & Hok & HB & Hback); [by apply live_waiting|].
  assert (s' = s) as -> by congruence. destruct (so_wait _ _ HI i s Hi Hs) as ([W0 W0'] & W1 & W2).
  pose proof (rq_cached _ _ _ Hok) as Hcached.
  assert (Hlen : length (block_table s) = num_blocks (bs_of sc) s).
  { pose proof (so_bs_pos _ _ HI). pose proof (pages_least (bs_of sc) (num_tokens s) (length (block_table s)) ltac:(lia) Hcov) as Hp.
    rewrite pages_of_tokens in Hp. lia. } destruct (waiting_not_running _ _ i HI Hi) as [Hnr _].
  wp_step. eapply wp_focus; [exact Hs|]. apply wp_update_focus. wp_step. apply wp_update_focus.
  set (n := Nat.min nt rem). assert (Hn : 0 < n) by (unfold n; lia).
  set (s2 := mark_scheduled now s <| num_scheduled_tokens := n |>).
  assert (HF : same_progress s (s2 <| num_scheduled_tokens := num_scheduled_tokens s |>) ∧ num_scheduled_tokens s2 = n ∧
    request_ok (bs_of sc) i s2 ∧ is_prefill s2 = true ∧ kv_compressed s2 = false ∧ block_table s2 = block_table s).
  { unfold s2, mark_scheduled. destruct Hok as [Q1 Q2 Q3 Q4 Q5 Q6 Q7 Q8]. destruct (first_scheduled_time s); split_and!; try done; by split. }
  clearbody s2. destruct HF as ((P1 & P2 & _ & P4 & P5 & _) & Hsch & Hok2 & F1 & F2 & F3). cbn in P1, P2, P4, P5.
  assert (HI2 : sched_ok [] (with_request (block_manager sc) i s2 sc)).
  { apply Hback; [by rewrite F3|reflexivity|done| |done]. intros _. split_and!; [by rewrite P4|done..|]. by rewrite F3; unfold num_blocks in *; rewrite P2. }
  assert (HO2 : only [i] sc (with_request (block_manager sc) i s2 sc)) by by eapply with_request_only.
  wp_step. apply wp_read_focus. wp_step. rewrite P1, P2, Hsch.
  assert (Hready : ∀ st', (st' = RUNNING ↔ num_cached_tokens s + n = num_tokens s) → prefill_ready (bs_of sc) (s2 <| status := st' |>)).
  { intros st' Hst. split_and!; cbn; rewrite ?Hsch, ?P1, ?P2, ?F3; try done; [unfold n; lia|]. unfold num_blocks in *. cbn. by rewrite P2. }
  assert (Hend : ∀ sc', sched_ok [] sc' → joined sc i n rem sc' → wp (trace_event append_ok clock ev [i] (Some now) tr det;; mret st)
    (λ r sc', r = st ∧ joined sc i n rem sc') noexn sc').
  { clear - append_ok clock Hi. intros sc' HI' (_ & HO' & s' & Hs' & Hr' & Hn' & Hq'). wp_step. eapply wp_mono; [apply trace_spec; [exact HI'|]| |done].
    { intros j Hj%list_elem_of_singleton. subst j. destruct Hq' as [(_ & _ & Er)|(_ & [Ew _] & _)].
      - apply live_running. rewrite Er. apply elem_of_app. right. by left.
      - apply live_waiting. by rewrite Ew. }
    intros _ sc4 [HI4 Q4]. pose proof Q4 as (St & [Qw Qr] & Qo & Qb). wp_step. split; [done|].
    split; [done|]. split; [eapply only_trans; [exact HO'|by apply quiet_only]|].
    exists s'. rewrite Qo. split_and!; [done..|]. unfold same_queues. by rewrite Qw, Qr. }
  set (sc2 := with_request (block_manager sc) i s2 sc) in *. assert (Hs2 : objs sc2 !! i = Some s2) by apply with_request_at.
  assert (Hs2' : objs sc2 = <[i := s2]> (objs sc)) by done.
  destruct (_ =? _) eqn:E; breflect.
  - wp_step. apply wp_update_focus. rewrite <-(with_request_twice (block_manager sc) s2). fold sc2.
    eapply wp_mono; [apply (start_running sc2 i s2); [done..|]| |done].
    { split; [done|]. cbn. rewrite P1, P2, Hsch. split; [lia|]. split; [intros _; cbn; rewrite F3, P1, Hsch, E; exact Hlen|].
      cbn. rewrite F3. intros Ht. rewrite Ht in Hcov. cbn in Hcov. lia. }
    intros _ sc3 (HI3 & Hw3 & Hr3 & Ho3 & C1 & C2 & C3 & C4). apply Hend; [done|]. split; [done|].
    assert (Hs3 : objs sc3 !! i = Some (s2 <| status := RUNNING |>)) by (rewrite Ho3; apply lookup_insert_eq).
    split.
    + split; [split_and!; try done; rewrite ?C4; [reflexivity|]|].
      * intros j. rewrite Ho3. destruct (decide (j = i)) as [->|Hj]; [rewrite lookup_insert_eq, Hs; cbn; by rewrite P5|].
        rewrite lookup_insert_ne by done. unfold sc2. by rewrite with_request_ne.
      * intros j Hj. rewrite Ho3. apply not_elem_of_cons in Hj as [Hj _]. rewrite lookup_insert_ne by done. unfold sc2. by rewrite with_request_ne.
    + exists (s2 <| status := RUNNING |>). split_and!; [done|by apply Hready|done|]. by left.
  - wp_step. apply Hend; [done|]. split; [done|]. split; [done|]. exists s2. split_and!; [done| |done|].
    + pose proof (Hready WAITING) as Hw. assert (Hst : status s2 = WAITING) by congruence.
      assert (Es : s2 <| status := WAITING |> = s2) by (clear - Hst; destruct s2; cbn in *; by subst).
      rewrite Es in Hw. apply Hw. by split.
    + right. split_and!; [congruence|done|]. unfold n in *. lia.
Qed.

Lemma joined_after sc sc1 i n rem sc' :
  static sc sc1 → (∀ j, j ∉ [i] → objs sc1 !! j = objs sc !! j) → same_queues sc sc1 → joined sc1 i n rem sc' → joined sc i n rem sc'.
Proof.
  clear append_ok clock. intros St Ho HQ (HI & HO & s & Hs & Hr & Hn & Hq). split; [done|]. split; [by eapply only_trans|].
  exists s. rewrite (quiet_bs _ _ St) in Hr. split_and!; [done..|]. pose proof HQ as [Qw Qr]. rewrite Qw, Qr in Hq.
  destruct Hq as [?|(? & ? & ?)]; [by left|right]. split_and!; [done|by etrans|done].
Qed.

Lemma start_fresh sc i s ps k nt rem now :
  sched_ok [] sc → i ∈ waiting sc → objs sc !! i = Some s → block_table s = [] → allocatable s (block_manager sc) k →
  nt = num_tokens s - k * bs_of sc → 0 < rem →
  wp (start_prefill append_ok clock i ps k nt rem now) (λ r sc', r = Continue (mkPrefillState (ps_scheduled ps ++ [i])
      (ps_batched ps + Nat.min nt rem) (ps_deferred ps) (ps_progress_only ps)) ∧ joined sc i (Nat.min nt rem) rem sc') noexn sc.
Proof.
  intros HI Hi Hs Hnil Ha Hnt Hrem. unfold start_prefill. wp_step. eapply wp_get_seq; [done|]. wp_step.
  unfold owns_blocks. rewrite bool_decide_eq_true_2 by done. cbn [negb]. cbv zeta.
  eapply wp_mono; [by apply (allocate_step sc i s k (λ s0, num_cached_tokens s0 - num_cached_tokens s))| |done].
  intros _ sc1 ((HI1 & HO1 & HQ1 & s1 & Hs1 & Hne1 & Hcov) & s1' & Hs1' & Hc). assert (s1' = s1) as -> by congruence.
  pose proof HO1 as [St1 Ho1]. eapply wp_mono; [eapply (start_tail sc1 i s1 nt); try done| |done].
  - destruct HQ1 as [-> _]. done.
  - by rewrite (quiet_bs _ _ St1).
  - lia.
  - intros r sc2 [-> HJ]. split; [done|by eapply joined_after].
Qed.
Lemma start_resumed sc i s ps nt rem now :
  sched_ok [] sc → i ∈ waiting sc → objs sc !! i = Some s → block_table s ≠ [] → num_tokens s <= length (block_table s) * bs_of sc →
  nt = num_tokens s - num_cached_tokens s → 0 < rem →
  wp (start_prefill append_ok clock i ps 0 nt rem now) (λ r sc', r = Continue (mkPrefillState (ps_scheduled ps ++ [i])
      (ps_batched ps + Nat.min nt rem) (ps_deferred ps) (ps_progress_only ps)) ∧ joined sc i (Nat.min nt rem) rem sc') noexn sc.
Proof.
  intros HI Hi Hs Hne Hcov Hnt Hrem. unfold start_prefill. wp_step. eapply wp_get_seq; [done|]. wp_step.
  unfold owns_blocks. rewrite bool_decide_eq_false_2 by done. cbn [negb]. wp_step. cbv zeta.
  by eapply (start_tail sc i s nt).
Qed.
End prefill.
