(* ===== verification/SchedulerLoop.v ===== *)
(** * The scheduler: the prefill loop

    The loop ends: every iteration that continues decreases [mu]. It leaves a batch
    within the two limits, whose requests have pages for all their tokens; and when
    nothing ran before, it does not come back empty-handed. *)
From S2P Require Import Prelude Json Qos Sequence Policy KvPolicy RadixCache BlockManager BlockInv BlockSpec BlockAgain SchedulerTrace Scheduler SchedulerInv SchedulerReclaim SchedulerDecode SchedulerPrefill.
Set Default Goal Selector "!".
Set Default Proof Using "Type".

Section loop.
Context {R T Pg : Type} `{RestoreService R T Pg} `{Hasher} `{FloatRepr}.
Implicit Types (sc : Scheduler R T) (s : Sequence) (held l sch : list nat) (ps : PrefillState).
Abbreviation bs_of sc := (block_size (block_manager sc)).
Abbreviation max_tokens_of sc := (c_max_num_batched_tokens (cfg sc)).
Abbreviation max_seqs_of sc := (c_max_num_seqs (cfg sc)).

Definition scheduled_at sc (i : nat) : nat := match objs sc !! i with Some s => num_scheduled_tokens s | None => 0 end.

(** The batch [sch] of [batched] tokens, started from [sc0]. *)
Record prefill_inv sc0 sch (batched : nat) sc : Prop := {
  pi_ok : sched_ok [] sc;
  pi_static : static sc0 sc;
  pi_live : live [] sc ≡ₚ live [] sc0;
  pi_nodup : NoDup sch;
  pi_ready i : i ∈ sch → i ∈ live [] sc ∧ ∃ s, objs sc !! i = Some s ∧ prefill_ready (bs_of sc0) s;
  pi_run : batched < max_tokens_of sc0 → ∀ i, i ∈ sch → i ∈ running sc;
  pi_max : batched <= max_tokens_of sc0;
  pi_sum : batched = nsum (scheduled_at sc <$> sch);
  pi_len : length sch <= max_seqs_of sc0;
  pi_old j : j ∈ running sc → j ∈ sch ∨ (j ∈ running sc0 ∧ objs sc !! j = objs sc0 !! j);
  pi_keep j : j ∈ running sc0 → j ∈ running sc
}.

Lemma prefill_inv_start sc0 : sched_ok [] sc0 → prefill_inv sc0 [] 0 sc0.
Proof.
  intros HI. split; try done; [constructor|by intros i ?%not_elem_of_nil|by intros _ i ?%not_elem_of_nil|lia|cbn; lia|auto].
Qed.

Lemma prefill_inv_same sc0 sch batched sc sc' :
  prefill_inv sc0 sch batched sc → sched_ok [] sc' → static sc sc' → same_queues sc sc' →
  (∀ j, j ∈ running sc → objs sc' !! j = objs sc !! j) →
  (∀ j s, j ∈ sch → objs sc !! j = Some s → ∃ s', objs sc' !! j = Some s' ∧ num_scheduled_tokens s' = num_scheduled_tokens s ∧
     (prefill_ready (bs_of sc0) s → prefill_ready (bs_of sc0) s')) →
  prefill_inv sc0 sch batched sc'.
Proof.
  intros [P1 P2 P3 P4 P5 P6 P7 P8 P9 P10 P11] HI St [Qw Qr] Ho Hs. split; try done.
  - by etrans.
  - unfold live in *. by rewrite Qw, Qr.
  - intros i Hi. destruct (P5 i Hi) as (Hl & s & Hsi & Hr). split; [unfold live in *; by rewrite Qw, Qr|].
    destruct (Hs i s Hi Hsi) as (s' & Hs' & _ & Hr'). eauto.
  - intros Hb i Hi. rewrite Qr. by apply P6.
  - rewrite P8. f_equal. apply list_fmap_ext. intros k i Hi. assert (Hin : i ∈ sch) by by eapply list_elem_of_lookup_2.
    destruct (P5 i Hin) as (_ & s & Hsi & _). destruct (Hs i s Hin Hsi) as (s' & Hs' & Hn & _). unfold scheduled_at. by rewrite Hsi, Hs'.
  - intros j. rewrite Qr. intros Hj. rewrite Ho by done. by apply P10.
  - intros j Hj. rewrite Qr. by apply P11.
Qed.
(** While tokens are left, the batch is running: steps on waiting requests are safe. *)
Lemma prefill_inv_waiting sc0 sch batched sc sc' :
  prefill_inv sc0 sch batched sc → batched < max_tokens_of sc0 → sched_ok [] sc' → only (waiting sc) sc sc' → same_queues sc sc' →
  prefill_inv sc0 sch batched sc'.
Proof.
  intros HP Hb HI [St Ho] HQ. assert (Hr : ∀ j, j ∈ running sc → objs sc' !! j = objs sc !! j).
  { intros j Hj. apply Ho. intros Hw. by apply (waiting_not_running _ _ _ (pi_ok _ _ _ _ HP)) in Hw as [? _]. }
  eapply prefill_inv_same; [done..|]. intros j s Hj Hs. exists s. rewrite Hr by by apply (pi_run _ _ _ _ HP). by split_and!.
Qed.
Lemma prefill_inv_quiet sc0 sch batched sc sc' :
  prefill_inv sc0 sch batched sc → sched_ok [] sc' → quiet sc sc' → prefill_inv sc0 sch batched sc'.
Proof.
  intros HP HI (St & HQ & Ho & _). eapply prefill_inv_same; [done..| |].
  - intros j _. by rewrite Ho.
  - intros j s _ Hs. exists s. rewrite Ho. by split_and!.
Qed.
(** A request joins the batch. *)
Lemma prefill_inv_join sc0 sch batched sc i n sc' :
  prefill_inv sc0 sch batched sc → batched < max_tokens_of sc0 → length sch < max_seqs_of sc0 → i ∈ waiting sc →
  n <= max_tokens_of sc0 - batched → joined sc i n (max_tokens_of sc0 - batched) sc' →
  prefill_inv sc0 (sch ++ [i]) (batched + n) sc'.
Proof.
  intros [P1 P2 P3 P4 P5 P6 P7 P8 P9 P10 P11] Hb Hl Hi Hn (HI & HO & s & Hs & Hr & Hns & Hq).
  destruct (waiting_not_running _ _ i P1 Hi) as [Hnr _]. rewrite (quiet_bs _ _ P2) in Hr.
  assert (Hsch : ∀ j, j ∈ sch → j ≠ i ∧ objs sc' !! j = objs sc !! j).
  { intros j Hj. assert (Hji : j ≠ i) by (intros ->; by apply Hnr, P6). split; [done|by apply (only_other i)]. }
  assert (Hlive : live [] sc' ≡ₚ live [] sc).
  { unfold live. cbn [app]. destruct Hq as [(_ & Hw & ->)|(_ & [-> ->] & _)]; [|done]. rewrite <-Hw. solve_Permutation. }
  split; try done.
  - etrans; [done|apply HO].
  - by rewrite Hlive.
  - apply NoDup_app. split_and!; [done| |apply NoDup_singleton].
    intros j Hj Hx%list_elem_of_singleton. by destruct (Hsch j Hj).
  - intros j Hj. rewrite Hlive. apply elem_of_app in Hj as [Hj|Hj%list_elem_of_singleton].
    + destruct (Hsch j Hj) as [_ ->]. by apply P5.
    + subst j. split; [by apply live_waiting|by exists s].
  - intros Hb' j Hj. destruct Hq as [(_ & _ & ->)|(_ & _ & E)]; [|lia].
    apply elem_of_app in Hj as [Hj|Hj]; apply elem_of_app; [left; by apply P6|by right].
  - lia.
  - rewrite fmap_app, nsum_app, P8. f_equal.
    + f_equal. apply list_fmap_ext. intros k j Hj. unfold scheduled_at. destruct (Hsch j) as [_ ->]; [by eapply list_elem_of_lookup_2|done].
    + unfold nsum, scheduled_at. cbn. rewrite Hs. lia.
  - rewrite length_app. cbn. lia.
  - intros j Hj. destruct (decide (j = i)) as [->|Hji]; [left; apply elem_of_app; right; by left|].
    assert (Hjr : j ∈ running sc).
    { destruct Hq as [(_ & _ & E)|(_ & [_ E] & _)]; rewrite E in Hj; [|done].
      apply elem_of_app in Hj as [Hj|Hj%list_elem_of_singleton]; done. }
    rewrite (only_other i j sc sc' HO Hji). destruct (P10 j Hjr) as [?|?]; [left; apply elem_of_app; by left|by right].
  - intros j Hj. destruct Hq as [(_ & _ & ->)|(_ & [_ ->] & _)]; [apply elem_of_app; left|]; by apply P11.
Qed.

(** ** One iteration *)
Definition mu sc0 ps sc : nat :=
  length (waiting sc) + (max_seqs_of sc0 - size (ps_deferred ps)) + (if ps_progress_only ps then 0 else 1) +
  (if ps_batched ps <? max_tokens_of sc0 then 1 else 0).
(** Every request fits the cache when it is alone. *)
Definition all_fit sc : Prop := ∀ i, i ∈ live [] sc → ¬ too_big sc i.
Definition inv_of sc0 ps sc : Prop := prefill_inv sc0 (ps_scheduled ps) (ps_batched ps) sc.

(** What an iteration started in [sc] promises: to keep the invariant, to make
    progress when it continues, and not to give up on a fresh start. *)
Definition step_post sc0 ps sc (r : Step) sc' : Prop :=
  match r with
  | Break => inv_of sc0 ps sc' ∧ (calm sc ps → all_fit sc0 → 0 < max_tokens_of sc0 → False)
  | Continue ps' => inv_of sc0 ps' sc' ∧ mu sc0 ps' sc' < mu sc0 ps sc ∧ ps_scheduled ps `prefix_of` ps_scheduled ps' ∧
      (calm sc ps → all_fit sc0 → ps_scheduled ps' ≠ [] ∨ fresh_start sc' ps')
  end.

Lemma fit_still sc0 sc i : sched_ok [] sc0 → sched_ok [] sc → static sc0 sc → live [] sc ≡ₚ live [] sc0 →
  all_fit sc0 → i ∈ live [] sc → ¬ too_big sc i.
Proof.
  intros HI0 HI (_ & _ & _ & (B1 & _ & B3) & Ht) Hl Hfit Hi (s & Hs & Hbig). rewrite Hl in Hi. apply (Hfit i Hi).
  destruct (so_obj _ _ HI0 i Hi) as (s0 & Hs0 & Hok0). rewrite <-Hl in Hi. destruct (so_obj _ _ HI i Hi) as (s1 & Hs1 & Hok1).
  assert (s1 = s) as -> by congruence. exists s0. split; [done|]. specialize (Ht i). rewrite Hs, Hs0 in Ht. injection Ht as Ht.
  unfold num_blocks in *. rewrite (rq_tokens _ _ _ Hok0), <-Ht, <-(rq_tokens _ _ _ Hok1), <-B1, <-B3. done.
Qed.

Lemma mu_waiting sc0 ps sc sc' : waiting sc' = waiting sc → mu sc0 ps sc' = mu sc0 ps sc.
Proof. unfold mu. by intros ->. Qed.
Lemma calm_still sc sc' ps : static sc sc' → running sc' = running sc → calm sc ps → calm sc' ps.
Proof. intros (_ & E & _) Er (?&?&?&?). unfold calm. rewrite Er, E. done. Qed.

(** Joining the batch is progress. *)
Lemma step_join sc0 ps sc i n sc' :
  inv_of sc0 ps sc → ps_batched ps < max_tokens_of sc0 → length (ps_scheduled ps) < max_seqs_of sc0 → i ∈ waiting sc →
  n <= max_tokens_of sc0 - ps_batched ps → joined sc i n (max_tokens_of sc0 - ps_batched ps) sc' →
  step_post sc0 ps sc (Continue (mkPrefillState (ps_scheduled ps ++ [i]) (ps_batched ps + n) (ps_deferred ps) (ps_progress_only ps))) sc'.
Proof.
  intros HP Hb Hl Hi Hn HJ. split; [by eapply prefill_inv_join|]. split.
  - unfold mu. cbn [ps_batched ps_deferred ps_progress_only]. rewrite (proj2 (Nat.ltb_lt _ _) Hb).
    destruct HJ as (_ & _ & s & _ & _ & _ & [(_ & Hw & _)|(_ & [Hw _] & Hrem)]).
    + rewrite <-Hw. cbn [length]. destruct (_ <? _); lia.
    + rewrite Hw, (proj2 (Nat.ltb_ge (ps_batched ps + n) _)) by lia. lia.
  - split; [by eexists|]. intros _ _. left. cbn. by destruct (ps_scheduled ps).
Qed.

Context (append_ok : nat → bool) (clock : nat → Q).

(** The selected request holds no pages. *)
Lemma step_new sc0 ps sc i s bsz now :
  bsz = bs_of sc → sched_ok [] sc0 → inv_of sc0 ps sc → ps_batched ps < max_tokens_of sc0 → length (ps_scheduled ps) < max_seqs_of sc0 →
  i ∈ waiting sc → i ∉ ps_deferred ps → objs sc !! i = Some s → block_table s = [] →
  (ps_progress_only ps = true → ¬ has_owner sc) →
  let remaining := max_tokens_of sc0 - ps_batched ps in
  wp (r ← admit_new append_ok clock i ps now;
      match r with
      | inl step => mret step
      | inr k =>
          s ← get_seq i;
          let num_tokens_ := num_tokens s - k * bsz in
          if (remaining <? num_tokens_) && negb (bool_decide (ps_scheduled ps = [])) then mret Break
          else start_prefill append_ok clock i ps k num_tokens_ remaining now
      end) (step_post sc0 ps sc) noexn sc.
Proof.
  intros -> HI0 HP Hb Hl Hi Hd Hs Hnil Hown remaining. pose proof (pi_ok _ _ _ _ HP) as HI.
  assert (Hid : seq_id s = i).
  { destruct (so_obj _ _ HI i) as (s' & Hs' & Hok); [by apply live_waiting|]. assert (s' = s) as -> by congruence. apply (rq_id _ _ _ Hok). }
  wp_step. eapply wp_mono; [by apply (admit_new_spec append_ok clock sc i s)| |done].
  intros r sc1 [HU1 Hr]. pose proof HU1 as (HI1 & HO1 & HQ1). pose proof HQ1 as [Qw Qr].
  assert (HP1 : inv_of sc0 ps sc1) by (eapply prefill_inv_waiting; [done|done|done|by apply only_nil|done]).
  assert (Hs1 : objs sc1 !! i = Some s) by (rewrite <-Hs; apply HO1, not_elem_of_nil).
  destruct r as [[|ps']|k]; cbn in Hr.
  - wp_step. split; [done|]. intros (Er & _) Hfit _. rewrite Hid in Hr.
    by apply (fit_still sc0 sc i HI0 HI (pi_static _ _ _ _ HP) (pi_live _ _ _ _ HP) Hfit); [apply live_waiting|apply Hr].
  - wp_step. destruct Hr as (E1 & E2 & Hr). split; [unfold inv_of; by rewrite E1, E2|].
    destruct Hr as [(E3 & E4 & Er & Ho)|(E3 & E4 & Hsz & Hr)].
    + destruct (ps_progress_only ps) eqn:Epo; [by destruct (Hown eq_refl)|]. split.
      * unfold mu. rewrite E2, E3, E4, Epo, Qw. lia.
      * split; [by rewrite E1|]. intros (C1 & C2 & C3 & C4) _. right. split; [|intros _; by apply (undisturbed_owner sc)].
        destruct HO1 as [(_ & Em & _) _]. unfold calm. rewrite Qr, E1, E3, Em. by split_and!.
    + split; [|split; [by rewrite E1|intros [? _]; done]]. unfold mu. rewrite E2, E4, Qw.
      assert (size (ps_deferred ps') = S (size (ps_deferred ps))).
      { rewrite E3, Hid, size_union by set_solver. by rewrite size_singleton. }
      destruct (pi_static _ _ _ _ HP) as (Ec & _). rewrite Ec in Hsz. lia.
  - wp_step. eapply wp_get_seq; [done|]. cbv zeta. wp_if Eg.
    + wp_step. breflect. split; [done|]. by intros (_ & ? & _).
    + assert (Hrem : 0 < remaining) by (unfold remaining; lia).
      assert (Hbs : bs_of sc1 = bs_of sc) by apply (quiet_bs _ _ (proj1 HO1)).
      eapply wp_mono; [eapply (start_fresh append_ok clock sc1 i s); try done| |done].
      * by rewrite Qw.
      * by rewrite Hbs.
      * intros r sc2 [-> HJ]. eapply step_join; try done; [unfold remaining; lia|]. eapply joined_after; [apply HO1| |exact HQ1|exact HJ].
        intros j _. apply HO1, not_elem_of_nil.
Qed.

(** The selected request held pages and could be resumed. *)
Lemma step_resumed sc0 ps sc i s now :
  inv_of sc0 ps sc → ps_batched ps < max_tokens_of sc0 → length (ps_scheduled ps) < max_seqs_of sc0 →
  i ∈ waiting sc → objs sc !! i = Some s → block_table s ≠ [] → resumable s (block_manager sc) →
  let remaining := max_tokens_of sc0 - ps_batched ps in
  wp (reused_tokens ← on_bms i resume;
      update_seq i (record_reused_tokens reused_tokens);;
      s ← get_seq i;
      let num_tokens_ := num_tokens s - num_cached_tokens s in
      if (remaining <? num_tokens_) && negb (bool_decide (ps_scheduled ps = [])) then mret Break
      else start_prefill append_ok clock i ps 0 num_tokens_ remaining now) (step_post sc0 ps sc) noexn sc.
Proof.
  intros HP Hb Hl Hi Hs Hne Hres remaining. pose proof (pi_ok _ _ _ _ HP) as HI.
  pose proof (resume_step sc i s HI Hi Hs Hne Hres) as Hstep. unfold wp, mbind, M_bind in Hstep. unfold wp, mbind at 1, M_bind at 1.
  destruct (on_bms i resume sc) as [[e|r] sc1]; [done|]. unfold mbind at 1, M_bind at 1.
  destruct (update_seq i (record_reused_tokens r) sc1) as [[e|[]] sc2]; [done|].
  destruct Hstep as (HI2 & HO2 & HQ2 & s2 & Hs2 & Hne2 & Hcov). pose proof HQ2 as [Qw Qr].
  assert (HP2 : inv_of sc0 ps sc2).
  { eapply prefill_inv_waiting; [done|done|done| |done]. eapply only_mono; [|exact HO2].
    intros j Hj%list_elem_of_singleton. by subst. }
  match goal with |- context [get_seq i ≫= ?k] => change (wp (get_seq i ≫= k) (step_post sc0 ps sc) noexn sc2) end.
  wp_step. eapply wp_get_seq; [done|]. cbv zeta. wp_if Eg.
  - wp_step. breflect. split; [done|]. by intros (_ & ? & _).
  - eapply wp_mono; [eapply (start_resumed append_ok clock sc2 i s2); try done| |done].
    + by rewrite Qw.
    + by rewrite (quiet_bs _ _ (proj1 HO2)).
    + unfold remaining. lia.
    + intros r' sc3 [-> HJ]. eapply step_join; try done; [unfold remaining; lia|]. 
      eapply joined_after; [apply HO2|apply HO2|exact HQ2|exact HJ].
Qed.

Lemma prefill_step_spec sc0 ps sc now :
  sched_ok [] sc0 → inv_of sc0 ps sc → waiting sc ≠ [] → length (ps_scheduled ps) < max_seqs_of sc0 →
  wp (prefill_step append_ok clock ps now) (λ r sc',
    match r with
    | Break => inv_of sc0 ps sc' ∧ (fresh_start sc ps → all_fit sc0 → 0 < max_tokens_of sc0 → False)
    | Continue ps' => inv_of sc0 ps' sc' ∧ mu sc0 ps' sc' < mu sc0 ps sc ∧ ps_scheduled ps `prefix_of` ps_scheduled ps' ∧
        (fresh_start sc ps → all_fit sc0 → ps_scheduled ps' ≠ [] ∨ fresh_start sc' ps')
    end) noexn sc.
Proof.
  intros HI0 HP Hw Hl. pose proof (pi_ok _ _ _ _ HP) as HI. unfold prefill_step.
  wp_step. eapply wp_mono; [by apply eligible_waiting_spec| |done]. intros r sc1 (HI1 & Q1 & Hel & Hfr).
  pose proof (prefill_inv_quiet _ _ _ _ _ HP HI1 Q1) as HP1. pose proof Q1 as (St1 & [Qw1 Qr1] & Qo1 & _).
  destruct r as [el|]; [|wp_step; split; [done|]; intros Hf _ _; by apply Hfr].
  destruct Hel as (E1 & E2 & E3 & E4).
  wp_step. eapply (wp_get_seqs [] sc1); [done|intros j Hj; apply live_waiting; rewrite Qw1; by apply E2|]. intros ws Hws.
  wp_step. wp_step. destruct (select_waiting_in (policy sc1) (estimator sc1) ws (step_id sc1) now) as (s & Hsel & Hin).
  { by eapply at_ids_nil. }
  { by eapply at_ids_arrived. }
  wp_step. rewrite Hsel. apply wp_lift; [intros ? [= <-]|done]. cbv zeta.
  destruct (at_ids_in _ _ _ _ Hws Hin) as [Hi Hs]. set (i := seq_id s) in *.
  assert (Hi1 : i ∈ waiting sc1) by (rewrite Qw1; by apply E2).
  destruct (sched_focus _ _ i HI1) as (s' & own & Hs' & Hok & HB & Hback); [by apply live_waiting|].
  assert (s' = s) as -> by congruence. destruct (waiting_not_running _ _ i HI1 Hi1) as [Hnr1 _].
  wp_step. apply wp_budget; [apply (rq_arrived _ _ _ Hok)|]. intros b.
  wp_step. eapply wp_focus; [exact Hs|]. apply wp_update_focus. set (s2 := s <| last_budget_ms := b |>). set (sc2 := with_request _ i s2 sc1).
  assert (HI2 : sched_ok [] sc2).
  { apply Hback; [done|reflexivity|by destruct Hok| |by intros ?]. intros _. exact (so_wait _ _ HI1 i s Hi1 Hs). }
  assert (HO2 : only [i] sc1 sc2) by by eapply with_request_only.
  assert (HQ2 : same_queues sc1 sc2) by done.
  assert (Hs2 : objs sc2 !! i = Some s2) by apply with_request_at.
  assert (HP2 : inv_of sc0 ps sc2).
  { eapply prefill_inv_same; [exact HP1|exact HI2|apply HO2|exact HQ2| |].
    - intros j Hj. apply (only_other i j _ _ HO2). by intros ->.
    - intros j sj Hj Hsj. destruct (decide (j = i)) as [->|Hji]; [|exists sj; rewrite (only_other i j _ _ HO2 Hji); by split_and!].
      exists s2. rewrite Hs in Hsj. injection Hsj as <-. by split_and!. }
  assert (Hsame : block_table s2 = block_table s) by done. clearbody s2 sc2. clear Hback HB. destruct HQ2 as [Qw2 Qr2].
  assert (St2 : static sc sc2) by (etrans; [exact St1|apply HO2]).
  assert (Hpost : ∀ r sc3 sc', static sc sc3 → same_queues sc2 sc3 → step_post sc0 ps sc3 r sc' → match r with
    | Break => inv_of sc0 ps sc' ∧ (fresh_start sc ps → all_fit sc0 → 0 < max_tokens_of sc0 → False)
    | Continue ps' => inv_of sc0 ps' sc' ∧ mu sc0 ps' sc' < mu sc0 ps sc ∧ ps_scheduled ps `prefix_of` ps_scheduled ps' ∧
        (fresh_start sc ps → all_fit sc0 → ps_scheduled ps' ≠ [] ∨ fresh_start sc' ps')
    end).
  { intros r sc3 sc' St3 [Qw3 Qr3] Hp.
    assert (Hc : fresh_start sc ps → calm sc3 ps) by (intros [Hc _]; eapply calm_still; [exact St3|congruence|done]).
    rewrite <-(mu_waiting sc0 ps sc sc3) by congruence. destruct r; cbn in Hp |- *; naive_solver. }
  assert (Ecfg : cfg sc1 = cfg sc0) by (destruct (pi_static _ _ _ _ HP1) as (-> & _); done). rewrite Ecfg.
  wp_if Erem.
  { wp_step. breflect. split; [done|]. intros [(_ & Hsch & _) _] _ Hpos.
    pose proof (pi_sum _ _ _ _ HP) as Hsum. rewrite Hsch in Hsum. cbn in Hsum. lia. }
  breflect. assert (Hb : ps_batched ps < max_tokens_of sc0) by lia. wp_step.
  set (Mid := λ (fits : bool) sc3, inv_of sc0 ps sc3 ∧ static sc sc3 ∧ same_queues sc2 sc3 ∧
    if fits then ∃ s3, objs sc3 !! i = Some s3 ∧ (block_table s3 ≠ [] → resumable s3 (block_manager sc3)) ∧
      (block_table s3 = [] → ps_progress_only ps = true → ¬ has_owner sc3)
    else running sc3 = [] → too_big sc3 i).
  assert (Hi2 : i ∈ waiting sc2) by by rewrite Qw2.
  apply (wp_mono _ Mid _ noexn); [|intros fits sc3 (HP3 & St3 & HQ3 & Hf)|done].
  { wp_if Eo.
    - apply owns_table in Eo. assert (Ht : table sc2 i = block_table s2) by by apply table_at.
      eapply wp_mono; [apply (ensure_resume_spec append_ok clock sc2 i now HI2 Hi2)| |done]; [by rewrite Ht, Hsame|].
      intros fits sc3 (HI3 & HO3 & HQ3 & Hout).
      split; [by eapply prefill_inv_waiting|]. split; [etrans; [exact St2|apply HO3]|]. split; [done|].
      destruct fits; cbn in Hout; [|by destruct HQ3 as [_ ->]].
      destruct Hout as (s3 & Hs3 & Hr3 & Hn3). exists s3. split_and!; [done..|]. intros Hnil _ (j & Hj & Htj). by apply Htj, Hn3.
    - wp_step. split; [done|]. split; [done|]. split; [done|]. exists s2. split; [done|].
      assert (Hnil : block_table s = []) by (apply dec_stable; rewrite <-owns_table; congruence).
      rewrite Hsame. split; [done|]. intros _ Hp. exfalso. apply (E4 Hp i); [done|]. rewrite (table_at sc i s); [done|by rewrite <-Qo1]. }
  pose proof HQ3 as [Qw3 Qr3]. assert (Hi3 : i ∈ waiting sc3) by by rewrite Qw3. pose proof (pi_ok _ _ _ _ HP3) as HI3.
  destruct fits; cbn [negb].
  - destruct Hf as (s3 & Hs3 & Hr3 & Hn3). wp_step. eapply wp_get_seq; [done|]. wp_if Eo.
    + breflect. eapply wp_mono; [eapply (step_new sc0 ps sc3 i s3); try done| |done].
      * rewrite (quiet_bs _ _ (pi_static _ _ _ _ HP3)). symmetry. apply (so_bs _ _ HI0).
      * by apply E3.
      * apply dec_stable. rewrite <-owns_table. congruence.
      * apply Hn3. apply dec_stable. rewrite <-owns_table. congruence.
      * intros r sc4 Hp. exact (Hpost r sc3 sc4 St3 HQ3 Hp).
    + breflect. apply owns_table in Eo. eapply wp_mono; [eapply (step_resumed sc0 ps sc3 i s3); try done| |done]; [by apply Hr3|].
      intros r sc4 Hp. exact (Hpost r sc3 sc4 St3 HQ3 Hp).
  - eapply wp_quiet; [apply trace_spec; [exact HI3|]|].
    { intros j Hj%list_elem_of_singleton. subst j. by apply live_waiting. }
    intros _ sc4 HI4 Q4. wp_step. split; [by eapply prefill_inv_quiet|]. intros [(Er & _) _] Hfit _.
    assert (Er3 : running sc3 = []) by congruence.
    by apply (fit_still sc0 sc3 i HI0 HI3 (pi_static _ _ _ _ HP3) (pi_live _ _ _ _ HP3) Hfit); [apply live_waiting|apply Hf].
Qed.

(** ** The loop *)
Lemma prefill_loop_spec fuel sc0 now : sched_ok [] sc0 → ∀ ps sc,
  inv_of sc0 ps sc → mu sc0 ps sc < fuel →
  wp (prefill_loop append_ok clock fuel ps now) (λ sch sc', (∃ batched, prefill_inv sc0 sch batched sc') ∧
    ps_scheduled ps `prefix_of` sch ∧
    (fresh_start sc ps → all_fit sc0 → 0 < max_tokens_of sc0 → 0 < max_seqs_of sc0 → live [] sc0 ≠ [] → sch ≠ [])) noexn sc.
Proof.
  intros HI0. induction fuel as [|fuel IH]; intros ps sc HP Hmu; [lia|]. cbn [prefill_loop]. wp_step. wp_step.
  destruct (pi_static _ _ _ _ HP) as (Ecfg & _). rewrite Ecfg. wp_if Eg.
  - breflect. wp_step. eapply wp_mono; [by apply (prefill_step_spec sc0)| |done].
    intros [|ps'] sc' Hr.
    + destruct Hr as [HP' Hl]. wp_step. split; [by eexists|]. split; [done|]. intros Hf Hfit Hb _ _. by destruct (Hl Hf Hfit Hb).
    + destruct Hr as (HP' & Hmu' & Hpre & Hl). eapply wp_mono; [apply (IH ps' sc' HP'); lia| |done].
      intros sch sc2 (Hex & Hpre' & Hl'). split; [done|]. split; [by etrans|]. intros Hf Hfit Hb Hs Hlive.
      destruct (Hl Hf Hfit) as [Hne|Hf']; [|by apply Hl']. intros ->. by apply prefix_nil_inv in Hpre'.
  - wp_step. split; [by eexists|]. split; [done|]. intros ((Er & Es & _) & _) _ _ Hs Hlive. exfalso.
    apply andb_false_iff in Eg as [Eg|Eg]; breflect.
    + apply Hlive. pose proof (pi_live _ _ _ _ HP) as Hp. unfold live in Hp at 1. rewrite Er, Eg in Hp. cbn in Hp.
      by apply Permutation_nil_l in Hp.
    + rewrite Es in Eg. cbn in Eg. lia.
Qed.
End loop.
