(* ===== verification/SchedulerContract.v ===== *)
(** * The scheduler: what a step of the engine relies on

    [schedule] returns a batch within the limits whose requests own the pages of
    their tokens, and keeps the accounting; it does so whenever each request fits the
    cache alone. [postprocess], [add] and [cancel] keep it too, so it holds in every state a
    run of the engine reaches. *)
From S2P Require Import Prelude Json Qos Sequence Policy KvPolicy RadixCache BlockManager BlockInv BlockSpec BlockAgain SchedulerTrace Scheduler SchedulerInv SchedulerReclaim SchedulerDecode SchedulerPrefill SchedulerLoop.
Set Default Goal Selector "!".
Set Default Proof Using "Type".

Section contract.
Context {R T Pg : Type} `{RestoreService R T Pg} `{Hasher} `{FloatRepr}.
Implicit Types (sc : Scheduler R T) (s : Sequence) (held l sch : list nat) (ps : PrefillState).
Abbreviation bs_of sc := (block_size (block_manager sc)).
Abbreviation max_tokens_of sc := (c_max_num_batched_tokens (cfg sc)).
Abbreviation max_seqs_of sc := (c_max_num_seqs (cfg sc)).

(** Between two steps nothing is scheduled. *)
Definition idle sc : Prop := ∀ i s, i ∈ running sc → objs sc !! i = Some s → num_scheduled_tokens s = 0.

(** The batch [schedule] returns from [sc], leaving [sc']. *)
Record batch_ok sc sc' l (is_prefill : bool) : Prop := {
  ba_nodup : NoDup l;
  ba_nonempty : l ≠ [];
  ba_len : length l <= max_seqs_of sc;
  ba_tokens : nsum (scheduled_at sc' <$> l) <= (if is_prefill then max_tokens_of sc else max_seqs_of sc);
  ba_in i : i ∈ l → i ∈ live [] sc';
  ba_ready i : i ∈ l → ∃ s, objs sc' !! i = Some s ∧
    if is_prefill then prefill_ready (bs_of sc) s else decode_ready (bs_of sc) s ∧ i ∈ running sc';
  ba_rest i s : i ∈ running sc' → i ∉ l → objs sc' !! i = Some s → num_scheduled_tokens s = 0
}.
(** No request disappears and no token changes. *)
Definition conserves sc sc' : Prop := static sc sc' ∧ live [] sc' ≡ₚ live [] sc.
Lemma conserves_trans sc1 sc2 sc3 : conserves sc1 sc2 → conserves sc2 sc3 → conserves sc1 sc3.
Proof. intros [S1 L1] [S2 L2]. split; [by etrans|by rewrite L2]. Qed.
Lemma quiet_conserves sc sc' : quiet sc sc' → conserves sc sc'.
Proof. intros (St & [Qw Qr] & _). split; [done|]. unfold live. by rewrite Qw, Qr. Qed.

(** Enough for [schedule] to find something to run. *)
Definition can_progress sc : Prop :=
  all_fit sc ∧ 0 < max_tokens_of sc ∧ 0 < max_seqs_of sc ∧ live [] sc ≠ [] ∧ max_num_active_seqs sc ≠ Some 0.
Lemma can_progress_still sc sc' : sched_ok [] sc → sched_ok [] sc' → conserves sc sc' → can_progress sc → can_progress sc'.
Proof.
  intros HI HI' [St Hl] (F & M1 & M2 & M3 & M4). pose proof St as (E1 & E2 & _). unfold can_progress. rewrite E1, E2.
  split_and!; [|done|done| |done].
  - intros i Hi. by apply (fit_still sc sc').
  - intros E. rewrite E in Hl. by apply Permutation_nil_l in Hl.
Qed.

Lemma tokens_one sc' l : (∀ i, i ∈ l → scheduled_at sc' i = 1) → nsum (scheduled_at sc' <$> l) = length l.
Proof.
  intros Hone. induction l as [|i l IH]; [done|]. rewrite fmap_cons. change (nsum (?x :: ?y)) with (x + nsum y).
  rewrite IH by (intros j Hj; apply Hone; by right). rewrite (Hone i) by by left. done.
Qed.

Context (append_ok : nat → bool) (clock : nat → Q).

Definition once_post sc (r : option (list nat * bool)) sc' : Prop :=
  sched_ok [] sc' ∧ conserves sc sc' ∧
  match r with
  | Some (l, p) => batch_ok sc sc' l p
  | None => idle sc' ∧ (can_progress sc → running sc' = [] ∧ running sc ≠ [])
  end.

(** The decode half of [_schedule_once]. *)
Lemma quiet_idle sc sc' : idle sc → quiet sc sc' → idle sc'.
Proof. intros Hi (_ & [_ Qr] & Qo & _) i s. rewrite Qr, Qo. apply Hi. Qed.
Lemma decode_half sc now :
  sched_ok [] sc → idle sc →
  wp (sc ← getS;
      '(scheduled, retry) ← decode_loop append_ok clock (S (length (running sc))) [] false now;
      sc ← getS;
      match scheduled with
      | [] =>
          if negb (bool_decide (pending_restores sc = [])) then mret (Some ([] : list nat, true))
          else if (retry : bool) then mret None
          else
            trace_event append_ok clock "no_runnable" [] (Some now) true [];;
            raise (RuntimeError "no runnable request fits in the available KV cache")
      | _ =>
          modifyS (λ sc, sc <| running := scheduled ++ running sc |>);;
          trace_event append_ok clock "schedule_end" scheduled (Some now) false [("phase", JStr "decode")];;
          mret (Some (scheduled, false))
      end)
    (λ r sc', sched_ok [] sc' ∧ conserves sc sc' ∧ match r with
       | Some (l, p) => batch_ok sc sc' l p
       | None => idle sc' ∧ (0 < max_seqs_of sc → running sc' = [] ∧ running sc ≠ [])
       end)
    (λ e sc', e = RuntimeError "no runnable request fits in the available KV cache" ∧ sched_ok [] sc' ∧ conserves sc sc' ∧
       idle sc' ∧ (0 < max_seqs_of sc → running sc = [])) sc.
Proof.
  intros HI Hidle. wp_step. wp_step. wp_step.
  assert (HD : decode_inv [] sc) by (split; [done|by intros ? ? ?%not_elem_of_nil|done|cbn; lia]).
  eapply wp_mono; [eapply (decode_loop_spec append_ok clock); [exact HD|lia]| |by intros ? ? []].
  intros [sch retry] sc1 (HD1 & St1 & Hl1 & _ & _ & Hret & Hend). cbn [fst snd] in *. pose proof (di_ok _ _ HD1) as HI1.
  wp_step. wp_step. destruct sch as [|i0 l0].
  - rewrite (so_pending _ _ HI1). rewrite bool_decide_eq_true_2 by done. cbn [negb]. destruct retry.
    + wp_step. split; [done|]. split; [done|]. split; [exact (di_idle _ _ HD1)|].
      intros Hm. split; [by apply Hend|]. intros Er. by specialize (Hret Er).
    + eapply wp_quiet; [apply trace_spec; [exact HI1|by intros i ?%not_elem_of_nil]|]. intros _ sc2 HI2 Q2.
      wp_step. split; [done|]. split; [done|]. split; [by eapply conserves_trans; [|by apply quiet_conserves]|].
      split; [|intros Hm; by destruct (Hend Hm eq_refl) as [_ [?|?]]].
      apply (quiet_idle sc1); [exact (di_idle _ _ HD1)|done].
  - set (l := i0 :: l0) in *. assert (Hlne : l ≠ []) by done. clearbody l.
    wp_step. wp_step. set (sc2 := sc1 <| running := l ++ running sc1 |>).
    assert (Hready : ∀ i, i ∈ l → ∃ s, objs sc2 !! i = Some s ∧ decode_ready (bs_of sc) s).
    { intros i Hi. destruct (so_obj _ _ HI1 i) as (s & Hs & _); [by apply live_held|]. exists s. split; [done|].
      rewrite <-(quiet_bs _ _ St1). by eapply (di_ready _ _ HD1). }
    assert (HI2 : sched_ok [] sc2).
    { assert (Hm : sched_ok [] (sc1 <| waiting := waiting sc1 |> <| running := l ++ running sc1 |>)); [|by destruct sc1].
      eapply sched_move; [exact HI1|unfold live; solve_Permutation|done|].
      intros i s Hi Hn Hs. apply elem_of_app in Hi as [Hi|Hi]; [|done].
      destruct (Hready i Hi) as (s' & Hs' & (D1 & D2 & _ & D3 & D4)). change (objs sc1 !! i = Some s') in Hs'. assert (s' = s) as -> by congruence. split; [done|].
      rewrite D2. split; [exact D3|]. destruct D4 as [D4 D5]. split; [|exact D5]. intros Hk. rewrite D2, D3, pages_of_tokens, (quiet_bs _ _ St1). by apply D4. }
    assert (HC2 : conserves sc sc2).
    { split; [exact St1|]. rewrite <-Hl1. unfold live. cbn. solve_Permutation. }
    eapply wp_quiet; [apply trace_spec; [exact HI2|]|].
    { intros i Hi. apply live_running. cbn. apply elem_of_app. by left. }
    intros _ sc3 HI3 Q3. pose proof (conserves_trans _ _ _ HC2 (quiet_conserves _ _ Q3)) as HC3.
    wp_step. split; [done|]. split; [done|]. pose proof Q3 as (_ & [Qw Qr] & Qo & _).
    pose proof (so_nodup _ _ HI1) as Hnd. unfold live in Hnd. apply NoDup_app in Hnd as (Hnd & _ & _).
    pose proof (di_len _ _ HD1) as Hlen. destruct St1 as (Ecfg & _). rewrite Ecfg in Hlen. split; try done.
    + rewrite tokens_one; [done|]. intros i Hi. unfold scheduled_at. rewrite Qo. destruct (Hready i Hi) as (s & -> & _ & E & _). done.
    + intros i Hi. apply live_running. rewrite Qr. cbn. apply elem_of_app. by left.
    + intros i Hi. rewrite Qo, Qr. destruct (Hready i Hi) as (s & Hs & Hr). exists s. split_and!; [done|done|].
      cbn. apply elem_of_app. by left.
    + intros i s Hi Hn. rewrite Qr in Hi. rewrite Qo. apply elem_of_app in Hi as [Hi|Hi]; [done|]. by apply (di_idle _ _ HD1 i s).
Qed.

Lemma schedule_once_spec sc :
  sched_ok [] sc → idle sc →
  wp (schedule_once append_ok clock) (once_post sc)
    (λ e sc', e = RuntimeError "no runnable request fits in the available KV cache" ∧ sched_ok [] sc' ∧ conserves sc sc' ∧
       idle sc' ∧ ¬ can_progress sc) sc.
Proof.
  intros HI Hidle. unfold schedule_once. wp_step. wp_step. set (sc1 := sc <| step_id := S (step_id sc) |>).
  assert (HI1 : sched_ok [] sc1) by (eapply sched_same; [exact HI|done..|apply (so_trace _ _ HI)]).
  assert (Q1 : quiet sc sc1) by (split; [by split_and!|done]). clearbody sc1.
  wp_step. eapply wp_mono; [by apply (read_clock_spec clock [] sc1)| |by intros ? ? []]. intros now sc2 (HI2 & Q2).
  pose proof (quiet_trans _ _ _ Q1 Q2) as Q12. wp_step. wp_step.
  destruct (should_prefill_run [] sc2 (waiting sc2) now HI2) as (b & Hb & _ & Hbi); [by intros j; apply live_waiting|].
  wp_step. eapply wp_of_run; [exact Hb|].
  wp_step. eapply wp_mono; [apply trace_spec; [exact HI2|by intros i ?%not_elem_of_nil]| |by intros ? ? []].
  intros _ sc3 [HI3 Q3]. pose proof (quiet_trans _ _ _ Q12 Q3) as Q13. pose proof Q13 as (St3 & [Qw3 Qr3] & Qo3 & _).
  pose proof (quiet_conserves _ _ Q13) as HC3. assert (Hidle3 : idle sc3) by (intros i s; rewrite Qr3, Qo3; apply Hidle).
  assert (Ecfg : cfg sc2 = cfg sc3) by (destruct Q3 as ((-> & _) & _); done).
  set (Mid := λ sch sc4, (∃ batched, prefill_inv sc3 sch batched sc4) ∧ (can_progress sc3 → running sc3 = [] → sch ≠ [])).
  wp_step. apply (wp_mono _ Mid _ noexn); [|intros sch sc4 [[batched HP] Hlive]|by intros ? ? []].
  { destruct b.
    - eapply wp_mono; [apply (prefill_loop_spec append_ok clock (prefill_fuel sc2) sc3 now HI3)| |done].
      + by apply prefill_inv_start.
      + unfold mu, prefill_fuel. cbn [ps_deferred ps_progress_only ps_batched]. rewrite size_empty, Ecfg. destruct Q3 as (_ & [-> _] & _). destruct (_ <? _); lia.
      + intros sch sc4 (Hex & _ & Hl). split; [done|]. intros (F & M1 & M2 & M3 & M4) Er. by apply Hl.
    - wp_step. split; [exists 0; by apply prefill_inv_start|]. intros (F & M1 & M2 & M3 & M4) Er. exfalso.
      destruct Q3 as (_ & [E1 E2] & _). apply M3. unfold live. rewrite Er, app_nil_r. cbn [app]. apply dec_stable. intros Hne.
      rewrite E1 in Hne. rewrite E2 in Er. by discriminate (Hbi Er Hne). }
  pose proof (pi_ok _ _ _ _ HP) as HI4.
  assert (HC34 : conserves sc3 sc4) by (split; [apply (pi_static _ _ _ _ HP)|apply (pi_live _ _ _ _ HP)]).
  pose proof (conserves_trans _ _ _ HC3 HC34) as HC4.
  destruct sch as [|i0 l0].
  - assert (Hidle4 : idle sc4).
    { intros i s Hi Hs. destruct (pi_old _ _ _ _ HP i Hi) as [Hx|[Hi3 Ho]]; [by apply not_elem_of_nil in Hx|]. rewrite Ho in Hs. exact (Hidle3 i s Hi3 Hs). }
    assert (Hprog : can_progress sc → can_progress sc4 ∧ running sc ≠ [] ∧ running sc4 ≠ []).
    { intros Hp. assert (Hp3 : can_progress sc3) by by apply (can_progress_still sc sc3).
      split; [by apply (can_progress_still sc sc4)|]. rewrite <-Qr3. destruct (running sc3) as [|j l] eqn:Er; [by destruct (Hlive Hp3 eq_refl)|].
      split; [done|]. intros Er4. assert (Hj : j ∈ running sc4) by (apply (pi_keep _ _ _ _ HP); rewrite Er; by left).
      rewrite Er4 in Hj. by apply not_elem_of_nil in Hj. }
    eapply wp_mono; [apply (decode_half sc4 now HI4 Hidle4)| |].
    + intros r sc5 (HI5 & HC5 & Hr). pose proof (conserves_trans _ _ _ HC4 HC5) as HC. split; [done|]. split; [done|].
      destruct HC4 as [St4 _]. pose proof (quiet_bs _ _ St4) as Eb. pose proof St4 as (Ec & _). destruct r as [[l p]|].
      * destruct Hr. rewrite Ec in *. rewrite Eb in *. by split.
      * destruct Hr as [Hr1 Hr2]. split; [done|]. intros Hp. destruct (Hprog Hp) as (_ & ? & _). split; [|done].
        apply Hr2. rewrite Ec. by destruct Hp as (_ & _ & ? & _).
    + intros e sc5 (-> & HI5 & HC5 & Hi5 & Hr). split; [done|]. split; [done|]. split; [by eapply conserves_trans|]. split; [done|].
      intros Hp. destruct (Hprog Hp) as ((_ & _ & Hm & _) & _ & Hne). by apply Hne, Hr.
  - set (l := i0 :: l0) in *. assert (Hlne : l ≠ []) by done. clearbody l.
    assert (Hin : ∀ i, i ∈ l → i ∈ live [] sc4) by (intros i Hi; by apply (pi_ready _ _ _ _ HP)).
    wp_step. eapply wp_mono; [apply trace_spec; [exact HI4|exact Hin]| |by intros ? ? []].
    intros _ sc5 [HI5 Q5]. pose proof Q5 as (St5 & [Qw5 Qr5] & Qo5 & _). wp_step.
    split; [done|]. split; [by eapply conserves_trans; [|by apply quiet_conserves]|].
    pose proof (pi_sum _ _ _ _ HP) as Hsum. pose proof (pi_max _ _ _ _ HP) as Hmax. pose proof (pi_len _ _ _ _ HP) as Hlen.
    destruct St3 as (Ec & _). rewrite Ec in Hmax, Hlen. split; try done.
    + apply (pi_nodup _ _ _ _ HP).
    + unfold scheduled_at in *. rewrite Qo5. lia.
    + intros i Hi. unfold live. rewrite Qw5, Qr5. by apply Hin.
    + intros i Hi. destruct (pi_ready _ _ _ _ HP i Hi) as (_ & s & Hs & Hr). exists s. rewrite Qo5. split; [done|].
      rewrite (quiet_bs _ _ (proj1 Q13)) in Hr. done.
    + intros i s Hi Hn Hs. rewrite Qr5 in Hi. rewrite Qo5 in Hs. destruct (pi_old _ _ _ _ HP i Hi) as [?|[Hi3 Ho]]; [done|].
      rewrite Ho in Hs. exact (Hidle3 i s Hi3 Hs).
Qed.

(** ** [schedule] *)
Lemma batch_ok_from sc sc1 sc' l p : conserves sc sc1 → batch_ok sc1 sc' l p → batch_ok sc sc' l p.
Proof. intros [St _] []. pose proof (quiet_bs _ _ St) as Eb. destruct St as (Ec & _). rewrite Ec in *. rewrite Eb in *. by split. Qed.

Definition schedule_error (e : exn) : Prop :=
  e = RuntimeError "no runnable request fits in the available KV cache" ∨
  e = RuntimeError "scheduler retry failed to make progress".

Lemma schedule_spec sc :
  sched_ok [] sc → idle sc →
  wp (schedule append_ok clock) (λ r sc', sched_ok [] sc' ∧ conserves sc sc' ∧ batch_ok sc sc' (r.1) (r.2))
    (λ e sc', schedule_error e ∧ sched_ok [] sc' ∧ conserves sc sc' ∧ idle sc' ∧ ¬ can_progress sc) sc.
Proof.
  intros HI Hidle. unfold schedule. wp_step. eapply wp_mono; [by apply schedule_once_spec| |].
  2:{ intros e sc1 (-> & HI1 & HC & Hid & Hn). split; [by left|done]. }
  intros r sc1 (HI1 & HC1 & Hr). destruct r as [[l p]|].
  { wp_step. wp_step. cbn beta iota. wp_step. done. }
  destruct Hr as [Hidle1 Hprog]. wp_step. eapply wp_mono; [by apply (schedule_once_spec sc1)| |].
  2:{ intros e sc2 (-> & HI2 & HC & Hid & Hn). split; [by left|]. split; [done|]. split; [by eapply conserves_trans|]. split; [done|].
      intros Hp. apply Hn. by apply (can_progress_still sc sc1). }
  intros r sc2 (HI2 & HC2 & Hr). destruct r as [[l p]|].
  - wp_step. split; [done|]. split; [by eapply conserves_trans|]. by eapply batch_ok_from.
  - destruct Hr as [Hid Hr]. wp_step. split; [by right|]. split; [done|]. split; [by eapply conserves_trans|]. split; [done|].
    intros Hp. destruct (Hprog Hp) as [Er _]. by destruct (Hr (can_progress_still sc sc1 HI HI1 HC1 Hp)) as [_ Hne].
Qed.

(** C3: c3: [schedule] keeps the accounting of every page and request. When it returns, the
    batch has no duplicates, respects the limits on requests and tokens, and every
    request of it owns pages for the tokens it computes; otherwise it raises one of its
    two [RuntimeError]s, never running out of the loops' bounds. *)
Theorem schedule_safe sc :
  sched_ok [] sc → idle sc →
  wp (schedule append_ok clock) (λ r sc', sched_ok [] sc' ∧ conserves sc sc' ∧ batch_ok sc sc' (r.1) (r.2))
    (λ e sc', schedule_error e ∧ sched_ok [] sc' ∧ conserves sc sc' ∧ idle sc') sc.
Proof.
  intros HI Hidle. eapply wp_mono; [by apply schedule_spec|done|]. by intros e sc' (? & ? & ? & ? & _).
Qed.

(** C4: progress: when some request is known, every request fits the empty cache, and the
    limits are positive, [schedule] returns a batch: a stuck cache is always freed by preempting and
    reclaiming. *)
Theorem schedule_progress sc :
  sched_ok [] sc → idle sc → can_progress sc →
  ∃ l p sc', schedule append_ok clock sc = (inr (l, p), sc') ∧ l ≠ [] ∧ batch_ok sc sc' l p.
Proof.
  intros HI Hidle Hp. pose proof (schedule_spec sc HI Hidle) as Hw. unfold wp in Hw.
  destruct (schedule append_ok clock sc) as [[e|[l p]] sc']; [by destruct Hw as (_ & _ & _ & _ & ?)|].
  destruct Hw as (_ & _ & Hb). exists l, p, sc'. split_and!; [done|apply (ba_nonempty _ _ _ _ Hb)|done].
Qed.
End contract.
