(* ===== verification/SchedulerStep.v ===== *)
(** * The scheduler: a run of the engine

    [postprocess] after a batch, [add] and [cancel] between batches, and the states a run
    reaches. With the hash backend the accounting holds in all of them. *)
From S2P Require Import Prelude Json Qos Sequence Policy KvPolicy RadixCache BlockManager BlockInv BlockSpec BlockAgain SchedulerTrace Scheduler SchedulerInv SchedulerReclaim SchedulerDecode SchedulerPrefill SchedulerLoop SchedulerContract.
Set Default Goal Selector "!".
Set Default Proof Using "Type".

(** What [postprocess] needs of a scheduled request. *)
Definition computed (bs : nat) (is_prefill : bool) (s : Sequence) : Prop :=
  0 < num_scheduled_tokens s ∧ num_cached_tokens s + num_scheduled_tokens s <= num_tokens s ∧
  (kv_compressed s = false → num_cached_tokens s + num_scheduled_tokens s <= length (block_table s) * bs) ∧
  (num_cached_tokens s + num_scheduled_tokens s = num_tokens s → status s = RUNNING) ∧
  (is_prefill = false → num_cached_tokens s + num_scheduled_tokens s = num_tokens s) ∧
  (kv_compressed s = false → length (block_table s) = num_blocks bs s) ∧ block_table s ≠ [].
Lemma prefill_computed bs s : 0 < bs → prefill_ready bs s → computed bs true s.
Proof.
  intros Hbs (P1 & P2 & P3 & P4 & P5 & P6). split_and!; [done|done| |apply P6|done|done|].
  - intros _. rewrite P5. pose proof (num_blocks_covers bs s Hbs). lia.
  - intros Ht. pose proof (num_blocks_covers bs s Hbs). rewrite Ht in P5. cbn in P5. rewrite <-P5 in *. lia.
Qed.
Lemma decode_computed bs s : 0 < bs → decode_ready bs s → computed bs false s.
Proof.
  intros Hbs (D1 & D2 & D3 & D4 & D5 & D6). rewrite <-D2 in D4. split_and!; [lia|lia| |done|done|done|done].
  intros Hc. rewrite D4, (D5 Hc). by apply num_blocks_covers.
Qed.

Definition incomplete (p : bool) (s : Sequence) : bool :=
  p && (num_cached_tokens s + num_scheduled_tokens s <? num_tokens s).
(** The request ends with the token [tok]. *)
Definition ends (c : SchedulerConfig) (tok : Z) (s : Sequence) : bool :=
  (negb (ignore_eos s) && (tok =? c_eos c)%Z) || (S (num_tokens s) - num_prompt_tokens s =? max_tokens s).

(** A request with a zero limit on its tokens is never ended by it: the count is compared after the first
    token was appended. *)
Theorem zero_max_tokens_never_ends c tok s :
  max_tokens s = 0 → ignore_eos s = true → num_prompt_tokens s <= num_tokens s → ends c tok s = false.
Proof. intros E Hi Hp. unfold ends. rewrite E, Hi. cbn [negb andb orb]. apply Nat.eqb_neq. lia. Qed.

(** The object once its computed tokens are counted. *)
Lemma advanced bs i s s1 :
  request_ok bs i s → num_cached_tokens s1 = num_cached_tokens s + num_scheduled_tokens s →
  num_physical_cached_tokens s1 = num_physical_cached_tokens s + num_scheduled_tokens s →
  seq_id s1 = seq_id s → arrival_time s1 = arrival_time s → num_tokens s1 = length (token_ids s1) →
  kv_compressed s1 = kv_compressed s → block_table s1 = block_table s →
  num_cached_tokens s1 < num_tokens s1 → (kv_compressed s = false → num_cached_tokens s1 <= length (block_table s) * bs) →
  last (token_ids s1) = Some (last_token s1) → num_prompt_tokens s1 <= num_tokens s1 → request_ok bs i s1.
Proof.
  intros [Q1 Q2 Q3 Q4 Q5 Q6 Q7 Q8] E1 E2 E3 E4 E5 E6 E7 E8 E9 E10 E11. split; [congruence|unfold arrived; by rewrite E4|done|done| |lia|done|done].
  rewrite E6. intros Hc. destruct (Q5 Hc). rewrite E7. split; [lia|by apply E9].
Qed.

Section run.
Context {R T Pg : Type} `{RestoreService R T Pg} `{Hasher} `{FloatRepr}.
Implicit Types (sc : Scheduler R T) (s : Sequence) (held l sch : list nat).
Abbreviation bs_of sc := (block_size (block_manager sc)).
Abbreviation MS := (M (Scheduler R T)).

(** A request without pages leaves. *)
Lemma drop_held held sc i : sched_ok (i :: held) sc → table sc i = [] → sched_ok held sc.
Proof.
  intros [I1 I2 I3 I4 I4' I5 I6 I7 I8 I9 I10 I11] Ht. change (live (i :: held) sc) with (i :: live held sc) in *.
  split; try done.
  - unfold owned in I1. rewrite fmap_cons, Ht in I1. exact I1.
  - by apply NoDup_cons in I2 as [_ ?].
  - intros j Hj. apply I3. by right.
Qed.
(** A request without pages enters. *)
Lemma hold_new held sc i s :
  sched_ok held sc → i ∉ live held sc → request_ok (bs_of sc) i s → block_table s = [] →
  sched_ok (i :: held) (sc <| objs := <[i := s]> (objs sc) |>).
Proof.
  intros [I1 I2 I3 I4 I4' I5 I6 I7 I8 I9 I10 I11] Hi Hok Ht. set (sc' := sc <| objs := _ |>).
  assert (Hlive : live (i :: held) sc' = i :: live held sc) by done.
  assert (Hat : objs sc' !! i = Some s) by apply lookup_insert_eq.
  assert (Hne : ∀ j, j ≠ i → objs sc' !! j = objs sc !! j) by (intros j Hj; by apply lookup_insert_ne).
  split; try done.
  - rewrite Hlive. unfold owned. rewrite fmap_cons. unfold table at 1. rewrite Hat, Ht. cbn [concat app].
    fold (owned sc' (live held sc)). by rewrite (owned_insert sc sc' i s).
  - rewrite Hlive. by constructor.
  - intros j Hj. destruct (decide (j = i)) as [->|Hji]; [by eauto|]. rewrite Hne by done. apply I3.
    rewrite Hlive in Hj. by apply elem_of_cons in Hj as [?|?].
  - intros j sj Hj Hsj. rewrite Hne in Hsj; [by eapply I4|]. intros ->. apply Hi. by apply live_waiting.
  - intros j sj Hj Hsj. rewrite Hne in Hsj; [by eapply I4'|]. intros ->. apply Hi. by apply live_running.
Qed.

(** [hash_blocks] for a computed request. *)
Lemma hash_computed own s bm p :
  bm_inv (block_table s ++ own) bm → prefix_cache_backend bm = HashBackend → 0 < block_size bm →
  computed (block_size bm) p s →
  wp (hash_blocks s) (λ _ bm', bm_inv (block_table s ++ own) bm' ∧ bm_static bm bm') noexn bm.
Proof.
  intros HI Hb Hbs (_ & C1 & C2 & _). destruct (kv_compressed s) eqn:Ec.
  { unfold hash_blocks. rewrite Ec. wp_step. split; [done|reflexivity]. }
  specialize (C2 eq_refl).
  eapply wp_mono; [apply (hash_blocks_spec own s bm HI)| |done].
  - apply Nat.Div0.div_le_mono. lia.
  - transitivity (length (block_table s) * block_size bm / block_size bm); [by apply Nat.Div0.div_le_mono|].
    by rewrite Nat.div_mul by lia.
  - apply blocks_cover; [done|]. pose proof (Nat.Div0.mul_div_le (num_cached_tokens s + num_scheduled_tokens s) (block_size bm)). lia.
  - by rewrite Hb.
  - intros _ bm' [HI' (HF & _)]. split; [done|by apply frame_static].
Qed.

Lemma wp_on_bm_focus {A} bm i s sc (m : MB A) (Q : A → Scheduler R T → Prop) E :
  wp m (λ a bm', Q a (with_request bm' i s sc)) (λ e bm', E e (with_request bm' i s sc)) bm →
  wp (on_bm m) Q E (with_request bm i s sc).
Proof. intros Hm. apply wp_on_bm. exact Hm. Qed.

(** What becomes of request [i] of the batch. *)
Definition post_outcome p sc (i : nat) (tok : Z) sc' : Prop :=
  ∃ s s', objs sc !! i = Some s ∧ objs sc' !! i = Some s' ∧ num_scheduled_tokens s' = 0 ∧
    (seq_id s' = i ∧ num_prompt_tokens s' = num_prompt_tokens s ∧ num_tokens s' = length (token_ids s')) ∧
    if incomplete p s then token_ids s' = token_ids s ∧ status s' = WAITING ∧ i ∈ waiting sc'
    else token_ids s' = token_ids s ++ [tok] ∧
      if ends (cfg sc) tok s
      then status s' = FINISHED ∧ block_table s' = [] ∧ i ∉ live [] sc' ∧ is_Some (metrics_by_seq_id sc' !! i)
      else status s' = RUNNING ∧ i ∈ running sc'.
(** Everybody else is as before. *)
Definition spares (i : nat) sc sc' : Prop :=
  cfg sc' = cfg sc ∧ bm_static (block_manager sc) (block_manager sc') ∧
  ∀ j, j ≠ i → objs sc' !! j = objs sc !! j ∧ (j ∈ waiting sc' ↔ j ∈ waiting sc) ∧ (j ∈ running sc' ↔ j ∈ running sc) ∧
    metrics_by_seq_id sc' !! j = metrics_by_seq_id sc !! j.

Lemma with_request_spares bm i s sc : bm_static (block_manager sc) bm → spares i sc (with_request bm i s sc).
Proof. intros Hb. split; [done|]. split; [done|]. intros j Hj. by rewrite with_request_ne. Qed.

Context (append_ok : nat → bool) (clock : nat → Q).

(** The request leaves with its metrics. *)
Lemma finish_request sc i s bm now :
  sched_ok [] sc → i ∈ running sc → sched_ok [] (with_request bm i s sc) →
  bm_static (block_manager sc) bm → arrived s → is_Some (first_token_time s) → seq_id s = i →
  wp (update_seq i (λ s, s <| status := FINISHED |>);;
      update_seq i (mark_finished now);;
      on_bms i deallocate;;
      remove_running i;;
      s ← get_seq i;
      metrics ← lift (seq_metrics s);
      modifyS (λ sc, sc <| completed_metrics := completed_metrics sc ++ [metrics] |>);;
      modifyS (λ sc, sc <| metrics_by_seq_id := <[seq_id s := metrics]> (metrics_by_seq_id sc) |>);;
      trace_event append_ok clock "finished" [i] (Some now) false [])
    (λ _ sc', sched_ok [] sc' ∧ spares i sc sc' ∧ ∃ s', objs sc' !! i = Some s' ∧ num_scheduled_tokens s' = num_scheduled_tokens s ∧
       (seq_id s' = i ∧ num_prompt_tokens s' = num_prompt_tokens s ∧ num_tokens s' = num_tokens s) ∧
       token_ids s' = token_ids s ∧ status s' = FINISHED ∧ block_table s' = [] ∧ i ∉ live [] sc' ∧
       is_Some (metrics_by_seq_id sc' !! i)) noexn (with_request bm i s sc).
Proof.
  intros HI Hi HIs HSb [a Ha] [f Hf] Hid.
  destruct (remove_first_perm i (running sc) Hi) as (l & Hl & Hp & Hsub).
  (* the state with the request taken out of the queue *)
  set (sc1 := with_request bm i s sc <| waiting := waiting sc |> <| running := l |>).
  assert (HI1 : sched_ok [i] sc1).
  { eapply sched_move; [exact HIs| |done|]; [unfold live; cbn; rewrite <-Hp; solve_Permutation|]. intros j sj Hj Hn. by apply Hsub in Hj. }
  assert (Hs1 : objs sc1 !! i = Some s) by apply with_request_at.
  destruct (sched_focus _ _ i HI1) as (s0 & own & Hs0 & Hok & HB & Hback); [by apply live_held; left|].
  assert (s0 = s) as -> by congruence. destruct (held_not_queued _ _ i HI1) as [Hnw Hnr]; [by left|].
  wp_step. apply wp_update_focus. wp_step. apply wp_update_focus. set (s2 := mark_finished now _).
  wp_step. apply wp_on_bms_focus. change (block_manager sc1) with bm in *.
  eapply wp_mono; [apply (deallocate_spec own s2 bm HB)| |done].
  intros _ [bm3 s3] (Hs3 & HB3 & HS3 & _). cbn [fst snd] in *.
  assert (HI3 : sched_ok [i] (with_request bm3 i s3 sc1)).
  { subst s3. apply Hback; [done|done| |by intros ?|by intros ?]. destruct Hok. split; cbn; try done; lia. }
  assert (Hs3' : arrival_time s3 = Some a ∧ first_token_time s3 = Some f ∧ finished_time s3 = Some now ∧ seq_id s3 = i ∧
    num_scheduled_tokens s3 = num_scheduled_tokens s ∧ token_ids s3 = token_ids s ∧ status s3 = FINISHED ∧ block_table s3 = [] ∧
    num_prompt_tokens s3 = num_prompt_tokens s ∧ num_tokens s3 = num_tokens s).
  { subst s3. by split_and!. }
  clearbody s2. clear Hs3. destruct Hs3' as (T1 & T2 & T3 & T4 & T5 & T6 & T7 & T8 & T9 & T10).
  wp_step. unfold remove_running. wp_step. wp_step. wp_step.
  change (running (with_request bm3 i s3 sc)) with (running sc). rewrite Hl. cbn [of_option]. wp_step. wp_step.
  wp_step. eapply wp_get_seq; [apply lookup_insert_eq|]. wp_step. apply wp_lift; [|intros e; unfold seq_metrics; by rewrite T1, T2, T3].
  intros m _. wp_step. wp_step. wp_step. wp_step. rewrite T4.
  match goal with |- wp _ _ _ ?x => set (sc4 := x) end.
  assert (Ho4 : objs sc4 = <[i := s3]> (objs sc)) by done.
  assert (HI4 : sched_ok [i] sc4).
  { eapply sched_same; [exact HI3|done|done| |done|done|done|apply (so_trace _ _ HI)]. rewrite Ho4.
    change (objs (with_request bm3 i s3 sc1)) with (<[i := s3]> (<[i := s]> (objs sc))). by rewrite insert_insert_eq. }
  assert (Hq4 : waiting sc4 = waiting sc ∧ running sc4 = l ∧ cfg sc4 = cfg sc ∧ block_manager sc4 = bm3 ∧
    metrics_by_seq_id sc4 = <[i := m]> (metrics_by_seq_id sc)) by by split_and!.
  assert (Hst : bm_static (block_manager sc) bm3) by by etrans.
  clearbody sc4. destruct Hq4 as (Qw & Qr & Qc & Qb & Qm).
  eapply wp_mono; [apply (trace_meta append_ok clock [i] sc4); [exact HI4|by intros j Hj%list_elem_of_singleton; subst; apply live_held; left]| |done].
  intros _ sc5 (HI5 & Q5 & Qm5). pose proof Q5 as ((Qc5 & _) & [Qw5 Qr5] & Qo5 & Qb5).
  assert (Hs5 : objs sc5 !! i = Some s3) by (rewrite Qo5, Ho4; apply lookup_insert_eq).
  split; [apply (drop_held [] sc5 i HI5); by rewrite (table_at _ _ _ Hs5)|]. split.
  - split; [congruence|]. split; [by rewrite Qb5, Qb|]. intros j Hj. rewrite Qo5, Ho4, Qw5, Qw, Qr5, Qr, Qm5, Qm.
    rewrite !lookup_insert_ne by done. split_and!; [done|done| |done]. rewrite <-Hp, elem_of_cons. split; [by right|]. by intros [?|?].
  - exists s3. split_and!; try done.
    + destruct (held_not_queued _ _ i HI5) as [? ?]; [by left|]. unfold live. cbn [app]. by intros [?|?]%elem_of_app.
    + rewrite Qm5, Qm, lookup_insert_eq. by eexists.
Qed.

Lemma postprocess_one_spec sc p i tok now s :
  sched_ok [] sc → prefix_cache_backend (block_manager sc) = HashBackend → i ∈ live [] sc → objs sc !! i = Some s →
  computed (bs_of sc) p s →
  wp (postprocess_one append_ok clock now p i tok) (λ _ sc', sched_ok [] sc' ∧ spares i sc sc' ∧ post_outcome p sc i tok sc') noexn sc.
Proof.
  intros HI Hback Hi Hs HC. destruct (sched_focus _ _ i HI Hi) as (s' & own & Hs' & Hok & HB & Hfocus).
  assert (s' = s) as -> by congruence. pose proof (so_bs_pos _ _ HI) as Hbs.
  unfold postprocess_one. wp_step. eapply wp_get_seq; [exact Hs|]. wp_step. eapply wp_focus; [exact Hs|].
  apply wp_on_bm_focus. eapply wp_mono; [apply (hash_computed own s _ p HB Hback); [lia|done]| |done].
  intros _ bm1 [HB1 HS1]. wp_step.
  (* the counters *)
  set (Mid := λ (_ : ()) sc', ∃ s1, sc' = with_request bm1 i s1 sc ∧ s1 = (if p then record_recomputed_tokens (num_scheduled_tokens s) s else s)).
  apply (wp_mono _ Mid _ noexn); [|intros _ sc1 (s1 & -> & Es1)|done].
  { destruct p; [apply wp_update_focus|wp_step]; by eexists. }
  assert (HF : num_cached_tokens s1 = num_cached_tokens s ∧ num_physical_cached_tokens s1 = num_physical_cached_tokens s ∧
    num_scheduled_tokens s1 = num_scheduled_tokens s ∧ seq_id s1 = seq_id s ∧ arrival_time s1 = arrival_time s ∧
    num_tokens s1 = num_tokens s ∧ token_ids s1 = token_ids s ∧ kv_compressed s1 = kv_compressed s ∧
    block_table s1 = block_table s ∧ status s1 = status s ∧ is_prefill s1 = is_prefill s ∧ ignore_eos s1 = ignore_eos s ∧
    max_tokens s1 = max_tokens s ∧ num_prompt_tokens s1 = num_prompt_tokens s ∧ last_token s1 = last_token s) by (subst s1; by destruct p).
  clear Es1. do 3 (wp_step; apply wp_update_focus). wp_step. apply wp_read_focus. cbv beta.
  match goal with |- wp _ _ _ (with_request _ _ ?x _) => set (s2 := x) end.
  assert (HG : num_cached_tokens s2 = num_cached_tokens s + num_scheduled_tokens s ∧
    num_physical_cached_tokens s2 = num_physical_cached_tokens s + num_scheduled_tokens s ∧ num_scheduled_tokens s2 = 0 ∧
    seq_id s2 = seq_id s ∧ arrival_time s2 = arrival_time s ∧ num_tokens s2 = num_tokens s ∧ token_ids s2 = token_ids s ∧
    kv_compressed s2 = kv_compressed s ∧ block_table s2 = block_table s ∧ status s2 = status s ∧ is_prefill s2 = is_prefill s ∧
    ignore_eos s2 = ignore_eos s ∧ max_tokens s2 = max_tokens s ∧ num_prompt_tokens s2 = num_prompt_tokens s ∧ last_token s2 = last_token s).
  { destruct HF as (F1 & F2 & F3 & F4 & F5 & F6 & F7 & F8 & F9 & F10 & F11 & F12 & F13 & F14 & F15). split_and!; cbn; congruence. }
  clearbody s2. clear HF s1. destruct HG as (G1 & G2 & G3 & G4 & G5 & G6 & G7 & G8 & G9 & G10 & G11 & G12 & G13 & G14 & G15).
  pose proof (rq_last _ _ _ Hok) as Hlast.
  destruct HC as (C0 & C1 & C2 & C3 & C4 & C5 & C6). pose proof (rq_tokens _ _ _ Hok) as Htok.
  assert (Hinc : p && (num_cached_tokens s2 <? num_tokens s2) = incomplete p s) by (unfold incomplete; by rewrite G1, G6).
  rewrite Hinc. wp_if Einc.
  - (* a chunk of the prompt *)
    wp_step. pose proof Einc as Einc'. unfold incomplete in Einc. breflect.
    assert (Hw : i ∈ waiting sc ∧ i ∉ running sc).
    { assert (Hnr : i ∉ running sc) by (intros Hr; destruct (so_run _ _ HI i s Hr Hs) as [_ ?]; lia).
      split; [|done]. unfold live in Hi. cbn [app] in Hi. by apply elem_of_app in Hi as [?|?]. }
    destruct Hw as [Hw Hnr]. destruct (so_wait _ _ HI i s Hw Hs) as ([W0 W0'] & W1 & W2). split_and!.
    + apply Hfocus; [by rewrite G9|done| | |by intros ?].
      * eapply advanced; [exact Hok|done..|congruence|done|done|lia| |by rewrite G7, G15|rewrite G14, G6; apply Hok]. intros Hc. rewrite G1. by apply C2.
      * intros _. split_and!; [congruence..|]. unfold num_blocks in *. by rewrite G9, G6.
    + by apply with_request_spares.
    + exists s, s2. rewrite with_request_at, Einc'. pose proof (rq_id _ _ _ Hok). split_and!; try done; congruence.
  - (* the token is sampled *)
    assert (Hfull : num_cached_tokens s + num_scheduled_tokens s = num_tokens s).
    { destruct p; [|by apply C4]. cbn [incomplete andb] in Einc. unfold incomplete in Einc. cbn [andb] in Einc. breflect. lia. }
    specialize (C3 Hfull). assert (Hr : i ∈ running sc ∧ i ∉ waiting sc).
    { assert (Hnw : i ∉ waiting sc) by (intros Hw; destruct (so_wait _ _ HI i s Hw Hs) as ([W _] & _); congruence).
      split; [|done]. unfold live in Hi. cbn [app] in Hi. by apply elem_of_app in Hi as [?|?]. }
    destruct Hr as [Hr Hnw]. wp_step. apply wp_update_focus. set (s3 := append_token tok (Some now) now s2).
    assert (HF : num_cached_tokens s3 = num_cached_tokens s2 ∧ num_physical_cached_tokens s3 = num_physical_cached_tokens s2 ∧
      num_scheduled_tokens s3 = 0 ∧ seq_id s3 = seq_id s ∧ arrival_time s3 = arrival_time s ∧ num_tokens s3 = num_tokens s + 1 ∧
      token_ids s3 = token_ids s ++ [tok] ∧ kv_compressed s3 = kv_compressed s ∧ block_table s3 = block_table s ∧
      status s3 = RUNNING ∧ ignore_eos s3 = ignore_eos s ∧ max_tokens s3 = max_tokens s ∧ num_prompt_tokens s3 = num_prompt_tokens s ∧
      is_Some (first_token_time s3) ∧ last_token s3 = tok).
    { unfold s3, append_token. cbn [first_token_time setter set_token_ids set_last_token set_num_tokens].
      rewrite <-C3, <-G10, <-G3, <-G4, <-G5, <-G6, <-G7, <-G8, <-G9, <-G12, <-G13, <-G14.
      destruct (first_token_time s2) eqn:Ef; cbn; rewrite ?Ef; by split_and!. }
    clearbody s3. destruct HF as (F1 & F2 & F3 & F4 & F5 & F6 & F7 & F8 & F9 & F10 & F11 & F12 & F13 & F14 & F15).
    assert (Hok3 : request_ok (bs_of sc) i s3).
    { eapply advanced; [exact Hok|congruence|congruence|done|done| |done|done|lia|intros Hc; rewrite F1, G1; by apply C2| |].
      - rewrite F6, F7, length_app, Htok. done.
      - by rewrite F7, F15, last_snoc.
      - rewrite F6, F13. pose proof (rq_prompt _ _ _ Hok). lia. }
    assert (HI3 : sched_ok [] (with_request bm1 i s3 sc)).
    { apply Hfocus; [by rewrite F9|done|done|by intros ?|]. intros _. split; [done|]. rewrite F3. split; [lia|].
      split; [|by rewrite F9]. intros Hc. rewrite F9, F1, F3, G1, Nat.add_0_r, Hfull, pages_of_tokens. apply C5. congruence. }
    wp_step. apply wp_read_focus. wp_step. wp_step.
    assert (Hends : (negb (ignore_eos s3) && (tok =? c_eos (cfg (with_request bm1 i s3 sc)))%Z) || (num_completion_tokens s3 =? max_tokens s3) = ends (cfg sc) tok s).
    { unfold ends, num_completion_tokens. rewrite F11, F6, F12, F13, Nat.add_1_r. done. }
    rewrite Hends. wp_if Eend.
    + eapply wp_mono; [apply (finish_request sc i s3 bm1 now); try done| |done].
      * unfold arrived. rewrite F5. apply (rq_arrived _ _ _ Hok).
      * rewrite F4. apply (rq_id _ _ _ Hok).
      * intros _ sc4 (HI4 & HS4 & s4 & Hs4 & E1 & (E7 & E8 & E9) & E2 & E3 & E4 & E5 & E6). split; [done|]. split; [done|].
        exists s, s4. rewrite Einc, Eend, E9, E2, F7, E8. split_and!; try done; [congruence|rewrite F6, length_app; cbn; lia].
    + wp_step. split; [done|]. split; [by apply with_request_spares|]. exists s, s3. rewrite with_request_at, Einc, Eend.
      pose proof (rq_tokens _ _ _ Hok3). pose proof (rq_id _ _ _ Hok3). by split_and!.
Qed.

(** ** The batch *)
Definition spares_all l sc sc' : Prop :=
  cfg sc' = cfg sc ∧ bm_static (block_manager sc) (block_manager sc') ∧
  ∀ j, j ∉ l → objs sc' !! j = objs sc !! j ∧ (j ∈ waiting sc' ↔ j ∈ waiting sc) ∧ (j ∈ running sc' ↔ j ∈ running sc) ∧
    metrics_by_seq_id sc' !! j = metrics_by_seq_id sc !! j.
Lemma live_iff sc j : j ∈ live [] sc ↔ j ∈ waiting sc ∨ j ∈ running sc.
Proof. unfold live. cbn [app]. apply elem_of_app. Qed.
Lemma post_outcome_after p sc i tok sc1 l sc' :
  post_outcome p sc i tok sc1 → spares_all l sc1 sc' → i ∉ l → post_outcome p sc i tok sc'.
Proof.
  intros (s & s1 & Hs & Hs1 & Hn & Hid & Hcase) (Ec & _ & Hsp) Hi. destruct (Hsp i Hi) as (Ho & Hw & Hr & Hm).
  exists s, s1. split; [done|]. split; [by rewrite Ho|]. split; [done|]. split; [done|]. assert (Hl : i ∈ live [] sc' ↔ i ∈ live [] sc1) by by rewrite !live_iff, Hw, Hr.
  destruct (incomplete p s); [by rewrite Hw|]. destruct (ends (cfg sc) tok s); [by rewrite Hl, Hm|by rewrite Hr].
Qed.
Lemma post_outcome_before p sc i tok sc1 sc' :
  objs sc1 !! i = objs sc !! i → cfg sc1 = cfg sc → post_outcome p sc1 i tok sc' → post_outcome p sc i tok sc'.
Proof. intros Ho Ec (s & s1 & Hs & H'). exists s, s1. rewrite <-Ho, <-Ec. done. Qed.

Lemma post_loop p now its : ∀ sc,
  sched_ok [] sc → prefix_cache_backend (block_manager sc) = HashBackend → NoDup its.*1 →
  (∀ i, i ∈ its.*1 → i ∈ live [] sc ∧ ∃ s, objs sc !! i = Some s ∧ computed (bs_of sc) p s) →
  wp (forM its (λ it, postprocess_one append_ok clock now p it.1 it.2)) (λ _ sc', sched_ok [] sc' ∧ spares_all its.*1 sc sc' ∧
    ∀ it, it ∈ its → post_outcome p sc it.1 it.2 sc') noexn sc.
Proof.
  induction its as [|[i tok] its IH]; intros sc HI Hb Hnd Hits; cbn [forM].
  { wp_step. split; [done|]. split; [|by intros it ?%not_elem_of_nil]. split; [done|]. split; [reflexivity|done]. }
  rewrite fmap_cons in Hnd, Hits. cbn [fst] in *. apply NoDup_cons in Hnd as [Hni Hnd].
  destruct (Hits i) as (Hl & s & Hs & HC); [by left|]. wp_step. eapply wp_mono; [by apply (postprocess_one_spec sc p i tok now s)| |done].
  intros _ sc1 (HI1 & (Ec & Hst & Hsp) & Hout). eapply wp_mono; [apply (IH sc1 HI1)| |done].
  - destruct Hst as (_ & -> & _). done.
  - done.
  - intros j Hj. assert (Hji : j ≠ i) by (by intros ->). destruct (Hsp j Hji) as (Ho & Hw & Hr & _).
    destruct (Hits j) as (Hlj & sj & Hsj & HCj); [by right|]. split; [by rewrite live_iff, Hw, Hr, <-live_iff|].
    exists sj. rewrite Ho. destruct Hst as (-> & _). done.
  - intros _ sc2 (HI2 & Hsp2 & Hout2). split; [done|]. split.
    + pose proof Hsp2 as (Ec2 & Hst2 & Hsp2'). split; [by rewrite Ec2|]. split; [by etrans|].
      intros j Hj. apply not_elem_of_cons in Hj as [Hji Hj]. 
      destruct (Hsp j Hji) as (A1 & A2 & A3 & A4), (Hsp2' j Hj) as (B1 & B2 & B3 & B4).
      rewrite B1, B2, B3, B4. done.
    + intros it [->|Hit]%elem_of_cons; [by eapply post_outcome_after|].
      assert (Hit1 : it.1 ∈ its.*1) by by apply list_elem_of_fmap_2.
      assert (Hne : it.1 ≠ i) by (intros E; by rewrite E in Hit1).
      eapply post_outcome_before; [by apply (Hsp _ Hne)|done|by apply Hout2].
Qed.

Lemma batch_computed sc sc1 l p i :
  sched_ok [] sc1 → static sc sc1 → batch_ok sc sc1 l p → i ∈ l →
  i ∈ live [] sc1 ∧ ∃ s, objs sc1 !! i = Some s ∧ computed (bs_of sc1) p s.
Proof.
  clear append_ok clock. intros HI St HB Hi. split; [by apply (ba_in _ _ _ _ HB)|].
  destruct (ba_ready _ _ _ _ HB i Hi) as (s & Hs & Hr). exists s. split; [done|]. rewrite (quiet_bs _ _ St).
  pose proof (so_bs_pos _ _ HI) as Hbs. rewrite (quiet_bs _ _ St) in Hbs.
  destruct p; [apply prefill_computed; [lia|done]|apply decode_computed; [lia|apply Hr]].
Qed.

(** The batch's sampled tokens, some quiet steps after [schedule] left the state [sc1]. *)
Lemma postprocess_spec sc sc1 sc2 l p tokens :
  sched_ok [] sc1 → static sc sc1 → batch_ok sc sc1 l p → prefix_cache_backend (block_manager sc) = HashBackend →
  sched_ok [] sc2 → quiet sc1 sc2 → length tokens = length l →
  wp (postprocess append_ok clock l tokens p) (λ _ sc3, sched_ok [] sc3 ∧ idle sc3 ∧
    cfg sc3 = cfg sc2 ∧ bm_static (block_manager sc2) (block_manager sc3) ∧
    (∀ j, j ∉ l → objs sc3 !! j = objs sc2 !! j ∧ (j ∈ live [] sc3 ↔ j ∈ live [] sc2)) ∧
    ∀ i tok, (i, tok) ∈ zip l tokens → post_outcome p sc2 i tok sc3) noexn sc2.
Proof.
  intros HI1 St HB Hb HI2 Q2 Hlen. unfold postprocess.
  eapply wp_quiet; [by apply (read_clock_spec clock [] sc2)|]. intros now sc2' HI2' Q2'.
  pose proof (quiet_trans _ _ _ Q2 Q2') as Q. pose proof Q as (St2 & [Qw Qr] & Qo & Qb). pose proof Q2' as ((Ec' & _) & [Qw' Qr'] & Qo' & Qb').
  assert (Hfst : (zip l tokens).*1 = l) by (apply fst_zip; lia).
  eapply wp_mono; [apply (post_loop p now (zip l tokens) sc2' HI2')| |done].
  - destruct St as (_ & _ & _ & (_ & E & _) & _). by rewrite Qb, E.
  - rewrite Hfst. apply (ba_nodup _ _ _ _ HB).
  - rewrite Hfst. intros i Hi. destruct (batch_computed sc sc1 l p i HI1 St HB Hi) as (Hi1 & s & Hs & HC).
    rewrite Qo, Qb. split; [|by exists s]. unfold live in *. by rewrite Qw, Qr.
  - rewrite Hfst. intros _ sc3 (HI3 & Hsp3 & Hout). split; [done|]. pose proof Hsp3 as (Ec & Hst & Hsp). split_and!.
    + intros i s Hi Hs. destruct (decide (i ∈ l)) as [Hin|Hout'].
      * rewrite <-Hfst in Hin. apply list_elem_of_fmap in Hin as ([i' tok] & -> & Hit).
        destruct (Hout _ Hit) as (s0 & s1 & _ & Hs1 & Hn & _). cbn [fst] in *. congruence.
      * destruct (Hsp i Hout') as (Ho & _ & Hr & _). rewrite Hr, Qr in Hi. rewrite Ho, Qo in Hs.
        by apply (ba_rest _ _ _ _ HB i s).
    + by rewrite Ec, Ec'.
    + by rewrite <-Qb'.
    + intros j Hj. destruct (Hsp j Hj) as (A1 & A2 & A3 & _). by rewrite !live_iff, A1, A2, A3, Qo', Qw', Qr'.
    + intros i tok Hit. by apply (post_outcome_before p sc2 i tok sc2' sc3); [rewrite Qo'| |exact (Hout _ Hit)].
Qed.

(** ** Arrival and cancellation *)
(** A request as [Sequence.__init__] makes it. *)
Definition new_request s : Prop :=
  status s = WAITING ∧ is_prefill s = true ∧ kv_compressed s = false ∧ block_table s = [] ∧
  num_cached_tokens s = 0 ∧ num_physical_cached_tokens s = 0 ∧ num_tokens s = length (token_ids s) ∧ last (token_ids s) = Some (last_token s) ∧
  num_prompt_tokens s <= num_tokens s.
Lemma sequence_init_new n tokens sp q a s : sequence_init n tokens sp q a = inr s → new_request s ∧ seq_id s = n.
Proof.
  clear append_ok clock. unfold sequence_init. intros Hi. apply result_bind_inr in Hi as (x & Hx & Hi). apply (inj inr) in Hi as <-. split; [|done]. split_and!; try done. cbn [token_ids last_token].
  unfold py_nth in Hx. cbn [Z.ltb Z.compare] in Hx. destruct tokens as [|t0 l0] using rev_ind; [done|]. clear IHl0.
  rewrite length_app in Hx. cbn [length] in Hx. rewrite (proj2 (Z.ltb_ge _ _)) in Hx by lia.
  replace (Z.to_nat _) with (length l0) in Hx by lia. rewrite list_lookup_middle in Hx by done. apply (inj inr) in Hx as <-. by rewrite last_snoc.
Qed.

Lemma add_spec sc s :
  sched_ok [] sc → seq_id s ∉ live [] sc → new_request s →
  wp (add append_ok clock s) (λ _ sc', sched_ok [] sc' ∧ cfg sc' = cfg sc ∧ block_manager sc' = block_manager sc ∧
    waiting sc' = waiting sc ++ [seq_id s] ∧ running sc' = running sc ∧
    (∀ j, j ≠ seq_id s → objs sc' !! j = objs sc !! j)) noexn sc.
Proof.
  intros HI Hni (N1 & N2 & N3 & N4 & N5 & N6 & N7 & N8 & N9). unfold add. cbv zeta. wp_step. wp_step.
  eapply wp_quiet; [by apply (read_clock_spec clock [] sc)|]. intros now sc1 HI1 Q1. pose proof Q1 as ((Qc & _) & [Qw Qr] & Qo & Qb).
  set (i := seq_id s) in *. wp_step. unfold set_seq. wp_step. wp_step. wp_step. set (s' := mark_arrived (step_id sc) now s).
  assert (Hs' : seq_id s' = i ∧ arrived s' ∧ status s' = WAITING ∧ is_prefill s' = true ∧ kv_compressed s' = false ∧ block_table s' = [] ∧
    num_cached_tokens s' = 0 ∧ num_physical_cached_tokens s' = 0 ∧ num_tokens s' = length (token_ids s') ∧ last (token_ids s') = Some (last_token s') ∧ num_prompt_tokens s' <= num_tokens s').
  { unfold s', mark_arrived. cbn [arrival_time setter set_arrival_step]. destruct (arrival_time s) as [a|] eqn:Ea; split_and!; cbn; try done; rewrite ?Ea; by eexists. }
  clearbody s'. destruct Hs' as (M0 & M1 & M2 & M3 & M4 & M5 & M6 & M7 & M8 & M9 & M10).
  assert (Hpos : 0 < num_tokens s') by (rewrite M8; by destruct (token_ids s'); [|cbn; lia]).
  assert (Hni1 : i ∉ live [] sc1) by (unfold live; by rewrite Qw, Qr).
  assert (HI2 : sched_ok [i] (sc1 <| objs := <[i := s']> (objs sc1) |>)).
  { apply hold_new; [done|done| |done]. split; [done|done|done|lia| |lia|done|done]. intros _. lia. }
  set (sc2 := sc1 <| objs := _ |> <| waiting := _ |>).
  assert (HI3 : sched_ok [] sc2).
  { assert (Hm : sched_ok [] (sc1 <| objs := <[i := s']> (objs sc1) |> <| waiting := waiting sc1 ++ [i] |> <| running := running sc1 |>)); [|by destruct sc1].
    eapply sched_move; [exact HI2|unfold live; cbn; solve_Permutation| |done].
    intros j sj Hj Hn Hsj. apply elem_of_app in Hj as [Hj|Hj%list_elem_of_singleton]; [done|]. subst j.
    cbn in Hsj. rewrite lookup_insert_eq in Hsj. injection Hsj as <-. split_and!; [done..|]. rewrite M5. cbn. lia. }
  assert (HF : cfg sc2 = cfg sc1 ∧ block_manager sc2 = block_manager sc1 ∧ waiting sc2 = waiting sc1 ++ [i] ∧ running sc2 = running sc1 ∧
    objs sc2 = <[i := s']> (objs sc1)) by by split_and!.
  clearbody sc2. destruct HF as (F1 & F2 & F3 & F4 & F5).
  eapply wp_quiet_last; [apply trace_spec; [exact HI3|]|].
  { intros j Hj%list_elem_of_singleton. subst j. apply live_waiting. rewrite F3. apply elem_of_app. right. by left. }
  intros _ sc3 HI4 ((E1 & _) & [E2 E3] & E4 & E5). split_and!; [done|congruence|congruence|congruence|congruence|].
  intros j Hj. rewrite E4, F5, lookup_insert_ne by done. by rewrite Qo.
Qed.

(** The request leaves whichever queue it is in. *)
Lemma leave_queue sc i :
  sched_ok [] sc → i ∈ live [] sc →
  wp (if bool_decide (i ∈ waiting sc) then remove_waiting i;; mret true
      else if bool_decide (i ∈ running sc) then remove_running i;; mret true
      else match assoc i (pending_restores sc) with
           | None => mret false
           | Some st =>
               modifyS (λ sc, sc <| pending_restores := assoc_del i (pending_restores sc) |>);;
               on_service (cancel_waiters (pr_transfer st));;
               mret true
           end)
    (λ r sc', r = true ∧ sched_ok [i] sc' ∧ only [] sc sc' ∧ block_manager sc' = block_manager sc ∧
       live [i] sc' ≡ₚ live [] sc ∧ ∀ j, j ∈ running sc' → j ∈ running sc) noexn sc.
Proof.
  intros HI Hi. destruct (bool_decide (i ∈ waiting sc)) eqn:Ew; breflect.
  - wp_step. eapply wp_mono; [by apply remove_waiting_spec| |done]. intros _ sc1 (HI1 & HO1 & Hr & Hw & Hb). wp_step.
    split_and!; [done..| |by rewrite Hr]. unfold live. rewrite Hr, <-Hw. solve_Permutation.
  - assert (Er : i ∈ running sc) by (apply live_iff in Hi as [?|?]; done). rewrite bool_decide_eq_true_2 by done.
    wp_step. eapply wp_mono; [by apply remove_running_spec| |done]. intros _ sc1 (HI1 & HO1 & Hw & Hr & Hb). wp_step.
    split_and!; [done..| |]; [|intros j Hj; rewrite <-Hr; by right]. unfold live. rewrite Hw, <-Hr. solve_Permutation.
Qed.

Lemma drop_pending held sc i :
  sched_ok held sc →
  sched_ok held (sc <| block_manager := block_manager sc <| pending_matches := delete i (pending_matches (block_manager sc)) |> |>) ∧
  sched_ok held (sc <| block_manager := block_manager sc <| pending_resume_matches := delete i (pending_resume_matches (block_manager sc)) |> |>).
Proof.
  clear append_ok clock. intros HI. pose proof (so_bm _ _ HI) as HB. split; (apply sched_manager; [done| |by split_and!]).
  - by apply bm_inv_set_pending, ids_ok_delete, (bi_pending _ _ HB).
  - by apply bm_inv_set_resume, ids_ok_delete, (bi_resume _ _ HB).
Qed.

(** A request in nobody's queue gives its pages back and is marked cancelled. *)
Lemma release_cancelled {A} sc i (k : MS A) Q :
  sched_ok [i] sc → (∀ s, objs sc !! i = Some s → is_terminal s = false) →
  (∀ sc', sched_ok [i] sc' → only [i] sc sc' → same_queues sc sc' →
     (∃ s', objs sc' !! i = Some s' ∧ status s' = CANCELLED ∧ block_table s' = [] ∧ num_scheduled_tokens s' = 0) →
     wp k Q noexn sc') →
  wp (s ← get_seq i;
      (if owns_blocks s then on_bms i deallocate else mret tt);;
      update_seq i (λ s, s <| num_scheduled_tokens := 0 |>);;
      now ← read_clock clock;
      update_seq i (cancel now);;
      k) Q noexn sc.
Proof.
  clear append_ok. intros HI Hrunning Hk. destruct (sched_focus _ _ i HI) as (s & own & Hs & Hok & HB & Hback); [by apply live_held; left|].
  destruct (held_not_queued _ _ i HI) as [Hnw Hnr]; [by left|].
  assert (Hfin : ∀ bm s', bm_inv own bm → bm_static (block_manager sc) bm → block_table s' = [] → request_ok (bs_of sc) i s' →
    sched_ok [i] (with_request bm i s' sc)).
  { intros bm s' HB' HS' Ht' Hok'. apply Hback; [by rewrite Ht'|done|done|by intros ?|by intros ?]. }
  wp_step. eapply wp_get_seq; [exact Hs|]. wp_step. eapply wp_focus; [exact Hs|].
  set (Mid := λ (_ : ()) sc', ∃ bm s1, sc' = with_request bm i s1 sc ∧ bm_inv own bm ∧ bm_static (block_manager sc) bm ∧
    block_table s1 = [] ∧ request_ok (bs_of sc) i s1 ∧ token_ids s1 = token_ids s ∧ status s1 = status s).
  apply (wp_mono _ Mid _ noexn); [|intros _ sc4 (bm & s1 & -> & HB4 & HS4 & Ht4 & Hok4 & Hid4 & Hst4)|done].
  { wp_if Eo.
    - apply wp_on_bms_focus. eapply wp_mono; [apply (deallocate_spec own s _ HB)| |done].
      intros u [bm s1] (Hs1 & HB1 & HS1 & _). cbn [fst snd] in *. exists bm, s1. subst s1. split_and!; try done.
      destruct Hok. split; cbn; try done; lia.
    - assert (Hnil : block_table s = []) by (apply dec_stable; rewrite <-owns_table; congruence). wp_step.
      exists (block_manager sc), s. rewrite Hnil in HB. split_and!; try done. }
  wp_step. apply wp_update_focus. set (s2 := s1 <| num_scheduled_tokens := 0 |>).
  assert (Hok2 : request_ok (bs_of sc) i s2) by by destruct Hok4.
  eapply wp_quiet; [apply (read_clock_spec clock [i]); by apply Hfin|]. intros now sc5 HI5 Q5.
  pose proof (quiet_only [i] _ _ Q5) as HO5. pose proof Q5 as (_ & Qq & Qo & Qb).
  assert (Hs5 : objs sc5 !! i = Some s2) by (rewrite Qo; apply with_request_at).
  destruct (sched_focus _ _ i HI5) as (s5 & own5 & Hs5' & _ & HB5 & Hback5); [by apply live_held; left|].
  assert (s5 = s2) as -> by congruence. destruct (held_not_queued _ _ i HI5) as [Hnw5 Hnr5]; [by left|].
  wp_step. eapply wp_focus; [exact Hs5|]. apply wp_update_focus.
  assert (Hon : only [i] sc (with_request bm i s2 sc)) by by apply (with_request_only bm i s).
  assert (Ec : cancel now s2 = s2 <| status := CANCELLED |> <| finished_time := Some now |>).
  { unfold cancel. assert (is_terminal s2 = false) as ->; [|done]. rewrite <-(Hrunning s Hs). unfold is_terminal, s2. cbn. by rewrite Hst4. }
  rewrite Ec. apply Hk.
  - apply Hback5; [exact HB5|reflexivity| |by intros ?|by intros ?]. rewrite Qb.  pose proof HS4 as (Eb & _). change (block_manager (with_request bm i s2 sc)) with bm. rewrite Eb. by destruct Hok2.
  - eapply only_trans; [exact Hon|]. eapply only_trans; [exact HO5|]. by apply (with_request_only _ i s2).
  - etrans; [|exact Qq]. by split.
  - eexists. split; [apply with_request_at|done].
Qed.

Lemma cancel_spec sc i :
  sched_ok [] sc → i ∈ live [] sc →
  wp (cancel_request append_ok clock i) (λ r sc', r = true ∧ sched_ok [] sc' ∧ i :: live [] sc' ≡ₚ live [] sc ∧
    (∀ j, j ∈ running sc' → j ∈ running sc) ∧ only [i] sc sc' ∧
    ∃ s', objs sc' !! i = Some s' ∧ status s' = CANCELLED ∧ block_table s' = [] ∧ num_scheduled_tokens s' = 0) noexn sc.
Proof.
  intros HI Hi. unfold cancel_request. wp_step. wp_step. wp_step. eapply wp_mono; [by apply leave_queue| |done].
  intros r sc1 (-> & HI1 & HO1 & Hb1 & Hl1 & Hr1). cbn [negb].
  wp_step. wp_step. set (sc2 := setter _ _ sc1). destruct (drop_pending [i] sc1 i HI1) as [HI2 _]. fold sc2 in HI2.
  assert (HO2 : only [] sc1 sc2 ∧ same_queues sc1 sc2) by (split; [split; [by split_and!|done]|done]). clearbody sc2.
  wp_step. wp_step. set (sc3 := setter _ _ sc2). destruct (drop_pending [i] sc2 i HI2) as [_ HI3]. fold sc3 in HI3.
  assert (HO3 : only [] sc2 sc3 ∧ same_queues sc2 sc3) by (split; [split; [by split_and!|done]|done]). clearbody sc3.
  assert (HO13 : only [] sc sc3) by (eapply only_trans; [exact HO1|eapply only_trans; [apply HO2|apply HO3]]).
  assert (HQ13 : same_queues sc1 sc3) by (etrans; [apply HO2|apply HO3]). clear HO2 HO3 HI2.
  apply release_cancelled; [done| |].
  { intros s Hs. destruct HO13 as [_ Ho]. rewrite Ho in Hs by apply not_elem_of_nil. unfold is_terminal.
    apply live_iff in Hi as [Hi|Hi]; [by destruct (so_wait _ _ HI i s Hi Hs) as [[-> _] _]|by destruct (so_run _ _ HI i s Hi Hs) as [-> _]]. }
  intros sc4 HI4 HO4 HQ4 (s' & Hs' & Hst' & Ht' & Hn').
  eapply wp_quiet; [by apply count_spec|]. intros _ sc5 HI5 Q5.
  eapply wp_quiet; [apply trace_spec; [exact HI5|by intros j Hj%list_elem_of_singleton; subst; apply live_held; left]|].
  intros _ sc6 HI6 Q6. pose proof (quiet_trans _ _ _ Q5 Q6) as Q. pose proof (quiet_only [i] _ _ Q) as HO6.
  pose proof Q as (_ & [Qw Qr] & Qo & _). destruct HQ13 as [Ew Er], HQ4 as [Ew4 Er4].
  wp_step. assert (Hs6 : objs sc6 !! i = Some s') by by rewrite Qo. split_and!; [done|..].
  - apply (drop_held [] sc6 i HI6). by rewrite (table_at _ _ _ Hs6).
  - rewrite <-Hl1. unfold live. rewrite Qw, Qr, Ew4, Er4, Ew, Er. done.
  - intros j. rewrite Qr, Er4, Er. apply Hr1.
  - eapply only_trans; [by apply only_nil|]. by eapply only_trans.
  - by exists s'.
Qed.

(** An id nobody waits for is not found, and nothing happens. *)
Lemma cancel_unknown sc i :
  sched_ok [] sc → i ∉ live [] sc → cancel_request append_ok clock i sc = (inr false, sc).
Proof.
  intros HI Hi. rewrite live_iff in Hi. unfold cancel_request, mbind, M_bind, getS.
  rewrite !bool_decide_eq_false_2 by tauto. by rewrite (so_pending _ _ HI).
Qed.

Lemma observe_spec sc p n e :
  sched_ok [] sc → wp (observe_execution append_ok clock p n e) (λ _ sc', sched_ok [] sc' ∧ quiet sc sc') noexn sc.
Proof.
  intros HI. unfold observe_execution. wp_step. wp_step. set (sc1 := setter _ _ sc).
  assert (HI1 : sched_ok [] sc1) by (eapply sched_same; [exact HI|done..|apply (so_trace _ _ HI)]).
  assert (Q1 : quiet sc sc1) by (split; [by split_and!|done]). clearbody sc1.
  eapply wp_quiet_last; [apply trace_spec; [exact HI1|by intros i ?%not_elem_of_nil]|]. intros _ sc2 HI2 Q2.
  split; [done|by eapply quiet_trans].
Qed.

(** The header of the trace file is within the recorder's byte limit. *)
Definition header_fits sc : Prop :=
  match trace sc with Some tr => tr_bytes_written tr <= tr_max_bytes tr | None => True end.
Lemma trace_init_ok metadata b h f m k tr :
  trace_init metadata b h f m k = inr tr → 0 < h → tr_bytes_written tr <= tr_max_bytes tr → trace_ok (Some tr).
Proof.
  clear append_ok clock. unfold trace_init. intros Ht Hh Hb. result_inv. subst tr. cbn in *. split; [|done]. split; cbn; [done|unfold nsum; cbn; lia|lia|lia| |lia].
  by intros r ?%not_elem_of_nil.
Qed.

(** A new scheduler without a restore service. *)
Lemma scheduler_init_ok c b sc :
  scheduler_init (R := R) (T := T) c None b = inr sc → header_fits sc →
  2 <= c_kvcache_block_size c → 0 < c_num_kvcache_blocks c → compression_ok c →
  sched_ok [] sc ∧ idle sc ∧ live [] sc = [] ∧
  prefix_cache_backend (block_manager sc) = (if String.eqb (c_prefix_cache_backend c) "radix" then RadixBackend else HashBackend) ∧
  cfg sc = c.
Proof.
  clear append_ok clock. unfold scheduler_init. intros Hi Hf Hbs Hn Hc. cbv zeta in Hi. result_inv.
  match goal with E : block_manager_init _ _ _ = inr ?bm |- _ => pose proof (block_manager_init_inv _ _ _ _ E) as (HB & Hl & Eb); assert (Hback := E); clear E end.
  match goal with E : match c_scheduler_trace_path c with _ => _ end = inr ?t |- _ => rename E into Et; rename t into tr end.
  subst sc. assert (Htr : trace_ok tr).
  { destruct (c_scheduler_trace_path c) as [path|]; [|apply (inj inr) in Et as <-; exact I].
    destruct (String.eqb path ""); [apply (inj inr) in Et as <-; exact I|]. 
    apply result_bind_inr in Et as (t & Ht & Et). apply (inj inr) in Et as <-. eapply trace_init_ok; [exact Ht| |exact Hf].
    apply (bool_decide_unpack _). exact I. }
  split_and!; [|by intros i s ?%not_elem_of_nil|done| |done].
  - split; cbn [block_manager objs waiting running cfg remote_restore_service pending_restores trace]; try done; try lia;
      try (by intros i ?%not_elem_of_nil); try (by intros i s ?%not_elem_of_nil). constructor.
  - cbn [block_manager]. unfold block_manager_init in Hback. result_inv. by subst.
Qed.
End run.
