(* ===== verification/RemoteRestore.v ===== *)
(** * The remote restore service

    Models [nanovllm/engine/remote_restore.py], its catalog apart (in
    [PrefixCatalog.v]). The service owns an event loop, in a thread of its own, that runs the
    [AsyncKVTransferCoordinator] of [TransferCoordinator.v]; the main thread hands it
    coroutines and gets futures. A future is a position in the list of futures; the loop starts
    the coroutines in the order they were submitted, and then runs the coordinator's events in any order.
    [turns] is what the loop does while the main thread waits for the [n]th time: a
    wait that finds its future pending after its turn times out. *)
From S2P Require Import Prelude Json Blake2b Qos Sequence StorageBackend RemoteCatalog RadixCache PrefixCatalog HierarchicalCache BlockManager TransferCoordinator SchedulerTrace Scheduler.
Set Default Goal Selector "!".

(** ** Futures *)
Inductive FutureState :=
| FQueued (o : Op)
| FRunning (c : nat)
| FCancelled (c : option nat).
(** What the main thread sees of a future. *)
Inductive FutureView :=
| VPending
| VCancelled
| VDone (r : result (option bytes)).

#[export] Instance Op_eq_dec : EqDecision Op.
Proof. solve_decision. Defined.
#[export] Instance FutureState_eq_dec : EqDecision FutureState.
Proof. solve_decision. Defined.
#[export] Instance FutureView_eq_dec : EqDecision FutureView.
Proof. unfold result. solve_decision. Defined.

Record PendingRemoteRestore := mkPendingRestoreIO {
  rr_seq_id : nat;
  rr_pages : list RemotePageDescriptor;
  rr_block_ids : list nat;
  rr_futures : list nat
}.
Definition pending_remote_restore (p : PendingRemoteRestore) : result PendingRemoteRestore :=
  throw_if (negb ((length (rr_pages p) =? length (rr_block_ids p)) && (length (rr_pages p) =? length (rr_futures p)))
            || bool_decide (rr_pages p = []))
    (ValueError "pending restore vectors must have the same non-zero length");;
  mret p.

Record PendingRemoteWriteback := mkPendingWriteback {
  wb_block_keys : list BlockKey;
  wb_pages : list RemotePageDescriptor;
  wb_write_pages : list RemotePageDescriptor;
  wb_futures : list nat
}.
Definition pending_remote_writeback (p : PendingRemoteWriteback) : result PendingRemoteWriteback :=
  throw_if (bool_decide (wb_block_keys p = []) || negb (length (wb_block_keys p) =? length (wb_pages p)))
    (ValueError "write-back prefix vectors must have the same non-zero length");;
  throw_if (bool_decide (wb_futures p = []) || negb (length (wb_write_pages p) =? length (wb_futures p)))
    (ValueError "write-back pages and futures must have the same non-zero length");;
  mret p.

Definition completed_kv_page_span (num_cached_tokens num_scheduled_tokens block_size : Z) : result (Z * Z) :=
  throw_if ((num_cached_tokens <? 0) || (num_scheduled_tokens <? 0) || (block_size <=? 0))%Z
    (ValueError "token counts must be non-negative and block_size positive");;
  mret (num_cached_tokens / block_size, (num_cached_tokens + num_scheduled_tokens) / block_size)%Z.

(** ** State *)
Record WritebackMetrics := mkWritebackMetrics {
  writeback_submitted : nat;
  writeback_completed : nat;
  writeback_failed : nat;
  writeback_export_failed : nat;
  writeback_pages : nat;
  writeback_coalesced_pages : nat
}.
#[export] Instance WritebackMetrics_eta : RecordEta WritebackMetrics := λ r, {|
  writeback_submitted := writeback_submitted r; writeback_completed := writeback_completed r;
  writeback_failed := writeback_failed r; writeback_export_failed := writeback_export_failed r;
  writeback_pages := writeback_pages r; writeback_coalesced_pages := writeback_coalesced_pages r |}.
#[export] Instance set_writeback_submitted : Setter writeback_submitted := ltac:(derive_setter).
#[export] Instance set_writeback_completed : Setter writeback_completed := ltac:(derive_setter).
#[export] Instance set_writeback_failed : Setter writeback_failed := ltac:(derive_setter).
#[export] Instance set_writeback_export_failed : Setter writeback_export_failed := ltac:(derive_setter).
#[export] Instance set_writeback_pages : Setter writeback_pages := ltac:(derive_setter).
#[export] Instance set_writeback_coalesced_pages : Setter writeback_coalesced_pages := ltac:(derive_setter).
Definition writeback_dict (m : WritebackMetrics) : list (string * nat) :=
  [("writeback_submitted", writeback_submitted m); ("writeback_completed", writeback_completed m);
   ("writeback_failed", writeback_failed m); ("writeback_export_failed", writeback_export_failed m);
   ("writeback_pages", writeback_pages m); ("writeback_coalesced_pages", writeback_coalesced_pages m)].

Record CatalogMetrics := mkCatalogMetrics {
  catalog_loads : nat;
  catalog_load_failed : nat;
  catalog_loaded_prefixes : nat;
  catalog_save_submitted : nat;
  catalog_save_completed : nat;
  catalog_save_failed : nat
}.
#[export] Instance CatalogMetrics_eta : RecordEta CatalogMetrics := λ r, {|
  catalog_loads := catalog_loads r; catalog_load_failed := catalog_load_failed r;
  catalog_loaded_prefixes := catalog_loaded_prefixes r; catalog_save_submitted := catalog_save_submitted r;
  catalog_save_completed := catalog_save_completed r; catalog_save_failed := catalog_save_failed r |}.
#[export] Instance set_catalog_loads : Setter catalog_loads := ltac:(derive_setter).
#[export] Instance set_catalog_load_failed : Setter catalog_load_failed := ltac:(derive_setter).
#[export] Instance set_catalog_loaded_prefixes : Setter catalog_loaded_prefixes := ltac:(derive_setter).
#[export] Instance set_catalog_save_submitted : Setter catalog_save_submitted := ltac:(derive_setter).
#[export] Instance set_catalog_save_completed : Setter catalog_save_completed := ltac:(derive_setter).
#[export] Instance set_catalog_save_failed : Setter catalog_save_failed := ltac:(derive_setter).
Definition catalog_dict (m : CatalogMetrics) : list (string * nat) :=
  [("catalog_loads", catalog_loads m); ("catalog_load_failed", catalog_load_failed m);
   ("catalog_loaded_prefixes", catalog_loaded_prefixes m); ("catalog_save_submitted", catalog_save_submitted m);
   ("catalog_save_completed", catalog_save_completed m); ("catalog_save_failed", catalog_save_failed m)].

Record RemoteKVRestoreService (B : Type) := mkRestoreService {
  sv_catalog : RemotePrefixCatalog;
  sv_planner : option KVTransferPlanner;
  sv_coordinator : Coordinator B;
  sv_futures : list FutureState;
  sv_catalog_key : option string;
  sv_catalog_identity : option (string * Z);
  sv_closed : bool;
  sv_inflight_writes : gmap string nat;
  sv_pending_saves : list nat;
  sv_catalog_errors : list string;
  sv_writeback_metrics : WritebackMetrics;
  sv_catalog_metrics : CatalogMetrics;
  sv_waits : nat
}.
Arguments mkRestoreService {B}.
Arguments sv_catalog {B}.
Arguments sv_planner {B}.
Arguments sv_coordinator {B}.
Arguments sv_futures {B}.
Arguments sv_catalog_key {B}.
Arguments sv_catalog_identity {B}.
Arguments sv_closed {B}.
Arguments sv_inflight_writes {B}.
Arguments sv_pending_saves {B}.
Arguments sv_catalog_errors {B}.
Arguments sv_writeback_metrics {B}.
Arguments sv_catalog_metrics {B}.
Arguments sv_waits {B}.
#[export] Instance RestoreService_eta {B} : RecordEta (RemoteKVRestoreService B) := λ r, {|
  sv_catalog := sv_catalog r; sv_planner := sv_planner r; sv_coordinator := sv_coordinator r;
  sv_futures := sv_futures r; sv_catalog_key := sv_catalog_key r; sv_catalog_identity := sv_catalog_identity r;
  sv_closed := sv_closed r; sv_inflight_writes := sv_inflight_writes r; sv_pending_saves := sv_pending_saves r;
  sv_catalog_errors := sv_catalog_errors r; sv_writeback_metrics := sv_writeback_metrics r;
  sv_catalog_metrics := sv_catalog_metrics r; sv_waits := sv_waits r |}.
#[export] Instance set_sv_catalog {B} : Setter (@sv_catalog B) := ltac:(derive_setter).
#[export] Instance set_sv_coordinator {B} : Setter (@sv_coordinator B) := ltac:(derive_setter).
#[export] Instance set_sv_futures {B} : Setter (@sv_futures B) := ltac:(derive_setter).
#[export] Instance set_sv_closed {B} : Setter (@sv_closed B) := ltac:(derive_setter).
#[export] Instance set_sv_inflight_writes {B} : Setter (@sv_inflight_writes B) := ltac:(derive_setter).
#[export] Instance set_sv_pending_saves {B} : Setter (@sv_pending_saves B) := ltac:(derive_setter).
#[export] Instance set_sv_catalog_errors {B} : Setter (@sv_catalog_errors B) := ltac:(derive_setter).
#[export] Instance set_sv_writeback_metrics {B} : Setter (@sv_writeback_metrics B) := ltac:(derive_setter).
#[export] Instance set_sv_catalog_metrics {B} : Setter (@sv_catalog_metrics B) := ltac:(derive_setter).
#[export] Instance set_sv_waits {B} : Setter (@sv_waits B) := ltac:(derive_setter).

(** What the loop's thread can do in one go: start the next coroutine, or an event of the
    coordinator (with the cancellation of the task of a cancelled future). *)
Inductive loop_event := LBegin | LEvent (e : event).

Section service.
Context {B : Type} `{KVStorageBackend B} `{FloatRepr}.
Abbreviation Service := (RemoteKVRestoreService B).
Abbreviation MV := (M Service).
(** [Sequence.block_size], and the turns of the event loop. *)
Context (block_size : nat) (turns : nat → list loop_event).

(** ** The event loop *)
Definition next_queued (s : Service) : option (nat * Op) :=
  head (omap (λ fo : nat * FutureState, match fo.2 with FQueued o => Some (fo.1, o) | _ => None end)
          (imap pair (sv_futures s))).
Definition set_future (f : nat) (st : FutureState) (s : Service) : Service :=
  s <| sv_futures := alter (λ _, st) f (sv_futures s) |>.
(** The events the loop runs by itself; calls begin and [close] is called through a future. *)
Definition loop_allowed (e : event) (s : Service) : bool :=
  match e with
  | EStart _ | EIo _ | EFinish _ | EResume _ => true
  | ECancel c => bool_decide (FCancelled (Some c) ∈ sv_futures s)
  | ECall _ | EClose | ECloseBackend => false
  end.
Definition loop_step (e : loop_event) (s : Service) : Service :=
  match e with
  | LBegin =>
      match next_queued s with
      | Some (f, o) =>
          set_future f (FRunning (length (tc_calls (sv_coordinator s))))
            (s <| sv_coordinator := run_state (begin_call o) (sv_coordinator s) |>)
      | None => s
      end
  | LEvent e =>
      if loop_allowed e s then
        match step e (sv_coordinator s) with
        | Some c => s <| sv_coordinator := c |>
        | None => s
        end
      else s
  end.
Definition loop_turn (es : list loop_event) (s : Service) : Service := foldl (λ s e, loop_step e s) s es.

Definition future_view (f : nat) (s : Service) : FutureView :=
  match sv_futures s !! f with
  | Some (FRunning c) =>
      match tc_calls (sv_coordinator s) !! c with
      | Some cl => match cl_stage cl with
                   | Returned r => VDone r
                   | Cancelled => VCancelled
                   | Blocked _ _ _ => VPending
                   end
      | None => VPending
      end
  | Some (FCancelled _) => VCancelled
  | _ => VPending
  end.
Definition future_done (f : nat) (s : Service) : bool :=
  match future_view f s with VPending => false | _ => true end.
(** [future.cancelled() or future.exception() is not None], of a future that is done *)
Definition future_failed (f : nat) (s : Service) : bool :=
  match future_view f s with VCancelled | VDone (inl _) => true | _ => false end.
(** [future.cancel()] *)
Definition future_cancel (f : nat) : MV () :=
  s ← getS;
  if future_done f s then mret tt
  else
    putS (set_future f (FCancelled (match sv_futures s !! f with Some (FRunning c) => Some c | _ => None end)) s).
(** The main thread waits for one turn of the loop. *)
Definition wait_turn : MV () :=
  s ← getS;
  putS (loop_turn (turns (sv_waits s)) (s <| sv_waits := S (sv_waits s) |>)).
(** [future.result(timeout)]; without a timeout the wait goes on beyond any turn. *)
Definition future_result (timed : bool) (f : nat) : MV (option bytes) :=
  s ← getS;
  (if future_done f s then mret tt else wait_turn);;
  s ← getS;
  match future_view f s with
  | VDone r => lift r
  | VCancelled => raise CancelledError
  | VPending => raise (if timed then TimeoutError "" else OutOfFuel)
  end.

(** [_submit]: the future of a coroutine *)
Definition submit (o : Op) : MV nat :=
  s ← getS;
  raise_if (sv_closed s) (RuntimeError "remote KV restore service is closed");;
  putS (s <| sv_futures := sv_futures s ++ [FQueued o] |>);;
  mret (length (sv_futures s)).

(** ** Pending restores *)
(** [PendingRemoteRestore.done] *)
Definition restore_io_done (p : PendingRemoteRestore) (s : Service) : bool :=
  existsb (λ f, future_failed f s || bool_decide (future_view f s = VDone (inr None))) (rr_futures p)
  || forallb (λ f, future_done f s) (rr_futures p).
Definition page_missing (d : RemotePageDescriptor) : exn :=
  RemoteKVPageMissing ("remote KV page is missing: " +:+ pd_object_key d).
(** [PendingRemoteRestore.result] *)
Definition restore_result (timed : bool) (p : PendingRemoteRestore) : MV (list bytes) :=
  forM (zip (rr_pages p) (rr_futures p)) (λ df,
    s ← getS;
    if negb (future_done df.2 s) then mret tt
    else
      envelope ← future_result timed df.2;
      raise_if (bool_decide (envelope = None)) (page_missing df.1));;
  mapM_M (λ df,
    envelope ← future_result timed df.2;
    of_option (page_missing df.1) envelope) (zip (rr_pages p) (rr_futures p)).
Definition restore_cancel_waiters (p : PendingRemoteRestore) : MV () := forM (rr_futures p) future_cancel.

(** [PendingRemoteWriteback.done] and [.result] *)
Definition writeback_done (p : PendingRemoteWriteback) (s : Service) : bool :=
  existsb (λ f, future_failed f s) (wb_futures p) || forallb (λ f, future_done f s) (wb_futures p).
Definition writeback_result (timed : bool) (p : PendingRemoteWriteback) : MV () :=
  forM (wb_futures p) (λ f, s ← getS; if future_done f s then future_result timed f;; mret tt else mret tt);;
  forM (wb_futures p) (λ f, future_result timed f;; mret tt).

(** ** The persistent catalog *)
Definition on_catalog {A} (m : M RemotePrefixCatalog A) : MV A := λ s,
  match m (sv_catalog s) with (r, c) => (r, s <| sv_catalog := c |>) end.
Definition count_catalog (f : CatalogMetrics → CatalogMetrics) : MV () :=
  modifyS (λ s : Service, s <| sv_catalog_metrics := f (sv_catalog_metrics s) |>).
Definition count_writeback (f : WritebackMetrics → WritebackMetrics) : MV () :=
  modifyS (λ s : Service, s <| sv_writeback_metrics := f (sv_writeback_metrics s) |>).
(** [_record_catalog_failure] *)
Definition record_catalog_failure (f : CatalogMetrics → CatalogMetrics) (exc : exn) : MV () :=
  count_catalog f;;
  modifyS (λ s : Service, s <| sv_catalog_errors := push_bounded 128 (exn_str exc) (sv_catalog_errors s) |>).
Definition load_failed (m : CatalogMetrics) : CatalogMetrics := m <| catalog_load_failed := S (catalog_load_failed m) |>.
Definition save_failed (m : CatalogMetrics) : CatalogMetrics := m <| catalog_save_failed := S (catalog_save_failed m) |>.
Definition wrong_identity (s : Service) (sn : RemoteCatalogSnapshot) : bool :=
  match sv_catalog_identity s with
  | Some i => negb (bool_decide ((sn_identity_digest sn, sn_tp_rank sn) = i))
  | None => false
  end.

(** [_load_persistent_catalog], for the key [key] *)
Definition load_persistent_catalog (key : string) : MV () :=
  count_catalog (λ m, m <| catalog_loads := S (catalog_loads m) |>);;
  try_except
    (future ← submit (OpGet key);
     envelope ← future_result true future;
     match envelope with
     | None => mret tt
     | Some envelope =>
         sn ← lift (decode_snapshot envelope);
         s ← getS;
         raise_if (wrong_identity s sn) (ValueError "persistent catalog identity does not match this engine");;
         restored ← on_catalog (merge_snapshot sn);
         count_catalog (λ m, m <| catalog_loaded_prefixes := catalog_loaded_prefixes m + restored |>)
     end)
    (record_catalog_failure load_failed).

(** [_schedule_catalog_save] *)
Definition schedule_catalog_save : MV () :=
  s ← getS;
  match sv_catalog_key s with
  | None => mret tt
  | Some key =>
      try_except
        (snapshot ← on_catalog catalog_snapshot;
         match snapshot with
         | None => mret tt
         | Some sn =>
             s ← getS;
             raise_if (wrong_identity s sn) (ValueError "persistent catalog identity does not match this engine");;
             future ← submit (OpPut key (encode_snapshot sn) true);
             modifyS (λ s : Service, s <| sv_pending_saves := sv_pending_saves s ++ [future] |>);;
             count_catalog (λ m, m <| catalog_save_submitted := S (catalog_save_submitted m) |>)
         end)
        (record_catalog_failure save_failed)
  end.

(** [flush_catalog_saves] *)
Definition flush_catalog_saves (wait_for_all : bool) : MV () :=
  s ← getS;
  forM (sv_pending_saves s) (λ future,
    s ← getS;
    if negb wait_for_all && negb (future_done future s) then mret tt
    else
      try_finally
        (try_except
           (future_result wait_for_all future;;
            count_catalog (λ m, m <| catalog_save_completed := S (catalog_save_completed m) |>))
           (record_catalog_failure save_failed))
        (s ← getS;
         pending ← of_option (ValueError "list.remove(x): x not in list") (remove_first future (sv_pending_saves s));
         putS (s <| sv_pending_saves := pending |>))).

(** ** Publishing *)
Definition publish_prefix (block_keys : list BlockKey) (descriptors : list RemotePageDescriptor) (envelopes : list bytes)
    (timed : bool) : MV () :=
  raise_if (negb ((length block_keys =? length descriptors) && (length block_keys =? length envelopes)))
    (ValueError "published remote prefix vectors must have the same length");;
  raise_if (bool_decide (descriptors = [])) (ValueError "published remote prefix must contain at least one page");;
  futures ← mapM_M (λ de, submit (OpPut (pd_object_key de.1) de.2 false)) (zip descriptors envelopes);
  forM futures (λ future, future_result timed future;; mret tt);;
  on_catalog (register block_keys descriptors);;
  schedule_catalog_save.
Definition register_existing_prefix (block_keys : list BlockKey) (descriptors : list RemotePageDescriptor) : MV () :=
  on_catalog (register block_keys descriptors);;
  schedule_catalog_save.

(** ** Write-back *)
Definition pop_inflight (key : string) : MV () :=
  modifyS (λ s : Service, s <| sv_inflight_writes := delete key (sv_inflight_writes s) |>).
Definition writeback_vectors (block_keys : list BlockKey) (descriptors : list RemotePageDescriptor) : MV () :=
  raise_if (bool_decide (block_keys = []) || negb (length block_keys =? length descriptors))
    (ValueError "write-back prefix vectors must have the same non-zero length").
(** The loop of [pages_requiring_write], from page [index]. *)
Fixpoint required_pages (index : nat) (ds : list RemotePageDescriptor) : MV (list nat) :=
  match ds with
  | [] => mret []
  | d :: ds =>
      s ← getS;
      let future := sv_inflight_writes s !! pd_object_key d in
      let stale := match future with Some f => future_failed f s | None => false end in
      (if stale then pop_inflight (pd_object_key d) else mret tt);;
      rest ← required_pages (S index) ds;
      mret (if bool_decide (future = None) || stale then index :: rest else rest)
  end.
Definition pages_requiring_write (block_keys : list BlockKey) (descriptors : list RemotePageDescriptor) : MV (list nat) :=
  writeback_vectors block_keys descriptors;;
  published_pages ← on_catalog (catalog_match block_keys);
  required_pages (length published_pages) (drop (length published_pages) descriptors).

(** The two loops of [submit_writeback], the first from page [index]. *)
Fixpoint write_plan (index : nat) (envelopes_by_index : gmap nat bytes) (ds : list RemotePageDescriptor) (s : Service) :
    result (list (nat * RemotePageDescriptor * option nat)) :=
  match ds with
  | [] => mret []
  | d :: ds =>
      let future := sv_inflight_writes s !! pd_object_key d in
      throw_if (bool_decide (future = None) && bool_decide (envelopes_by_index !! index = None))
        (ValueError ("missing exported KV page " +:+ str_int (Z.of_nat index) +:+ " for write-back"));;
      rest ← write_plan (S index) envelopes_by_index ds s;
      mret ((index, d, future) :: rest)
  end.
Definition start_write (envelopes_by_index : gmap nat bytes) (item : nat * RemotePageDescriptor * option nat) : MV nat :=
  let '(index, d, future) := item in
  match future with
  | None =>
      envelope ← of_option (KeyError "index") (envelopes_by_index !! index);
      future ← submit (OpPut (pd_object_key d) envelope false);
      modifyS (λ s : Service, s <| sv_inflight_writes := <[pd_object_key d := future]> (sv_inflight_writes s) |>);;
      count_writeback (λ m, m <| writeback_pages := S (writeback_pages m) |>);;
      mret future
  | Some future =>
      count_writeback (λ m, m <| writeback_coalesced_pages := S (writeback_coalesced_pages m) |>);;
      mret future
  end.
Definition submit_writeback (block_keys : list BlockKey) (descriptors : list RemotePageDescriptor)
    (envelopes_by_index : gmap nat bytes) : MV (option PendingRemoteWriteback) :=
  writeback_vectors block_keys descriptors;;
  published_pages ← on_catalog (catalog_match block_keys);
  s ← getS;
  plan ← lift (write_plan (length published_pages) envelopes_by_index (drop (length published_pages) descriptors) s);
  if bool_decide (plan = []) then mret None
  else
    futures ← mapM_M (start_write envelopes_by_index) plan;
    count_writeback (λ m, m <| writeback_submitted := S (writeback_submitted m) |>);;
    p ← lift (pending_remote_writeback (mkPendingWriteback block_keys descriptors ((λ i, i.1.2) <$> plan) futures));
    mret (Some p).

(** [if self._inflight_writes.get(key) is future: pop] for each page *)
Definition forget_writes (p : PendingRemoteWriteback) : MV () :=
  forM (zip (wb_write_pages p) (wb_futures p)) (λ df,
    s ← getS;
    if bool_decide (sv_inflight_writes s !! pd_object_key df.1 = Some df.2) then pop_inflight (pd_object_key df.1) else mret tt).
Definition complete_writeback (p : PendingRemoteWriteback) (timed : bool) : MV () :=
  writeback_result timed p;;
  on_catalog (register (wb_block_keys p) (wb_pages p));;
  schedule_catalog_save;;
  forget_writes p;;
  count_writeback (λ m, m <| writeback_completed := S (writeback_completed m) |>).
Definition fail_writeback (p : PendingRemoteWriteback) : MV () :=
  forget_writes p;;
  count_writeback (λ m, m <| writeback_failed := S (writeback_failed m) |>).
Definition record_writeback_export_failure : MV () :=
  count_writeback (λ m, m <| writeback_export_failed := S (writeback_export_failed m) |>).

(** ** Restoring *)
(** [seq.block(i)] for the blocks that end before the last token *)
Definition cacheable_keys (seq : Sequence) : result (list BlockKey) :=
  mapR (λ i, block block_size i seq) (List.seq 0 (num_blocks block_size seq - 1)).
Definition service_plan_restore (seq : Sequence) (local_cached_blocks : nat) (prefill_ms_per_token : Q) :
    MV (option (RestoreCandidate RemotePageDescriptor)) :=
  block_keys ← lift (cacheable_keys seq);
  pages ← on_catalog (catalog_match block_keys);
  if length pages <=? local_cached_blocks then mret None
  else
    s ← getS;
    match sv_planner s with
    | None => mret (Some (mkRestoreCandidate pages 0 0))
    | Some planner =>
        plan ← lift (access_plan planner (Z.of_nat (num_tokens seq)) (Z.of_nat (local_cached_blocks * block_size))
                       [(MOONCAKE, Z.of_nat (length pages * block_size))] prefill_ms_per_token);
        if negb (bool_decide (ap_action plan = ActRestore)) || negb (bool_decide (ap_source_tier plan = MOONCAKE)) then mret None
        else
          raise_if (block_size =? 0) (ZeroDivisionError "integer division or modulo by zero");;
          let source_blocks := Z.to_nat (ap_source_cached_tokens plan / Z.of_nat block_size) in
          mret (Some (mkRestoreCandidate (take source_blocks pages) (ap_total_ms plan) (ap_transfer_bytes plan)))
    end.
Definition service_submit_restore (seq_id : nat) (pages : list RemotePageDescriptor) (block_ids : list nat) :
    MV PendingRemoteRestore :=
  raise_if (negb (length pages =? length block_ids) || bool_decide (pages = []))
    (ValueError "restore pages and block ids must have the same non-zero length");;
  futures ← mapM_M (λ page, submit (OpGet (pd_object_key page))) pages;
  lift (pending_remote_restore (mkPendingRestoreIO seq_id pages block_ids futures)).
(** [wait_for_any] *)
Definition wait_for_any (timed : bool) (pending_restores : list PendingRemoteRestore) : MV () :=
  s ← getS;
  let futures := filter (λ f, future_done f s = false) (concat (rr_futures <$> pending_restores)) in
  if bool_decide (futures = []) then mret tt
  else
    wait_turn;;
    s ← getS;
    raise_if (negb timed && forallb (λ f, negb (future_done f s)) futures) OutOfFuel.

(** ** [__init__], [metrics], [close] *)
Definition service_init (backend : B) (catalog : option RemotePrefixCatalog) (planner : option KVTransferPlanner)
    (catalog_key : option string) (catalog_identity : option (string * Z)) (catalog_timeout_s : Q) : result Service :=
  throw_if (match catalog_key with Some k => negb (nonempty k) | None => false end)
    (ValueError "persistent catalog key must not be empty");;
  throw_if (match catalog_identity with Some (digest, rank) => negb (nonempty digest) || (rank <? 0)%Z | None => false end)
    (ValueError "persistent catalog identity is invalid");;
  throw_if (Qle_bool catalog_timeout_s 0) (ValueError "persistent catalog timeout must be positive");;
  let s := mkRestoreService (default catalog_init catalog) planner (coordinator_init backend) [] catalog_key catalog_identity
             false ∅ [] [] (mkWritebackMetrics 0 0 0 0 0 0) (mkCatalogMetrics 0 0 0 0 0 0) 0 in
  match catalog_key with
  | None => mret s
  | Some key => match load_persistent_catalog key s with (inr _, s) => mret s | (inl e, _) => throw e end
  end.
Definition service_metrics : MV (list (string * nat)) :=
  flush_catalog_saves false;;
  s ← getS;
  mret (metrics_to_dict (tc_metrics (sv_coordinator s)) ++ writeback_dict (sv_writeback_metrics s)
        ++ catalog_dict (sv_catalog_metrics s) ++ [("catalog_save_pending", length (sv_pending_saves s))]).
(** One event of the coordinator, where it is enabled. *)
Definition coordinator_event (e : event) (s : Service) : Service :=
  match step e (sv_coordinator s) with Some c => s <| sv_coordinator := c |> | None => s end.
Definition service_close : MV () :=
  s ← getS;
  if sv_closed s then mret tt
  else
    flush_catalog_saves true;;
    modifyS (λ s : Service, s <| sv_closed := true |>);;
    modifyS (λ s : Service, loop_turn (replicate (length (sv_futures s)) LBegin) s);;
    modifyS (coordinator_event EClose);;
    wait_turn;;
    modifyS (coordinator_event ECloseBackend);;
    s ← getS;
    raise_if (match tc_phase (sv_coordinator s) with Closed => false | _ => true end) (TimeoutError "");;
    modifyS (λ s : Service, s <| sv_inflight_writes := ∅ |>).

#[export] Instance RemoteKV_service : RestoreService Service PendingRemoteRestore RemotePageDescriptor := {|
  plan_restore := service_plan_restore;
  submit_restore := service_submit_restore;
  transfer_done := restore_io_done;
  cancel_waiters := restore_cancel_waiters
|}.
End service.
