(* ===== verification/RemoteRestoreSpec.v ===== *)
(** * The remote restore service: futures and the catalog

    A future that is done stays as it is, whatever the event loop does; waiting for a
    transfer that reports itself done never blocks. A page enters the catalog only
    when the write of its object was acknowledged. *)
From S2P Require Import Prelude Json Blake2b Qos Sequence StorageBackend RemoteCatalog RadixCache RadixSpec PrefixCatalog PrefixCatalogSpec HierarchicalCache BlockManager BlockSpec TransferCoordinator SchedulerTrace Scheduler RemoteRestore.
Set Default Goal Selector "!".

(** ** The calls of the coordinator *)
Section calls.
Context {B : Type} `{KVStorageBackend B}.
Implicit Types (s : Coordinator B).

(** A call keeps its operation, and its outcome once it has one. *)
Definition call_later (l l' : list Call) : Prop :=
  ∀ c cl, l !! c = Some cl → ∃ cl', l' !! c = Some cl' ∧ cl_op cl' = cl_op cl ∧
    match cl_stage cl with Blocked _ _ _ => True | _ => cl' = cl end.
#[export] Instance call_later_preorder : PreOrder call_later.
Proof.
  split; [intros l c cl Hc; exists cl; split_and!; [done..|by destruct (cl_stage cl)]|].
  intros l1 l2 l3 H1 H2 c cl Hc. destruct (H1 c cl Hc) as (cl2 & Hc2 & E2 & S2). destruct (H2 c cl2 Hc2) as (cl3 & Hc3 & E3 & S3).
  exists cl3. split_and!; [done|congruence|]. destruct (cl_stage cl) eqn:Es; [done|subst cl2; by rewrite Es in S3..].
Qed.
Lemma call_later_app l l' : call_later l (l ++ l').
Proof. intros c cl Hc. exists cl. split_and!; [by apply lookup_app_l_Some|done|by destruct (cl_stage cl)]. Qed.
Lemma call_later_set l c o st t j r :
  l !! c = Some (mkCall o (Blocked t j r)) → call_later l (alter (λ cl, mkCall (cl_op cl) st) c l).
Proof.
  intros Hc c' cl Hc'. destruct (decide (c' = c)) as [->|Hne].
  - exists (mkCall o st). rewrite list_lookup_alter_eq, Hc. rewrite Hc in Hc'. injection Hc' as <-. by split_and!.
  - exists cl. rewrite list_lookup_alter_ne by done. split_and!; [done..|by destruct (cl_stage cl)].
Qed.

(** Methods that leave the calls alone. *)
Definition keeps {A} (m : M (Coordinator B) A) : Prop := ∀ s, tc_calls (m s).2 = tc_calls s.
Lemma keeps_bind {A A'} (m : M (Coordinator B) A) (k : A → M (Coordinator B) A') : keeps m → (∀ a, keeps (k a)) → keeps (m ≫= k).
Proof.
  intros Hm Hk s. unfold mbind, M_bind. specialize (Hm s). destruct (m s) as [[e|a] s']; cbn in *; [done|]. by rewrite Hk.
Qed.
Lemma keeps_modify f : (∀ s, tc_calls (f s) = tc_calls s) → keeps (modifyS f).
Proof. intros Hf s. apply Hf. Qed.
Lemma keeps_get : keeps getS. Proof. done. Qed.
Lemma keeps_ret {A} (a : A) : keeps (mret a). Proof. done. Qed.
Lemma keeps_raise {A} e : keeps (raise e : M (Coordinator B) A). Proof. done. Qed.
Lemma keeps_option {A} e (o : option A) : keeps (of_option e o). Proof. by destruct o. Qed.
Lemma keeps_raise_if b e : keeps (raise_if b e). Proof. by destruct b. Qed.
Lemma keeps_put_get {A} (g : Coordinator B → Coordinator B) (k : Coordinator B → M (Coordinator B) A) :
  (∀ s, tc_calls (g s) = tc_calls s) → (∀ s, keeps (k s)) → keeps (s ← getS; putS (g s);; k s).
Proof. intros Hg Hk s. unfold mbind, M_bind, getS, putS. by rewrite Hk. Qed.
Ltac keeps := repeat (cbv zeta; lazymatch goal with
  | |- keeps (mret _) => apply keeps_ret
  | |- keeps (raise _) => apply keeps_raise
  | |- keeps (of_option _ _) => apply keeps_option
  | |- keeps (raise_if _ _) => apply keeps_raise_if
  | |- keeps getS => apply keeps_get
  | |- keeps (modifyS _) => apply keeps_modify; intros s0; by destruct s0
  | |- keeps (getS ≫= λ s, putS _;; _) => apply keeps_put_get; [intros s0; by destruct s0|intros ?]
  | |- keeps (_ ≫= _) => apply keeps_bind; [|intros ?]
  | |- keeps (match _ with _ => _ end) => case_match
  end).

Lemma start_task_keeps key st run : keeps (start_task key st run).
Proof. unfold start_task, get_entry, create_task, set_entry. keeps. Qed.
Lemma get_attempt_keeps key : keeps (get_attempt key).
Proof. unfold get_attempt, get_entry, set_entry, TransferCoordinator.count. keeps; apply start_task_keeps. Qed.
Lemma leave_keeps key joined : keeps (leave key joined).
Proof. unfold leave, set_entry. keeps. Qed.
Lemma after_io_keeps tk r : keeps (after_io tk r).
Proof. unfold after_io, finish_failure, finish_success, set_entry, TransferCoordinator.count. keeps. Qed.
Lemma begin_body_keeps o : keeps (ensure_open;; check_key (op_key o);;
    match o with
    | OpGet key => get_attempt key
    | OpPut key payload overwrite => put_attempt key payload overwrite
    | OpEvict key => evict_attempt key
    end).
Proof.
  unfold ensure_open, check_key, put_attempt, evict_attempt, TransferCoordinator.count. keeps; first [apply get_attempt_keeps|apply start_task_keeps].
Qed.
Lemma returning_keeps m : keeps m → keeps (returning m).
Proof. intros Hm s. unfold returning, try_except. specialize (Hm s). by destruct (m s) as [[e|a] s']. Qed.

Lemma returning_run (m : M (Coordinator B) CallStage) s : ∃ a s', returning m s = (inr a, s').
Proof. unfold returning, try_except. destruct (m s) as [[e|a] s']; by eexists _, _. Qed.

Lemma begin_call_later o s :
  ∃ st, tc_calls (run_state (begin_call o) s) = tc_calls s ++ [mkCall o st].
Proof.
  unfold run_state, begin_call. set (m := returning _). assert (Hm : keeps m) by apply returning_keeps, begin_body_keeps.
  specialize (Hm s). unfold mbind, M_bind. destruct (returning_run _ s : ∃ a s', m s = (inr a, s')) as (a & s' & E). rewrite E in *. cbn in *. exists a. by rewrite Hm.
Qed.
Lemma same_calls s s' : tc_calls s' = tc_calls s → call_later (tc_calls s) (tc_calls s').
Proof. by intros ->. Qed.
Lemma set_call_later s s' c o t j r st :
  tc_calls s !! c = Some (mkCall o (Blocked t j r)) → tc_calls s' = tc_calls s →
  call_later (tc_calls s) (tc_calls (run_state (set_call c st) s')).
Proof. intros Hc E. cbn. rewrite E. by eapply call_later_set. Qed.
Lemma step_later e s s' : step e s = Some s' → call_later (tc_calls s) (tc_calls s').
Proof.
  destruct e as [o|t|t|t|c|c| |]; cbn [step]; intros Hs.
  - injection Hs as <-. destruct (begin_call_later o s) as [st ->]. apply call_later_app.
  - apply bind_Some in Hs as (tk & _ & Hs). repeat case_match; simplify_eq. by apply same_calls.
  - apply bind_Some in Hs as (tk & _ & Hs). repeat case_match; simplify_eq. by apply same_calls.
  - apply bind_Some in Hs as (tk & _ & Hs). destruct (tk_stage tk) as [| |r|]; simplify_eq.
    pose proof (after_io_keeps tk r s) as Hk. destruct (after_io tk r s) as [r' s1]. simplify_eq. apply same_calls. exact Hk.
  - apply bind_Some in Hs as ([o st] & Hc & Hs). cbn [cl_stage cl_op] in Hs. destruct st as [t j retry| |]; simplify_eq.
    apply bind_Some in Hs as (tk & _ & Hs). destruct (tk_stage tk) as [| | |r]; simplify_eq.
    unfold run_state, resume_call. unfold mbind at 1, M_bind at 1. set (m := returning _).
    destruct (returning_run _ s : ∃ a s', m s = (inr a, s')) as (a & s' & E). rewrite E.
    assert (Hm : keeps m); [|specialize (Hm s); rewrite E in Hm; by eapply set_call_later].
    apply returning_keeps. keeps; [apply leave_keeps|apply get_attempt_keeps].
  - apply bind_Some in Hs as ([o st] & Hc & Hs). cbn [cl_stage cl_op] in Hs. destruct st as [t j retry| |]; simplify_eq.
    unfold run_state, cancel_call. set (m := match o with OpGet _ => _ | _ => _ end).
    assert (Hm : keeps m) by (unfold m, TransferCoordinator.count; keeps). specialize (Hm s).
    unfold mbind, M_bind. destruct (m s) as [[e|u] s1]; [by apply same_calls|]. pose proof (leave_keeps (op_key o) j s1) as Hl.
    destruct (leave (op_key o) j s1) as [[e|v] s2]; cbn [snd] in *; [apply same_calls; congruence|].
    eapply (set_call_later s s2); [exact Hc|congruence].
  - injection Hs as <-. by apply same_calls.
  - repeat case_match; simplify_eq. by apply same_calls.
Qed.
End calls.

(** ** Futures *)
Section futures.
Context {B : Type} `{KVStorageBackend B} `{FloatRepr}.
Implicit Types (s : RemoteKVRestoreService B) (f : nat).
Abbreviation MV := (M (RemoteKVRestoreService B)).

(** The operation a future stands for, until it is cancelled. *)
Definition future_op f s : option Op :=
  match sv_futures s !! f with
  | Some (FQueued o) => Some o
  | Some (FRunning c) => cl_op <$> tc_calls (sv_coordinator s) !! c
  | _ => None
  end.
(** Time passes: futures keep their operations and outcomes. *)
Definition later s s' : Prop :=
  ∀ f, (future_view f s ≠ VPending → future_view f s' = future_view f s) ∧
    ∀ o, future_op f s = Some o → future_op f s' = Some o ∨ future_view f s' = VCancelled.
#[export] Instance later_preorder : PreOrder later.
Proof.
  split; [intros s f; split; [done|by left]|]. intros s1 s2 s3 H1 H2 f. destruct (H1 f) as [V1 O1], (H2 f) as [V2 O2]. split.
  - intros Hv. rewrite <-(V1 Hv). apply V2. by rewrite (V1 Hv).
  - intros o Ho. destruct (O1 o Ho) as [Ho2|Hc]; [by apply O2|]. right. rewrite V2; [done|by rewrite Hc].
Qed.
Lemma later_same s s' : sv_futures s' = sv_futures s → sv_coordinator s' = sv_coordinator s → later s s'.
Proof. intros Ef Ec f. unfold future_view, future_op. rewrite Ef, Ec. split; [done|by left]. Qed.
Lemma later_calls s c : call_later (tc_calls (sv_coordinator s)) (tc_calls c) → later s (s <| sv_coordinator := c |>).
Proof.
  intros Hc f. unfold future_view, future_op. change (sv_futures (s <| sv_coordinator := c |>)) with (sv_futures s).
  change (sv_coordinator (s <| sv_coordinator := c |>)) with c.
  destruct (sv_futures s !! f) as [[o|k|k]|]; try by (split; [|left]).
  destruct (tc_calls (sv_coordinator s) !! k) as [cl|] eqn:Ek; [|by split; [|intros o [=]]].
  destruct (Hc k cl Ek) as (cl' & -> & Eo & Es). split.
  - intros Hv. destruct (cl_stage cl) eqn:Est; [done|by subst cl'; rewrite Est..].
  - intros o. cbn. rewrite Eo. by left.
Qed.
Lemma next_queued_lookup s f o : next_queued s = Some (f, o) → sv_futures s !! f = Some (FQueued o).
Proof.
  unfold next_queued. intros Hh. apply head_Some_elem_of, list_elem_of_omap in Hh as ([g st] & Hg & Hst). cbn in Hst.
  destruct st; simplify_eq. by apply elem_of_lookup_imap in Hg as (i & x & [= -> ->] & Hi).
Qed.
Lemma later_begin s f o :
  sv_futures s !! f = Some (FQueued o) →
  later s (set_future f (FRunning (length (tc_calls (sv_coordinator s))))
             (s <| sv_coordinator := run_state (begin_call o) (sv_coordinator s) |>)).
Proof.
  intros Hf. destruct (begin_call_later o (sv_coordinator s)) as [st Hc].
  trans (s <| sv_coordinator := run_state (begin_call o) (sv_coordinator s) |>).
  { apply later_calls. rewrite Hc. apply call_later_app. }
  set (s1 := s <| sv_coordinator := _ |>). intros g. unfold future_view, future_op, set_future.
  change (sv_futures (s1 <| sv_futures := ?x |>)) with x. change (sv_coordinator (s1 <| sv_futures := ?x |>)) with (sv_coordinator s1).
  change (sv_futures s1) with (sv_futures s). destruct (decide (g = f)) as [->|Hne].
  - rewrite list_lookup_alter_eq, Hf. cbn [fmap option_fmap option_map]. split; [done|]. intros o' [= <-]. left.
    change (sv_coordinator s1) with (run_state (begin_call o) (sv_coordinator s)). rewrite Hc, lookup_app_r, Nat.sub_diag by lia. done.
  - rewrite list_lookup_alter_ne by done. split; [done|by left].
Qed.
Lemma loop_step_later e s : later s (loop_step e s).
Proof.
  destruct e as [|e]; cbn [loop_step].
  - destruct (next_queued s) as [[f o]|] eqn:E; [|reflexivity]. by apply later_begin, next_queued_lookup.
  - destruct (loop_allowed e s); [|reflexivity]. destruct (step e (sv_coordinator s)) eqn:Es; [|reflexivity].
    by eapply later_calls, step_later.
Qed.

(** The main thread's state apart from its view of the loop. *)
Definition same_main s s' : Prop :=
  sv_catalog s' = sv_catalog s ∧ sv_inflight_writes s' = sv_inflight_writes s ∧ sv_closed s' = sv_closed s.
Definition io_only s s' : Prop := later s s' ∧ same_main s s'.
#[export] Instance io_only_preorder : PreOrder io_only.
Proof.
  split; [intros s; by split|]. intros s1 s2 s3 [L1 (?&?&?)] [L2 (?&?&?)]. split; [by etrans|]. split_and!; congruence.
Qed.
Lemma loop_turn_io es s : io_only s (loop_turn es s).
Proof.
  unfold loop_turn. revert s. induction es as [|e es IH]; intros s; cbn [foldl]; [reflexivity|]. etrans; [|apply IH].
  split; [apply loop_step_later|]. destruct e as [|e]; cbn [loop_step]; [by destruct (next_queued s) as [[f o]|]|].
  destruct (loop_allowed e s); [|done]. by destruct (step e (sv_coordinator s)).
Qed.
Lemma submit_spec o s :
  wp (submit o) (λ f s', io_only s s' ∧ future_op f s' = Some o ∧ sv_closed s = false) (λ e s', s' = s) s.
Proof.
  unfold submit. wp_step. wp_step. wp_step. apply wp_raise_if; [|done]. intros Hc. wp_step. wp_step. wp_step. split_and!; [|by unfold future_op; cbn; rewrite lookup_app_r, Nat.sub_diag by lia|done].
  split; [|done]. intros f. unfold future_view, future_op. cbn [sv_futures sv_coordinator setter set_sv_futures].
  destruct (sv_futures s !! f) as [st|] eqn:Ef; [|by split].
  rewrite (lookup_app_l_Some _ _ _ _ Ef). split; [done|by left].
Qed.
Lemma future_cancel_spec f s : wp (future_cancel f) (λ _ s', io_only s s') noexn s.
Proof.
  unfold future_cancel. wp_step. wp_step. destruct (future_done f s) eqn:Ed; wp_step; [reflexivity|]. split; [|done].
  match goal with |- context [FCancelled ?x] => generalize x; intros c end. intros g. unfold future_done, future_view, future_op, set_future in *.
  cbn [sv_futures sv_coordinator setter set_sv_futures]. destruct (decide (g = f)) as [->|Hne].
  - rewrite list_lookup_alter_eq. destruct (sv_futures s !! f) as [[o|k|k]|]; cbn [fmap option_fmap option_map] in *; try done; [by split; [|right]|].
    split; [|by right]. by destruct (tc_calls (sv_coordinator s) !! k) as [[? []]|].
  - rewrite list_lookup_alter_ne by done. split; [done|by left].
Qed.

Context (turns : nat → list loop_event).
Lemma wait_turn_spec s : wp (wait_turn turns) (λ _ s', io_only s s') noexn s.
Proof. unfold wait_turn. wp_step. wp_step. wp_step. etrans; [|apply loop_turn_io]. split; [by apply later_same|done]. Qed.
Lemma future_result_spec timed f s :
  wp (future_result turns timed f) (λ v s', io_only s s' ∧ future_view f s' = VDone (inr v))
    (λ e s', io_only s s' ∧ (future_view f s' = VCancelled ∧ e = CancelledError ∨ future_view f s' = VDone (inl e) ∨ future_view f s' = VPending)) s.
Proof.
  unfold future_result. wp_step. wp_step. wp_step.
  apply (wp_mono _ (λ _ s', io_only s s') _ noexn); [destruct (future_done f s); [by wp_step|apply wait_turn_spec]| |done].
  intros _ s1 H1. wp_step. wp_step. destruct (future_view f s1) as [| |r] eqn:Ev.
  - wp_step. split; [done|by right; right].
  - wp_step. split; [done|by left].
  - apply wp_lift; intros x ->; split; auto.
Qed.
(** A future that is done is read at once. *)
Lemma future_result_done timed f s :
  future_done f s = true →
  future_result turns timed f s = (match future_view f s with VDone r => r | _ => inl CancelledError end, s).
Proof.
  intros Hd. unfold future_result, mbind, M_bind, getS. rewrite Hd. cbn [mret M_ret]. unfold future_done in Hd.
  unfold mret, M_ret. by destruct (future_view f s).
Qed.

(** ** A transfer that reports itself done *)
(** The page [d] did not arrive, for the reason [e]. *)
Definition page_failed (d : RemotePageDescriptor) (v : FutureView) (e : exn) : Prop :=
  v = VCancelled ∧ e = CancelledError ∨ v = VDone (inl e) ∨ v = VDone (inr None) ∧ e = page_missing d.
Lemma settled_pages timed l s :
  ∃ r, forM l (λ df, s ← getS;
         if negb (future_done df.2 s) then mret tt
         else envelope ← future_result turns timed df.2; raise_if (bool_decide (envelope = None)) (page_missing df.1)) s = (r, s) ∧
    match r with
    | inr _ => ∀ d f, (d, f) ∈ l → future_done f s = true → ∃ v, future_view f s = VDone (inr (Some v))
    | inl e => ∃ d f, (d, f) ∈ l ∧ page_failed d (future_view f s) e
    end.
Proof.
  induction l as [|[d f] l (r & Hr & IH)]; cbn [forM]; [eexists; split; [done|by intros d f ?%not_elem_of_nil]|].
  unfold mbind at 1, M_bind at 1. cbn [fst snd]. set (m := getS ≫= _).
  assert (Hm : (∃ e, m s = (inl e, s) ∧ page_failed d (future_view f s) e) ∨
    m s = (inr tt, s) ∧ (future_done f s = true → ∃ v, future_view f s = VDone (inr (Some v)))).
  { change (m s) with ((if negb (future_done f s) then mret tt else
      envelope ← future_result turns timed f; raise_if (bool_decide (envelope = None)) (page_missing d)) s). clear m.
    destruct (future_done f s) eqn:Ed; cbn [negb]; [|by right].
    unfold mbind, M_bind. rewrite future_result_done by done. unfold future_done in Ed.
    destruct (future_view f s) as [| |[e|[v|]]]; [done|left|left|right|left].
    - exists CancelledError. split; [done|by left].
    - exists e. split; [done|by right; left].
    - split; [done|]. intros _. by exists v.
    - exists (page_missing d). split; [done|by right; right]. }
  destruct Hm as [(e & -> & He)|[-> Hok]].
  - exists (inl e). split; [done|]. exists d, f. split; [by left|done].
  - exists r. split; [done|]. destruct r as [e|u].
    + destruct IH as (d' & f' & ? & ?). exists d', f'. split; [by right|done].
    + intros d' f' [[= -> ->]|Hin]%elem_of_cons; [done|by eapply IH].
Qed.

(** When a pending restore reports itself done, [result] does not wait: it returns the
    envelope of every page, in order, or raises the failure of one of the pages. *)
Theorem restore_result_ready timed p s :
  pending_remote_restore p = inr p → restore_io_done p s = true →
  ∃ r, restore_result turns timed p s = (r, s) ∧
    match r with
    | inr envelopes => Forall2 (λ f v, future_view f s = VDone (inr (Some v))) (rr_futures p) envelopes
    | inl e => ∃ d f, (d, f) ∈ zip (rr_pages p) (rr_futures p) ∧ page_failed d (future_view f s) e
    end.
Proof.
  intros Hp Hdone. unfold pending_remote_restore in Hp. result_inv. breflect. clear Hp.
  assert (Hlen : length (rr_pages p) = length (rr_futures p)) by done.
  unfold restore_result. destruct (settled_pages timed (zip (rr_pages p) (rr_futures p)) s) as (r & Hr & Hcase).
  unfold mbind at 1, M_bind at 1. rewrite Hr. destruct r as [e|u]; [by exists (inl e)|].
  assert (Hin : ∀ f, f ∈ rr_futures p → ∃ d, (d, f) ∈ zip (rr_pages p) (rr_futures p)).
  { intros f [i Hi]%list_elem_of_lookup. destruct (lookup_lt_is_Some_2 (rr_pages p) i) as [d Hd]; [rewrite Hlen; by eapply lookup_lt_Some|].
    exists d. apply list_elem_of_lookup. exists i. by apply lookup_zip_Some. }
  assert (Hall : ∀ f, f ∈ rr_futures p → ∃ v, future_view f s = VDone (inr (Some v))).
  { intros f Hf. destruct (Hin f Hf) as [d Hd]. apply (Hcase d f Hd). unfold restore_io_done in Hdone. apply orb_true_iff in Hdone as [Hx|Hx].
    - apply existsb_exists in Hx as (g & Hg%list_elem_of_In & Hbad). destruct (Hin g Hg) as [d' Hd']. exfalso.
      destruct (Hcase d' g Hd') as [v Hv]; [|by unfold future_failed in Hbad; rewrite Hv in Hbad].
      unfold future_failed, future_done in *. by destruct (future_view g s) as [| |[]].
    - rewrite forallb_forall in Hx. by apply Hx, list_elem_of_In. }
  destruct (proj1 (Forall_exists_Forall2_l (λ f v, future_view f s = VDone (inr (Some v))) (rr_futures p))) as [vs Hvs]; [by apply Forall_forall|].
  exists (inr vs). split; [|done]. apply (mapM_reads_all (λ _ _, True)).
  assert (Hz : (zip (rr_pages p) (rr_futures p)).*2 = rr_futures p) by (apply snd_zip; lia). rewrite <-Hz in Hvs.
  apply Forall2_fmap_l in Hvs. eapply Forall2_impl; [exact Hvs|]. intros [d f] v Hv. cbn [fst snd] in *.
  unfold mbind, M_bind. rewrite future_result_done by (unfold future_done; by rewrite Hv). by rewrite Hv.
Qed.
End futures.

(** ** What leaves the catalog's knowledge alone *)
Definition reads {A} (m : M RemotePrefixCatalog A) : Prop := ∀ c, (m c).2 = c.
Lemma reads_snapshot : reads catalog_snapshot.
Proof.
  assert (Hb : ∀ A A' (m : M RemotePrefixCatalog A) (k : A → M RemotePrefixCatalog A'), reads m → (∀ a, reads (k a)) → reads (m ≫= k)).
  { intros A A' m k Hm Hk c'. unfold mbind, M_bind. specialize (Hm c'). destruct (m c') as [[e|a] c1]; cbn in *; [done|]. subst c1. apply Hk. }
  assert (Hl : ∀ A (r : result A), reads (lift r)) by done. assert (Hret : ∀ A (a : A), reads (mret a)) by done.
  assert (Hm : ∀ A A' (f : A → M RemotePrefixCatalog A') l, (∀ a, reads (f a)) → reads (mapM_M f l)).
  { intros A A' f l Hf. induction l as [|x l IH]; [done|]. cbn. apply Hb; [apply Hf|]. intros y. by apply Hb. }
  assert (Hd : ∀ n, reads (on_index (deref n))).
  { intros n c'. unfold on_index, deref, mbind, M_bind, getS. destruct (heap (ct_index c') !! n); apply catalog_eta. }
  assert (Hh : ∀ h, reads (describe h)) by (intros h c'; unfold describe, mbind, M_bind, getS; by destruct (ct_descriptors c' !! h)).
  assert (Hv : ∀ fuel n ks hs, reads (catalog_visit fuel n ks hs)).
  { induction fuel as [|fuel IH]; intros n ks hs; [done|]. cbn [catalog_visit]. apply Hb; [apply Hd|]. intros nd. cbv zeta.
    destruct (negb _ && _); apply Hb.
    - apply Hm. intros h. by apply Hb.
    - intros ps. by apply Hb.
    - apply Hm. intros m. by apply Hb.
    - intros es. apply Hb; [|done]. apply Hm. intros e. apply IH. }
  intros c. unfold catalog_snapshot, mbind at 1, M_bind at 1, getS. destruct (ct_identity c) as [[dg rank]|]; [|done].
  match goal with |- (?m c).2 = c => cut (reads m); [by intros Hx|] end.
  apply Hb; [apply Hv|]. intros ps. by apply Hb.
Qed.

Section steady.
Context {B : Type} `{KVStorageBackend B} `{FloatRepr}.
Implicit Types (s : RemoteKVRestoreService B) (f : nat).
Abbreviation MV := (M (RemoteKVRestoreService B)).
Context (turns : nat → list loop_event).

Definition steady s s' : Prop :=
  later s s' ∧ (∀ D, known D (sv_catalog s) → known D (sv_catalog s')) ∧ sv_inflight_writes s' ⊆ sv_inflight_writes s.
#[export] Instance steady_preorder : PreOrder steady.
Proof. split; [intros s; by split_and!|]. intros s1 s2 s3 (?&?&?) (?&?&?). split_and!; [by etrans|auto|by etrans]. Qed.
Lemma io_steady s s' : io_only s s' → steady s s'.
Proof. intros (Hl & Ec & Ei & _). unfold steady. by rewrite Ec, Ei. Qed.

(** Methods that only do that, whatever their outcome. *)
Definition quietly {A} (m : MV A) : Prop := ∀ s, steady s (m s).2.
Lemma quietly_wp {A} (m : MV A) s : quietly m → wp m (λ _ s', steady s s') (λ _ s', steady s s') s.
Proof. intros Hm. unfold wp. specialize (Hm s). by destruct (m s) as [[e|a] s']. Qed.
Lemma wp_quietly {A} (m : MV A) : (∀ s, wp m (λ _ s', steady s s') (λ _ s', steady s s') s) → quietly m.
Proof. intros Hm s. specialize (Hm s). unfold wp in Hm. by destruct (m s) as [[e|a] s']. Qed.
Lemma quietly_bind {A A'} (m : MV A) (k : A → MV A') : quietly m → (∀ a, quietly (k a)) → quietly (m ≫= k).
Proof.
  intros Hm Hk s. unfold mbind, M_bind. specialize (Hm s). destruct (m s) as [[e|a] s']; cbn in *; [done|]. etrans; [done|apply Hk].
Qed.
Lemma quietly_get_bind {A} (k : RemoteKVRestoreService B → MV A) : (∀ s, steady s (k s s).2) → quietly (getS ≫= k).
Proof. intros Hk s. apply Hk. Qed.
Lemma quietly_ret {A} (a : A) : quietly (mret a). Proof. done. Qed.
Lemma quietly_get : quietly getS. Proof. done. Qed.
Lemma quietly_raise {A} e : quietly (raise e : MV A). Proof. done. Qed.
Lemma quietly_raise_if b e : quietly (raise_if b e). Proof. by destruct b. Qed.
Lemma quietly_lift {A} (r : result A) : quietly (lift r). Proof. done. Qed.
Lemma quietly_option {A} e (o : option A) : quietly (of_option e o). Proof. by destruct o. Qed.
Lemma quietly_modify g : (∀ s, steady s (g s)) → quietly (modifyS g).
Proof. intros Hg s. apply Hg. Qed.
Lemma quietly_forM {A} (l : list A) g : (∀ a, quietly (g a)) → quietly (forM l g).
Proof. intros Hg. induction l as [|x l IH]; cbn [forM]; [done|]. apply quietly_bind; [apply Hg|done]. Qed.
Lemma quietly_mapM {A A'} (l : list A) (g : A → MV A') : (∀ a, quietly (g a)) → quietly (mapM_M g l).
Proof. intros Hg. induction l as [|x l IH]; cbn [mapM_M]; [done|]. apply quietly_bind; [apply Hg|]. intros y. by apply quietly_bind. Qed.
Lemma quietly_try {A} (m : MV A) h : quietly m → (∀ e, quietly (h e)) → quietly (try_except m h).
Proof. intros Hm Hh s. unfold try_except. specialize (Hm s). destruct (m s) as [[e|a] s']; cbn in *; [|done]. etrans; [done|apply Hh]. Qed.
Lemma quietly_finally {A} (m : MV A) h : quietly m → quietly h → quietly (try_finally m h).
Proof.
  intros Hm Hh s. unfold try_finally. specialize (Hm s). destruct (m s) as [[e|a] s'] eqn:E; cbn in *; specialize (Hh s'); destruct (h s') as [[]]; cbn in *; by etrans.
Qed.
Lemma steady_fields s s' :
  sv_futures s' = sv_futures s → sv_coordinator s' = sv_coordinator s → sv_catalog s' = sv_catalog s →
  sv_inflight_writes s' = sv_inflight_writes s → steady s s'.
Proof. intros Ef Ec Ek Ei. split; [by apply later_same|]. by rewrite Ek, Ei. Qed.

Lemma submit_quiet o : quietly (submit o).
Proof.
  apply wp_quietly. intros s. eapply wp_mono; [apply submit_spec| |by intros e s' ->]. intros f s' (? & _). by apply io_steady.
Qed.
Lemma wait_turn_quiet : quietly (wait_turn turns).
Proof. apply wp_quietly. intros s. eapply wp_mono; [apply wait_turn_spec| |by intros ? ? []]. intros u s'. apply io_steady. Qed.
Lemma future_cancel_quiet f : quietly (future_cancel f).
Proof. apply wp_quietly. intros s. eapply wp_mono; [apply future_cancel_spec| |by intros ? ? []]. intros u s'. apply io_steady. Qed.
Lemma future_result_quiet timed f : quietly (future_result turns timed f).
Proof.
  apply wp_quietly. intros s. eapply wp_mono; [apply future_result_spec| |].
  - intros v s' (? & _). by apply io_steady.
  - intros e s' (? & _). by apply io_steady.
Qed.
Lemma on_catalog_match_quiet keys : quietly (on_catalog (catalog_match keys)).
Proof.
  intros s. unfold on_catalog. destruct (catalog_match keys (sv_catalog s)) as [r c] eqn:E.
  split; [by apply later_same|]. split; [|done]. intros D HD. destruct (catalog_match_spec D _ keys HD) as (c' & Hrun & HD' & _).
  rewrite E in Hrun. by injection Hrun as _ ->.
Qed.
Lemma on_catalog_reads_quiet {A} (m : M RemotePrefixCatalog A) : reads m → quietly (on_catalog m).
Proof.
  intros Hm s. unfold on_catalog. specialize (Hm (sv_catalog s)). destruct (m (sv_catalog s)) as [r c]. cbn in Hm. subst c.
  by apply steady_fields; destruct s.
Qed.

Create HintDb quiet_db.
#[local] Hint Resolve submit_quiet wait_turn_quiet future_cancel_quiet future_result_quiet on_catalog_match_quiet : quiet_db.
#[local] Hint Resolve on_catalog_reads_quiet reads_snapshot : quiet_db.
Ltac quiet := repeat (cbv zeta; lazymatch goal with
  | |- quietly (mret _) => apply quietly_ret
  | |- quietly (raise _) => apply quietly_raise
  | |- quietly (of_option _ _) => apply quietly_option
  | |- quietly (raise_if _ _) => apply quietly_raise_if
  | |- quietly (lift _) => apply quietly_lift
  | |- quietly getS => apply quietly_get
  | |- quietly (modifyS _) => apply quietly_modify; intros s0; by apply steady_fields
  | |- quietly (forM _ _) => apply quietly_forM; intros ?
  | |- quietly (mapM_M _ _) => apply quietly_mapM; intros ?
  | |- quietly (try_except _ _) => apply quietly_try; [|intros ?]
  | |- quietly (try_finally _ _) => apply quietly_finally
  | |- quietly (_ ≫= _) => apply quietly_bind; [|intros ?]
  | |- quietly (match _ with _ => _ end) => case_match
  | |- quietly _ => solve [eauto with quiet_db]
  end).

Lemma record_failure_quiet g e : quietly (record_catalog_failure g e).
Proof. unfold record_catalog_failure, count_catalog. quiet. Qed.
#[local] Hint Resolve record_failure_quiet : quiet_db.
Lemma schedule_save_quiet : quietly schedule_catalog_save.
Proof. unfold schedule_catalog_save, count_catalog. quiet. Qed.
#[local] Hint Resolve schedule_save_quiet : quiet_db.
Lemma drop_save_quiet f : quietly (s ← getS;
  pending ← of_option (ValueError "list.remove(x): x not in list") (remove_first f (sv_pending_saves s));
  putS (s <| sv_pending_saves := pending |>)).
Proof. apply quietly_get_bind. intros s. destruct (remove_first f (sv_pending_saves s)); [by apply steady_fields|reflexivity]. Qed.
#[local] Hint Resolve drop_save_quiet : quiet_db.
Lemma flush_quiet b : quietly (flush_catalog_saves turns b).
Proof.
  unfold flush_catalog_saves, count_catalog. apply quietly_bind; [quiet|]. intros s. apply quietly_forM. intros f.
  apply quietly_bind; [quiet|]. intros s'. case_match; [quiet|]. apply quietly_finally; [quiet|]. apply drop_save_quiet.
Qed.
Lemma pop_quiet key : quietly (pop_inflight key).
Proof. intros s. split; [by apply later_same|]. split; [done|]. apply delete_subseteq. Qed.
#[local] Hint Resolve flush_quiet pop_quiet : quiet_db.
Lemma required_quiet i ds : quietly (required_pages i ds).
Proof. revert i. induction ds as [|d ds IH]; intros i; cbn [required_pages]; quiet. Qed.
#[local] Hint Resolve required_quiet : quiet_db.
Lemma requiring_quiet keys ds : quietly (pages_requiring_write keys ds).
Proof. unfold pages_requiring_write, writeback_vectors. quiet. Qed.
Lemma forget_quiet p : quietly (forget_writes p).
Proof. unfold forget_writes. quiet. Qed.
#[local] Hint Resolve forget_quiet : quiet_db.
Lemma fail_writeback_quiet p : quietly (fail_writeback p).
Proof. unfold fail_writeback, count_writeback. quiet. Qed.
Lemma export_failure_quiet : quietly record_writeback_export_failure.
Proof. unfold record_writeback_export_failure, count_writeback. quiet. Qed.
Lemma plan_restore_quiet bs seq n rate : quietly (service_plan_restore bs seq n rate).
Proof. unfold service_plan_restore. quiet. Qed.
Lemma submit_restore_quiet i pages ids : quietly (service_submit_restore i pages ids).
Proof. unfold service_submit_restore. quiet. Qed.
Lemma restore_result_quiet timed p : quietly (restore_result turns timed p).
Proof. unfold restore_result. quiet. Qed.
Lemma cancel_waiters_quiet p : quietly (restore_cancel_waiters p).
Proof. unfold restore_cancel_waiters. quiet. Qed.
Lemma wait_for_any_quiet timed ps : quietly (wait_for_any turns timed ps).
Proof. unfold wait_for_any. quiet. Qed.
Lemma metrics_quiet : quietly (service_metrics turns).
Proof. unfold service_metrics. quiet. Qed.
Lemma coordinator_event_steady e s : steady s (coordinator_event e s).
Proof.
  unfold coordinator_event. destruct (step e (sv_coordinator s)) as [c|] eqn:Es; [|reflexivity].
  split; [|done]. by eapply later_calls, step_later.
Qed.
Lemma close_quiet : quietly (service_close turns).
Proof.
  assert (He : ∀ e, quietly (modifyS (coordinator_event e))) by (intros e; apply quietly_modify, coordinator_event_steady).
  assert (Hb : quietly (modifyS (λ s : RemoteKVRestoreService B, loop_turn (replicate (length (sv_futures s)) LBegin) s))).
  { apply quietly_modify. intros s. apply io_steady, loop_turn_io. }
  assert (Hc : quietly (modifyS (λ s : RemoteKVRestoreService B, s <| sv_inflight_writes := ∅ |>))).
  { apply quietly_modify. intros s. split; [by apply later_same|]. split; [done|]. apply map_empty_subseteq. }
  unfold service_close. apply quietly_bind; [quiet|]. intros s. case_match; [quiet|].
  repeat (apply quietly_bind; [first [apply He|apply Hb|apply Hc|quiet]|intros ?]). first [apply Hc|quiet].
Qed.
End steady.

(** ** What the catalog knows was written *)
Section acknowledged.
Context {B : Type} `{KVStorageBackend B} `{FloatRepr}.
Implicit Types (s : RemoteKVRestoreService B) (f : nat) (D : page_map).
Abbreviation MV := (M (RemoteKVRestoreService B)).
Context (turns : nat → list loop_event) (D0 : page_map).

(** A write of the object [key] returned without an exception. *)
Definition acknowledged (key : string) s : Prop :=
  ∃ f payload overwrite v, future_op f s = Some (OpPut key payload overwrite) ∧ future_view f s = VDone (inr v).
(** The future [f] is a write of [key], or was cancelled. *)
Definition writes (key : string) f s : Prop :=
  (∃ payload overwrite, future_op f s = Some (OpPut key payload overwrite)) ∨ future_view f s = VCancelled.
Lemma acknowledged_later key s s' : later s s' → acknowledged key s → acknowledged key s'.
Proof.
  intros Hl (f & p & ow & v & Ho & Hv). destruct (Hl f) as [V O]. exists f, p, ow, v.
  assert (Hv' : future_view f s' = VDone (inr v)) by (rewrite <-Hv; apply V; by rewrite Hv).
  split; [|done]. destruct (O _ Ho) as [?|E]; [done|congruence].
Qed.
Lemma writes_later key f s s' : later s s' → writes key f s → writes key f s'.
Proof.
  intros Hl Hw. destruct (Hl f) as [V O]. destruct Hw as [(p & ow & Ho)|Hc]; [|right; rewrite V; [done|by rewrite Hc]].
  destruct (O _ Ho); [left; eauto|by right].
Qed.
Lemma writes_acknowledged key f s v : writes key f s → future_view f s = VDone (inr v) → acknowledged key s.
Proof. intros [(p & ow & Ho)|Hc] Hv; [by exists f, p, ow, v|congruence]. Qed.

(** The service knows the pages [D]: those of [D0] and acknowledged ones. *)
Record written D s : Prop := {
  wr_known : known D (sv_catalog s);
  wr_start : D0 ⊆ D;
  wr_pages ks d : D !! ks = Some d → D0 !! ks = Some d ∨ acknowledged (pd_object_key d) s;
  wr_inflight key f : sv_inflight_writes s !! key = Some f → writes key f s
}.
Lemma written_steady D s s' : steady s s' → written D s → written D s'.
Proof.
  intros (Hl & Hk & Hi) [W1 W2 W3 W4]. split; [by apply Hk|done| |].
  - intros ks d Hd. destruct (W3 ks d Hd); [by left|right; by eapply acknowledged_later].
  - intros key f Hf. eapply writes_later; [exact Hl|]. apply W4. by eapply lookup_weaken.
Qed.
(** A write-back in progress: the pages before the [n]th were known when it started. *)
Definition writeback_ok D s (p : PendingRemoteWriteback) : Prop :=
  ∃ n, wb_write_pages p = drop n (wb_pages p) ∧ length (wb_block_keys p) = length (wb_pages p) ∧
    Forall2 (λ d f, writes (pd_object_key d) f s) (wb_write_pages p) (wb_futures p) ∧
    ∀ i, i < n → i < length (wb_block_keys p) → is_Some (D !! take (S i) (wb_block_keys p)).
Lemma writeback_ok_later D D' s s' p : later s s' → D ⊆ D' → writeback_ok D s p → writeback_ok D' s' p.
Proof.
  intros Hl HD (n & E & Hlen & HF & Hn). exists n. split_and!; [done|done| |].
  - eapply Forall2_impl; [exact HF|]. intros d f. by apply writes_later.
  - intros i Hi Hik. destruct (Hn i Hi Hik) as [d Hd]. exists d. by eapply lookup_weaken.
Qed.

(** The state moves on: more may be known. *)
Definition advances D s s' : Prop := later s s' ∧ ∃ D', D ⊆ D' ∧ written D' s'.
Lemma steady_advances D s s' : written D s → steady s s' → advances D s s'.
Proof. intros HW HS. split; [apply HS|]. exists D. split; [done|by eapply written_steady]. Qed.
Lemma advances_steady D s s1 s' : advances D s s1 → steady s1 s' → advances D s s'.
Proof. intros [Hl (D' & HD & HW)] HS. split; [etrans; [done|apply HS]|]. exists D'. split; [done|by eapply written_steady]. Qed.
Lemma steady_then D s s1 s' : written D s → steady s s1 → (written D s1 → advances D s1 s') → advances D s s'.
Proof. intros HW HS Hk. destruct Hk as [Hl HD]; [by eapply written_steady|]. split; [etrans; [apply HS|done]|done]. Qed.

(** [register] of pages that are known or acknowledged. *)
Lemma register_advances D s keys ds :
  written D s →
  (∀ i d, ds !! i = Some d → D !! take (S i) keys = None → acknowledged (pd_object_key d) s) →
  wp (on_catalog (register keys ds)) (λ _ s', advances D s s') (λ _ s', advances D s s') s.
Proof.
  intros HW Hnew. pose proof HW as [W1 W2 W3 W4]. unfold wp, on_catalog.
  assert (Hsame : ∀ c', c' = sv_catalog s → advances D s (s <| sv_catalog := c' |>)).
  { intros c' ->. apply steady_advances; [done|]. by apply steady_fields. }
  destruct (register_total D (sv_catalog s) keys ds W1) as [(_ & _ & Hr)|[(idn & c' & Hv & Hr & HK & _)|(msg & Hr & _)]]; rewrite Hr; [by apply Hsame| |by apply Hsame].
  set (s' := s <| sv_catalog := c' |>). assert (Hl : later s s') by by apply later_same.
  split; [done|]. exists (D ∪ path_map keys ds). split; [apply map_union_subseteq_l|]. destruct Hv as [(Hlen & _) _]. split.
  - exact HK.
  - etrans; [exact W2|apply map_union_subseteq_l].
  - intros ks d [Hd|[Hn Hd]]%lookup_union_Some_raw.
    + destruct (W3 ks d Hd); [by left|right; by eapply acknowledged_later].
    + apply lookup_path_map in Hd as (i & Hi & ->); [|done]. right. eapply acknowledged_later; [exact Hl|]. by eapply Hnew.
  - intros key f Hf. eapply writes_later; [exact Hl|]. by apply W4.
Qed.

Lemma results_spec timed fs s :
  wp (forM fs (λ f, future_result turns timed f;; mret tt)) (λ _ s', steady s s' ∧ ∀ f, f ∈ fs → ∃ v, future_view f s' = VDone (inr v))
    (λ _ s', steady s s') s.
Proof.
  revert s. induction fs as [|f fs IH]; intros s; cbn [forM]; [wp_step; split; [reflexivity|by intros f ?%not_elem_of_nil]|].
  wp_step. wp_step. eapply wp_mono; [apply future_result_spec| |intros e s' (? & _); by apply io_steady].
  intros v s1 (H1 & Hv). wp_step. eapply wp_mono; [apply IH| |].
  - intros _ s2 (H2 & Hall). split; [etrans; [by apply io_steady|done]|]. intros g [->|Hg]%elem_of_cons; [|by apply Hall].
    exists v. destruct H2 as (Hl & _). destruct (Hl f) as [V _]. rewrite V; [done|by rewrite Hv].
  - intros e s2 H2. etrans; [by apply io_steady|done].
Qed.
Lemma writeback_result_spec timed p s :
  wp (writeback_result turns timed p) (λ _ s', steady s s' ∧ ∀ f, f ∈ wb_futures p → ∃ v, future_view f s' = VDone (inr v))
    (λ _ s', steady s s') s.
Proof.
  unfold writeback_result. wp_step. apply (wp_mono _ (λ _ s', steady s s') _ (λ _ s', steady s s')); [apply quietly_wp| |done].
  - apply quietly_forM. intros f. apply quietly_bind; [apply quietly_get|]. intros s1. case_match; [|apply quietly_ret].
    apply quietly_bind; [apply future_result_quiet|]. intros v. apply quietly_ret.
  - intros _ s1 H1. eapply wp_mono; [apply results_spec| |].
    + intros _ s2 (H2 & Hall). split; [by trans s1|done].
    + intros e s2 H2. by trans s1.
Qed.

(** [complete_writeback] *)
Lemma complete_advances D s p timed :
  written D s → writeback_ok D s p →
  wp (complete_writeback turns p timed) (λ _ s', advances D s s') (λ _ s', advances D s s') s.
Proof.
  intros HW Hp. unfold complete_writeback. wp_step. eapply wp_mono; [apply writeback_result_spec| |intros e s1 H1; by apply steady_advances].
  intros _ s1 (H1 & Hdone). pose proof (written_steady _ _ _ H1 HW) as HW1.
  assert (Hp1 : writeback_ok D s1 p) by (eapply writeback_ok_later; [apply H1|done|done]).
  destruct Hp1 as (n & En & Hlen & HF & Hn).
  wp_step. eapply wp_mono; [apply (register_advances D s1); [done|]| |].
  - intros i d Hi Hnone. destruct (decide (i < n)) as [Hin|Hout].
    { destruct (Hn i Hin) as [d' Hd']; [rewrite Hlen; by eapply lookup_lt_Some|]. congruence. }
    assert (Hi' : wb_write_pages p !! (i - n) = Some d) by (rewrite En, lookup_drop; by replace (n + (i - n)) with i by lia).
    destruct (Forall2_lookup_l _ _ _ _ _ HF Hi') as (f & Hf & Hw). destruct (Hdone f) as [v Hv]; [by eapply list_elem_of_lookup_2|].
    by eapply writes_acknowledged.
  - intros u2 s2 H2. assert (H12 : advances D s s2) by by eapply steady_then.
    eapply wp_mono; [apply (quietly_wp (schedule_catalog_save;; forget_writes p;; count_writeback _))| |].
    + apply quietly_bind; [apply schedule_save_quiet|]. intros _. apply quietly_bind; [apply forget_quiet|]. intros _.
      unfold count_writeback. apply quietly_modify. intros s0. by apply steady_fields.
    + intros u s3 H3. by eapply advances_steady.
    + intros e s3 H3. by eapply advances_steady.
  - intros e s2 H2. by eapply steady_then.
Qed.

(** [submit_writeback] *)
Definition plan_ok s (item : nat * RemotePageDescriptor * option nat) : Prop :=
  match item.2 with Some f => writes (pd_object_key item.1.2) f s | None => True end.
Lemma write_plan_spec D i envs ds s plan :
  written D s → write_plan i envs ds s = inr plan → (λ it : nat * RemotePageDescriptor * option nat, it.1.2) <$> plan = ds ∧ Forall (plan_ok s) plan.
Proof.
  intros HW. revert i plan. induction ds as [|d ds IH]; intros i plan Hp; cbn [write_plan] in Hp; result_inv; [by subst plan|].
  match goal with Hr : write_plan _ _ _ _ = inr _ |- _ => destruct (IH _ _ Hr) as [E HF] end. subst plan. rewrite fmap_cons, E. split; [done|].
  constructor; [|done]. unfold plan_ok. cbn [fst snd]. destruct (sv_inflight_writes s !! pd_object_key d) as [f|] eqn:Ef; [|done]. by apply (wr_inflight _ _ HW).
Qed.
Lemma start_write_spec D envs item s :
  written D s → plan_ok s item →
  wp (start_write envs item) (λ f s', later s s' ∧ written D s' ∧ writes (pd_object_key item.1.2) f s')
    (λ _ s', later s s' ∧ written D s') s.
Proof.
  destruct item as [[i d] [f|]]; intros HW Hp; unfold start_write, count_writeback; cbn [fst snd].
  - wp_steps. assert (HS : steady s (s <| sv_writeback_metrics := sv_writeback_metrics s <| writeback_coalesced_pages := S (writeback_coalesced_pages (sv_writeback_metrics s)) |> |>)) by by apply steady_fields.
    split_and!; [apply HS|by eapply written_steady|]. eapply writes_later; [apply HS|exact Hp].
  - wp_step. apply wp_of_option; [|by intros _]. intros envelope _. wp_step. eapply wp_mono; [apply submit_spec| |intros e s1 ->; by split].
    intros f s1 (H1 & Ho & _). pose proof (written_steady _ _ _ (io_steady _ _ H1) HW) as [W1 W2 W3 W4].
    assert (Hw : writes (pd_object_key d) f s1) by (left; eauto). wp_steps.
    set (s2 := setter _ _ s1). assert (Hl : later s1 s2) by by apply later_same.
    match goal with |- later s ?x ∧ _ => assert (Hl2 : later s2 x) by (by apply later_same); set (s3 := x) in * end.
    assert (Hl3 : later s1 s3) by by etrans. split_and!; [etrans; [apply H1|done]| |by eapply writes_later].
    split; [exact W1|done| |].
    + intros ks d' Hd. destruct (W3 ks d' Hd); [by left|right; by eapply acknowledged_later].
    + intros key g Hg. change (sv_inflight_writes s3) with (<[pd_object_key d := f]> (sv_inflight_writes s1)) in Hg.
      eapply writes_later; [exact Hl3|]. apply lookup_insert_Some in Hg as [[<- <-]|[_ Hg]]; [done|by apply W4].
Qed.
Lemma start_writes_spec D envs plan : ∀ s,
  written D s → Forall (plan_ok s) plan →
  wp (mapM_M (start_write envs) plan)
    (λ fs s', later s s' ∧ written D s' ∧ Forall2 (λ d f, writes (pd_object_key d) f s') ((λ it, it.1.2) <$> plan) fs)
    (λ _ s', later s s' ∧ written D s') s.
Proof.
  induction plan as [|item plan IH]; intros s HW HP; cbn [mapM_M]; [wp_step; by split_and!; [|done|constructor]|].
  apply Forall_cons in HP as [Hi HP]. wp_step. eapply wp_mono; [by apply (start_write_spec D)| |done]. intros f s1 (L1 & W1 & Hf).
  wp_step. eapply wp_mono; [apply (IH s1 W1)| |].
  - eapply Forall_impl; [exact HP|]. intros [[j d] [g|]] Hg; [|done]. eapply writes_later; [exact L1|exact Hg].
  - intros fs s2 (L2 & W2 & HF). wp_step. split_and!; [by etrans|done|]. rewrite fmap_cons. constructor; [by eapply writes_later|done].
  - intros e s2 [L2 W2]. split; [by etrans|done].
Qed.
Lemma on_catalog_match_spec D s keys :
  known D (sv_catalog s) → wp (on_catalog (catalog_match keys)) (λ r s', r = longest_match D keys ∧ steady s s' ∧ s' = s <| sv_catalog := sv_catalog s' |>) noexn s.
Proof.
  intros HK. pose proof (on_catalog_match_quiet keys s) as HS. destruct (catalog_match_spec D _ keys HK) as (c' & Hrun & _).
  unfold wp. unfold on_catalog in *. rewrite Hrun in *. split_and!; [done|done|by destruct s].
Qed.
Lemma submit_advances D s keys ds envs :
  written D s →
  wp (submit_writeback keys ds envs) (λ r s', advances D s s' ∧ match r with Some p => writeback_ok D s' p | None => True end)
    (λ _ s', advances D s s') s.
Proof.
  intros HW. assert (Hrefl : advances D s s) by (apply steady_advances; [done|reflexivity]).
  unfold submit_writeback, writeback_vectors, count_writeback. wp_step. apply wp_raise_if; [intros Hv|done].
  wp_step. eapply wp_mono; [apply (on_catalog_match_spec D), HW| |by intros ? ? []]. intros pub s1 (-> & HS1 & _).
  pose proof (written_steady _ _ _ HS1 HW) as HW1. pose proof (steady_advances _ _ _ HW HS1) as HA1. set (n := length (longest_match D keys)).
  wp_step. wp_step. wp_step. apply wp_lift; [|by intros]. intros plan Hplan. destruct (write_plan_spec D n envs _ s1 plan HW1 Hplan) as [Eplan HP].
  wp_if Enil; [by wp_step|].
  wp_step. eapply wp_mono; [by apply (start_writes_spec D)| |].
  2:{ intros e s2 [L2 W2]. split; [etrans; [apply HA1|done]|]. by exists D. }
  intros fs s2 (L2 & W2 & HF). wp_step. wp_step. match goal with |- wp _ _ _ ?x => set (s3 := x) end.
  assert (HS3 : steady s2 s3) by by apply steady_fields.
  assert (HA3 : advances D s s3) by (split; [etrans; [apply HA1|etrans; [done|apply HS3]]|exists D; split; [done|by eapply written_steady]]).
  wp_step. apply wp_lift; [|by intros]. intros p Hp. wp_step. split; [done|]. unfold pending_remote_writeback in Hp. result_inv. subst p. breflect.
  exists n. cbn [wb_write_pages wb_pages wb_block_keys wb_futures] in *. split_and!; [done|done| |].
  - eapply Forall2_impl; [exact HF|]. intros d f. apply writes_later, HS3.
  - intros i Hi Hik. destruct (longest_from_char D [] keys) as (Hall & _). fold (longest_match D keys) in Hall.
    apply lookup_lt_is_Some in Hi as [d Hd]. exists d. by apply Hall.
Qed.

(** [publish_prefix] *)
Lemma submit_all_spec (l : list (RemotePageDescriptor * bytes)) : ∀ s,
  wp (mapM_M (λ de, submit (OpPut (pd_object_key de.1) de.2 false)) l)
    (λ fs s', io_only s s' ∧ Forall2 (λ de f, writes (pd_object_key de.1) f s') l fs) (λ _ s', io_only s s') s.
Proof.
  induction l as [|[d v] l IH]; intros s; cbn [mapM_M]; [wp_step; split; [reflexivity|constructor]|].
  wp_step. eapply wp_mono; [apply submit_spec| |by intros e s' ->]. intros f s1 (H1 & Ho & _).
  wp_step. eapply wp_mono; [apply IH| |intros e s2 H2; by trans s1]. intros fs s2 (H2 & HF). wp_step.
  split; [by trans s1|]. constructor; [|done]. eapply writes_later; [apply H2|]. left. by eexists _, _.
Qed.
Lemma publish_advances D s keys ds envs timed :
  written D s → wp (publish_prefix turns keys ds envs timed) (λ _ s', advances D s s') (λ _ s', advances D s s') s.
Proof.
  intros HW. assert (Hrefl : advances D s s) by (apply steady_advances; [done|reflexivity]).
  unfold publish_prefix. wp_step. apply wp_raise_if; [intros Hlen|done]. wp_step. apply wp_raise_if; [intros _|done].
  wp_step. eapply wp_mono; [apply submit_all_spec| |intros e s1 H1; by apply steady_advances, io_steady].
  intros fs s1 (H1 & HF). apply io_steady in H1. wp_step. eapply wp_mono; [apply results_spec| |intros e s2 H2; eapply steady_advances; [done|by trans s1]].
  intros _ s2 (H2 & Hdone). assert (HS : steady s s2) by by trans s1. pose proof (written_steady _ _ _ HS HW) as HW2.
  wp_step. eapply wp_mono; [apply (register_advances D s2); [done|]| |intros e s3 H3; by eapply steady_then].
  - intros i d Hi _. assert (length keys = length ds ∧ length keys = length envs) as [Hl1 Hl2] by (by breflect). destruct (lookup_lt_is_Some_2 envs i) as [v Hv]; [rewrite <-Hl2, Hl1; by eapply lookup_lt_Some|].
    assert (Hz : zip ds envs !! i = Some (d, v)) by by apply lookup_zip_Some.
    destruct (Forall2_lookup_l _ _ _ _ _ HF Hz) as (f & Hf & Hw). destruct (Hdone f) as [w Hw']; [by eapply list_elem_of_lookup_2|].
    eapply writes_acknowledged; [|exact Hw']. eapply writes_later; [apply H2|exact Hw].
  - intros u s3 H3. assert (HA : advances D s s3) by by eapply steady_then.
    eapply wp_mono; [apply quietly_wp, schedule_save_quiet| |]; intros x s4 H4; by eapply advances_steady.
Qed.

(** ** Runs of the service *)
(** The methods of the main thread that register nothing. *)
Inductive plain_call (block_size : nat) : ∀ {A}, MV A → Prop :=
| call_requiring keys ds : plain_call block_size (pages_requiring_write keys ds)
| call_fail p : plain_call block_size (fail_writeback p)
| call_export_failure : plain_call block_size record_writeback_export_failure
| call_plan seq n rate : plain_call block_size (service_plan_restore block_size seq n rate)
| call_restore i pages ids : plain_call block_size (service_submit_restore i pages ids)
| call_result timed p : plain_call block_size (restore_result turns timed p)
| call_cancel p : plain_call block_size (restore_cancel_waiters p)
| call_wait timed ps : plain_call block_size (wait_for_any turns timed ps)
| call_flush b : plain_call block_size (flush_catalog_saves turns b)
| call_metrics : plain_call block_size (service_metrics turns)
| call_close : plain_call block_size (service_close turns).
Lemma plain_quiet bs {A} (m : MV A) : plain_call bs m → quietly m.
Proof.
  intros []; [apply requiring_quiet|apply fail_writeback_quiet|apply export_failure_quiet|apply plan_restore_quiet|
    apply submit_restore_quiet|apply restore_result_quiet|apply cancel_waiters_quiet|apply wait_for_any_quiet|apply flush_quiet|
    apply metrics_quiet|apply close_quiet].
Qed.
(** Any interleaving of the main thread's calls, that return or raise, with the loop's
    events; the second index holds the write-backs submitted so far. *)
Inductive service_run (bs : nat) (s0 : RemoteKVRestoreService B) : RemoteKVRestoreService B → list PendingRemoteWriteback → Prop :=
| run_start : service_run bs s0 s0 []
| run_loop s ps e : service_run bs s0 s ps → service_run bs s0 (loop_step e s) ps
| run_plain s ps A (m : MV A) : service_run bs s0 s ps → plain_call bs m → service_run bs s0 (m s).2 ps
| run_publish s ps keys ds envs timed : service_run bs s0 s ps → service_run bs s0 (publish_prefix turns keys ds envs timed s).2 ps
| run_submit s ps keys ds envs r s' : service_run bs s0 s ps → submit_writeback keys ds envs s = (r, s') →
    service_run bs s0 s' (match r with inr (Some p) => p :: ps | _ => ps end)
| run_complete s ps p timed : service_run bs s0 s ps → p ∈ ps → service_run bs s0 (complete_writeback turns p timed s).2 ps.

Lemma run_written bs s0 s ps :
  known D0 (sv_catalog s0) → sv_inflight_writes s0 = ∅ → service_run bs s0 s ps →
  ∃ D, written D s ∧ Forall (writeback_ok D s) ps.
Proof.
  intros HK Hi Hrun. induction Hrun as [|s ps e _ (D & HW & HP)|s ps A m _ (D & HW & HP) Hm|s ps keys ds envs timed _ (D & HW & HP)|
    s ps keys ds envs r s' _ (D & HW & HP) Hs|s ps p timed _ (D & HW & HP) Hp].
  - exists D0. split; [|constructor]. split; [done|done|by left|]. intros key f. by rewrite Hi.
  - assert (HS : steady s (loop_step e s)) by apply io_steady, (loop_turn_io [e]).
    exists D. split; [by eapply written_steady|]. eapply Forall_impl; [exact HP|]. intros p. by apply writeback_ok_later; [apply HS|].
  - pose proof (plain_quiet bs m Hm s) as HS. exists D. split; [by eapply written_steady|].
    eapply Forall_impl; [exact HP|]. intros p. by apply writeback_ok_later; [apply HS|].
  - assert (HA : advances D s (publish_prefix turns keys ds envs timed s).2).
    { pose proof (publish_advances D s keys ds envs timed HW) as Hw. unfold wp in Hw. by destruct (publish_prefix turns keys ds envs timed s) as [[e|u] s']. }
    destruct HA as [Hl (D' & HD & HW')]. exists D'. split; [done|]. eapply Forall_impl; [exact HP|]. intros p. by apply writeback_ok_later.
  - pose proof (submit_advances D s keys ds envs HW) as Hw. unfold wp in Hw. rewrite Hs in Hw.
    assert (Hold : ∀ D', D ⊆ D' → later s s' → Forall (writeback_ok D' s') ps) by (intros D' HD Hl; eapply Forall_impl; [exact HP|]; intros p; by apply writeback_ok_later).
    destruct r as [e|[p|]].
    + destruct Hw as [Hl (D' & HD & HW')]. exists D'. split; [done|by apply Hold].
    + destruct Hw as [[Hl (D' & HD & HW')] Hp]. exists D'. split; [done|]. constructor; [|by apply Hold]. by apply (writeback_ok_later D D' s' s' p).
    + destruct Hw as [[Hl (D' & HD & HW')] _]. exists D'. split; [done|by apply Hold].
  - assert (HA : advances D s (complete_writeback turns p timed s).2).
    { rewrite Forall_forall in HP. pose proof (complete_advances D s p timed HW (HP p Hp)) as Hw. unfold wp in Hw.
      by destruct (complete_writeback turns p timed s) as [[e|u] s']. }
    destruct HA as [Hl (D' & HD & HW')]. exists D'. split; [done|]. eapply Forall_impl; [exact HP|]. intros q. by apply writeback_ok_later.
Qed.
End acknowledged.

(** What a snapshot adds to a catalog. *)
Lemma merge_known D c sn :
  known D c → wp (merge_snapshot sn) (λ _ c', ∃ D', known D' c') (λ _ c', ∃ D', known D' c') c.
Proof.
  intros HK. unfold merge_snapshot. wp_step. wp_step. wp_step. apply wp_raise_if; [intros _|by exists D]. wp_step.
  assert (Hex : ∃ D', known D' c) by by exists D. clear HK. revert c Hex. induction (sn_prefixes sn) as [|p ps IH]; intros c [D' HK]; cbn [forM].
  { wp_step. wp_step. by exists D'. }
  wp_step. wp_step. apply wp_lift; [|intros e _; by exists D']. intros ds _.
  assert (Hr : wp (register (pf_block_keys p) ds) (λ _ c', ∃ D', known D' c') (λ _ c', ∃ D', known D' c') c).
  { unfold wp. destruct (register_total D' c (pf_block_keys p) ds HK) as [(_ & _ & ->)|[(idn & c' & _ & -> & HK' & _)|(msg & -> & _)]]; by eexists. }
  eapply wp_mono; [exact Hr| |done]. intros u c' Hc'. by apply IH.
Qed.
Section initial.
Context {B : Type} `{KVStorageBackend B} `{FloatRepr}.
Context (turns : nat → list loop_event).
Lemma load_known key (s : RemoteKVRestoreService B) :
  (∃ D, known D (sv_catalog s)) ∧ sv_inflight_writes s = ∅ →
  wp (load_persistent_catalog turns key) (λ _ s', (∃ D, known D (sv_catalog s')) ∧ sv_inflight_writes s' = ∅) noexn s.
Proof.
  set (ok := λ s : RemoteKVRestoreService B, (∃ D, known D (sv_catalog s)) ∧ sv_inflight_writes s = ∅). intros Hs. change (wp (load_persistent_catalog turns key) (λ _ s', ok s') noexn s).
  assert (Hst : ∀ s s', steady s s' → ok s → ok s').
  { intros s1 s2 (_ & Hk & Hi) [[D HD] E]. split; [exists D; by apply Hk|]. rewrite E in Hi. by apply map_subseteq_empty_r in Hi || (apply (anti_symm (⊆)); [done|apply map_empty_subseteq]). }
  assert (Hq : ∀ A (m : M (RemoteKVRestoreService B) A) s, quietly m → ok s → wp m (λ _ s', ok s') (λ _ s', ok s') s).
  { intros A m s1 Hm Ho. unfold wp. specialize (Hm s1). destruct (m s1) as [[e|a] s2]; by eapply Hst. }
  unfold load_persistent_catalog, count_catalog. wp_step. wp_step. set (s1 := setter _ _ s). assert (Ho1 : ok s1) by done. clearbody s1.
  apply wp_try_except. apply (wp_mono _ (λ _ s', ok s') _ (λ _ s', ok s')); [|done|].
  - wp_step. eapply wp_mono; [apply Hq; [apply submit_quiet|done]| |done]. intros f s2 Ho2.
    wp_step. eapply wp_mono; [apply Hq; [apply future_result_quiet|done]| |done]. intros [env|] s3 Ho3; [|by wp_step].
    wp_step. apply wp_lift; [|by intros]. intros sn _. wp_step. wp_step. wp_step. apply wp_raise_if; [intros _|done].
    wp_step. destruct Ho3 as [[D HD] Hi]. pose proof (merge_known D _ sn HD) as Hm. unfold wp, on_catalog in *.
    destruct (merge_snapshot sn (sv_catalog s3)) as [[e|n] c']; [by split|]. cbn. by split.
  - intros e s2 Ho2. unfold record_catalog_failure, count_catalog. by wp_steps.
Qed.

Lemma service_init_known backend planner key idn timeout (s : RemoteKVRestoreService B) :
  service_init turns backend None planner key idn timeout = inr s →
  (∃ D, known D (sv_catalog s)) ∧ sv_inflight_writes s = ∅.
Proof.
  intros Hi. unfold service_init in Hi. result_inv. cbv zeta in Hi. cbn [default] in Hi.
  set (s1 := mkRestoreService catalog_init _ _ _ _ _ _ _ _ _ _ _ _) in Hi.
  assert (Hs1 : (∃ D, known D (sv_catalog s1)) ∧ sv_inflight_writes s1 = ∅) by (split; [exists ∅; apply known_init|done]).
  destruct key as [key|]; [|injection Hi as <-; exact Hs1].
  pose proof (load_known key s1 Hs1) as Hw. unfold wp in Hw. destruct (load_persistent_catalog turns key s1) as [[e|u] s2]; [done|].
  injection Hi as <-. exact Hw.
Qed.

(** C8: a page enters the catalog only with a write of its object that was acknowledged:
    whatever the interleaving of publications and write-backs, of their failures, and of the event
    loop, every page known is one the catalog knew at the start or one whose write returned. *)
Theorem catalog_acknowledged bs backend planner key idn timeout s0 s ps :
  service_init turns backend None planner key idn timeout = inr s0 → service_run turns bs s0 s ps →
  ∃ D0 D, known D0 (sv_catalog s0) ∧ D0 ⊆ D ∧ known D (sv_catalog s) ∧
    ∀ ks d, D !! ks = Some d → D0 !! ks = Some d ∨ acknowledged (pd_object_key d) s.
Proof.
  intros Hinit Hrun. destruct (service_init_known _ _ _ _ _ _ Hinit) as [[D0 HK] Hi].
  destruct (run_written turns D0 bs s0 s ps HK Hi Hrun) as (D & [W1 W2 W3 W4] & _). by exists D0, D.
Qed.

(** ** [plan_restore] *)
Definition prefix_keys (bs : nat) (seq : Sequence) : list BlockKey :=
  (λ i, block_tokens bs i seq) <$> List.seq 0 (num_blocks bs seq - 1).
Lemma cacheable_keys_run bs seq : cacheable_keys bs seq = inr (prefix_keys bs seq).
Proof. apply (block_keys_ok bs seq (num_blocks bs seq - 1)). lia. Qed.

(** C28: a plan restores the longest known prefix of the request's own blocks, when it is longer
    than what the request holds locally; its last block is always left to be
    computed. Only a planner can turn such a restore down, and the call never fails. *)
Theorem plan_restore_sound D bs seq local rate (s : RemoteKVRestoreService B) :
  known D (sv_catalog s) → 0 < bs → (0 < rate)%Q →
  wp (service_plan_restore bs seq local rate) (λ r s', steady s s' ∧
      let pages := longest_match D (prefix_keys bs seq) in
      match r with
      | Some cand => cand_pages cand = pages ∧ cand_num_blocks cand = length pages ∧ local < length pages <= num_blocks bs seq - 1
      | None => length pages <= local ∨ is_Some (sv_planner s)
      end) noexn s.
Proof.
  intros HK Hbs Hrate. unfold service_plan_restore. rewrite cacheable_keys_run. wp_step. apply wp_lift; [|done]. intros ks [= <-].
  wp_step. eapply wp_mono; [by apply (on_catalog_match_spec D)| |done]. intros pages s1 (-> & HS & Es1). cbv zeta. assert (Hpl : sv_planner s1 = sv_planner s) by by rewrite Es1.
  set (pages := longest_match D (prefix_keys bs seq)). destruct (longest_from_char D [] (prefix_keys bs seq)) as (_ & Hle & _).
  fold (longest_match D (prefix_keys bs seq)) pages in Hle. unfold prefix_keys in Hle. rewrite length_fmap, length_seq in Hle.
  wp_if El; breflect; [wp_step; split; [done|by left]|].
  wp_step. wp_step. rewrite Hpl. destruct (sv_planner s) as [planner|]; [|wp_step; by split_and!].
  assert (Htotal : length pages * bs <= num_tokens seq).
  { pose proof (Nat.Div0.mul_div_le (num_tokens seq + bs - 1) bs) as Hd. fold (num_blocks bs seq) in Hd. unfold num_blocks in *. nia. }
  destruct (access_plan_cheapest planner (Z.of_nat (num_tokens seq)) (Z.of_nat (local * bs)) rate [(MOONCAKE, Z.of_nat (length pages * bs))])
    as (p & Hp & Hform & _); [nia|done|repeat constructor; cbn; lia|].
  wp_step. rewrite Hp. apply wp_lift; [|done]. intros p' [= <-]. wp_if Ea; [wp_step; split; [done|by right]|]. breflect.
  wp_step. apply wp_raise_if; [intros _|intros ?; breflect; lia]. wp_step. split; [done|]. cbn [cand_pages cand_num_blocks].
  assert (Hsrc : ap_source_cached_tokens p = Z.of_nat (length pages * bs)).
  { destruct Hform as [->|(tier & n & [= -> ->]%list_elem_of_singleton & (prof & _ & _ & _ & ->))]; [|done].
    exfalso. cbn in *. done. }
  rewrite Hsrc. rewrite Nat2Z.inj_mul, Z.div_mul by lia. rewrite Nat2Z.id, take_ge by lia. by split_and!.
Qed.

(** ** From [pages_requiring_write] to [submit_writeback] *)
(** Only the write-backs in flight differ, by failed ones that are gone. *)
Definition prunes (s s' : RemoteKVRestoreService B) : Prop :=
  s' = s <| sv_inflight_writes := sv_inflight_writes s' |> ∧
  ∀ key f, sv_inflight_writes s !! key = Some f → future_failed f s = false → sv_inflight_writes s' !! key = Some f.
Lemma prunes_failed s s' f : prunes s s' → future_failed f s' = future_failed f s.
Proof. by intros [-> _]. Qed.
Lemma prunes_trans s1 s2 s3 : prunes s1 s2 → prunes s2 s3 → prunes s1 s3.
Proof.
  intros P12 P23. pose proof P12 as [E1 I1]. destruct P23 as [E2 I2]. split.
  - rewrite E2, E1. done.
  - intros key f Hf Hn. apply I2; [by apply I1|]. by rewrite (prunes_failed s1 s2).
Qed.
Lemma required_spec i ds : ∀ s,
  wp (required_pages i ds) (λ req s', prunes s s' ∧
      ∀ j d, ds !! j = Some d → i + j ∈ req ∨ is_Some (sv_inflight_writes s' !! pd_object_key d)) noexn s.
Proof.
  revert i. induction ds as [|d ds IH]; intros i s; cbn [required_pages]; [wp_step; split; [by split; [destruct s|]|done]|].
  wp_step. wp_step. cbv zeta. set (fut := sv_inflight_writes s !! pd_object_key d). set (stale := match fut with Some f => future_failed f s | None => false end).
  wp_step. apply (wp_mono _ (λ _ s', prunes s s') _ noexn); [| |done].
  { destruct stale eqn:Es; [|wp_step; by split; [destruct s|]]. unfold pop_inflight. wp_step. split; [by destruct s|].
    intros key f Hf Hn. cbn. rewrite lookup_delete_ne; [done|]. intros <-. unfold stale, fut in Es. rewrite Hf in Es. congruence. }
  intros _ s1 P1. wp_step. eapply wp_mono; [apply IH| |done]. intros rest s2 [P2 Hrest]. wp_step.
  split; [by eapply prunes_trans|]. intros [|j] d' Hj; cbn [lookup list_lookup] in Hj.
  - injection Hj as <-. rewrite Nat.add_0_r. destruct fut as [f|] eqn:Ef; [|left; by left].
    destruct stale eqn:Es; [left; rewrite orb_true_r; by left|]. right. exists f.
    assert (P12 : prunes s s2) by by eapply prunes_trans. destruct P12 as [_ I]. apply I; [exact Ef|]. unfold stale in Es. done.
  - destruct (Hrest j d' Hj) as [Hin|?]; [|by right]. left. replace (i + S j) with (S i + j) by lia. case_match; [by right|done].
Qed.

(** What [submit_writeback] needs: an envelope for every page without a write in flight. *)
Definition exported (envs : gmap nat bytes) (i : nat) (ds : list RemotePageDescriptor) (s : RemoteKVRestoreService B) : Prop :=
  ∀ j d, ds !! j = Some d → is_Some (envs !! (i + j)) ∨ is_Some (sv_inflight_writes s !! pd_object_key d).
Lemma write_plan_total envs i ds s :
  exported envs i ds s → ∃ plan, write_plan i envs ds s = inr plan ∧ length plan = length ds ∧
    Forall (λ it : nat * RemotePageDescriptor * option nat, it.2 = None → is_Some (envs !! it.1.1)) plan.
Proof.
  revert i. induction ds as [|d ds IH]; intros i He; cbn [write_plan]; [by exists []|].
  destruct (IH (S i)) as (plan & Hp & Hl & HF); [intros j d' Hj; replace (S i + j) with (i + S j) by lia; by apply He|].
  exists ((i, d, sv_inflight_writes s !! pd_object_key d) :: plan). split_and!; [|by cbn; rewrite Hl|].
  - apply throw_if_bind; [|by rewrite Hp]. destruct (He 0 d eq_refl) as [[v Hv]|[f Hf]]; [rewrite Nat.add_0_r in Hv; rewrite Hv; apply andb_false_r|by rewrite Hf].
  - constructor; [|done]. cbn [fst snd]. intros Hn. destruct (He 0 d eq_refl) as [?|[f Hf]]; [by rewrite Nat.add_0_r in *|congruence].
Qed.
Lemma start_writes_total envs plan : ∀ s : RemoteKVRestoreService B,
  sv_closed s = false → Forall (λ it : nat * RemotePageDescriptor * option nat, it.2 = None → is_Some (envs !! it.1.1)) plan →
  wp (mapM_M (start_write envs) plan) (λ fs _, length fs = length plan) noexn s.
Proof.
  induction plan as [|[[i d] o] plan IH]; intros s Hc HF; cbn [mapM_M]; [by wp_step|].
  apply Forall_cons in HF as [Hi HF]. cbn [fst snd] in Hi. wp_step.
  apply (wp_mono _ (λ _ s', sv_closed s' = false) _ noexn); [| |done].
  - unfold start_write, count_writeback. destruct o as [f|]; [by wp_steps|]. destruct Hi as [v Hv]; [done|]. rewrite Hv. cbn [of_option].
    wp_step. wp_step. unfold submit. wp_step. wp_step. wp_step. rewrite Hc. cbn [raise_if]. by wp_steps.
  - intros f s1 Hc1. wp_step. eapply wp_mono; [by apply IH| |done]. intros fs s2 Hl. wp_step. cbn. by rewrite Hl.
Qed.

(** Exporting the pages [pages_requiring_write] asks for is enough: the [submit_writeback]
    that follows never fails, however far the event loop gets in between, and has nothing
    to write exactly when every page of the prefix is known. *)
Theorem writeback_exports_suffice D keys ds envs es s req s1 :
  known D (sv_catalog s) → sv_closed s = false → keys ≠ [] → length keys = length ds →
  pages_requiring_write keys ds s = (inr req, s1) → (∀ i, i ∈ req → is_Some (envs !! i)) →
  ∃ r s2, submit_writeback keys ds envs (loop_turn es s1) = (inr r, s2) ∧ (r = None ↔ length (longest_match D keys) = length keys).
Proof.
  intros HK Hc Hne Hlen Hreq Henvs. set (n := length (longest_match D keys)).
  assert (Hpub : n <= length keys) by apply (longest_from_char D [] keys).
  assert (Hs1 : known D (sv_catalog s1) ∧ sv_closed s1 = false ∧ exported envs n (drop n ds) s1).
  { assert (Hw : wp (pages_requiring_write keys ds) (λ req s1, known D (sv_catalog s1) ∧ sv_closed s1 = false ∧
       ∀ j d, drop n ds !! j = Some d → n + j ∈ req ∨ is_Some (sv_inflight_writes s1 !! pd_object_key d)) noexn s).
    { unfold pages_requiring_write, writeback_vectors. wp_step. rewrite Hlen, Nat.eqb_refl, bool_decide_eq_false_2 by done. cbn [negb orb raise_if]. wp_step.
      wp_step. eapply wp_mono; [by apply (on_catalog_match_spec D)| |done]. intros pub s0 (-> & (_ & Hk & _) & E0).
      eapply wp_mono; [apply required_spec| |done]. intros req' s' [[-> _] Hall]. split_and!; [by apply Hk|cbn; by rewrite E0|exact Hall]. }
    unfold wp in Hw. rewrite Hreq in Hw. destruct Hw as (Hk & Hcl & Hall). split_and!; [done|done|].
    intros j d Hj. destruct (Hall j d Hj); [left; by apply Henvs|by right]. }
  destruct Hs1 as (HK1 & Hc1 & He1). destruct (loop_turn_io es s1) as (_ & Ek & Ei & Ec). set (s2 := loop_turn es s1) in *.
  assert (Hw : wp (submit_writeback keys ds envs) (λ r _, r = None ↔ n = length keys) noexn s2).
  { unfold submit_writeback, writeback_vectors, count_writeback. wp_step. rewrite Hlen, Nat.eqb_refl, bool_decide_eq_false_2 by done. cbn [negb orb raise_if]. wp_step.
    wp_step. eapply wp_mono; [apply (on_catalog_match_spec D); by rewrite Ek| |done]. intros pub s3 (-> & _ & E3). fold n.
    assert (He3 : exported envs n (drop n ds) s3) by (intros j d Hj; rewrite E3; cbn; rewrite Ei; by apply He1).
    assert (Hc3 : sv_closed s3 = false) by (rewrite E3; cbn; by rewrite Ec). clear E3.
    wp_step. wp_step. destruct (write_plan_total _ _ _ _ He3) as (plan & Hp & Hpl & HF). rewrite Hp. wp_step. apply wp_lift; [|done]. intros pl' [= <-].
    rewrite length_drop in Hpl. wp_if En; breflect; [wp_step; subst plan; cbn in Hpl; split; [intros _; lia|done]|].
    assert (Hpos : 0 < length plan) by (apply Nat.neq_0_lt_0; by intros ?%length_zero_iff_nil).
    wp_step. eapply wp_mono; [by apply start_writes_total| |done]. intros fs s4 Hfs. wp_step. wp_step.
    wp_step. apply wp_lift.
    - intros p _. wp_step. split; [done|intros ?; lia].
    - intros e He. unfold pending_remote_writeback in He. cbn [wb_block_keys wb_pages wb_futures wb_write_pages] in He.
      assert (Hfne : fs ≠ []) by (intros ->; cbn in Hfs; lia).
      rewrite Hlen, length_fmap, Hfs, !Nat.eqb_refl, (bool_decide_eq_false_2 _ Hne), (bool_decide_eq_false_2 _ Hfne) in He. discriminate He. }
  destruct (wp_run _ _ _ Hw) as (r & s' & ? & ?). by exists r, s'.
Qed.
End initial.
