(* ===== verification/LlmEngine.v ===== *)
(** * The engine front end

    Models [nanovllm/engine/llm_engine.py]: construction, request intake, one step (ready restores,
    scheduling, the model, write-backs, postprocessing), [generate] and [exit]. The engine's
    restore service is the scheduler's: both fields hold one object, which the model
    keeps in the scheduler. The loop of the service runs while the main thread waits for it
    or for the model. The tokenizer and the files of the model are parameters. *)
From S2P Require Import Prelude Json Blake2b Qos Sequence Policy KvPolicy RadixCache BlockManager HierarchicalCache StorageBackend KvPage ModelRunner RemoteCatalog PrefixCatalog TransferCoordinator SchedulerTrace Scheduler Config RemoteRestore.
Set Default Goal Selector "!".

#[export] Instance RemotePageDescriptor_eq_dec : EqDecision RemotePageDescriptor.
Proof. solve_decision. Defined.
#[export] Instance PendingRemoteWriteback_eq_dec : EqDecision PendingRemoteWriteback.
Proof. solve_decision. Defined.

(** ** Remote prefixes *)
Definition page_namespace : string := "nanovllm-kv".
Definition identity_layout_version : string := "nanovllm-kv-v1".
(** [_describe_remote_prefix] *)
Definition describe_remote_prefix (identity : KVCacheIdentity) (block_size : nat) (token_ids : list Z) (num_pages : nat) :
    result (list BlockKey * list RemotePageDescriptor) :=
  let required_tokens := num_pages * block_size in
  throw_if ((num_pages =? 0) || (length token_ids <? required_tokens))
    (ValueError "token_ids do not contain every remote KV page");;
  let block_keys := (λ index, slice (index * block_size) ((index + 1) * block_size) token_ids) <$> seq 0 num_pages in
  descriptors ← mapR (λ index,
    object_key ← make_kv_page_key identity 0 (Z.of_nat index) (slice 0 ((index + 1) * block_size) token_ids) page_namespace;
    remote_page_descriptor (mkDescriptor object_key (identity_digest identity) 0 (Z.of_nat index))) (seq 0 num_pages);
  mret (block_keys, descriptors).

(** ** State *)
Record LLMEngine (B T : Type) := mkEngine {
  eng_config : Config;
  eng_identity : KVCacheIdentity;
  eng_scheduler : Scheduler (RemoteKVRestoreService B) PendingRemoteRestore;
  eng_runner : option (ModelRunner T);
  eng_pending_writebacks : list PendingRemoteWriteback;
  eng_writeback_errors : list string;
  eng_step_token_events : list (nat * Z);
  eng_exited : bool;
  eng_counter : nat;
  eng_ticks : nat
}.
Arguments mkEngine {B T}.
Arguments eng_config {B T}.
Arguments eng_identity {B T}.
Arguments eng_scheduler {B T}.
Arguments eng_runner {B T}.
Arguments eng_pending_writebacks {B T}.
Arguments eng_writeback_errors {B T}.
Arguments eng_step_token_events {B T}.
Arguments eng_exited {B T}.
Arguments eng_counter {B T}.
Arguments eng_ticks {B T}.
#[export] Instance LLMEngine_eta {B T} : RecordEta (LLMEngine B T) := λ r, {|
  eng_config := eng_config r; eng_identity := eng_identity r; eng_scheduler := eng_scheduler r;
  eng_runner := eng_runner r; eng_pending_writebacks := eng_pending_writebacks r;
  eng_writeback_errors := eng_writeback_errors r; eng_step_token_events := eng_step_token_events r;
  eng_exited := eng_exited r; eng_counter := eng_counter r; eng_ticks := eng_ticks r |}.
#[export] Instance set_eng_scheduler {B T} : Setter (@eng_scheduler B T) := ltac:(derive_setter).
#[export] Instance set_eng_runner {B T} : Setter (@eng_runner B T) := ltac:(derive_setter).
#[export] Instance set_eng_pending_writebacks {B T} : Setter (@eng_pending_writebacks B T) := ltac:(derive_setter).
#[export] Instance set_eng_writeback_errors {B T} : Setter (@eng_writeback_errors B T) := ltac:(derive_setter).
#[export] Instance set_eng_step_token_events {B T} : Setter (@eng_step_token_events B T) := ltac:(derive_setter).
#[export] Instance set_eng_exited {B T} : Setter (@eng_exited B T) := ltac:(derive_setter).
#[export] Instance set_eng_counter {B T} : Setter (@eng_counter B T) := ltac:(derive_setter).
#[export] Instance set_eng_ticks {B T} : Setter (@eng_ticks B T) := ltac:(derive_setter).

Inductive Prompt := PromptText (s : string) | PromptTokens (l : list Z).
(** An argument that is one value for all prompts, or a list with one each. *)
Inductive PerPrompt (A : Type) := ForAll (a : A) | Each (l : list A).
Arguments ForAll {A}.
Arguments Each {A}.
Definition per_prompt {A} (n : nat) (name : string) (p : PerPrompt A) : result (list A) :=
  match p with
  | ForAll a => mret (replicate n a)
  | Each l => throw_if (negb (length l =? n)) (ValueError (name +:+ " must have the same length as prompts"));; mret l
  end.

Section engine.
Context {B T H L : Type} `{KVStorageBackend B} `{KvTensor T} `{LanguageModel T H L} `{Hasher} `{FloatRepr}.
Abbreviation Service := (RemoteKVRestoreService B).
Abbreviation Sched := (Scheduler Service PendingRemoteRestore).
Abbreviation Engine := (LLMEngine B T).
Abbreviation ME := (M Engine).
(** The file system of the trace, the clocks, the turns of the service's loop, the tokenizer. *)
Context (append_ok : nat → bool) (clock perf_counter : nat → Q) (turns : nat → list loop_event).
Context (tokenizer_encode : string → list Z) (tokenizer_decode : list Z → string).

Definition on_scheduler {A} (m : M Sched A) : ME A := λ e,
  match m (eng_scheduler e) with (r, sc) => (r, e <| eng_scheduler := sc |>) end.
Definition on_restore {A} (m : M Service A) : ME A := on_scheduler (on_service m).
Definition on_runner {A} (m : M (ModelRunner T) A) : ME A := λ e,
  match eng_runner e with
  | None => (inl (AttributeError "'LLMEngine' object has no attribute 'model_runner'"), e)
  | Some r => match m r with (x, r) => (x, e <| eng_runner := Some r |>) end
  end.
Definition has_service (e : Engine) : bool :=
  match remote_restore_service (eng_scheduler e) with Some _ => true | None => false end.
Definition page_tokens (e : Engine) : nat := Z.to_nat (cf_kvcache_block_size (eng_config e)).
Definition read_perf : ME Q :=
  e ← getS; putS (e <| eng_ticks := S (eng_ticks e) |>);; mret (perf_counter (eng_ticks e)).
(** The service's loop while the main thread is busy. *)
Definition background : ME () := e ← getS; if has_service e then on_restore (wait_turn turns) else mret tt.
Definition record_writeback_error (exc : exn) : ME () :=
  modifyS (λ e : Engine, e <| eng_writeback_errors := push_bounded 128 (exn_str exc) (eng_writeback_errors e) |>).

(** ** Write-back *)
Definition register_remote_prefix (token_ids : list Z) (envelopes : list bytes) (timed : bool) : ME (list RemotePageDescriptor) :=
  e ← getS;
  raise_if (negb (has_service e)) (RuntimeError "LLMEngine was created without kv_storage_backend");;
  raise_if (bool_decide (envelopes = [])) (ValueError "at least one remote KV page is required");;
  '(block_keys, descriptors) ← lift (describe_remote_prefix (eng_identity e) (page_tokens e) token_ids (length envelopes));
  on_restore (publish_prefix turns block_keys descriptors envelopes timed);;
  mret descriptors.

(** The body of the [try] of [_enqueue_remote_writebacks]. *)
Definition enqueue_writeback (s : Sequence) (completed_pages : nat) : ME () :=
  e ← getS;
  '(block_keys, descriptors) ← lift (describe_remote_prefix (eng_identity e) (page_tokens e) (token_ids s) completed_pages);
  required ← on_restore (pages_requiring_write block_keys descriptors);
  envelopes ← mapM_M (λ index,
    page ← lift (py_nth (block_table s) (Z.of_nat index));
    envelope ← on_runner (export_kv_page page (identity_digest (eng_identity e)) (Z.of_nat index));
    mret (index, envelope)) required;
  pending ← on_restore (submit_writeback block_keys descriptors (list_to_map envelopes));
  match pending with
  | None => mret tt
  | Some p => modifyS (λ e : Engine, e <| eng_pending_writebacks := eng_pending_writebacks e ++ [p] |>)
  end.
(** [_enqueue_remote_writebacks] *)
Definition enqueue_remote_writebacks (seqs : list nat) : ME () :=
  e ← getS;
  if negb (has_service e) || negb (cf_remote_kv_writeback (eng_config e)) then mret tt
  else
    forM seqs (λ i,
      s ← on_scheduler (get_seq i);
      if kv_compressed s then mret tt
      else
        '(previous_pages, completed_pages) ← lift (completed_kv_page_span (Z.of_nat (num_cached_tokens s))
             (Z.of_nat (num_scheduled_tokens s)) (cf_kvcache_block_size (eng_config e)));
        if (completed_pages =? previous_pages)%Z || (completed_pages <? cf_remote_kv_min_prefix_blocks (eng_config e))%Z then mret tt
        else
          try_except (enqueue_writeback s (Z.to_nat completed_pages))
            (λ exc, on_restore record_writeback_export_failure;; record_writeback_error exc)).

(** [list.remove(x)] by equality *)
Fixpoint remove_equal (x : PendingRemoteWriteback) (l : list PendingRemoteWriteback) : option (list PendingRemoteWriteback) :=
  match l with
  | [] => None
  | y :: l => if decide (y = x) then Some l else cons y <$> remove_equal x l
  end.
(** [_process_remote_writebacks] *)
Definition process_remote_writebacks (wait : bool) : ME () :=
  e ← getS;
  if negb (has_service e) then mret tt
  else
    forM (eng_pending_writebacks e) (λ pending,
      done ← on_restore (getsS (writeback_done pending));
      if negb wait && negb done then mret tt
      else
        try_finally
          (try_except (on_restore (complete_writeback turns pending wait))
             (λ exc, on_restore (fail_writeback pending);; record_writeback_error exc))
          (e ← getS;
           l ← of_option (ValueError "list.remove(x): x not in list") (remove_equal pending (eng_pending_writebacks e));
           putS (e <| eng_pending_writebacks := l |>)));;
    on_restore (flush_catalog_saves turns false).

(** [_process_ready_remote_restores] *)
Definition process_ready_remote_restores : ME () :=
  e ← getS;
  let sc := eng_scheduler e in
  forM (ready_remote_restores (H := RemoteKV_service (page_tokens e)) sc) (λ state : PendingRestoreState PendingRemoteRestore,
    let p := pr_transfer state in
    try_except
      (envelopes ← on_restore (restore_result turns false p);
       forM (zip (zip (rr_pages p) (rr_block_ids p)) envelopes) (λ '(page, block_id, envelope),
         on_runner (import_kv_page block_id envelope (pd_identity_digest page) (pd_page_index page));; mret tt);;
       on_scheduler (complete_remote_restore clock (pr_sequence state)))
      (λ exc, on_scheduler (fail_remote_restore (H := RemoteKV_service (page_tokens e)) clock (pr_sequence state) exc))).

(** ** Requests *)
Definition encode_prompt (prompt : Prompt) : list Z :=
  match prompt with PromptText s => tokenizer_encode s | PromptTokens l => l end.
Definition add_request (prompt : Prompt) (sampling_params : SamplingParams) (qos : option RequestQoS) : ME nat :=
  e ← getS;
  putS (e <| eng_counter := S (eng_counter e) |>);;
  s ← lift (sequence_init (eng_counter e) (encode_prompt prompt) (Some sampling_params) qos None);
  on_scheduler (add append_ok clock s);;
  mret (seq_id s).
Definition cancel_engine_request (i : nat) : ME bool :=
  e ← getS;
  on_scheduler (cancel_request (H := RemoteKV_service (page_tokens e)) append_ok clock i).
Definition take_step_token_events : ME (list (nat * Z)) :=
  e ← getS;
  putS (e <| eng_step_token_events := [] |>);;
  mret (eng_step_token_events e).

(** ** [step] *)
(** The loop until something is scheduled; [fuel] bounds its waits. *)
Fixpoint schedule_loop (fuel : nat) : ME (list nat * bool) :=
  match fuel with
  | 0 => raise OutOfFuel
  | S fuel =>
      process_remote_writebacks false;;
      process_ready_remote_restores;;
      e ← getS;
      '(seqs, is_prefill) ← on_scheduler (schedule (H := RemoteKV_service (page_tokens e)) append_ok clock);
      if negb (bool_decide (seqs = [])) then mret (seqs, is_prefill)
      else
        e ← getS;
        raise_if (negb (has_pending_restores (eng_scheduler e))) (RuntimeError "scheduler produced no runnable requests");;
        on_restore (wait_for_any turns false (pr_transfer <$> (pending_restores (eng_scheduler e)).*2));;
        schedule_loop fuel
  end.
(** [self.model_runner.call("run", seqs, is_prefill)], timed *)
Definition run_batch (seqs : list nat) (is_prefill : bool) : ME (list Z * Q) :=
  started ← read_perf;
  batch ← on_scheduler (get_seqs seqs);
  background;;
  token_ids ← on_runner (ModelRunner.run batch is_prefill);
  stopped ← read_perf;
  mret (token_ids, (stopped - started) * 1000)%Q.
Definition batch_tokens (seqs : list Sequence) : nat := nsum (num_scheduled_tokens <$> seqs).
(** [step], from a scheduled batch on *)
Definition step_batch (seqs : list nat) (is_prefill : bool) : ME (list (nat * list Z) * Z) :=
  batch ← on_scheduler (get_seqs seqs);
  let num_tokens := if is_prefill then Z.of_nat (batch_tokens batch) else (- Z.of_nat (length seqs))%Z in
  '(token_ids, elapsed_ms) ← run_batch seqs is_prefill;
  let observed_tokens := if is_prefill then Z.of_nat (batch_tokens batch) else Z.of_nat (length seqs) in
  on_scheduler (observe_execution append_ok clock is_prefill observed_tokens elapsed_ms);;
  enqueue_remote_writebacks seqs;;
  before ← on_scheduler (get_seqs seqs);
  on_scheduler (postprocess append_ok clock seqs token_ids is_prefill);;
  after ← on_scheduler (get_seqs seqs);
  let events := omap (λ '(old, new, token_id),
    if num_completion_tokens old <? num_completion_tokens new then Some (seq_id new, token_id) else None)
    (zip (zip before after) token_ids) in
  modifyS (λ e : Engine, e <| eng_step_token_events := events |>);;
  process_remote_writebacks false;;
  finished ← on_scheduler (get_seqs seqs);
  mret ((λ s, (seq_id s, completion_token_ids s)) <$> filter (λ s, is_finished s = true) finished, num_tokens).
Definition step (fuel : nat) : ME (list (nat * list Z) * Z) :=
  modifyS (λ e : Engine, e <| eng_step_token_events := [] |>);;
  '(seqs, is_prefill) ← schedule_loop fuel;
  step_batch seqs is_prefill.

(** ** [generate] *)
Definition engine_is_finished (e : Engine) : bool := sched_is_finished (eng_scheduler e).
(** The loop of [generate]; [fuel] bounds its steps, [waits] the waits of each. *)
Fixpoint generate_loop (fuel waits : nat) (outputs : gmap nat (list Z)) : ME (gmap nat (list Z)) :=
  e ← getS;
  if engine_is_finished e then mret outputs
  else
    match fuel with
    | 0 => raise OutOfFuel
    | S fuel =>
        t ← read_perf;
        '(output, num_tokens) ← step waits;
        now ← read_perf;
        raise_if (Qeq_bool (now - t) 0) (ZeroDivisionError "float division by zero");;
        generate_loop fuel waits (foldl (λ m kv, <[kv.1 := kv.2]> m) outputs output)
    end.
Record Generation := mkGeneration { gen_text : string; gen_token_ids : list Z; gen_metrics : RequestMetrics }.
Definition generate (fuel waits : nat) (prompts : list Prompt) (sampling_params : PerPrompt SamplingParams)
    (request_qos : option (PerPrompt RequestQoS)) : ME (list Generation) :=
  let n := length prompts in
  sps ← lift (per_prompt n "sampling_params" sampling_params);
  qos ← lift (per_prompt n "request_qos" (default (ForAll default_qos) request_qos));
  submitted_seq_ids ← mapM_M (λ '(prompt, sp, q), add_request prompt sp (Some q)) (zip (zip prompts sps) qos);
  outputs ← generate_loop fuel waits ∅;
  mapM_M (λ i,
    token_ids ← of_option (KeyError "seq_id") (outputs !! i);
    e ← getS;
    metrics ← of_option (AttributeError "'NoneType' object has no attribute 'to_dict'") (request_metrics i (eng_scheduler e));
    mret (mkGeneration (tokenizer_decode token_ids) token_ids metrics)) submitted_seq_ids.

(** ** Metrics and [exit] *)
Definition get_scheduler_metrics : ME SchedulerMetrics := on_scheduler (sched_metrics perf_counter).
Definition get_request_metrics (i : nat) (e : Engine) : option RequestMetrics := request_metrics i (eng_scheduler e).

(** [self.kv_storage_backend.close()]: the object the coordinator holds *)
Definition close_backend : ME () := on_restore (λ s : Service,
  match st_close (tc_backend (sv_coordinator s)) with
  | (r, b) => (r, s <| sv_coordinator := sv_coordinator s <| tc_backend := b |> |>)
  end).
Definition drop_runner : ME () :=
  on_runner (mret tt);;
  modifyS (λ e : Engine, e <| eng_runner := None |>).
Definition exit : ME () :=
  e ← getS;
  if eng_exited e then mret tt
  else
    putS (e <| eng_exited := true |>);;
    try_finally
      (if has_service e then process_remote_writebacks true;; on_restore (service_close turns) else mret tt)
      (try_finally drop_runner (if has_service e then close_backend else mret tt)).

(** ** Construction *)
(** [torch.empty] of the shape of the cache, the GPU and the model's shape *)
Context (is_dir : string → bool) (hf_config : HfConfig) (gpu : GpuMemory) (shape : ModelShape) (eos_token_id : Z).
Context (torch_empty : list Z → T) (trace_exists : bool).
Definition layout_int (n : PyNum) : Z := default 0%Z (num_int n).
(** The first rank's [ModelRunner], and [config.num_kvcache_blocks] *)
Definition runner_init (c : Config) : result (ModelRunner T * Z) :=
  let bs := cf_kvcache_block_size c in
  n ← allocate_kv_blocks gpu shape bs (cf_tensor_parallel_size c) (cf_gpu_memory_utilization c) (cf_num_kvcache_blocks_override c);
  io ← torch_kv_page_io (torch_empty [2; ms_num_hidden_layers shape; n; bs; ms_num_key_value_heads shape / cf_tensor_parallel_size c;
                                      ms_head_dim shape])%Z;
  mret (mkModelRunner (Z.to_nat bs) (cf_enforce_eager c) 0 io
          (if cf_enforce_eager c then [] else graph_sizes (Z.to_nat (cf_max_num_seqs c)))
          (if cf_enforce_eager c then mkGraphVars [] [] [] [] []
           else graph_buffers (Z.to_nat (cf_max_num_seqs c)) (Z.to_nat (cf_max_model_len c)) (Z.to_nat bs)), n).
(** The planner of a cost-aware engine *)
Definition remote_planner (c : Config) (layout : KVPageLayout) : result KVTransferPlanner :=
  let num_layers := layout_int (l_num_layers layout) in
  let heads := layout_int (l_num_kv_heads layout) in
  let head_dim := layout_int (l_head_dim layout) in
  let elements := (2 * num_layers * layout_int (l_block_size layout) * heads * head_dim)%Z in
  throw_if (elements =? 0)%Z (ZeroDivisionError "integer division or modulo by zero");;
  geometry ← kv_cache_geometry (mkGeometry num_layers heads head_dim (layout_int (layout_nbytes layout) / elements));
  profile ← storage_tier_profile (mkTierProfile (cf_remote_kv_bandwidth_gbps c) (cf_remote_kv_fixed_latency_ms c)
                                    (cf_remote_kv_congestion_multiplier c));
  mret (mkTransferPlanner geometry (λ t, if decide (t = MOONCAKE) then Some profile else None)).
(** [LLMEngine.__init__]; [counter] is [Sequence.counter]. *)
Definition engine_init (kv_storage_backend : option B) (remote_prefix_catalog : option RemotePrefixCatalog) (config : Config)
    (counter : nat) : result Engine :=
  c ← config_post_init is_dir hf_config config;
  throw_if (match kv_storage_backend with Some _ => negb (cf_tensor_parallel_size c =? 1)%Z | None => false end)
    (ValueError "automatic remote KV restore currently requires tensor_parallel_size=1");;
  warmup ← warmup_sequences counter (Z.to_nat (cf_max_num_batched_tokens c)) (Z.to_nat (cf_max_model_len c)) (Z.to_nat (cf_max_num_seqs c));
  '(runner, n) ← runner_init c;
  let c := c <| cf_num_kvcache_blocks := n |> in
  window ← effective_context_window (cf_max_model_len c) (cf_num_kvcache_blocks c) (cf_kvcache_block_size c);
  let c := c <| cf_max_model_len := window |> <| cf_eos := eos_token_id |> in
  let layout := io_layout (mr_page_io runner) in
  identity ← kv_cache_identity (mkIdentity (default "" (cf_kv_cache_model_id c)) (cf_kv_cache_model_revision c) (l_dtype layout)
                                  (cf_tensor_parallel_size c) (cf_kvcache_block_size c) identity_layout_version);
  service ← match kv_storage_backend with
            | None => mret None
            | Some backend =>
                planner ← (if cf_remote_kv_cost_aware c then p ← remote_planner c layout; mret (Some p) else mret None);
                key ← (if cf_remote_kv_persist_catalog c
                       then k ← make_kv_catalog_key identity 0 page_namespace; mret (Some k) else mret None);
                s ← service_init turns backend remote_prefix_catalog planner key (Some (identity_digest identity, 0%Z))
                      (cf_remote_kv_catalog_timeout_s c);
                mret (Some s)
            end;
  sc ← scheduler_init (scheduler_config c) service trace_exists;
  mret (mkEngine c identity sc (Some runner) [] [] [] false (counter + length warmup) 0).
End engine.
