(* ===== verification/EngineRun.v ===== *)
(** * The engine: a step, and every state of a run

    For an engine without a remote store that runs the model eagerly: the batch [schedule] returns is
    one the model runner can address, a step of the engine samples one token per request of it and
    reports exactly what became of them, and the accounting of pages and requests holds in every state
    reached by adding, cancelling and stepping. *)
From S2P Require Import Prelude Json Blake2b Qos Sequence Policy KvPolicy RadixCache BlockManager BlockInv BlockSpec HierarchicalCache StorageBackend KvPage ModelRunner ModelRunnerSpec RemoteCatalog PrefixCatalog TransferCoordinator SchedulerTrace Scheduler Config SchedulerInv SchedulerReclaim SchedulerDecode SchedulerPrefill SchedulerLoop SchedulerContract SchedulerStep RemoteRestore LlmEngine.
Set Default Goal Selector "!".
Set Default Proof Using "Type".

(** ** The scheduler's batch and the model runner *)
Section batch.
Context {R S : Type} `{Hasher} `{FloatRepr}.
Implicit Types (sc : Scheduler R S) (s : Sequence) (l : list nat).
Abbreviation bs_of sc := (block_size (block_manager sc)).
Abbreviation pages_of sc := (length (blocks (block_manager sc))).

Definition tokens_at sc (i : nat) : nat := match objs sc !! i with Some s => num_tokens s | None => 0 end.
(** The cache and all requests together have fewer tokens than 32 bits count, and token ids fit in 64 bits. *)
Record fits sc : Prop := {
  fi_cache : (Z.of_nat (pages_of sc * bs_of sc) <= 2 ^ 31)%Z;
  fi_tokens : (Z.of_nat (nsum (tokens_at sc <$> live [] sc)) < 2 ^ 31 - 1)%Z;
  fi_ids i s : i ∈ live [] sc → objs sc !! i = Some s → Forall (λ t, -2 ^ 63 <= t < 2 ^ 63)%Z (token_ids s)
}.
Lemma static_object sc sc' i s' : static sc sc' → objs sc' !! i = Some s' → ∃ s, objs sc !! i = Some s ∧ token_ids s = token_ids s'.
Proof.
  intros (_ & _ & _ & _ & Ht) Hs. specialize (Ht i). rewrite Hs in Ht. destruct (objs sc !! i) as [s|]; [|done]. exists s. by injection Ht.
Qed.
Lemma nsum_perm l1 l2 : l1 ≡ₚ l2 → nsum l1 = nsum l2.
Proof. induction 1; unfold nsum in *; cbn in *; lia. Qed.
Lemma nsum_submseteq l1 l2 : l1 ⊆+ l2 → nsum l1 <= nsum l2.
Proof. intros [l ->%nsum_perm]%submseteq_Permutation. rewrite nsum_app. lia. Qed.
Lemma fits_still sc sc' : sched_ok [] sc → sched_ok [] sc' → conserves sc sc' → fits sc → fits sc'.
Proof.
  intros HI HI' [St Hl] [F1 F2 F3]. pose proof St as (_ & _ & _ & (Eb & _ & El) & _). split.
  - by rewrite Eb, El.
  - rewrite (nsum_perm (tokens_at sc' <$> _) (tokens_at sc' <$> live [] sc)) by by rewrite Hl.
    assert (E : tokens_at sc' <$> live [] sc = tokens_at sc <$> live [] sc); [|by rewrite E].
    apply list_fmap_ext. intros k i Hi. apply list_elem_of_lookup_2 in Hi. unfold tokens_at.
    destruct (so_obj _ _ HI' i) as (s' & Hs' & Hok'); [by rewrite Hl|]. destruct (static_object sc sc' i s' St Hs') as (s & Hs & Et).
    destruct (so_obj _ _ HI i Hi) as (s0 & Hs0 & Hok). assert (s0 = s) as -> by congruence. rewrite Hs, Hs'.
    by rewrite (rq_tokens _ _ _ Hok), (rq_tokens _ _ _ Hok'), Et.
  - intros i s' Hi Hs'. destruct (static_object sc sc' i s' St Hs') as (s & Hs & <-). apply (F3 i s); [by rewrite <-Hl|done].
Qed.

Lemma table_pages sc i s : sched_ok [] sc → i ∈ live [] sc → objs sc !! i = Some s → pages_fit (pages_of sc) s.
Proof.
  intros HI Hi Hs. destruct (sched_focus _ _ i HI Hi) as (s' & own & Hs' & _ & HB & _). assert (s' = s) as -> by congruence.
  pose proof (bi_own _ _ HB) as Ho. unfold ids_ok in Ho. apply Forall_app in Ho as [Ho _]. exact Ho.
Qed.
(** The requests of a prefill batch own the pages of what they compute. *)
Lemma prefill_addressable sc i s :
  sched_ok [] sc → fits sc → i ∈ live [] sc → objs sc !! i = Some s → prefill_ready (bs_of sc) s → addressable (bs_of sc) (pages_of sc) s.
Proof.
  intros HI HF Hi Hs (P1 & P2 & P3 & P4 & P5 & P6). pose proof (so_bs_pos _ _ HI) as Hbs. split; [done| |by eapply table_pages|by eapply fi_ids].
  rewrite P5. pose proof (num_blocks_covers (bs_of sc) s ltac:(lia)). lia.
Qed.
Lemma tokens_bound sc i s : sched_ok [] sc → fits sc → i ∈ live [] sc → objs sc !! i = Some s → (Z.of_nat (num_tokens s) < 2 ^ 31 - 1)%Z.
Proof.
  intros HI HF Hi Hs. pose proof (nsum_in (tokens_at sc <$> live [] sc) (tokens_at sc i) (list_elem_of_fmap_2 _ _ _ Hi)) as Hn.
  unfold tokens_at at 1 in Hn. rewrite Hs in Hn. pose proof (fi_tokens _ HF). lia.
Qed.
(** Those of a decode batch own the page of their last token. *)
Lemma decode_decodable sc i s :
  sched_ok [] sc → fits sc → i ∈ live [] sc → objs sc !! i = Some s → decode_ready (bs_of sc) s → decodable (pages_of sc) s.
Proof.
  intros HI HF Hi Hs (D1 & D2 & D3 & D4 & D5 & D6). pose proof (tokens_bound sc i s HI HF Hi Hs) as Hb.
  destruct (so_obj _ _ HI i Hi) as (s' & Hs' & Hok). assert (s' = s) as -> by congruence.
  split; [lia|lia| |by eapply table_pages|done|].
  - pose proof (rq_physical _ _ _ Hok). lia.
  - pose proof (fi_ids _ HF i s Hi Hs) as Ht. rewrite Forall_forall in Ht. apply Ht.
    pose proof (rq_last _ _ _ Hok) as Hl. apply last_Some in Hl as [l' Hl]. rewrite Hl. set_solver.
Qed.
(** The objects of a batch *)
Definition batch_of sc l (batch : list Sequence) : Prop := Forall2 (λ i s, objs sc !! i = Some s ∧ seq_id s = i) l batch.
Lemma batch_forall sc l batch (P : Sequence → Prop) :
  batch_of sc l batch → (∀ i s, i ∈ l → objs sc !! i = Some s → P s) → Forall P batch.
Proof.
  intros Hb HP. apply Forall_forall. intros s Hs. apply list_elem_of_lookup in Hs as [k Hk].
  destruct (Forall2_lookup_r _ _ _ _ _ Hb Hk) as (i & Hi & Hsi & _). apply (HP i); [by eapply list_elem_of_lookup_2|done].
Qed.
Lemma batch_sum sc l batch (f : Sequence → nat) :
  batch_of sc l batch → (∀ i s, i ∈ l → objs sc !! i = Some s → f s <= num_tokens s) → nsum (f <$> batch) <= nsum (tokens_at sc <$> l).
Proof.
  induction 1 as [|i s l batch [Hs _] _ IH]; intros Hf; [done|]. rewrite !fmap_cons. change (nsum (?x :: ?y)) with (x + nsum y).
  unfold tokens_at at 1. rewrite Hs. specialize (IH ltac:(intros j t Hj; apply Hf; by right)). pose proof (Hf i s ltac:(by left) Hs). lia.
Qed.
Lemma batch_tokens_bound sc l : fits sc → NoDup l → (∀ i, i ∈ l → i ∈ live [] sc) → (Z.of_nat (nsum (tokens_at sc <$> l)) < 2 ^ 31)%Z.
Proof.
  intros HF Hnd Hl. assert (Hs : l ⊆+ live [] sc) by (apply NoDup_submseteq; [done|exact Hl]).
  pose proof (nsum_submseteq _ _ (fmap_submseteq (tokens_at sc) _ _ Hs)). pose proof (fi_tokens _ HF). lia.
Qed.

Lemma at_ids_batch sc l batch : Forall2 (at_ids sc) l batch → batch_of sc l batch.
Proof. intros HR. eapply Forall2_impl; [exact HR|]. intros i s [Hs Hok]. split; [done|apply (rq_id _ _ _ Hok)]. Qed.
Lemma get_seqs_at sc l :
  (∀ i, i ∈ l → ∃ s, objs sc !! i = Some s ∧ seq_id s = i) → ∃ batch, get_seqs l sc = (inr batch, sc) ∧ batch_of sc l batch.
Proof.
  intros Hl. apply (mapM_M_reads (λ i s, objs sc !! i = Some s ∧ seq_id s = i)). intros i Hi.
  destruct (Hl i Hi) as (s & Hs & Hid). exists s. split; [by apply get_seq_run|done].
Qed.

Lemma live_objects sc l : sched_ok [] sc → (∀ i, i ∈ l → i ∈ live [] sc) → ∀ i, i ∈ l → ∃ s, objs sc !! i = Some s ∧ seq_id s = i.
Proof. intros HI Hl i Hi. destruct (so_obj _ _ HI i (Hl i Hi)) as (s & Hs & Hok). exists s. split; [done|apply (rq_id _ _ _ Hok)]. Qed.

(** ** What a step reports *)
(** The token sampled for a request whose prompt is computed. *)
Definition sampled (p : bool) sc (it : nat * Z) : option (nat * Z) :=
  match objs sc !! it.1 with Some s => if incomplete p s then None else Some it | None => None end.
(** The completion of a request that ends with its sampled token. *)
Definition completed (p : bool) sc (it : nat * Z) : option (nat * list Z) :=
  match objs sc !! it.1 with
  | Some s => if negb (incomplete p s) && ends (cfg sc) it.2 s then Some (it.1, completion_token_ids s ++ [it.2]) else None
  | None => None
  end.
Lemma report_one p sc sc' i tok s s' :
  objs sc !! i = Some s → objs sc' !! i = Some s' → num_tokens s = length (token_ids s) → num_prompt_tokens s <= num_tokens s →
  post_outcome p sc i tok sc' →
  (if num_completion_tokens s <? num_completion_tokens s' then Some (seq_id s', tok) else None) = sampled p sc (i, tok) ∧
  (if is_finished s' then Some (seq_id s', completion_token_ids s') else None) = completed p sc (i, tok).
Proof.
  intros Hs Hs' Hn Hp (s0 & s1 & Hs0 & Hs1 & _ & (Hid & Hpr & Hn') & Hcase). assert (s0 = s ∧ s1 = s') as [-> ->] by (split; congruence).
  unfold sampled, completed. cbn [fst snd]. rewrite Hs, Hid. unfold num_completion_tokens, is_finished, completion_token_ids.
  destruct (incomplete p s).
  - destruct Hcase as (Ht & Hst & _). rewrite Hst, Hn', Ht, Hpr, <-Hn. split; [|done]. by rewrite Nat.ltb_irrefl.
  - destruct Hcase as (Ht & Hcase). rewrite Hn', Ht, Hpr, length_app, <-Hn. cbn [length negb andb].
    rewrite drop_app_le by lia. split; [by rewrite (proj2 (Nat.ltb_lt _ _)) by lia|].
    destruct (ends (cfg sc) tok s); by destruct Hcase as [-> _].
Qed.
Definition token_event (x : Sequence * Sequence * Z) : option (nat * Z) :=
  let '(old, new, token_id) := x in
  if num_completion_tokens old <? num_completion_tokens new then Some (seq_id new, token_id) else None.
Lemma report_all p sc sc' l before : batch_of sc l before → ∀ after tokens,
  batch_of sc' l after → length tokens = length l →
  (∀ i s, i ∈ l → objs sc !! i = Some s → num_tokens s = length (token_ids s) ∧ num_prompt_tokens s <= num_tokens s) →
  (∀ i tok, (i, tok) ∈ zip l tokens → post_outcome p sc i tok sc') →
  omap token_event (zip (zip before after) tokens) = omap (sampled p sc) (zip l tokens) ∧
  (λ s, (seq_id s, completion_token_ids s)) <$> filter (λ s, is_finished s = true) after = omap (completed p sc) (zip l tokens).
Proof.
  induction 1 as [|i s l before [Hs Hi] _ IH]; intros after tokens Ha Hlen Hok Hout.
  { apply Forall2_nil_inv_l in Ha as ->. by destruct tokens. }
  apply Forall2_cons_inv_l in Ha as (s' & after' & [Hs' _] & Ha & ->). destruct tokens as [|tok tokens]; [done|].
  cbn [zip zip_with] in *. destruct (IH after' tokens) as [E1 E2]; [done|by injection Hlen|..].
  { intros j t Hj. apply Hok. by right. }
  { intros j t Hj. apply Hout. by right. }
  destruct (Hok i s ltac:(by left) Hs) as [Hn Hp]. destruct (report_one p sc sc' i tok s s' Hs Hs' Hn Hp) as [F1 F2]; [apply Hout; by left|].
  cbn [omap list_omap]. rewrite <-F1, <-F2, <-E1, <-E2. unfold token_event at 1. rewrite filter_cons.
  split; [done|]. destruct (is_finished s') eqn:Ef; [by rewrite decide_True|by rewrite decide_False].
Qed.
Lemma batch_scheduled sc l batch : batch_of sc l batch → batch_tokens batch = nsum (scheduled_at sc <$> l).
Proof.
  unfold batch_tokens. induction 1 as [|i s l batch [Hs _] _ IH]; [done|]. rewrite !fmap_cons.
  change (nsum (?x :: ?y)) with (x + nsum y). rewrite IH. unfold scheduled_at at 2. by rewrite Hs.
Qed.
(** The batch after [postprocess] *)
Lemma outcome_objects p sc sc' l tokens :
  length tokens = length l → (∀ i tok, (i, tok) ∈ zip l tokens → post_outcome p sc i tok sc') →
  ∀ i, i ∈ l → ∃ s, objs sc' !! i = Some s ∧ seq_id s = i.
Proof.
  intros Hlen Hout i Hi. assert (Hfst : (zip l tokens).*1 = l) by (apply fst_zip; lia).
  rewrite <-Hfst in Hi. apply list_elem_of_fmap in Hi as ([i' tok] & -> & Hit).
  destruct (Hout _ _ Hit) as (s & s' & _ & Hs' & _ & (Hid & _) & _). by exists s'.
Qed.
End batch.

(** ** The engine *)
Section engine.
Context {B T H L : Type} `{KVStorageBackend B} `{KvTensor T} `{LM : LanguageModel T H L} `{Hasher} `{FloatRepr}.
Abbreviation Service := (RemoteKVRestoreService B).
Abbreviation Sched := (Scheduler Service PendingRemoteRestore).
Abbreviation Engine := (LLMEngine B T).
Abbreviation bs_of sc := (block_size (block_manager sc)).
Implicit Types (e : Engine) (sc : Sched) (l : list nat).
Context (append_ok : nat → bool) (clock perf_counter : nat → Q) (turns : nat → list loop_event).
Context (tokenizer_encode : string → list Z).
(** One token per request of the batch *)
Hypothesis sampler_length : ∀ logits temps, length (sampler (LanguageModel := LM) logits temps) = length temps.

(** What holds between the engine's calls. *)
Record engine_ok e : Prop := {
  eo_sched : sched_ok [] (eng_scheduler e);
  eo_idle : idle (eng_scheduler e);
  eo_hash : prefix_cache_backend (block_manager (eng_scheduler e)) = HashBackend;
  eo_fresh i : i ∈ live [] (eng_scheduler e) → i < eng_counter e;
  eo_runner : ∃ r, eng_runner e = Some r ∧ mr_enforce_eager r = true ∧ mr_block_size r = bs_of (eng_scheduler e)
}.
Lemma wp_on_scheduler {A} (m : M Sched A) (Q : A → Engine → Prop) E e :
  wp m (λ a sc, Q a (e <| eng_scheduler := sc |>)) (λ x sc, E x (e <| eng_scheduler := sc |>)) (eng_scheduler e) →
  wp (on_scheduler m) Q E e.
Proof. unfold wp, on_scheduler. by destruct (m (eng_scheduler e)) as [[x|a] sc]. Qed.

(** Without a restore service there is nothing to write back or restore. *)
Lemma no_service e : remote_restore_service (eng_scheduler e) = None → has_service e = false.
Proof. unfold has_service. by intros ->. Qed.
Lemma writebacks_idle e wait : has_service e = false → process_remote_writebacks turns wait e = (inr tt, e).
Proof. intros Hs. unfold process_remote_writebacks, mbind, M_bind, getS. by rewrite Hs. Qed.
Lemma enqueue_idle e l : has_service e = false → enqueue_remote_writebacks l e = (inr tt, e).
Proof. intros Hs. unfold enqueue_remote_writebacks, mbind, M_bind, getS. by rewrite Hs. Qed.
Lemma background_idle e : has_service e = false → background turns e = (inr tt, e).
Proof. intros Hs. unfold background, mbind, M_bind, getS. by rewrite Hs. Qed.
Lemma restores_idle e :
  pending_restores (eng_scheduler e) = [] → process_ready_remote_restores clock turns e = (inr tt, e).
Proof.
  intros Hs. unfold process_ready_remote_restores, mbind, M_bind, getS. cbv zeta.
  unfold ready_remote_restores. by rewrite Hs.
Qed.

(** The eager model runner returns a token per request. *)
Lemma run_total r n seqs p :
  mr_enforce_eager r = true → 0 < mr_block_size r → seqs ≠ [] → (Z.of_nat (n * mr_block_size r) <= 2 ^ 31)%Z →
  (if p : bool then Forall (addressable (mr_block_size r) n) seqs ∧ (Z.of_nat (nsum (span_stop <$> seqs)) < 2 ^ 31)%Z
   else Forall (decodable n) seqs) →
  ∃ tokens r', ModelRunner.run seqs p r = (inr tokens, r') ∧ length tokens = length seqs ∧
    mr_enforce_eager r' = true ∧ mr_block_size r' = mr_block_size r.
Proof using sampler_length.
  intros He Hbs Hne Hcap Hready. assert (Hinp : ∃ inp, (if p then prepare_prefill (mr_block_size r) seqs else prepare_decode (mr_block_size r) seqs) = inr inp).
  { destruct p.
    - destruct Hready as [Ha Hs]. destruct (prepare_prefill_run _ n seqs Hbs Hne Ha Hcap Hs) as (q & k & w & ->). by eexists.
    - destruct (prepare_decode_run _ n seqs Hbs Hne Hready Hcap) as (w & ->). by eexists. }
  destruct Hinp as [[[ids pos] cx] Hinp]. unfold ModelRunner.run, mbind, M_bind, getS. rewrite Hinp. cbn [lift].
  unfold run_model, forward_pass, mbind, M_bind, getS, putS. rewrite He, orb_true_r. cbn [orb].
  destruct (forward cx ids pos (kv_cache (mr_page_io r))) as [hidden cache]. eexists _, _. split; [reflexivity|].
  rewrite sampler_length. unfold prepare_sample. by rewrite length_fmap.
Qed.

Definition runner_ok e : Prop :=
  ∃ r, eng_runner e = Some r ∧ mr_enforce_eager r = true ∧ mr_block_size r = bs_of (eng_scheduler e).
(** Only the runner and the tick count differ. *)
Definition same_but_runner e e' : Prop := eng_scheduler e' = eng_scheduler e ∧ eng_counter e' = eng_counter e ∧ runner_ok e'.

Lemma batch_inputs sc0 sc l p batch :
  sched_ok [] sc → static sc0 sc → batch_ok sc0 sc l p → fits sc → batch_of sc l batch →
  if p : bool then Forall (addressable (bs_of sc) (length (blocks (block_manager sc)))) batch ∧ (Z.of_nat (nsum (span_stop <$> batch)) < 2 ^ 31)%Z
  else Forall (decodable (length (blocks (block_manager sc)))) batch.
Proof.
  intros HI St HB HF Hb. pose proof (quiet_bs _ _ St) as Ebs.
  assert (Hr : ∀ i s, i ∈ l → objs sc !! i = Some s → i ∈ live [] sc ∧ if p then prefill_ready (bs_of sc) s else decode_ready (bs_of sc) s).
  { intros i s Hi Hs. split; [by apply (ba_in _ _ _ _ HB)|]. rewrite Ebs.
    destruct (ba_ready _ _ _ _ HB i Hi) as (s' & Hs' & Hr). assert (s' = s) as -> by congruence. destruct p; [done|apply Hr]. }
  destruct p.
  - split.
    + apply (batch_forall _ _ _ _ Hb). intros i s Hi Hs. destruct (Hr i s Hi Hs). by apply (prefill_addressable sc i).
    + pose proof (batch_tokens_bound sc l HF (ba_nodup _ _ _ _ HB) (ba_in _ _ _ _ HB)) as Hn.
      pose proof (batch_sum sc l batch span_stop Hb) as Hle. enough (nsum (span_stop <$> batch) <= nsum (tokens_at sc <$> l)) by lia.
      apply Hle. intros i s Hi Hs. destruct (Hr i s Hi Hs) as [_ (_ & _ & _ & ? & _)]. done.
  - apply (batch_forall _ _ _ _ Hb). intros i s Hi Hs. destruct (Hr i s Hi Hs). by apply (decode_decodable sc i).
Qed.

Lemma run_batch_spec e sc0 l p :
  sched_ok [] (eng_scheduler e) → static sc0 (eng_scheduler e) → batch_ok sc0 (eng_scheduler e) l p → fits (eng_scheduler e) → runner_ok e →
  wp (run_batch perf_counter turns l p) (λ r e', same_but_runner e e' ∧ length r.1 = length l) noexn e.
Proof using sampler_length.
  intros HI St HB HF (r & Hr & He & Hbs). unfold run_batch, read_perf. wp_steps. apply wp_on_scheduler.
  eapply wp_get_seqs; [exact HI|intros i Hi; by apply (ba_in _ _ _ _ HB)|]. intros batch Hb. apply at_ids_batch in Hb.
  pose proof (batch_inputs sc0 _ l p batch HI St HB HF Hb) as Hin. wp_step.
  eapply wp_of_run; [apply background_idle, no_service, (so_service _ _ HI)|].
  destruct (run_total r (length (blocks (block_manager (eng_scheduler e)))) batch p He) as (tokens & r' & Hrun & Hlen & He' & Hbs').
  - rewrite Hbs. pose proof (so_bs_pos _ _ HI). lia.
  - intros ->. apply Forall2_nil_inv_r in Hb. by destruct (ba_nonempty _ _ _ _ HB).
  - rewrite Hbs. apply (fi_cache _ HF).
  - by rewrite Hbs.
  - wp_step. eapply wp_of_run; [unfold on_runner; cbn [eng_runner setter set_eng_scheduler set_eng_ticks]; rewrite Hr, Hrun; reflexivity|].
    wp_steps. split; [split; [done|split; [done|]]|].
    + exists r'. split; [done|]. split; [done|]. by rewrite Hbs'.
    + cbn [fst]. rewrite Hlen. symmetry. by eapply Forall2_length.
Qed.

(** ** A step *)
(** What [step] returns and leaves, when it ran the batch [l] with the sampled [tokens]. *)
Definition step_outcome sc (r : list (nat * list Z) * Z) e' : Prop :=
  ∃ sc1 l (p : bool) (tokens : list Z), conserves sc sc1 ∧ batch_ok sc sc1 l p ∧ length tokens = length l ∧
    r = (omap (completed p sc1) (zip l tokens), if p then Z.of_nat (nsum (scheduled_at sc1 <$> l)) else (- Z.of_nat (length l))%Z) ∧
    eng_step_token_events e' = omap (sampled p sc1) (zip l tokens) ∧
    (∀ i tok, (i, tok) ∈ zip l tokens → post_outcome p sc1 i tok (eng_scheduler e')) ∧
    ∀ j, j ∉ l → objs (eng_scheduler e') !! j = objs sc1 !! j ∧ (j ∈ live [] (eng_scheduler e') ↔ j ∈ live [] sc1).
Lemma wp_get_seqs_at e l (Q : list Sequence → Engine → Prop) E :
  (∀ i, i ∈ l → ∃ s, objs (eng_scheduler e) !! i = Some s ∧ seq_id s = i) →
  (∀ batch e', batch_of (eng_scheduler e) l batch → e' = e → Q batch e') → wp (on_scheduler (get_seqs l)) Q E e.
Proof.
  intros Hl HQ. destruct (get_seqs_at _ l Hl) as (batch & Hrun & Hb). apply wp_on_scheduler. eapply wp_of_run; [exact Hrun|].
  apply HQ; [done|by destruct e].
Qed.

Lemma step_batch_spec sc0 e l p :
  sched_ok [] sc0 → prefix_cache_backend (block_manager sc0) = HashBackend → (∀ i, i ∈ live [] sc0 → i < eng_counter e) →
  sched_ok [] (eng_scheduler e) → conserves sc0 (eng_scheduler e) → batch_ok sc0 (eng_scheduler e) l p → fits (eng_scheduler e) → runner_ok e →
  wp (step_batch append_ok clock perf_counter turns l p) (λ r e', engine_ok e' ∧ step_outcome sc0 r e') noexn e.
Proof using sampler_length.
  intros HI0 Hhash Hfresh HI HC HB HF Hr. pose proof HC as [St Hl]. set (sc1 := eng_scheduler e) in *.
  assert (Hin : ∀ i, i ∈ l → i ∈ live [] sc1) by apply (ba_in _ _ _ _ HB).
  unfold step_batch. wp_step. apply wp_get_seqs_at; [by apply live_objects|]. intros b0 e0 Hb0 ->.
  wp_step. eapply wp_mono; [by apply (run_batch_spec e sc0)| |done]. intros [tokens ms] e1 [(E1 & C1 & R1) Hlen]. cbn [fst] in Hlen.
  wp_step. apply wp_on_scheduler. rewrite E1. eapply wp_mono; [by apply observe_spec| |done]. intros _ sc2 [HI2 Q2].
  pose proof Q2 as ((Ec2 & _) & [Qw2 Qr2] & Qo2 & Qb2).
  set (e2 := e1 <| eng_scheduler := sc2 |>). assert (E2 : eng_scheduler e2 = sc2 ∧ eng_counter e2 = eng_counter e ∧ eng_runner e2 = eng_runner e1) by done.
  clearbody e2. destruct E2 as (E2 & C2 & R2). wp_step.
  eapply wp_of_run; [apply enqueue_idle, no_service; rewrite E2; apply (so_service _ _ HI2)|].
  wp_step. apply wp_get_seqs_at; [rewrite E2, Qo2; by apply live_objects|]. intros b2 e2' Hb2 ->. rewrite E2 in Hb2.
  wp_step. apply wp_on_scheduler. rewrite E2.
  eapply wp_mono; [by apply (postprocess_spec append_ok clock sc0 sc1 sc2 l p tokens)| |done].
  intros _ sc3 (HI3 & Hid3 & Ec3 & Hst3 & Hrest & Hout).
  set (e3 := e2 <| eng_scheduler := sc3 |>). assert (E3 : eng_scheduler e3 = sc3 ∧ eng_counter e3 = eng_counter e2 ∧ eng_runner e3 = eng_runner e2) by done.
  clearbody e3. destruct E3 as (E3 & C3 & R3).
  assert (Hout1 : ∀ i tok, (i, tok) ∈ zip l tokens → post_outcome p sc1 i tok sc3).
  { intros i tok Hit. apply (post_outcome_before p sc1 i tok sc2 sc3); [by rewrite Qo2|done|by apply Hout]. }
  pose proof (outcome_objects p sc1 sc3 l tokens Hlen Hout1) as Hobj.
  wp_step. apply wp_get_seqs_at; [by rewrite E3|]. intros b3 e3' Hb3 ->. rewrite E3 in Hb3. cbv zeta. wp_step. wp_step.
  match goal with |- wp _ _ _ ?x => set (e4 := x) end.
  assert (E4 : eng_scheduler e4 = sc3 ∧ eng_counter e4 = eng_counter e ∧ eng_runner e4 = eng_runner e1 ∧
    eng_step_token_events e4 = omap token_event (zip (zip b2 b3) tokens)) by (split_and!; [exact E3|exact (eq_trans C3 C2)|exact (eq_trans R3 R2)|reflexivity]).
  clearbody e4. destruct E4 as (E4 & C4 & R4 & V4).
  wp_step. eapply wp_of_run; [apply writebacks_idle, no_service; rewrite E4; apply (so_service _ _ HI3)|].
  wp_step. apply wp_get_seqs_at; [by rewrite E4|]. intros b4 e4' Hb4 ->. rewrite E4 in Hb4. wp_step.
  assert (Hcheck : ∀ i s, i ∈ l → objs sc1 !! i = Some s → num_tokens s = length (token_ids s) ∧ num_prompt_tokens s <= num_tokens s).
  { intros i s Hi Hs. destruct (so_obj _ _ HI i (Hin i Hi)) as (s' & Hs' & Hok). assert (s' = s) as -> by congruence. split; apply Hok. }
  assert (Hb2' : batch_of sc1 l b2) by (unfold batch_of in *; rewrite Qo2 in Hb2; exact Hb2).
  destruct (report_all p sc1 sc3 l b2 Hb2' b3 tokens Hb3 Hlen Hcheck Hout1) as [Hev _].
  destruct (report_all p sc1 sc3 l b2 Hb2' b4 tokens Hb4 Hlen Hcheck Hout1) as [_ Hfin].
  split.
  - split; rewrite ?E4; [done|done| | |].
    + destruct Hst3 as (_ & -> & _), St as (_ & _ & _ & (_ & Eh & _) & _). rewrite Qb2. by etrans.
    + intros i Hi. rewrite C4. apply Hfresh. rewrite <-Hl. destruct (decide (i ∈ l)) as [?|Hn]; [by apply Hin|].
      destruct (Hrest i Hn) as [_ Hli]. apply Hli in Hi. unfold live in *. rewrite Qw2, Qr2 in Hi. exact Hi.
    + destruct R1 as (r & Hr1 & ? & Hbs). exists r. split; [congruence|]. split; [done|]. destruct Hst3 as (-> & _). by rewrite Hbs, Qb2, E1.
  - exists sc1, l, p, tokens. rewrite E4. split_and!; [done|done|done| |congruence|done|].
    + rewrite Hfin. destruct p; [|done]. by rewrite (batch_scheduled sc1 l b0).
    + intros j Hj. destruct (Hrest j Hj) as [Ho Hli]. rewrite Hli, Ho, Qo2. split; [done|]. unfold live. rewrite Qw2, Qr2. done.
Qed.

Lemma schedule_loop_spec e n :
  engine_ok e →
  wp (schedule_loop append_ok clock turns (S n)) (λ r e', sched_ok [] (eng_scheduler e') ∧ conserves (eng_scheduler e) (eng_scheduler e') ∧
      batch_ok (eng_scheduler e) (eng_scheduler e') (r.1) (r.2) ∧ eng_counter e' = eng_counter e ∧ eng_runner e' = eng_runner e)
    (λ x e', schedule_error x ∧ engine_ok e' ∧ conserves (eng_scheduler e) (eng_scheduler e') ∧ ¬ can_progress (eng_scheduler e)) e.
Proof.
  intros [HI Hid Hh Hf Hr]. cbn [schedule_loop]. wp_step.
  eapply wp_of_run; [apply writebacks_idle, no_service, (so_service _ _ HI)|].
  wp_step. eapply wp_of_run; [apply restores_idle, (so_pending _ _ HI)|]. wp_step. wp_step. wp_step. apply wp_on_scheduler.
  eapply wp_mono; [by apply schedule_spec| |].
  - intros [l p] sc (HI1 & HC & HB). cbn [fst snd] in HB. pose proof (ba_nonempty _ _ _ _ HB) as Hne.
    rewrite bool_decide_eq_false_2 by done. cbn [negb]. wp_step. by split_and!.
  - intros x sc (Hx & HI1 & HC & Hid1 & Hn). split; [done|]. split; [|done]. pose proof HC as [(_ & _ & _ & (Eb & Eh & _) & _) Hl].
    split; cbn [eng_scheduler eng_counter eng_runner setter set_eng_scheduler]; [done|done| | |].
    + by rewrite Eh.
    + intros i. rewrite Hl. apply Hf.
    + by rewrite Eb.
Qed.
Lemma step_spec e n :
  engine_ok e → fits (eng_scheduler e) →
  wp (step append_ok clock perf_counter turns (S n)) (λ r e', engine_ok e' ∧ step_outcome (eng_scheduler e) r e')
    (λ x e', schedule_error x ∧ engine_ok e' ∧ conserves (eng_scheduler e) (eng_scheduler e') ∧ ¬ can_progress (eng_scheduler e)) e.
Proof using sampler_length.
  intros He HF. unfold step. wp_step. wp_step. set (e1 := setter _ _ e).
  assert (E1 : eng_scheduler e1 = eng_scheduler e ∧ eng_counter e1 = eng_counter e ∧ eng_runner e1 = eng_runner e) by done.
  clearbody e1. destruct E1 as (E1 & C1 & R1). rewrite <-E1 in *. assert (He1 : engine_ok e1).
  { destruct He as [A1 A2 A3 A4 A5]. rewrite <-E1, <-C1, <-R1 in *. by split. }
  wp_step. eapply wp_mono; [by apply schedule_loop_spec|cbn beta|done].
  intros [l p] e2 (HI2 & HC & HB & C2 & R2). cbn [fst snd] in HB. destruct He1 as [A1 A2 A3 A4 A5].
  apply (wp_mono _ (λ r e', engine_ok e' ∧ step_outcome (eng_scheduler e1) r e') _ noexn); [|done|by intros ? ? []].
  apply step_batch_spec; try done.
  - by rewrite C2.
  - by apply (fits_still (eng_scheduler e1)).
  - destruct A5 as (r & Hr & Hg & Hb). exists r. rewrite R2. split; [done|]. split; [done|]. rewrite Hb.
    destruct HC as [St _]. by rewrite (quiet_bs _ _ St).
Qed.

(** ** Arrivals, cancellations, and every state of a run *)
(** The scheduler gains or loses requests; the runner stays. *)
Lemma engine_ok_sched e e' :
  engine_ok e → sched_ok [] (eng_scheduler e') → idle (eng_scheduler e') →
  bm_static (block_manager (eng_scheduler e)) (block_manager (eng_scheduler e')) →
  (∀ i, i ∈ live [] (eng_scheduler e') → i < eng_counter e') → eng_runner e' = eng_runner e → engine_ok e'.
Proof.
  intros [HI Hid Hh Hf (r & Hr & Hg & Hb)] HI' Hid' (Eb & Eh & _) Hf' Er. split; [done|done|congruence|done|].
  exists r. by rewrite Er, Eb.
Qed.
Lemma add_request_spec e prompt sp q :
  engine_ok e → wp (add_request append_ok clock tokenizer_encode prompt sp q) (λ i e', i = eng_counter e ∧ engine_ok e' ∧
      waiting (eng_scheduler e') = waiting (eng_scheduler e) ++ [i]) (λ _ e', engine_ok e' ∧ eng_scheduler e' = eng_scheduler e) e.
Proof.
  clear perf_counter turns. intros He. pose proof He as [HI Hid Hh Hf Hr]. unfold add_request. wp_step. wp_step. wp_step. wp_step. set (e1 := setter _ _ e).
  assert (E1 : eng_scheduler e1 = eng_scheduler e ∧ eng_counter e1 = S (eng_counter e) ∧ eng_runner e1 = eng_runner e) by done.
  clearbody e1. destruct E1 as (E1 & C1 & R1). wp_step. apply wp_lift.
  - intros s Hs. apply sequence_init_new in Hs as [Hnew Hid']. wp_step. apply wp_on_scheduler. rewrite E1.
    eapply wp_mono; [apply add_spec; [done| |done]| |done].
    + rewrite Hid'. intros Hi%Hf. lia.
    + intros _ sc (HI' & Ec & Eb & Ew & Er & Ho). wp_step. rewrite Hid' in *. split; [done|]. split; [|exact Ew].
      apply (engine_ok_sched e); try done; cbn [eng_scheduler eng_counter eng_runner setter set_eng_scheduler].
      * intros i s' Hi Hs'. rewrite Er in Hi. rewrite Ho in Hs'; [by apply (Hid i)|].
        intros ->. apply (live_running []) in Hi. apply Hf in Hi. lia.
      * by rewrite Eb.
      * intros i Hi. rewrite C1. assert (i ∈ live [] (eng_scheduler e) ∨ i = eng_counter e) as [Hl| ->]; [|apply Hf in Hl; lia|lia].
        rewrite live_iff in *. rewrite Ew, Er, elem_of_app, list_elem_of_singleton in Hi. tauto.
  - intros x _. split; [|done]. apply (engine_ok_sched e); rewrite ?E1; try done. intros i Hi%Hf. lia.
Qed.
Lemma cancel_engine_spec e i :
  engine_ok e → wp (cancel_engine_request append_ok clock i) (λ r e', engine_ok e' ∧ r = bool_decide (i ∈ live [] (eng_scheduler e)) ∧
      i ∉ live [] (eng_scheduler e') ∧ ∀ j, j ≠ i → objs (eng_scheduler e') !! j = objs (eng_scheduler e) !! j ∧
        (j ∈ live [] (eng_scheduler e') ↔ j ∈ live [] (eng_scheduler e))) noexn e.
Proof.
  clear sampler_length LM perf_counter turns tokenizer_encode. intros He. pose proof He as [HI Hid Hh Hf Hr]. unfold cancel_engine_request. wp_step. wp_step. apply wp_on_scheduler.
  destruct (decide (i ∈ live [] (eng_scheduler e))) as [Hi|Hi].
  - eapply wp_mono; [by apply cancel_spec| |done]. intros r sc (-> & HI' & Hl & Hrun & [St Ho] & s' & Hs' & _ & _ & Hn').
    pose proof (so_nodup _ _ HI) as Hnd. rewrite <-Hl in Hnd. apply NoDup_cons in Hnd as [Hni _].
    split; [|split; [by rewrite bool_decide_eq_true_2|]; split; [done|]].
    + apply (engine_ok_sched e); try done; cbn [eng_scheduler eng_counter eng_runner setter set_eng_scheduler].
      * intros j sj Hj Hsj. assert (j ≠ i) by (intros ->; by apply Hni, live_running). rewrite Ho in Hsj by set_solver. by apply (Hid j); [apply Hrun|].
      * by destruct St as (_ & _ & _ & ? & _).
      * intros j Hj. apply Hf. rewrite <-Hl. by right.
    + intros j Hj. cbn [eng_scheduler setter set_eng_scheduler]. split; [apply Ho; set_solver|]. rewrite <-Hl, elem_of_cons. tauto.
  - eapply wp_of_run; [by apply cancel_unknown|]. assert (e <| eng_scheduler := eng_scheduler e |> = e) as -> by by destruct e.
    split; [done|]. split; [by rewrite bool_decide_eq_false_2|done].
Qed.
Context (is_dir : string → bool) (hf_config : HfConfig) (gpu : GpuMemory) (shape : ModelShape) (eos_token_id : Z).
Context (torch_empty : list Z → T) (trace_exists : bool).
Lemma post_init_same c c' :
  config_post_init is_dir hf_config c = inr c' → cf_enforce_eager c' = cf_enforce_eager c ∧
    cf_prefix_cache_backend c' = cf_prefix_cache_backend c ∧ cf_kv_compression_policy c' = cf_kv_compression_policy c ∧
    cf_kvcache_block_size c' = cf_kvcache_block_size c.
Proof.
  clear append_ok clock perf_counter turns tokenizer_encode. unfold config_post_init. intros Hp. cbv zeta in Hp. apply result_bind_inr in Hp as ([] & _ & Hp). apply (inj inr) in Hp as <-.
  by destruct (cf_kv_cache_model_id (c <| cf_requested_max_model_len := cf_max_model_len c |>)).
Qed.
Lemma engine_init_ok config counter e :
  engine_init turns is_dir hf_config gpu shape eos_token_id torch_empty trace_exists (B := B) None None config counter = inr e →
  cf_enforce_eager config = true → cf_prefix_cache_backend config = "hash" → cf_kv_compression_policy config ≠ "query_aware" →
  header_fits (eng_scheduler e) → engine_ok e ∧ live [] (eng_scheduler e) = [].
Proof.
  clear append_ok clock perf_counter tokenizer_encode sampler_length.
  unfold engine_init. intros Hi He Hback Hpol Hh. apply result_bind_inr in Hi as (c & Hc & Hi).
  pose proof (post_init_same _ _ Hc) as (E1 & E2 & E3 & E4). pose proof (post_init_ok _ _ _ _ Hc) as Hok.
  apply result_bind_inr in Hi as ([] & _ & Hi). apply result_bind_inr in Hi as (warm & _ & Hi).
  apply result_bind_inr in Hi as ([r n] & Hrun & Hi). cbv beta iota zeta in Hi.
  apply result_bind_inr in Hi as (w & Hw & Hi). apply result_bind_inr in Hi as (id & _ & Hi).
  apply result_bind_inr in Hi as (sv & Hsv & Hi). apply (inj inr) in Hsv as <-.
  apply result_bind_inr in Hi as (sc & Hsc & Hi). apply (inj inr) in Hi as <-. cbn [eng_scheduler] in *.
  set (c1 := c <| cf_num_kvcache_blocks := n |>) in *. change (cf_kvcache_block_size c1) with (cf_kvcache_block_size c) in *.
  change (cf_num_kvcache_blocks c1) with n in *. unfold effective_context_window in Hw. result_inv. breflect.
  pose proof (co_page _ Hok) as Hpage.
  assert (Hbs : (256 <= cf_kvcache_block_size c)%Z).
  { apply Z.div_exact in Hpage; [|done]. pose proof (Z.div_pos (cf_kvcache_block_size c) 256). lia. }
  destruct (scheduler_init_ok _ _ _ Hsc Hh) as (HI & Hid & Hl & Hb & Ec).
  - change (2 <= Z.to_nat (cf_kvcache_block_size c)). lia.
  - change (0 < Z.to_nat n). lia.
  - change (cf_kv_compression_policy c ≠ "query_aware" ∧ (cf_kv_compression_policy c = "sink_recent" →
      1 <= Z.to_nat (cf_kv_compression_sink_blocks c) ∧ 1 <= Z.to_nat (cf_kv_compression_recent_blocks c))).
    split; [congruence|]. intros _. pose proof (co_sink _ Hok). pose proof (co_recent _ Hok). lia.
  - split; [|done]. split; cbn [eng_scheduler eng_counter eng_runner]; [done|done| |by rewrite Hl; intros i ?%not_elem_of_nil|].
    + change (c_prefix_cache_backend _) with (cf_prefix_cache_backend c) in Hb. by rewrite E2, Hback in Hb.
    + exists r. split; [done|]. unfold runner_init in Hrun. cbv zeta in Hrun.
      apply result_bind_inr in Hrun as (m & _ & Hrun). apply result_bind_inr in Hrun as (io & _ & Hrun).
      apply (inj inr) in Hrun as [= <- _]. cbn [mr_enforce_eager mr_block_size]. split; [congruence|].
      by rewrite (so_bs _ _ HI), Ec.
Qed.

(** The states of an engine without a remote store that runs its model eagerly with the hash index:
    built by [engine_init], then whatever is added, cancelled and stepped, whether the call
    returns or raises. *)
Inductive reachable : Engine → Prop :=
| reach_init config counter e :
    engine_init turns is_dir hf_config gpu shape eos_token_id torch_empty trace_exists None None config counter = inr e →
    cf_enforce_eager config = true → cf_prefix_cache_backend config = "hash" → cf_kv_compression_policy config ≠ "query_aware" →
    header_fits (eng_scheduler e) → reachable e
| reach_add e prompt sp q : reachable e → reachable (add_request append_ok clock tokenizer_encode prompt sp q e).2
| reach_cancel e i : reachable e → reachable (cancel_engine_request append_ok clock i e).2
| reach_events e : reachable e → reachable (take_step_token_events e).2
| reach_step e n : reachable e → fits (eng_scheduler e) → reachable (step append_ok clock perf_counter turns (S n) e).2.
Lemma wp_after {A} (m : M Engine A) (P : Engine → Prop) Q E e :
  wp m Q E e → (∀ a e', Q a e' → P e') → (∀ x e', E x e' → P e') → P (m e).2.
Proof. clear. unfold wp. intros Hm HQ HE. destruct (m e) as [[x|a] e']; cbn [snd]; eauto. Qed.
Lemma reachable_ok e : reachable e → engine_ok e.
Proof using sampler_length.
  induction 1 as [config counter e He Hg Hb Hp Hh|e prompt sp q _ IH|e i _ IH|e _ IH|e n _ IH HF].
  - by eapply engine_init_ok.
  - by eapply wp_after; [apply add_request_spec, IH|by intros ? ? (_ & ? & _)|by intros ? ? [? _]].
  - by eapply wp_after; [apply cancel_engine_spec, IH|by intros ? ? [? _]|by intros ? ? []].
  - destruct IH. by split.
  - by eapply wp_after; [apply step_spec; [exact IH|exact HF]|by intros ? ? [? _]|by intros ? ? (_ & ? & _)].
Qed.

(** C2: in every state the engine reaches, a page's reference count is the number of times the block tables of the
    waiting and running requests name it, the free pages are exactly those nobody names, and none is lost: when
    no request is left, every page is free. *)
Theorem run_keeps_accounts e :
  reachable e →
  let sc := eng_scheduler e in let bm := block_manager sc in
  NoDup (live [] sc) ∧ (∀ i, i ∈ live [] sc → i < eng_counter e) ∧
  (∀ b bl, blocks bm !! b = Some bl → ref_count bl = Z.of_nat (occ b (owned sc (live [] sc))) ∧ (b ∈ free_block_ids bm ↔ occ b (owned sc (live [] sc)) = 0)) ∧
  length (free_block_ids bm) + size (used_block_ids bm) = length (blocks bm) ∧
  (engine_is_finished e = true → length (free_block_ids bm) = length (blocks bm)).
Proof using sampler_length.
  intros Hr. apply reachable_ok in Hr as [HI _ _ Hf _]. cbv zeta. pose proof (so_bm _ _ HI) as HB. pose proof (bm_total _ _ HB) as Ht.
  split; [apply (so_nodup _ _ HI)|]. split; [exact Hf|]. split; [|split; [done|]].
  - intros b bl Hb. split; [by apply (bi_ref _ _ HB)|]. rewrite (bi_free _ _ HB). apply lookup_lt_Some in Hb. tauto.
  - unfold engine_is_finished, sched_is_finished. intros [[Hw%bool_decide_eq_true Hrn%bool_decide_eq_true]%andb_true_iff _]%andb_true_iff.
    assert (Hu : used_block_ids (block_manager (eng_scheduler e)) = ∅); [|by rewrite Hu, size_empty, Nat.add_0_r in Ht].
    apply set_eq. intros b. rewrite (bi_used _ _ HB). unfold live, owned. rewrite Hw, Hrn. split; [intros Hb; by apply Nat.nlt_0_r in Hb|by intros ?%not_elem_of_empty].
Qed.

(** C1: a step either runs a batch or raises one of [schedule]'s two errors, and the second only when some
    request does not fit the cache, the limits are zero, or there is no request. When it runs one, the batch is within the limits,
    each of its requests gets what [post_outcome] says, everybody else is as [schedule] left them, and the step
    reports one event per sampled token, in order, and the completions of those that ended. *)
Theorem engine_step e n :
  engine_ok e → fits (eng_scheduler e) →
  (∃ r e', step append_ok clock perf_counter turns (S n) e = (inr r, e') ∧ engine_ok e' ∧ step_outcome (eng_scheduler e) r e') ∨
  ∃ x e', step append_ok clock perf_counter turns (S n) e = (inl x, e') ∧ schedule_error x ∧ engine_ok e' ∧
    conserves (eng_scheduler e) (eng_scheduler e') ∧ ¬ can_progress (eng_scheduler e).
Proof using sampler_length.
  intros He HF. pose proof (step_spec e n He HF) as Hw. unfold wp in Hw.
  destruct (step append_ok clock perf_counter turns (S n) e) as [[x|r] e']; [right|left]; by eexists _, _.
Qed.
End engine.
