(* ===== verification/EventQueue.v ===== *)
(** * The queue of a request's events

    Models [GenerationEventQueue] of [nanovllm/serve/engine_worker.py]: a thread-safe queue whose
    consumer waits on a future of its event loop. A step is one of the stretches that no lock
    or [await] divides: an append, the snapshot of the waiters, one
    [call_soon_threadsafe], a callback of the loop, the stretches of [get_async]. Theorems: items are received
    in the order they were appended, each once; and no wake-up is lost. *)
From S2P Require Import Prelude.
Set Default Goal Selector "!".

Inductive FutureStatus := Pending | Resolved | Dropped.
(** A thread inside [put], and a coroutine inside [get_async]. *)
Inductive Putter (A : Type) := PutItem (x : A) | PutSnapshot | PutWake (waiters : list nat).
Arguments PutItem {A}.
Arguments PutSnapshot {A}.
Arguments PutWake {A}.
Inductive Getter (A : Type) := GetStart | GetCheck (f : nat) | GetWait (f : nat) | Got (x : A) | GetDropped.
Arguments GetStart {A}.
Arguments GetCheck {A}.
Arguments GetWait {A}.
Arguments Got {A}.
Arguments GetDropped {A}.

(** [eq_waiters] is [_waiters]; a future is a position in [eq_futures]; [eq_callbacks] are
    the callbacks handed to the loop, oldest first. *)
Record EventQueue (A : Type) := mkEventQueue {
  eq_items : list A;
  eq_waiters : gset nat;
  eq_futures : list FutureStatus;
  eq_callbacks : list nat;
  eq_putters : list (Putter A);
  eq_getters : list (Getter A);
  eq_loop_closed : bool
}.
Arguments mkEventQueue {A}.
Arguments eq_items {A}.
Arguments eq_waiters {A}.
Arguments eq_futures {A}.
Arguments eq_callbacks {A}.
Arguments eq_putters {A}.
Arguments eq_getters {A}.
Arguments eq_loop_closed {A}.
#[export] Instance EventQueue_eta {A} : RecordEta (EventQueue A) := λ r, {|
  eq_items := eq_items r; eq_waiters := eq_waiters r; eq_futures := eq_futures r; eq_callbacks := eq_callbacks r;
  eq_putters := eq_putters r; eq_getters := eq_getters r; eq_loop_closed := eq_loop_closed r |}.
#[export] Instance set_eq_items {A} : Setter (@eq_items A) := ltac:(derive_setter).
#[export] Instance set_eq_waiters {A} : Setter (@eq_waiters A) := ltac:(derive_setter).
#[export] Instance set_eq_futures {A} : Setter (@eq_futures A) := ltac:(derive_setter).
#[export] Instance set_eq_callbacks {A} : Setter (@eq_callbacks A) := ltac:(derive_setter).
#[export] Instance set_eq_putters {A} : Setter (@eq_putters A) := ltac:(derive_setter).
#[export] Instance set_eq_getters {A} : Setter (@eq_getters A) := ltac:(derive_setter).
#[export] Instance set_eq_loop_closed {A} : Setter (@eq_loop_closed A) := ltac:(derive_setter).

Inductive queue_event (A : Type) :=
| QPut (x : A)      (* a thread calls [put] *)
| QPutter (i : nat) (* a thread inside [put] goes on *)
| QGet              (* a coroutine calls [get_async] *)
| QGetter (j : nat) (* a coroutine inside [get_async] goes on *)
| QDrop (j : nat)   (* a waiting coroutine is cancelled *)
| QCallback         (* the loop runs its oldest callback *)
| QCloseLoop.
Arguments QPut {A}.
Arguments QPutter {A}.
Arguments QGet {A}.
Arguments QGetter {A}.
Arguments QDrop {A}.
Arguments QCallback {A}.
Arguments QCloseLoop {A}.

Section queue.
Context {A : Type}.
Implicit Types (s : EventQueue A).

Definition event_queue_init : EventQueue A := mkEventQueue [] ∅ [] [] [] [] false.
Definition set_putter (i : nat) (p : Putter A) s : EventQueue A := s <| eq_putters := <[i := p]> (eq_putters s) |>.
Definition set_getter (j : nat) (g : Getter A) s : EventQueue A := s <| eq_getters := <[j := g]> (eq_getters s) |>.
Definition discard_waiter (f : nat) s : EventQueue A := s <| eq_waiters := eq_waiters s ∖ {[f]} |>.

(** [put]: append, then snapshot the waiters, then wake each; a closed loop refuses the callback, and the
    waiter is discarded. *)
Definition put_step (i : nat) s : option (EventQueue A) :=
  match eq_putters s !! i with
  | Some (PutItem x) => Some (set_putter i PutSnapshot (s <| eq_items := eq_items s ++ [x] |>))
  | Some PutSnapshot => Some (set_putter i (PutWake (elements (eq_waiters s))) s)
  | Some (PutWake (f :: waiters)) =>
      Some (set_putter i (PutWake waiters)
              (if eq_loop_closed s then discard_waiter f s else s <| eq_callbacks := eq_callbacks s ++ [f] |>))
  | _ => None
  end.
(** [_wake] *)
Definition wake (f : nat) (l : list FutureStatus) : list FutureStatus :=
  alter (λ st, match st with Pending => Resolved | _ => st end) f l.
(** [get_async]: a future registers before the queue is checked; whatever comes of the check, the waiter is
    discarded when the stretch ends. *)
Definition get_step (j : nat) s : option (EventQueue A) :=
  match eq_getters s !! j with
  | Some GetStart =>
      let f := length (eq_futures s) in
      Some (set_getter j (GetCheck f) (s <| eq_futures := eq_futures s ++ [Pending] |> <| eq_waiters := eq_waiters s ∪ {[f]} |>))
  | Some (GetCheck f) =>
      match eq_items s with
      | x :: items => Some (set_getter j (Got x) (discard_waiter f (s <| eq_items := items |>)))
      | [] => Some (set_getter j (GetWait f) s)
      end
  | Some (GetWait f) =>
      match eq_futures s !! f with
      | Some Resolved => Some (set_getter j GetStart (discard_waiter f s))
      | _ => None
      end
  | _ => None
  end.
Definition drop_getter (j : nat) s : option (EventQueue A) :=
  match eq_getters s !! j with
  | Some (GetWait f) =>
      Some (set_getter j GetDropped (discard_waiter f (s <| eq_futures := alter (λ st, match st with Pending => Dropped | _ => st end) f (eq_futures s) |>)))
  | _ => None
  end.
Definition queue_step (e : queue_event A) s : option (EventQueue A) :=
  match e with
  | QPut x => Some (s <| eq_putters := eq_putters s ++ [PutItem x] |>)
  | QPutter i => put_step i s
  | QGet => if eq_loop_closed s then None else Some (s <| eq_getters := eq_getters s ++ [GetStart] |>)
  | QGetter j => if eq_loop_closed s then None else get_step j s
  | QDrop j => if eq_loop_closed s then None else drop_getter j s
  | QCallback =>
      if eq_loop_closed s then None
      else match eq_callbacks s with
           | f :: l => Some (s <| eq_callbacks := l |> <| eq_futures := wake f (eq_futures s) |>)
           | [] => None
           end
  | QCloseLoop => Some (s <| eq_loop_closed := true |>)
  end.
Fixpoint queue_run (es : list (queue_event A)) s : option (EventQueue A) :=
  match es with
  | [] => Some s
  | e :: es => s ← queue_step e s; queue_run es s
  end.
(** What a step appends to the queue. *)
Definition appended (e : queue_event A) s : list A :=
  match e with
  | QPutter i => match eq_putters s !! i with Some (PutItem x) => [x] | _ => [] end
  | _ => []
  end.
(** What a coroutine has returned from [get_async] when its step has led to [s]. *)
Definition returned (e : queue_event A) s : list A :=
  match e with
  | QGetter j => match eq_getters s !! j with Some (Got x) => [x] | _ => [] end
  | _ => []
  end.
(** The states of a queue, with what was appended and what [get_async] returned, in order. *)
Inductive queue_reachable : EventQueue A → list A → list A → Prop :=
| queue_start : queue_reachable event_queue_init [] []
| queue_more s s' puts gets e :
    queue_reachable s puts gets → queue_step e s = Some s' → queue_reachable s' (puts ++ appended e s) (gets ++ returned e s').
End queue.

(** ** The invariant *)
Section invariant.
Context {A : Type}.
Implicit Types (s : EventQueue A).

Definition future_of (g : Getter A) : option nat := match g with GetCheck f | GetWait f => Some f | _ => None end.
(** Somebody is on the way to wake the future [f]. *)
Definition waking (f : nat) s : Prop :=
  f ∈ eq_callbacks s ∨ ∃ i p, eq_putters s !! i = Some p ∧ match p with PutItem _ => False | PutSnapshot => True | PutWake l => f ∈ l end.
Record queue_inv s (puts gets : list A) : Prop := {
  qi_fifo : puts = gets ++ eq_items s;
  qi_waiter j g f : eq_loop_closed s = false → eq_getters s !! j = Some g → future_of g = Some f →
    f ∈ eq_waiters s ∧ ∃ st, eq_futures s !! f = Some st ∧ st ≠ Dropped;
  qi_own j j' g g' f : eq_getters s !! j = Some g → eq_getters s !! j' = Some g' → future_of g = Some f → future_of g' = Some f → j = j';
  qi_bound j g f : eq_getters s !! j = Some g → future_of g = Some f → f < length (eq_futures s);
  qi_awake j f : eq_loop_closed s = false → eq_getters s !! j = Some (GetWait f) → eq_futures s !! f = Some Pending →
    eq_items s = [] ∨ waking f s
}.
Lemma queue_inv_init : queue_inv event_queue_init [] [].
Proof. by split. Qed.

(** A putter's step keeps every wake-up under way. *)
Lemma waking_putter f i p p' s s' :
  eq_putters s !! i = Some p → eq_putters s' = <[i := p']> (eq_putters s) → (∀ g, g ∈ eq_callbacks s → g ∈ eq_callbacks s') →
  (match p with PutItem _ => False | PutSnapshot => True | PutWake l => f ∈ l end → waking f s') → waking f s → waking f s'.
Proof.
  intros Hp Hs Hc Hi [Hf|(k & q & Hq & Hw)]; [left; by apply Hc|]. destruct (decide (k = i)) as [->|Hk].
  - assert (q = p) as -> by congruence. by apply Hi.
  - right. exists k, q. rewrite Hs, list_lookup_insert_ne by done. done.
Qed.
Lemma set_putter_at i p q s : eq_putters s !! i = Some q → eq_putters (set_putter i p s) !! i = Some p.
Proof. intros Hq. apply list_lookup_insert_eq. by eapply lookup_lt_Some. Qed.
Lemma set_getter_at j g h s : eq_getters s !! j = Some h → eq_getters (set_getter j g s) !! j = Some g.
Proof. intros Hq. apply list_lookup_insert_eq. by eapply lookup_lt_Some. Qed.
(** The getters after [j] went on *)
Lemma set_getter_lookup j g h s k g' : eq_getters s !! j = Some h → eq_getters (set_getter j g s) !! k = Some g' →
  k = j ∧ g' = g ∨ k ≠ j ∧ eq_getters s !! k = Some g'.
Proof.
  intros Hj Hk. destruct (decide (k = j)) as [->|Hne]; [left|right].
  - rewrite (set_getter_at j g h s Hj) in Hk. split; congruence.
  - split; [done|]. change (<[j := g]> (eq_getters s) !! k = Some g') in Hk. by rewrite list_lookup_insert_ne in Hk.
Qed.
(** A step of a thread inside [put] *)
Lemma put_step_inv s s' puts gets i :
  queue_inv s puts gets → put_step i s = Some s' → queue_inv s' (puts ++ appended (QPutter i) s) (gets ++ returned (QPutter i : queue_event A) s').
Proof.
  intros [F W O B K]. unfold put_step, appended, returned. rewrite app_nil_r. destruct (eq_putters s !! i) as [[x| |[|f l]]|] eqn:Ep; intros [= <-].
  - split; [cbn; by rewrite F, app_assoc|done|done|done|]. intros j f Hc Hj Hf. right. right. exists i, PutSnapshot.
    split; [eapply set_putter_at; exact Ep|done].
  - rewrite app_nil_r. split; [done|done|done|done|]. intros j f Hc Hj Hf. destruct (K j f Hc Hj Hf) as [?|Hw]; [by left|right].
    eapply waking_putter; [exact Ep|reflexivity|done| |exact Hw]. intros _. right. exists i, (PutWake (elements (eq_waiters s))).
    split; [eapply set_putter_at; exact Ep|]. apply elem_of_elements. by apply (W j _ f Hc Hj).
  - rewrite app_nil_r. destruct (eq_loop_closed s) eqn:Ec; split; try done; try (by intros; cbn in *; congruence).
    { intros j g h _. apply (W j g h eq_refl). }
    intros j g Hc Hj Hg. destruct (K j g eq_refl Hj Hg) as [?|Hw]; [by left|right].
    eapply waking_putter; [exact Ep|reflexivity| | |exact Hw].
    + intros h Hh. cbn. apply elem_of_app. by left.
    + intros [->|Hl]%elem_of_cons; [left; cbn; apply elem_of_app; right; by left|]. right. exists i, (PutWake l).
      split; [eapply set_putter_at; exact Ep|done].
Qed.
(** A coroutine gives its future up. *)
Lemma getter_leaves s s1 puts gets gets' j g0 g1 f :
  queue_inv s puts gets → eq_loop_closed s = false → eq_getters s !! j = Some g0 → future_of g0 = Some f → future_of g1 = None →
  eq_getters s1 = eq_getters s → eq_putters s1 = eq_putters s → eq_callbacks s1 = eq_callbacks s → eq_loop_closed s1 = eq_loop_closed s →
  length (eq_futures s1) = length (eq_futures s) → (∀ h, h ≠ f → eq_futures s1 !! h = eq_futures s !! h) →
  eq_waiters s1 = eq_waiters s ∖ {[f]} → (eq_items s = [] → eq_items s1 = []) → puts = gets' ++ eq_items s1 →
  queue_inv (set_getter j g1 s1) puts gets'.
Proof.
  intros [F W O B K] Hc Hj H0 H1 Eg Ep Ek Ec El Ef Ew Ei F'.
  assert (Hat : ∀ k g, eq_getters (set_getter j g1 s1) !! k = Some g → is_Some (future_of g) → k ≠ j ∧ eq_getters s !! k = Some g).
  { intros k g Hk [h Hh]. rewrite <-Eg in Hj. destruct (set_getter_lookup j g1 g0 s1 k g Hj Hk) as [[-> ->]|[Hne Hk']]; [congruence|].
    rewrite Eg in Hk'. done. }
  assert (Hother : ∀ k g h, k ≠ j → eq_getters s !! k = Some g → future_of g = Some h → h ≠ f).
  { intros k g h Hne Hk Hh ->. by apply Hne, (O k j g g0 f). }
  split.
  - exact F'.
  - intros k g h _ Hk Hh. destruct (Hat k g Hk) as [Hne Hk']; [by eexists|]. pose proof (Hother k g h Hne Hk' Hh) as Hhf.
    change (h ∈ eq_waiters s1 ∧ ∃ st, eq_futures s1 !! h = Some st ∧ st ≠ Dropped). rewrite Ew, Ef by done.
    destruct (W k g h Hc Hk' Hh). split; [set_solver|done].
  - intros k k' g g' h Hk Hk' Hh Hh'. destruct (Hat k g Hk) as [_ Hk1]; [by eexists|]. destruct (Hat k' g' Hk') as [_ Hk1']; [by eexists|].
    by apply (O k k' g g' h).
  - intros k g h Hk Hh. destruct (Hat k g Hk) as [_ Hk1]; [by eexists|]. change (h < length (eq_futures s1)). rewrite El. by apply (B k g).
  - intros k h _ Hk Hp. destruct (Hat k _ Hk) as [Hne Hk1]; [by eexists|]. change (eq_futures s1 !! h = Some Pending) in Hp.
    rewrite Ef in Hp by by eapply (Hother k). destruct (K k h Hc Hk1 Hp) as [?|Hw]; [left; by apply Ei|right].
    unfold waking in *. change (eq_callbacks (set_getter j g1 s1)) with (eq_callbacks s1). change (eq_putters (set_getter j g1 s1)) with (eq_putters s1).
    by rewrite Ek, Ep.
Qed.
(** A step of a coroutine inside [get_async] *)
Lemma get_step_inv s s' puts gets j :
  queue_inv s puts gets → eq_loop_closed s = false → get_step j s = Some s' →
  queue_inv s' (puts ++ appended (QGetter j) s) (gets ++ returned (QGetter j : queue_event A) s').
Proof.
  intros HI Hc. pose proof HI as [F W O B K]. unfold get_step, appended, returned. rewrite app_nil_r.
  destruct (eq_getters s !! j) as [[|f|f|x|]|] eqn:Ej; try done.
  - (* a new future registers *)
    intros [= <-]. rewrite (set_getter_at j _ GetStart) by exact Ej. rewrite app_nil_r. set (f := length (eq_futures s)). set (s1 := s <| eq_futures := _ |> <| eq_waiters := _ |>).
    assert (Hold : ∀ h, h < f → eq_futures s1 !! h = eq_futures s !! h) by (intros h Hh; apply lookup_app_l; exact Hh).
    split.
    + exact F.
    + intros k g h _ Hk Hg. destruct (set_getter_lookup j _ _ s1 k g Ej Hk) as [[-> ->]|[Hne Hk']].
      * injection Hg as <-. split; [cbn; set_solver|]. exists Pending. split; [|done]. cbn. by rewrite lookup_app_r, Nat.sub_diag by done.
      * destruct (W k g h Hc Hk' Hg) as [Hw Hst]. split; [cbn; set_solver|]. change (eq_futures (set_getter j (GetCheck f) s1)) with (eq_futures s1).
        rewrite Hold; [done|by apply (B k g)].
    + intros k k' g g' h Hk Hk' Hg Hg'.
      destruct (set_getter_lookup j _ _ s1 k g Ej Hk) as [[-> ->]|[Hne Hk1]], (set_getter_lookup j _ _ s1 k' g' Ej Hk') as [[-> ->]|[Hne' Hk1']]; try done.
      * injection Hg as <-. pose proof (B _ _ _ Hk1' Hg'). lia.
      * injection Hg' as <-. pose proof (B _ _ _ Hk1 Hg). lia.
      * by apply (O k k' g g' h).
    + intros k g h Hk Hg. change (eq_futures (set_getter j (GetCheck f) s1)) with (eq_futures s ++ [Pending]). rewrite length_app. cbn [length].
      destruct (set_getter_lookup j _ _ s1 k g Ej Hk) as [[-> ->]|[Hne Hk']]; [injection Hg as <-; lia|]. pose proof (B _ _ _ Hk' Hg). lia.
    + intros k h _ Hk Hh. destruct (set_getter_lookup j _ _ s1 k _ Ej Hk) as [[_ [=]]|[Hne Hk']].
      change (eq_futures s1 !! h = Some Pending) in Hh. rewrite Hold in Hh by by eapply (B k).
      destruct (K k h Hc Hk' Hh) as [?|Hw]; [by left|by right].
  - (* the queue is checked *)
    destruct (eq_items s) as [|x items] eqn:Ei; intros [= <-].
    + rewrite (set_getter_at j _ (GetCheck f)) by exact Ej. rewrite app_nil_r. split; [change (puts = gets ++ eq_items s); by rewrite Ei|..].
      * intros k g h _ Hk Hh. destruct (set_getter_lookup j _ _ s k g Ej Hk) as [[-> ->]|[Hne Hk']]; [by apply (W j (GetCheck f) h)|by apply (W k g h)].
      * intros k k' g g' h Hk Hk' Hg Hg'.
        destruct (set_getter_lookup j _ _ s k g Ej Hk) as [[-> ->]|[Hne Hk1]], (set_getter_lookup j _ _ s k' g' Ej Hk') as [[-> ->]|[Hne' Hk1']]; try done.
        -- by apply (O j k' (GetCheck f) g' h).
        -- by apply (O k j g (GetCheck f) h).
        -- by apply (O k k' g g' h).
      * intros k g h Hk Hh. destruct (set_getter_lookup j _ _ s k g Ej Hk) as [[-> ->]|[Hne Hk']]; [by apply (B j (GetCheck f) h)|by apply (B k g h)].
      * by left.
    + rewrite (set_getter_at j _ (GetCheck f)) by exact Ej. eapply (getter_leaves s (discard_waiter f (s <| eq_items := items |>)) _ _ _ j (GetCheck f)); try done; [by rewrite Ei|by rewrite F, <-app_assoc].
  - (* the future is resolved *)
    destruct (eq_futures s !! f) as [[| |]|] eqn:Ef; intros [= <-]. rewrite (set_getter_at j _ (GetWait f)) by exact Ej. rewrite app_nil_r.
    eapply (getter_leaves s (discard_waiter f s) _ _ _ j (GetWait f)); try done.
Qed.
Lemma queue_step_inv s s' puts gets e :
  queue_inv s puts gets → queue_step e s = Some s' → queue_inv s' (puts ++ appended e s) (gets ++ returned e s').
Proof.
  intros HI. destruct e as [x|i| |j|j| |]; cbn [queue_step].
  - intros [= <-]. cbn [appended returned]. rewrite !app_nil_r. destruct HI as [F W O B K]. split; [done..|].
    intros j f Hc Hj Hf. destruct (K j f Hc Hj Hf) as [?|[?|(i & p & Hp & Hw)]]; [by left|right; by left|right; right].
    exists i, p. split; [cbn; by apply lookup_app_l_Some|done].
  - apply put_step_inv, HI.
  - destruct (eq_loop_closed s) eqn:Ec; intros [= <-]. cbn [appended returned]. rewrite !app_nil_r. destruct HI as [F W O B K].
    assert (Hat : ∀ k g, (eq_getters s ++ [GetStart]) !! k = Some g → is_Some (future_of g) → eq_getters s !! k = Some g).
    { intros k g [Hk|[_ Hk]]%lookup_app_Some [h Hh]; [done|]. apply list_lookup_singleton_Some in Hk as [_ <-]. done. }
    split; [done|..].
    + intros k g h _ Hk Hh. apply (W k g h Ec); [apply Hat; [done|by eexists]|done].
    + intros k k' g g' h Hk Hk' Hh Hh'. apply (O k k' g g' h); try done; apply Hat; try done; by eexists.
    + intros k g h Hk Hh. apply (B k g h); [apply Hat; [done|by eexists]|done].
    + intros k h _ Hk Hp. apply (K k h Ec); [apply Hat; [done|by eexists]|done].
  - destruct (eq_loop_closed s) eqn:Ec; [done|]. by apply get_step_inv.
  - destruct (eq_loop_closed s) eqn:Ec; [done|]. unfold drop_getter. destruct (eq_getters s !! j) as [[|f|f|x|]|] eqn:Ej; intros [= <-].
    cbn [appended returned]. rewrite !app_nil_r.
    eapply (getter_leaves s (discard_waiter f (s <| eq_futures := alter (λ st, match st with Pending => Dropped | _ => st end) f (eq_futures s) |>)) _ _ _ j (GetWait f)); try done.
    + cbn. by rewrite length_alter.
    + intros h Hh. cbn. by apply list_lookup_alter_ne.
    + apply HI.
  - destruct (eq_loop_closed s) eqn:Ec; [done|]. destruct (eq_callbacks s) as [|f l] eqn:El; intros [= <-].
    cbn [appended returned]. rewrite !app_nil_r. destruct HI as [F W O B K].
    assert (Hat : ∀ h st, wake f (eq_futures s) !! h = Some st → st = Pending → h ≠ f ∧ eq_futures s !! h = Some Pending).
    { intros h st Hh ->. unfold wake in Hh. destruct (decide (h = f)) as [->|Hne]; [|by rewrite list_lookup_alter_ne in Hh].
      rewrite list_lookup_alter_eq in Hh. destruct (eq_futures s !! f) as [[| |]|]; done. }
    split; [done|..|done| |].
    + intros k g h _ Hk Hh. destruct (W k g h Ec Hk Hh) as [Hw (st & Hst & Hne)]. split; [done|]. cbn. unfold wake.
      destruct (decide (h = f)) as [->|Hhf]; [|rewrite list_lookup_alter_ne by done; by exists st].
      rewrite list_lookup_alter_eq, Hst. cbn. destruct st; try done; by eexists.
    + intros k g h Hk Hh. cbn. unfold wake. rewrite length_alter. by apply (B k g).
    + intros k h _ Hk Hp. destruct (Hat h _ Hp eq_refl) as [Hhf Hp']. destruct (K k h Ec Hk Hp') as [?|[Hw|Hw]]; [by left|right; left|right; by right].
      rewrite El in Hw. cbn. apply elem_of_cons in Hw as [?|?]; done.
  - intros [= <-]. cbn [appended returned]. rewrite !app_nil_r. destruct HI as [F W O B K]. by split.
Qed.
Lemma queue_reachable_inv s puts gets : queue_reachable s puts gets → queue_inv s puts gets.
Proof. induction 1 as [|s s' puts gets e _ IH Hs]; [apply queue_inv_init|by apply queue_step_inv]. Qed.

Lemma queue_run_reachable es : ∀ s s' puts gets,
  queue_reachable s puts gets → queue_run es s = Some s' → ∃ puts' gets', queue_reachable s' puts' gets'.
Proof.
  induction es as [|e es IH]; intros s s' puts gets Hr Hrun; [injection Hrun as <-; eauto|]. cbn [queue_run] in Hrun.
  destruct (queue_step e s) as [s1|] eqn:Es; [|done]. by eapply (IH s1); [eapply queue_more|].
Qed.

(** ** What the queue promises *)
(** C12: whatever the interleaving, what [get_async] has returned and what is still queued is what [put] appended, in order. *)
Theorem events_in_order s puts gets : queue_reachable s puts gets → puts = gets ++ eq_items s.
Proof. intros Hr. apply (qi_fifo _ _ _ (queue_reachable_inv s puts gets Hr)). Qed.

(** What the loop and the threads inside [put] do by themselves, and the coroutine [j]. *)
Definition internal (j : nat) (e : queue_event A) : Prop :=
  match e with QPutter _ | QCallback => True | QGetter k => k = j | _ => False end.
Definition delivers (j : nat) s : Prop :=
  ∃ es s' x, Forall (internal j) es ∧ queue_run es s = Some s' ∧ eq_getters s' !! j = Some (Got x).
Lemma delivers_step j e s s' : internal j e → queue_step e s = Some s' → delivers j s' → delivers j s.
Proof.
  intros Hi Hs (es & s'' & x & Hes & Hrun & Hx). exists (e :: es), s'', x. split; [by constructor|]. cbn [queue_run]. by rewrite Hs.
Qed.
(** A coroutine that is going on takes an item. *)
Lemma resumed_delivers j s : eq_loop_closed s = false → eq_getters s !! j = Some GetStart → eq_items s ≠ [] → delivers j s.
Proof.
  intros Hc Hj Hi. destruct (eq_items s) as [|x items] eqn:Ei; [done|].
  eapply (delivers_step j (QGetter j)); [done| |].
  { cbn. rewrite Hc. unfold get_step. by rewrite Hj. }
  set (s1 := set_getter _ _ _). assert (Hj1 : eq_getters s1 !! j = Some (GetCheck (length (eq_futures s)))) by by eapply set_getter_at.
  assert (H1 : eq_loop_closed s1 = false ∧ eq_items s1 = x :: items) by by split. clearbody s1. destruct H1 as [Hc1 Hi1].
  eexists [QGetter j], _, x. split; [by repeat constructor|]. cbn [queue_run queue_step]. rewrite Hc1. unfold get_step. rewrite Hj1, Hi1. cbn.
  split; [reflexivity|]. by eapply set_getter_at.
Qed.
Lemma resolved_delivers j f s :
  eq_loop_closed s = false → eq_getters s !! j = Some (GetWait f) → eq_futures s !! f = Some Resolved → eq_items s ≠ [] → delivers j s.
Proof.
  intros Hc Hj Hf Hi. eapply (delivers_step j (QGetter j)); [done| |].
  { cbn. rewrite Hc. unfold get_step. by rewrite Hj, Hf. }
  apply resumed_delivers; [done|by eapply set_getter_at|done].
Qed.
(** Its wake-up is among the callbacks of the loop. *)
Lemma callback_delivers j f l : ∀ s st,
  eq_loop_closed s = false → eq_getters s !! j = Some (GetWait f) → eq_futures s !! f = Some st → st ≠ Dropped → eq_items s ≠ [] →
  eq_callbacks s = l → f ∈ l → delivers j s.
Proof.
  induction l as [|g l IH]; intros s st Hc Hj Hf Hst Hi El Hin; [by apply not_elem_of_nil in Hin|].
  eapply (delivers_step j QCallback); [done|cbn; by rewrite Hc, El|]. set (s1 := setter _ _ _).
  assert (H1 : eq_loop_closed s1 = false ∧ eq_getters s1 !! j = Some (GetWait f) ∧ eq_items s1 ≠ [] ∧ eq_callbacks s1 = l ∧
    eq_futures s1 = wake g (eq_futures s)) by by split_and!.
  clearbody s1. destruct H1 as (Hc1 & Hj1 & Hi1 & El1 & Ef1). unfold wake in Ef1. destruct (decide (g = f)) as [->|Hg].
  - apply (resolved_delivers j f); try done. rewrite Ef1, list_lookup_alter_eq, Hf. by destruct st.
  - apply elem_of_cons in Hin as [?|Hin]; [done|]. apply (IH s1 st); try done. by rewrite Ef1, list_lookup_alter_ne.
Qed.
(** A thread inside [put] is about to hand it over. *)
Lemma putter_delivers j f i l : ∀ s st,
  eq_loop_closed s = false → eq_getters s !! j = Some (GetWait f) → eq_futures s !! f = Some st → st ≠ Dropped → eq_items s ≠ [] →
  eq_putters s !! i = Some (PutWake l) → f ∈ l → delivers j s.
Proof.
  induction l as [|g l IH]; intros s st Hc Hj Hf Hst Hi Hp Hin; [by apply not_elem_of_nil in Hin|].
  eapply (delivers_step j (QPutter i)); [done|cbn; unfold put_step; rewrite Hp, Hc; reflexivity|]. set (s1 := set_putter _ _ _).
  assert (H1 : eq_loop_closed s1 = false ∧ eq_getters s1 !! j = Some (GetWait f) ∧ eq_items s1 ≠ [] ∧ eq_callbacks s1 = eq_callbacks s ++ [g] ∧
    eq_futures s1 = eq_futures s ∧ eq_putters s1 !! i = Some (PutWake l)) by (split_and!; try done; by eapply set_putter_at).
  clearbody s1. destruct H1 as (Hc1 & Hj1 & Hi1 & El1 & Ef1 & Hp1). rewrite <-Ef1 in Hf. apply elem_of_cons in Hin as [->|Hin].
  - apply (callback_delivers j g (eq_callbacks s1) s1 st); try done. rewrite El1. apply elem_of_app. right. by left.
  - by apply (IH s1 st).
Qed.

(** C13: no wake-up is lost: whenever a coroutine waits and the queue is not empty, what the loop and the threads
    already inside [put] still have to do is enough for it to receive an item. *)
Theorem no_lost_wakeup s puts gets j f :
  queue_reachable s puts gets → eq_loop_closed s = false → eq_getters s !! j = Some (GetWait f) → eq_items s ≠ [] → delivers j s.
Proof.
  intros Hr Hc Hj Hi. apply queue_reachable_inv in Hr as [_ W _ _ K]. destruct (W j _ f Hc Hj eq_refl) as [Hw (st & Hf & Hst)].
  destruct st; [|by apply (resolved_delivers j f)|done].
  destruct (K j f Hc Hj Hf) as [?|[Hk|(i & p & Hp & Hin)]]; [done|by apply (callback_delivers j f (eq_callbacks s) s Pending)|].
  destruct p as [x| |l]; [done| |by apply (putter_delivers j f i l s Pending)].
  eapply (delivers_step j (QPutter i)); [done|cbn; unfold put_step; rewrite Hp; reflexivity|].
  apply (putter_delivers j f i (elements (eq_waiters s)) _ Pending); try done; [by eapply set_putter_at|by apply elem_of_elements].
Qed.
End invariant.

(** A coroutine waits, and an item arrives. *)
Definition late_item : list (queue_event Z) := [QGet; QGetter 0; QGetter 0; QPut 7%Z; QPutter 0].
Lemma events_in_order_witness :
  ∃ s puts gets, queue_run late_item event_queue_init = Some s ∧ queue_reachable s puts gets ∧ puts = gets ++ [7%Z].
Proof.
  eexists. destruct (queue_run_reachable late_item event_queue_init _ [] [] queue_start eq_refl) as (puts & gets & Hr).
  exists puts, gets. split; [reflexivity|]. split; [exact Hr|]. exact (events_in_order _ _ _ Hr).
Defined.
Lemma no_lost_wakeup_witness : ∃ s, queue_run late_item event_queue_init = Some s ∧ delivers 0 s.
Proof.
  eexists. split; [reflexivity|].
  destruct (queue_run_reachable late_item event_queue_init _ [] [] queue_start eq_refl) as (puts & gets & Hr).
  apply (no_lost_wakeup _ puts gets 0 0 Hr); [reflexivity|reflexivity|by intros [=]].
Defined.
