(* ===== verification/EngineWorker.v ===== *)
(** * The engine worker

    Models [InferenceWorker] of [nanovllm/serve/engine_worker.py]: one thread that owns the engine, takes
    requests from a queue, steps the engine, and delivers to each request's handle text deltas and one last event. The HTTP
    threads submit, cancel and stop at any time: [outside n] is what they do before the worker's [n]th look at what
    they share with it. A handle is a position in the list of handles, and its queue (modelled in
    [EventQueue.v]) is the list of the events put so far. *)
From S2P Require Import Prelude Json Qos Sequence StorageBackend Scheduler.
Set Default Goal Selector "!".

Record ChatMessage := mkChatMessage { role : string; content : string }.
(** What [apply_chat_template] returns: ids, or a batch of one. *)
Inductive TemplateOutput := Flat (l : list Z) | Nested (l : list (list Z)).
Definition template_ids (o : TemplateOutput) : list Z := match o with Flat l => l | Nested l => default [] (head l) end.

(** The engine as the worker sees it; [Met] and [SM] are the metrics of a request and of the scheduler. *)
Class ServingEngine (E Met SM : Type) := {
  se_chat_template : list ChatMessage → E → result TemplateOutput;
  se_decode : list Z → result string;
  se_max_model_len : E → option Z;
  se_eos : E → option Z;
  se_add_request : list Z → SamplingParams → RequestQoS → M E nat;
  se_cancel_request : nat → M E bool;
  se_step : M E (list (nat * list Z) * Z);
  se_take_events : M E (list (nat * Z));
  se_request_metrics : nat → E → option Met;
  se_scheduler_metrics : M E SM;
  se_exit : M E ()
}.

Inductive GenerationEvent (Met : Type) :=
| TextDelta (text : string)
| GenerationFinished (text : string) (token_ids : list Z) (prompt_tokens : nat) (finish_reason : string) (metrics : option Met)
| GenerationFailed (message : string)
| GenerationCancelled.
Arguments TextDelta {Met}.
Arguments GenerationFinished {Met}.
Arguments GenerationFailed {Met}.
Arguments GenerationCancelled {Met}.

Record GenerationHandle (Met : Type) := mkHandle { h_stream : bool; h_cancelled : bool; h_events : list (GenerationEvent Met) }.
Arguments mkHandle {Met}.
Arguments h_stream {Met}.
Arguments h_cancelled {Met}.
Arguments h_events {Met}.
#[export] Instance GenerationHandle_eta {Met} : RecordEta (GenerationHandle Met) := λ r, {|
  h_stream := h_stream r; h_cancelled := h_cancelled r; h_events := h_events r |}.
#[export] Instance set_h_cancelled {Met} : Setter (@h_cancelled Met) := ltac:(derive_setter).
#[export] Instance set_h_events {Met} : Setter (@h_events Met) := ltac:(derive_setter).

Record QueuedRequest := mkQueued { qr_handle : nat; qr_messages : list ChatMessage; qr_sampling_params : SamplingParams; qr_qos : RequestQoS }.
Record ActiveRequest := mkActive {
  ar_queued : QueuedRequest;
  ar_seq_id : nat;
  ar_prompt_tokens : nat;
  ar_token_ids : list Z;
  ar_emitted_text : string
}.
#[export] Instance ActiveRequest_eta : RecordEta ActiveRequest := λ r, {|
  ar_queued := ar_queued r; ar_seq_id := ar_seq_id r; ar_prompt_tokens := ar_prompt_tokens r; ar_token_ids := ar_token_ids r;
  ar_emitted_text := ar_emitted_text r |}.
#[export] Instance set_ar_token_ids : Setter ar_token_ids := ltac:(derive_setter).
#[export] Instance set_ar_emitted_text : Setter ar_emitted_text := ltac:(derive_setter).
Definition ar_handle (a : ActiveRequest) : nat := qr_handle (ar_queued a).

Inductive Incoming := Request (q : QueuedRequest) | Stop.
(** What the HTTP threads do. *)
Inductive ClientAction :=
| Submit (messages : list ChatMessage) (sampling_params : SamplingParams) (qos : RequestQoS) (stream : bool)
| CancelHandle (h : nat)
| StopWorker.

(** [w_active] is the dictionary [active], in insertion order; [w_metrics] is [_metrics] with the active count. *)
Record InferenceWorker (E Met SM : Type) := mkWorker {
  w_engine : E;
  w_incoming : list Incoming;
  w_handles : list (GenerationHandle Met);
  w_active : list (nat * ActiveRequest);
  w_metrics : option SM * nat;
  w_looks : nat
}.
Arguments mkWorker {E Met SM}.
Arguments w_engine {E Met SM}.
Arguments w_incoming {E Met SM}.
Arguments w_handles {E Met SM}.
Arguments w_active {E Met SM}.
Arguments w_metrics {E Met SM}.
Arguments w_looks {E Met SM}.
#[export] Instance InferenceWorker_eta {E Met SM} : RecordEta (InferenceWorker E Met SM) := λ r, {|
  w_engine := w_engine r; w_incoming := w_incoming r; w_handles := w_handles r; w_active := w_active r;
  w_metrics := w_metrics r; w_looks := w_looks r |}.
#[export] Instance set_w_engine {E Met SM} : Setter (@w_engine E Met SM) := ltac:(derive_setter).
#[export] Instance set_w_incoming {E Met SM} : Setter (@w_incoming E Met SM) := ltac:(derive_setter).
#[export] Instance set_w_handles {E Met SM} : Setter (@w_handles E Met SM) := ltac:(derive_setter).
#[export] Instance set_w_active {E Met SM} : Setter (@w_active E Met SM) := ltac:(derive_setter).
#[export] Instance set_w_metrics {E Met SM} : Setter (@w_metrics E Met SM) := ltac:(derive_setter).
#[export] Instance set_w_looks {E Met SM} : Setter (@w_looks E Met SM) := ltac:(derive_setter).

(** [decoded.split("\ufffd", 1)[0]]: the text before the first replacement character *)
Fixpoint before_replacement (s : string) : string :=
  match s with
  | EmptyString => EmptyString
  | String a t => if String.prefix (string_of [239; 191; 189]%Z) s then EmptyString else String a (before_replacement t)
  end.
(** [s[len(p):]] *)
Definition string_drop (n : nat) (s : string) : string := String.substring n (String.length s - n) s.
(** [active[k] = v] *)
Fixpoint dict_put {A} (k : nat) (v : A) (l : list (nat * A)) : list (nat * A) :=
  match l with
  | [] => [(k, v)]
  | (k', v') :: l => if k' =? k then (k, v) :: l else (k', v') :: dict_put k v l
  end.

Section worker.
Context {E Met SM : Type} `{ServingEngine E Met SM}.
Abbreviation Worker := (InferenceWorker E Met SM).
Abbreviation MW := (M Worker).
Context (outside : nat → list ClientAction).

(** ** The HTTP threads *)
Definition client_step (w : Worker) (a : ClientAction) : Worker :=
  match a with
  | Submit messages sampling_params qos stream =>
      w <| w_handles := w_handles w ++ [mkHandle stream false []] |>
        <| w_incoming := w_incoming w ++ [Request (mkQueued (length (w_handles w)) messages sampling_params qos)] |>
  | CancelHandle h => w <| w_handles := alter (λ hd, hd <| h_cancelled := true |>) h (w_handles w) |>
  | StopWorker => w <| w_incoming := w_incoming w ++ [Stop] |>
  end.
(** The worker looks at the queue or at a cancellation flag. *)
Definition look : MW () :=
  modifyS (λ w : Worker, foldl client_step (w <| w_looks := S (w_looks w) |>) (outside (w_looks w))).

(** ** Helpers of the worker *)
Definition on_engine {A} (m : M E A) : MW A := λ w,
  match m (w_engine w) with (r, e) => (r, w <| w_engine := e |>) end.
Definition put_event (h : nat) (ev : GenerationEvent Met) : MW () :=
  modifyS (λ w : Worker, w <| w_handles := alter (λ hd, hd <| h_events := h_events hd ++ [ev] |>) h (w_handles w) |>).
Definition is_cancelled (h : nat) : MW bool :=
  look;; getsS (λ w : Worker, match w_handles w !! h with Some hd => h_cancelled hd | None => false end).
Definition streams (h : nat) : MW bool :=
  getsS (λ w : Worker, match w_handles w !! h with Some hd => h_stream hd | None => false end).
(** [active.pop(seq_id)] *)
Definition drop_active (i : nat) : MW () := modifyS (λ w : Worker, w <| w_active := assoc_del i (w_active w) |>).
Definition set_active (i : nat) (a : ActiveRequest) : MW () := modifyS (λ w : Worker, w <| w_active := dict_put i a (w_active w) |>).
(** [_set_metrics] *)
Definition set_metrics (active_count : Worker → nat) : MW () :=
  sm ← on_engine se_scheduler_metrics;
  modifyS (λ w : Worker, w <| w_metrics := (Some sm, active_count w) |>).
Definition failed (exc : exn) : GenerationEvent Met := GenerationFailed (exn_str exc).

(** ** Admission *)
Definition normalize_messages (messages : list ChatMessage) : list ChatMessage :=
  (λ m, mkChatMessage (if String.eqb (role m) "developer" then "system" else role m) (content m)) <$> messages.
Definition prompt_token_ids (messages : list ChatMessage) (e : E) : result (list Z) :=
  o ← se_chat_template (normalize_messages messages) e;
  throw_if (bool_decide (template_ids o = [])) (ValueError "chat template produced an empty prompt");;
  mret (template_ids o).
Definition context_error (prompt_len max_tokens : nat) (max_model_len : Z) : string :=
  "context length exceeded: prompt has " +:+ str_int (Z.of_nat prompt_len) +:+ " tokens and max_tokens requests "
  +:+ str_int (Z.of_nat max_tokens) +:+ ", but max_model_len is " +:+ str_int max_model_len +:+ "; at most "
  +:+ str_int (Z.max 0 (max_model_len - Z.of_nat prompt_len)) +:+ " completion tokens are available".
(** The body of the [try] of [_admit] *)
Definition admit_request (q : QueuedRequest) : MW () :=
  w ← getS;
  prompt_ids ← lift (prompt_token_ids (qr_messages q) (w_engine w));
  let requested_tokens := sp_max_tokens (qr_sampling_params q) in
  raise_if (match se_max_model_len (w_engine w) with
            | Some max_model_len => (max_model_len <? Z.of_nat (length prompt_ids + requested_tokens))%Z
            | None => false
            end)
    (ValueError (context_error (length prompt_ids) requested_tokens (default 0%Z (se_max_model_len (w_engine w)))));;
  seq_id ← on_engine (se_add_request prompt_ids (qr_sampling_params q) (qr_qos q));
  set_active seq_id (mkActive q seq_id (length prompt_ids) [] "").
(** [_admit] *)
Definition admit_queued (q : QueuedRequest) : MW () :=
  cancelled ← is_cancelled (qr_handle q);
  if cancelled : bool then put_event (qr_handle q) GenerationCancelled
  else try_except (admit_request q) (λ exc, put_event (qr_handle q) (failed exc)).

(** [self._incoming.get]: the next item, if any. A blocking call waits for its time-out first. *)
Definition get_incoming : MW (option Incoming) :=
  look;;
  w ← getS;
  match w_incoming w with
  | [] => mret None
  | item :: incoming => putS (w <| w_incoming := incoming |>);; mret (Some item)
  end.
(** [_drain_incoming]; [fuel] bounds the items it takes. *)
Fixpoint drain_incoming (fuel : nat) : MW bool :=
  match fuel with
  | 0 => raise OutOfFuel
  | S fuel =>
      item ← get_incoming;
      match item with
      | None => mret false
      | Some Stop => mret true
      | Some (Request q) => admit_queued q;; drain_incoming fuel
      end
  end.

(** ** Delivery *)
(** [_decode_stable_delta] for the request [i]; [""] when there is nothing new. *)
Definition decode_stable_delta (i : nat) (state : ActiveRequest) : MW string :=
  decoded ← lift (se_decode (ar_token_ids state));
  let stable := before_replacement decoded in
  if negb (String.prefix (ar_emitted_text state) stable) then mret ""
  else
    set_active i (state <| ar_emitted_text := stable |>);;
    mret (string_drop (String.length (ar_emitted_text state)) stable).
(** One of [take_step_token_events] *)
Definition deliver_token (ev : nat * Z) : MW () :=
  w ← getS;
  match assoc ev.1 (w_active w) with
  | None => mret tt
  | Some state =>
      let state := state <| ar_token_ids := ar_token_ids state ++ [ev.2] |> in
      set_active ev.1 state;;
      stream ← streams (ar_handle state);
      if negb stream then mret tt
      else
        delta ← decode_stable_delta ev.1 state;
        if String.eqb delta "" then mret tt else put_event (ar_handle state) (TextDelta delta)
  end.
Definition finish_reason (eos : option Z) (max_tokens : nat) (token_ids : list Z) : string :=
  let stopped_by_eos := match last token_ids, eos with Some t, Some e => (t =? e)%Z | _, _ => false end in
  if stopped_by_eos then "stop" else if max_tokens <=? length token_ids then "length" else "stop".
(** [_finish], of a request that is no longer active *)
Definition finish (state : ActiveRequest) (token_ids : list Z) : MW () :=
  text ← lift (se_decode token_ids);
  stream ← streams (ar_handle state);
  (if stream && String.prefix (ar_emitted_text state) text then
     let tail := string_drop (String.length (ar_emitted_text state)) text in
     if String.eqb tail "" then mret tt else put_event (ar_handle state) (TextDelta tail)
   else mret tt);;
  w ← getS;
  put_event (ar_handle state)
    (GenerationFinished text token_ids (ar_prompt_tokens state)
       (finish_reason (se_eos (w_engine w)) (sp_max_tokens (qr_sampling_params (ar_queued state))) token_ids)
       (se_request_metrics (ar_seq_id state) (w_engine w))).
(** One of the outputs of a step *)
Definition deliver_output (out : nat * list Z) : MW () :=
  w ← getS;
  match assoc out.1 (w_active w) with
  | None => mret tt
  | Some state => drop_active out.1;; finish state out.2
  end.

(** ** Cancellation and failure *)
Definition cancel_requests : MW () :=
  w ← getS;
  forM (w_active w) (λ '(seq_id, state),
    cancelled ← is_cancelled (ar_handle state);
    if negb cancelled then mret tt
    else
      on_engine (se_cancel_request seq_id);;
      put_event (ar_handle state) GenerationCancelled;;
      drop_active seq_id).
(** [try: engine.cancel_request(seq_id) except: log] *)
Definition cancel_quietly (seq_id : nat) : MW () :=
  try_except (on_engine (se_cancel_request seq_id);; mret tt) (λ _, mret tt).
Definition fail_active (exc : exn) : MW () :=
  w ← getS;
  forM (w_active w) (λ '(seq_id, state), cancel_quietly seq_id;; put_event (ar_handle state) (failed exc));;
  modifyS (λ w : Worker, w <| w_active := [] |>).

(** ** The thread *)
(** The body of the [try] around a step *)
Definition serve_step : MW () :=
  '(outputs, _) ← on_engine se_step;
  events ← on_engine se_take_events;
  forM events deliver_token;;
  forM outputs deliver_output;;
  set_metrics (λ w, length (w_active w)).
(** The loop of [_run]: at most [rounds] rounds, each of which takes at most [reads] items. *)
Fixpoint worker_loop (rounds reads : nat) : MW () :=
  match rounds with
  | 0 => raise OutOfFuel
  | S rounds =>
      stopping ← drain_incoming reads;
      cancel_requests;;
      if stopping : bool then mret tt
      else
        w ← getS;
        (if bool_decide (w_active w = []) then set_metrics (λ _, 0)
         else try_except serve_step (λ exc, fail_active exc;; set_metrics (λ _, 0)));;
        worker_loop rounds reads
  end.
(** The [finally] of [_run]; the dictionary dies with the thread. *)
Definition shut_down : MW () :=
  w ← getS;
  forM (w_active w) (λ '(seq_id, state), cancel_quietly seq_id;; put_event (ar_handle state) GenerationCancelled);;
  modifyS (λ w : Worker, w <| w_active := [] |>);;
  on_engine se_exit.
(** [_run], once the engine is built *)
Definition worker_run (rounds reads : nat) : MW () :=
  set_metrics (λ _, 0);;
  try_finally (worker_loop rounds reads) shut_down.
(** [start]: the thread builds the engine. *)
Definition worker_start (engine_factory : result E) : result Worker :=
  match engine_factory with
  | inl _ => throw (RuntimeError "nano-vLLM engine failed to start")
  | inr e => mret (mkWorker e [] [] [] (None, 0) 0)
  end.
(** [metrics]: the scheduler's, and the active and queued counts *)
Definition worker_metrics (w : Worker) : option SM * nat * nat := (w_metrics w, length (w_incoming w)).
End worker.
