(* ===== verification/EngineWorkerSpec.v ===== *)
(** * The engine worker: every request is answered

    Whatever the HTTP threads and the engine do, each handle gets text deltas and then exactly one last event, as
    long as the worker took its request from the queue. *)
From S2P Require Import Prelude Json Qos Sequence StorageBackend Scheduler EngineWorker.
Set Default Goal Selector "!".
Set Default Proof Using "Type".

(** ** Strings and dictionaries *)
Definition sconcat (l : list string) : string := foldr String.append "" l.
Lemma string_app_nil s : s +:+ "" = s.
Proof. induction s as [|a s IH]; [done|]. change (String a (s +:+ "") = String a s). by rewrite IH. Qed.
Lemma sconcat_snoc l s : sconcat (l ++ [s]) = sconcat l +:+ s.
Proof.
  induction l as [|x l IH].
  - apply string_app_nil.
  - change (x +:+ sconcat (l ++ [s]) = (x +:+ sconcat l) +:+ s). rewrite IH. induction x as [|a x IHx]; [done|].
    change (String a (x +:+ (sconcat l +:+ s)) = String a ((x +:+ sconcat l) +:+ s)). by rewrite IHx.
Qed.
Lemma string_drop_prefix p s : String.prefix p s = true → p +:+ string_drop (String.length p) s = s.
Proof.
  unfold string_drop. revert s. induction p as [|a p IH]; intros s Hp; cbn in *.
  - clear Hp. rewrite Nat.sub_0_r. change (String.substring 0 (String.length s) s = s). induction s as [|b s IHs]; [done|].
    cbn. by rewrite IHs.
  - destruct s as [|b s]; [done|]. cbn in Hp. destruct (Ascii.ascii_dec a b) as [->|]; [|done].
    change (String b (p +:+ String.substring (String.length p) (String.length s - String.length p) s) = String b s). by rewrite IH.
Qed.
Lemma assoc_Some {A} i (l : list (nat * A)) a : assoc i l = Some a → (i, a) ∈ l.
Proof.
  unfold assoc. destruct (list_find _ l) as [[k [j b]]|] eqn:Ef; cbn; [|done]. intros [= <-].
  apply list_find_Some in Ef as (Hk & <- & _). by eapply list_elem_of_lookup_2.
Qed.
Lemma dict_put_new {A} i (a : A) l : i ∉ l.*1 → dict_put i a l = l ++ [(i, a)].
Proof.
  induction l as [|[j b] l IH]; cbn; [done|]. intros Hi. apply not_elem_of_cons in Hi as [Hij Hi].
  rewrite (proj2 (Nat.eqb_neq j i)) by done. by rewrite IH.
Qed.
Lemma dict_put_keys {A} i (a : A) l : i ∈ l.*1 → (dict_put i a l).*1 = l.*1.
Proof.
  induction l as [|[j b] l IH]; cbn; [by intros ?%not_elem_of_nil|]. intros Hi. destruct (Nat.eqb_spec j i) as [->|Hji]; [done|].
  cbn. f_equal. apply elem_of_cons in Hi as [?|?]; [done|by apply IH].
Qed.
Lemma dict_put_at {A B} i (a b : A) l (f : A → B) : (i, b) ∈ l → NoDup l.*1 → f a = f b → f ∘ snd <$> dict_put i a l = f ∘ snd <$> l.
Proof.
  induction l as [|[j c] l IH]; cbn; [by intros ?%not_elem_of_nil|]. intros Hi Hnd Hf. apply NoDup_cons in Hnd as [Hj Hnd].
  destruct (Nat.eqb_spec j i) as [->|Hji].
  - apply elem_of_cons in Hi as [[= <-]|Hi]; [cbn; by rewrite Hf|]. by destruct Hj; apply (list_elem_of_fmap_2 fst _ _ Hi).
  - cbn. f_equal. apply elem_of_cons in Hi as [[= <- <-]|Hi]; [done|by apply IH].
Qed.
Lemma elem_dict_put {A} i (a : A) l k x : NoDup l.*1 → i ∈ l.*1 → (k, x) ∈ dict_put i a l → k = i ∧ x = a ∨ k ≠ i ∧ (k, x) ∈ l.
Proof.
  induction l as [|[j c] l IH]; cbn; [by intros _ ?%not_elem_of_nil|]. intros Hnd Hi Hk. apply NoDup_cons in Hnd as [Hj Hnd].
  destruct (Nat.eqb_spec j i) as [->|Hji].
  - apply elem_of_cons in Hk as [[= -> ->]|Hk]; [by left|right]. split; [|by right]. intros ->. apply Hj. by apply (list_elem_of_fmap_2 fst _ _ Hk).
  - apply elem_of_cons in Hk as [[= -> ->]|Hk]; [right; split; [done|by left]|].
    apply elem_of_cons in Hi as [?|Hi]; [done|]. destruct (IH Hnd Hi Hk) as [?|[? ?]]; [by left|right; split; [done|by right]].
Qed.
Lemma assoc_del_absent {A} i (l : list (nat * A)) : i ∉ l.*1 → assoc_del i l = l.
Proof.
  unfold assoc_del. induction l as [|[j c] l IH]; [done|]. rewrite fmap_cons, filter_cons. cbn [fst]. intros [Hj Hi]%not_elem_of_cons.
  rewrite decide_True by done. by rewrite IH.
Qed.
Lemma del_perm {A} i (a : A) l : NoDup l.*1 → (i, a) ∈ l → l ≡ₚ (i, a) :: assoc_del i l.
Proof.
  unfold assoc_del. induction l as [|[j c] l IH]; [by intros _ ?%not_elem_of_nil|]. rewrite fmap_cons, filter_cons. cbn [fst].
  intros [Hj Hnd]%NoDup_cons Hi. apply elem_of_cons in Hi as [[= <- <-]|Hi].
  - rewrite decide_False by tauto. apply perm_skip. pose proof (assoc_del_absent i l) as Hd. unfold assoc_del in Hd. by rewrite Hd.
  - assert (j ≠ i) by (intros ->; apply Hj; by apply (list_elem_of_fmap_2 fst _ _ Hi)). rewrite decide_True by done.
    rewrite (IH Hnd Hi) at 1. by apply perm_swap.
Qed.

Lemma dict_put_in {A} i (a : A) l : i ∈ l.*1 → (i, a) ∈ dict_put i a l.
Proof.
  induction l as [|[j b] l IH]; cbn; [by intros ?%not_elem_of_nil|]. intros Hi. destruct (Nat.eqb_spec j i) as [->|Hji]; [by left|right].
  apply elem_of_cons in Hi as [?|?]; [done|by apply IH].
Qed.
(** Apply the specification of a call. *)
Tactic Notation "wp_use" tactic3(t) := eapply wp_mono; [t| |]; cbn beta.

(** ** What the worker relies on *)
(** [m] keeps the engine sound, and gives out ids in increasing order. *)
Definition advances {E A} (ok : E → Prop) (next : E → nat) (m : M E A) : Prop := ∀ e, ok e → ok (m e).2 ∧ next e <= next (m e).2.
(** An engine never gives out an id twice ([next_id] is above all it has given), and samples tokens of its vocabulary ([token_ok]). *)
Class LawfulServing (E Met SM : Type) `{ServingEngine E Met SM} := {
  sound : E → Prop;
  next_id : E → nat;
  token_ok : Z → Prop;
  add_request_advances l sp q : advances sound next_id (se_add_request l sp q);
  cancel_advances i : advances sound next_id (se_cancel_request i);
  step_advances : advances sound next_id se_step;
  events_advances : advances sound next_id se_take_events;
  metrics_advances : advances sound next_id se_scheduler_metrics;
  exit_advances : advances sound next_id se_exit;
  add_request_id l sp q e i e' : sound e → se_add_request l sp q e = (inr i, e') → next_id e <= i < next_id e';
  step_tokens e outputs n e' : sound e → se_step e = (inr (outputs, n), e') → Forall (λ out, Forall token_ok out.2) outputs;
  events_tokens e events e' : sound e → se_take_events e = (inr events, e') → Forall (λ ev, token_ok ev.2) events
}.
(** An engine that can decode what it samples *)
Class DecodingServing (E Met SM : Type) `{LawfulServing E Met SM} := decode_ok l : Forall token_ok l → ∃ text, se_decode l = inr text.

Section spec.
Context {E Met SM : Type} `{HS : ServingEngine E Met SM} `{HL : !LawfulServing E Met SM}.
Abbreviation Worker := (InferenceWorker E Met SM).
Abbreviation MW := (M Worker).
Abbreviation Handle := (GenerationHandle Met).
Implicit Types (w : Worker) (hd : Handle) (a : ActiveRequest) (held : list nat).

(** ** What a handle has received *)
Definition terminal (ev : GenerationEvent Met) : Prop := match ev with TextDelta _ => False | _ => True end.
(** The last event of a stream closes the text its deltas add up to, unless the final text contradicts them. *)
Definition closes (stream : bool) (sent : string) (ev : GenerationEvent Met) : Prop :=
  match ev with
  | GenerationFinished text _ _ _ _ => stream = true → sent = text ∨ String.prefix sent text = false
  | _ => True
  end.
Definition settled (stream : bool) (evs : list (GenerationEvent Met)) : Prop :=
  ∃ ds t, evs = (TextDelta <$> ds) ++ [t] ∧ terminal t ∧ (stream = false → ds = []) ∧ closes stream (sconcat ds) t.
(** A stream that nobody closes: the last decoding of its tokens has failed. *)
Definition stranded (stream : bool) (evs : list (GenerationEvent Met)) : Prop :=
  (∃ ids exc, Forall token_ok ids ∧ se_decode ids = inl exc) ∧ ∃ ds, evs = TextDelta <$> ds ∧ (stream = false → ds = []).
Definition answered (stream : bool) (evs : list (GenerationEvent Met)) : Prop := settled stream evs ∨ stranded stream evs.
Lemma decoding_settled `{!DecodingServing E Met SM} stream evs : answered stream evs → settled stream evs.
Proof. intros [Hs|[(ids & exc & Hok & Hd) _]]; [done|]. destruct (decode_ok ids Hok) as [text Htext]. congruence. Qed.
(** The deltas sent so far are the text emitted. *)
Definition in_progress a (stream : bool) (evs : list (GenerationEvent Met)) : Prop :=
  ∃ ds, evs = TextDelta <$> ds ∧ if stream then sconcat ds = ar_emitted_text a else ds = [].

(** ** The invariant *)
Definition queued_handles w : list nat := omap (λ it, match it with Request q => Some (qr_handle q) | Stop => None end) (w_incoming w).
Definition active_handles w : list nat := (ar_handle ∘ snd) <$> w_active w.
Definition known_handles held w : list nat := held ++ queued_handles w ++ active_handles w.
(** The handles in [held] are those the worker has in hand. *)
Record worker_inv held w : Prop := {
  wi_nodup : NoDup (known_handles held w);
  wi_bound h : h ∈ known_handles held w → h < length (w_handles w);
  wi_keys : NoDup (w_active w).*1;
  wi_sound : sound (w_engine w);
  wi_fresh i : i ∈ (w_active w).*1 → i < next_id (w_engine w);
  wi_queued h hd : h ∈ queued_handles w → w_handles w !! h = Some hd → h_events hd = [];
  wi_active i a hd : (i, a) ∈ w_active w → w_handles w !! ar_handle a = Some hd → in_progress a (h_stream hd) (h_events hd);
  wi_tokens i a : (i, a) ∈ w_active w → Forall token_ok (ar_token_ids a);
  wi_answered h hd : h ∉ known_handles held w → w_handles w !! h = Some hd → answered (h_stream hd) (h_events hd)
}.
(** What a look changes: the HTTP threads add requests, and set flags. *)
Definition look_only w w' : Prop :=
  w_active w' = w_active w ∧ w_engine w' = w_engine w ∧ w_metrics w' = w_metrics w ∧ (∃ more, w_incoming w' = w_incoming w ++ more) ∧
  ∀ h hd, w_handles w !! h = Some hd → ∃ hd', w_handles w' !! h = Some hd' ∧ h_events hd' = h_events hd ∧ h_stream hd' = h_stream hd.
#[export] Instance look_only_preorder : PreOrder look_only.
Proof.
  split.
  - intros w. split_and!; [done..|exists []; by rewrite app_nil_r|eauto].
  - intros w1 w2 w3 (A1 & A2 & A3 & [m1 A4] & A5) (B1 & B2 & B3 & [m2 B4] & B5). split_and!; try congruence.
    + exists (m1 ++ m2). by rewrite B4, A4, app_assoc.
    + intros h hd Hh. destruct (A5 h hd Hh) as (hd' & Hh' & Ev & Es). destruct (B5 h hd' Hh') as (hd'' & Hh'' & Ev' & Es').
      exists hd''. split; [done|]. split; congruence.
Qed.
Lemma client_inv held w c : worker_inv held w → worker_inv held (client_step w c) ∧ look_only w (client_step w c).
Proof.
  intros [I1 I2 I3 I0 I4 I5 I6 I8 I7]. destruct c as [msgs sp q st|h|]; cbn [client_step].
  - set (h := length (w_handles w)). set (w' := setter w_incoming _ _).
    assert (Eq : queued_handles w' = queued_handles w ++ [h]) by (unfold queued_handles; cbn; by rewrite omap_app).
    assert (Hk : ∀ x, x ∈ known_handles held w' ↔ x ∈ known_handles held w ∨ x = h).
    { intros x. unfold known_handles. rewrite Eq. change (active_handles w') with (active_handles w).
      rewrite !elem_of_app, list_elem_of_singleton. tauto. }
    assert (Hold : ∀ x hd, w_handles w' !! x = Some hd → w_handles w !! x = Some hd ∨ x = h ∧ h_events hd = []).
    { intros x hd [Hx|[Hx Hl]]%lookup_app_Some; [by left|right]. apply list_lookup_singleton_Some in Hl as [Hx' <-]. split; [unfold h; lia|done]. }
    split; [split|].
    + assert (Hp : known_handles held w' ≡ₚ h :: known_handles held w).
      { unfold known_handles. rewrite Eq. change (active_handles w') with (active_handles w). solve_Permutation. }
      rewrite Hp. constructor; [|done]. intros Hh%I2. unfold h in Hh. lia.
    + intros x Hx%Hk. cbn. rewrite length_app. cbn [length]. destruct Hx as [Hx%I2|Hx]; [lia|]. unfold h in Hx. lia.
    + done.
    + done.
    + done.
    + intros x hd Hx Hl. destruct (Hold x hd Hl) as [Hl'|[_ ?]]; [|done]. rewrite Eq in Hx.
      apply elem_of_app in Hx as [Hx|Hx%list_elem_of_singleton]; [by apply (I5 x)|]. apply lookup_lt_Some in Hl'. unfold h in Hx. lia.
    + intros i a hd Ha Hl. destruct (Hold _ hd Hl) as [Hl'|[Hx _]]; [by apply (I6 i)|]. exfalso.
      assert (Hin : ar_handle a ∈ known_handles held w).
      { unfold known_handles. rewrite !elem_of_app. right. right. apply (list_elem_of_fmap_2 (ar_handle ∘ snd) _ _ Ha). }
      apply I2 in Hin. unfold h in Hx. lia.
    + exact I8.
    + intros x hd Hx Hl. rewrite Hk in Hx. destruct (Hold x hd Hl) as [Hl'|[? _]]; [apply (I7 x); tauto|tauto].
    + split_and!; [done..|by eexists|]. intros x hd Hl. exists hd. split; [|done]. cbn. by apply lookup_app_l_Some.
  - assert (Hat : ∀ x hd, alter (λ hd, hd <| h_cancelled := true |>) h (w_handles w) !! x = Some hd →
      ∃ hd0, w_handles w !! x = Some hd0 ∧ h_events hd = h_events hd0 ∧ h_stream hd = h_stream hd0).
    { intros x hd Hl. destruct (decide (x = h)) as [->|Hne]; [|rewrite list_lookup_alter_ne in Hl by done; eauto].
      rewrite list_lookup_alter_eq in Hl. apply fmap_Some in Hl as (hd0 & Hl & ->). by exists hd0. }
    split; [split|]; try done.
    + intros x Hx. cbn. rewrite length_alter. by apply I2.
    + intros x hd Hx Hl. destruct (Hat x hd Hl) as (hd0 & Hl0 & -> & _). by apply (I5 x).
    + intros i a hd Ha Hl. destruct (Hat _ hd Hl) as (hd0 & Hl0 & Ev & Es). rewrite Ev, Es. by apply (I6 i).
    + intros x hd Hx Hl. destruct (Hat x hd Hl) as (hd0 & Hl0 & Ev & Es). rewrite Ev, Es. by apply (I7 x).
    + split_and!; [done..|exists []; cbn; by rewrite app_nil_r|]. intros x hd Hl. cbn. destruct (decide (x = h)) as [->|Hne].
      * rewrite list_lookup_alter_eq, Hl. by eexists.
      * rewrite list_lookup_alter_ne by done. by exists hd.
  - assert (Eq : omap (λ it, match it with Request q => Some (qr_handle q) | Stop => None end) (w_incoming w ++ [Stop]) = queued_handles w).
    { rewrite omap_app. cbn. by rewrite app_nil_r. }
    split; [split|]; unfold known_handles, queued_handles; cbn [w_incoming w_handles w_active w_engine setter set_w_incoming]; rewrite ?Eq; try done.
    split_and!; [done..|by eexists|]. intros x hd Hl. by exists hd.
Qed.

(** [P] holds of the stream flag and the events of the handle [h]. *)
Definition has h (P : bool → list (GenerationEvent Met) → Prop) w : Prop :=
  ∃ hd, w_handles w !! h = Some hd ∧ P (h_stream hd) (h_events hd).
Definition put_ev h ev w : Worker := w <| w_handles := alter (λ hd, hd <| h_events := h_events hd ++ [ev] |>) h (w_handles w) |>.
Lemma look_only_has h P w w' : look_only w w' → has h P w → has h P w'.
Proof.
  intros (_ & _ & _ & _ & Hh) (hd & Hl & HP). destruct (Hh h hd Hl) as (hd' & Hl' & Ev & Es). exists hd'. split; [done|]. by rewrite Ev, Es.
Qed.
Lemma put_ev_at h ev w x hd : w_handles (put_ev h ev w) !! x = Some hd →
  ∃ hd0, w_handles w !! x = Some hd0 ∧ h_stream hd = h_stream hd0 ∧
    (x = h ∧ h_events hd = h_events hd0 ++ [ev] ∨ x ≠ h ∧ h_events hd = h_events hd0).
Proof.
  unfold put_ev. cbn [w_handles setter set_w_handles]. destruct (decide (x = h)) as [->|Hne].
  - rewrite list_lookup_alter_eq. intros (hd0 & Hl & ->)%fmap_Some. exists hd0. split_and!; [done..|]. by left.
  - rewrite list_lookup_alter_ne by done. intros Hl. exists hd. split_and!; [done..|]. by right.
Qed.

Lemma look_spec outside held w : worker_inv held w →
  wp (look outside) (λ _ w', worker_inv held w' ∧ look_only w w') noexn w.
Proof.
  intros HI. unfold look. apply wp_modify. set (w0 := setter w_looks _ w).
  assert (HI0 : worker_inv held w0) by (destruct HI; by split).
  assert (L0 : look_only w w0) by (split_and!; [done..|exists []; by rewrite app_nil_r|eauto]).
  clearbody w0. revert w0 HI0 L0. induction (outside (w_looks w)) as [|c cs IH]; intros w0 HI0 L0; [done|].
  cbn [foldl]. destruct (client_inv held w0 c HI0) as [HI1 L1]. apply IH; [done|by transitivity w0].
Qed.
(** Taking a request from the queue puts its handle in hand. *)
Lemma take_request held w q rest : worker_inv held w → w_incoming w = Request q :: rest →
  worker_inv (qr_handle q :: held) (w <| w_incoming := rest |>) ∧ has (qr_handle q) (λ _ evs, evs = []) (w <| w_incoming := rest |>).
Proof.
  intros [I1 I2 I3 I0 I4 I5 I6 I8 I7] Ei. set (w' := setter w_incoming _ w). set (h := qr_handle q).
  assert (Eq : queued_handles w = h :: queued_handles w') by (unfold queued_handles; by rewrite Ei).
  assert (Hp : known_handles (h :: held) w' ≡ₚ known_handles held w).
  { unfold known_handles. rewrite Eq. change (active_handles w') with (active_handles w). solve_Permutation. }
  split; [split|]; try done.
  - by rewrite Hp.
  - intros x. rewrite Hp. by apply I2.
  - intros x hd Hx. apply I5. rewrite Eq. by right.
  - intros x hd Hx. apply I7. by rewrite <-Hp.
  - destruct (lookup_lt_is_Some_2 (w_handles w) h) as [hd Hl].
    { apply I2. unfold known_handles. rewrite Eq, !elem_of_app. right. left. by left. }
    exists hd. split; [done|]. apply (I5 h); [rewrite Eq; by left|done].
Qed.
Lemma take_stop held w rest : worker_inv held w → w_incoming w = Stop :: rest → worker_inv held (w <| w_incoming := rest |>).
Proof.
  intros [I1 I2 I3 I0 I4 I5 I6 I8 I7] Ei. assert (Eq : queued_handles w = queued_handles (w <| w_incoming := rest |>)) by (unfold queued_handles; by rewrite Ei).
  unfold known_handles in *. rewrite Eq in I1, I2, I5, I7. by split.
Qed.
(** The handle in hand gets an event. *)
Lemma put_in_hand h held ev w : worker_inv (h :: held) w → worker_inv (h :: held) (put_ev h ev w).
Proof.
  intros [I1 I2 I3 I0 I4 I5 I6 I8 I7]. pose proof I1 as [Hh _]%NoDup_cons. split; try done.
  - intros x Hx. unfold put_ev. cbn. rewrite length_alter. by apply I2.
  - intros x hd Hx (hd0 & Hl & _ & [[-> _]|[_ ->]])%put_ev_at; [|by apply (I5 x)]. destruct Hh. rewrite !elem_of_app. tauto.
  - intros i a hd Ha (hd0 & Hl & -> & [[Hx _]|[_ ->]])%put_ev_at; [|by apply (I6 i)].
    destruct Hh. rewrite !elem_of_app. right. right. rewrite <-Hx. apply (list_elem_of_fmap_2 (ar_handle ∘ snd) _ _ Ha).
  - intros x hd Hx (hd0 & Hl & -> & [[-> _]|[_ ->]])%put_ev_at; [|by apply (I7 x)]. destruct Hx. by left.
Qed.
(** A handle in hand that has its last event, or gets none, is let go. *)
Lemma let_go h held w : worker_inv (h :: held) w → has h answered w → worker_inv held w.
Proof.
  intros [I1 I2 I3 I0 I4 I5 I6 I8 I7] (hdh & Hlh & Hs). apply NoDup_cons in I1 as [Hh I1]. split; try done.
  - intros x Hx. apply I2. by right.
  - intros x hd Hx Hl. destruct (decide (x = h)) as [->|Hne]; [by assert (hd = hdh) as -> by congruence|].
    apply (I7 x); [|done]. by intros [?|?]%elem_of_cons.
Qed.
Lemma settle h held ev w : worker_inv (h :: held) w → has h (λ st evs, settled st (evs ++ [ev])) w → worker_inv held (put_ev h ev w).
Proof.
  intros HI (hd & Hl & Hs). apply (let_go h); [by apply put_in_hand|]. eexists. unfold put_ev. cbn [w_handles setter set_w_handles].
  rewrite list_lookup_alter_eq, Hl. split; [done|by left].
Qed.
(** The request in hand becomes active, under a new id. *)
Lemma activate held i a w : worker_inv (ar_handle a :: held) w → has (ar_handle a) (λ _ evs, evs = []) w → ar_emitted_text a = "" → ar_token_ids a = [] →
  i ∉ (w_active w).*1 → i < next_id (w_engine w) → worker_inv held (w <| w_active := dict_put i a (w_active w) |>).
Proof.
  intros [I1 I2 I3 I0 I4 I5 I6 I8 I7] (hdh & Hlh & Hs) Ht Htok Hi Hn. rewrite dict_put_new by done. set (w' := setter w_active _ w).
  assert (Hp : known_handles held w' ≡ₚ known_handles (ar_handle a :: held) w).
  { unfold known_handles. change (queued_handles w') with (queued_handles w). unfold active_handles, w'. cbn [w_active setter set_w_active].
    rewrite fmap_app. cbn. solve_Permutation. }
  split; try done.
  - by rewrite Hp.
  - intros x. rewrite Hp. by apply I2.
  - unfold w'. cbn [w_active setter set_w_active]. rewrite fmap_app. apply NoDup_app. split; [done|]. split; [|apply NoDup_singleton].
    by intros x Hx ->%list_elem_of_singleton.
  - intros x. unfold w'. cbn [w_active w_engine setter set_w_active]. rewrite fmap_app, elem_of_app. intros [Hx|Hx%list_elem_of_singleton]; [by apply I4|by rewrite Hx].
  - intros x b hd [Hx|Hx%list_elem_of_singleton]%elem_of_app Hl; [by apply (I6 x)|]. injection Hx as -> ->.
    change (w_handles w !! ar_handle a = Some hd) in Hl. rewrite Hlh in Hl. injection Hl as <-. exists [].
    rewrite Hs, Ht. split; [done|]. by destruct (h_stream hdh).
  - intros x b [Hx|Hx%list_elem_of_singleton]%elem_of_app; [by apply (I8 x)|]. injection Hx as -> ->. rewrite Htok. constructor.
  - intros x hd. rewrite Hp. apply I7.
Qed.
(** An active request is taken out of [active]: its handle is in hand. *)
Lemma deactivate held i a w : worker_inv held w → (i, a) ∈ w_active w →
  worker_inv (ar_handle a :: held) (w <| w_active := assoc_del i (w_active w) |>) ∧ has (ar_handle a) (in_progress a) w.
Proof.
  intros [I1 I2 I3 I0 I4 I5 I6 I8 I7] Hi. set (w' := setter w_active _ w). pose proof (del_perm i a _ I3 Hi) as Hd.
  assert (Hp : known_handles (ar_handle a :: held) w' ≡ₚ known_handles held w).
  { unfold known_handles. change (queued_handles w') with (queued_handles w).
    assert (Ha : active_handles w ≡ₚ ar_handle a :: active_handles w').
    { unfold active_handles. rewrite Hd. done. }
    rewrite Ha. solve_Permutation. }
  assert (Hsub : ∀ x, x ∈ w_active w' → x ∈ w_active w) by (intros x Hx; rewrite Hd; by right).
  split; [split|]; try done.
  - by rewrite Hp.
  - intros x. rewrite Hp. by apply I2.
  - rewrite Hd in I3. cbn in I3. by apply NoDup_cons in I3 as [_ I3].
  - intros x (y & -> & Hy)%list_elem_of_fmap. apply I4. apply list_elem_of_fmap. eauto.
  - intros x b hd Hx. apply (I6 x). by apply Hsub.
  - intros x b Hx. apply (I8 x). by apply Hsub.
  - intros x hd. rewrite Hp. apply I7.
  - destruct (lookup_lt_is_Some_2 (w_handles w) (ar_handle a)) as [hd Hl].
    { apply I2. unfold known_handles. rewrite !elem_of_app. right. right. apply (list_elem_of_fmap_2 (ar_handle ∘ snd) _ _ Hi). }
    exists hd. split; [done|]. by apply (I6 i).
Qed.

(** The record of an active request changes with what its handle has been sent. *)
Lemma update held i a a' w : worker_inv held w → (i, a) ∈ w_active w → ar_handle a' = ar_handle a → Forall token_ok (ar_token_ids a') →
  (∀ hd, w_handles w !! ar_handle a = Some hd → in_progress a' (h_stream hd) (h_events hd)) →
  worker_inv held (w <| w_active := dict_put i a' (w_active w) |>).
Proof.
  intros [I1 I2 I3 I0 I4 I5 I6 I8 I7] Hi Hh Htok Hp. set (w' := setter w_active _ w).
  assert (Hk : i ∈ (w_active w).*1) by apply (list_elem_of_fmap_2 fst _ _ Hi).
  assert (Ea : active_handles w' = active_handles w) by (unfold active_handles, w'; cbn; by apply (dict_put_at i a' a)).
  assert (Ek : known_handles held w' = known_handles held w) by (unfold known_handles; by rewrite Ea).
  split; rewrite ?Ek; try done.
  - unfold w'. cbn [w_active setter set_w_active]. by rewrite dict_put_keys.
  - unfold w'. cbn [w_active w_engine setter set_w_active]. by rewrite dict_put_keys.
  - intros k b hd Hb Hl. destruct (elem_dict_put i a' (w_active w) k b I3 Hk Hb) as [[-> ->]|[_ Hb']]; [|by apply (I6 k)].
    apply Hp. by rewrite <-Hh.
  - intros k b Hb. destruct (elem_dict_put i a' (w_active w) k b I3 Hk Hb) as [[-> ->]|[_ Hb']]; [done|by apply (I8 k)].
Qed.
(** A delta is put, and recorded as emitted. *)
Lemma update_put held i a a' text w : worker_inv held w → (i, a) ∈ w_active w → ar_handle a' = ar_handle a → Forall token_ok (ar_token_ids a') →
  (∀ st evs, in_progress a st evs → st = true → in_progress a' st (evs ++ [TextDelta text])) →
  (∀ hd, w_handles w !! ar_handle a = Some hd → h_stream hd = true) →
  worker_inv held (put_ev (ar_handle a) (TextDelta text) (w <| w_active := dict_put i a' (w_active w) |>)).
Proof.
  intros [I1 I2 I3 I0 I4 I5 I6 I8 I7] Hi Hh Htok Hp Hst. set (w' := setter w_active _ w).
  assert (Hk : i ∈ (w_active w).*1) by apply (list_elem_of_fmap_2 fst _ _ Hi).
  assert (Ea : active_handles w' = active_handles w) by (unfold active_handles, w'; cbn; by apply (dict_put_at i a' a)).
  assert (Ek : known_handles held (put_ev (ar_handle a) (TextDelta text) w') = known_handles held w).
  { change (known_handles held w' = known_handles held w). unfold known_handles. by rewrite Ea. }
  assert (Hin : ar_handle a ∈ active_handles w) by apply (list_elem_of_fmap_2 (ar_handle ∘ snd) _ _ Hi).
  assert (Hnd : NoDup (active_handles w)) by (unfold known_handles in I1; rewrite !NoDup_app in I1; tauto).
  assert (Hone : ∀ k b, (k, b) ∈ w_active w → ar_handle b = ar_handle a → k = i).
  { intros k b Hb Hab. apply list_elem_of_lookup in Hb as [m Hm], Hi as [n Hn].
    assert (m = n) as ->; [|by simplify_eq].
    apply (NoDup_lookup (active_handles w) m n (ar_handle a) Hnd); unfold active_handles; rewrite list_lookup_fmap.
    - rewrite Hm. cbn. by rewrite Hab.
    - by rewrite Hn. }
  split; rewrite ?Ek; try done.
  - intros x Hx. unfold put_ev. cbn. rewrite length_alter. by apply I2.
  - change ((w_active (put_ev _ _ w')).*1) with (dict_put i a' (w_active w)).*1. by rewrite dict_put_keys.
  - change ((w_active (put_ev _ _ w')).*1) with (dict_put i a' (w_active w)).*1. by rewrite dict_put_keys.
  - intros x hd Hx (hd0 & Hl & _ & [[-> _]|[_ ->]])%put_ev_at; [|by apply (I5 x)].
    unfold known_handles in I1. rewrite !NoDup_app in I1. exfalso. destruct I1 as (_ & _ & _ & I1 & _). by apply (I1 (ar_handle a)).
  - intros k b hd Hb (hd0 & Hl & -> & Hev)%put_ev_at. change (w_handles w !! ar_handle b = Some hd0) in Hl.
    destruct (elem_dict_put i a' (w_active w) k b I3 Hk Hb) as [[-> ->]|[Hne Hb']].
    + rewrite Hh in Hl, Hev. destruct Hev as [[_ ->]|[? _]]; [|done]. apply Hp; [by apply (I6 i)|by apply Hst].
    + destruct Hev as [[Hx _]|[_ ->]]; [by destruct (Hone k b Hb' Hx)|by apply (I6 k)].
  - intros k b Hb. destruct (elem_dict_put i a' (w_active w) k b I3 Hk Hb) as [[-> ->]|[_ Hb']]; [done|by apply (I8 k)].
  - intros x hd Hx (hd0 & Hl & -> & [[-> _]|[_ ->]])%put_ev_at; [|by apply (I7 x)].
    destruct Hx. unfold known_handles. rewrite !elem_of_app. tauto.
Qed.
Lemma wp_on_engine {A} (m : M E A) (Q : A → Worker → Prop) (X : exn → Worker → Prop) w :
  (∀ r e, m (w_engine w) = (r, e) → match r with inr x => Q x (w <| w_engine := e |>) | inl exc => X exc (w <| w_engine := e |>) end) →
  wp (on_engine m) Q X w.
Proof. intros HQ. unfold wp, on_engine. destruct (m (w_engine w)) as [r e] eqn:Em. specialize (HQ r e eq_refl). by destruct r. Qed.
Lemma engine_inv held w e : sound e → next_id (w_engine w) <= next_id e → worker_inv held w → worker_inv held (w <| w_engine := e |>).
Proof. intros He Hn [I1 I2 I3 I0 I4 I5 I6 I8 I7]. split; try done. intros i Hi. specialize (I4 i Hi). cbn. lia. Qed.
Lemma wp_on_engine_inv {A} held (m : M E A) w : advances sound next_id m → worker_inv held w →
  wp (on_engine m) (λ x w', ∃ e, m (w_engine w) = (inr x, e) ∧ w' = w <| w_engine := e |> ∧ worker_inv held w')
    (λ _ w', ∃ e, w' = w <| w_engine := e |> ∧ worker_inv held w') w.
Proof.
  intros Hm HI. apply wp_on_engine. intros r e Er. destruct (Hm (w_engine w) (wi_sound _ _ HI)) as [He Hn]. rewrite Er in He, Hn.
  assert (worker_inv held (w <| w_engine := e |>)) by by apply engine_inv. destruct r; eauto.
Qed.
Lemma metrics_inv held w n : worker_inv held w → wp (set_metrics n) (λ _, worker_inv held) (λ _, worker_inv held) w.
Proof.
  intros HI. unfold set_metrics. wp_step. eapply wp_mono; [apply wp_on_engine_inv; [apply metrics_advances|done]|..]; cbn beta.
  - intros sm w' (e & _ & -> & HI'). wp_step. by destruct HI'.
  - by intros _ w' (e & -> & HI').
Qed.

(** ** The worker's steps *)
Context (outside : nat → list ClientAction).
Abbreviation quiet := (λ (_ : exn) w, worker_inv [] w).
Definition aborts (t : GenerationEvent Met) : Prop := match t with GenerationFailed _ | GenerationCancelled => True | _ => False end.
Lemma settled_abort st evs t ds : evs = TextDelta <$> ds → (st = false → ds = []) → aborts t → settled st (evs ++ [t]).
Proof. intros -> Hst Ht. exists ds, t. split_and!; [done|by destruct t|done|by destruct t]. Qed.
Lemma abort_new st evs t : evs = [] → aborts t → settled st (evs ++ [t]).
Proof. intros ->. by apply (settled_abort st [] t []). Qed.
Lemma abort_active a st evs t : in_progress a st evs → aborts t → settled st (evs ++ [t]).
Proof. intros (ds & -> & Hd). apply (settled_abort _ _ t ds); [done|]. intros ->. done. Qed.
Lemma has_mono h (P P' : bool → list (GenerationEvent Met) → Prop) w : (∀ st evs, P st evs → P' st evs) → has h P w → has h P' w.
Proof. intros HP (hd & Hl & Hhd). exists hd. split; [done|by apply HP]. Qed.
Lemma put_event_settle h held ev w (X : exn → Worker → Prop) : worker_inv (h :: held) w → has h (λ st evs, settled st (evs ++ [ev])) w →
  wp (put_event h ev) (λ _, worker_inv held) X w.
Proof. intros HI Hh. unfold put_event. wp_step. by apply settle. Qed.
Lemma is_cancelled_spec h held w : worker_inv held w → wp (is_cancelled outside h) (λ _ w', worker_inv held w' ∧ look_only w w') noexn w.
Proof. intros HI. unfold is_cancelled. wp_step. wp_use (by apply look_spec); [|done]. intros _ w' Hw. by wp_step. Qed.
Lemma streams_spec h w (Q : bool → Worker → Prop) X : (∀ hd, w_handles w !! h = Some hd → Q (h_stream hd) w) → is_Some (w_handles w !! h) → wp (streams h) Q X w.
Proof. intros HQ [hd Hh]. unfold streams. wp_step. rewrite Hh. by apply HQ. Qed.

Lemma admit_request_spec held q w : worker_inv (qr_handle q :: held) w → has (qr_handle q) (λ _ evs, evs = []) w →
  wp (admit_request q) (λ _, worker_inv held) (λ _ w', worker_inv (qr_handle q :: held) w' ∧ has (qr_handle q) (λ _ evs, evs = []) w') w.
Proof.
  clear outside. intros HI Hh. unfold admit_request. wp_steps. apply wp_lift; [intros ids _|intros exc _; by split].
  wp_steps. apply wp_raise_if; [intros _|by split]. wp_step. apply wp_on_engine. intros r e Er.
  assert (HI' : worker_inv (qr_handle q :: held) (w <| w_engine := e |>)).
  { destruct (add_request_advances ids (qr_sampling_params q) (qr_qos q) (w_engine w)) as [He Hm]; [apply HI|]. rewrite Er in He, Hm.
    by apply engine_inv. }
  destruct r as [exc|i]; [by split|]. apply add_request_id in Er; [|apply HI]. unfold set_active. wp_step. apply (activate held i); [done..| |].
  - intros Hi. pose proof (wi_fresh _ _ HI i Hi) as Hf. lia.
  - cbn. lia.
Qed.
Lemma admit_spec held q w : worker_inv (qr_handle q :: held) w → has (qr_handle q) (λ _ evs, evs = []) w →
  wp (admit_queued outside q) (λ _, worker_inv held) noexn w.
Proof.
  intros HI Hh. unfold admit_queued. wp_step. wp_use (by apply is_cancelled_spec); [|done]. intros c w1 [HI1 L1].
  pose proof (look_only_has _ _ _ _ L1 Hh) as Hh1. destruct c.
  - apply put_event_settle; [done|]. eapply has_mono, Hh1. intros st evs He. by apply abort_new.
  - apply wp_try_except. wp_use (by apply (admit_request_spec held)); [done|]. intros exc w2 [HI2 Hh2].
    apply put_event_settle; [done|]. eapply has_mono, Hh2. intros st evs He. by apply abort_new.
Qed.
Lemma get_incoming_spec w : worker_inv [] w →
  wp (get_incoming outside) (λ it w', match it with Some (Request q) => worker_inv [qr_handle q] w' ∧ has (qr_handle q) (λ _ evs, evs = []) w'
                                      | _ => worker_inv [] w' end) noexn w.
Proof.
  intros HI. unfold get_incoming. wp_step. wp_use (by apply look_spec); [|done]. intros _ w1 [HI1 L1]. wp_steps.
  destruct (w_incoming w1) as [|[q|] rest] eqn:Ei; wp_steps; [done|by apply take_request|by apply take_stop].
Qed.
Lemma drain_spec fuel w : worker_inv [] w → wp (drain_incoming outside fuel) (λ _, worker_inv []) quiet w.
Proof.
  revert w. induction fuel as [|fuel IH]; intros w HI; [done|]. cbn [drain_incoming]. wp_step.
  wp_use (by apply get_incoming_spec); [|done]. intros [[q|]|] w1 H1; [|done..]. destruct H1 as [HI1 Hh1].
  wp_step. wp_use (by apply (admit_spec [])); [|done]. intros _ w2 HI2. by apply IH.
Qed.


Lemma deliver_token_spec ev w : token_ok ev.2 → worker_inv [] w → wp (deliver_token ev) (λ _, worker_inv []) quiet w.
Proof.
  intros Hok HI. destruct ev as [i t]. cbn [snd] in Hok. unfold deliver_token. cbn [fst snd]. wp_steps. destruct (assoc i (w_active w)) as [a|] eqn:Ha; [|done].
  apply assoc_Some in Ha. set (a1 := a <| ar_token_ids := _ |>). wp_step. unfold set_active. wp_steps.
  destruct (deactivate [] i a w HI Ha) as [_ (hd & Hl & Hpr)]. set (w1 := setter w_active _ w).
  assert (Hpr1 : in_progress a1 (h_stream hd) (h_events hd)) by exact Hpr.
  assert (Htok : Forall token_ok (ar_token_ids a1)) by (apply Forall_app_2; [by apply (wi_tokens _ _ HI i)|by constructor]).
  assert (HI1 : worker_inv [] w1).
  { apply (update [] i a); [done..|]. intros hd' Hl'. assert (hd' = hd) as -> by congruence. exact Hpr1. }
  assert (Ha1 : (i, a1) ∈ w_active w1) by (apply dict_put_in; apply (list_elem_of_fmap_2 fst _ _ Ha)).
  change (w_handles w1 !! ar_handle a1 = Some hd) in Hl. clearbody w1 a1.
  apply streams_spec; [|by eexists]. intros hd' Hl'. assert (hd' = hd) as -> by congruence. destruct (h_stream hd) eqn:Est; [|done]. cbn [negb].
  unfold decode_stable_delta. wp_steps. apply wp_lift; [intros text _|done]. wp_steps.
  destruct (String.prefix _ _) eqn:Hpre; cbn [negb]; [|done]. apply string_drop_prefix in Hpre. set (delta := string_drop _ _) in *.
  unfold set_active. wp_steps. destruct (String.eqb_spec delta "") as [Hd|Hd].
  - wp_steps. apply (update [] i a1); [done..|]. intros hd2 Hl2. assert (hd2 = hd) as -> by congruence. rewrite Est.
    destruct Hpr1 as (ds & Hds & Hs). exists ds. split; [done|]. cbn. by rewrite Hs, <-Hpre, Hd, string_app_nil.
  - unfold put_event. wp_step. apply (update_put [] i a1); [done..| |].
    + intros st evs (ds & -> & Hs) ->. exists (ds ++ [delta]). split; [by rewrite fmap_app|]. cbn. by rewrite sconcat_snoc, Hs.
    + intros hd2 Hl2. by assert (hd2 = hd) as -> by congruence.
Qed.

Lemma finish_spec held a ids w : Forall token_ok ids → worker_inv (ar_handle a :: held) w → has (ar_handle a) (in_progress a) w →
  wp (finish a ids) (λ _, worker_inv held) (λ _, worker_inv held) w.
Proof.
  intros Hok HI (hd & Hl & ds & Hds & Hs). unfold finish. wp_step. apply wp_lift; [intros text _|].
  2:{ intros exc Hexc. apply (let_go (ar_handle a)); [done|]. exists hd. split; [done|]. right. split; [by exists ids, exc|]. exists ds. split; [done|].
    intros Hst. by rewrite Hst in Hs. }
  wp_step.
  apply streams_spec; [|by eexists]. intros hd' Hl'. assert (hd' = hd) as -> by congruence. wp_step.
  assert (Hend : ∀ ds' w1 (X : exn → Worker → Prop) fin, worker_inv (ar_handle a :: held) w1 →
    has (ar_handle a) (λ st evs, evs = TextDelta <$> ds' ∧ (st = false → ds' = []) ∧ closes st (sconcat ds') fin ∧ terminal fin) w1 →
    wp (put_event (ar_handle a) fin) (λ _, worker_inv held) X w1).
  { intros ds' w1 X fin HI1 Hh1. apply put_event_settle; [done|]. eapply has_mono, Hh1. intros st evs (-> & Hst & Hc & Ht). exists ds', fin. done. }
  destruct (h_stream hd) eqn:Est; cbn [andb].
  - destruct (String.prefix (ar_emitted_text a) text) eqn:Hpre.
    + apply string_drop_prefix in Hpre. set (tail := string_drop _ _) in *. destruct (String.eqb_spec tail "") as [Ht|Ht]; wp_steps.
      * apply (Hend ds); [done|]. exists hd. rewrite Est. split_and!; [done..| |done]. intros _. left. by rewrite Hs, <-Hpre, Ht, string_app_nil.
      * unfold put_event at 1. wp_steps. apply (Hend (ds ++ [tail])).
        -- by apply (put_in_hand (ar_handle a) held (TextDelta tail)).
        -- eexists. cbn [w_handles setter set_w_handles]. rewrite list_lookup_alter_eq, Hl. split; [done|]. cbn. rewrite Est, Hds, fmap_app. split_and!; [done..| |done].
           intros _. left. by rewrite sconcat_snoc, Hs.
    + wp_steps. apply (Hend ds); [done|]. exists hd. rewrite Est, Hs. split_and!; [done..| |done]. intros _. by right.
  - wp_steps. apply (Hend ds); [done|]. exists hd. rewrite Est. split_and!; [done..|]. done.
Qed.

Lemma deliver_output_spec out w : Forall token_ok out.2 → worker_inv [] w → wp (deliver_output out) (λ _, worker_inv []) quiet w.
Proof.
  intros Hok HI. destruct out as [i ids]. unfold deliver_output. cbn [fst snd]. wp_steps. destruct (assoc i (w_active w)) as [a|] eqn:Ha; [|done].
  apply assoc_Some in Ha. unfold drop_active. wp_steps. destruct (deactivate [] i a w HI Ha) as [HI1 Hh]. by apply finish_spec.
Qed.
Lemma cancel_requests_spec w : worker_inv [] w → wp (cancel_requests outside) (λ _, worker_inv []) quiet w.
Proof.
  intros HI. unfold cancel_requests. wp_steps.
  set (I := λ (l : list (nat * ActiveRequest)) w, worker_inv [] w ∧ NoDup l.*1 ∧ ∀ x, x ∈ l → x ∈ w_active w).
  wp_use (apply (wp_forM _ _ I quiet)); [split_and!; [done|apply HI|done]| |by intros _ w' [? _]|done].
  intros [i a] l w1 (HI1 & Hnd & Hin). wp_steps. wp_use (by apply is_cancelled_spec); [|done]. intros c w2 [HI2 L2].
  assert (Hin2 : ∀ x, x ∈ (i, a) :: l → x ∈ w_active w2) by (destruct L2 as [-> _]; done).
  apply NoDup_cons in Hnd as [Hi Hnd]. destruct c; cbn [negb]; [|split_and!; [done..|set_solver]].
  wp_steps. wp_use (by apply (wp_on_engine_inv []); [apply cancel_advances|]); [|by intros exc w3 (e & -> & HI3)].
  intros b w3 (e & _ & -> & HI3). unfold put_event, drop_active. wp_steps.
  assert (Ha : (i, a) ∈ w_active (w2 <| w_engine := e |>)) by (apply Hin2; by left).
  destruct (deactivate [] i a _ HI3 Ha) as [HI4 Hh]. split_and!.
  - apply (settle (ar_handle a) [] GenerationCancelled) in HI4; [exact HI4|]. eapply has_mono, Hh. intros st evs Hp. by apply (abort_active a).
  - done.
  - intros [j b'] Hj. apply list_elem_of_filter. split; [|apply Hin2; by right].
    cbn. intros ->. apply Hi. apply (list_elem_of_fmap_2 fst _ _ Hj).
Qed.
(** Every active request is cancelled in the engine and told [t]. *)
Lemma abandon_spec t w : aborts t → worker_inv [] w →
  wp (forM (w_active w) (λ '(seq_id, state), cancel_quietly seq_id;; put_event (ar_handle state) t))
    (λ _ w', worker_inv [] (w' <| w_active := [] |>)) noexn w.
Proof.
  clear outside.   intros Ht HI. set (I := λ (l : list (nat * ActiveRequest)) w, worker_inv [] (w <| w_active := l |>)).
  apply (wp_forM _ _ I); [by destruct HI|]. intros [i a] l w1 HI1. wp_step.
  assert (Hq : wp (cancel_quietly i) (λ _, I ((i, a) :: l)) noexn w1).
  { unfold cancel_quietly. apply wp_try_except. wp_step. apply wp_on_engine. intros r e Er.
    assert (I ((i, a) :: l) (w1 <| w_engine := e |>)).
    { change (worker_inv [] (w1 <| w_active := (i, a) :: l |> <| w_engine := e |>)). destruct (cancel_advances i (w_engine w1)) as [He Hm]; [apply HI1|].
      rewrite Er in He, Hm. by apply engine_inv. }
    by destruct r. }
  wp_use (exact Hq); [|done]. intros _ w2 HI2. unfold put_event. wp_step.
  destruct (deactivate [] i a _ HI2 ltac:(by left)) as [HI3 Hh].
  assert (Hd : assoc_del i ((i, a) :: l) = l).
  { apply wi_keys in HI2. cbn in HI2. apply NoDup_cons in HI2 as [Hi _]. unfold assoc_del. rewrite filter_cons. cbn [fst].
    rewrite decide_False by tauto. by apply assoc_del_absent. }
  cbn [w_active setter set_w_active] in HI3. rewrite Hd in HI3.
  apply (settle (ar_handle a) [] t) in HI3; [exact HI3|]. eapply has_mono, Hh. intros st evs Hp. by apply (abort_active a).
Qed.
Lemma fail_active_spec exc w : worker_inv [] w → wp (fail_active exc) (λ _, worker_inv []) noexn w.
Proof.
  intros HI. unfold fail_active. wp_steps. wp_use (by apply abandon_spec); [|done]. intros _ w' HI'. by wp_step.
Qed.
Lemma shut_down_spec w : worker_inv [] w →
  wp shut_down (λ _ w', worker_inv [] w' ∧ w_active w' = []) (λ _ w', worker_inv [] w' ∧ w_active w' = []) w.
Proof.
  intros HI. unfold shut_down. wp_steps. wp_use (by apply abandon_spec); [|done]. intros _ w' HI'. wp_steps.
  wp_use (by apply (wp_on_engine_inv []); [apply exit_advances|]).
  - by intros _ w2 (e & _ & -> & HI2).
  - by intros _ w2 (e & -> & HI2).
Qed.
Lemma loop_inv {A} (P : A → Prop) (f : A → MW ()) l w : Forall P l → (∀ x w, P x → worker_inv [] w → wp (f x) (λ _, worker_inv []) quiet w) →
  worker_inv [] w → wp (forM l f) (λ _, worker_inv []) quiet w.
Proof.
  clear outside. intros HP Hf HI. set (I := λ (l : list A) w, Forall P l ∧ worker_inv [] w).
  apply (wp_mono _ (λ _ w', I [] w') _ quiet); [|by intros _ w' [_ ?]|done]. apply (wp_forM _ _ I); [done|]. intros x l' w' [[Hx Hl]%Forall_cons HI']. eapply wp_mono; [by apply Hf| |done]. intros [] w2 HI2. done.
Qed.
Lemma serve_step_spec w : worker_inv [] w → wp serve_step (λ _, worker_inv []) quiet w.
Proof.
  intros HI. unfold serve_step. wp_step. wp_use (by apply (wp_on_engine_inv []); [apply step_advances|]); [|by intros exc w1 (e & -> & ?)].
  intros [outputs n] w1 (e & Es & -> & HI1). apply step_tokens in Es as Hout; [|apply HI].
  wp_step. wp_use (by apply (wp_on_engine_inv []); [apply events_advances|]); [|by intros exc w2 (e' & -> & ?)].
  intros events w2 (e' & Ev & -> & HI2). apply events_tokens in Ev as Hev; [|apply HI1]. wp_step. wp_use (apply (loop_inv _ _ _ _ Hev); [intros; by apply deliver_token_spec|done]); [|done].
  intros _ w3 HI3. wp_step. wp_use (apply (loop_inv _ _ _ _ Hout); [intros; by apply deliver_output_spec|done]); [|done]. intros _ w4 HI4. by apply metrics_inv.
Qed.
Lemma worker_loop_spec rounds reads w : worker_inv [] w → wp (worker_loop outside rounds reads) (λ _, worker_inv []) quiet w.
Proof.
  revert w. induction rounds as [|rounds IH]; intros w HI; [done|]. cbn [worker_loop]. wp_step. wp_use (by apply drain_spec); [|done].
  intros stopping w1 HI1. wp_step. wp_use (by apply cancel_requests_spec); [|done]. intros _ w2 HI2. destruct stopping; [done|]. wp_steps.
  case_bool_decide.
  - wp_use (by apply (metrics_inv [])); [|done]. intros _ w3 HI3. by apply IH.
  - apply (wp_mono _ (λ _, worker_inv []) _ quiet); [|intros _ w3 HI3; by apply IH|done]. apply wp_try_except.
    wp_use (by apply serve_step_spec); [done|]. intros exc w3 HI3. wp_step. wp_use (by apply fail_active_spec); [|done].
    intros _ w4 HI4. by apply metrics_inv.
Qed.

Lemma worker_run_inv e w0 rounds reads : sound e → worker_start (inr e) = inr w0 →
  let w := (worker_run outside rounds reads w0).2 in worker_inv [] w ∧ w_active w = [].
Proof using HL.
  intros He [= <-]. set (w0 := mkWorker _ _ _ _ _ _). assert (HI0 : worker_inv [] w0) by (split; cbn; first [apply NoDup_nil_2|by intros ? ?%not_elem_of_nil|by intros ? ? ?%not_elem_of_nil|by intros ? ? ? ?%not_elem_of_nil|by intros ? ? _|done]).
  assert (Hrun : wp (worker_run outside rounds reads) (λ _ w, worker_inv [] w ∧ w_active w = []) (λ _ w, worker_inv [] w ∧ w_active w = []) w0).
  { unfold worker_run. wp_step. unfold set_metrics at 1. wp_step.
    wp_use (by apply (wp_on_engine_inv []); [apply metrics_advances|]); [|by intros exc w1 (e' & -> & ?)].
    intros sm w1 (e' & _ & -> & HI1). wp_steps. unfold wp, try_finally. set (w2 := setter w_metrics _ _).
    pose proof (worker_loop_spec rounds reads w2 ltac:(by destruct HI1)) as Hl. unfold wp in Hl.
    destruct (worker_loop outside rounds reads w2) as [r w3].
    assert (HI3 : worker_inv [] w3) by by destruct r. pose proof (shut_down_spec w3 HI3) as Hs. unfold wp in Hs.
    by destruct (shut_down w3) as [[exc|[]] w4], r. }
  unfold wp in Hrun. by destruct (worker_run outside rounds reads w0) as [[]].
Qed.
Lemma inv_answered w : worker_inv [] w → w_active w = [] → ∀ h hd, h ∉ queued_handles w → w_handles w !! h = Some hd → answered (h_stream hd) (h_events hd).
Proof.
  intros HI Ha h hd Hq. apply (wi_answered _ _ HI h). unfold known_handles, active_handles. rewrite Ha. cbn. by rewrite app_nil_r.
Qed.
End spec.
