(* ===== verification/EngineWorkerStop.v ===== *)
(** * The engine worker stops

    The thread takes every item put in its queue before the stop marker and then leaves its loop; a request put in
    behind the marker stays there, and one whose last decoding fails is no longer known to anybody. *)
From S2P Require Import Prelude Json Qos Sequence StorageBackend Scheduler EngineWorker.
Set Default Goal Selector "!".
Set Default Proof Using "Type".

Section stop.
Context {E Met SM : Type} `{HS : ServingEngine E Met SM}.
Abbreviation Worker := (InferenceWorker E Met SM).
Abbreviation MW := (M Worker).
Implicit Types (w : Worker).
Context (outside : nat → list ClientAction).

(** ** What arrives in the queue *)
Definition queued_by (c : ClientAction) : nat := match c with CancelHandle _ => 0 | _ => 1 end.
Definition arrivals (n : nat) : nat := sum_list (queued_by <$> outside n).
Definition arrived (n : nat) : nat := sum_list (arrivals <$> seq 0 n).
Lemma arrived_S n : arrived (S n) = arrived n + arrivals n.
Proof. unfold arrived. rewrite seq_S, fmap_app, sum_list_with_app. cbn. lia. Qed.

(** From [w] to [w'] the queue only grows, by what arrived in the meantime. *)
Definition later w w' : Prop :=
  w_looks w <= w_looks w' ∧ ∃ more, w_incoming w' = w_incoming w ++ more ∧ length more + arrived (w_looks w) = arrived (w_looks w') ∧
    ∀ k, w_looks w <= k < w_looks w' → StopWorker ∈ outside k → Stop ∈ more.
#[export] Instance later_preorder : PreOrder later.
Proof.
  split.
  - intros w. split; [done|]. exists []. rewrite app_nil_r. split_and!; [done..|]. intros k Hk. lia.
  - intros w1 w2 w3 (A1 & m1 & A2 & A3 & A4) (B1 & m2 & B2 & B3 & B4). split; [lia|]. exists (m1 ++ m2).
    split_and!; [by rewrite B2, A2, app_assoc|rewrite length_app; lia|]. intros k Hk HS'. apply elem_of_app.
    destruct (decide (k < w_looks w2)); [left; apply (A4 k)|right; apply (B4 k)]; auto with lia.
Qed.
Lemma queue_later_same w w' : w_incoming w' = w_incoming w → w_looks w' = w_looks w → later w w'.
Proof. intros Ei El. unfold later. rewrite Ei, El. split; [done|]. exists []. rewrite app_nil_r. split_and!; [done..|]. intros k Hk. lia. Qed.
Lemma clients_later cs w : w_looks (foldl client_step w cs) = w_looks w ∧ ∃ more,
  w_incoming (foldl client_step w cs) = w_incoming w ++ more ∧ length more = sum_list (queued_by <$> cs) ∧ (StopWorker ∈ cs → Stop ∈ more).
Proof.
  revert w. induction cs as [|c cs IH]; intros w; [split; [done|]; exists []; rewrite app_nil_r; split_and!; [done..|by intros ?%not_elem_of_nil]|].
  cbn [foldl]. destruct (IH (client_step w c)) as (E1 & more & E2 & E3 & E4). rewrite E1, E2. destruct c as [msgs sp q st|h|]; cbn.
  - split; [done|]. eexists (_ :: more). rewrite <-app_assoc. split_and!; [done|by rewrite <-E3|]. intros [?|?]%elem_of_cons; [done|right; auto].
  - split; [done|]. exists more. split_and!; [done|done|]. intros [?|?]%elem_of_cons; [done|auto].
  - split; [done|]. exists (Stop :: more). rewrite <-app_assoc. split_and!; [done|by rewrite <-E3|]. intros _. by left.
Qed.

Lemma look_later w : look outside w = (inr tt, (look outside w).2) ∧ later w (look outside w).2 ∧ w_looks (look outside w).2 = S (w_looks w) ∧
  (StopWorker ∈ outside (w_looks w) → Stop ∈ w_incoming (look outside w).2).
Proof.
  unfold look, modifyS. cbn [snd]. set (w0 := setter w_looks _ w). destruct (clients_later (outside (w_looks w)) w0) as (E1 & more & E2 & E3 & E4).
  split; [done|]. unfold later. rewrite E1, E2. split_and!; [cbn; lia| |done|].
  - exists more. change (w_incoming w0) with (w_incoming w). change (w_looks w0) with (S (w_looks w)). clearbody w0. rewrite arrived_S, E3.
    split_and!; [done|unfold arrivals; lia|]. intros k Hk. assert (k = w_looks w) as -> by lia. done.
  - intros HS'. apply elem_of_app. auto.
Qed.

(** ** Calls that only wait, and calls that do not raise *)
Definition waits {A} (m : MW A) : Prop := ∀ w, later w (m w).2.
Definition calm {A} (m : MW A) : Prop := ∀ w, ∃ a, (m w).1 = inr a.
Lemma waits_ret {A} (a : A) : waits (mret a).
Proof. by intros w. Qed.
Lemma waits_lift {A} (r : result A) : waits (lift r).
Proof. by intros w. Qed.
Lemma waits_gets {A} (f : Worker → A) : waits (getsS f).
Proof. by intros w. Qed.
Lemma waits_get : waits getS.
Proof. by intros w. Qed.
Lemma waits_raise_if b e : waits (raise_if b e).
Proof. intros w. by destruct b. Qed.
Lemma waits_bind {A B} (m : MW A) (k : A → MW B) : waits m → (∀ a, waits (k a)) → waits (m ≫= k).
Proof.
  intros Hm Hk w. unfold mbind, M_bind. specialize (Hm w). destruct (m w) as [[e|a] w']; [done|]. cbn in Hm. etrans; [done|apply Hk].
Qed.
Lemma waits_modify f : (∀ w, w_incoming (f w) = w_incoming w) → (∀ w, w_looks (f w) = w_looks w) → waits (modifyS f).
Proof. intros Hi Hl w. apply queue_later_same; [apply Hi|apply Hl]. Qed.
Lemma waits_engine {A} (m : M E A) : waits (on_engine m).
Proof. intros w. unfold on_engine. destruct (m (w_engine w)). by apply queue_later_same. Qed.
Lemma waits_try {A} (m : MW A) h : waits m → (∀ e, waits (h e)) → waits (try_except m h).
Proof.
  intros Hm Hh w. unfold try_except. specialize (Hm w). destruct (m w) as [[e|a] w']; [|done]. cbn in Hm. etrans; [done|apply Hh].
Qed.
Lemma waits_forM {A} (l : list A) f : (∀ x, waits (f x)) → waits (forM l f).
Proof. intros Hf. induction l as [|x l IH]; [apply waits_ret|]. by apply waits_bind. Qed.
Lemma waits_look : waits (look outside).
Proof. intros w. apply look_later. Qed.
Lemma calm_bind {A B} (m : MW A) (k : A → MW B) : calm m → (∀ a, calm (k a)) → calm (m ≫= k).
Proof. intros Hm Hk w. unfold mbind, M_bind. destruct (Hm w) as [a Ha]. destruct (m w) as [r w']. cbn in Ha. subst r. apply Hk. Qed.
Lemma calm_try {A} (m : MW A) h : (∀ e, calm (h e)) → calm (try_except m h).
Proof. intros Hh w. unfold try_except. destruct (m w) as [[e|a] w']; [apply Hh|by exists a]. Qed.
Lemma calm_forM {A} (l : list A) f : (∀ x, calm (f x)) → calm (forM l f).
Proof. intros Hf. induction l as [|x l IH]; [by intros w; exists tt|]. by apply calm_bind. Qed.
Lemma calm_engine {A} (m : M E A) : (∀ e, ∃ a, (m e).1 = inr a) → calm (on_engine m).
Proof. intros Hm w. unfold on_engine. destruct (Hm (w_engine w)) as [a Ha]. destruct (m (w_engine w)) as [r e]. cbn in *. eauto. Qed.
Lemma calm_total {A} (m : MW A) : (∀ w, ∃ a w', m w = (inr a, w')) → calm m.
Proof. intros Hm w. destruct (Hm w) as (a & w' & ->). by exists a. Qed.
Ltac calmly := repeat (lazymatch goal with |- forall _, _ => intro | _ => idtac end; first
  [ apply waits_ret | apply waits_get | apply waits_lift | apply waits_gets | apply waits_raise_if | apply waits_engine | apply waits_look
  | apply waits_bind | apply waits_try | apply waits_forM | (apply waits_modify; done)
  | lazymatch goal with |- waits (match ?x with _ => _ end) => destruct x | |- waits ((λ _, _) _) => cbv beta end ]).
Lemma waits_put_event h ev : waits (put_event h ev).
Proof. unfold put_event. calmly. Qed.
Lemma waits_is_cancelled h : waits (is_cancelled outside h).
Proof. unfold is_cancelled. calmly. Qed.
Lemma waits_set_metrics n : waits (set_metrics n).
Proof. unfold set_metrics. calmly. Qed.
Lemma waits_admit_request q : waits (admit_request q).
Proof. unfold admit_request, set_active. calmly. Qed.
Lemma waits_admit q : waits (admit_queued outside q).
Proof.
  unfold admit_queued. apply waits_bind; [apply waits_is_cancelled|]. intros c. destruct c; [apply waits_put_event|].
  apply waits_try; [apply waits_admit_request|]. intros e. apply waits_put_event.
Qed.
Lemma waits_cancel_quietly i : waits (cancel_quietly i).
Proof. unfold cancel_quietly. calmly. Qed.
Lemma waits_fail_active exc : waits (fail_active exc).
Proof.
  unfold fail_active. apply waits_bind; [apply waits_get|]. intros w. apply waits_bind; [|calmly]. apply waits_forM. intros [i a].
  apply waits_bind; [apply waits_cancel_quietly|]. intros _. apply waits_put_event.
Qed.
Lemma waits_cancel_requests : waits (cancel_requests outside).
Proof.
  unfold cancel_requests, drop_active. apply waits_bind; [apply waits_get|]. intros w. apply waits_forM. intros [i a].
  apply waits_bind; [apply waits_is_cancelled|]. intros c. destruct (negb c); [calmly|]. apply waits_bind; [calmly|]. intros _.
  apply waits_bind; [apply waits_put_event|]. calmly.
Qed.
Lemma waits_deliver_token ev : waits (deliver_token ev).
Proof. unfold deliver_token, decode_stable_delta, set_active, streams, put_event. calmly. Qed.
Lemma waits_deliver_output out : waits (deliver_output out).
Proof.
  unfold deliver_output, finish, drop_active, streams, put_event. calmly.
Qed.
Lemma waits_serve_step : waits serve_step.
Proof.
  unfold serve_step. apply waits_bind; [calmly|]. intros [outputs n]. apply waits_bind; [calmly|]. intros events.
  apply waits_bind; [apply waits_forM, waits_deliver_token|]. intros _. apply waits_bind; [apply waits_forM, waits_deliver_output|]. intros _.
  apply waits_set_metrics.
Qed.

Lemma calm_put_event h ev : calm (put_event h ev).
Proof. intros w. by exists tt. Qed.
Lemma calm_is_cancelled h : calm (is_cancelled outside h).
Proof. intros w. unfold is_cancelled, mbind, M_bind. destruct (look_later w) as [-> _]. by eexists. Qed.
Lemma calm_admit q : calm (admit_queued outside q).
Proof.
  unfold admit_queued. apply calm_bind; [apply calm_is_cancelled|]. intros c. destruct c; [apply calm_put_event|]. apply calm_try.
  intros e. apply calm_put_event.
Qed.
Lemma calm_cancel_quietly i : calm (cancel_quietly i).
Proof. unfold cancel_quietly. apply calm_try. intros e w. by exists tt. Qed.
Lemma calm_fail_active exc : calm (fail_active exc).
Proof.
  unfold fail_active. apply calm_bind; [intros w; by eexists|]. intros w. apply calm_bind; [|intros _ w'; by exists tt]. apply calm_forM. intros [i a].
  apply calm_bind; [apply calm_cancel_quietly|]. intros _. apply calm_put_event.
Qed.

Lemma get_incoming_eq w : get_incoming outside w =
  let w1 := (look outside w).2 in
  match w_incoming w1 with [] => (inr None, w1) | item :: rest => (inr (Some item), w1 <| w_incoming := rest |>) end.
Proof.
  unfold get_incoming, mbind, M_bind. destruct (look_later w) as [El _]. rewrite El. cbn [snd getS].
  by destruct (w_incoming (look outside w).2).
Qed.

(** ** The loop ends *)
(** A stop marker that has arrived is still in the queue. *)
Definition stop_kept w : Prop := ∀ k, k < w_looks w → StopWorker ∈ outside k → Stop ∈ w_incoming w.
(** The items to take, when at most [n] ever arrive *)
Definition backlog (n : nat) w : nat := length (w_incoming w) + (n - arrived (w_looks w)).
Lemma later_stop w w' : later w w' → stop_kept w → stop_kept w'.
Proof.
  intros (Hl & more & Hi & _ & Hm) HJ k Hk HS'. rewrite Hi. apply elem_of_app.
  destruct (decide (k < w_looks w)); [left; by apply (HJ k)|right; apply (Hm k); auto with lia].
Qed.
Lemma later_backlog n w w' : (∀ m, arrived m <= n) → later w w' → backlog n w' = backlog n w.
Proof.
  intros Hn (_ & more & Hi & Hm & _). unfold backlog. rewrite Hi, length_app. pose proof (Hn (w_looks w')). lia.
Qed.
Lemma drain_ends n fuel w : (∀ m, arrived m <= n) → stop_kept w → backlog n w < fuel →
  ∃ b w', drain_incoming outside fuel w = (inr b, w') ∧
    (b = false → stop_kept w' ∧ w_looks w < w_looks w' ∧ backlog n w' <= backlog n w ∧ ∀ k, k < w_looks w' → StopWorker ∉ outside k).
Proof.
  intros Hn. revert w. induction fuel as [|fuel IH]; intros w HJ Hb; [lia|]. cbn [drain_incoming].
  destruct (look_later w) as (_ & L1 & Elk & _). pose proof (get_incoming_eq w) as Eg. cbv zeta in Eg. set (w1 := (look outside w).2) in *.
  pose proof (later_stop _ _ L1 HJ) as HJ1. pose proof (later_backlog n _ _ Hn L1) as Hb1.
  unfold mbind at 1, M_bind at 1. rewrite Eg. destruct (w_incoming w1) as [|[q|] rest] eqn:Ei.
  - exists false, w1. split; [done|]. intros _. split_and!; [done|lia|lia|]. intros k Hk HS'. specialize (HJ1 k Hk HS'). rewrite Ei in HJ1. by apply not_elem_of_nil in HJ1.
  - set (w2 := setter w_incoming rest w1). destruct (calm_admit q w2) as [u Hu]. pose proof (waits_admit q w2) as L3.
    unfold mbind at 1, M_bind at 1.
    destruct (admit_queued outside q w2) as [r w3]. cbn in Hu, L3. subst r.
    assert (HJ2 : stop_kept w2).
    { intros k Hk HS'. specialize (HJ1 k Hk HS'). rewrite Ei in HJ1. by apply elem_of_cons in HJ1 as [?|?]. }
    assert (Hb2 : S (backlog n w2) = backlog n w1) by (unfold backlog; rewrite Ei; done).
    pose proof (later_backlog n _ _ Hn L3) as Hb3. destruct (IH w3) as (b & w' & Hd & Hw'); [by apply (later_stop w2)|lia|].
    exists b, w'. split; [done|]. intros Hbf. destruct (Hw' Hbf) as (A & B & C & D). split_and!; [done| |lia|done].
    destruct L3 as [L3 _]. change (w_looks w2) with (w_looks w1) in L3. lia.
  - by exists true, (w1 <| w_incoming := rest |>).
Qed.
Context (cancel_returns : ∀ i e, ∃ b, (se_cancel_request i e).1 = inr b) (metrics_returns : ∀ e, ∃ sm, (se_scheduler_metrics e).1 = inr sm).
Lemma calm_set_metrics m : calm (set_metrics m).
Proof using metrics_returns. unfold set_metrics. apply calm_bind; [by apply calm_engine|]. intros sm w. by exists tt. Qed.
Lemma calm_cancel_requests : calm (cancel_requests outside).
Proof using cancel_returns.
  unfold cancel_requests. apply calm_bind; [intros w; by eexists|]. intros w. apply calm_forM. intros [i a].
  apply calm_bind; [apply calm_is_cancelled|]. intros c. destruct (negb c); [intros w'; by exists tt|]. apply calm_bind; [by apply calm_engine|].
  intros _. apply calm_bind; [apply calm_put_event|]. intros _ w'. by exists tt.
Qed.
Lemma loop_ends n rounds reads k w : (∀ m, arrived m <= n) → stop_kept w → StopWorker ∈ outside k → k < w_looks w + rounds →
  0 < rounds → backlog n w < reads → ∃ w', worker_loop outside rounds reads w = (inr tt, w').
Proof using cancel_returns metrics_returns.
  intros Hn. revert w. induction rounds as [|rounds IH]; intros w HJ HS' Hk Hr Hb; [lia|]. cbn [worker_loop].
  destruct (drain_ends n reads w Hn HJ Hb) as (b & w1 & Hd & Hw1). unfold mbind at 1, M_bind at 1. rewrite Hd.
  destruct (calm_cancel_requests w1) as [[] Hc]. pose proof (waits_cancel_requests w1) as L2. unfold mbind at 1, M_bind at 1.
  destruct (cancel_requests outside w1) as [r w2]. cbn in Hc, L2. subst r. destruct b; [by exists w2|].
  destruct (Hw1 eq_refl) as (HJ1 & Hl1 & Hb1 & Hno). unfold mbind at 1, M_bind at 1. cbn [getS].
  set (body := if bool_decide (w_active w2 = []) then _ else _ : MW ()).
  assert (Hbody : calm body ∧ waits body).
  { unfold body. clear -metrics_returns. case_bool_decide; [split; [apply calm_set_metrics|apply waits_set_metrics]|]. split.
    - apply calm_try. intros exc. apply calm_bind; [apply calm_fail_active|]. intros _. apply calm_set_metrics.
    - apply waits_try; [apply waits_serve_step|]. intros exc. apply waits_bind; [apply waits_fail_active|]. intros _. apply waits_set_metrics. }
  clearbody body. destruct Hbody as [Hc3 L3]. destruct (Hc3 w2) as [[] Hc3']. specialize (L3 w2). unfold mbind at 1, M_bind at 1. cbn.
  destruct (body w2) as [r w3]. cbn in Hc3', L3. subst r. assert (L : later w1 w3) by by etrans.
  assert (w_looks w1 <= k) by (apply Nat.nlt_ge; intros ?; by apply (Hno k)).
  pose proof (proj1 L). apply IH; [by apply (later_stop w1)|done|lia| |].
  - destruct rounds; [|lia]. lia.
  - rewrite (later_backlog n w1) by done. lia.
Qed.

Lemma run_ends n k w0 rounds reads : (∀ m, arrived m <= n) → stop_kept w0 → StopWorker ∈ outside k → k < w_looks w0 + rounds → 0 < rounds →
  backlog n w0 < reads → ∃ w, worker_run outside rounds reads w0 = shut_down w.
Proof using cancel_returns metrics_returns.
  intros Hn HJ HS' Hk Hr Hb. unfold worker_run, mbind at 1, M_bind at 1.
  destruct (calm_set_metrics (λ _, 0) w0) as [[] Hm]. pose proof (waits_set_metrics (λ _, 0) w0) as L.
  destruct (set_metrics (λ _, 0) w0) as [r w1]. cbn in Hm, L. subst r. pose proof (proj1 L).
  destruct (loop_ends n rounds reads k w1) as [w2 Hl]; [done|by apply (later_stop w0)|done|lia|done| |].
  - by rewrite (later_backlog n w0).
  - exists w2. unfold try_finally. rewrite Hl. by destruct (shut_down w2) as [[exc|[]] w3].
Qed.
Lemma start_ends n k e w0 rounds reads : worker_start (inr e) = inr w0 → StopWorker ∈ outside k → k < rounds → n < reads →
  stop_kept w0 ∧ k < w_looks w0 + rounds ∧ 0 < rounds ∧ backlog n w0 < reads.
Proof. intros [= <-] HS' Hk Hr. split_and!; [intros j Hj; cbn in Hj; lia|cbn; lia|lia|unfold backlog; cbn; lia]. Qed.

(** ** Requests nobody answers *)
(** A request put in the queue behind the stop marker stays in the queue; its handle never gets an event. *)
Theorem stop_strands msgs sp q st e w0 rounds reads : worker_start (inr e) = inr w0 → outside 0 = [StopWorker; Submit msgs sp q st] →
  let w := (worker_run outside (S rounds) (S reads) w0).2 in
  w_incoming w = [Request (mkQueued 0 msgs sp q)] ∧ w_handles w = [mkHandle st false []].
Proof using metrics_returns.
  intros [= <-] H0. set (w0 := mkWorker _ _ _ _ _ _). unfold worker_run, set_metrics, on_engine, mbind, M_bind.
  destruct (metrics_returns (w_engine w0)) as [sm Hm]. destruct (se_scheduler_metrics (w_engine w0)) as [r e1]. cbn in Hm. subst r.
  unfold try_finally, modifyS. cbn -[foldl]. unfold mbind, M_bind. cbn -[foldl]. unfold get_incoming, look, mbind, M_bind, modifyS, putS, getS.
  cbn -[foldl]. rewrite H0. cbn. unfold cancel_requests, shut_down, on_engine, mbind, M_bind. cbn. by destruct (se_exit e1) as [[]].
Qed.
Lemma cancel_quietly_handles i w : (cancel_quietly i w).1 = inr tt ∧ w_handles (cancel_quietly i w).2 = w_handles w.
Proof.
  clear. unfold cancel_quietly, try_except, mbind, M_bind, on_engine. by destruct (se_cancel_request i (w_engine w)) as [[] e].
Qed.
Lemma abandon_handles t l h w : h ∉ (ar_handle ∘ snd <$> l) →
  ∃ w', forM l (λ '(seq_id, state), cancel_quietly seq_id;; put_event (ar_handle state) t) w = (inr tt, w') ∧ w_handles w' !! h = w_handles w !! h.
Proof.
  clear outside cancel_returns metrics_returns. revert w. induction l as [|[j b] l IH]; intros w Hh; [by exists w|].
  rewrite fmap_cons in Hh. apply not_elem_of_cons in Hh as [Hb Hh]. destruct (cancel_quietly_handles j w) as [Hq Hqh].
  destruct (cancel_quietly j w) as [r w2] eqn:Eq. cbn in Hq, Hqh, Hb. subst r.
  set (w3 := w2 <| w_handles := alter (λ hd, hd <| h_events := h_events hd ++ [t] |>) (ar_handle b) (w_handles w2) |>).
  destruct (IH w3 Hh) as (w' & Hl & Hw'). exists w'. split.
  - cbn [forM]. unfold mbind, M_bind. rewrite Eq. exact Hl.
  - rewrite Hw'. unfold w3. cbn [w_handles setter set_w_handles]. by rewrite list_lookup_alter_ne, Hqh.
Qed.
End stop.
