(* ===== verification/EngineServing.v ===== *)
(** * The LLM engine behind the engine worker

    [LLMEngine] is an engine the worker can own: its request counter only grows, so no id is given out twice. *)
From S2P Require Import Prelude Json Blake2b Qos Sequence Policy KvPolicy RadixCache BlockManager HierarchicalCache StorageBackend KvPage ModelRunner RemoteCatalog PrefixCatalog TransferCoordinator SchedulerTrace Scheduler Config SchedulerStep RemoteRestore LlmEngine EngineWorker EngineWorkerSpec.
Set Default Goal Selector "!".
Set Default Proof Using "Type".

Create HintDb steady_db.

Section serving.
Context {B T H L : Type} `{KVStorageBackend B} `{KvTensor T} `{LM : LanguageModel T H L} `{Hasher} `{FloatRepr}.
Abbreviation Service := (RemoteKVRestoreService B).
Abbreviation Sched := (Scheduler Service PendingRemoteRestore).
Abbreviation Engine := (LLMEngine B T).
Abbreviation ME := (M Engine).
Context (append_ok : nat → bool) (clock perf_counter : nat → Q) (turns : nat → list loop_event).
Context (tokenizer_encode : string → list Z).

(** [m] leaves the request counter alone. *)
Definition steady {A} (m : ME A) : Prop := ∀ e, eng_counter (m e).2 = eng_counter e.
Lemma steady_ret {A} (a : A) : steady (mret a).
Proof. by intros e. Qed.
Lemma steady_raise {A} exc : steady (raise (A := A) exc).
Proof. by intros e. Qed.
Lemma steady_get : steady getS.
Proof. by intros e. Qed.
Lemma steady_lift {A} (r : result A) : steady (lift r).
Proof. by intros e. Qed.
Lemma steady_of_option {A} exc (o : option A) : steady (of_option exc o).
Proof. intros e. by destruct o. Qed.
Lemma steady_raise_if b exc : steady (raise_if b exc).
Proof. intros e. by destruct b. Qed.
Lemma steady_modify f : (∀ e, eng_counter (f e) = eng_counter e) → steady (modifyS f).
Proof. intros Hf e. apply Hf. Qed.
Lemma steady_bind {A C} (m : ME A) (k : A → ME C) : steady m → (∀ a, steady (k a)) → steady (m ≫= k).
Proof.
  intros Hm Hk e. unfold mbind, M_bind. specialize (Hm e). destruct (m e) as [[x|a] e']; [done|]. cbn in Hm. rewrite <-Hm. apply Hk.
Qed.
Lemma steady_try {A} (m : ME A) h : steady m → (∀ exc, steady (h exc)) → steady (try_except m h).
Proof.
  intros Hm Hh e. unfold try_except. specialize (Hm e). destruct (m e) as [[x|a] e']; [|done]. cbn in Hm. rewrite <-Hm. apply Hh.
Qed.
Lemma steady_finally {A} (m : ME A) f : steady m → steady f → steady (try_finally m f).
Proof.
  intros Hm Hf e. unfold try_finally. specialize (Hm e). destruct (m e) as [r e']. cbn in Hm. specialize (Hf e'). rewrite Hm in Hf.
  by destruct r, (f e') as [[] ?].
Qed.
Lemma steady_forM {A} (l : list A) f : (∀ x, steady (f x)) → steady (forM l f).
Proof. intros Hf. induction l as [|x l IH]; [apply steady_ret|]. by apply steady_bind. Qed.
Lemma steady_mapM {A C} (f : A → ME C) l : (∀ x, steady (f x)) → steady (mapM_M f l).
Proof.
  intros Hf. induction l as [|x l IH]; [apply steady_ret|]. apply steady_bind; [done|]. intros y. apply steady_bind; [done|]. intros ys. apply steady_ret.
Qed.
Lemma steady_scheduler {A} (m : M Sched A) : steady (on_scheduler m).
Proof. intros e. unfold on_scheduler. by destruct (m (eng_scheduler e)). Qed.
Lemma steady_restore {A} (m : M Service A) : steady (on_restore m).
Proof. apply steady_scheduler. Qed.
Lemma steady_runner {A} (m : M (ModelRunner T) A) : steady (on_runner m).
Proof. intros e. unfold on_runner. destruct (eng_runner e) as [r|]; [|done]. by destruct (m r). Qed.
Lemma steady_perf : steady (read_perf perf_counter).
Proof. by intros e. Qed.
Lemma steady_events : steady take_step_token_events.
Proof. by intros e. Qed.
Ltac steadily := repeat (lazymatch goal with |- forall _, _ => intro | _ => idtac end; first
  [ solve [trivial with steady_db nocore] | apply steady_ret | apply steady_raise | apply steady_get | apply steady_lift | apply steady_of_option | apply steady_raise_if
  | apply steady_scheduler | apply steady_restore | apply steady_runner | apply steady_perf
  | apply steady_bind | apply steady_try | apply steady_finally | apply steady_forM | apply steady_mapM | (apply steady_modify; done)
  | lazymatch goal with |- steady (match ?x with _ => _ end) => destruct x | |- steady ((λ _, _) _) => cbv beta end ]).
Lemma steady_enqueue s n : steady (enqueue_writeback s n).
Proof. unfold enqueue_writeback. steadily. Qed.
#[local] Hint Resolve steady_enqueue : steady_db.
Lemma steady_writebacks seqs : steady (enqueue_remote_writebacks seqs).
Proof.
  unfold enqueue_remote_writebacks, record_writeback_error. apply steady_bind; [apply steady_get|]. intros e. destruct (_ || _); [apply steady_ret|].
  apply steady_forM. intros i. apply steady_bind; [apply steady_scheduler|]. intros s. destruct (kv_compressed s); [apply steady_ret|].
  apply steady_bind; [apply steady_lift|]. intros [p c]. destruct (_ || _); [apply steady_ret|]. apply steady_try; [apply steady_enqueue|]. steadily.
Qed.
#[local] Hint Resolve steady_writebacks : steady_db.
Lemma steady_process wait : steady (process_remote_writebacks turns wait).
Proof.
  unfold process_remote_writebacks, record_writeback_error. apply steady_bind; [apply steady_get|]. intros e0.
  destruct (negb (has_service e0)); [apply steady_ret|]. apply steady_bind; [|steadily]. apply steady_forM. intros pending.
  apply steady_bind; [apply steady_restore|]. intros done. destruct (_ && _); [apply steady_ret|]. apply steady_finally; [steadily|].
  intros e. unfold mbind, M_bind. cbn [getS].
  by destruct (remove_equal pending (eng_pending_writebacks e)).
Qed.
#[local] Hint Resolve steady_process : steady_db.
Lemma steady_ready : steady (process_ready_remote_restores clock turns).
Proof. unfold process_ready_remote_restores. steadily. Qed.
#[local] Hint Resolve steady_ready : steady_db.
Lemma steady_loop n : steady (schedule_loop append_ok clock turns n).
Proof.
  induction n as [|n IH]; [apply steady_raise|]. cbn [schedule_loop]. apply steady_bind; [apply steady_process|]. intros _.
  apply steady_bind; [apply steady_ready|]. intros _. steadily.
Qed.
#[local] Hint Resolve steady_loop : steady_db.
Lemma steady_batch seqs p : steady (step_batch append_ok clock perf_counter turns seqs p).
Proof.
  unfold step_batch, run_batch, background. steadily.
Qed.
#[local] Hint Resolve steady_batch : steady_db.
Lemma steady_step n : steady (step append_ok clock perf_counter turns n).
Proof. unfold step. steadily. Qed.
Lemma steady_exit : steady (exit turns).
Proof.
  unfold exit. intros e. unfold mbind at 1, M_bind at 1. cbn [getS]. destruct (eng_exited e); [done|]. unfold mbind at 1, M_bind at 1. cbn [putS].
  set (e' := setter eng_exited _ e). change (eng_counter e) with (eng_counter e'). generalize e' as e0. clear e'. intros e0. revert e0.
  change (steady (try_finally (if has_service e then process_remote_writebacks turns true;; on_restore (service_close turns) else mret tt)
    (try_finally drop_runner (if has_service e then close_backend else mret tt)))).
  unfold drop_runner, close_backend. steadily.
Qed.

(** ** The engine as the worker owns it *)
(** The tokenizer's chat template and decoder; [waits] bounds the waits of a step. *)
Context (chat_template : list ChatMessage → result TemplateOutput) (tokenizer_decode : list Z → result string) (waits : nat).
Definition llm_serving : ServingEngine Engine RequestMetrics SchedulerMetrics := {|
  se_chat_template := λ messages _, chat_template messages;
  se_decode := tokenizer_decode;
  se_max_model_len := λ e, Some (cf_max_model_len (eng_config e));
  se_eos := λ e, Some (cf_eos (eng_config e));
  se_add_request := λ prompt sampling_params qos, add_request append_ok clock tokenizer_encode (PromptTokens prompt) sampling_params (Some qos);
  se_cancel_request := cancel_engine_request append_ok clock;
  se_step := step append_ok clock perf_counter turns waits;
  se_take_events := take_step_token_events;
  se_request_metrics := get_request_metrics;
  se_scheduler_metrics := get_scheduler_metrics perf_counter;
  se_exit := exit turns
|}.
Lemma counter_steady_advances {A} (m : ME A) : steady m → advances (λ _, True) eng_counter m.
Proof. intros Hm e _. split; [done|]. by rewrite Hm. Qed.
Lemma add_request_counter prompt sp q (e : Engine) :
  eng_counter (add_request append_ok clock tokenizer_encode prompt sp q e).2 = S (eng_counter e) ∧
  ∀ i e', add_request append_ok clock tokenizer_encode prompt sp q e = (inr i, e') → i = eng_counter e.
Proof.
  unfold add_request, mbind, M_bind. cbn [getS putS lift]. destruct (sequence_init _ _ _ _ _) as [x|s] eqn:Es; [done|].
  apply sequence_init_new in Es as [_ Es]. unfold on_scheduler. destruct (add _ _ _ _) as [[x|[]] sc]; (split; [done|]); [done|].
  intros i e' [= <- _]. exact Es.
Qed.
#[refine] Definition llm_lawful : @LawfulServing _ _ _ llm_serving := {|
  sound := λ _, True; next_id := eng_counter; token_ok := λ _, True |}.
Proof.
  - intros l sp q e _. split; [done|]. cbn [se_add_request llm_serving]. rewrite (proj1 (add_request_counter _ _ _ _)). lia.
  - intros i. apply counter_steady_advances. unfold se_cancel_request, llm_serving, cancel_engine_request. steadily.
  - apply counter_steady_advances, steady_step.
  - apply counter_steady_advances, steady_events.
  - apply counter_steady_advances, steady_scheduler.
  - apply counter_steady_advances, steady_exit.
  - intros l sp q e i e' _ Ea. cbn [se_add_request llm_serving] in Ea. pose proof (add_request_counter (PromptTokens l) sp (Some q) e) as [Hc Hi].
    rewrite Ea in Hc. cbn in Hc. rewrite (Hi _ _ Ea), Hc. lia.
  - intros e outputs n e' _ _. apply Forall_true. intros x. by apply Forall_true.
  - intros e events e' _ _. by apply Forall_true.
Defined.
(** A tokenizer that decodes every list of ids *)
Definition llm_decoding (tokenizer_decodes : ∀ l, ∃ text, tokenizer_decode l = inr text) : @DecodingServing _ _ _ llm_serving llm_lawful :=
  λ l _, tokenizer_decodes l.
End serving.
