(* ===== verification/MockEngine.v ===== *)
(** * The mock engine

    Models [MockEngine] of [nanovllm/serve/mock_engine.py]: the backend of the user-interface demo, which answers every
    request with the same text, one character a step. [perf_counter n] is the [n]th reading of the clock; the pause of a
    step is not modelled. It is an engine the worker can own. *)
From S2P Require Import Prelude Json Qos Sequence StorageBackend Scheduler EngineWorker EngineWorkerSpec.
Set Default Goal Selector "!".
Set Default Proof Using "Type".

(** ** [MockTokenizer] *)
Definition ord (s : string) : list Z := codepoints (bytes_of s).
Definition newline : string := string_of [10%Z].
Definition mock_chat_template (messages : list ChatMessage) : list Z :=
  ord (foldr (λ m t, "<|" +:+ role m +:+ "|>" +:+ newline +:+ content m +:+ newline +:+ t) ("<|assistant|>" +:+ newline) messages).
Definition is_chr (c : Z) : bool := ((0 <=? c) && (c <? 1114112))%Z.
Definition mock_decode (token_ids : list Z) : result string :=
  throw_if (negb (forallb is_chr token_ids)) (ValueError "chr() arg not in range(0x110000)");;
  mret (string_of (concat (utf8_encode <$> token_ids))).

(** ** State *)
Record MockSequence := mkMockSequence {
  mk_prompt_ids : list Z;
  mk_output_ids : list Z;
  mk_max_tokens : nat;
  mk_arrival_time : Q;
  mk_first_token_time : option Q
}.
#[export] Instance MockSequence_eta : RecordEta MockSequence := λ r, {|
  mk_prompt_ids := mk_prompt_ids r; mk_output_ids := mk_output_ids r; mk_max_tokens := mk_max_tokens r;
  mk_arrival_time := mk_arrival_time r; mk_first_token_time := mk_first_token_time r |}.
#[export] Instance set_mk_first_token_time : Setter mk_first_token_time := ltac:(derive_setter).

(** [_completed] holds the metrics under a request's id, and its tokens so far under [("partial", id)]: two dictionaries. *)
Record MockEngine := mkMock {
  mk_ids : nat;
  mk_active : list (nat * MockSequence);
  mk_events : list (nat * Z);
  mk_partial : list (nat * list Z);
  mk_completed : list (nat * Json);
  mk_completed_count : nat;
  mk_cancelled_count : nat;
  mk_known_prompts : gset (list Z);
  mk_cache_lookups : nat;
  mk_cache_hits : nat;
  mk_ticks : nat
}.
#[export] Instance MockEngine_eta : RecordEta MockEngine := λ r, {|
  mk_ids := mk_ids r; mk_active := mk_active r; mk_events := mk_events r; mk_partial := mk_partial r;
  mk_completed := mk_completed r; mk_completed_count := mk_completed_count r; mk_cancelled_count := mk_cancelled_count r;
  mk_known_prompts := mk_known_prompts r; mk_cache_lookups := mk_cache_lookups r; mk_cache_hits := mk_cache_hits r;
  mk_ticks := mk_ticks r |}.
#[export] Instance set_mk_ids : Setter mk_ids := ltac:(derive_setter).
#[export] Instance set_mk_active : Setter mk_active := ltac:(derive_setter).
#[export] Instance set_mk_events : Setter mk_events := ltac:(derive_setter).
#[export] Instance set_mk_partial : Setter mk_partial := ltac:(derive_setter).
#[export] Instance set_mk_completed : Setter mk_completed := ltac:(derive_setter).
#[export] Instance set_mk_completed_count : Setter mk_completed_count := ltac:(derive_setter).
#[export] Instance set_mk_cancelled_count : Setter mk_cancelled_count := ltac:(derive_setter).
#[export] Instance set_mk_known_prompts : Setter mk_known_prompts := ltac:(derive_setter).
#[export] Instance set_mk_cache_lookups : Setter mk_cache_lookups := ltac:(derive_setter).
#[export] Instance set_mk_cache_hits : Setter mk_cache_hits := ltac:(derive_setter).
#[export] Instance set_mk_ticks : Setter mk_ticks := ltac:(derive_setter).
Definition mock_engine : MockEngine := mkMock 0 [] [] [] [] 0 0 ∅ 0 0 0.

Section mock.
Context (perf_counter : nat → Q).
Abbreviation MK := (M MockEngine).
Definition mock_clock : MK Q := e ← getS; putS (e <| mk_ticks := S (mk_ticks e) |>);; mret (perf_counter (mk_ticks e)).

(** ** Requests *)
Definition mock_response : string :=
  "这是 nano-vLLM 的本地流式响应。当前请求已经进入连续批处理队列，服务端会逐 token 返回结果，并同步记录 TTFT、端到端延迟和前缀缓存指标。".
Definition mock_add_request (prompt : list Z) (sampling_params : SamplingParams) (qos : RequestQoS) : MK nat :=
  e ← getS;
  let seq_id := mk_ids e in
  putS (e <| mk_ids := S seq_id |> <| mk_cache_lookups := S (mk_cache_lookups e) |>
          <| mk_cache_hits := if bool_decide (prompt ∈ mk_known_prompts e) then S (mk_cache_hits e) else mk_cache_hits e |>
          <| mk_known_prompts := mk_known_prompts e ∪ {[prompt]} |>);;
  arrival_time ← mock_clock;
  modifyS (λ e, e <| mk_active := dict_put seq_id
    (mkMockSequence prompt (ord mock_response) (sp_max_tokens sampling_params) arrival_time None) (mk_active e) |>);;
  mret seq_id.
Definition mock_cancel_request (seq_id : nat) : MK bool :=
  e ← getS;
  match assoc seq_id (mk_active e) with
  | None => mret false
  | Some _ =>
      putS (e <| mk_active := assoc_del seq_id (mk_active e) |> <| mk_partial := assoc_del seq_id (mk_partial e) |>
              <| mk_cancelled_count := S (mk_cancelled_count e) |>);;
      mret true
  end.

(** ** [step] *)
Definition no_time : exn := TypeError "unsupported operand type(s) for -: 'NoneType' and 'float'".
Definition mock_metrics (seq_id : nat) (sequence : MockSequence) (completion_tokens : nat) (first_token_time now : Q) : Json :=
  let float q := JFloat (Finite q) in
  let ttft_ms := ((first_token_time - mk_arrival_time sequence) * 1000)%Q in
  let e2e_ms := ((now - mk_arrival_time sequence) * 1000)%Q in
  JObj [("seq_id", JInt (Z.of_nat seq_id)); ("prompt_tokens", JInt (Z.of_nat (length (mk_prompt_ids sequence))));
        ("completion_tokens", JInt (Z.of_nat completion_tokens)); ("queue_ms", float 0%Q); ("ttft_ms", float ttft_ms);
        ("tpot_ms", if 1 <? completion_tokens then float ((e2e_ms - ttft_ms) / inject_nat (completion_tokens - 1))%Q else JNull);
        ("e2e_ms", float e2e_ms); ("preemptions", JInt 0); ("kv_restore_wait_ms", float 0%Q); ("kv_restored_tokens", JInt 0);
        ("kv_restore_failures", JInt 0)].
(** One round of the loop of [step]: the events and the outputs it appends. *)
Definition mock_step_one (item : nat * MockSequence) : MK (list (nat * Z) * list (nat * list Z)) :=
  let '(seq_id, sequence) := item in
  let limit := Nat.min (mk_max_tokens sequence) (length (mk_output_ids sequence)) in
  e ← getS;
  let generated := default [] (assoc seq_id (mk_partial e)) in
  '(generated, sequence, events) ←
    match mk_output_ids sequence !! length generated with
    | Some token_id =>
        if length generated <? limit then
          first_token_time ← match mk_first_token_time sequence with Some t => mret t | None => mock_clock end;
          mret (generated ++ [token_id], sequence <| mk_first_token_time := Some first_token_time |>, [(seq_id, token_id)])
        else mret (generated, sequence, [])
    | None => mret (generated, sequence, [])
    end;
  modifyS (λ e, e <| mk_partial := dict_put seq_id generated (mk_partial e) |> <| mk_active := dict_put seq_id sequence (mk_active e) |>);;
  if length generated <? limit then mret (events, [])
  else
    now ← mock_clock;
    first_token_time ← of_option no_time (mk_first_token_time sequence);
    modifyS (λ e, e <| mk_completed := dict_put seq_id (mock_metrics seq_id sequence (length generated) first_token_time now) (mk_completed e) |>
                    <| mk_active := assoc_del seq_id (mk_active e) |> <| mk_partial := assoc_del seq_id (mk_partial e) |>
                    <| mk_completed_count := S (mk_completed_count e) |>);;
    mret (events, [(seq_id, generated)]).
Definition mock_step : MK (list (nat * list Z) * Z) :=
  e ← getS;
  rounds ← mapM_M mock_step_one (mk_active e);
  let events := concat rounds.*1 in
  modifyS (λ e, e <| mk_events := events |>);;
  mret (concat rounds.*2, (- Z.of_nat (Nat.max 1 (length events)))%Z).
Definition mock_take_step_token_events : MK (list (nat * Z)) :=
  e ← getS;
  putS (e <| mk_events := [] |>);;
  mret (mk_events e).

(** ** Metrics and [exit] *)
Definition mock_get_request_metrics (seq_id : nat) (e : MockEngine) : option Json := assoc seq_id (mk_completed e).
Definition mock_get_scheduler_metrics : MK Json :=
  e ← getS;
  let int n := JInt (Z.of_nat n) in
  let zero := JFloat (Finite 0%Q) in
  mret (JObj [("policy", JStr "pals"); ("max_model_len", JInt 40960); ("requested_max_model_len", JInt 40960); ("max_num_seqs", JInt 8);
    ("max_num_batched_tokens", JInt 2048); ("kvcache_block_size", JInt 256); ("num_kvcache_blocks", JInt 32);
    ("kv_cache_capacity_tokens", JInt 8192); ("completed_requests", int (mk_completed_count e));
    ("cancelled_requests", int (mk_cancelled_count e)); ("waiting_requests", JInt 0); ("running_requests", int (length (mk_active e)));
    ("ttft_ms_p50", zero); ("ttft_ms_p95", zero); ("tpot_ms_p50", zero); ("tpot_ms_p95", zero); ("e2e_ms_p50", zero); ("e2e_ms_p95", zero);
    ("prefix_cache_backend", JStr "radix"); ("prefix_cache_lookups", int (mk_cache_lookups e));
    ("prefix_cache_queried_blocks", int (mk_cache_lookups e)); ("prefix_cache_hit_blocks", int (mk_cache_hits e));
    ("prefix_cache_block_hit_rate", JFloat (Finite (if mk_cache_lookups e =? 0 then 0%Q else (inject_nat (mk_cache_hits e) / inject_nat (mk_cache_lookups e))%Q)));
    ("remote_restore_completed", JInt 0); ("kv_restored_tokens", JInt 0)]).
Definition mock_exit : MK () := modifyS (λ e, e <| mk_active := [] |>).

#[export] Instance mock_serving : ServingEngine MockEngine Json Json := {|
  se_chat_template := λ messages _, mret (Flat (mock_chat_template messages));
  se_decode := mock_decode;
  se_max_model_len := λ _, None;
  se_eos := λ _, None;
  se_add_request := mock_add_request;
  se_cancel_request := mock_cancel_request;
  se_step := mock_step;
  se_take_events := mock_take_step_token_events;
  se_request_metrics := mock_get_request_metrics;
  se_scheduler_metrics := mock_get_scheduler_metrics;
  se_exit := mock_exit
|}.

(** ** The laws the worker relies on *)
Definition chrs (l : list Z) : Prop := Forall (λ c, is_chr c = true) l.
(** All the characters the engine holds are characters. *)
Record mock_ok (e : MockEngine) : Prop := {
  mo_active i s : (i, s) ∈ mk_active e → chrs (mk_output_ids s);
  mo_partial i l : (i, l) ∈ mk_partial e → chrs l;
  mo_events : Forall (λ ev, is_chr ev.2 = true) (mk_events e)
}.
Definition mock_next (n : nat) (e : MockEngine) : Prop := mock_ok e ∧ mk_ids e = n.
Lemma elem_dict_put_inv {A} i (a : A) l k x : (k, x) ∈ dict_put i a l → (k, x) = (i, a) ∨ (k, x) ∈ l.
Proof.
  clear perf_counter. induction l as [|[j b] l IH]; cbn; [by intros ->%list_elem_of_singleton; left|].
  destruct (j =? i); rewrite !elem_of_cons; [tauto|]. intros [?|?%IH]; tauto.
Qed.
Lemma elem_del {A} i (l : list (nat * A)) x : x ∈ assoc_del i l → x ∈ l.
Proof. unfold assoc_del. by intros [_ ?]%list_elem_of_filter. Qed.
Lemma chrs_decode l : chrs l → ∃ t, mock_decode l = inr t.
Proof.
  intros Hl. unfold mock_decode. eexists. apply throw_if_bind; [|done]. apply negb_false_iff, forallb_forall. intros c Hc.
  unfold chrs in Hl. rewrite Forall_forall in Hl. apply Hl. by apply list_elem_of_In.
Qed.
Lemma mock_clock_ok n e : mock_next n e → wp mock_clock (λ _, mock_next n) noexn e.
Proof. intros [[Ha Hp Hev] Hn]. by split. Qed.
Lemma mock_step_one_ok n item e : mock_next n e → chrs (mk_output_ids item.2) →
  wp (mock_step_one item)
    (λ r e', mock_next n e' ∧ Forall (λ ev, is_chr ev.2 = true) r.1 ∧ Forall (λ out, chrs out.2) r.2) (λ _, mock_next n) e.
Proof.
  intros He Hout. destruct item as [i sq]. cbn [snd] in Hout. unfold mock_step_one. wp_step. wp_step.
  set (limit := Nat.min _ _). set (generated := default [] _).
  assert (Hgen : chrs generated).
  { unfold generated. destruct (assoc i (mk_partial e)) as [l|] eqn:El; [|by constructor]. apply assoc_Some in El. by eapply mo_partial; [apply He|]. }
  clearbody generated. wp_step.
  apply (wp_mono _ (λ r e', mock_next n e' ∧ chrs r.1.1 ∧ chrs (mk_output_ids r.1.2) ∧ Forall (λ ev, is_chr ev.2 = true) r.2) _ noexn); [| |done].
  { destruct (mk_output_ids sq !! length generated) as [c|] eqn:Ec; [|by split_and!; try apply He].
    destruct (_ <? _); [|by split_and!; try apply He].
    assert (Hc : is_chr c = true) by (unfold chrs in Hout; rewrite Forall_forall in Hout; apply Hout; by eapply list_elem_of_lookup_2).
    wp_step. apply (wp_mono _ (λ _, mock_next n) _ noexn); [destruct (mk_first_token_time sq); [done|by apply mock_clock_ok]| |done].
    intros t e1 He1. wp_step. split; [done|]. split_and!; [apply Forall_app_2; [done|by constructor]|done|by constructor]. }
  clearbody limit. intros [[generated' sq'] events] e1 (He1 & Hgen' & Hout' & Hev). cbn [fst snd] in *. wp_steps.
  assert (He2 : mock_next n (e1 <| mk_partial := dict_put i generated' (mk_partial e1) |> <| mk_active := dict_put i sq' (mk_active e1) |>)).
  { destruct He1 as [[Ha Hp He1] Hn]. split; [split|done]; [| |done].
    - intros k s [Hk|Hk]%elem_dict_put_inv; [by injection Hk as -> ->|by apply (Ha k)].
    - intros k l [Hk|Hk]%elem_dict_put_inv; [by injection Hk as -> ->|by apply (Hp k)]. }
  destruct (_ <? _); [by wp_step; split; [done|split; [done|constructor]]|]. wp_step.
  apply (wp_mono _ (λ _, mock_next n) _ noexn); [by apply mock_clock_ok| |done]. intros now e3 He3. wp_step.
  apply wp_of_option; [intros t _|done]. wp_steps. destruct He3 as [[Ha Hp He3] Hn]. split; [split; [split|done]|split; [done|by constructor]]; [| |done].
  - intros k s Hk%elem_del. by apply (Ha k).
  - intros k l Hk%elem_del. by apply (Hp k).
Qed.
Lemma mock_rounds_ok n l e : mock_next n e → (∀ i s, (i, s) ∈ l → chrs (mk_output_ids s)) →
  wp (mapM_M mock_step_one l)
    (λ rs e', mock_next n e' ∧ Forall (λ ev, is_chr ev.2 = true) (concat rs.*1) ∧ Forall (λ out, chrs out.2) (concat rs.*2)) (λ _, mock_next n) e.
Proof.
  revert e. induction l as [|[i s] l IH]; intros e He Hl; [split; [done|split; constructor]|]. cbn [mapM_M]. wp_step.
  eapply wp_mono; [apply (mock_step_one_ok n); [done|by apply (Hl i); left]| |done]. intros r e1 (He1 & H1 & H2). wp_step.
  eapply wp_mono; [apply IH; [done|intros j s' Hj; apply (Hl j); by right]| |done]. intros rs e2 (He2 & H3 & H4). wp_step.
  split; [done|split]; cbn; by apply Forall_app_2.
Qed.
Lemma mock_step_ok n e : mock_next n e → wp mock_step (λ r e', mock_next n e' ∧ Forall (λ out, chrs out.2) r.1) (λ _, mock_next n) e.
Proof.
  intros He. unfold mock_step. wp_steps. eapply wp_mono; [apply (mock_rounds_ok n); [done|]| |done].
  - intros i s. apply He.
  - intros rs e1 (He1 & H1 & H2). wp_steps. split; [|done]. destruct He1 as [[Ha Hp _] Hn]. by split.
Qed.
Lemma response_chrs : chrs (ord mock_response).
Proof. apply Forall_forall. apply (Forall_forall (λ c, is_chr c = true)). apply (bool_decide_unpack _). vm_compute. exact I. Qed.
Lemma mock_add_ok prompt sp q n e : mock_next n e → wp (mock_add_request prompt sp q) (λ i e', mock_next (S n) e' ∧ i = n) noexn e.
Proof.
  intros [[Ha Hp Hev] Hn]. unfold mock_add_request, mock_clock. wp_steps. split; [|done]. split; [split|cbn; by rewrite Hn]; try done.
  intros k s [Hk|Hk]%elem_dict_put_inv; [injection Hk as -> ->; apply response_chrs|by apply (Ha k)].
Qed.
Lemma mock_cancel_ok i n e : mock_next n e → wp (mock_cancel_request i) (λ _, mock_next n) noexn e.
Proof.
  intros [[Ha Hp Hev] Hn]. unfold mock_cancel_request. wp_steps. destruct (assoc i (mk_active e)); wp_steps; [|by split].
  split; [split|done]; [intros k s Hk%elem_del; by apply (Ha k)|intros k l Hk%elem_del; by apply (Hp k)|done].
Qed.
Lemma mock_advances {A} (m : MK A) : (∀ n e, mock_next n e → wp m (λ _ e', ∃ k, n <= k ∧ mock_next k e') (λ _, mock_next n) e) →
  advances mock_ok mk_ids m.
Proof.
  intros Hm e He. specialize (Hm (mk_ids e) e (conj He eq_refl)). unfold wp in Hm.
  destruct (m e) as [[x|a] e']; [cbn; destruct Hm as [? Hk]; rewrite Hk|destruct Hm as (k & Hk & ? & <-)]; by split.
Qed.
#[export, refine] Instance mock_lawful : LawfulServing MockEngine Json Json :=
  {| sound := mock_ok; next_id := mk_ids; token_ok := λ c, is_chr c = true |}.
Proof.
  - intros l sp q. apply mock_advances. intros n e He. eapply wp_mono; [by apply (mock_add_ok _ _ _ n)| |done].
    intros i e' [He' _]. exists (S n). split; [lia|done].
  - intros i. apply mock_advances. intros n e He. eapply wp_mono; [by apply (mock_cancel_ok _ n)|eauto|done].
  - apply mock_advances. intros n e He. eapply wp_mono; [by apply (mock_step_ok n)| |done]. intros r e' [He' _]. eauto.
  - apply mock_advances. intros n e [[Ha Hp _] Hn]. exists n. split; [done|]. split; [split|]; done.
  - apply mock_advances. intros n e He. by exists n.
  - apply mock_advances. intros n e [[Ha Hp Hev] Hn]. exists n. split; [done|]. split; [split|done]; try done. by intros i s ?%not_elem_of_nil.
  - intros l sp q e i e' He Ea. pose proof (mock_add_ok l sp q _ e (conj He eq_refl)) as Hw. unfold wp in Hw.
    cbn [se_add_request mock_serving] in Ea. rewrite Ea in Hw. destruct Hw as [[_ ->] ->]. lia.
  - intros e outputs n e' He Es. pose proof (mock_step_ok _ e (conj He eq_refl)) as Hw. unfold wp in Hw.
    cbn [se_step mock_serving] in Es. rewrite Es in Hw. apply Hw.
  - intros e events e' He [= <- <-]. apply He.
Defined.
#[export] Instance mock_decoding : DecodingServing MockEngine Json Json.
Proof. intros l. apply chrs_decode. Qed.
End mock.
