(* ===== verification/Protocol.v ===== *)
(** * The chat completion protocol

    Models [nanovllm/serve/protocol.py]: the request a client posts, the bounds its fields declare, which [pydantic]
    enforces in the order of the fields, and the validator of the options the server supports. *)
From S2P Require Import Prelude Json Qos Sequence StorageBackend Scheduler EngineWorker.
Set Default Goal Selector "!".
Local Open Scope Q_scope.

Record StreamOptions := mkStreamOptions { so_include_usage : bool }.
Inductive StopOption := StopText (s : string) | StopTexts (l : list string).
Record ChatCompletionRequest := mkChatCompletionRequest {
  cc_model : string;
  cc_messages : list ChatMessage;
  cc_temperature : Q;
  cc_top_p : Q;
  cc_max_tokens : option Z;
  cc_max_completion_tokens : option Z;
  cc_n : Z;
  cc_stop : option StopOption;
  cc_stream : bool;
  cc_stream_options : option StreamOptions;
  cc_priority : Z;
  cc_ttft_slo_ms : option Q;
  cc_tpot_slo_ms : option Q;
  cc_e2e_slo_ms : option Q;
  cc_request_class : string
}.
(** A request that only names its model and its messages *)
Definition default_request (model : string) (messages : list ChatMessage) : ChatCompletionRequest := {|
  cc_model := model; cc_messages := messages; cc_temperature := 1; cc_top_p := 1; cc_max_tokens := Some 128%Z;
  cc_max_completion_tokens := None; cc_n := 1; cc_stop := None; cc_stream := false; cc_stream_options := None;
  cc_priority := 0; cc_ttft_slo_ms := None; cc_tpot_slo_ms := None; cc_e2e_slo_ms := None; cc_request_class := "interactive" |}.

(** ** The bounds of the fields *)
Definition chat_message_ok (m : ChatMessage) : bool :=
  existsb (String.eqb (role m)) ["developer"; "system"; "user"; "assistant"] && negb (String.eqb (content m) "").
Definition at_least_1 (o : option Z) : bool := match o with Some n => (1 <=? n)%Z | None => true end.
Definition slo_positive (o : option Q) : bool := match o with Some x => Qlt_bool 0 x | None => true end.
(** The fields with a bound, and whether it holds *)
Definition field_bounds (r : ChatCompletionRequest) : list (string * bool) := [
  ("messages", negb (bool_decide (cc_messages r = [])) && forallb chat_message_ok (cc_messages r));
  ("temperature", Qlt_bool (1 # 10000000000) (cc_temperature r));
  ("top_p", Qlt_bool 0 (cc_top_p r) && Qle_bool (cc_top_p r) 1);
  ("max_tokens", at_least_1 (cc_max_tokens r));
  ("max_completion_tokens", at_least_1 (cc_max_completion_tokens r));
  ("n", (1 <=? cc_n r)%Z);
  ("priority", (0 <=? cc_priority r)%Z);
  ("ttft_slo_ms", slo_positive (cc_ttft_slo_ms r));
  ("tpot_slo_ms", slo_positive (cc_tpot_slo_ms r));
  ("e2e_slo_ms", slo_positive (cc_e2e_slo_ms r));
  ("request_class", negb (String.eqb (cc_request_class r) ""))].
Definition field_errors (r : ChatCompletionRequest) : list string := (filter (λ kv, kv.2 = false) (field_bounds r)).*1.

(** [validate_supported_options] *)
Definition validate_supported_options (r : ChatCompletionRequest) : result ChatCompletionRequest :=
  throw_if (negb (cc_n r =? 1)%Z) (ValueError "nano-vLLM currently supports n=1 only");;
  throw_if (negb (Qeq_bool (cc_top_p r) 1)) (ValueError "nano-vLLM currently supports top_p=1 only");;
  throw_if (bool_decide (is_Some (cc_stop r))) (ValueError "nano-vLLM does not currently support stop sequences");;
  mret r.
(** A validation error: where ([loc] after ["body"]), and what went wrong when the message is the code's own. *)
Record ValidationError := mkValidationError { ve_loc : list string; ve_msg : option string }.
(** Validation of a parsed body: the errors of the fields, and if there are none the validator of the model *)
Definition chat_completion_request (r : ChatCompletionRequest) : ValidationError + ChatCompletionRequest :=
  match field_errors r with
  | f :: _ => inl (mkValidationError [f] None)
  | [] => match validate_supported_options r with
          | inl e => inl (mkValidationError [] (Some ("Value error, " +:+ exn_message e)))
          | inr r => inr r
          end
  end.

(** ** Properties of a request *)
(** [a or b] for an optional integer *)
Definition int_or (a b : option Z) : option Z := match a with Some n => if (n =? 0)%Z then b else a | None => b end.
Definition output_limit (r : ChatCompletionRequest) : Z :=
  default 128%Z (int_or (int_or (cc_max_completion_tokens r) (cc_max_tokens r)) (Some 128%Z)).
Definition include_usage (r : ChatCompletionRequest) : bool :=
  match cc_stream_options r with Some o => so_include_usage o | None => false end.

(** ** What validation guarantees *)
Lemma field_errors_nil r : field_errors r = [] → Forall (λ kv, kv.2 = true) (field_bounds r).
Proof.
  unfold field_errors. generalize (field_bounds r) as l. clear. induction l as [|[k b] l IH]; [constructor|].
  rewrite filter_cons. case_decide as Hb; [done|]. cbn in Hb. intros Hl. constructor; [by destruct b|by apply IH].
Qed.
Lemma chat_completion_request_valid r v : chat_completion_request r = inr v →
  v = r ∧ Forall (λ kv, kv.2 = true) (field_bounds r) ∧ cc_n r = 1%Z ∧ cc_top_p r == 1 ∧ cc_stop r = None.
Proof.
  unfold chat_completion_request. destruct (field_errors r) eqn:Ef; [|done]. apply field_errors_nil in Ef.
  unfold validate_supported_options. destruct (cc_n r =? 1)%Z eqn:En; [|done]. destruct (Qeq_bool (cc_top_p r) 1) eqn:Ep; [|done].
  destruct (cc_stop r); [done|]. cbn. intros [= <-]. apply Z.eqb_eq in En. by apply Qeq_bool_iff in Ep.
Qed.
Lemma output_limit_positive r : Forall (λ kv, kv.2 = true) (field_bounds r) → (1 <= output_limit r)%Z.
Proof.
  intros HF. assert (H1 : at_least_1 (cc_max_tokens r) = true) by (apply (proj1 (Forall_forall _ _) HF ("max_tokens", _)); set_solver).
  assert (H2 : at_least_1 (cc_max_completion_tokens r) = true) by (apply (proj1 (Forall_forall _ _) HF ("max_completion_tokens", _)); set_solver).
  unfold output_limit. generalize dependent (cc_max_tokens r). generalize dependent (cc_max_completion_tokens r). clear. intros b Hb a Ha.
  destruct b as [n|], a as [m|]; cbn in *; breflect; repeat (case_match; breflect; cbn; try lia). done.
Qed.
