(* ===== verification/HttpApp.v ===== *)
(** * The HTTP application

    Models the handlers of [create_app] in [nanovllm/serve/app.py]: what a request is answered, and what it does to the
    engine worker. FastAPI routes a request to its handler, runs [authenticate] first, and sends the response; the
    request's id and the times are arguments, and an asynchronous generator is the list of what it yields. *)
From S2P Require Import Prelude Json Qos Sequence StorageBackend Scheduler EngineWorker Protocol.
Set Default Goal Selector "!".
Set Default Proof Using "Type".

(** ** Payloads *)
Definition opt_str (o : option string) : Json := match o with Some s => JStr s | None => JNull end.
(** [_error] *)
Definition error_json (message error_type : string) (param code : option string) : Json :=
  JObj [("error", JObj [("message", JStr message); ("type", JStr error_type); ("param", opt_str param); ("code", opt_str code)])].
Definition invalid_request : string := "invalid_request_error".
(** [_usage] *)
Definition usage_json (prompt_tokens : nat) (token_ids : list Z) : Json :=
  let completion_tokens := length token_ids in
  JObj [("prompt_tokens", JInt (Z.of_nat prompt_tokens)); ("completion_tokens", JInt (Z.of_nat completion_tokens));
        ("total_tokens", JInt (Z.of_nat (prompt_tokens + completion_tokens)))].

(** ** Server-sent events *)
Inductive SsePayload := Payload (v : Json) | Done.
Section sse.
Context `{FloatRepr}.
(** [json.dumps] with [ensure_ascii=False]: only the quote, the backslash and control characters are escaped. *)
Definition escape_control (c : Z) : text :=
  if (c =? 34)%Z then [92; 34]%Z
  else if (c =? 92)%Z then [92; 92]%Z
  else if (c =? 10)%Z then [92; 110]%Z
  else if (c =? 13)%Z then [92; 114]%Z
  else if (c =? 9)%Z then [92; 116]%Z
  else if (c =? 8)%Z then [92; 98]%Z
  else if (c =? 12)%Z then [92; 102]%Z
  else if (c <? 32)%Z then ([92; 117] ++ hex4 c)%Z
  else [c].
Definition quote_utf8 (s : string) : text := ([34] ++ concat (escape_control <$> bytes_of s) ++ [34])%Z.
Fixpoint dumps_utf8 (v : Json) : text :=
  match v with
  | JNull => bytes_of "null"
  | JBool b => if b then bytes_of "true" else bytes_of "false"
  | JInt z => py_str_int z
  | JFloat f => render_float f
  | JStr s => quote_utf8 s
  | JList l => [91%Z] ++ join [44; 32]%Z (map dumps_utf8 l) ++ [93%Z]
  | JObj fs => [123%Z] ++ join [44; 32]%Z (map (λ kv, quote_utf8 kv.1 ++ [58; 32]%Z ++ dumps_utf8 kv.2) fs) ++ [125%Z]
  end.
Definition sse_data (p : SsePayload) : text := match p with Payload v => dumps_utf8 v | Done => bytes_of "[DONE]" end.
(** [_sse] *)
Definition sse (p : SsePayload) : text := bytes_of "data: " ++ sse_data p ++ [10; 10]%Z.
End sse.

(** ** Responses *)
Inductive Body := JsonBody (v : Json) | EventStream (l : list SsePayload) | StaticFile (name : string).
Record Response := mkResponse { rs_status : Z; rs_headers : list (string * string); rs_body : Body }.
(** What a handler raises: [HTTPException], or anything else, which the framework answers with status 500. *)
Inductive HttpError := HTTPException (status : Z) (detail : Json) | Unhandled (e : exn).
Definition json_response (status : Z) (v : Json) : Response := mkResponse status [] (JsonBody v).
(** [http_error_handler]; [str] renders a detail that is no error object. *)
Definition http_error_handler (str : Json → string) (status : Z) (detail : Json) : Response :=
  json_response status
    match detail with
    | JObj fields => if dict_get "error" fields then detail else error_json (str detail) invalid_request None None
    | _ => error_json (str detail) invalid_request None None
    end.
(** [validation_error_handler], of the first error: its message and its location *)
Definition validation_error_handler (msg : option string) (loc : list string) : Response :=
  let param := String.concat "." (tail loc) in
  json_response 422 (error_json (default "invalid request" msg) invalid_request (if String.eqb param "" then None else Some param) None).

Section app.
Context {E Met SM : Type} `{ServingEngine E Met SM}.
Abbreviation Worker := (InferenceWorker E Met SM).
Abbreviation Event := (GenerationEvent Met).
Context (served_model backend_name : string) (api_key : option string).
(** The fields of [get_scheduler_metrics] and of a request's metrics *)
Context (scheduler_fields : SM → list (string * Json)) (metrics_json : option Met → Json).

(** [authenticate]: the answer that keeps a request from its handler, if any *)
Definition authenticate (path : string) (authorization : option string) : option Response :=
  match api_key with
  | Some key =>
      if negb (String.eqb key "") && String.prefix "/v1/" path && negb (bool_decide (authorization = Some ("Bearer " +:+ key)))
      then Some (json_response 401 (error_json "Incorrect API key provided" "authentication_error" None (Some "invalid_api_key")))
      else None
  | None => None
  end.

(** ** The small handlers *)
Definition index : Response := mkResponse 200 [] (StaticFile "index.html").
Definition health (alive : bool) : Json :=
  JObj [("status", JStr (if alive then "ok" else "unavailable")); ("model", JStr served_model); ("backend", JStr backend_name)].
Definition models (now : Z) : Json :=
  JObj [("object", JStr "list"); ("data", JList [JObj [("id", JStr served_model); ("object", JStr "model"); ("created", JInt now);
    ("owned_by", JStr "nano-vllm")]])].
(** [worker.metrics()] *)
Definition metrics_fields (alive : bool) (w : Worker) : list (string * Json) :=
  let '(sm, active_count, queued) := worker_metrics w in
  let snapshot := dict_set "serving_active_requests" (JInt (Z.of_nat active_count))
    (dict_set "served_model" (JStr served_model) (dict_set "backend" (JStr backend_name) (match sm with Some sm => scheduler_fields sm | None => [] end))) in
  dict_set "worker_alive" (JBool alive) (dict_set "serving_queued_requests" (JInt (Z.of_nat queued)) snapshot).
Definition metrics (alive : bool) (w : Worker) : Json := JObj (metrics_fields alive w).
(** [worker.metrics().get("max_model_len")]: both engines report an integer. *)
Definition reported_max_model_len (alive : bool) (w : Worker) : option Z :=
  match dict_get "max_model_len" (metrics_fields alive w) with Some (JInt n) => Some n | _ => None end.

(** ** [submit] *)
Definition model_not_found (model : string) : HttpError :=
  HTTPException 404 (error_json ("The model '" +:+ model +:+ "' does not exist") invalid_request (Some "model") (Some "model_not_found")).
Definition limit_exceeded (max_model_len : Z) : HttpError :=
  HTTPException 400 (error_json ("max_tokens must not exceed max_model_len (" +:+ str_int max_model_len +:+ ")") invalid_request
    (Some "max_tokens") (Some "context_length_exceeded")).
Definition submit_request (payload : ChatCompletionRequest) : result ClientAction :=
  sp ← sampling_params (mkSamplingParams (cc_temperature payload) (Z.to_nat (output_limit payload)) false);
  qos ← request_qos (mkRequestQoS (cc_priority payload) (cc_ttft_slo_ms payload) (cc_tpot_slo_ms payload) (cc_e2e_slo_ms payload)
    (cc_request_class payload));
  mret (Submit (cc_messages payload) sp qos (cc_stream payload)).
(** What the request puts in the worker's queue; [alive] is [worker.is_alive]. *)
Definition submit (payload : ChatCompletionRequest) (alive : bool) (w : Worker) : HttpError + ClientAction :=
  if negb (String.eqb (cc_model payload) served_model) then inl (model_not_found (cc_model payload))
  else
    let queue := match submit_request payload with
                 | inl e => inl (Unhandled e)
                 | inr action => if alive then inr action else inl (Unhandled (RuntimeError "nano-vLLM inference worker is not running"))
                 end in
    match reported_max_model_len alive w with
    | Some max_model_len => if (max_model_len <? output_limit payload)%Z then inl (limit_exceeded max_model_len) else queue
    | None => queue
    end.

(** ** The streaming answer *)
Section completion.
Context (request_id : string) (created : Z) (payload : ChatCompletionRequest).
Definition chunk (choices : list Json) (more : list (string * Json)) : SsePayload :=
  Payload (JObj ([("id", JStr request_id); ("object", JStr "chat.completion.chunk"); ("created", JInt created);
    ("model", JStr served_model); ("choices", JList choices)] ++ more)).
Definition choice (delta : list (string * Json)) (finish_reason : Json) : Json :=
  JObj [("index", JInt 0); ("delta", JObj delta); ("finish_reason", finish_reason)].
Definition role_chunk : SsePayload := chunk [choice [("role", JStr "assistant"); ("content", JStr "")] JNull] [].
Definition content_chunk (s : string) : SsePayload := chunk [choice [("content", JStr s)] JNull] [].
Definition finish_chunk (finish_reason : string) (m : option Met) : SsePayload :=
  chunk [choice [] (JStr finish_reason)] [("x_nanovllm_metrics", metrics_json m)].
Definition usage_chunk (prompt_tokens : nat) (token_ids : list Z) : SsePayload := chunk [] [("usage", usage_json prompt_tokens token_ids)].

(** Where the generator is: it has returned, completed or not, or it waits for the next event. *)
Inductive StreamEnd := Completed | Returned | Waiting.
(** The loop of [stream_events], over the events of the handle *)
Fixpoint stream_loop (events : list Event) : list SsePayload * StreamEnd :=
  match events with
  | [] => ([], Waiting)
  | TextDelta s :: events => let '(l, e) := stream_loop events in (content_chunk s :: l, e)
  | GenerationFinished _ token_ids prompt_tokens finish_reason m :: _ =>
      ([finish_chunk finish_reason m] ++ (if include_usage payload then [usage_chunk prompt_tokens token_ids] else []) ++ [Done], Completed)
  | GenerationFailed message :: _ => ([Payload (error_json message "server_error" None None); Done], Returned)
  | GenerationCancelled :: _ => ([], Returned)
  end.
Definition stream_events (events : list Event) : list SsePayload * StreamEnd :=
  let '(l, e) := stream_loop events in (role_chunk :: l, e).
(** The position of the finish chunk, from which on [completed] is set *)
Definition completes_at (events : list Event) : option nat :=
  match last events with
  | Some (GenerationFinished _ _ _ _ _) => Some (length events)
  | _ => None
  end.
(** The [finally] of a generator closed after [taken] chunks: does it cancel the handle? One that was never started does not. *)
Definition stream_closed_cancels (events : list Event) (taken : nat) : bool :=
  (0 <? taken) && match completes_at events with Some k => taken <=? k | None => true end.
Definition stream_response (events : list Event) : Response :=
  mkResponse 200 [("Cache-Control", "no-cache"); ("X-Accel-Buffering", "no"); ("X-Request-Id", request_id)] (EventStream (stream_events events).1).

(** ** The answer in one piece *)
Definition completion_json (s : string) (token_ids : list Z) (prompt_tokens : nat) (finish_reason : string) (m : option Met) : Json :=
  JObj [("id", JStr request_id); ("object", JStr "chat.completion"); ("created", JInt created); ("model", JStr served_model);
    ("choices", JList [JObj [("index", JInt 0); ("message", JObj [("role", JStr "assistant"); ("content", JStr s)]);
       ("finish_reason", JStr finish_reason)]]);
    ("usage", usage_json prompt_tokens token_ids); ("x_nanovllm_metrics", metrics_json m)].
(** One round of the loop: the client has gone, the wait of a quarter of a second ends without an event, or an event comes. *)
Inductive Poll := Disconnected | TimedOut | Received (ev : Event).
(** The answer, and whether the handle is cancelled; [None] while the loop goes on. *)
Fixpoint completion_loop (polls : list Poll) : option ((HttpError + Response) * bool) :=
  match polls with
  | [] => None
  | Disconnected :: _ => Some (inl (HTTPException 499 (error_json "Client disconnected" invalid_request None None)), true)
  | TimedOut :: polls | Received (TextDelta _) :: polls => completion_loop polls
  | Received (GenerationFinished s token_ids prompt_tokens finish_reason m) :: _ =>
      Some (inr (mkResponse 200 [("X-Request-Id", request_id)] (JsonBody (completion_json s token_ids prompt_tokens finish_reason m))), false)
  | Received (GenerationFailed message) :: _ => Some (inl (HTTPException 500 (error_json message "server_error" None None)), true)
  | Received GenerationCancelled :: _ => Some (inl (HTTPException 499 (error_json "Generation cancelled" invalid_request None None)), true)
  end.
End completion.
End app.
