(* ===== verification/HttpAppSpec.v ===== *)
(** * The HTTP application: what a client sees

    A request that passes validation is accepted by the engine's own checks; the frames of an event stream can be told
    apart whatever the text in them; and a stream ends, after the text of the request. *)
From S2P Require Import Prelude Json Qos Sequence StorageBackend Scheduler EngineWorker EngineWorkerSpec EngineWorkerStop Protocol HttpApp.
Set Default Goal Selector "!".
Set Default Proof Using "Type".

(** ** Framing *)
(** A client's parser: the frames that end in an empty line *)
Fixpoint sse_frames (acc : text) (t : text) : list text :=
  match t with
  | [] => []
  | c :: t' =>
      match (c =? 10)%Z, t' with
      | true, d :: t'' => if (d =? 10)%Z then acc :: sse_frames [] t'' else sse_frames (acc ++ [c]) t'
      | _, _ => sse_frames (acc ++ [c]) t'
      end
  end.
Definition one_line (t : text) : Prop := Forall (λ c, c ≠ 10%Z) t.
Lemma sse_frames_line acc l rest : one_line l → sse_frames acc (l ++ 10%Z :: 10%Z :: rest) = (acc ++ l) :: sse_frames [] rest.
Proof.
  revert acc. induction l as [|c l IH]; intros acc Hl; [cbn; by rewrite app_nil_r|]. apply Forall_cons in Hl as [Hc Hl].
  cbn [app sse_frames]. rewrite (proj2 (Z.eqb_neq c 10)) by done. rewrite IH by done. by rewrite <-app_assoc.
Qed.
Lemma one_line_app l1 l2 : one_line l1 → one_line l2 → one_line (l1 ++ l2).
Proof. apply Forall_app_2. Qed.
Lemma one_line_join sep l : one_line sep → Forall one_line l → one_line (join sep l).
Proof.
  intros Hs. induction l as [|x l IH]; intros Hl; [constructor|]. apply Forall_cons in Hl as [Hx Hl].
  destruct l as [|y l]; [done|]. change (one_line (x ++ sep ++ join sep (y :: l))). by repeat apply one_line_app; auto.
Qed.
Lemma one_line_escape c : one_line (escape_control c).
Proof.
  assert (Hh : ∀ d, hex_digit (d mod 16) ≠ 10%Z).
  { intros d. unfold hex_digit. pose proof (Z.mod_pos_bound d 16). destruct (_ <? _)%Z; lia. }
  unfold escape_control, hex4. repeat match goal with |- one_line (if ?b then _ else _) => destruct b eqn:? end; breflect;
    repeat (constructor; try done; try apply Hh).
Qed.
Lemma one_line_quote s : one_line (quote_utf8 s).
Proof.
  unfold quote_utf8. apply one_line_app; [by repeat constructor|]. apply one_line_app; [|by repeat constructor].
  induction (bytes_of s) as [|c l IH]; [constructor|]. cbn. apply one_line_app; [apply one_line_escape|done].
Qed.
Lemma one_line_int z : one_line (py_str_int z).
Proof.
  assert (Hd : ∀ n, (0 <= n)%Z → one_line (dec n)).
  { intros n Hn. destruct (dec_spec n Hn) as (ds & -> & Hds & _). apply Forall_fmap. eapply Forall_impl; [exact Hds|]. cbn. lia. }
  unfold py_str_int. destruct (z <? 0)%Z eqn:E; breflect; [constructor; [lia|]|]; apply Hd; lia.
Qed.
Lemma one_line_ascii s : one_line (bytes_of s) ↔ forallb (λ c, negb (c =? 10)%Z) (bytes_of s) = true.
Proof.
  unfold one_line. rewrite forallb_forall, Forall_forall. split; intros Hl c Hc.
  - apply negb_true_iff, Z.eqb_neq, Hl. by apply list_elem_of_In.
  - apply Z.eqb_neq, negb_true_iff, Hl. by apply list_elem_of_In.
Qed.

Section framing.
Context `{FloatRepr} (float_line : ∀ q, one_line (float_repr q)).
Lemma one_line_dumps v : one_line (dumps_utf8 v).
Proof using float_line.
  induction v using Json_nested_ind; cbn [dumps_utf8].
  - by apply one_line_ascii.
  - destruct b; by apply one_line_ascii.
  - apply one_line_int.
  - destruct f as [q|[]|]; [apply float_line|by apply one_line_ascii..].
  - apply one_line_quote.
  - apply one_line_app; [by repeat constructor|]. apply one_line_app; [|by repeat constructor]. apply one_line_join; [by repeat constructor|].
    by apply Forall_fmap.
  - apply one_line_app; [by repeat constructor|]. apply one_line_app; [|by repeat constructor]. apply one_line_join; [by repeat constructor|].
    apply Forall_fmap. eapply Forall_impl; [done|]. intros kv Hkv. apply one_line_app; [apply one_line_quote|]. apply one_line_app; [by repeat constructor|done].
Qed.
(** C30: a client that splits the stream at empty lines gets one frame for each payload sent, whatever the texts contain. *)
Theorem sse_round_trip (ps : list SsePayload) : sse_frames [] (concat (sse <$> ps)) = (λ p, bytes_of "data: " ++ sse_data p) <$> ps.
Proof using float_line.
  induction ps as [|p ps IH]; [done|]. rewrite !fmap_cons. cbn [concat]. unfold sse at 1.
  replace ((bytes_of "data: " ++ sse_data p ++ [10; 10]%Z) ++ concat (sse <$> ps))
    with ((bytes_of "data: " ++ sse_data p) ++ 10%Z :: 10%Z :: concat (sse <$> ps)) by by rewrite <-!app_assoc.
  rewrite sse_frames_line, IH; [done|]. apply one_line_app; [by apply one_line_ascii|].
  destruct p; [apply one_line_dumps|by apply one_line_ascii].
Qed.
End framing.

Section app.
Context {E Met SM : Type} `{HS : ServingEngine E Met SM}.
Abbreviation Worker := (InferenceWorker E Met SM).
Abbreviation Event := (GenerationEvent Met).
Context (served_model backend_name : string) (scheduler_fields : SM → list (string * Json)) (metrics_json : option Met → Json).
Implicit Types (w : Worker).
Abbreviation reported := (reported_max_model_len served_model backend_name scheduler_fields).
Abbreviation submit := (HttpApp.submit served_model backend_name scheduler_fields).

(** ** Admission *)
Lemma in_bounds payload f b : Forall (λ kv, kv.2 = true) (field_bounds payload) → (f, b) ∈ field_bounds payload → b = true.
Proof. clear. intros HF Hin. apply (proj1 (Forall_forall _ _) HF (f, b) Hin). Qed.
Lemma slo_accepted o : slo_positive o = true → slo_nonpositive o = false.
Proof. clear. destruct o as [x|]; [|done]. cbn. unfold Qlt_bool. by intros ?%negb_true_iff. Qed.
(** C29: the engine's own checks refuse no request that passed validation: it is submitted with parameters they accept, or
    refused for its model, its length, or a worker that is gone. *)
Theorem validated_request_submits payload v alive w : chat_completion_request payload = inr v →
  match submit payload alive w with
  | inr (Submit messages sp qos stream) =>
      messages = cc_messages payload ∧ stream = cc_stream payload ∧ sampling_params sp = inr sp ∧ request_qos qos = inr qos ∧ 1 <= sp_max_tokens sp ∧
      ∀ n, reported alive w = Some n → (Z.of_nat (sp_max_tokens sp) <= n)%Z
  | inr _ => False
  | inl (HTTPException status _) =>
      status = 404%Z ∧ cc_model payload ≠ served_model ∨ status = 400%Z ∧ ∃ n, reported alive w = Some n ∧ (n < output_limit payload)%Z
  | inl (Unhandled _) => alive = false
  end.
Proof.
  intros Hv. apply chat_completion_request_valid in Hv as (_ & HF & _). pose proof (output_limit_positive _ HF) as Hl.
  unfold HttpApp.submit. destruct (String.eqb_spec (cc_model payload) served_model) as [Hm|Hm]; cbn [negb]; [|by left]. cbv zeta.
  assert (Hs : ∃ sp qos, submit_request payload = inr (Submit (cc_messages payload) sp qos (cc_stream payload)) ∧ sampling_params sp = inr sp ∧
    request_qos qos = inr qos ∧ Z.of_nat (sp_max_tokens sp) = output_limit payload).
  { set (sp := mkSamplingParams (cc_temperature payload) (Z.to_nat (output_limit payload)) false).
    set (qos := mkRequestQoS (cc_priority payload) (cc_ttft_slo_ms payload) (cc_tpot_slo_ms payload) (cc_e2e_slo_ms payload) (cc_request_class payload)).
    assert (H1 : sampling_params sp = inr sp).
    { apply throw_if_bind; [|done]. apply negb_false_iff. eapply (in_bounds payload "temperature"); [done|]. set_solver. }
    assert (H2 : request_qos qos = inr qos).
    { unfold request_qos, qos. cbn [priority ttft_slo_ms tpot_slo_ms e2e_slo_ms request_class].
      apply throw_if_bind; [apply Z.ltb_ge, Z.leb_le; eapply (in_bounds payload "priority"); [done|set_solver]|].
      apply throw_if_bind; [apply slo_accepted; eapply (in_bounds payload "ttft_slo_ms"); [done|set_solver]|].
      apply throw_if_bind; [apply slo_accepted; eapply (in_bounds payload "tpot_slo_ms"); [done|set_solver]|].
      apply throw_if_bind; [apply slo_accepted; eapply (in_bounds payload "e2e_slo_ms"); [done|set_solver]|].
      apply throw_if_bind; [apply negb_true_iff; eapply (in_bounds payload "request_class"); [done|set_solver]|done]. }
    exists sp, qos. split_and!; [|done|done|cbn; lia]. unfold submit_request. fold sp qos. rewrite H1. cbn [mbind result_bind]. by rewrite H2. }
  destruct Hs as (sp & qos & -> & Hsp & Hq & Hn). destruct (reported alive w) as [n|] eqn:Er.
  - destruct (n <? output_limit payload)%Z eqn:En; breflect; [right; eauto|]. destruct alive; [|done].
    split_and!; [done..|lia|]. intros n' [= <-]. lia.
  - destruct alive; [|done]. split_and!; [done..|lia|done].
Qed.

(** ** The event stream *)
(** What a client reads in a chunk: [choices[0].delta.content] *)
Definition chunk_content (p : SsePayload) : string :=
  match p with
  | Payload (JObj fs) =>
      match dict_get "choices" fs with
      | Some (JList (JObj c :: _)) =>
          match dict_get "delta" c with
          | Some (JObj d) => match dict_get "content" d with Some (JStr s) => s | _ => "" end
          | _ => ""
          end
      | _ => ""
      end
  | _ => ""
  end.
Definition client_text (l : list SsePayload) : string := sconcat (chunk_content <$> l).
Section stream.
Context (request_id : string) (created : Z) (payload : ChatCompletionRequest).
Abbreviation stream_loop := (HttpApp.stream_loop served_model metrics_json request_id created payload).
Abbreviation stream_events := (HttpApp.stream_events served_model metrics_json request_id created payload).
Abbreviation finish_chunk := (HttpApp.finish_chunk served_model metrics_json request_id created).
Abbreviation content_chunk := (HttpApp.content_chunk served_model request_id created).
Abbreviation role_chunk := (HttpApp.role_chunk served_model request_id created).

Lemma sconcat_app l1 l2 : sconcat (l1 ++ l2) = sconcat l1 +:+ sconcat l2.
Proof.
  clear. induction l1 as [|s l IH]; [done|]. change (s +:+ sconcat (l ++ l2) = (s +:+ sconcat l) +:+ sconcat l2). rewrite IH.
  induction s as [|a s IHs]; [done|]. change (String a (s +:+ (sconcat l +:+ sconcat l2)) = String a ((s +:+ sconcat l) +:+ sconcat l2)). by rewrite IHs.
Qed.
Lemma stream_loop_deltas ds evs : stream_loop ((TextDelta <$> ds) ++ evs) = ((content_chunk <$> ds) ++ (stream_loop evs).1, (stream_loop evs).2).
Proof.
  clear scheduler_fields backend_name. induction ds as [|d ds IH]; [apply surjective_pairing|]. rewrite !fmap_cons. cbn [app HttpApp.stream_loop]. by rewrite IH.
Qed.
Lemma client_text_deltas ds : sconcat (chunk_content <$> (content_chunk <$> ds)) = sconcat ds.
Proof.
  clear scheduler_fields backend_name. rewrite <-list_fmap_compose. f_equal. induction ds as [|d ds IH]; [done|]. rewrite fmap_cons, IH. done.
Qed.
Lemma client_text_stream ds t : terminal t →
  client_text (stream_events ((TextDelta <$> ds) ++ [t])).1 = sconcat ds ∧
  (stream_events ((TextDelta <$> ds) ++ [t])).2 = match t with GenerationFinished _ _ _ _ _ => Completed | _ => Returned end ∧
  match t with GenerationCancelled => True | _ => last (stream_events ((TextDelta <$> ds) ++ [t])).1 = Some Done end.
Proof.
  intros Ht. unfold HttpApp.stream_events. rewrite stream_loop_deltas. cbn [fst snd]. clear scheduler_fields backend_name. split_and!.
  - unfold client_text. rewrite fmap_cons. change (chunk_content role_chunk) with "". change (sconcat ("" :: ?l)) with (sconcat l).
    rewrite fmap_app, sconcat_app, client_text_deltas.
    assert (He : sconcat (chunk_content <$> (stream_loop [t]).1) = "") by (destruct t; [done| |done..]; cbn; by destruct (include_usage payload)).
    by rewrite He, string_app_nil.
  - by destruct t.
  - rewrite last_cons, last_app. destruct t; [done| |done..]. cbn. by destruct (include_usage payload).
Qed.

Lemma not_finish_sent reason m ds : finish_chunk reason m ∉ role_chunk :: (content_chunk <$> ds).
Proof.
  clear scheduler_fields backend_name. intros [Hr|Hr]%elem_of_cons; [by injection Hr|]. by apply list_elem_of_fmap in Hr as (d & [=] & _).
Qed.
(** Closing a stream that has started cancels the request, unless the client has already got its finish chunk. *)
Theorem closed_stream_cancels ds last_event taken : (∀ t, last_event = Some t → terminal t) →
  let events := (TextDelta <$> ds) ++ option_list last_event in
  stream_closed_cancels events taken = true ↔
    0 < taken ∧ ∀ reason m, finish_chunk reason m ∉ take taken (stream_events events).1.
Proof.
  intros Hlast events. unfold stream_closed_cancels. rewrite andb_true_iff, Nat.ltb_lt. apply and_iff_compat_l.
  assert (Hsent : (stream_events events).1 = (role_chunk :: (content_chunk <$> ds)) ++ (stream_loop (option_list last_event)).1).
  { unfold HttpApp.stream_events, events. by rewrite stream_loop_deltas. }
  rewrite Hsent. clear scheduler_fields backend_name. set (sent := role_chunk :: (content_chunk <$> ds)).
  assert (Hlen : length sent = S (length ds)) by (unfold sent; cbn; by rewrite length_fmap).
  assert (Hd : (∃ text ids n reason m, last_event = Some (GenerationFinished text ids n reason m)) ∨
    ¬ ∃ text ids n reason m, last_event = Some (GenerationFinished text ids n reason m)).
  { destruct last_event as [[|text ids n reason m|msg|]|]; [right|left; by repeat eexists|right..]; by intros (? & ? & ? & ? & ? & [=]). }
  destruct Hd as [(text & ids & n & reason & m & ->)|Hno].
  - assert (Hc : completes_at events = Some (S (length ds))).
    { unfold completes_at. change events with ((TextDelta <$> ds) ++ [GenerationFinished text ids n reason m]). rewrite last_snoc, length_app, length_fmap. cbn. f_equal. lia. }
    rewrite Hc, Nat.leb_le. split.
    + intros Hle r' m' Hin. rewrite take_app_le in Hin by lia. apply (not_finish_sent r' m' ds). by apply elem_of_take in Hin as (? & ? & _); eapply list_elem_of_lookup_2.
    + intros Hno. apply Nat.nlt_ge. intros Hlt. apply (Hno reason m). rewrite take_app_ge by lia. apply elem_of_app. right.
      rewrite Hlen. destruct (taken - S (length ds)) as [|k] eqn:Ek; [lia|]. by left.
  - assert (Hc : completes_at events = None).
    { unfold completes_at, events. destruct last_event as [t|].
      - change (option_list (Some t)) with [t]. rewrite last_snoc. specialize (Hlast t eq_refl). destruct t; try done. destruct Hno. by repeat eexists.
      - change (option_list None) with (@nil Event). rewrite app_nil_r. destruct ds as [|d ds _] using rev_ind; [done|]. rewrite fmap_app. change (TextDelta <$> [d]) with [TextDelta (Met := Met) d]. by rewrite last_snoc. }
    rewrite Hc. split; [intros _ r' m' Hin|done]. apply elem_of_take in Hin as (k & Hk & _). apply list_elem_of_lookup_2, elem_of_app in Hk as [Hk|Hk].
    + by apply (not_finish_sent r' m' ds).
    + destruct last_event as [t|]; cbn in Hk; [|by apply not_elem_of_nil in Hk]. specialize (Hlast t eq_refl).
      destruct t as [|? ? ? ? ?|msg|]; try done; [by destruct Hno; repeat eexists| |by apply not_elem_of_nil in Hk].
      cbn in Hk. apply elem_of_cons in Hk as [[=]|[[=]|Hk%not_elem_of_nil]%elem_of_cons]; done.
Qed.

(** ** The answer in one piece *)
Abbreviation completion_loop := (HttpApp.completion_loop served_model metrics_json request_id created).
(** Without a stream, a request behind a worker whose engine decodes what it samples is answered after any number of time-outs: with
    its text, or with an error status and a cancelled handle. *)
Theorem completion_ends `{!LawfulServing E Met SM, !DecodingServing E Met SM} outside e w0 rounds reads waits : sound e → worker_start (inr e) = inr w0 →
  let w := (worker_run outside rounds reads w0).2 in
  ∀ h hd, w_handles w !! h = Some hd → h ∉ queued_handles w → h_stream hd = false →
    match completion_loop (replicate waits TimedOut ++ (Received <$> h_events hd)) with
    | Some (inr resp, cancelled) => cancelled = false ∧ rs_status resp = 200%Z ∧
        ∃ text ids n reason m, h_events hd = [GenerationFinished text ids n reason m] ∧
          rs_body resp = JsonBody (completion_json served_model metrics_json request_id created text ids n reason m)
    | Some (inl (HTTPException status _), cancelled) => cancelled = true ∧ (status = 499%Z ∧ h_events hd = [GenerationCancelled] ∨
        status = 500%Z ∧ ∃ message, h_events hd = [GenerationFailed message])
    | _ => False
    end.
Proof.
  intros He Hw w h hd Hl Hq Hst. destruct (worker_run_inv outside e w0 rounds reads He Hw) as [HI Ha]. fold w in HI, Ha.
  destruct (decoding_settled _ _ (inv_answered w HI Ha h hd Hq Hl)) as (ds & t & Hev & Ht & Hd & _). rewrite (Hd Hst) in Hev. cbn in Hev. rewrite Hev.
  assert (Hskip : ∀ evs, completion_loop (replicate waits TimedOut ++ evs) = completion_loop evs) by (intros evs; by induction waits).
  rewrite Hskip. destruct t as [|text ids n reason m|msg|]; [done|..]; cbn; split_and!; try done; [by repeat eexists|right; eauto|by left].
Qed.
End stream.
End app.
