(* ===== verification/ServeMain.v ===== *)
(** * The server's command line

    Models [nanovllm/serve/__main__.py]: the arguments, [main]'s checks of them, and the engine configuration it builds
    from them. [argparse] enforces the choices, and gives the defaults, that [parse_args] declares; the web server is not
    modelled. *)
From S2P Require Import Prelude Json Qos Sequence Policy KvPolicy RadixCache BlockManager StorageBackend SchedulerTrace Scheduler Config.
Set Default Goal Selector "!".
Set Default Proof Using "Type".

(** ** The arguments *)
Record Args := mkArgs {
  a_model : option string;
  a_served_model_name : option string;
  a_host : string;
  a_port : Z;
  a_api_key : option string;
  a_mock : bool;
  a_scheduling_policy : string;
  a_scheduler_trace_path : option string;
  a_metrics_summary_mode : string;
  a_prefix_cache_backend : string;
  a_max_model_len : Z;
  a_max_num_seqs : Z;
  a_kv_admission_lookahead : Z;
  a_max_num_active_seqs : option Z;
  a_gpu_memory_utilization : Q;
  a_num_kvcache_blocks : option Z;
  a_enforce_eager : bool;
  a_kv_reclaim_policy : string;
  a_kv_reclaim_min_keep_ratio : Q;
  a_kv_reclaim_max_keep_ratio : Q;
  a_kv_reclaim_budget_scale_ms : Q;
  a_kv_reclaim_target_free_blocks : Z;
  a_kv_compression_policy : string;
  a_kv_compression_sink_blocks : Z;
  a_kv_compression_recent_blocks : Z;
  a_kv_compression_importance_blocks : Z;
  a_kv_compression_query_tokens : Z;
  a_kv_compression_trigger_free_ratio : Q;
  a_kv_storage_backend : string;
  a_mooncake_master : string;
  a_mooncake_metadata : string;
  a_mooncake_hostname : string;
  a_mooncake_protocol : string;
  a_mooncake_rdma_devices : string;
  a_mooncake_global_segment_mib : Z;
  a_mooncake_local_buffer_mib : Z;
  a_remote_kv_bandwidth_gbps : Q;
  a_remote_kv_fixed_latency_ms : Q;
  a_remote_kv_force_restore : bool
}.
(** What [parse_args] returns for [--model model] *)
Definition default_args (model : option string) : Args :=
  mkArgs model None "127.0.0.1" 8000 None false "pals" None "cached" "radix" 40960 256 0 None (9 # 10) None false "slo_aware" 0 (3 # 4) 1000 2
    "none" 1 8 2 64 (3 # 20) "none" "127.0.0.1:50051" "P2PHANDSHAKE" "localhost" "tcp" "" 0 512 (25 # 2) (3 # 10) false.
(** The choices [argparse] enforces *)
Definition choices_ok (a : Args) : bool :=
  one_of (a_scheduling_policy a) ["fcfs"; "pals"] && one_of (a_metrics_summary_mode a) ["cached"; "full"]
  && one_of (a_prefix_cache_backend a) ["hash"; "radix"] && one_of (a_kv_reclaim_policy a) ["recompute"; "slo_aware"]
  && one_of (a_kv_compression_policy a) ["none"; "sink_recent"; "query_aware"] && one_of (a_kv_storage_backend a) ["none"; "mooncake"]
  && one_of (a_mooncake_protocol a) ["tcp"; "rdma"; "efa"].

(** ** [main]'s checks *)
Definition below_1 (o : option Z) : bool := match o with Some n => (n <? 1)%Z | None => false end.
Definition nonempty_model (a : Args) : bool := match a_model a with Some m => nonempty m | None => false end.
(** The conditions that end the program, with what it says, in order *)
Definition arg_errors (a : Args) : list (bool * string) := [
  (negb (a_mock a) && negb (nonempty_model a), "--model is required unless --mock is used");
  (a_mock a && negb (String.eqb (a_kv_storage_backend a) "none"), "--kv-storage-backend is unavailable with --mock");
  (((a_mooncake_global_segment_mib a <? 0) || (a_mooncake_local_buffer_mib a <? 0))%Z, "Mooncake memory sizes must be non-negative");
  (negb (Qle_bool 0 (a_kv_reclaim_min_keep_ratio a) && Qle_bool (a_kv_reclaim_min_keep_ratio a) (a_kv_reclaim_max_keep_ratio a)
         && Qle_bool (a_kv_reclaim_max_keep_ratio a) 1), "KV reclaim ratios must satisfy 0 <= min <= max <= 1");
  (Qle_bool (a_kv_reclaim_budget_scale_ms a) 0, "--kv-reclaim-budget-scale-ms must be positive");
  ((a_kv_reclaim_target_free_blocks a <? 1)%Z, "--kv-reclaim-target-free-blocks must be at least 1");
  (below_1 (a_num_kvcache_blocks a), "--num-kvcache-blocks must be at least 1");
  (below_1 (a_max_num_active_seqs a), "--max-num-active-seqs must be at least 1");
  ((a_kv_admission_lookahead a <? 0)%Z, "--kv-admission-lookahead must be non-negative");
  ((a_kv_compression_sink_blocks a <? 1)%Z, "--kv-compression-sink-blocks must be at least 1");
  ((a_kv_compression_recent_blocks a <? 1)%Z, "--kv-compression-recent-blocks must be at least 1");
  ((a_kv_compression_importance_blocks a <? 1)%Z, "--kv-compression-importance-blocks must be at least 1");
  ((a_kv_compression_query_tokens a <? 1)%Z, "--kv-compression-query-tokens must be at least 1");
  (negb (Qle_bool 0 (a_kv_compression_trigger_free_ratio a) && Qle_bool (a_kv_compression_trigger_free_ratio a) 1),
    "--kv-compression-trigger-free-ratio must be between 0 and 1")].
(** The message of [SystemExit], if the checks end the program *)
Definition system_exit (a : Args) : option string := snd <$> head (filter (λ e, e.1 = true) (arg_errors a)).

(** ** What [main] builds *)
(** [Config(model_path, **engine_kwargs)]: the other fields keep their defaults. *)
Definition engine_config (model_path : string) (a : Args) : Config :=
  let d := default_config model_path in
  mkConfig model_path (cf_max_num_batched_tokens d) (a_max_num_seqs a) (a_max_num_active_seqs a) (a_kv_admission_lookahead a)
    (a_max_model_len a) (cf_requested_max_model_len d) (a_gpu_memory_utilization a) (cf_tensor_parallel_size d) (a_enforce_eager a) (cf_eos d)
    (cf_kvcache_block_size d) (cf_num_kvcache_blocks d) (a_num_kvcache_blocks a) (a_prefix_cache_backend a) (a_scheduling_policy a)
    (a_metrics_summary_mode a) (a_scheduler_trace_path a) (cf_qos_best_effort_slo_ms d) (cf_qos_priority_boost_ms d)
    (cf_qos_aging_ms_per_step d) (cf_qos_prefill_ms_per_token d) (cf_qos_decode_ms_per_token d) (cf_qos_ewma_alpha d) (a_kv_reclaim_policy a)
    (a_kv_reclaim_min_keep_ratio a) (a_kv_reclaim_max_keep_ratio a) (a_kv_reclaim_budget_scale_ms a) (a_kv_reclaim_target_free_blocks a)
    (a_kv_compression_policy a) (a_kv_compression_sink_blocks a) (a_kv_compression_recent_blocks a) (a_kv_compression_importance_blocks a)
    (a_kv_compression_query_tokens a) (a_kv_compression_trigger_free_ratio a) (cf_kv_cache_model_id d) (cf_kv_cache_model_revision d)
    (negb (a_remote_kv_force_restore a)) (a_remote_kv_bandwidth_gbps a) (a_remote_kv_fixed_latency_ms a) (cf_remote_kv_congestion_multiplier d)
    (cf_remote_kv_writeback d) (cf_remote_kv_min_prefix_blocks d) (cf_remote_kv_persist_catalog d) (cf_remote_kv_catalog_timeout_s d).
Definition mooncake_config (a : Args) : MooncakeStoreConfig :=
  mkMooncakeConfig (a_mooncake_hostname a) (a_mooncake_metadata a) (a_mooncake_global_segment_mib a * 1024 * 1024)%Z
    (a_mooncake_local_buffer_mib a * 1024 * 1024)%Z (a_mooncake_protocol a) (a_mooncake_rdma_devices a) (a_mooncake_master a).
Definition or_name (o : option string) (d : string) : string := match o with Some s => if String.eqb s "" then d else s | None => d end.
(** [served_model]; [path_name] is [Path(model_path).name]. *)
Definition served_model (path_name : string → string) (model_path : string) (a : Args) : string :=
  or_name (a_served_model_name a) (if a_mock a then "nano-vllm-ui-demo" else path_name model_path).
Definition backend_name (a : Args) : string :=
  if a_mock a then "mock backend" else if String.eqb (a_kv_storage_backend a) "mooncake" then "CUDA + Mooncake" else "CUDA".
(** [engine_factory] of a real model: [llm] is [LLM]. A backend that was built is closed when the engine is not. *)
Section factory.
Context {S E : Type} `{MooncakeDistributedStore S} (llm : Config → option (MooncakeKVStore S) → result E).
Definition engine_factory (model_path : string) (a : Args) : M S E :=
  if String.eqb (a_kv_storage_backend a) "mooncake" then
    config ← lift (mooncake_store_config (mooncake_config a));
    backend ← mooncake_init config;
    try_except (lift (llm (engine_config model_path a) (Some backend)))
      (λ exc, s ← getS; match mk_close (mkMooncake s (closed backend)) with
                        | (inr _, k) => putS (store k);; raise exc
                        | (inl exc', k) => putS (store k);; raise exc'
                        end)
  else lift (llm (engine_config model_path a) None).
End factory.

(** ** Checked arguments make a configuration *)
Lemma system_exit_none a : system_exit a = None → Forall (λ e, e.1 = false) (arg_errors a).
Proof.
  unfold system_exit. generalize (arg_errors a) as l. clear. induction l as [|[b s] l IH]; [constructor|].
  rewrite filter_cons. case_decide as Hb; [done|]. cbn in Hb. intros Hl. constructor; [by destruct b|by apply IH].
Qed.
Lemma config_post_init_iff is_dir hf c : (∃ c', config_post_init is_dir hf c = inr c') ↔ Forall (λ b, b = true) (config_checks is_dir c).
Proof.
  rewrite <-assert_all_ok. unfold config_post_init. cbv zeta. split.
  - intros [c' Hc]. by apply result_bind_inr in Hc as ([] & Ha & _).
  - intros ->. by eexists.
Qed.
(** C33: arguments that pass [main]'s checks make a configuration that passes its own, but for three things [main] does not
    look at: the model's directory, and the bandwidth and the latency of the remote cache. *)
Theorem checked_args_configure is_dir hf model_path a : choices_ok a = true → system_exit a = None →
  (∃ c, config_post_init is_dir hf (engine_config model_path a) = inr c) ↔
    is_dir model_path = true ∧ (0 < a_remote_kv_bandwidth_gbps a)%Q ∧ (0 <= a_remote_kv_fixed_latency_ms a)%Q.
Proof.
  intros Hc He%system_exit_none. rewrite config_post_init_iff. unfold choices_ok in Hc. repeat (apply andb_true_iff in Hc as [Hc ?]).
  unfold arg_errors in He. repeat (apply Forall_cons in He as [? He]). cbn [fst] in *. clear He.
  assert (Hopt : ∀ o, below_1 o = false → match o with None => true | Some n => (0 <? n)%Z end = true).
  { intros [n|]; [|done]. cbn. intros ?%Z.ltb_ge. apply Z.ltb_lt. lia. }
  assert (Hge : ∀ n, (n <? 1)%Z = false → (1 <=? n)%Z = true) by (intros n ?%Z.ltb_ge; by apply Z.leb_le).
  repeat match goal with H : negb _ = false |- _ => apply negb_false_iff in H end.
  split.
  - intros HF. unfold config_checks in HF. repeat (apply Forall_cons in HF as [? HF]). cbn [engine_config cf_model cf_remote_kv_bandwidth_gbps cf_remote_kv_fixed_latency_ms] in *.
    split_and!; [done|by apply Qlt_bool_true|by apply Qle_bool_true].
  - intros (Hd & Hb%Qlt_bool_true & Hl%Qle_bool_true). unfold config_checks. cbn [engine_config default_config cf_model cf_max_num_active_seqs
      cf_kv_admission_lookahead cf_kvcache_block_size cf_num_kvcache_blocks_override cf_prefix_cache_backend cf_tensor_parallel_size cf_scheduling_policy
      cf_metrics_summary_mode cf_qos_best_effort_slo_ms cf_qos_priority_boost_ms cf_qos_aging_ms_per_step cf_qos_prefill_ms_per_token
      cf_qos_decode_ms_per_token cf_qos_ewma_alpha cf_kv_reclaim_policy cf_kv_reclaim_min_keep_ratio cf_kv_reclaim_max_keep_ratio
      cf_kv_reclaim_budget_scale_ms cf_kv_reclaim_target_free_blocks cf_kv_compression_policy cf_kv_compression_sink_blocks
      cf_kv_compression_recent_blocks cf_kv_compression_importance_blocks cf_kv_compression_query_tokens cf_kv_compression_trigger_free_ratio
      cf_kv_cache_model_revision cf_remote_kv_bandwidth_gbps cf_remote_kv_fixed_latency_ms cf_remote_kv_congestion_multiplier
      cf_remote_kv_min_prefix_blocks cf_remote_kv_catalog_timeout_s].
    repeat constructor; try done; try (by apply Hopt); try (by apply Hge).
    + apply Z.leb_le. by apply Z.ltb_ge.
    + unfold Qlt_bool. by apply negb_true_iff.
Qed.
