(* ===== verification/TransformersServer.v ===== *)
(** * The Transformers compatibility server

    Models [scripts/serve_transformers_windows.py]: a server with the same user interface and wire protocol, whose worker
    thread runs one request at a time through the Transformers library. That library is an interface: [hf_generate n] is
    what the [n]th call of [generate] streams and returns, cancellation by its stopping criteria included. *)
From S2P Require Import Prelude Json Qos Sequence StorageBackend Scheduler EngineWorker Protocol HttpApp.
Set Default Goal Selector "!".
Set Default Proof Using "Type".

(** ** The protocol *)
Record ChatRequest := mkChatRequest {
  cr_model : string;
  cr_messages : list ChatMessage;
  cr_temperature : Q;
  cr_top_p : Q;
  cr_max_tokens : option Z;
  cr_max_completion_tokens : option Z;
  cr_n : Z;
  cr_stream : bool;
  cr_stream_options : option StreamOptions;
  cr_priority : Z;
  cr_request_class : string;
  cr_ttft_slo_ms : option Q;
  cr_tpot_slo_ms : option Q;
  cr_e2e_slo_ms : option Q
}.
Definition chat_field_bounds (r : ChatRequest) : list (string * bool) := [
  ("messages", negb (bool_decide (cr_messages r = [])) && forallb chat_message_ok (cr_messages r));
  ("temperature", Qlt_bool 0 (cr_temperature r));
  ("top_p", Qlt_bool 0 (cr_top_p r) && Qle_bool (cr_top_p r) 1);
  ("max_tokens", at_least_1 (cr_max_tokens r));
  ("max_completion_tokens", at_least_1 (cr_max_completion_tokens r));
  ("n", (1 <=? cr_n r)%Z);
  ("priority", (0 <=? cr_priority r)%Z);
  ("request_class", negb (String.eqb (cr_request_class r) ""));
  ("ttft_slo_ms", slo_positive (cr_ttft_slo_ms r));
  ("tpot_slo_ms", slo_positive (cr_tpot_slo_ms r));
  ("e2e_slo_ms", slo_positive (cr_e2e_slo_ms r))].
Definition validate_options (r : ChatRequest) : result ChatRequest :=
  throw_if (negb (cr_n r =? 1)%Z) (ValueError "the Transformers compatibility backend supports n=1 only");;
  mret r.
Definition chat_request (r : ChatRequest) : ValidationError + ChatRequest :=
  match (filter (λ kv, kv.2 = false) (chat_field_bounds r)).*1 with
  | f :: _ => inl (mkValidationError [f] None)
  | [] => match validate_options r with
          | inl e => inl (mkValidationError [] (Some ("Value error, " +:+ exn_message e)))
          | inr r => inr r
          end
  end.
Definition chat_output_limit (r : ChatRequest) : Z :=
  default 256%Z (int_or (int_or (cr_max_completion_tokens r) (cr_max_tokens r)) (Some 256%Z)).
Definition chat_include_usage (r : ChatRequest) : bool :=
  match cr_stream_options r with Some o => so_include_usage o | None => false end.

(** ** Operations and their events *)
Record GenerationResult := mkResult {
  re_text : string; re_token_ids : list Z; re_prompt_tokens : nat; re_finish_reason : string; re_metrics : Json }.
Inductive OperationEvent := EvDelta (s : string) | EvFinished (r : GenerationResult) | EvFailed (message : string) | EvCancelled.
Record GenerationOperation := mkOperation {
  op_request_id : string;
  op_created : Z;
  op_messages : list ChatMessage;
  op_temperature : Q;
  op_top_p : Q;
  op_max_tokens : Z;
  op_priority : Z;
  op_request_class : string;
  op_arrival_time : Q;
  op_events : list OperationEvent;
  op_cancelled : bool
}.
#[export] Instance GenerationOperation_eta : RecordEta GenerationOperation := λ r, {|
  op_request_id := op_request_id r; op_created := op_created r; op_messages := op_messages r; op_temperature := op_temperature r; op_top_p := op_top_p r; op_max_tokens := op_max_tokens r;
  op_priority := op_priority r; op_request_class := op_request_class r; op_arrival_time := op_arrival_time r;
  op_events := op_events r; op_cancelled := op_cancelled r |}.
#[export] Instance set_op_events : Setter op_events := ltac:(derive_setter).
#[export] Instance set_op_cancelled : Setter op_cancelled := ltac:(derive_setter).

(** ** [RuntimeStats] *)
Record RuntimeStats := mkStats {
  rt_waiting : Z; rt_running : Z; rt_completed : Z; rt_cancelled : Z; rt_failed : Z; rt_last_metrics : list (string * Json) }.
#[export] Instance RuntimeStats_eta : RecordEta RuntimeStats := λ r, {|
  rt_waiting := rt_waiting r; rt_running := rt_running r; rt_completed := rt_completed r; rt_cancelled := rt_cancelled r;
  rt_failed := rt_failed r; rt_last_metrics := rt_last_metrics r |}.
#[export] Instance set_rt_waiting : Setter rt_waiting := ltac:(derive_setter).
#[export] Instance set_rt_running : Setter rt_running := ltac:(derive_setter).
#[export] Instance set_rt_completed : Setter rt_completed := ltac:(derive_setter).
#[export] Instance set_rt_cancelled : Setter rt_cancelled := ltac:(derive_setter).
#[export] Instance set_rt_failed : Setter rt_failed := ltac:(derive_setter).
#[export] Instance set_rt_last_metrics : Setter rt_last_metrics := ltac:(derive_setter).
Definition runtime_stats : RuntimeStats := mkStats 0 0 0 0 0 [].
Definition stats_enqueue (s : RuntimeStats) : RuntimeStats := s <| rt_waiting := (rt_waiting s + 1)%Z |>.
Definition stats_start (s : RuntimeStats) : RuntimeStats :=
  s <| rt_waiting := (rt_waiting s - 1)%Z |> <| rt_running := (rt_running s + 1)%Z |>.
Definition stats_finish (metrics : list (string * Json)) (cancelled failed : bool) (s : RuntimeStats) : RuntimeStats :=
  let s := s <| rt_running := (rt_running s - 1)%Z |> in
  let s := if cancelled then s <| rt_cancelled := (rt_cancelled s + 1)%Z |>
           else if failed then s <| rt_failed := (rt_failed s + 1)%Z |>
           else s <| rt_completed := (rt_completed s + 1)%Z |> in
  s <| rt_last_metrics := metrics |>.
Definition stats_skip_cancelled (s : RuntimeStats) : RuntimeStats :=
  s <| rt_waiting := (rt_waiting s - 1)%Z |> <| rt_cancelled := (rt_cancelled s + 1)%Z |>.
(** [{**fields, **more}] *)
Definition dict_update (fields more : list (string * Json)) : list (string * Json) := foldl (λ l kv, dict_set kv.1 kv.2 l) fields more.
Definition stats_snapshot (model_name device_name : string) (s : RuntimeStats) : list (string * Json) :=
  dict_update [("backend", JStr "Transformers CUDA compatibility"); ("served_model", JStr model_name); ("device", JStr device_name);
    ("policy", JStr "fcfs-transformers"); ("serving_active_requests", JInt (rt_running s)); ("serving_queued_requests", JInt (rt_waiting s));
    ("running_requests", JInt (rt_running s)); ("waiting_requests", JInt (rt_waiting s)); ("completed_requests", JInt (rt_completed s));
    ("cancelled_requests", JInt (rt_cancelled s)); ("failed_requests", JInt (rt_failed s)); ("prefix_cache_backend", JStr "unavailable");
    ("prefix_cache_hit_blocks", JInt 0); ("prefix_cache_block_hit_rate", JFloat (Finite 0%Q)); ("remote_restore_completed", JInt 0);
    ("kv_restored_tokens", JInt 0)] (rt_last_metrics s).

(** ** [TransformersWorker] *)
(** The tokenizer and the model *)
Class Transformers := {
  hf_template : list ChatMessage → result (list Z);
  hf_generate : nat → list Z → Z → Q → Q → list string * result (list Z);
  hf_decode : list Z → result string;
  hf_eos : Z
}.
(** The queue holds positions in the list of operations; [None] is the stop marker. *)
Record TransformersWorker := mkTransformersWorker {
  tw_queue : list (option nat);
  tw_operations : list GenerationOperation;
  tw_stats : RuntimeStats;
  tw_looks : nat;
  tw_ticks : nat;
  tw_calls : nat
}.
#[export] Instance TransformersWorker_eta : RecordEta TransformersWorker := λ r, {|
  tw_queue := tw_queue r; tw_operations := tw_operations r; tw_stats := tw_stats r; tw_looks := tw_looks r; tw_ticks := tw_ticks r;
  tw_calls := tw_calls r |}.
#[export] Instance set_tw_queue : Setter tw_queue := ltac:(derive_setter).
#[export] Instance set_tw_operations : Setter tw_operations := ltac:(derive_setter).
#[export] Instance set_tw_stats : Setter tw_stats := ltac:(derive_setter).
#[export] Instance set_tw_looks : Setter tw_looks := ltac:(derive_setter).
#[export] Instance set_tw_ticks : Setter tw_ticks := ltac:(derive_setter).
#[export] Instance set_tw_calls : Setter tw_calls := ltac:(derive_setter).
Definition transformers_worker : TransformersWorker := mkTransformersWorker [] [] runtime_stats 0 0 0.
(** What the HTTP threads do; a submission draws an identifier, and [int(time())] is [created]. *)
Inductive TransformersAction := SubmitChat (uuid : string) (created : Z) (payload : ChatRequest) | CancelOperation (i : nat) | StopTransformers.

Section transformers.
Context `{HF : Transformers} (perf_counter : nat → Q) (outside : nat → list TransformersAction).
Abbreviation MT := (M TransformersWorker).
Implicit Types (w : TransformersWorker).

Definition submit_operation (uuid : string) (created : Z) (payload : ChatRequest) (w : TransformersWorker) : TransformersWorker :=
  w <| tw_operations := tw_operations w ++ [mkOperation ("chatcmpl-qwen3-" +:+ uuid) created (cr_messages payload) (cr_temperature payload) (cr_top_p payload)
         (chat_output_limit payload) (cr_priority payload) (cr_request_class payload) (perf_counter (tw_ticks w)) [] false] |>
    <| tw_ticks := S (tw_ticks w) |> <| tw_stats := stats_enqueue (tw_stats w) |>
    <| tw_queue := tw_queue w ++ [Some (length (tw_operations w))] |>.
Definition transformers_client (w : TransformersWorker) (a : TransformersAction) : TransformersWorker :=
  match a with
  | SubmitChat uuid created payload => submit_operation uuid created payload w
  | CancelOperation i => w <| tw_operations := alter (λ op, op <| op_cancelled := true |>) i (tw_operations w) |>
  | StopTransformers => w <| tw_queue := tw_queue w ++ [None] |>
  end.
Definition tr_look : MT () := modifyS (λ w, foldl transformers_client (w <| tw_looks := S (tw_looks w) |>) (outside (tw_looks w))).
Definition tr_clock : MT Q := w ← getS; putS (w <| tw_ticks := S (tw_ticks w) |>);; mret (perf_counter (tw_ticks w)).
Definition put_operation_event (i : nat) (ev : OperationEvent) : MT () :=
  modifyS (λ w, w <| tw_operations := alter (λ op, op <| op_events := op_events op ++ [ev] |>) i (tw_operations w) |>).
Definition on_stats (f : RuntimeStats → RuntimeStats) : MT () := modifyS (λ w, w <| tw_stats := f (tw_stats w) |>).
Definition operation_cancelled (i : nat) : MT bool :=
  tr_look;; getsS (λ w, match tw_operations w !! i with Some op => op_cancelled op | None => false end).

(** [EventTextStreamer.on_finalized_text], for the texts of a call; returns [first_text_time]. *)
Fixpoint stream_texts (i : nat) (first_text_time : option Q) (texts : list string) : MT (option Q) :=
  match texts with
  | [] => mret first_text_time
  | s :: texts =>
      if String.eqb s "" then stream_texts i first_text_time texts
      else
        t ← match first_text_time with Some t => mret t | None => tr_clock end;
        put_operation_event i (EvDelta s);;
        stream_texts i (Some t) texts
  end.
Definition ms (q : Q) : Json := JFloat (Finite q).
Definition generation_metrics (op : GenerationOperation) (started : Q) (first_text_time : option Q) (finished : Q)
    (prompt_tokens completion_tokens : nat) : list (string * Json) :=
  let first_text := match first_text_time with Some t => if Qtruthy t then t else finished | None => finished end in
  let ttft_ms := ((first_text - op_arrival_time op) * 1000)%Q in
  let e2e_ms := ((finished - op_arrival_time op) * 1000)%Q in
  [("request_class", JStr (op_request_class op)); ("priority", JInt (op_priority op)); ("prompt_tokens", JInt (Z.of_nat prompt_tokens));
   ("completion_tokens", JInt (Z.of_nat completion_tokens)); ("queue_ms", ms ((started - op_arrival_time op) * 1000)%Q); ("ttft_ms", ms ttft_ms);
   ("tpot_ms", if 1 <? completion_tokens then ms ((e2e_ms - ttft_ms) / inject_nat (completion_tokens - 1))%Q else JNull);
   ("e2e_ms", ms e2e_ms); ("preemptions", JInt 0); ("kv_restore_wait_ms", ms 0%Q); ("kv_restored_tokens", JInt 0); ("kv_restore_failures", JInt 0)].
Definition operation_finish_reason (completion_ids : list Z) (max_tokens : Z) : string :=
  let eos := match last completion_ids with Some t => (t =? hf_eos)%Z | None => false end in
  if eos then "stop" else if (max_tokens <=? Z.of_nat (length completion_ids))%Z then "length" else "stop".
(** The body of the [try] of [_generate] *)
Definition generate_operation (i : nat) (op : GenerationOperation) (started : Q) : MT () :=
  prompt ← lift (hf_template (normalize_messages (op_messages op)));
  w ← getS;
  putS (w <| tw_calls := S (tw_calls w) |>);;
  let '(texts, output) := hf_generate (tw_calls w) prompt (op_max_tokens op) (op_temperature op) (op_top_p op) in
  first_text_time ← stream_texts i None texts;
  completion_ids ← lift output;
  finished ← tr_clock;
  let metrics := generation_metrics op started first_text_time finished (length prompt) (length completion_ids) in
  cancelled ← operation_cancelled i;
  if cancelled : bool then on_stats (stats_finish metrics true false);; put_operation_event i EvCancelled
  else
    s ← lift (hf_decode completion_ids);
    on_stats (stats_finish metrics false false);;
    put_operation_event i (EvFinished (mkResult s completion_ids (length prompt)
      (operation_finish_reason completion_ids (op_max_tokens op)) (JObj metrics))).
(** [_generate] *)
Definition run_operation (i : nat) : MT () :=
  started ← tr_clock;
  on_stats stats_start;;
  w ← getS;
  op ← of_option Dangling (tw_operations w !! i);
  try_except (generate_operation i op started) (λ exc,
    now ← tr_clock;
    on_stats (stats_finish [("e2e_ms", ms ((now - op_arrival_time op) * 1000)%Q)] false true);;
    put_operation_event i (EvFailed (exn_str exc))).
(** The loop of [_run]; [fuel] bounds the looks at the queue. *)
Fixpoint transformers_loop (fuel : nat) : MT () :=
  match fuel with
  | 0 => raise OutOfFuel
  | S fuel =>
      tr_look;;
      w ← getS;
      match tw_queue w with
      | [] => transformers_loop fuel
      | None :: queue => putS (w <| tw_queue := queue |>)
      | Some i :: queue =>
          putS (w <| tw_queue := queue |>);;
          cancelled ← operation_cancelled i;
          (if cancelled : bool then on_stats stats_skip_cancelled;; put_operation_event i EvCancelled else run_operation i);;
          transformers_loop fuel
      end
  end.
Definition transformers_metrics (model_name device_name : string) (alive : bool) (gpu_memory : option Q) (w : TransformersWorker) : list (string * Json) :=
  let l := dict_set "worker_alive" (JBool alive) (stats_snapshot model_name device_name (tw_stats w)) in
  match gpu_memory with Some mib => dict_set "gpu_memory_allocated_mib" (ms mib) l | None => l end.

(** ** The accounts *)
Definition waiting_operations w : list nat := omap id (tw_queue w).
Definition answered (evs : list OperationEvent) : Prop :=
  ∃ ds t, evs = (EvDelta <$> ds) ++ [t] ∧ match t with EvDelta _ => False | _ => True end.
Definition total (s : RuntimeStats) : Z := (rt_waiting s + rt_running s + rt_completed s + rt_cancelled s + rt_failed s)%Z.
(** The worker has taken [popped] from the queue and runs [held]. *)
Record accounts (popped held : list nat) w : Prop := {
  ac_nodup : NoDup (popped ++ held ++ waiting_operations w);
  ac_bound i : i ∈ popped ++ held ++ waiting_operations w → i < length (tw_operations w);
  ac_waiting i op : i ∈ popped ++ waiting_operations w → tw_operations w !! i = Some op → op_events op = [];
  ac_running i op : i ∈ held → tw_operations w !! i = Some op → ∃ ds, op_events op = EvDelta <$> ds;
  ac_answered i op : i ∉ popped ++ held ++ waiting_operations w → tw_operations w !! i = Some op → answered (op_events op);
  ac_count_waiting : rt_waiting (tw_stats w) = Z.of_nat (length popped + length (waiting_operations w));
  ac_count_running : rt_running (tw_stats w) = Z.of_nat (length held);
  ac_total : total (tw_stats w) = Z.of_nat (length (tw_operations w))
}.
Lemma altered i (f : GenerationOperation → GenerationOperation) (l : list GenerationOperation) k op : alter f i l !! k = Some op →
  ∃ op0, l !! k = Some op0 ∧ (k = i ∧ op = f op0 ∨ k ≠ i ∧ op = op0).
Proof.
  clear. destruct (decide (k = i)) as [->|Hne].
  - rewrite list_lookup_alter_eq. intros (op0 & Hl & ->)%fmap_Some. eauto.
  - rewrite list_lookup_alter_ne by done. eauto.
Qed.
Lemma client_accounts p h w a : accounts p h w → accounts p h (transformers_client w a).
Proof.
  clear outside. intros [I1 I2 I3 I4 I5 I6 I7 I8]. destruct a as [uuid created payload|i|]; cbn [transformers_client].
  - unfold submit_operation. set (n := length (tw_operations w)). set (w' := setter tw_queue _ _).
    assert (Eq : waiting_operations w' = waiting_operations w ++ [n]) by (unfold waiting_operations; cbn; by rewrite omap_app).
    assert (Hold : ∀ k op, tw_operations w' !! k = Some op → tw_operations w !! k = Some op ∨ k = n ∧ op_events op = []).
    { intros k op [Hx|[Hx Hl]]%lookup_app_Some; [by left|right]. apply list_lookup_singleton_Some in Hl as [Hx' <-]. split; [unfold n; lia|done]. }
    assert (Hn : n ∉ p ++ h ++ waiting_operations w) by (intros Hin%I2; unfold n in Hin; lia).
    assert (Hlen : length (tw_operations w') = S n) by (cbn; rewrite length_app; cbn; lia).
    assert (Hst : tw_stats w' = stats_enqueue (tw_stats w)) by done. clearbody w'. split; rewrite ?Eq, ?Hlen, ?Hst.
    + assert (Hp : p ++ h ++ waiting_operations w ++ [n] ≡ₚ n :: p ++ h ++ waiting_operations w) by solve_Permutation. rewrite Hp. by constructor.
    + intros k. rewrite !app_assoc, elem_of_app, <-app_assoc, list_elem_of_singleton. intros [Hk%I2| ->]; [unfold n; lia|lia].
    + intros k op Hk [Hl|[_ ?]]%Hold; [|done]. rewrite app_assoc, elem_of_app, list_elem_of_singleton in Hk.
      destruct Hk as [Hk| ->]; [by apply (I3 k)|]. apply lookup_lt_Some in Hl. unfold n in Hl. lia.
    + intros k op Hk [Hl|[-> ->]]%Hold; [by apply (I4 k)|]. by exists [].
    + intros k op Hk [Hl|[-> _]]%Hold; [apply (I5 k); [|done]; set_solver|set_solver].
    + cbn. rewrite I6, length_app. cbn. lia.
    + done.
    + unfold total in *. cbn. unfold n. lia.
  - assert (Hal : ∀ k op, alter (λ op, op <| op_cancelled := true |>) i (tw_operations w) !! k = Some op →
      ∃ op0, tw_operations w !! k = Some op0 ∧ op_events op = op_events op0).
    { intros k op (op0 & Hl & [[_ ->]|[_ ->]])%altered; eauto. }
    split; try done.
    + intros k Hk. cbn. rewrite length_alter. by apply I2.
    + intros k op Hk (op0 & Hl & ->)%Hal. by apply (I3 k).
    + intros k op Hk (op0 & Hl & ->)%Hal. by apply (I4 k).
    + intros k op Hk (op0 & Hl & ->)%Hal. by apply (I5 k).
    + cbn. by rewrite length_alter.
  - assert (Eq : waiting_operations (w <| tw_queue := tw_queue w ++ [None] |>) = waiting_operations w).
    { unfold waiting_operations. cbn. rewrite omap_app. cbn. by rewrite app_nil_r. }
    split; rewrite ?Eq; done.
Qed.
(** The operation [i] has received [ds] so far. *)
Definition sent_texts i (ds : list string) w : Prop := ∃ op, tw_operations w !! i = Some op ∧ op_events op = EvDelta <$> ds.
Lemma client_sent i ds w a : sent_texts i ds w → sent_texts i ds (transformers_client w a).
Proof.
  clear outside. intros (op & Hl & He). destruct a as [uuid created payload|k|]; cbn [transformers_client]; [| |by exists op].
  - exists op. split; [|done]. cbn. by apply lookup_app_l_Some.
  - unfold sent_texts. cbn [tw_operations setter set_tw_operations]. destruct (decide (i = k)) as [->|Hne].
    + rewrite list_lookup_alter_eq, Hl. by eexists.
    + rewrite list_lookup_alter_ne by done. by exists op.
Qed.
Lemma tr_look_spec p h w : accounts p h w → wp tr_look (λ _ w', accounts p h w' ∧ ∀ i ds, sent_texts i ds w → sent_texts i ds w') noexn w.
Proof.
  intros HI. unfold tr_look. apply wp_modify. set (w0 := setter tw_looks _ w).
  assert (HI0 : accounts p h w0) by (destruct HI; by split). assert (L0 : ∀ i ds, sent_texts i ds w → sent_texts i ds w0) by done.
  clearbody w0. revert w0 HI0 L0. induction (outside (tw_looks w)) as [|a l IH]; intros w0 HI0 L0; [done|]. cbn [foldl].
  apply IH; [by apply client_accounts|]. intros i ds Hs. by apply client_sent, L0.
Qed.
Lemma operation_cancelled_spec i p h w : accounts p h w →
  wp (operation_cancelled i) (λ _ w', accounts p h w' ∧ ∀ k ds, sent_texts k ds w → sent_texts k ds w') noexn w.
Proof. intros HI. unfold operation_cancelled. wp_step. eapply wp_mono; [by apply tr_look_spec| |done]. cbn beta. intros _ w' Hw. by wp_step. Qed.
Lemma tr_clock_spec p h w : accounts p h w → wp tr_clock (λ _ w', accounts p h w' ∧ ∀ k ds, sent_texts k ds w → sent_texts k ds w') noexn w.
Proof. clear outside. intros HI. unfold tr_clock. wp_steps. split; [by destruct HI|done]. Qed.
(** The last event of the operation in hand, and the statistics that go with it *)
Lemma settle_operation i p h st ev ds w : p ++ h = [i] → accounts p h w → sent_texts i ds w →
  rt_waiting st = Z.of_nat (length (waiting_operations w)) → rt_running st = 0%Z → total st = total (tw_stats w) →
  match ev with EvDelta _ => False | _ => True end →
  accounts [] [] (w <| tw_stats := st |> <| tw_operations := alter (λ op, op <| op_events := op_events op ++ [ev] |>) i (tw_operations w) |>).
Proof.
  clear outside. intros Hph [I1 I2 I3 I4 I5 I6 I7 I8] (op1 & Hl1 & He1) Hw Hr Ht Hev. rewrite app_assoc, Hph in I1. apply NoDup_cons in I1 as [Hi I1].
  assert (Hin : ∀ k, k ∈ p ++ h ++ waiting_operations w ↔ k = i ∨ k ∈ waiting_operations w).
  { intros k. rewrite app_assoc, Hph. apply elem_of_cons. }
  split; try done.
  - intros k Hk. cbn. rewrite length_alter. apply I2, Hin. by right.
  - intros k op Hk (op0 & Hl & [[-> _]|[Hne ->]])%altered; [done|]. apply (I3 k); [|done]. apply elem_of_app. by right.
  - intros k op []%not_elem_of_nil.
  - intros k op Hk (op0 & Hl & [[-> ->]|[Hne ->]])%altered.
    + rewrite Hl1 in Hl. injection Hl as <-. exists ds, ev. split; [cbn; by rewrite He1|done].
    + apply (I5 k); [|done]. rewrite Hin. by intros [?|?].
  - cbn. rewrite length_alter. by rewrite Ht.
Qed.
Lemma put_delta_spec i ds s w : accounts [] [i] w → sent_texts i ds w →
  wp (put_operation_event i (EvDelta s)) (λ _ w', accounts [] [i] w' ∧ sent_texts i (ds ++ [s]) w') noexn w.
Proof.
  clear outside. intros [I1 I2 I3 I4 I5 I6 I7 I8] (op1 & Hl1 & He1). unfold put_operation_event. wp_step.
  assert (Hi : i ∉ waiting_operations w) by by apply NoDup_cons in I1 as [Hi _]. split; [split|]; try done.
  - intros k Hk. cbn. rewrite length_alter. by apply I2.
  - intros k op Hk (op0 & Hl & [[-> _]|[Hne ->]])%altered; [done|]. by apply (I3 k).
  - intros k op ->%list_elem_of_singleton (op0 & Hl & [[_ ->]|[Hne _]])%altered; [|done]. rewrite Hl1 in Hl. injection Hl as <-.
    exists (ds ++ [s]). cbn. by rewrite He1, fmap_app.
  - intros k op Hk (op0 & Hl & [[-> _]|[Hne ->]])%altered; [destruct Hk; by left|]. by apply (I5 k).
  - cbn. by rewrite length_alter.
  - eexists. cbn [tw_operations setter set_tw_operations]. rewrite list_lookup_alter_eq, Hl1. split; [done|]. cbn. by rewrite He1, fmap_app.
Qed.
Lemma stream_texts_spec i first texts ds w : accounts [] [i] w → sent_texts i ds w →
  wp (stream_texts i first texts) (λ _ w', accounts [] [i] w' ∧ ∃ ds', sent_texts i ds' w') noexn w.
Proof.
  clear outside. revert first ds w. induction texts as [|s texts IH]; intros first ds w HI Hs; cbn [stream_texts]; [by split; [|exists ds]|].
  destruct (String.eqb s ""); [by apply (IH _ ds)|]. wp_step.
  apply (wp_mono _ (λ _ w', accounts [] [i] w' ∧ sent_texts i ds w') _ noexn); [| |done].
  - destruct first; [done|]. eapply wp_mono; [by apply tr_clock_spec| |done]. cbn beta. intros t w' [? Hk]. auto.
  - intros t w1 [HI1 Hs1]. wp_step. eapply wp_mono; [by apply (put_delta_spec i ds)| |done]. cbn beta. intros _ w2 [HI2 Hs2]. by apply (IH _ (ds ++ [s])).
Qed.
Lemma finish_operation i metrics c f ev ds w (X : exn → TransformersWorker → Prop) : accounts [] [i] w → sent_texts i ds w →
  match ev with EvDelta _ => False | _ => True end →
  wp (on_stats (stats_finish metrics c f);; put_operation_event i ev) (λ _, accounts [] []) X w.
Proof.
  clear outside perf_counter. intros HI Hs Hev. unfold on_stats, put_operation_event. wp_steps. apply (settle_operation i [] [i] (stats_finish metrics c f (tw_stats w)) ev ds w); try done.
  - rewrite <-(Nat.add_0_l (length _)). change 0 with (length (@nil nat)) at 1. rewrite <-(ac_count_waiting _ _ _ HI). by destruct c, f.
  - pose proof (ac_count_running _ _ _ HI) as Hr. cbn in Hr. destruct c, f; cbn; lia.
  - unfold total. destruct c, f; cbn; lia.
Qed.
Lemma generate_operation_spec i op started w : accounts [] [i] w → sent_texts i [] w →
  wp (generate_operation i op started) (λ _, accounts [] []) (λ _ w', accounts [] [i] w' ∧ ∃ ds, sent_texts i ds w') w.
Proof.
  intros HI Hs. unfold generate_operation. wp_step. apply wp_lift; [intros prompt _|intros exc _; by split; [|exists []]]. wp_steps.
  destruct (hf_generate _ _ _ _ _) as [texts output]. set (w0 := setter tw_calls _ w). assert (HI0 : accounts [] [i] w0) by by destruct HI.
  assert (Hs0 : sent_texts i [] w0) by done. clearbody w0. wp_step.
  eapply wp_mono; [by apply (stream_texts_spec i None texts [])| |by intros ? ? []]. cbn beta. intros first w1 (HI1 & ds & Hs1). wp_step.
  apply wp_lift; [intros ids _|intros exc _; split; [done|by exists ds]]. wp_step.
  eapply wp_mono; [by apply tr_clock_spec| |by intros ? ? []]. cbn beta. intros finished w2 [HI2 K2]. wp_step.
  eapply wp_mono; [by apply operation_cancelled_spec| |by intros ? ? []]. cbn beta. intros c w3 [HI3 K3]. destruct c.
  - apply (finish_operation i _ _ _ _ ds); auto.
  - wp_step. apply wp_lift; [intros s _|intros exc _; split; [done|exists ds; auto]]. apply (finish_operation i _ _ _ _ ds); auto.
Qed.
Lemma run_operation_spec i w : accounts [i] [] w → wp (run_operation i) (λ _, accounts [] []) (λ _ _, False) w.
Proof.
  intros HI. unfold run_operation. wp_step. eapply wp_mono; [by apply tr_clock_spec| |done]. cbn beta. intros started w1 [HI1 _].
  assert (Hop : ∃ op, tw_operations w1 !! i = Some op) by (apply lookup_lt_is_Some_2, (ac_bound _ _ _ HI1); by left). destruct Hop as [op Hop].
  assert (He : op_events op = []) by (apply (ac_waiting _ _ _ HI1 i); [by left|done]).
  wp_step. apply wp_modify. wp_step. wp_step. wp_step. apply wp_of_option; [intros op' Hop'|intros Hno; change (tw_operations w1 !! i = None) in Hno; by rewrite Hop in Hno].
  change (tw_operations w1 !! i = Some op') in Hop'. rewrite Hop in Hop'. injection Hop' as <-.
  set (w2 := setter tw_stats _ w1). assert (HI2 : accounts [] [i] w2).
  { destruct HI1 as [I1 I2 I3 I4 I5 I6 I7 I8]. split; try done.
    - intros k op0 Hk. apply (I3 k). by right.
    - intros k op0 ->%list_elem_of_singleton Hl. exists []. cbn in Hl. rewrite Hop in Hl. by injection Hl as <-.
    - change (waiting_operations w2) with (waiting_operations w1). cbn in I6 |- *. rewrite I6. lia.
    - cbn in I7 |- *. rewrite I7. lia.
    - unfold total in *. cbn in I8 |- *. rewrite <-I8. lia. }
  apply wp_try_except. eapply wp_mono; [apply generate_operation_spec; [done|by exists op]|done|]. cbn beta.
  intros exc w3 (HI3 & ds & Hs3). wp_step. eapply wp_mono; [by apply tr_clock_spec| |done]. cbn beta. intros now w4 [HI4 K4].
  apply (finish_operation i _ _ _ _ ds); auto.
Qed.
Lemma transformers_loop_spec fuel w : accounts [] [] w → wp (transformers_loop fuel) (λ _, accounts [] []) (λ _, accounts [] []) w.
Proof.
  revert w. induction fuel as [|fuel IH]; intros w HI; [done|]. cbn [transformers_loop]. wp_step.
  eapply wp_mono; [by apply tr_look_spec| |by intros ? ? []]. cbn beta. intros _ w1 [HI1 _]. wp_steps.
  destruct (tw_queue w1) as [|[i|] queue] eqn:Eq; [by apply IH| |].
  - wp_steps. set (w2 := setter tw_queue _ w1). assert (HI2 : accounts [i] [] w2).
    { assert (Ew : waiting_operations w1 = i :: waiting_operations w2) by (unfold waiting_operations; by rewrite Eq).
      destruct HI1 as [I1 I2 I3 I4 I5 I6 I7 I8]. rewrite Ew in I1, I2, I3, I5, I6. by split. }
    eapply wp_mono; [by apply (operation_cancelled_spec i)| |by intros ? ? []]. cbn beta. intros c w3 [HI3 _].
    wp_step. apply (wp_mono _ (λ _, accounts [] []) _ (λ _ _, False)); [|intros _ w4 HI4; by apply IH|by intros ? ? []].
    destruct c; [|by apply run_operation_spec]. unfold on_stats, put_operation_event. wp_steps.
    assert (Hop : ∃ op, tw_operations w3 !! i = Some op) by (apply lookup_lt_is_Some_2, (ac_bound _ _ _ HI3); by left). destruct Hop as [op Hop].
    apply (settle_operation i [i] [] (stats_skip_cancelled (tw_stats w3)) EvCancelled [] w3); try done.
    + exists op. split; [done|]. apply (ac_waiting _ _ _ HI3 i); [by left|done].
    + pose proof (ac_count_waiting _ _ _ HI3) as Hw. cbn in *. lia.
    + apply (ac_count_running _ _ _ HI3).
    + unfold total. cbn. lia.
  - wp_step. assert (Ew : waiting_operations w1 = waiting_operations (w1 <| tw_queue := queue |>)) by (unfold waiting_operations; by rewrite Eq).
    destruct HI1 as [I1 I2 I3 I4 I5 I6 I7 I8]. rewrite Ew in I1, I2, I3, I5, I6. by split.
Qed.
End transformers.

(** ** The wire *)
Definition error_payload (message error_type : string) (param code : option string) : Json :=
  JObj [("error", JObj [("message", JStr message); ("type", JStr error_type); ("param", opt_str param); ("code", opt_str code)])].
Definition chat_sse `{FloatRepr} (p : SsePayload) : text :=
  match p with
  | Done => bytes_of "data: [DONE]" ++ [10; 10]%Z
  | Payload v => bytes_of "data: " ++ dumps_utf8 v ++ [10; 10]%Z
  end.
Definition chat_usage (r : GenerationResult) : Json :=
  let completion_tokens := length (re_token_ids r) in
  JObj [("prompt_tokens", JInt (Z.of_nat (re_prompt_tokens r))); ("completion_tokens", JInt (Z.of_nat completion_tokens));
        ("total_tokens", JInt (Z.of_nat (re_prompt_tokens r + completion_tokens)))].
Section wire.
Context (served_model : string) (api_key : option string).
Definition chat_authenticate (path : string) (authorization : option string) : option Response :=
  match api_key with
  | Some key =>
      if negb (String.eqb key "") && String.prefix "/v1/" path && negb (bool_decide (authorization = Some ("Bearer " +:+ key)))
      then Some (json_response 401 (error_payload "Incorrect API key provided" "authentication_error" None (Some "invalid_api_key")))
      else None
  | None => None
  end.
Definition chat_health (alive : bool) : Json :=
  JObj [("status", JStr (if alive then "ok" else "unavailable")); ("model", JStr served_model);
        ("backend", JStr "Transformers CUDA compatibility")].
Definition chat_models (now : Z) : Json :=
  JObj [("object", JStr "list"); ("data", JList [JObj [("id", JStr served_model); ("object", JStr "model"); ("created", JInt now);
    ("owned_by", JStr "Qwen")]])].
(** The check at the top of [chat]: the answer, or what is submitted *)
Definition chat_submit (payload : ChatRequest) (uuid : string) (now : Z) : HttpError + TransformersAction :=
  if negb (String.eqb (cr_model payload) served_model)
  then inl (HTTPException 404 (error_payload ("The model '" +:+ cr_model payload +:+ "' does not exist") "invalid_request_error"
         (Some "model") (Some "model_not_found")))
  else inr (SubmitChat uuid now payload).

Section chat.
Context (operation : GenerationOperation) (payload : ChatRequest).
Definition chat_chunk (choices : list Json) (more : list (string * Json)) : SsePayload :=
  Payload (JObj ([("id", JStr (op_request_id operation)); ("object", JStr "chat.completion.chunk"); ("created", JInt (op_created operation));
    ("model", JStr served_model); ("choices", JList choices)] ++ more)).
Definition chat_choice (delta : list (string * Json)) (finish_reason : Json) : Json :=
  JObj [("index", JInt 0); ("delta", JObj delta); ("finish_reason", finish_reason)].
(** The loop of [stream_events], over the events of the operation *)
Fixpoint chat_stream_loop (events : list OperationEvent) : list SsePayload * StreamEnd :=
  match events with
  | [] => ([], Waiting)
  | EvDelta s :: events =>
      let '(l, e) := chat_stream_loop events in (chat_chunk [chat_choice [("content", JStr s)] JNull] [] :: l, e)
  | EvFinished r :: _ =>
      ([chat_chunk [chat_choice [] (JStr (re_finish_reason r))] [("x_nanovllm_metrics", re_metrics r)]] ++
       (if chat_include_usage payload then [chat_chunk [] [("usage", chat_usage r)]] else []) ++ [Done], Completed)
  | EvFailed message :: _ => ([Payload (error_payload message "server_error" None None); Done], Returned)
  | EvCancelled :: _ => ([], Returned)
  end.
Definition chat_stream_events (events : list OperationEvent) : list SsePayload * StreamEnd :=
  let '(l, e) := chat_stream_loop events in (chat_chunk [chat_choice [("role", JStr "assistant"); ("content", JStr "")] JNull] [] :: l, e).
Definition chat_stream_response (events : list OperationEvent) : Response :=
  mkResponse 200 [("Cache-Control", "no-cache"); ("X-Accel-Buffering", "no"); ("X-Request-Id", op_request_id operation)]
    (EventStream (chat_stream_events events).1).
Definition chat_completion_json (r : GenerationResult) : Json :=
  JObj [("id", JStr (op_request_id operation)); ("object", JStr "chat.completion"); ("created", JInt (op_created operation));
    ("model", JStr served_model);
    ("choices", JList [JObj [("index", JInt 0); ("message", JObj [("role", JStr "assistant"); ("content", JStr (re_text r))]);
       ("finish_reason", JStr (re_finish_reason r))]]);
    ("usage", chat_usage r); ("x_nanovllm_metrics", re_metrics r)].
(** One round of the loop: the client has gone, the wait of a tenth of a second ends without an event, or an event comes. *)
Inductive ChatPoll := ClientGone | NoEvent | Took (ev : OperationEvent).
(** The answer, and whether the operation is cancelled; [None] while the loop goes on. *)
Fixpoint chat_completion_loop (polls : list ChatPoll) : option ((HttpError + Response) * bool) :=
  match polls with
  | [] => None
  | ClientGone :: _ => Some (inl (HTTPException 499 (error_payload "Client disconnected" "invalid_request_error" None None)), true)
  | NoEvent :: polls | Took (EvDelta _) :: polls => chat_completion_loop polls
  | Took (EvFinished r) :: _ => Some (inr (json_response 200 (chat_completion_json r)), false)
  | Took (EvFailed message) :: _ => Some (inl (HTTPException 500 (error_payload message "server_error" None None)), true)
  | Took EvCancelled :: _ => Some (inl (HTTPException 499 (error_payload "Generation cancelled" "invalid_request_error" None None)), true)
  end.

(** ** The same wire protocol as the native server's *)
Definition event_of (ev : OperationEvent) : GenerationEvent Json :=
  match ev with
  | EvDelta s => TextDelta s
  | EvFinished r => GenerationFinished (re_text r) (re_token_ids r) (re_prompt_tokens r) (re_finish_reason r) (Some (re_metrics r))
  | EvFailed message => GenerationFailed message
  | EvCancelled => GenerationCancelled
  end.
Definition poll_of (p : ChatPoll) : Poll (Met := Json) :=
  match p with ClientGone => Disconnected | NoEvent => TimedOut | Took ev => Received (event_of ev) end.
(** The request as the native server parses it *)
Definition native_request : ChatCompletionRequest := {|
  cc_model := cr_model payload; cc_messages := cr_messages payload; cc_temperature := cr_temperature payload; cc_top_p := cr_top_p payload;
  cc_max_tokens := cr_max_tokens payload; cc_max_completion_tokens := cr_max_completion_tokens payload; cc_n := cr_n payload;
  cc_stop := None; cc_stream := cr_stream payload; cc_stream_options := cr_stream_options payload; cc_priority := cr_priority payload;
  cc_ttft_slo_ms := cr_ttft_slo_ms payload; cc_tpot_slo_ms := cr_tpot_slo_ms payload; cc_e2e_slo_ms := cr_e2e_slo_ms payload;
  cc_request_class := cr_request_class payload |}.
Definition without_headers (r : Response) : Response := mkResponse (rs_status r) [] (rs_body r).
(** C32: the same operation streams the same chunks, ends alike and carries the same headers, byte for byte; the answer in one
    piece has the same status and body, without the native server's header, and cancels in the same cases. *)
Theorem same_wire_protocol `{FloatRepr} (events : list OperationEvent) (polls : list ChatPoll) :
  let metrics := default JNull in let id := op_request_id operation in let created := op_created operation in
  chat_stream_response events = stream_response served_model metrics id created native_request (event_of <$> events) ∧
  (chat_stream_events events).2 = (stream_events served_model metrics id created native_request (event_of <$> events)).2 ∧
  (∀ p, chat_sse p = sse p) ∧
  chat_completion_loop polls =
    (λ '(answer, cancels), (match answer with inl e => inl e | inr r => inr (without_headers r) end, cancels)) <$>
      completion_loop served_model metrics id created (poll_of <$> polls) ∧
  (∀ path authorization, chat_authenticate path authorization = authenticate api_key path authorization).
Proof.
  intros metrics id created. assert (Hl : chat_stream_loop events = stream_loop served_model metrics id created native_request (event_of <$> events)).
  { clear polls. induction events as [|[s|r|m|] events IH]; cbn; [done| |done..]. rewrite IH. by destruct (stream_loop _ _ _ _ _ _). }
  split_and!.
  - unfold chat_stream_response, stream_response, chat_stream_events, stream_events. rewrite Hl. by destruct (stream_loop _ _ _ _ _ _).
  - unfold chat_stream_events, stream_events. rewrite Hl. by destruct (stream_loop _ _ _ _ _ _).
  - by intros [].
  - clear Hl. induction polls as [|[| |[s|r|m|]] polls IH]; cbn; done.
  - done.
Qed.
End chat.
End wire.
