(* ===== verification/Examples.v ===== *)
(** * Concrete runs

    Small concrete inputs on which the theorems with hypotheses apply: requests
    of a few tokens, a cache of four pages of two tokens, an envelope of eight
    bytes. Each evaluates the definitions and applies one theorem. *)
From S2P Require Import Prelude Json Blake2b Qos Sequence Policy KvPolicy RadixCache RadixSpec RadixLru RadixContract BlockManager BlockInv BlockSpec HierarchicalCache StorageBackend KvPage KvPageSpec SchedulerTrace.
Set Default Goal Selector "!".

(** The value of a computation that is known to return. *)
Definition value {A} (d : A) (r : result A) : A := match r with inr a => a | inl _ => d end.

(** The value of a computation that returns. *)
Definition returned {A} (r : result A) : bool := match r with inr _ => true | inl _ => false end.
Definition got {A} (r : result A) : returned r = true → A :=
  match r with inr a => λ _, a | inl _ => λ H, match Bool.diff_false_true H with end end.
Lemma got_eq {A} (r : result A) H : r = inr (got r H).
Proof. by destruct r. Qed.

(** ** Requests *)
Definition blank : Sequence :=
  mkSequence 0 WAITING [0%Z] 0 1 1 0 0 0 true [] [] 1 64 false default_qos None 0 None None None
    0 0 0 0 0 0 0 false 0 0 0 None false None None 0 0 0 None.
(** A request of [n] tokens that arrives at step [step], time 0. *)
Definition request (id n step : nat) : Sequence :=
  value blank (sequence_init id (Z.of_nat <$> seq 1 n) None None (Some 0%Q)) <| arrival_step := step |>.
Definition sample_policy : PriorityAwareLatencyBudgetPolicy := mkPALS 10000 50 1.
Definition sample_estimator : ExecutionTimeEstimator := mkEstimator (1 # 20) 5 (1 # 5).

Lemma pals_aging_overtakes_witness :
  pals_select_waiting sample_policy sample_estimator [request 0 4 3; request 1 4 1] 5 0 = inr (request 1 4 1) ∧
  request 1 4 1 ≠ request 0 4 3.
Proof.
  assert (Hx : pals_select_waiting sample_policy sample_estimator [request 0 4 3; request 1 4 1] 5 0 = inr (request 1 4 1))
    by (vm_compute; reflexivity).
  split; [exact Hx|].
  refine (pals_aging_overtakes sample_policy sample_estimator [request 0 4 3; request 1 4 1] 5 0
    (request 1 4 1) (request 0 4 3) 0 0
    (value 0%Q (raw_budget_ms sample_policy sample_estimator (request 1 4 1) (Qmax 0 ((0 - 0) * 1000))))
    (value 0%Q (raw_budget_ms sample_policy sample_estimator (request 0 4 3) (Qmax 0 ((0 - 0) * 1000))))
    _ eq_refl eq_refl _ _ _ _ _ Hx).
  - vm_compute. reflexivity.
  - vm_compute. reflexivity.
  - vm_compute. lia.
  - vm_compute. reflexivity.
  - right. by left.
Defined.
Lemma pals_prefers_most_urgent_witness :
  pals_should_schedule_prefill sample_policy sample_estimator [request 1 4 1] [request 0 4 3] 5 0 = inr true ∧
  ∃ w bw, w ∈ [request 1 4 1] ∧ pals_budget_ms sample_policy sample_estimator w 5 0 = inr bw ∧
    ∀ r br, r ∈ [request 0 4 3] → pals_budget_ms sample_policy sample_estimator r 5 0 = inr br → (bw <= br)%Q.
Proof.
  assert (Hb : pals_should_schedule_prefill sample_policy sample_estimator [request 1 4 1] [request 0 4 3] 5 0 = inr true)
    by (vm_compute; reflexivity).
  split; [exact Hb|].
  apply (pals_prefers_most_urgent sample_policy sample_estimator [request 1 4 1] [request 0 4 3] 5 0 true); [done..|].
  reflexivity.
Defined.

(** ** Reclaiming *)
Definition sample_slo : SLOAwareKVReclaimPolicy := mkSLOAware (1 # 4) (3 # 4) 1000.
Definition resident : Sequence :=
  request 0 9 0 <| block_table := [0; 1; 2; 3] |> <| num_cached_tokens := 8 |>.
Lemma plan_decision_ok_witness :
  kd_keep_blocks (plan 2 (Some sample_slo) resident (Some 100%Q) 1) = 2 ∧
  decision_ok 2 resident 1 (plan 2 (Some sample_slo) resident (Some 100%Q) 1).
Proof. split; [vm_compute; reflexivity|]. apply (plan_decision_ok 2 (Some sample_slo) resident (Some 100%Q) 1). lia. Defined.
Lemma plan_urgent_keeps_more_witness :
  kd_keep_blocks (plan 2 (Some sample_slo) resident (Some 4000%Q) 1) <=
  kd_keep_blocks (plan 2 (Some sample_slo) resident (Some 0%Q) 1).
Proof. apply (plan_urgent_keeps_more 2 sample_slo resident 0 4000 1); apply Qle_bool_iff || idtac; vm_compute; reflexivity. Defined.
Lemma growth_pages_least_witness : growth_pages 5 3 4 2 <= 2 ↔ 5 + 4 <= (3 + 2) * 2.
Proof. apply (growth_pages_least 5 3 4 2 2). lia. Defined.

(** ** Tiers *)
Definition sample_planner : KVTransferPlanner :=
  mkTransferPlanner (mkGeometry 2 4 8 2) (λ t, match t with CPU => Some (mkTierProfile 10 (1 # 2) 1) | _ => None end).
Lemma access_plan_optimal_witness :
  ∃ p, access_plan sample_planner 100 16 [(CPU, 64%Z)] 1 = inr p ∧ plan_ok 100 16 1 p ∧
    (ap_total_ms p <= inject_Z (100 - 16) * 1)%Q ∧
    ∀ tier n q, (tier, n) ∈ [(CPU, 64%Z)] → restores_from sample_planner 100 16 1 tier n q →
      (ap_total_ms p <= ap_total_ms q)%Q.
Proof.
  apply (access_plan_optimal sample_planner 100 16 1 [(CPU, 64%Z)]); [lia|reflexivity|]. repeat constructor; cbn; lia.
Defined.
Lemma restore_break_even_witness :
  ∃ p, access_plan sample_planner 100 16 [(CPU, 64%Z)] 1 = inr p ∧
    (ap_action p = ActRestore ↔
       (transfer_ms (mkTierProfile 10 (1 # 2) 1) (bytes_per_token (mkGeometry 2 4 8 2) * (64 - 16))
          < inject_Z (64 - 16) * 1)%Q).
Proof.
  apply (restore_break_even sample_planner 100 16 64 1 CPU (mkTierProfile 10 (1 # 2) 1)); [lia|lia|reflexivity|done|reflexivity|].
  vm_compute. reflexivity.
Defined.
(** The path of two blocks in the GPU tier, nothing below. *)
Definition sample_tiers : tier_maps := λ t, match t with GPU => two_map | _ => ∅ end.
Definition sample_indexes : HierarchicalRadixCache := mkHierarchical two_path radix_init radix_init.
Definition sample_path : list BlockKey := [key 1; key 2; key 3].
Lemma tier_longest_match_best_witness :
  ∃ r h', tier_longest_match sample_path sample_indexes = (inr r, h') ∧ tiers_represent sample_tiers h' ∧
    match r with
    | None => ∀ t, longest_match (sample_tiers t) sample_path = []
    | Some b =>
        tm_handles b = longest_match (sample_tiers (tm_tier b)) sample_path ∧ tm_handles b ≠ [] ∧
        ∀ t, (length (longest_match (sample_tiers t) sample_path) < tm_num_blocks b)%nat ∨
             length (longest_match (sample_tiers t) sample_path) = tm_num_blocks b ∧
             (tier_order (tm_tier b) <= tier_order t)%Z
    end.
Proof.
  apply (tier_longest_match_best sample_tiers sample_indexes sample_path).
  intros []; [apply two_path_represents|apply radix_init_empty..].
Defined.

(** ** Pages of the cache: four pages of two tokens, in hash mode *)
Definition toy_hasher : Hasher := {| xxh64 := foldr (λ x acc, (x + 31 * acc) mod 2 ^ 64)%Z 7%Z; np_tobytes := λ l, l |}.
#[local] Existing Instance toy_hasher.
Definition no_blocks : BlockManager := mkBlockManager 1 HashBackend [] ∅ None [] ∅ ∅ ∅ 0 0 0 0.
Definition cache0 : BlockManager := value no_blocks (block_manager_init 4 2 "hash").
Definition prompt : Sequence := request 0 5 0.
Definition cache1 : BlockManager := (can_allocate prompt cache0).2.
Definition cache2 : BlockManager := (allocate 0 (cache1, prompt)).2.1.
Definition prompt2 : Sequence := (allocate 0 (cache1, prompt)).2.2.

Lemma cache0_inv : bm_inv [] cache0.
Proof. by apply (block_manager_init_inv 4 2 "hash" cache0). Qed.
Lemma prompt_admitted : can_allocate prompt cache0 = (inr (Some 0), cache1).
Proof. vm_compute. reflexivity. Qed.
Lemma cache2_inv : bm_inv (block_table prompt2 ++ []) cache2.
Proof.
  pose proof (can_allocate_spec [] prompt cache0 cache0_inv) as Hc. unfold wp in Hc. rewrite prompt_admitted in Hc.
  destruct Hc as (HI & (Hbs & _) & _ & _ & _ & _ & _ & _ & l & Hpend & Hl & Hadm).
  rewrite <-Hbs in Hadm.
  pose proof (allocate_spec [] prompt cache1 0 l HI eq_refl Hpend Hl Hadm) as Ha. apply wp_run in Ha.
  destruct Ha as ([] & [bm2 s2] & Hrun & fresh & _ & _ & _ & HI2 & _). unfold cache2, prompt2. by rewrite Hrun.
Qed.

Lemma allocate_after_admission_witness :
  ∃ bm2 s2, allocate 0 (cache1, prompt) = (inr tt, (bm2, s2)) ∧ bm_inv (block_table s2 ++ []) bm2 ∧
    length (block_table s2) = 3.
Proof.
  destruct (allocate_after_admission [] prompt cache0 0 cache1 cache0_inv eq_refl prompt_admitted)
    as (bm2 & s2 & H1 & H2 & H3 & _). exists bm2, s2. split_and!; [exact H1|exact H2|exact H3].
Defined.
Lemma release_no_leak_witness :
  ∃ freed bm2 s2, reclaim_suffix 0 (cache2, prompt2) = (inr freed, (bm2, s2)) ∧
    block_table s2 = [] ∧ bm_inv (block_table s2 ++ []) bm2 ∧
    length (free_block_ids bm2) = length (free_block_ids cache2) + freed.
Proof.
  destruct (release_no_leak [] prompt2 cache2 0 cache2_inv ltac:(lia) ltac:(simpl; lia))
    as (freed & bm2 & s2 & H1 & H2 & _ & H3 & H4 & _). exists freed, bm2, s2. split_and!; [exact H1|exact H2|exact H3|exact H4].
Defined.
Lemma resume_checked : can_resume prompt2 cache2 = (inr true, (can_resume prompt2 cache2).2).
Proof. vm_compute. reflexivity. Qed.
Lemma resume_after_check_witness :
  ∃ reused bm2 s2, resume ((can_resume prompt2 cache2).2, prompt2) = (inr reused, (bm2, s2)) ∧
    bm_inv (block_table s2 ++ []) bm2 ∧ block_table prompt2 `prefix_of` block_table s2.
Proof.
  assert (Hle : length (block_table prompt2) <= num_blocks (block_size cache2) prompt2) by (vm_compute; lia).
  destruct (resume_after_check [] prompt2 cache2 _ cache2_inv Hle resume_checked)
    as (reused & bm2 & s2 & H1 & H2 & _ & H3 & _). exists reused, bm2, s2. split_and!; [exact H1|exact H2|exact H3].
Defined.
Lemma append_after_check_witness :
  ∃ bm2 s2, may_append (cache2, prompt2) = (inr tt, (bm2, s2)) ∧ bm_inv (block_table s2 ++ []) bm2.
Proof.
  assert (Hrun : can_append prompt2 cache2 = (inr true, cache2)) by (vm_compute; reflexivity).
  destruct (append_after_check [] prompt2 cache2 cache2_inv Hrun) as (bm2 & s2 & H1 & H2 & _).
  exists bm2, s2. split; [exact H1|exact H2].
Defined.
(** The full pages are published, and another request with the same prompt finds
    them. *)
Definition prompt4 : Sequence := prompt2 <| num_scheduled_tokens := 5 |>.
Definition cache5 : BlockManager := (hash_blocks prompt4 cache2).2.
Lemma prompt4_table : block_table prompt4 = block_table prompt2.
Proof. vm_compute. reflexivity. Qed.
Lemma cache5_inv : bm_inv (block_table prompt4 ++ []) cache5.
Proof.
  assert (Hw : wp (hash_blocks prompt4) (λ _ bm', bm_inv (block_table prompt4 ++ []) bm' ∧ same_counts cache2 bm') noexn cache2).
  { apply hash_blocks_spec; [rewrite prompt4_table; exact cache2_inv|vm_compute; lia..|].
    intros H. exfalso. vm_compute in H. discriminate H. }
  destruct (wp_run _ _ _ Hw) as ([] & bm & Hrun & HI & _). unfold cache5. by rewrite Hrun.
Qed.
Definition repeated : Sequence := request 1 5 1.
Lemma hash_lookup_sound_witness :
  (lookup_cached_blocks repeated cache5).1 = inr [0; 1] ∧
  ∃ bl, blocks cache5 !! 1 = Some bl ∧ btoken_ids bl = block_tokens (block_size cache5) 1 repeated.
Proof.
  assert (Hrun : lookup_cached_blocks repeated cache5 = (inr [0; 1], (lookup_cached_blocks repeated cache5).2))
    by (vm_compute; reflexivity).
  split; [vm_compute; reflexivity|].
  exact (proj2 (hash_lookup_sound _ repeated cache5 [0; 1] _ cache5_inv eq_refl Hrun) 1 1 eq_refl).
Defined.

(** ** Keys and pages in storage *)
Definition sample_identity : KVCacheIdentity := mkIdentity "org/model" "rev" "float16" 1 256 "nanovllm-kv-v1".
Definition sample_key : string := value "" (make_kv_page_key sample_identity 0 1 [5%Z; 6%Z] "pool").
Lemma page_key_separates_witness :
  make_kv_page_key sample_identity 0 1 [5%Z; 6%Z] "pool" = inr sample_key ∧
  make_kv_catalog_key sample_identity 0 "pool" ≠ inr sample_key.
Proof.
  assert (Hk : make_kv_page_key sample_identity 0 1 [5%Z; 6%Z] "pool" = inr sample_key) by (vm_compute; reflexivity).
  split; [exact Hk|]. exact (proj2 (page_key_separates sample_identity "pool" 0 1 [5%Z; 6%Z] 0 0 [] sample_key Hk)).
Defined.

Local Open Scope Z_scope.
#[local] Existing Instance fixed_floats.
Definition sample_layout : KVPageLayout := mkLayout (NInt 1) (NInt 1) (NInt 1) (NInt 1) "float32".
Definition sample_metadata : KVPageMetadata := mkMetadata "d0" (NInt 0) (NInt 3) sample_layout.
Definition sample_payload : bytes := [1; 2; 3; 4; 5; 6; 7; 8].
Definition sample_blob : bytes := value [] (encode_page sample_metadata sample_payload).
Lemma sample_metadata_ok : metadata_ok sample_metadata.
Proof. vm_compute. done. Qed.
Lemma sample_encoded : encode_page sample_metadata sample_payload = inr sample_blob.
Proof. vm_compute. reflexivity. Qed.
Lemma sample_expects : expects sample_metadata (Some "d0") (Some 0) None (Some sample_layout).
Proof. split_and!; intros ?; [by intros [= <-]|by intros [= <-]|done|by intros [= <-]]. Qed.
Lemma sample_limits : Z.of_nat (length sample_payload) <= 100 ∧ 0 < 100 < 2 ^ 64.
Proof. vm_compute. split_and!; done. Qed.

Lemma page_round_trip_witness :
  encode_page sample_metadata sample_payload = inr sample_blob ∧
  decode_page sample_blob (Some "d0") (Some 0) None (Some sample_layout) 100 =
    inr (mkPageRecord sample_metadata sample_payload).
Proof.
  split; [exact sample_encoded|].
  exact (page_round_trip sample_metadata sample_payload sample_blob _ _ _ _ 100
    sample_metadata_ok sample_encoded (proj1 sample_limits) (proj2 sample_limits) sample_expects).
Defined.
Lemma sample_decoded :
  decode_page sample_blob None None None None 100 = inr (mkPageRecord sample_metadata sample_payload).
Proof. vm_compute. reflexivity. Qed.
Lemma sample_bytes : Forall byte_ok sample_blob.
Proof. apply (bool_decide_unpack _). vm_compute. exact I. Qed.
Lemma decode_sound_witness :
  ∃ header doc, sample_blob = envelope header sample_payload ∧ loads header = inr doc ∧
    metadata_from_dict doc = inr sample_metadata.
Proof.
  destruct (decode_sound sample_blob None None None None 100 _ sample_bytes sample_decoded)
    as (header & doc & H1 & H2 & H3 & _). exists header, doc. split_and!; [exact H1|exact H2|exact H3].
Defined.
Lemma decode_rejects_resized_witness :
  ∃ msg, decode_page (sample_blob ++ [0]) None None None None 100 = inl (KVPageFormatError msg).
Proof.
  apply (decode_rejects_resized sample_blob (sample_blob ++ [0]) 100 _ None None None None None None None None sample_decoded).
  - right. by eexists.
  - intros E. apply (f_equal length) in E. vm_compute in E. discriminate E.
Defined.
Lemma decode_errors_witness :
  ∃ e, decode_page [78; 86] None None None None 100 = inl e ∧
    (page_error e = true ∨ (100 <= 0 ∧ ∃ m, e = ValueError m) ∨ is_attribute_error e = true).
Proof.
  assert (Hrun : decode_page [78; 86] None None None None 100 = inl (KVPageFormatError "KV page envelope is truncated"))
    by (vm_compute; reflexivity).
  eexists. split; [exact Hrun|]. exact (decode_errors _ None None None None 100 _ Hrun).
Defined.

(** A tensor of three pages, as the bytes of each. *)
Record ListTensor := mkListTensor { lt_shape : list Z; lt_pages : nat → bytes }.
#[local] Instance ListTensor_ops : KvTensor ListTensor := {|
  tensor_shape := lt_shape;
  tensor_dtype _ := "torch.float32";
  page_bytes i t := lt_pages t i;
  set_page_bytes i p t := mkListTensor (lt_shape t) (λ j, if decide (j = i) then p else lt_pages t j)
|}.
#[local] Instance ListTensor_lawful : LawfulKvTensor ListTensor.
Proof. by split. Qed.
Definition sample_tensor : ListTensor := mkListTensor [2; 1; 3; 1; 1; 1] (λ _, replicate 8 0).
Definition sample_io : TorchKVPageIO ListTensor := mkPageIO sample_tensor sample_layout.
Lemma import_export_witness :
  ∃ io', import_page 1 sample_payload sample_io = (inr tt, io') ∧ export_page 1 io' = (inr sample_payload, io') ∧
    (0 <= 2 < page_count sample_io → 2 ≠ 1 → (export_page 2 io').1 = (export_page 2 sample_io).1).
Proof. apply (import_export sample_io 1 sample_payload 2); [vm_compute; done|vm_compute; reflexivity]. Defined.

(** A coordinator that keeps the pages in a map. *)
#[local] Instance map_coordinator : PageCoordinator (gmap string bytes) := {|
  co_put k v := modifyS (λ c : gmap string bytes, <[k := v]> c);
  co_get k := getsS (λ c : gmap string bytes, c !! k);
  co_evict k := modifyS (λ c : gmap string bytes, delete k c)
|}.
#[local] Instance map_lawful : LawfulCoordinator (gmap string bytes).
Proof. by refine {| co_view := λ c, c |}. Defined.
Lemma store_round_trip_witness :
  wp (store_get "k" (Some "d0") None None None) (λ r _, r = Some (mkPageRecord sample_metadata sample_payload))
    (λ _ _, True) (<["k" := sample_blob]> (∅ : gmap string bytes)).
Proof.
  assert (Hput : store_put "k" sample_metadata sample_payload (∅ : gmap string bytes) = (inr tt, <["k" := sample_blob]> ∅))
    by (vm_compute; reflexivity).
  refine (proj1 (store_round_trip "k" sample_metadata sample_payload ∅ _ (Some "d0") None None None
    sample_metadata_ok _ Hput) _); [vm_compute; done|].
  split_and!; intros ?; [by intros [= <-]|done..].
Defined.
