(* ===== verification/EngineExamples.v ===== *)
(** * A run of the engine

    A small engine whose model answers 7 to everything: a request is added and stepped, and the theorems on
    the engine, the scheduler and the model runner are applied to the states of that run. *)
From S2P Require Import Prelude Json Blake2b Qos Sequence Policy KvPolicy RadixCache BlockManager BlockInv BlockSpec HierarchicalCache StorageBackend KvPage KvPageSpec ModelRunner ModelRunnerSpec RemoteCatalog PrefixCatalog TransferCoordinator SchedulerTrace Scheduler Config SchedulerInv SchedulerContract SchedulerStep RemoteRestore LlmEngine EngineRun Examples.
Set Default Goal Selector "!".

(** ** The engine *)
#[local] Existing Instance toy_hasher.
#[local] Existing Instance fixed_floats.
#[local] Existing Instance ListTensor_ops.
#[local] Existing Instance ListTensor_lawful.
#[local] Instance toy_model : LanguageModel ListTensor Z Z := {|
  forward _ ids _ t := (ids, t);
  compute_logits _ h := h;
  sampler _ temps := (λ _, 7%Z) <$> temps
|}.
Lemma toy_sampler_length logits temps : length (sampler (LanguageModel := toy_model) logits temps) = length temps.
Proof. apply length_fmap. Qed.
Definition nothing (n : nat) : list loop_event := [].
Definition toy_config : Config :=
  mkConfig "model" 512 4 None 0 512 0 (9 # 10) 1 true (-1) 256 (-1) (Some 4%Z) "hash" "fcfs" "cached" None 60000 50 1 (1 # 20) 5 (1 # 5)
    "slo_aware" 0 (3 # 4) 1000 2 "none" 1 8 2 64 (3 # 20) None "local" true (25 # 2) (3 # 10) 1 true 1 true 10.
Abbreviation toy_init := (engine_init (B := InMemoryKVStore) (T := ListTensor) nothing (λ _, true) (mkHfConfig 64 None)
  (mkGpuMemory 100000 100000 0 0) (mkModelShape 1 1 1 4) 2%Z (λ shape, mkListTensor shape (λ _, replicate 8 0%Z)) false None None toy_config 0).
Lemma toy_init_returns : returned toy_init = true.
Proof. vm_compute. reflexivity. Qed.
Definition engine0 : LLMEngine InMemoryKVStore ListTensor := got toy_init toy_init_returns.
Lemma toy_init_engine0 : toy_init = inr engine0.
Proof. apply got_eq. Qed.
Definition ticks (n : nat) : Q := inject_Z (Z.of_nat n).
Definition add_toy (l : list Z) (max_tokens : nat) (e : LLMEngine InMemoryKVStore ListTensor) : LLMEngine InMemoryKVStore ListTensor :=
  (add_request (λ _, true) ticks (λ _, []) (PromptTokens l) (mkSamplingParams 1 max_tokens true) None e).2.
Definition step_toy (e : LLMEngine InMemoryKVStore ListTensor) : result (list (nat * list Z) * Z) * LLMEngine InMemoryKVStore ListTensor :=
  step (λ _, true) ticks ticks nothing 1 e.
Definition engine1 : LLMEngine InMemoryKVStore ListTensor := add_toy [5; 6; 7]%Z 2 engine0.
Definition engine2 : LLMEngine InMemoryKVStore ListTensor := (step_toy engine1).2.
Definition engine3 : LLMEngine InMemoryKVStore ListTensor := (step_toy engine2).2.
Abbreviation toy_reachable := (reachable (λ _, true) ticks ticks nothing (λ _, []) (λ _, true) (mkHfConfig 64 None)
  (mkGpuMemory 100000 100000 0 0) (mkModelShape 1 1 1 4) 2%Z (λ shape, mkListTensor shape (λ _, replicate 8 0%Z)) false).
Lemma fits_small (sc : Scheduler (RemoteKVRestoreService InMemoryKVStore) PendingRemoteRestore) :
  bool_decide (Z.of_nat (length (blocks (block_manager sc)) * block_size (block_manager sc)) <= 2 ^ 31)%Z = true →
  bool_decide (Z.of_nat (nsum (tokens_at sc <$> live [] sc)) < 2 ^ 31 - 1)%Z = true →
  forallb (λ i, match objs sc !! i with Some s => forallb (λ t, (-2 ^ 63 <=? t) && (t <? 2 ^ 63))%Z (token_ids s) | None => true end)
    (live [] sc) = true → fits sc.
Proof.
  intros H1%bool_decide_eq_true H2%bool_decide_eq_true H3. split; [done|done|]. intros i s Hi Hs.
  rewrite forallb_forall in H3. specialize (H3 i (proj1 (list_elem_of_In _ _) Hi)). rewrite Hs in H3. rewrite forallb_forall in H3.
  apply Forall_forall. intros t Ht. specialize (H3 t (proj1 (list_elem_of_In _ _) Ht)). breflect. lia.
Qed.
Lemma engine0_reached : toy_reachable engine0.
Proof.
  apply (reach_init _ _ _ _ _ _ _ _ _ _ _ _ toy_config 0 engine0).
  - exact toy_init_engine0.
  - reflexivity.
  - reflexivity.
  - by intros [=].
  - vm_compute. exact I.
Qed.
Lemma engine1_reached : toy_reachable engine1.
Proof. apply reach_add, engine0_reached. Qed.
Lemma engine1_fits : fits (eng_scheduler engine1).
Proof. apply fits_small; vm_compute; reflexivity. Qed.
Lemma engine2_reached : toy_reachable engine2.
Proof. apply reach_step; [apply engine1_reached|apply engine1_fits]. Qed.
Lemma engine3_reached : toy_reachable engine3.
Proof. apply reach_step; [apply engine2_reached|apply fits_small; vm_compute; reflexivity]. Qed.
Lemma engine1_ok : engine_ok engine1.
Proof. apply (reachable_ok _ _ _ _ _ toy_sampler_length _ _ _ _ _ _ _ _ engine1_reached). Qed.

Lemma run_keeps_accounts_witness : length (free_block_ids (block_manager (eng_scheduler engine3))) = 4.
Proof.
  destruct (run_keeps_accounts _ _ _ _ _ toy_sampler_length _ _ _ _ _ _ _ _ engine3_reached) as (_ & _ & _ & _ & Hfree).
  transitivity (length (blocks (block_manager (eng_scheduler engine3)))); [apply Hfree; vm_compute; reflexivity|vm_compute; reflexivity].
Defined.
Lemma engine1_can_progress : can_progress (eng_scheduler engine1).
Proof.
  split_and!.
  - intros i Hi (s & Hs & Hbig). assert (i = 4) as -> by (apply (bool_decide_unpack _); revert Hi; vm_compute; set_solver). 
    vm_compute in Hs. injection Hs as <-. vm_compute in Hbig. lia.
  - vm_compute. lia.
  - vm_compute. lia.
  - vm_compute. by intros [=].
  - vm_compute. by intros [=].
Qed.
Lemma schedule_safe_witness :
  wp (schedule (H := RemoteKV_service 256) (λ _, true) ticks) (λ r sc, batch_ok (eng_scheduler engine1) sc (r.1) (r.2)) (λ _ _, True)
    (eng_scheduler engine1).
Proof.
  eapply wp_mono; [apply (schedule_safe (λ _, true) ticks (eng_scheduler engine1)); [apply (eo_sched _ engine1_ok)|apply (eo_idle _ engine1_ok)]| |done].
  intros r sc (_ & _ & Hb). exact Hb.
Defined.
Lemma schedule_progress_witness :
  ∃ l p sc, schedule (H := RemoteKV_service 256) (λ _, true) ticks (eng_scheduler engine1) = (inr (l, p), sc) ∧ l ≠ [].
Proof.
  destruct (schedule_progress (H := RemoteKV_service 256) (λ _, true) ticks (eng_scheduler engine1)) as (l & p & sc & Hrun & Hne & _);
    [apply (eo_sched _ engine1_ok)|apply (eo_idle _ engine1_ok)|apply engine1_can_progress|exists l, p, sc; exact (conj Hrun Hne)].
Defined.
Lemma engine_step_witness :
  ∃ r e, step (λ _, true) ticks ticks nothing 1 engine1 = (inr r, e) ∧ step_outcome (eng_scheduler engine1) r e.
Proof.
  destruct (engine_step (λ _, true) ticks ticks nothing toy_sampler_length engine1 0 engine1_ok engine1_fits)
    as [(r & e & Hrun & _ & Hout)|(x & e & _ & _ & _ & _ & Hn)]; [exists r, e; exact (conj Hrun Hout)|destruct (Hn engine1_can_progress)].
Defined.
(** A traced run: refused when the trace file is there, and built otherwise. *)
Definition traced_config : Config := toy_config <| cf_scheduler_trace_path := Some "trace.jsonl" |>.
Lemma traced_accepted : returned (config_post_init (λ _, true) (mkHfConfig 64 None) traced_config) = true.
Proof. vm_compute. reflexivity. Qed.
Definition sized_config : SchedulerConfig :=
  scheduler_config (got _ traced_accepted <| cf_num_kvcache_blocks := 4%Z |> <| cf_max_model_len := 64%Z |> <| cf_eos := 2%Z |>).
Abbreviation toy_service := (None : option (RemoteKVRestoreService InMemoryKVStore)).

(** ** The model runner *)
Lemma prompt4_addressable : Forall (addressable 2 4) [prompt4].
Proof.
  constructor; [|constructor]. split.
  - vm_compute. lia.
  - vm_compute. lia.
  - apply (bool_decide_unpack _). vm_compute. exact I.
  - apply (bool_decide_unpack _). vm_compute. exact I.
Qed.
Lemma prepare_prefill_addresses_witness :
  ∃ q k width, prepare_prefill 2 [prompt4] = inr (span_tokens prompt4 ++ [], Z.of_nat <$> span prompt4 ++ [],
    mkContext true (Some [0; 5]%Z) (Some [0; 5]%Z) q k (Some (Z.of_nat <$> span_slots 2 prompt4 ++ [])) None width).
Proof.
  destruct (prepare_prefill_addresses 2 4 [prompt4]) as [(q & k & width & Hrun) _].
  - lia.
  - by intros [=].
  - exact prompt4_addressable.
  - vm_compute. by intros [=].
  - vm_compute. reflexivity.
  - eexists q, k, _. exact Hrun.
Defined.
Lemma prompt4_decodable : Forall (decodable 4) [prompt4].
Proof.
  constructor; [|constructor]. split.
  - vm_compute. lia.
  - vm_compute. reflexivity.
  - vm_compute. reflexivity.
  - apply (bool_decide_unpack _). vm_compute. exact I.
  - vm_compute. by intros [=].
  - vm_compute. by split.
Qed.
Lemma prepare_decode_addresses_witness :
  last_slot 2 prompt4 = kv_slot 2 (block_table prompt4) 4 ∧
  ∃ width, prepare_decode 2 [prompt4] = inr ([last_token prompt4], [4%Z],
    mkContext false None None 0 0 (Some [Z.of_nat (last_slot 2 prompt4)]) (Some [1%Z]) (Some (padded_tables width [prompt4]))).
Proof.
  destruct (prepare_decode_addresses 2 4 [prompt4]) as [(width & Hrun) Hslot].
  - lia.
  - by intros [=].
  - exact prompt4_decodable.
  - vm_compute. by intros [=].
  - split; [|exists width; exact Hrun]. apply Forall_cons in Hslot as [Hslot _]. apply Hslot. vm_compute. reflexivity.
Defined.
Lemma choose_graph_total_witness : ∃ x, choose_graph (graph_sizes 32) 20 = inr x ∧ 20 <= x ∧ x ∈ graph_sizes 32.
Proof. apply choose_graph_total; [right; right; reflexivity|lia|lia|lia]. Defined.
Lemma choose_graph_gap_witness : choose_graph (graph_sizes 9) 9 = inl StopIteration.
Proof. apply choose_graph_gap; [lia|by intros [=]]. Defined.
Lemma allocate_kv_blocks_fits_witness :
  allocate_kv_blocks (mkGpuMemory 100000 100000 0 0) (mkModelShape 1 1 1 4) 256 1 (9 # 10)%Q None = inr 43%Z ∧ (0 < 43)%Z.
Proof.
  assert (Hrun : allocate_kv_blocks (mkGpuMemory 100000 100000 0 0) (mkModelShape 1 1 1 4) 256 1 (9 # 10)%Q None = inr 43%Z)
    by (vm_compute; reflexivity).
  split; [exact Hrun|]. refine (proj1 (allocate_kv_blocks_fits _ _ _ _ _ _ _ _ Hrun)). vm_compute. reflexivity.
Defined.
Definition toy_runner : ModelRunner ListTensor := mkModelRunner 1 true 0 sample_io [] (mkGraphVars [] [] [] [] []).
Lemma exported_page_imports_witness :
  ∃ blob n r, export_kv_page 0 "d0" 3 toy_runner = (inr blob, toy_runner) ∧ import_kv_page 2 blob "d0" 3 toy_runner = (inr n, r) ∧
    page_bytes 2 (kv_cache (mr_page_io r)) = page_bytes 0 (kv_cache (mr_page_io toy_runner)).
Proof.
  assert (Hret : returned (export_kv_page 0 "d0" 3 toy_runner).1 = true) by (vm_compute; reflexivity).
  destruct (export_kv_page 0 "d0" 3 toy_runner) as [[e|blob] r1] eqn:Hexp; [discriminate Hret|].
  destruct (exported_page_imports toy_runner toy_runner 0 2 "d0" 3 blob r1 Hexp) as (n & r & Hrun & Hpage).
  - split; reflexivity.
  - reflexivity.
  - reflexivity.
  - vm_compute. by intros [=].
  - vm_compute. reflexivity.
  - exists blob, n, r.
    assert (r1 = toy_runner) as -> by (apply (f_equal snd) in Hexp; exact (eq_sym Hexp)).
    split; [exact eq_refl|]. split; [exact Hrun|]. exact (Hpage 2).
Defined.
