(* ===== verification/RemoteExamples.v ===== *)
(** * Runs of the remote restore service

    A catalog of two pages and a service over a store of one object: the theorems on the catalog and the
    service are applied to them. *)
From S2P Require Import Prelude Json Blake2b Qos Sequence Policy KvPolicy RadixCache RadixSpec BlockManager BlockInv BlockSpec HierarchicalCache StorageBackend KvPage KvPageSpec ModelRunner ModelRunnerSpec RemoteCatalog PrefixCatalog PrefixCatalogSpec TransferCoordinator SchedulerTrace Scheduler Config SchedulerInv SchedulerContract SchedulerStep RemoteRestore RemoteRestoreSpec LlmEngine EngineRun Examples.
Set Default Goal Selector "!".
#[local] Existing Instance fixed_floats.
(** ** The prefix catalog *)
Definition toy_keys : list BlockKey := [[1; 2]; [3; 4]]%Z.
Definition toy_pages : list RemotePageDescriptor := [mkDescriptor "p0" "d0" 0 0; mkDescriptor "p1" "d0" 0 1].
Definition toy_catalog : RemotePrefixCatalog := (register toy_keys toy_pages catalog_init).2.
Lemma toy_path : valid_path ("d0", 0%Z) toy_keys toy_pages.
Proof. split_and!; [done|done|]. intros [|[|i]] d Hd; [injection Hd as <-..|]; done. Qed.
Lemma toy_known : known (path_map toy_keys toy_pages) toy_catalog.
Proof.
  destruct known_init as (m & HI & HD).
  destruct (register_spec ∅ m catalog_init HI HD ("d0", 0%Z) toy_keys toy_pages toy_path) as (c & Hrun & HK & _); [done|].
  unfold toy_catalog. rewrite Hrun. cbn [snd]. by rewrite map_empty_union in HK.
Qed.
Lemma register_total_witness :
  ∃ c, register toy_keys toy_pages catalog_init = (inr tt, c) ∧ known (path_map toy_keys toy_pages) c.
Proof.
  destruct (register_total ∅ catalog_init toy_keys toy_pages known_init)
    as [(E & _)|[(idn & c & _ & Hrun & HK & _)|(msg & _ & Hn)]]; [discriminate E| |destruct (Hn ("d0", 0%Z)); split; [apply toy_path|intros i [=]]].
  exists c. rewrite map_empty_union in HK. exact (conj Hrun HK).
Defined.
Lemma toy_storable : storable 2 (path_map toy_keys toy_pages).
Proof.
  split; [lia|]. intros ks d Hk. apply elem_of_list_to_map_2 in Hk. unfold toy_keys, toy_pages in Hk. cbn in Hk.
  apply elem_of_cons in Hk as [Hk|Hk%list_elem_of_singleton]; injection Hk as -> ->; (split; [reflexivity|]); by repeat constructor.
Qed.
Lemma catalog_persists_witness :
  ∃ s n c, catalog_snapshot toy_catalog = (inr (Some s), toy_catalog) ∧ merge_snapshot s catalog_init = (inr n, c) ∧ known (path_map toy_keys toy_pages) c.
Proof.
  destruct (catalog_persists (path_map toy_keys toy_pages) toy_catalog 2 toy_known toy_storable) as (s & n & c & H1 & _ & H2 & H3 & _).
  - intros E. apply (f_equal (.!! [[1; 2]]%Z)) in E. vm_compute in E. discriminate E.
  - exists s, n, c. exact (conj H1 (conj H2 H3)).
Defined.
(** ** The restore service *)
Definition all_io (n : nat) : list loop_event :=
  [LBegin; LEvent (EStart n); LEvent (EIo n); LEvent (EFinish n); LEvent (EResume n)].
Definition toy_store : InMemoryKVStore := mkInMemory {["p0" := [1; 2; 3]%Z]}.
Definition toy_service_init : result (RemoteKVRestoreService InMemoryKVStore) :=
  service_init all_io toy_store None None None None 1.
Lemma toy_service_returns : returned toy_service_init = true.
Proof. vm_compute. reflexivity. Qed.
Definition service0 := got toy_service_init toy_service_returns.
Definition service1 := loop_turn (all_io 0) (service_submit_restore 0 [mkDescriptor "p0" "d0" 0 0] [3] service0).2.
Definition toy_restore : PendingRemoteRestore := mkPendingRestoreIO 0 [mkDescriptor "p0" "d0" 0 0] [3] [0].
Lemma restore_result_ready_witness :
  ∃ envelopes, restore_result all_io false toy_restore service1 = (inr envelopes, service1) ∧
    Forall2 (λ f v, future_view f service1 = VDone (inr (Some v))) [0] envelopes.
Proof.
  destruct (restore_result_ready all_io false toy_restore service1) as (r & Hrun & Hr); [reflexivity|vm_compute; reflexivity|].
  assert (Hfst : (restore_result all_io false toy_restore service1).1 = inr [[1; 2; 3]%Z]) by (vm_compute; reflexivity).
  rewrite Hrun in Hfst. cbn [fst] in Hfst. subst r. eexists. exact (conj Hrun Hr).
Defined.
Definition service2 : RemoteKVRestoreService InMemoryKVStore :=
  (publish_prefix all_io (take 1 toy_keys) (take 1 toy_pages) [[9%Z]] true service0).2.
Lemma catalog_acknowledged_witness :
  ∃ D0 D, D0 ⊆ D ∧ known D (sv_catalog service2) ∧ ∀ ks d, D !! ks = Some d → D0 !! ks = Some d ∨ acknowledged (pd_object_key d) service2.
Proof.
  assert (Hinit : service_init all_io toy_store None None None None 1 = inr service0) by exact (got_eq toy_service_init toy_service_returns).
  destruct (catalog_acknowledged all_io 2 toy_store None None None 1 service0 service2 [] Hinit) as (D0 & D & _ & Hsub & HK & Ha).
  - apply run_publish, run_start.
  - exists D0, D. exact (conj Hsub (conj HK Ha)).
Defined.
Definition service3 : RemoteKVRestoreService InMemoryKVStore := service0 <| sv_catalog := toy_catalog |>.
Lemma plan_restore_sound_witness :
  wp (service_plan_restore 2 (request 0 5 0) 1 (1 # 20)%Q) (λ r _, match r with
      | Some cand => cand_pages cand = longest_match (path_map toy_keys toy_pages) (prefix_keys 2 (request 0 5 0)) ∧ 1 < length (cand_pages cand)
      | None => length (longest_match (path_map toy_keys toy_pages) (prefix_keys 2 (request 0 5 0))) <= 1
      end) noexn service3.
Proof.
  eapply wp_mono; [apply (plan_restore_sound all_io (path_map toy_keys toy_pages) 2 (request 0 5 0) 1 (1 # 20)%Q service3)| |done].
  - exact toy_known.
  - lia.
  - reflexivity.
  - intros [cand|] s (_ & Hr).
    + destruct Hr as (-> & _ & Hlt & _). split; [reflexivity|exact Hlt].
    + destruct Hr as [Hle|[pl Hpl]]; [exact Hle|]. vm_compute in Hpl. discriminate Hpl.
Defined.
Lemma writeback_exports_suffice_witness :
  ∃ r s, submit_writeback toy_keys toy_pages (list_to_map [(0, [8%Z]); (1, [9%Z])]) (loop_turn (all_io 0)
    (pages_requiring_write toy_keys toy_pages service0).2) = (inr r, s).
Proof.
  assert (Hreq : pages_requiring_write toy_keys toy_pages service0 = (inr [0; 1], (pages_requiring_write toy_keys toy_pages service0).2))
    by (vm_compute; reflexivity).
  destruct (writeback_exports_suffice all_io ∅ toy_keys toy_pages (list_to_map [(0, [8%Z]); (1, [9%Z])]) (all_io 0) service0 [0; 1]
    (pages_requiring_write toy_keys toy_pages service0).2) as (r & s & Hrun & _).
  - exact known_init.
  - reflexivity.
  - by intros [=].
  - reflexivity.
  - exact Hreq.
  - intros i [->| ->%list_elem_of_singleton]%elem_of_cons; by eexists.
  - exists r, s. exact Hrun.
Defined.
