(* ===== verification/ServeExamples.v ===== *)
(** * The serving layer at work

    Two clients are served by a worker that owns the mock engine, and the theorems on the worker and the application are
    applied to that run. *)
From S2P Require Import Prelude Json Qos Sequence Policy StorageBackend SchedulerTrace Scheduler Config EngineWorker EngineWorkerSpec EngineWorkerStop MockEngine Protocol HttpApp HttpAppSpec ServeMain.
Set Default Goal Selector "!".

(** ** A worker on the mock engine *)
Definition clock_of (n : nat) : Q := inject_nat n.
Existing Instance mock_serving.
Existing Instance mock_lawful.
Definition hello : list ChatMessage := [mkChatMessage "user" "hi"].
Definition two_tokens : SamplingParams := mkSamplingParams 1 2 false.
(** Two requests arrive before the first look, the first of which streams; somebody stops the server later. *)
Definition two_clients (n : nat) : list ClientAction :=
  match n with 0 => [Submit hello two_tokens default_qos true; Submit hello two_tokens default_qos false] | 9 => [StopWorker] | _ => [] end.
Definition fresh_worker : InferenceWorker MockEngine Json Json := mkWorker mock_engine [] [] [] (None, 0) 0.
Abbreviation served := ((worker_run (H := mock_serving clock_of) two_clients 20 20 fresh_worker).2).
Lemma fresh_started : worker_start (Met := Json) (SM := Json) (inr mock_engine) = inr fresh_worker.
Proof. reflexivity. Qed.
Lemma mock_engine_ok : mock_ok mock_engine.
Proof. split; [by intros ? ? ?%not_elem_of_nil..|constructor]. Qed.
Lemma served_handles : h_stream <$> w_handles served = [true; false] ∧ w_incoming served = [] ∧
  (length ∘ h_events <$> w_handles served) = [3; 1].
Proof. vm_compute. done. Qed.
(** The events of both requests *)
Example served_texts : (λ hd, omap (λ ev, match ev with TextDelta s => Some s | GenerationFinished s _ _ reason _ => Some (s +:+ "/" +:+ reason) | _ => None end)
    (h_events hd)) <$> w_handles served = [["这"; "是"; "这是/length"]; ["这是/length"]].
Proof. vm_compute. reflexivity. Qed.

Lemma two_clients_arrive m : arrived two_clients m <= 3.
Proof.
  assert (Hlate : ∀ k, arrived two_clients (10 + k) = 3).
  { induction k as [|k IH]; [reflexivity|]. replace (10 + S k) with (S (10 + k)) by lia. rewrite arrived_S, IH. reflexivity. }
  destruct (decide (m < 10)) as [Hm|Hm]; [do 10 (destruct m as [|m]; [apply Nat.leb_le; reflexivity|]); lia|].
  replace m with (10 + (m - 10)) by lia. by rewrite Hlate.
Qed.
Lemma mock_cancel_returns i e : ∃ b, (mock_cancel_request i e).1 = inr b.
Proof. unfold mock_cancel_request, mbind, M_bind. cbn [getS]. destruct (assoc i (mk_active e)); by eexists. Qed.

(** ** Requests nobody answers *)
Definition late_client (n : nat) : list ClientAction := match n with 0 => [StopWorker; Submit hello two_tokens default_qos true] | _ => [] end.
Lemma stop_strands_witness :
  let w := (worker_run (H := mock_serving clock_of) late_client 3 3 fresh_worker).2 in
  w_incoming w = [Request (mkQueued 0 hello two_tokens default_qos)] ∧ w_handles w = [mkHandle true false []].
Proof.
  exact (stop_strands (HS := mock_serving clock_of) late_client (λ e, ex_intro _ _ eq_refl) hello two_tokens default_qos true mock_engine fresh_worker 2 2
    fresh_started eq_refl).
Defined.
Definition finishing : InferenceWorker MockEngine Json Json :=
  mkWorker mock_engine [] [mkHandle true false []] [(0, mkActive (mkQueued 0 hello two_tokens default_qos) 0 26 [] "")] (None, 0) 0.

(** ** The application *)
Definition no_fields (sm : Json) : list (string * Json) := match sm with JObj l => l | _ => [] end.
Definition shown (m : option Json) : Json := default (JObj []) m.
Definition posted : ChatCompletionRequest := default_request "demo" hello.
Lemma posted_valid : chat_completion_request posted = inr posted.
Proof. vm_compute. reflexivity. Qed.
Lemma validated_request_submits_witness :
  match submit "demo" "mock backend" no_fields posted true served with
  | inr (Submit messages sp qos stream) =>
      messages = hello ∧ stream = false ∧ sampling_params sp = inr sp ∧ request_qos qos = inr qos ∧ 1 <= sp_max_tokens sp ∧
      ∀ n, reported_max_model_len "demo" "mock backend" no_fields true served = Some n → (Z.of_nat (sp_max_tokens sp) <= n)%Z
  | inr _ => False
  | inl (HTTPException status _) =>
      status = 404%Z ∧ "demo" ≠ "demo" ∨ status = 400%Z ∧ ∃ n, reported_max_model_len "demo" "mock backend" no_fields true served = Some n ∧ (n < 128)%Z
  | inl (Unhandled _) => true = false
  end.
Proof.
  exact (validated_request_submits "demo" "mock backend" no_fields posted posted true served posted_valid).
Defined.
Lemma sse_round_trip_witness : let ps := [Payload (JStr (string_of [100; 10; 10; 100]%Z)); Done] in
  sse_frames [] (concat (sse (H := λ _, []) <$> ps)) = (λ p, bytes_of "data: " ++ sse_data (H := λ _, []) p) <$> ps.
Proof. apply (sse_round_trip (H := λ _, [])). intros q. constructor. Defined.
Definition first_handle : GenerationHandle Json := default (mkHandle false false []) (w_handles served !! 0).
Definition second_handle : GenerationHandle Json := default (mkHandle false false []) (w_handles served !! 1).
Lemma served_first : w_handles served !! 0 = Some first_handle ∧ h_stream first_handle = true.
Proof. vm_compute. done. Qed.
Lemma served_second : w_handles served !! 1 = Some second_handle ∧ h_stream second_handle = false.
Proof. vm_compute. done. Qed.
Lemma served_taken h : h ∉ queued_handles served.
Proof. unfold queued_handles. rewrite (proj1 (proj2 served_handles)). apply not_elem_of_nil. Qed.
Lemma completion_ends_witness : completion_loop "demo" shown "id" 0 (replicate 3 TimedOut ++ (Received <$> h_events second_handle)) ≠ None ∧
  match completion_loop "demo" shown "id" 0 (replicate 3 TimedOut ++ (Received <$> h_events second_handle)) with
  | Some (inr resp, cancelled) => cancelled = false ∧ rs_status resp = 200%Z ∧
      ∃ text ids n reason m, h_events second_handle = [GenerationFinished text ids n reason m] ∧
        rs_body resp = JsonBody (completion_json "demo" shown "id" 0 text ids n reason m)
  | Some (inl (HTTPException status _), cancelled) => cancelled = true ∧ (status = 499%Z ∧ h_events second_handle = [GenerationCancelled] ∨
      status = 500%Z ∧ ∃ message, h_events second_handle = [GenerationFailed message])
  | _ => False
  end.
Proof.
  split; [vm_compute; discriminate|].
  pose proof (completion_ends (HS := mock_serving clock_of) (LawfulServing0 := mock_lawful clock_of) (DecodingServing0 := mock_decoding clock_of) "demo" shown "id" 0 two_clients mock_engine
    fresh_worker 20 20 3 mock_engine_ok fresh_started) as HT. cbv zeta in HT.
  exact (HT 1 second_handle (proj1 served_second) (served_taken 1) (proj2 served_second)).
Defined.
Lemma closed_stream_cancels_witness : let events := (TextDelta <$> ["a"; "b"]) ++ [GenerationFinished "ab" [1; 2]%Z 3 "stop" (None : option Json)] in
  stream_closed_cancels events 3 = true ↔ 0 < 3 ∧ ∀ reason m, finish_chunk "demo" shown "id" 0 reason m ∉ take 3 (stream_events "demo" shown "id" 0 posted events).1.
Proof.
  apply (closed_stream_cancels "demo" shown "id" 0 posted ["a"; "b"] (Some (GenerationFinished "ab" [1; 2]%Z 3 "stop" None)) 3).
  intros t [= <-]. exact I.
Defined.
Lemma checked_args_configure_witness : choices_ok (default_args (Some "m")) = true ∧ system_exit (default_args (Some "m")) = None ∧
  ((∃ c, config_post_init (λ _, true) (mkHfConfig 32768 None) (engine_config "/models/m" (default_args (Some "m"))) = inr c) ↔
    true = true ∧ (0 < 25 # 2)%Q ∧ (0 <= 3 # 10)%Q).
Proof.
  assert (H1 : choices_ok (default_args (Some "m")) = true) by (vm_compute; reflexivity).
  assert (H2 : system_exit (default_args (Some "m")) = None) by (vm_compute; reflexivity).
  exact (conj H1 (conj H2 (checked_args_configure (λ _, true) (mkHfConfig 32768 None) "/models/m" (default_args (Some "m")) H1 H2))).
Defined.
