(* ===== verification/TensorExamples.v ===== *)
(** * Examples: tensor parallelism

    Integers as scalars, attention without a softmax, and a model of one layer on two ranks: the witnesses that the laws
    of the interfaces and the hypotheses of the theorems hold together. *)
From S2P Require Import Prelude Blake2b KvPage ModelRunner RankCalls Tensor ParallelLinear Qwen3 CacheSpec Qwen3Spec Loader LoaderSpec Qwen3Load.
Set Default Goal Selector "!".
Local Open Scope Z_scope.

(** ** Instances of the interfaces *)
#[local] Instance Z_scalar : Scalar Z := {|
  s_zero := 0; s_one := 1; s_add := Z.add; s_sub := Z.sub; s_mul := Z.mul; s_div := Z.div; s_pow := Z.pow; s_rsqrt := λ x, x;
  s_cos := λ x, 1 - x; s_sin := λ x, x; s_silu := Z.max 0; s_of_nat := Z.of_nat; to_float := λ x, x; to_dtype := λ x, x |}.
#[local] Instance Z_lawful : LawfulScalar Z.
Proof. split; cbn; [intros x y|intros x y z|intros x|intros x|intros x]; lia. Qed.
Definition find_row (W : list (list Z)) (i : Z) : result (list Z) :=
  if i <? 0 then inl (IndexError "index out of range in self") else py_nth W i.
#[local] Instance Z_torch : TorchNN Z := {|
  linear x w b := (λ xi, add_bias b (dot xi <$> w)) <$> x; embedding ids w := mapR (find_row w) ids |}.
Lemma find_row_spec W i row : find_row W i = inr row ↔ 0 <= i ∧ W !! Z.to_nat i = Some row.
Proof.
  unfold find_row, py_nth. destruct (i <? 0) eqn:E; breflect; [split; [done|lia]|]. rewrite (proj2 (Z.ltb_ge i 0)) by lia.
  destruct (W !! Z.to_nat i); split; [intros [= ->]; split; [lia|done]|by intros [_ [= ->]]|done|by intros [_ ?]].
Qed.
#[local] Instance Z_torch_lawful : LawfulTorchNN Z.
Proof.
  split; [done|]. intros ids w ys. cbn. rewrite mapR_inr. split; intros HF; (eapply Forall2_impl; [exact HF|]); intros i row; apply find_row_spec.
Qed.
#[local] Instance Z_param : TorchParam Z := {|
  empty1 n := replicate n 0; empty2 n k := replicate n (replicate k 0);
  copy_broadcast _ _ := inl (RuntimeError "The size of tensor a must match the size of tensor b") |}.
#[local] Instance Z_param_lawful : LawfulTorchParam Z.
Proof.
  split; [intros n; apply length_replicate|]. intros n k. split; [apply length_replicate|]. apply Forall_replicate, length_replicate.
Qed.
(** Attention weights are dot products, scaled. *)
Definition attend (scale : Z) (k v : list (list Z)) (q : list Z) : list Z :=
  foldr add_vectors (replicate (length q) 0) (zip_with (λ ki vi, Z.mul (scale * dot q ki) <$> vi) k v).
Definition attend_heads (scale : Z) (q k v : list (list (list Z))) : list (list (list Z)) :=
  (λ t, imap (λ h qh, let kh := (h / (length t / length (default [] (head k))))%nat in attend scale (head_of kh k) (head_of kh v) qh) t) <$> q.
#[local] Instance Z_flash : FlashAttention Z := {|
  flash_attn_varlen _ scale q k v := attend_heads scale q k v; flash_attn_with_kvcache _ scale q k v := attend_heads scale q k v |}.
Lemma attend_length scale d k v q : length q = d → Forall (λ vi, length vi = d) v → length (attend scale k v q) = d.
Proof.
  intros Hq Hv. unfold attend. revert k. induction Hv as [|vi v Hvi _ IH]; intros [|ki k]; cbn; try by rewrite length_replicate.
  unfold add_vectors at 1. rewrite length_zip_with, length_fmap, IH. lia.
Qed.
Lemma head_of_lengths h n d (x : list (list (list Z))) : (h < n)%nat → tokens n d x → Forall (λ row, length row = d) (head_of h x).
Proof.
  intros Hh Hx. apply Forall_fmap. eapply Forall_impl; [exact Hx|]. intros t [Hl Ht]. cbn.
  destruct (lookup_lt_is_Some_2 t h) as [row Hrow]; [lia|]. rewrite Hrow. by apply (Forall_lookup_1 _ _ _ _ Ht Hrow).
Qed.
Lemma attend_headwise scale : headwise (attend_heads scale).
Proof.
  exists (λ q k v, attend scale k v <$> q). intros group nk d q k v Hg Hnk Hq Hk Hv.
  assert (Hgroup : ∀ t : list (list Z), k ≠ [] → length t = (group * nk)%nat → (length t / length (default [] (head k)) = group)%nat).
  { intros t Hne Ht. destruct Hk as [|k0 k [Hk0 _] _]; [done|]. cbn. rewrite Ht, Hk0. apply Nat.div_mul. lia. }
  assert (Hnil : k = [] → ∀ kh v qh, attend scale (head_of kh k) (head_of kh v) qh = replicate (length qh) 0) by by intros ->.
  split_and!; [| |].
  - apply Forall_fmap. eapply Forall_impl; [exact Hq|]. intros t [Hl Ht]. cbn. rewrite length_imap. split; [done|].
    apply Forall_lookup. intros h row Hrow. rewrite list_lookup_imap in Hrow. apply fmap_Some in Hrow as (qh & Hqh & ->).
    pose proof (Forall_lookup_1 _ _ _ _ Ht Hqh) as Hlen. cbn in Hlen. destruct (decide (k = [])) as [Hk0|Hk0]; [by rewrite Hnil, length_replicate|].
    rewrite Hgroup by done. apply attend_length; [done|]. apply (head_of_lengths _ nk); [|done]. apply Nat.Div0.div_lt_upper_bound.
    apply lookup_lt_Some in Hqh. lia.
  - apply length_fmap.
  - intros h Hh. change (head_of h q) with ((λ t, default [] (t !! h)) <$> q).
    change (head_of h (attend_heads scale q k v)) with ((λ t, default [] (t !! h)) <$> attend_heads scale q k v).
    unfold attend_heads. rewrite <-!list_fmap_compose. apply list_fmap_ext. intros i t Ht. cbn.
    destruct (Forall_lookup_1 _ _ _ _ Hq Ht) as [Hl _]. rewrite list_lookup_imap. destruct (lookup_lt_is_Some_2 t h) as [qh Hqh]; [lia|].
    rewrite Hqh. cbn. destruct (decide (k = [])) as [Hk0|Hk0]; [|by rewrite Hgroup]. rewrite Hnil by done. by subst k.
Qed.
#[local] Instance Z_flash_lawful : LawfulFlashAttention Z.
Proof. split; intros context scale; apply attend_headwise. Qed.

(** ** One layer on two ranks *)
Definition toy_config : Qwen3Config (R := Z) := {|
  qc_vocab_size := 4; qc_hidden_size := 2; qc_intermediate_size := 2; qc_num_hidden_layers := 1; qc_num_attention_heads := 4;
  qc_num_key_value_heads := 2; qc_head_dim := Some 2%nat; qc_max_position_embeddings := 8; qc_rms_norm_eps := 1;
  qc_attention_bias := Some false; qc_rope_theta := None; qc_rope_scaling_theta := None; qc_hidden_act := "silu";
  qc_tie_word_embeddings := false |}.
Definition toy_layer : LayerWeights Z := {|
  lw_q := [[1; 2]; [0; 1]; [3; 1]; [1; 1]; [2; 1]; [1; 0]; [0; 2]; [1; 3]]; lw_k := [[1; 0]; [2; 1]; [0; 1]; [1; 1]];
  lw_v := [[1; 1]; [0; 2]; [2; 0]; [1; 3]]; lw_bias := None; lw_o := [[1; 0; 2; 1; 0; 1; 1; 0]; [0; 1; 1; 0; 2; 0; 1; 1]];
  lw_q_norm := [1; 2]; lw_k_norm := [2; 1]; lw_gate := [[1; 1]; [0; 1]]; lw_up := [[2; 1]; [1; 1]]; lw_down := [[1; 2]; [2; 1]];
  lw_input_norm := [1; 1]; lw_post_norm := [1; 2] |}.
Definition toy_weights : ModelWeights Z := {|
  mw_embed := [[1; 0]; [0; 1]; [1; 1]; [2; 1]]; mw_layers := [toy_layer]; mw_norm := [1; 1]; mw_head := [[1; 0]; [1; 1]; [0; 1]; [2; 1]] |}.
Definition toy_caches : list (list Z * list Z) := [(replicate 16 0, replicate 16 0)].
(** A prompt of three tokens, then one more *)
Definition toy_prefill : AttentionContext := mkContext true (Some [0; 3]) (Some [0; 3]) 3 3 (Some [0; 1; 2]) None None.
Definition toy_decode : AttentionContext := mkContext false None None 0 0 (Some [3]) (Some [4]) (Some [[0]]).
Definition toy_batches : list (AttentionContext * list Z * list Z) := [(toy_prefill, [0; 3; 1], [0; 1; 2]); (toy_decode, [2], [3])].
Definition returned {R A} (p : Spmd R A) (a0 : A) : A := match p with Ret a => a | _ => a0 end.
Definition toy_model : Qwen3ForCausalLM (R := Z) :=
  match loaded_rank 0 1 toy_config toy_weights with inr m => m | inl _ => rank_model 1 0 toy_config toy_weights 4 2 2 2 4 end.
Abbreviation toy_run := (returned (batches_forward (with_caches toy_model toy_caches) toy_batches) ([], toy_model)).
Lemma toy_config_ok : config_ok toy_config (2 * (2 * 1)) (2 * 1) 2 (2 * 1) (2 * 2) 2.
Proof. split; try reflexivity; [by exists 1%nat|cbn; lia]. Qed.
Ltac shaped_rows := split; [reflexivity|repeat first [apply Forall_nil_2 | apply Forall_cons_2; [reflexivity|]]].
Lemma toy_weights_ok : model_weights_ok toy_config (2 * (2 * 1)) (2 * 1) 2 (2 * 1) (2 * 2) 2 toy_weights.
Proof.
  split; [shaped_rows| |reflexivity|shaped_rows|done]. split; [reflexivity|]. apply Forall_cons_2; [|apply Forall_nil_2].
  split; try (by shaped_rows); by try split.
Qed.
Lemma toy_caches_ok : caches_ok 2 1 2 4 toy_config toy_caches.
Proof. split; [reflexivity|]. apply Forall_cons_2; [by split|apply Forall_nil_2]. Qed.
Lemma toy_contexts : Forall (λ b, context_valid 2 2 1 2 4 b.1.1) toy_batches.
Proof.
  repeat first [apply Forall_nil_2 | apply Forall_cons_2]; intros l [= <-]; (split; [|vm_compute; discriminate]);
    repeat first [apply Forall_nil_2 | apply Forall_cons_2; [lia|]].
Qed.
Lemma tensor_parallel_transparent_witness :
  batches_forward (with_caches toy_model toy_caches) toy_batches = Ret (toy_run.1, toy_run.2) ∧
  toy_run.1 = [Some [[1884; 3925; 2041; 5809]]; Some [[1166522; 2621668; 1455146; 3788190]]] ∧
  ∃ m mr, loaded_rank 0 1 toy_config toy_weights = inr m ∧ (∀ r, (r < 2)%nat → loaded_rank r 2 toy_config toy_weights = inr (mr r)) ∧
    ∃ fuel mr', run_ranks fuel ((λ r, batches_forward (with_caches (mr r) (part_caches 2 1 2 4 r toy_caches)) toy_batches) <$> seq 0 2) =
      Some ((λ r, (if (r =? 0)%nat then toy_run.1 else (λ _, None) <$> toy_run.1, mr' r)) <$> seq 0 2).
Proof.
  assert (Hf : batches_forward (with_caches toy_model toy_caches) toy_batches = Ret (toy_run.1, toy_run.2)) by (vm_compute; reflexivity).
  split; [exact Hf|]. split; [vm_compute; reflexivity|].
  destruct (tensor_parallel_transparent 2 2 1 2 1 2 2 4 toy_config toy_weights toy_caches toy_batches toy_run.1 toy_run.2 ltac:(lia) toy_config_ok
    toy_weights_ok toy_caches_ok ltac:(vm_compute; discriminate) toy_contexts) as (m & mr & Hm & Hmr & Hrun).
  exists m, mr. split; [exact Hm|]. split; [exact Hmr|]. apply Hrun.
  replace m with toy_model by (unfold toy_model; by rewrite Hm). exact Hf.
Defined.

(** ** The kernel, with its programs in another order and strided keys *)
Definition toy_key (idx : nat) : list Z := [[1; 2]; [3; 4]; [5; 6]] !!! idx.
Definition toy_value (idx : nat) : list Z := [[7; 8]; [9; 10]; [11; 12]] !!! idx.
Lemma kernel_any_order_witness : ∃ k_cache v_cache,
  run_programs (store_kvcache_kernel [1; 2; 0; 3; 4; 0; 5; 6; 0] 3 [7; 8; 9; 10; 11; 12] 2 [2; -1; 0] 2) [2; 0; 1]%nat (replicate 8 0, replicate 8 0) =
    Some (k_cache, v_cache) ∧ shard 2 2 k_cache = [1; 2] ∧ shard 2 0 v_cache = [11; 12] ∧ shard 2 1 k_cache = [0; 0].
Proof.
  destruct (kernel_any_order [1; 2; 0; 3; 4; 0; 5; 6; 0] [7; 8; 9; 10; 11; 12] 3 2 2 4 3 [2; -1; 0] toy_key toy_value (replicate 8 0, replicate 8 0)
    [2; 0; 1]%nat) as (k_cache & v_cache & Hrun & _ & _ & Hw & Ho).
  - split; [intros [|[|[|]]] ?; [split; [reflexivity|vm_compute; discriminate]..|lia]|intros [|[|[|]]] ?; [split; [reflexivity|vm_compute; discriminate]..|lia]
      | |reflexivity|vm_compute; discriminate].
    repeat first [apply Forall_nil_2 | apply Forall_cons_2; [lia|]].
  - intros i j z Hi Hj Hne. pose proof (lookup_lt_Some _ _ _ Hi) as Li. pose proof (lookup_lt_Some _ _ _ Hj) as Lj. cbn in Li, Lj.
    destruct i as [|[|[|i]]], j as [|[|[|j]]]; try lia; cbn in Hi, Hj; congruence.
  - change (seq 0 3) with [0; 1; 2]%nat. solve_Permutation.
  - reflexivity.
  - reflexivity.
  - exists k_cache, v_cache. split; [exact Hrun|]. split; [apply (Hw 0%nat 2%nat); reflexivity|].
    split; [apply (Hw 2%nat 0%nat); reflexivity|]. apply (Ho 1%nat); [lia|]. set_solver by lia.
Defined.

(** ** Loading, the files in any order *)
Definition toy_store : ParamStore Z := {|
  ps_names := {["norm" := ("norm", NoLoader); "qkv_proj" := ("qkv_proj", QKVLoader 1 1 1 1 2)]};
  ps_data := {["norm" := T1 [0; 0]; "qkv_proj" := T2 [[0]; [0]; [0]]]} |}.
Definition toy_files : list (list (string * Tensor Z)) := [
  [("v_proj", T2 [[5]; [6]])]; [("norm", T1 [7; 8]); ("q_proj", T2 [[1]; [2]]); ("k_proj", T2 [[3]; [4]])]].
Definition toy_want (key : string) : Tensor Z := if String.eqb key "norm" then T1 [7; 8] else T2 [[2]; [4]; [6]].
Lemma load_model_assembles_witness : ∃ s', load_model packed_modules_mapping toy_store toy_files = inr s' ∧ ps_names s' = ps_names toy_store ∧
  ps_data s' !! "qkv_proj" = Some (T2 [[2]; [4]; [6]]) ∧ ps_data s' !! "norm" = Some (T1 [7; 8]).
Proof.
  assert (Hstore : ∀ key data, ps_data toy_store !! key = Some data → key = "norm" ∧ data = T1 [0; 0] ∨ key = "qkv_proj" ∧ data = T2 [[0]; [0]; [0]]).
  { intros key data. cbn [toy_store ps_data]. destruct (decide (key = "norm")) as [->|H1]; [intros [= <-]; by left|].
    rewrite lookup_insert_ne by done. destruct (decide (key = "qkv_proj")) as [->|H2]; [intros [= <-]; by right|].
    by rewrite lookup_singleton_ne. }
  destruct (load_model_assembles 2 1 packed_modules_mapping toy_store toy_files toy_want) as (s' & Hs & Hn & Hd).
  - lia.
  - intros e He. cbn in He. repeat (apply elem_of_cons in He as [->|He]; [eexists; vm_compute; reflexivity|]). by apply not_elem_of_nil in He.
  - intros name key loader Hname. cbn [toy_store ps_names] in Hname. destruct (decide (name = "norm")) as [->|H1]; [injection Hname as <- _; by eexists|].
    rewrite lookup_insert_ne in Hname by done. apply lookup_singleton_Some in Hname as [<- [= <- _]]. by eexists.
  - intros key data [[-> ->]|[-> ->]]%Hstore; right.
    + exists NoLoader, [(T1 [7; 8], None)]. split; [vm_compute; reflexivity|]. by apply assembled_whole; [left|].
    + exists (QKVLoader 1 1 1 1 2), [(T2 [[5]; [6]], Some (ShardName "v")); (T2 [[1]; [2]], Some (ShardName "q")); (T2 [[3]; [4]], Some (ShardName "k"))].
      split; [vm_compute; reflexivity|].
      apply (assembled_qkv 2 1 T2 (λ x, length x = 1%nat) 1 1 1 [[0]; [0]; [0]] [[1]; [2]] [[3]; [4]] [[5]; [6]]);
        [apply rows_of_matrix|cbn; lia..|repeat constructor|repeat constructor|solve_Permutation].
  - exists s'. split; [exact Hs|]. split; [exact Hn|]. rewrite !Hd. split; vm_compute; reflexivity.
Defined.
Lemma layer_weight_target_witness : ("self_attn.k_proj.weight", ("self_attn.qkv_proj.weight", Some (ShardName "k"))) ∈ layer_weights ∧
  weight_target packed_modules_mapping "model.layers.27.self_attn.k_proj.weight" = ("model.layers.27.self_attn.qkv_proj.weight", Some (ShardName "k")).
Proof.
  assert (Hin : ("self_attn.k_proj.weight", ("self_attn.qkv_proj.weight", Some (ShardName "k"))) ∈ layer_weights) by (right; by left).
  exact (conj Hin (layer_weight_target 27 _ _ Hin)).
Defined.

(** ** Calls between three ranks *)
#[local] Instance name_pickle : Pickle () := {|
  pickle_dumps call := (Z.of_nat ∘ Ascii.nat_of_ascii) <$> String.list_ascii_of_string call.1;
  pickle_loads l := inr (String.string_of_list_ascii ((Ascii.ascii_of_nat ∘ Z.to_nat) <$> l), ()) |}.
#[local] Instance name_lawful : LawfulPickle ().
Proof.
  split; intros [name []]; cbn.
  - apply Forall_fmap, Forall_true. intros c. unfold byte_ok. cbn. pose proof (Ascii.nat_ascii_bounded c). lia.
  - do 2 f_equal. rewrite <-list_fmap_compose. rewrite <-(String.string_of_list_ascii_of_string name) at 2. f_equal.
    induction (String.list_ascii_of_string name) as [|c l IH]; csimpl; [done|]. by rewrite IH, Nat2Z.id, Ascii.ascii_nat_embedding.
Qed.
Definition rank_round : list Rank := [Rank0; Rank_ 1; Rank_ 0].
Definition run_exit : list (string * ()) := [("run", ()); ("exit", ())].
Abbreviation rank_calls k := (run_schedule (λ _, true) (λ _, true) (concat (replicate k rank_round)) (ranks_init (replicate 64 0%Z) 2 run_exit)).
Lemma calls_delivered_witness : (rk_main (rank_calls 15), wk_state <$> rk_workers (rank_calls 15)) = (MIdle, [LStopped; LStopped]) ∧
  (wk_log <$> rk_workers (rank_calls 15)) = [run_exit; run_exit] ∧ rk_main (rank_calls 3) = MSetting 2 ∧ enabled (λ _, true) (λ _, true) (rank_calls 3).
Proof.
  split_and!; [vm_compute; reflexivity..|].
  assert (Hex : exit_last run_exit) by (intros [|[|k]] [name []] Hk; cbn in Hk; simplify_eq; done).
  destruct (calls_delivered (λ _, true) (λ _, true) (replicate 64 0%Z) 2 run_exit (rank_calls 3)) as (_ & _ & _ & [He|[(Hm & _)|[e He]]] & _);
    [cbn; lia|by repeat constructor|exact Hex|apply run_schedule_reachable; constructor|exact He|vm_compute in Hm; discriminate|vm_compute in He; discriminate].
Defined.
(** Without the wait of rank 0 a call can be overwritten before a rank has read it. *)
Example call_lost : let s := run_schedule (λ _, false) (λ _, false) (replicate 8 Rank0 ++ replicate 4 (Rank_ 0)) (ranks_init (replicate 64 0%Z) 1 run_exit) in
  (rk_issued s, wk_log <$> rk_workers s) = (run_exit, [[("exit", ())]]).
Proof. vm_compute. reflexivity. Qed.
